(* ===== verification/_CoqProject ===== *)
-Q . S2P
Prelude.v
Order.v
Bytes.v
ByteOrder.v
Text.v
Wal.v
Alert.v
Schedule.v
Scheduler.v
Block.v
Compaction.v
Retention.v
Bloom.v
Layout.v
Utf8.v
BitStream.v
BitStreamFacts.v
Codec.v
Wire.v
WireQuery.v
WireWorker.v
Proto.v
WireFrames.v
ResultCache.v
BufPool.v
LiveRing.v
MemoryGuard.v
Redaction.v
Occ1.v
Occurrence.v
Grouping.v
ErrorsDb.v
ErrorsDbFacts.v
ErrorsIssues.v
AlertTemplate.v
AlertRecords.v
AlertStore.v
AlertsDb.v
AlertsDbFacts.v
AlertTick.v
AlertTickFacts.v
AlertEval.v
AlertEvalFacts.v
Lease.v
Catalog.v
CatalogFacts.v
Cluster.v
Poll.v
CompactResource.v
Postings.v
Merge.v
Maintenance.v
MaintenanceFacts.v
Pass.v
Pipeline.v
