(* ===== verification/Prelude.v ===== *)
(** * scry: a verification library

    scry is a single-binary observability store: agents and gateways send logs,
    metrics, traces and profiles over a framed TCP protocol; the ingest server
    writes every batch to a write-ahead log, keeps the newest records in a live
    ring, builds immutable parquet blocks and uploads them to object storage;
    compaction merges blocks, retention deletes them; the query daemon plans a
    query over the catalog of blocks, spreads blocks over workers, guards its
    memory and caches results; alerting evaluates rules on a schedule; the
    errors pipeline turns exception logs into occurrences and groups them into
    issues.  This library models the parts that carry this logic and proves what
    makes them correct.  [src/] is the repository.

    ** Files

    - [Prelude], [Order], [Bytes], [ByteOrder], [Text]: results and the [?] operator ([let?]),
      machine integers as [Z] inside their bounds, total orders with stable sorts
      and ordered maps ([Ord] for [Ord], [sort_by], [BTreeMap]), bytes and
      fixed-width integers, the [str] operations of the parsers.
    - [Wal] (crates/wal/src/lib.rs): the directory of segment files and the
      writer; [open], [append], [rotate], [mark_uploaded], [replay].  A crash
      keeps the sealed segments and any prefix of the active one.  [wal_rel]
      relates this to an abstract log of payloads per segment.
    - [Alert], [Schedule] (crates/alert/src/model.rs, state.rs, schedule.rs): the
      state machine [evaluate] of a rule, and its slots in time.
    - [Scheduler] (crates/server/src/distributed_scheduler.rs): [schedule_blocks],
      its loop as [assign_block] over [LoopState], rendezvous hashing.
    - [Block] (crates/block/src/meta.rs, lib.rs): sidecars and their ancestry,
      upload and delete against an [ObjectStore], a class with its laws; the
      trace of a call lists every store state it goes through.
    - [Compaction] (crates/compact/src/policy.rs) and [Retention]
      (crates/retention/src/policy.rs): planning over catalog entries.
    - [Bloom] (crates/block/src/bloom.rs): the body skip index and its sidecar.
    - [Layout] (crates/storage-layout/src/lib.rs): ownership of object keys.
    - [Utf8], [BitStream], [BitStreamFacts] (crates/binschema-runtime/src/bitstream.rs): the
      UTF-8 validator and the bit stream; [Codec]: reading and writing of message fields,
      and [carries], which says that what one writes the other reads back.
    - [Wire], [WireQuery], [WireWorker] (crates/proto/src/generated*.rs): a Module per
      message of the ingest, query and worker protocols; [WireFrames]
      (crates/proto/src/build.rs, framing.rs): the frame constructors and the instances
      of [Framed].
    - [Proto] (crates/proto/src/framing.rs, payload.rs, fingerprint.rs): frames of
      a [Framed] message type, bounded decompression, series fingerprints.
    - [ResultCache] (crates/query/src/result_cache.rs): the LRU cache over a
      [LinkedHashMap], a class with laws and an association-list instance.
    - [BufPool] (crates/objstore/src/pool.rs): the buffer pool.
    - [LiveRing] (crates/server/src/live_ring.rs): the ring of recent logs.
    - [MemoryGuard] (crates/server/src/memory_guard.rs): admission under memory
      pressure, over a [MemoryEnv] that probes, reclaims and tells the time; the
      call returns the trace of what it did.
    - [Redaction] (crates/proto/src/redaction.rs, the key policy), [Occ1]
      (crates/errors/src/occ1.rs and the encoder of lib.rs), [Occurrence]
      (extraction, identity and folding in crates/errors/src/lib.rs), [Grouping]
      (fingerprint.rs, issue.rs, quarantine.rs): the errors pipeline up to the
      group of an occurrence.  [ErrorsDb], [ErrorsDbFacts], [ErrorsIssues] (sqlite.rs, and
      the grouping phase of engine.rs): the database of occurrences, its generations and
      its issues.
    - [AlertTemplate], [AlertRecords] (crates/alert/src/template.rs, records.rs,
      target.rs, validation.rs), [AlertStore] (store.rs): templates, durable records and
      the control objects, written under conditions among other writers.  [AlertsDb],
      [AlertsDbFacts] (sqlite.rs): the local projection.  [AlertTick], [AlertTickFacts]
      (crates/scry-alertd/src/scheduler.rs): the passes of the scheduler.  [AlertEval],
      [AlertEvalFacts] (evaluator.rs): the evaluation of a slot, up to its commit.
    - [Lease] (crates/valkey/src/lease.rs, crates/cluster/src/lease.rs): the Valkey
      lease as steps of callers, messages in flight, a server key with its expiry and
      a clock; the fence of a holder; the in-process provider.
    - [Catalog] (crates/catalog/src/lib.rs): the SQLite tables as finite maps, each
      statement that writes them and each query; [CatalogFacts] their theorems.
    - [Cluster] (crates/block/src/events.rs, crates/cluster/src/consume.rs, staged.rs)
      and [Poll] (poll.rs): how a peer's catalog follows events, staged deletions and
      listings of the bucket.
    - [CompactResource] (crates/compact/src/resource.rs and the estimate of
      engine.rs): weighted admission as atomic steps of concurrent callers, and the
      budgets of a merge.  [Postings] (crates/block/src/postings.rs and the k-way
      merge of crates/compact/src/merge.rs).  [Merge] (merge.rs): [merge_blocks] over
      an [ObjectStore], with DataFusion's scan and the parquet files in [MergeEnv].
    - [Maintenance] (crates/retention/src/engine.rs, crates/compact/src/engine.rs,
      crates/cluster/src/maintain.rs): reapers, retention passes and the compaction of
      a partition over worlds of a store and a catalog; [MaintenanceFacts] their
      theorems; [Pass] the compaction passes, which compose the reconcile of [Poll],
      the revalidation of the plan and [compact_partition].
    - [Pipeline] (crates/server/src/pipeline.rs): the ingest pipeline over [Wal], a
      [BlockBuilder] class for the columnar builder, a bucket and a catalog; ingest,
      flushes, uploads with their outcomes and releases, crashes and starts are steps.

    ** What is shown

    - Durability: a WAL that goes through any run of appends, rotations, releases
      and crashes refines the abstract log, recovers every sealed payload and a
      prefix of the active ones, releases exactly what it is told, and its replay
      terminates on any directory (a bad checksum ends a segment silently).  Under
      any interleaving of ingest, uploads, failures, crashes and starts an acknowledged
      batch is in the bucket or read back from the log, and a start ingests all of
      it; the published watermark can pass a batch that is not durable.  The
      sidecar is the commit point of upload and delete in every intermediate
      state of the store.
    - Scheduling: every block is assigned once, within the caps, to the cheapest
      admissible worker, independently of input order; rendezvous affinity moves
      only to the worker that was added.
    - Alerting: firing needs a sustained condition, active alerts never fall back
      to pending, slots are evaluated once, and the latest due slot is found.  However
      evaluators and failing writes interleave, the durable head of a monitor is a run of
      that state machine and names a stored transition; the scheduler starves no monitor,
      never runs one twice and keeps within its permits; the projection depends only on
      the records folded into it, and pruning keeps what is newer than the listing;
      templates that compile render without a panic.
    - Lineage: ancestor closures are exact and decodable, planned merges are
      disjoint and made of the smallest blocks (the planner's ancestry guard never fires
      on catalog rows); retention selects exactly the expired blocks.
    - Errors: the canonical bytes round trip, depend on a record only through its
      redacted content, and decide duplicates and collisions; fingerprints
      identify groups (but do not tell the two fallback rules apart); the parsers of keys
      and UUIDs are characterised exactly; the decoder returns on every input.  Issues are
      exactly the aggregates of the occurrences that were grouped, whatever the pages; a
      generation is switched to only when it is complete.
    - Coordination: whoever passes the fence of a lease owns it on the server;
      what is live in the catalog does not depend on the order of insertions, never
      counts a row twice, and a peer that applies the events has the same live
      blocks; cursors leave no gap, watermarks are exact and grace is never shortened.
    - Maintenance: a compaction pass leaves partitions alone whose lease it does not
      get; under the lease and its fence it merges only inputs that are live after a
      reconcile, and in every world it goes through, whatever requests or reads fail, the
      inputs are intact or the output stands for them; retention removes only what expired
      and whose grace elapsed, objects before rows; the report of a pass counts exactly
      the results of its plan.  The
      streaming merge of postings equals the in-memory union; memory admission never
      exceeds its envelope under any interleaving.
    - Index and protocol: no false negatives of the skip index unless two grams agree on
      the first hash only (and which parsed filters can be probed at all), frames of
      all three protocols round trip as long as lengths fit their prefixes (and are
      corrupted when one does not), decompression is bounded.
    - Resources: caches, pools and rings keep their bounds and evict in order;
      queries are admitted only below the memory threshold.

    ** Conventions

    A Rust integer is a [Z]; wrapping, saturating and checked operations are
    written where the code has them, and [usize] has 64 bits.  A float that
    is compared is a [spec_float], one that is only stored its bits.  A panic is
    [None] of an option.  Loops whose bound is not structural take fuel: the
    decoder of [Occ1] gets three units per input byte (each call either moves the
    cursor four bytes on or is one of at most three calls before the next move),
    replay and recovery one unit per byte on disk, eviction loops the number of entries, the
    postings merge one unit per input row, the key segments and [trim] the length
    of the text, the variable-length integers the 7 to 11 turns that their width allows, a
    grouping pass the most rows it may read, templates the length of the text and
    [MAX_TEMPLATE_NODES + 1] nodes, a scheduler pass [2 * |monitors| + 2] pages; theorems
    state that the fuel is enough or hold for every larger fuel.  Code that is not in the repository is
    a parameter: CRC-32, xxHash, SHA-256, Unicode normalisation, zstd, the
    regex search, the SQL parser, serde_json, civil dates, the object store,
    the clock and the cgroup files.  What is used of them is a hypothesis, shown
    to hold of a concrete instance by the witness of the theorem.

    ** What is not modelled

    The contents of parquet files and DataFusion's plans, and with them the columnar block
    builders and the query engine; SQLite's engine and its migrations, and failing reads of
    the catalog outside compaction; sockets, HTTP servers, network clients, task wiring and
    command lines; the TypeScript front ends; partitions of one pass that run in parallel;
    the secret generations of notification targets and their delivery.  Next along the
    plan: the rewriting of batches by the redactor, the logs-v2 codec and the streaming
    decoders, budget resolution in crates/resources, block pruning, the registry of
    crates/valkey, the agent's line parsers, label matchers and durations, the publication
    of error projections. *)

From Stdlib Require Export ZArith Lia List Bool.
From stdpp Require Export base tactics option list strings gmap.
From Stdlib Require Import Sorting.Sorted.

(** ** Results: Rust's [Result<T, E>] *)

Inductive result (E A : Type) : Type :=
| Ok (a : A)
| Err (e : E).
Arguments Ok {E A} _.
Arguments Err {E A} _.

Definition is_ok {E A} (r : result E A) : bool :=
  match r with Ok _ => true | Err _ => false end.

Definition result_bind {E A B} (r : result E A) (k : A -> result E B) : result E B :=
  match r with Ok a => k a | Err e => Err e end.

Definition map_err {E F A} (f : E -> F) (r : result E A) : result F A :=
  match r with Ok a => Ok a | Err e => Err (f e) end.

Lemma bind_ok {E A B} (r : result E A) (k : A -> result E B) y :
  result_bind r k = Ok y -> exists x, r = Ok x /\ k x = Ok y.
Proof. destruct r; simpl; [eauto|done]. Qed.

Lemma bind_cong {E A B} (r r' : result E A) (k k' : A -> result E B) :
  r = r' -> (forall a, k a = k' a) -> result_bind r k = result_bind r' k'.
Proof. intros -> Hk. destruct r'; simpl; auto. Qed.

Declare Scope rust_scope.
Delimit Scope rust_scope with rust.

(** The [?] operator: [let? x := r in k] returns early with the error. *)
Notation "'let?' x ':=' r 'in' k" := (result_bind r (fun x => k))
  (at level 10, x name, r at level 100, k at level 200)
  : rust_scope.
Notation "'let?' ' p ':=' r 'in' k" := (result_bind r (fun p => k))
  (at level 10, p pattern, r at level 100, k at level 200)
  : rust_scope.
(** [ensure! c else e in k]: the early return [if !c { return Err(e) }]. *)
Notation "'ensure!' c 'else' e 'in' k" := (if c then k else Err e)
  (at level 10, c at level 100, e at level 100, k at level 200)
  : rust_scope.
Open Scope rust_scope.

(** ** Machine integers

    A Rust integer is a [Z] inside the bounds of its type.  [usize] is the
    64-bit one. *)

Open Scope Z_scope.

Definition u8_max : Z := 2 ^ 8 - 1.
Definition u16_max : Z := 2 ^ 16 - 1.
Definition u32_max : Z := 2 ^ 32 - 1.
Definition u64_max : Z := 2 ^ 64 - 1.
Definition usize_max : Z := u64_max.

Definition in_u8 (z : Z) : Prop := 0 <= z <= u8_max.
Definition in_u16 (z : Z) : Prop := 0 <= z <= u16_max.
Definition in_u32 (z : Z) : Prop := 0 <= z <= u32_max.
Definition in_u64 (z : Z) : Prop := 0 <= z <= u64_max.
Abbreviation in_usize := in_u64 (only parsing).

(** Saturating and checked operations of [u64] (and [usize]). *)
Definition sat_add (a b : Z) : Z := Z.min (a + b) u64_max.
Definition sat_sub (a b : Z) : Z := Z.max (a - b) 0.
Definition sat_mul (a b : Z) : Z := Z.min (a * b) u64_max.

Definition checked (m z : Z) : option Z :=
  if (0 <=? z) && (z <=? m) then Some z else None.
Definition checked_add (a b : Z) : option Z := checked u64_max (a + b).
Definition checked_sub (a b : Z) : option Z := checked u64_max (a - b).
Definition checked_mul (a b : Z) : option Z := checked u64_max (a * b).

(** Wrapping operations of [u64]. *)
Definition wrap64 (z : Z) : Z := z mod 2 ^ 64.
Definition wrapping_add (a b : Z) : Z := wrap64 (a + b).
Definition wrapping_mul (a b : Z) : Z := wrap64 (a * b).

(** The casts [as i64] and [as u32], and [v.min(i64::MAX as u64) as i64]. *)
Definition i64_max : Z := 2 ^ 63 - 1.
Definition as_i64 (z : Z) : Z := (z + 2 ^ 63) mod 2 ^ 64 - 2 ^ 63.
Definition as_u32 (z : Z) : Z := z mod 2 ^ 32.
Definition clamp_i64 (z : Z) : Z := as_i64 (Z.min z i64_max).

(** [u64::div_ceil] for a positive divisor. *)
Definition div_ceil (a b : Z) : Z := a / b + (if a mod b =? 0 then 0 else 1).

(** The length of a vector as a [usize]. *)
Definition zlen {A} (l : list A) : Z := Z.of_nat (length l).

Ltac unfold_ints :=
  unfold in_u8, in_u16, in_u32, in_u64, sat_add, sat_sub, sat_mul,
    checked_add, checked_sub, checked_mul, u8_max, u16_max, u32_max,
    usize_max, u64_max in *.

(** Split the boolean tests of a goal into linear facts. *)
Ltac split_tests :=
  repeat match goal with
  | H : context [ ?a <? ?b ] |- _ => destruct (Z.ltb_spec a b)
  | H : context [ ?a <=? ?b ] |- _ => destruct (Z.leb_spec a b)
  | H : context [ ?a =? ?b ] |- _ => destruct (Z.eqb_spec a b)
  | |- context [ ?a <? ?b ] => destruct (Z.ltb_spec a b)
  | |- context [ ?a <=? ?b ] => destruct (Z.leb_spec a b)
  | |- context [ ?a =? ?b ] => destruct (Z.eqb_spec a b)
  end.

Ltac ints := unfold_ints; split_tests; simpl in *; try lia.

Section MachineIntegers.
  Implicit Types a b m z : Z.

Lemma checked_Some m z r : checked m z = Some r <-> r = z /\ 0 <= z <= m.
Proof.
  unfold checked. destruct (Z.leb_spec 0 z), (Z.leb_spec z m); simpl;
    (split; [intros [=]; subst; lia|intros [-> ?]; lia || done]).
Qed.

Lemma checked_None m z : checked m z = None <-> ~ (0 <= z <= m).
Proof.
  unfold checked. destruct (Z.leb_spec 0 z), (Z.leb_spec z m); simpl;
    (split; [intros [=]; lia|intros ?; lia || done]).
Qed.

Lemma sat_add_range a b : 0 <= a -> 0 <= b -> in_u64 (sat_add a b).
Proof. ints. Qed.

Lemma sat_sub_range a b : in_u64 a -> 0 <= b -> in_u64 (sat_sub a b).
Proof. ints. Qed.

Lemma sat_add_exact a b : a + b <= u64_max -> sat_add a b = a + b.
Proof. ints. Qed.

Lemma wrap64_range z : in_u64 (wrap64 z).
Proof. unfold wrap64. pose proof (Z.mod_pos_bound z (2 ^ 64)). ints. Qed.

Lemma wrap64_id z : in_u64 z -> wrap64 z = z.
Proof. intros. apply Z.mod_small. ints. Qed.

(** A [u64] survives the trip through a signed column. *)
Lemma as_i64_roundtrip z : in_u64 z -> wrap64 (as_i64 z) = z.
Proof.
  unfold in_u64, u64_max, wrap64, as_i64. intros Hz.
  rewrite Zminus_mod_idemp_l. replace (z + 2 ^ 63 - 2 ^ 63) with z by lia.
  apply Z.mod_small. lia.
Qed.

Lemma as_i64_id z : - 2 ^ 63 <= z <= i64_max -> as_i64 z = z.
Proof. unfold as_i64, i64_max. intros. rewrite Z.mod_small; lia. Qed.

Lemma as_i64_range z : - 2 ^ 63 <= as_i64 z <= i64_max.
Proof. unfold as_i64, i64_max. pose proof (Z.mod_pos_bound (z + 2 ^ 63) (2 ^ 64)). lia. Qed.

Lemma as_u32_id z : in_u32 z -> as_u32 z = z.
Proof. unfold in_u32, u32_max, as_u32. intros. apply Z.mod_small. lia. Qed.

Lemma clamp_i64_id z : 0 <= z <= i64_max -> clamp_i64 z = z.
Proof. intros. unfold clamp_i64. rewrite Z.min_l by lia. apply as_i64_id. lia. Qed.

Lemma div_ceil_spec a b :
  0 < b -> b * (div_ceil a b - 1) < a <= b * div_ceil a b.
Proof.
  intros Hb. unfold div_ceil.
  pose proof (Z.div_mod a b ltac:(lia)).
  pose proof (Z.mod_pos_bound a b Hb).
  destruct (Z.eqb_spec (a mod b) 0); nia.
Qed.

Lemma div_ceil_nonneg a b : 0 <= a -> 0 < b -> 0 <= div_ceil a b.
Proof.
  intros. unfold div_ceil. pose proof (Z.div_pos a b).
  destruct (a mod b =? 0); lia.
Qed.
End MachineIntegers.

Lemma zlen_nonneg {A} (l : list A) : 0 <= zlen l.
Proof. unfold zlen. lia. Qed.

Lemma zlen_app {A} (l1 l2 : list A) : zlen (l1 ++ l2) = zlen l1 + zlen l2.
Proof. unfold zlen. rewrite length_app. lia. Qed.

Lemma zlen_nil {A} : zlen (@nil A) = 0.
Proof. done. Qed.

Lemma zlen_cons {A} (x : A) l : zlen (x :: l) = 1 + zlen l.
Proof. unfold zlen. simpl. lia. Qed.

Lemma zlen_map {A B} (f : A -> B) l : zlen (map f l) = zlen l.
Proof. unfold zlen. by rewrite length_map. Qed.

Lemma NoDup_omap_inj {A B} (f : A -> option B) (l : list A) :
  (forall x y z, x ∈ l -> y ∈ l -> f x = Some z -> f y = Some z -> x = y) ->
  NoDup l -> NoDup (omap f l).
Proof.
  intros Hinj Hnd. induction Hnd as [|x l Hx Hnd IH]; simpl; [constructor|].
  assert (NoDup (omap f l)) by (apply IH; intros; eapply Hinj; eauto; by right).
  destruct (f x) as [z|] eqn:E; [|done]. constructor; [|done].
  intros (y & Hy & Hfy)%list_elem_of_omap. apply Hx.
  rewrite (Hinj x y z); [done|by left|by right|done|done].
Qed.

Lemma StronglySorted_impl {A} (R S : A -> A -> Prop) l :
  (forall x y, R x y -> S x y) -> StronglySorted R l -> StronglySorted S l.
Proof.
  intros HRS. induction 1 as [|x l Hs IH Hf]; constructor; [done|].
  eapply List.Forall_impl; [|exact Hf]. auto.
Qed.

Lemma NoDup_map_inj {A B} (f : A -> B) (l : list A) x y :
  NoDup (map f l) -> In x l -> In y l -> f x = f y -> x = y.
Proof.
  induction l as [|z l IH]; simpl; [done|]. rewrite NoDup_cons, list_elem_of_In.
  intros [Hz Hn] [->|Hx] [->|Hy] Heq; auto.
  - destruct Hz. rewrite Heq. by apply in_map.
  - destruct Hz. rewrite <- Heq. by apply in_map.
Qed.

Lemma size_list_to_set_le `{Countable A} (l : list A) :
  (size (list_to_set l : gset A) <= length l)%nat.
Proof.
  induction l as [|x l IH]; cbn [list_to_set length]; [rewrite size_empty; lia|].
  destruct (decide (x ∈ (list_to_set l : gset A))) as [Hx|Hx].
  - replace ({[x]} ∪ list_to_set l) with (list_to_set l : gset A) by set_solver. lia.
  - rewrite size_union by set_solver. rewrite size_singleton. lia.
Qed.

(** ** Sums over a finite map *)

Definition map_sum {K V} `{Countable K} (f : V -> Z) (m : gmap K V) : Z :=
  map_fold (fun _ v acc => f v + acc) 0 m.

Lemma map_sum_empty {K V} `{Countable K} (f : V -> Z) : map_sum f (∅ : gmap K V) = 0.
Proof. apply map_fold_empty. Qed.

Lemma map_sum_delete {K V} `{Countable K} (f : V -> Z) (m : gmap K V) i v :
  m !! i = Some v -> map_sum f m = f v + map_sum f (delete i m).
Proof.
  intros Hi. unfold map_sum. rewrite (map_fold_delete_L _ _ i v m); [done| |done]. intros; lia.
Qed.

Lemma map_sum_insert {K V} `{Countable K} (f : V -> Z) (m : gmap K V) i v :
  map_sum f (<[i := v]> m) = f v + map_sum f (delete i m).
Proof.
  rewrite (map_sum_delete f _ i v) by apply lookup_insert_eq. by rewrite delete_insert_eq.
Qed.

Lemma map_sum_nonneg {K V} `{Countable K} (f : V -> Z) (m : gmap K V) :
  (forall i v, m !! i = Some v -> 0 <= f v) -> 0 <= map_sum f m.
Proof.
  induction m as [|i v m Hi IH] using map_ind; [rewrite map_sum_empty; lia|].
  intros Hf. rewrite map_sum_insert, delete_id by done.
  assert (0 <= f v) by (eapply Hf, lookup_insert_eq).
  assert (0 <= map_sum f m); [|lia]. apply IH. intros j w Hj. apply (Hf j).
  rewrite lookup_insert_ne; [done|congruence].
Qed.

Lemma map_sum_le {K V} `{Countable K} (f g : V -> Z) (m : gmap K V) :
  (forall i v, m !! i = Some v -> f v <= g v) -> map_sum f m <= map_sum g m.
Proof.
  induction m as [|i v m Hi IH] using map_ind; [rewrite !map_sum_empty; lia|].
  intros Hf. rewrite !map_sum_insert, !delete_id by done.
  assert (f v <= g v) by (eapply Hf, lookup_insert_eq).
  assert (map_sum f m <= map_sum g m); [|lia]. apply IH. intros j w Hj. apply (Hf j).
  rewrite lookup_insert_ne; [done|congruence].
Qed.
