(* ===== verification/Order.v ===== *)
(** * Orders, stable sorting and ordered maps

    The parts of Rust's standard library that the modelled code leans on:
    the [Ord] trait, [slice::sort_by] (a stable sort) and [BTreeMap] (here an
    association list whose keys are strictly increasing, which is also its
    iteration order). *)

From Stdlib Require Import Sorting.Sorted Sorting.Permutation.
From S2P Require Import Prelude.

(** ** The [Ord] trait *)

Class Ord (A : Type) := {
  cmp : A -> A -> comparison;
  cmp_eq : forall x y, cmp x y = Eq <-> x = y;
  cmp_antisym : forall x y, cmp y x = CompOpp (cmp x y);
  cmp_lt_trans : forall x y z, cmp x y = Lt -> cmp y z = Lt -> cmp x z = Lt;
}.

Definition cmp_leb {A} `{Ord A} (x y : A) : bool :=
  match cmp x y with Gt => false | _ => true end.
Definition cmp_ltb {A} `{Ord A} (x y : A) : bool :=
  match cmp x y with Lt => true | _ => false end.

(** [Ordering::then_with]. *)
Definition then_with (c d : comparison) : comparison :=
  match c with Eq => d | _ => c end.

#[export] Program Instance Z_Ord : Ord Z := {| cmp := Z.compare |}.
Next Obligation. intros. apply Z.compare_eq_iff. Qed.
Next Obligation. intros. apply Z.compare_antisym. Qed.
Next Obligation.
  intros x y z. rewrite !Z.compare_lt_iff. lia.
Qed.

Lemma ascii_compare_lt_trans a b c :
  Ascii.compare a b = Lt -> Ascii.compare b c = Lt -> Ascii.compare a c = Lt.
Proof. unfold Ascii.compare. rewrite !N.compare_lt_iff. lia. Qed.

Lemma ascii_compare_refl a : Ascii.compare a a = Eq.
Proof. unfold Ascii.compare. apply N.compare_refl. Qed.

Lemma string_compare_refl s : String.compare s s = Eq.
Proof. induction s; simpl; rewrite ?ascii_compare_refl; auto. Qed.

Lemma string_compare_lt_trans s t u :
  String.compare s t = Lt -> String.compare t u = Lt -> String.compare s u = Lt.
Proof.
  revert t u. induction s as [|a s IH]; intros [|b t] [|c u]; simpl; try done.
  destruct (Ascii.compare a b) eqn:Hab, (Ascii.compare b c) eqn:Hbc; try done.
  - apply Ascii.compare_eq_iff in Hab, Hbc. subst.
    rewrite ascii_compare_refl. apply IH.
  - apply Ascii.compare_eq_iff in Hab. subst. by rewrite Hbc.
  - apply Ascii.compare_eq_iff in Hbc. subst. by rewrite Hab.
  - by rewrite (ascii_compare_lt_trans _ _ _ Hab Hbc).
Qed.

#[export] Program Instance string_Ord : Ord string := {| cmp := String.compare |}.
Next Obligation.
  intros. split; [apply String.compare_eq_iff|intros ->; apply string_compare_refl].
Qed.
Next Obligation. intros. apply String.compare_antisym. Qed.
Next Obligation. intros. by eapply string_compare_lt_trans. Qed.

#[export] Program Instance prod_Ord {A B} `{Ord A} `{Ord B} : Ord (A * B) :=
  {| cmp := fun p q => then_with (cmp p.1 q.1) (cmp p.2 q.2) |}.
Next Obligation.
  intros A B HA HB [a b] [c d]; simpl. destruct (cmp a c) eqn:E; simpl.
  - apply cmp_eq in E as ->. rewrite cmp_eq. split; [by intros ->|congruence].
  - split; [done|]. intros [= -> ->]. by rewrite (proj2 (cmp_eq c c) eq_refl) in E.
  - split; [done|]. intros [= -> ->]. by rewrite (proj2 (cmp_eq c c) eq_refl) in E.
Qed.
Next Obligation.
  intros A B HA HB [a b] [c d]; simpl. rewrite (cmp_antisym a c), (cmp_antisym b d).
  by destruct (cmp a c).
Qed.
Next Obligation.
  intros A B HA HB [a b] [c d] [e f]; simpl.
  destruct (cmp a c) eqn:E, (cmp c e) eqn:F; simpl; try done.
  - apply cmp_eq in E as ->. rewrite F. apply cmp_lt_trans.
  - apply cmp_eq in E as ->. by rewrite F.
  - apply cmp_eq in F as ->. by rewrite E.
  - by rewrite (cmp_lt_trans _ _ _ E F).
Qed.

Section OrdFacts.
  Context {A : Type} `{Ord A}.
  Implicit Types x y z : A.

Lemma cmp_refl x : cmp x x = Eq.
Proof. by apply cmp_eq. Qed.

Lemma cmp_gt_lt x y : cmp x y = Gt <-> cmp y x = Lt.
Proof. rewrite (cmp_antisym x y). by destruct (cmp x y). Qed.

Lemma cmp_lt_ne x y : cmp x y = Lt -> x <> y.
Proof. intros Hlt ->. by rewrite cmp_refl in Hlt. Qed.

Lemma cmp_leb_total x y : cmp_leb x y = true \/ cmp_leb y x = true.
Proof. unfold cmp_leb. rewrite (cmp_antisym x y). destruct (cmp x y); auto. Qed.

Lemma cmp_leb_trans x y z :
  cmp_leb x y = true -> cmp_leb y z = true -> cmp_leb x z = true.
Proof.
  unfold cmp_leb. destruct (cmp x y) eqn:E; try done.
  - by apply cmp_eq in E as ->.
  - destruct (cmp y z) eqn:F; try done.
    + apply cmp_eq in F as ->. by rewrite E.
    + by rewrite (cmp_lt_trans _ _ _ E F).
Qed.

Lemma cmp_leb_antisym x y : cmp_leb x y = true -> cmp_leb y x = true -> x = y.
Proof.
  unfold cmp_leb. rewrite (cmp_antisym x y).
  destruct (cmp x y) eqn:E; try done. by apply cmp_eq in E.
Qed.
End OrdFacts.

(** ** Stable sorting: [slice::sort_by] *)

Section StableSort.
  Context {A : Type} (leb : A -> A -> bool).

Fixpoint sort_insert (x : A) (l : list A) : list A :=
  match l with
  | [] => [x]
  | y :: l' => if leb x y then x :: y :: l' else y :: sort_insert x l'
  end.

Fixpoint stable_sort (l : list A) : list A :=
  match l with
  | [] => []
  | x :: l' => sort_insert x (stable_sort l')
  end.

Lemma sort_insert_perm x l : Permutation (sort_insert x l) (x :: l).
Proof.
  induction l as [|y l IH]; simpl; [done|]. case_match; [done|].
  rewrite IH. apply Permutation_swap.
Qed.

Lemma stable_sort_perm l : Permutation (stable_sort l) l.
Proof. induction l as [|x l IH]; simpl; [done|]. by rewrite sort_insert_perm, IH. Qed.

Lemma stable_sort_length l : length (stable_sort l) = length l.
Proof. apply Permutation_length, stable_sort_perm. Qed.

Lemma stable_sort_In x l : In x (stable_sort l) <-> In x l.
Proof. split; apply Permutation_in; [|symmetry]; apply stable_sort_perm. Qed.

Let le x y := leb x y = true.

Hypothesis leb_total : forall x y, leb x y = true \/ leb y x = true.
Hypothesis leb_trans : forall x y z, leb x y = true -> leb y z = true -> leb x z = true.

Lemma sort_insert_sorted x l :
  StronglySorted le l -> StronglySorted le (sort_insert x l).
Proof.
  induction 1 as [|y l Hs IH Hy]; simpl; [by repeat constructor|].
  destruct (leb x y) eqn:E.
  - constructor; [by constructor|]. constructor; [done|].
    eapply List.Forall_impl; [|exact Hy]. intros z Hz. by eapply leb_trans.
  - constructor; [done|].
    assert (le y x) by (destruct (leb_total x y); [congruence|done]).
    apply List.Forall_forall. intros z Hz.
    apply (Permutation_in _ (sort_insert_perm x l)) in Hz as [<-|Hz]; [done|].
    rewrite List.Forall_forall in Hy. by apply Hy.
Qed.

Lemma stable_sort_sorted l : StronglySorted le (stable_sort l).
Proof.
  induction l; simpl; [constructor|]. by apply sort_insert_sorted.
Qed.

(** Stability: elements that compare equal to [x] keep their order. *)
Let eqv x y := leb x y && leb y x.

Lemma sort_insert_filter_other x y l :
  eqv x y = false ->
  List.filter (eqv x) (sort_insert y l) = List.filter (eqv x) l.
Proof.
  intros Hxy. induction l as [|z l IH]; simpl; [by rewrite Hxy|].
  case_match; simpl; [by rewrite Hxy|]. by rewrite IH.
Qed.

Lemma sort_insert_filter_eqv x y l :
  eqv x y = true -> StronglySorted le l ->
  List.filter (eqv x) (sort_insert y l) = y :: List.filter (eqv x) l.
Proof.
  intros Hxy. induction 1 as [|z l Hs IH Hz]; simpl; [by rewrite Hxy|].
  destruct (leb y z) eqn:E; simpl; [by rewrite Hxy|].
  rewrite IH. destruct (eqv x z) eqn:F; [|done].
  exfalso. unfold eqv in *. apply andb_true_iff in Hxy as [? ?], F as [? ?].
  assert (leb y z = true) by eauto. congruence.
Qed.

Lemma stable_sort_stable x l :
  List.filter (eqv x) (stable_sort l) = List.filter (eqv x) l.
Proof.
  induction l as [|y l IH]; simpl; [done|]. destruct (eqv x y) eqn:E.
  - rewrite sort_insert_filter_eqv by auto using stable_sort_sorted. by rewrite IH.
  - by rewrite sort_insert_filter_other.
Qed.

(** With an antisymmetric order the result depends only on the multiset. *)
Lemma StronglySorted_unique l1 l2 :
  (forall x y, In x l1 -> In y l1 -> leb x y = true -> leb y x = true -> x = y) ->
  StronglySorted le l1 -> StronglySorted le l2 -> Permutation l1 l2 -> l1 = l2.
Proof.
  intros Hanti Hs. revert l2 Hanti.
  induction Hs as [|x l1 Hs IH Hx]; intros l2 Hanti Hs2 Hp.
  - by apply Permutation_nil in Hp as ->.
  - destruct Hs2 as [|y l2 Hs2 Hy]; [by apply Permutation_sym, Permutation_nil in Hp|].
    assert (x = y) as ->.
    { assert (In x (y :: l2)) as Hin by (rewrite <- Hp; left; done).
      assert (In y (x :: l1)) as Hin' by (rewrite Hp; left; done).
      destruct Hin as [->|Hin]; [done|]. destruct Hin' as [->|Hin']; [done|].
      rewrite List.Forall_forall in Hx, Hy.
      apply Hanti; [left|right| |]; auto. by apply Hx. by apply Hy. }
    f_equal. apply Permutation_cons_inv in Hp. apply IH; auto.
    intros; apply Hanti; auto; by right.
Qed.

Lemma stable_sort_unique l1 l2 :
  (forall x y, In x l1 -> In y l1 -> leb x y = true -> leb y x = true -> x = y) ->
  Permutation l1 l2 -> stable_sort l1 = stable_sort l2.
Proof.
  intros Hanti Hp. apply StronglySorted_unique; auto using stable_sort_sorted.
  - intros x y Hx Hy. apply Hanti; by apply stable_sort_In.
  - by rewrite !stable_sort_perm.
Qed.
End StableSort.

(** [sort_by_key]: stable sorting by the image under [f]. *)
Definition sort_by_key {A K} `{Ord K} (f : A -> K) (l : list A) : list A :=
  stable_sort (fun x y => cmp_leb (f x) (f y)) l.

Section SortByKey.
  Context {A K : Type} `{Ord K} (f : A -> K).
  Implicit Types l : list A.

Lemma sort_by_key_perm l : Permutation (sort_by_key f l) l.
Proof. apply stable_sort_perm. Qed.

Lemma sort_by_key_sorted l :
  StronglySorted (fun x y => cmp_leb (f x) (f y) = true) (sort_by_key f l).
Proof.
  apply stable_sort_sorted; [intros; apply cmp_leb_total|].
  intros; by eapply cmp_leb_trans.
Qed.

Lemma sort_by_key_In x l : In x (sort_by_key f l) <-> In x l.
Proof. apply stable_sort_In. Qed.

Lemma sort_by_key_unique l1 l2 :
  (forall x y, In x l1 -> In y l1 -> f x = f y -> x = y) ->
  Permutation l1 l2 -> sort_by_key f l1 = sort_by_key f l2.
Proof.
  intros Hinj. apply stable_sort_unique.
  - intros; apply cmp_leb_total.
  - intros; by eapply cmp_leb_trans.
  - intros x y Hx Hy ??. apply Hinj; auto. by apply cmp_leb_antisym.
Qed.
End SortByKey.

(** ** [BTreeMap] *)

Definition btree (K V : Type) : Type := list (K * V).

Section BTreeMap.
  Context {K V : Type} `{Ord K}.
  Implicit Types (k : K) (m : btree K V).

Fixpoint bt_get k m : option V :=
  match m with
  | [] => None
  | (k', v) :: m' =>
      match cmp k k' with Eq => Some v | Lt => None | Gt => bt_get k m' end
  end.

(** [entry(k)]: replace the value under [k] by [f] of the present one. *)
Fixpoint bt_alter (f : option V -> V) k m : btree K V :=
  match m with
  | [] => [(k, f None)]
  | (k', v) :: m' =>
      match cmp k k' with
      | Eq => (k', f (Some v)) :: m'
      | Lt => (k, f None) :: (k', v) :: m'
      | Gt => (k', v) :: bt_alter f k m'
      end
  end.

Definition bt_insert k (v : V) m : btree K V := bt_alter (fun _ => v) k m.

Definition bt_contains k m : bool :=
  match bt_get k m with Some _ => true | None => false end.

Definition bt_keys m : list K := map fst m.

Definition bt_sorted m : Prop :=
  StronglySorted (fun p q => cmp (fst p) (fst q) = Lt) m.

Lemma bt_alter_key f k m p : In p (bt_alter f k m) -> fst p = k \/ In p m.
Proof.
  induction m as [|[k' v] m IH]; simpl.
  - intros [<-|[]]. by left.
  - destruct (cmp k k') eqn:E; simpl.
    + apply cmp_eq in E as ->. intros [<-|]; simpl; auto.
    + intros [<-|[<-|]]; simpl; auto.
    + intros [<-|Hin]; [by auto|]. destruct (IH Hin); auto.
Qed.

Lemma bt_alter_sorted f k m : bt_sorted m -> bt_sorted (bt_alter f k m).
Proof.
  unfold bt_sorted. induction 1 as [|[k' v] m Hs IH Hf]; simpl.
  - repeat constructor.
  - rewrite List.Forall_forall in Hf. destruct (cmp k k') eqn:E.
    + constructor; [done|]. by apply List.Forall_forall.
    + constructor; [constructor; [done|]; by apply List.Forall_forall|].
      constructor; [done|]. apply List.Forall_forall. intros p Hp. simpl.
      eapply cmp_lt_trans; [exact E|]. by apply (Hf p).
    + constructor; [done|]. apply List.Forall_forall. intros p Hp. simpl.
      apply bt_alter_key in Hp as [->|Hp]; [by apply cmp_gt_lt|by apply (Hf p)].
Qed.

Lemma bt_get_lt k m :
  Forall (fun p => cmp k (fst p) = Lt) m -> bt_get k m = None.
Proof. destruct m as [|[k' v] m]; [done|]. intros Hf. inversion Hf; simpl in *. by case_match. Qed.

Lemma bt_get_alter f k k' m :
  bt_sorted m ->
  bt_get k' (bt_alter f k m) =
    match cmp k k' with Eq => Some (f (bt_get k m)) | _ => bt_get k' m end.
Proof.
  unfold bt_sorted. induction 1 as [|[k0 v] m Hs IH Hf]; simpl.
  - rewrite (cmp_antisym k k'). by destruct (cmp k k').
  - destruct (cmp k k0) eqn:E; simpl.
    + apply cmp_eq in E as ->. rewrite (cmp_antisym k0 k').
      by destruct (cmp k0 k').
    + rewrite (cmp_antisym k k'). destruct (cmp k k') eqn:F; simpl; try done.
      apply cmp_gt_lt in F.
      by rewrite (cmp_lt_trans _ _ _ F E).
    + rewrite IH. destruct (cmp k k') eqn:F; [|done..].
      apply cmp_eq in F as <-. by rewrite E.
Qed.

Lemma bt_get_alter_eq f k m :
  bt_sorted m -> bt_get k (bt_alter f k m) = Some (f (bt_get k m)).
Proof. intros. by rewrite bt_get_alter, cmp_refl. Qed.

Lemma bt_get_alter_ne f k k' m :
  bt_sorted m -> k <> k' -> bt_get k' (bt_alter f k m) = bt_get k' m.
Proof.
  intros ? Hne. rewrite bt_get_alter by done. destruct (cmp k k') eqn:E; try done.
  by apply cmp_eq in E.
Qed.

Lemma bt_get_In k v m : bt_sorted m -> bt_get k m = Some v <-> In (k, v) m.
Proof.
  unfold bt_sorted. induction 1 as [|[k' v'] m Hs IH Hf]; simpl; [done|].
  rewrite List.Forall_forall in Hf. destruct (cmp k k') eqn:E.
  - apply cmp_eq in E as ->. split; [intros [= ->]; auto|].
    intros [[= ->]|Hin]; [done|]. apply Hf in Hin. simpl in Hin.
    by rewrite cmp_refl in Hin.
  - split; [done|]. intros [[= -> ->]|Hin]; [by rewrite cmp_refl in E|].
    apply Hf in Hin. simpl in Hin. pose proof (cmp_lt_trans _ _ _ E Hin) as Hk.
    by rewrite cmp_refl in Hk.
  - rewrite IH. split; [auto|]. intros [[= -> ->]|Hin]; [by rewrite cmp_refl in E|done].
Qed.

Lemma bt_get_Some_In k v m : bt_get k m = Some v -> In (k, v) m.
Proof.
  induction m as [|[k' v'] m IH]; simpl; [done|]. destruct (cmp k k') eqn:E; try done.
  - apply cmp_eq in E as ->. intros [= ->]; auto.
  - auto.
Qed.

Lemma bt_sorted_keys_NoDup m : bt_sorted m -> List.NoDup (bt_keys m).
Proof.
  unfold bt_sorted, bt_keys. induction 1 as [|[k v] m Hs IH Hf]; simpl; constructor; [|done].
  intros ([k' v'] & Heq & Hin)%in_map_iff. simpl in Heq. subst.
  rewrite List.Forall_forall in Hf. apply Hf in Hin. simpl in Hin.
  by rewrite cmp_refl in Hin.
Qed.

Lemma bt_alter_In f k m p :
  bt_sorted m ->
  In p (bt_alter f k m) <->
  p = (k, f (bt_get k m)) \/ (In p m /\ fst p <> k).
Proof.
  intros Hs. destruct p as [k' v'].
  rewrite <- (bt_get_In k' v' (bt_alter f k m)) by by apply bt_alter_sorted.
  rewrite bt_get_alter, <- (bt_get_In k' v' m) by done. simpl.
  destruct (cmp k k') eqn:E.
  - apply cmp_eq in E as <-. naive_solver.
  - apply cmp_lt_ne in E. naive_solver.
  - apply cmp_gt_lt, cmp_lt_ne in E. naive_solver.
Qed.
End BTreeMap.

Lemma bt_insert_sorted {K V} `{Ord K} (k : K) (v : V) m :
  bt_sorted m -> bt_sorted (bt_insert k v m).
Proof. apply bt_alter_sorted. Qed.

Lemma bt_get_insert {K V} `{Ord K} (k k' : K) (v : V) m :
  bt_sorted m ->
  bt_get k' (bt_insert k v m) =
    match cmp k k' with Eq => Some v | _ => bt_get k' m end.
Proof. intros. unfold bt_insert. by rewrite bt_get_alter. Qed.

Section BTreeKeys.
  Context {K V : Type} `{Ord K}.
  Implicit Types (k : K) (m : btree K V).

Lemma bt_get_keys k m : bt_sorted m -> bt_get k m <> None <-> In k (bt_keys m).
Proof.
  intros Hs. unfold bt_keys. rewrite in_map_iff. split.
  - destruct (bt_get k m) as [v|] eqn:E; [|done]. intros _. exists (k, v).
    split; [done|]. by apply bt_get_Some_In.
  - intros ([k' v] & <- & Hin). apply (bt_get_In k' v m Hs) in Hin. simpl. by rewrite Hin.
Qed.

Lemma bt_contains_keys k m : bt_sorted m -> bt_contains k m = true <-> In k (bt_keys m).
Proof.
  intros Hs. rewrite <- bt_get_keys by done. unfold bt_contains. by destruct (bt_get k m).
Qed.

Lemma bt_insert_fresh_perm k (v : V) m :
  bt_get k m = None -> Permutation (bt_insert k v m) ((k, v) :: m).
Proof.
  unfold bt_insert. induction m as [|[k' v'] m IH]; simpl; [done|].
  destruct (cmp k k') eqn:E; try done. intros Hg. rewrite IH by done. apply Permutation_swap.
Qed.

Lemma bt_sorted_perm_eq m1 m2 :
  bt_sorted m1 -> bt_sorted m2 -> Permutation m1 m2 -> m1 = m2.
Proof.
  intros H1 H2 HP. apply (StronglySorted_unique (fun p q => cmp_leb (fst p) (fst q))); [|..|done].
  - intros [k v] [k' v'] Hp Hq Hle Hge. simpl in *.
    assert (k = k') as -> by (by apply cmp_leb_antisym).
    apply bt_get_In in Hp, Hq; [|done..]. congruence.
  - eapply StronglySorted_impl, H1. intros p q Hlt. unfold cmp_leb. by rewrite Hlt.
  - eapply StronglySorted_impl, H2. intros p q Hlt. unfold cmp_leb. by rewrite Hlt.
Qed.

End BTreeKeys.

(** Inserting a present element into a set changes nothing. *)
Lemma bt_insert_unit_id {K} `{Ord K} (k : K) (m : btree K unit) :
  bt_contains k m = true -> bt_insert k tt m = m.
Proof.
  unfold bt_contains, bt_insert. induction m as [|[k' []] m IH]; simpl; [done|].
  destruct (cmp k k') eqn:E; try done. intros Hc. by rewrite IH.
Qed.

Create HintDb scry.
#[export] Hint Resolve cmp_refl bt_alter_sorted bt_insert_sorted
  stable_sort_perm sort_by_key_perm sort_by_key_sorted : scry.
#[export] Hint Constructors StronglySorted : scry.
