(* ===== verification/Bytes.v ===== *)
(** * Bytes and fixed-width integers

    [u8] is [Byte.byte]; [be_bytes n] and [le_bytes n] are the
    [to_be_bytes]/[to_le_bytes] of the [n]-byte unsigned integers and
    [from_be]/[from_le] their inverses.  Every on-disk and on-wire format of
    the program is laid out with them. *)

From Stdlib Require Export Strings.Byte.
From S2P Require Import Prelude.

Abbreviation u8 := Byte.byte.
Abbreviation bytes := (list Byte.byte).

Definition b2z (b : u8) : Z := Z.of_N (Byte.to_N b).

(** [as u8]: truncation to the low eight bits. *)
Definition z2b (z : Z) : u8 :=
  match Byte.of_N (Z.to_N (z mod 256)) with Some b => b | None => x00 end.

Lemma b2z_range b : 0 <= b2z b < 256.
Proof. unfold b2z. pose proof (Byte.to_N_bounded b). lia. Qed.

Lemma b2z_z2b z : b2z (z2b z) = z mod 256.
Proof.
  unfold z2b, b2z. pose proof (Z.mod_pos_bound z 256 ltac:(lia)).
  destruct (Byte.of_N (Z.to_N (z mod 256))) eqn:E.
  - apply Byte.to_of_N in E. lia.
  - apply Byte.of_N_None_iff in E. lia.
Qed.

Lemma b2z_inj b c : b2z b = b2z c -> b = c.
Proof.
  unfold b2z. intros Heq%N2Z.inj.
  pose proof (Byte.of_to_N b). pose proof (Byte.of_to_N c). congruence.
Qed.

Lemma z2b_b2z b : z2b (b2z b) = b.
Proof. apply b2z_inj. rewrite b2z_z2b, Z.mod_small; [done|apply b2z_range]. Qed.

#[export] Instance byte_eq_dec : EqDecision u8.
Proof. intros b c. destruct (Byte.byte_eq_dec b c); [by left|by right]. Defined.

(** ** Big-endian and little-endian encodings *)

Fixpoint be_bytes (n : nat) (z : Z) : bytes :=
  match n with
  | O => []
  | S n' => z2b (z / 256 ^ Z.of_nat n') :: be_bytes n' z
  end.

Definition from_be (l : bytes) : Z :=
  fold_left (fun acc b => acc * 256 + b2z b) l 0.

Definition le_bytes (n : nat) (z : Z) : bytes := rev (be_bytes n z).
Definition from_le (l : bytes) : Z := from_be (rev l).

Lemma length_be_bytes n z : length (be_bytes n z) = n.
Proof. induction n; simpl; auto. Qed.

Lemma zlen_be_bytes n z : zlen (be_bytes n z) = Z.of_nat n.
Proof. unfold zlen. by rewrite length_be_bytes. Qed.

Lemma length_le_bytes n z : length (le_bytes n z) = n.
Proof. unfold le_bytes. by rewrite length_rev, length_be_bytes. Qed.

Lemma from_be_acc l acc :
  fold_left (fun acc b => acc * 256 + b2z b) l acc =
    acc * 256 ^ zlen l + from_be l.
Proof.
  unfold from_be. revert acc. induction l as [|b l IH]; intros acc; cbn [fold_left].
  - unfold zlen. simpl. lia.
  - rewrite IH, (IH (0 * 256 + b2z b)), zlen_cons.
    rewrite Z.pow_add_r by (pose proof (zlen_nonneg l); lia). lia.
Qed.

Lemma from_be_cons b l : from_be (b :: l) = b2z b * 256 ^ zlen l + from_be l.
Proof. unfold from_be at 1. cbn [fold_left]. rewrite from_be_acc. lia. Qed.

Lemma from_be_range l : 0 <= from_be l < 256 ^ zlen l.
Proof.
  induction l as [|b l IH]; [done|]. rewrite from_be_cons, zlen_cons.
  rewrite Z.pow_add_r by (pose proof (zlen_nonneg l); lia).
  pose proof (b2z_range b). nia.
Qed.

Lemma from_be_be_bytes n z : from_be (be_bytes n z) = z mod 256 ^ Z.of_nat n.
Proof.
  induction n as [|n IH]; [symmetry; apply Z.mod_1_r|].
  cbn [be_bytes]. rewrite from_be_cons, IH, b2z_z2b.
  unfold zlen. rewrite length_be_bytes.
  replace (Z.of_nat (S n)) with (1 + Z.of_nat n) by lia.
  rewrite Z.pow_add_r, Z.pow_1_r by lia. rewrite (Z.mul_comm 256).
  rewrite Z.rem_mul_r by lia. lia.
Qed.

Lemma from_be_be_bytes_id n z :
  0 <= z < 256 ^ Z.of_nat n -> from_be (be_bytes n z) = z.
Proof. intros. rewrite from_be_be_bytes. by apply Z.mod_small. Qed.

Lemma be_bytes_mod n k z :
  (n <= k)%nat -> be_bytes n (z mod 256 ^ Z.of_nat k) = be_bytes n z.
Proof.
  intros Hnk. induction n as [|n IH]; [done|]. cbn [be_bytes].
  rewrite IH by lia. f_equal. apply b2z_inj. rewrite !b2z_z2b.
  replace (Z.of_nat k) with (Z.of_nat n + (1 + (Z.of_nat k - Z.of_nat n - 1))) by lia.
  rewrite !Z.pow_add_r, Z.pow_1_r by lia.
  rewrite Z.rem_mul_r by lia.
  rewrite (Z.mul_comm (256 ^ Z.of_nat n)), Z.div_add by lia.
  rewrite (Z.div_small (z mod _)) by (apply Z.mod_pos_bound; lia).
  rewrite Z.add_0_l, Z.rem_mul_r by lia.
  rewrite Z.mul_comm, Z.mod_add by lia. by rewrite Z.mod_mod by lia.
Qed.

Lemma be_bytes_from_be l : be_bytes (length l) (from_be l) = l.
Proof.
  induction l as [|b l IH]; [done|]. cbn [length be_bytes].
  rewrite from_be_cons. unfold zlen. f_equal.
  - rewrite Z.div_add_l, Z.div_small, Z.add_0_r by
      (pose proof (from_be_range l); unfold zlen in *; lia).
    apply z2b_b2z.
  - rewrite <- (be_bytes_mod _ (length l)) by done.
    rewrite Z.add_comm, Z.mod_add by lia.
    rewrite Z.mod_small by apply from_be_range. done.
Qed.

Lemma from_le_le_bytes n z : from_le (le_bytes n z) = z mod 256 ^ Z.of_nat n.
Proof. unfold from_le, le_bytes. by rewrite rev_involutive, from_be_be_bytes. Qed.

(** Encoding at an offset: the prefix of a buffer. *)
Lemma take_be_bytes n z l : take n (be_bytes n z ++ l) = be_bytes n z.
Proof. rewrite take_app_length' by (by rewrite length_be_bytes). done. Qed.

Lemma drop_be_bytes n z l : drop n (be_bytes n z ++ l) = l.
Proof. rewrite drop_app_length' by (by rewrite length_be_bytes). done. Qed.

Create Rewrite HintDb bytes.
#[export] Hint Rewrite length_be_bytes length_le_bytes take_be_bytes
  drop_be_bytes : bytes.

(** The bytes of a string literal. *)
Definition str (s : string) : bytes := String.list_byte_of_string s.
