(* ===== verification/ByteOrder.v ===== *)
(** * The order of byte strings

    [Ord] of [[u8]] and of [str]: lexicographic, a prefix first; also the order of blobs
    in SQLite. *)

From S2P Require Import Prelude Order Bytes.

Fixpoint bytes_cmp (a b : bytes) : comparison :=
  match a, b with
  | [], [] => Datatypes.Eq
  | [], _ :: _ => Lt
  | _ :: _, [] => Gt
  | x :: a, y :: b => then_with (b2z x ?= b2z y) (bytes_cmp a b)
  end.

#[export] Program Instance bytes_Ord : Ord bytes := {| cmp := bytes_cmp |}.
Next Obligation.
  induction x as [|x a IH]; intros [|y b]; cbn [bytes_cmp]; try done. unfold then_with.
  destruct (Z.compare_spec (b2z x) (b2z y)) as [E|E|E].
  - apply b2z_inj in E as ->. rewrite IH. split; [by intros ->|congruence].
  - split; [done|]. intros [= -> ->]. lia.
  - split; [done|]. intros [= -> ->]. lia.
Qed.
Next Obligation.
  induction x as [|x a IH]; intros [|y b]; cbn [bytes_cmp]; try done. rewrite (Z.compare_antisym (b2z x)), IH.
  by destruct (b2z x ?= b2z y).
Qed.
Next Obligation.
  induction x as [|x a IH]; intros [|y b] [|z c]; cbn [bytes_cmp]; try done. unfold then_with.
  destruct (Z.compare_spec (b2z x) (b2z y)) as [E|E|E], (Z.compare_spec (b2z y) (b2z z)) as [F|F|F]; try done;
    destruct (Z.compare_spec (b2z x) (b2z z)); try lia; try done. apply IH.
Qed.
