(* ===== verification/Text.v ===== *)
(** * Text: the [str] operations the parsers use

    Text that the code takes apart byte by byte is a list of bytes.
    [parse_u64] is [<u64 as FromStr>::from_str]: an optional [+], then at
    least one decimal digit, the value inside the type.  [dec_pad n] is the
    [{:0n}] format of an integer of at most [n] digits. *)

From S2P Require Import Prelude Bytes.

(** ** Affixes *)

Fixpoint strip_prefix (p l : bytes) : option bytes :=
  match p, l with
  | [], _ => Some l
  | a :: p', b :: l' => if decide (a = b) then strip_prefix p' l' else None
  | _ :: _, [] => None
  end.

Definition strip_suffix (s l : bytes) : option bytes :=
  (fun r => rev r) <$> strip_prefix (rev s) (rev l).

Lemma strip_prefix_Some p l r : strip_prefix p l = Some r <-> l = p ++ r.
Proof.
  revert l. induction p as [|a p IH]; intros [|b l]; simpl; try naive_solver.
  case_decide as E; [subst; rewrite IH; naive_solver|naive_solver].
Qed.

Lemma strip_suffix_Some s l r : strip_suffix s l = Some r <-> l = r ++ s.
Proof.
  unfold strip_suffix. rewrite fmap_Some. split.
  - intros (x & Hx%strip_prefix_Some & ->).
    apply (f_equal (@rev _)) in Hx. rewrite rev_involutive, rev_app_distr, rev_involutive in Hx.
    done.
  - intros ->. exists (rev r). rewrite rev_app_distr, rev_involutive.
    by rewrite strip_prefix_Some.
Qed.

(** ** Decimal numbers *)

Definition digit_of (b : u8) : option Z :=
  let z := b2z b in
  if (48 <=? z) && (z <=? 57) then Some (z - 48) else None.

Fixpoint digits_value (acc : Z) (l : bytes) : option Z :=
  match l with
  | [] => Some acc
  | b :: l' =>
      match digit_of b with
      | Some d => digits_value (acc * 10 + d) l'
      | None => None
      end
  end.

Definition parse_digits (l : bytes) : option Z :=
  match l with
  | [] => None
  | _ => match digits_value 0 l with
         | Some v => if v <=? u64_max then Some v else None
         | None => None
         end
  end.

Definition parse_u64 (l : bytes) : option Z :=
  match l with
  | b :: l' => if decide (b = x2b) then parse_digits l' else parse_digits l
  | [] => None
  end.

Fixpoint dec_pad (n : nat) (z : Z) : bytes :=
  match n with
  | O => []
  | S n' => z2b (48 + (z / 10 ^ Z.of_nat n') mod 10) :: dec_pad n' z
  end.

Lemma length_dec_pad n z : length (dec_pad n z) = n.
Proof. induction n; simpl; auto. Qed.

Lemma digit_of_dec d : 0 <= d < 10 -> digit_of (z2b (48 + d)) = Some d.
Proof.
  intros. unfold digit_of. rewrite b2z_z2b, Z.mod_small by lia.
  destruct (Z.leb_spec 48 (48 + d)), (Z.leb_spec (48 + d) 57); simpl; f_equal; lia.
Qed.

Lemma digits_value_dec_pad n z acc :
  digits_value acc (dec_pad n z) =
    Some (acc * 10 ^ Z.of_nat n + z mod 10 ^ Z.of_nat n).
Proof.
  revert acc. induction n as [|n IH]; intros acc; cbn [dec_pad digits_value].
  - f_equal. simpl. rewrite Z.mod_1_r. lia.
  - rewrite digit_of_dec by (apply Z.mod_pos_bound; lia). rewrite IH. f_equal.
    replace (Z.of_nat (S n)) with (Z.of_nat n + 1) by lia.
    rewrite Z.pow_add_r, Z.pow_1_r, (Z.rem_mul_r z) by lia. nia.
Qed.

Lemma dec_pad_head n z : (0 < n)%nat -> exists b l, dec_pad n z = b :: l /\ b <> x2b.
Proof.
  destruct n as [|n]; [lia|]. intros _. simpl. eexists _, _. split; [done|].
  intros Heq%(f_equal b2z). rewrite b2z_z2b in Heq.
  pose proof (Z.mod_pos_bound (z / 10 ^ Z.of_nat n) 10 ltac:(lia)).
  rewrite Z.mod_small in Heq by lia. change (b2z x2b) with 43 in Heq. lia.
Qed.

(** Printing with zero padding and reading back. *)
Lemma parse_u64_dec_pad n z :
  (0 < n)%nat -> 0 <= z < 10 ^ Z.of_nat n -> z <= u64_max ->
  parse_u64 (dec_pad n z) = Some z.
Proof.
  intros Hn Hz Hmax. destruct (dec_pad_head n z Hn) as (b & l & Heq & Hb).
  unfold parse_u64. rewrite Heq, decide_False by done.
  unfold parse_digits. rewrite <- Heq, digits_value_dec_pad, Z.mod_small by done.
  rewrite Z.mul_0_l, Z.add_0_l. by destruct (Z.leb_spec z u64_max); [|lia].
Qed.

#[export] Instance byte_countable : Countable u8.
Proof. by refine (inj_countable Byte.to_N Byte.of_N _); apply Byte.of_to_N. Defined.
