(* ===== verification/Wal.v ===== *)
(** * The write-ahead log ([crates/wal/src/lib.rs])

    A signal directory is a finite map from file names to contents.  The
    world of one WAL is that directory plus the writer's own fields; the
    bytes handed to the [BufWriter] of the active segment ([current]) reach
    the directory when [rotate] flushes them, and a crash may leave any prefix
    of them in the file.  CRC-32 comes from a third-party crate and is a
    parameter, of which only the 32-bit range is used.

    [AbsWal] is what the log promises: the payloads of each sealed segment and
    of the active one.  [wal_rel] relates the two, every operation and a crash
    followed by [open] preserve it, and [replay] reads exactly the abstract
    contents. *)

From stdpp Require Import sorting.
From Stdlib Require Import Sorting.Sorted Sorting.Permutation.
From S2P Require Import Prelude Order Bytes Text.

(** ** Constants and data *)

Definition FRAME_HEADER_SIZE : nat := 8.
Definition MAX_REPLAY_FRAME_BYTES : Z := 32 * 1024 * 1024.

Record Wal := mkWal {
  current_seq : Z;
  current : bytes;
  current_bytes : Z;
  max_segment_bytes : Z;
}.

Record World := mkWorld { dir : gmap bytes bytes; wal : Wal }.

Inductive WalError :=
| PayloadTooLarge
| SegmentExists
| ReleaseActive
| OpenFailed
| OversizedFrame.

(** ** File names and frame headers *)

Definition segment_path (seq : Z) : bytes :=
  str "wal-" ++ dec_pad 20 seq ++ str ".log".

Definition parse_segment_filename (s : bytes) : option Z :=
  s1 ← strip_prefix (str "wal-") s;
  s2 ← strip_suffix (str ".log") s1;
  parse_u64 s2.

Definition encode_header (len crc : Z) : bytes := be_bytes 4 len ++ be_bytes 4 crc.

Definition decode_header (hdr : bytes) : Z * Z :=
  (from_be (take 4 hdr), from_be (take 4 (drop 4 hdr))).

(** The sequence numbers found by a directory scan. *)
Definition scan_seqs (d : gmap bytes bytes) : list Z :=
  omap (fun p => parse_segment_filename (fst p)) (map_to_list d).

Section WithCrc.
Context (crc32 : bytes -> Z).

(** ** Operations *)

Definition open (d : gmap bytes bytes) (max_bytes : Z) : gmap bytes bytes * result WalError Wal :=
  let max_seq :=
    fold_left (fun m seq => Some (match m with None => seq | Some m => Z.max m seq end))
      (scan_seqs d) None in
  let next_seq := match max_seq with None => 0 | Some m => wrapping_add m 1 end in
  let path := segment_path next_seq in
  match d !! path with
  | Some _ => (d, Err SegmentExists)
  | None => (<[path := []]> d, Ok (mkWal next_seq [] 0 max_bytes))
  end.

Definition rotate (w : World) : World * result WalError Z :=
  let c := wal w in
  let flushed := <[segment_path (current_seq c) := current c]> (dir w) in
  let sealed_seq := current_seq c in
  let next_seq := wrapping_add sealed_seq 1 in
  let new_path := segment_path next_seq in
  match flushed !! new_path with
  | Some _ => (mkWorld flushed c, Err SegmentExists)
  | None =>
      (mkWorld (<[new_path := []]> flushed) (mkWal next_seq [] 0 (max_segment_bytes c)),
       Ok sealed_seq)
  end.

Definition frame (payload : bytes) : bytes :=
  encode_header (zlen payload) (crc32 payload) ++ payload.

Definition append (w : World) (payload : bytes) : World * result WalError unit :=
  if MAX_REPLAY_FRAME_BYTES <? zlen payload then (w, Err PayloadTooLarge)
  else
    let c := wal w in
    let header := encode_header (zlen payload) (crc32 payload) in
    let c' := mkWal (current_seq c) ((current c ++ header) ++ payload)
                (wrapping_add (current_bytes c) (Z.of_nat FRAME_HEADER_SIZE + zlen payload))
                (max_segment_bytes c) in
    let w' := mkWorld (dir w) c' in
    if max_segment_bytes c' <=? current_bytes c' then
      match rotate w' with
      | (w'', Ok _) => (w'', Ok tt)
      | (w'', Err e) => (w'', Err e)
      end
    else (w', Ok tt).

Definition prepare_release (w : World) (up_to : Z) : result WalError unit :=
  if current_seq (wal w) <=? up_to then Err ReleaseActive else Ok tt.

(** Every file whose name parses to a number in [[lo, hi]] is unlinked. *)
Definition release_segments (d : gmap bytes bytes) (lo hi : Z) : gmap bytes bytes :=
  filter (fun p => match parse_segment_filename (fst p) with
                   | Some seq => (lo <=? seq) && (seq <=? hi)
                   | None => false
                   end = false) d.

Definition mark_uploaded (w : World) (lo hi : Z) : World * result WalError unit :=
  match prepare_release w hi with
  | Err e => (w, Err e)
  | Ok _ => (mkWorld (release_segments (dir w) lo hi) (wal w), Ok tt)
  end.

(** ** Replay *)

Record ReplayIter := mkIter { seqs : list Z; cur_file : option bytes }.

Definition replay (w : World) : ReplayIter :=
  mkIter (sort_by_key id (List.filter (fun seq => seq <? current_seq (wal w)) (scan_seqs (dir w))))
    None.

Inductive FrameRead :=
| SegmentEnd
| FrameError (e : WalError) (rest : bytes)
| FrameOk (payload rest : bytes).

(** One frame off the open file: the end of the file, a short header, a short
    payload and a CRC mismatch all end the segment; a declared length over the
    limit is an error. *)
Definition read_frame (f : bytes) : FrameRead :=
  if (length f <? FRAME_HEADER_SIZE)%nat then SegmentEnd
  else
    let '(len, crc_expected) := decode_header (take FRAME_HEADER_SIZE f) in
    let rest := drop FRAME_HEADER_SIZE f in
    if MAX_REPLAY_FRAME_BYTES <? len then FrameError OversizedFrame rest
    else if zlen rest <? len then SegmentEnd
    else
      let buf := take (Z.to_nat len) rest in
      if crc32 buf =? crc_expected then FrameOk buf (drop (Z.to_nat len) rest)
      else SegmentEnd.

(** The loop of [next] with no file open. *)
Fixpoint next_segment (d : gmap bytes bytes) (ss : list Z)
    : option (result WalError bytes * ReplayIter) :=
  match ss with
  | [] => None
  | seq :: ss' =>
      match d !! segment_path seq with
      | None => Some (Err OpenFailed, mkIter ss' None)
      | Some f =>
          match read_frame f with
          | SegmentEnd => next_segment d ss'
          | FrameError e rest => Some (Err e, mkIter ss' (Some rest))
          | FrameOk p rest => Some (Ok p, mkIter ss' (Some rest))
          end
      end
  end.

Definition next (d : gmap bytes bytes) (it : ReplayIter)
    : option (result WalError bytes * ReplayIter) :=
  match cur_file it with
  | None => next_segment d (seqs it)
  | Some f =>
      match read_frame f with
      | SegmentEnd => next_segment d (seqs it)
      | FrameError e rest => Some (Err e, mkIter (seqs it) (Some rest))
      | FrameOk p rest => Some (Ok p, mkIter (seqs it) (Some rest))
      end
  end.

(** [collect::<Result<Vec<_>>>()]; [None] when the fuel runs out. *)
Fixpoint replay_collect (fuel : nat) (d : gmap bytes bytes) (it : ReplayIter)
    : option (result WalError (list bytes)) :=
  match fuel with
  | O => None
  | S fuel' =>
      match next d it with
      | None => Some (Ok [])
      | Some (Err e, _) => Some (Err e)
      | Some (Ok p, it') =>
          match replay_collect fuel' d it' with
          | Some (Ok ps) => Some (Ok (p :: ps))
          | r => r
          end
      end
  end.

(** ** Runs: operations and crashes *)

Inductive WalOp :=
| OpAppend (payload : bytes)
| OpRotate
| OpRelease (lo hi : Z)
| OpRestart (persisted : nat).

(** A crash leaves the first [persisted] bytes of the active segment on disk;
    the next process opens the same directory. *)
Definition restart (w : World) (persisted : nat) : World * result WalError unit :=
  let c := wal w in
  let d := <[segment_path (current_seq c) := take persisted (current c)]> (dir w) in
  match open d (max_segment_bytes c) with
  | (d', Ok c') => (mkWorld d' c', Ok tt)
  | (d', Err e) => (mkWorld d' c, Err e)
  end.

Definition run_op (w : World) (op : WalOp) : World * result WalError unit :=
  match op with
  | OpAppend p => append w p
  | OpRotate => match rotate w with (w', Ok _) => (w', Ok tt) | (w', Err e) => (w', Err e) end
  | OpRelease lo hi => mark_uploaded w lo hi
  | OpRestart k => restart w k
  end.

Definition run_ops (w : World) (ops : list WalOp) : World :=
  fold_left (fun w op => fst (run_op w op)) ops w.

(** ** The abstract log *)

Record AbsWal := mkAbs {
  sealed : list (Z * list bytes);
  active_seq : Z;
  active : list bytes;
}.

Definition frames (ps : list bytes) : bytes := concat (map frame ps).

Definition abs_rotate (a : AbsWal) : AbsWal :=
  mkAbs (sealed a ++ [(active_seq a, active a)]) (active_seq a + 1) [].

Definition abs_append (max_bytes : Z) (a : AbsWal) (p : bytes) : AbsWal :=
  if MAX_REPLAY_FRAME_BYTES <? zlen p then a
  else
    let a' := mkAbs (sealed a) (active_seq a) (active a ++ [p]) in
    if max_bytes <=? wrap64 (zlen (frames (active a'))) then abs_rotate a' else a'.

Definition abs_release (a : AbsWal) (lo hi : Z) : AbsWal :=
  if active_seq a <=? hi then a
  else mkAbs (List.filter (fun sp => negb ((lo <=? fst sp) && (fst sp <=? hi))) (sealed a))
         (active_seq a) (active a).

(** The payloads whose whole frame lies in the first [k] bytes. *)
Fixpoint whole_frames (k : nat) (ps : list bytes) : list bytes :=
  match ps with
  | [] => []
  | p :: ps' =>
      let n := length (frame p) in
      if (n <=? k)%nat then p :: whole_frames (k - n) ps' else []
  end.

Definition abs_restart (a : AbsWal) (k : nat) : AbsWal :=
  abs_rotate (mkAbs (sealed a) (active_seq a) (whole_frames k (active a))).

Definition abs_op (max_bytes : Z) (a : AbsWal) (op : WalOp) : AbsWal :=
  match op with
  | OpAppend p => abs_append max_bytes a p
  | OpRotate => abs_rotate a
  | OpRelease lo hi => abs_release a lo hi
  | OpRestart k => abs_restart a k
  end.

Definition abs_run (max_bytes : Z) (a : AbsWal) (ops : list WalOp) : AbsWal :=
  fold_left (abs_op max_bytes) ops a.

Definition abs_init : AbsWal := mkAbs [] 0 [].
Definition wal_init (max_bytes : Z) : World :=
  mkWorld {[segment_path 0 := []]} (mkWal 0 [] 0 max_bytes).
(** ** Frames *)

#[local] Arguments frame _ : simpl never.
#[local] Arguments encode_header _ _ : simpl never.

Definition payload_ok (p : bytes) : Prop := zlen p <= MAX_REPLAY_FRAME_BYTES.

(** What a crash can leave after the last whole frame. *)
Definition torn_tail (t : bytes) : Prop :=
  exists p k, payload_ok p /\ t = take k (frame p) /\ (k < length (frame p))%nat.

Definition seg_ok (c : bytes) (ps : list bytes) : Prop :=
  Forall payload_ok ps /\ exists t, torn_tail t /\ c = frames ps ++ t.

Context (crc32_range : forall p, in_u32 (crc32 p)).

Lemma parse_segment_path s : in_u64 s -> parse_segment_filename (segment_path s) = Some s.
Proof.
  intros Hs. unfold parse_segment_filename, segment_path.
  rewrite (proj2 (strip_prefix_Some _ _ _) eq_refl). cbn [mbind option_bind].
  rewrite (proj2 (strip_suffix_Some _ _ _) eq_refl). cbn [mbind option_bind].
  apply parse_u64_dec_pad; ints.
Qed.

Lemma segment_path_inj s t :
  in_u64 s -> in_u64 t -> segment_path s = segment_path t -> s = t.
Proof.
  intros Hs Ht Heq. apply parse_segment_path in Hs, Ht. congruence.
Qed.

Lemma length_frame p : length (frame p) = (8 + length p)%nat.
Proof. unfold frame, encode_header. by rewrite !length_app, !length_be_bytes. Qed.

Lemma zlen_frame p : zlen (frame p) = Z.of_nat FRAME_HEADER_SIZE + zlen p.
Proof. unfold zlen, FRAME_HEADER_SIZE. rewrite length_frame. lia. Qed.

Lemma decode_encode_header len crc rest :
  in_u32 len -> in_u32 crc ->
  decode_header (take FRAME_HEADER_SIZE (encode_header len crc ++ rest)) = (len, crc).
Proof.
  intros Hl Hc. unfold decode_header, encode_header.
  rewrite take_app_length' by (by rewrite length_app, !length_be_bytes).
  rewrite take_be_bytes, drop_be_bytes. rewrite (take_ge (be_bytes 4 crc)) by
    (by rewrite length_be_bytes).
  rewrite !from_be_be_bytes_id by ints. done.
Qed.

Lemma drop_header len crc rest :
  drop FRAME_HEADER_SIZE (encode_header len crc ++ rest) = rest.
Proof.
  apply drop_app_length'. unfold encode_header. by rewrite length_app, !length_be_bytes.
Qed.

Lemma payload_ok_u32 p : payload_ok p -> in_u32 (zlen p).
Proof. unfold payload_ok, MAX_REPLAY_FRAME_BYTES. pose proof (zlen_nonneg p). ints. Qed.

Lemma read_frame_ok p rest : payload_ok p -> read_frame (frame p ++ rest) = FrameOk p rest.
Proof.
  intros Hp. unfold read_frame, frame. rewrite <- app_assoc.
  rewrite decode_encode_header by auto using payload_ok_u32. rewrite drop_header.
  assert ((length (encode_header (zlen p) (crc32 p) ++ p ++ rest) <? FRAME_HEADER_SIZE)%nat = false)
    as ->.
  { apply Nat.ltb_ge. unfold encode_header, FRAME_HEADER_SIZE.
    rewrite !length_app, !length_be_bytes. lia. }
  unfold payload_ok in Hp. destruct (Z.ltb_spec MAX_REPLAY_FRAME_BYTES (zlen p)); [lia|].
  rewrite zlen_app. pose proof (zlen_nonneg rest).
  destruct (Z.ltb_spec (zlen p + zlen rest) (zlen p)); [lia|].
  unfold zlen. rewrite Nat2Z.id, take_app_length, drop_app_length, Z.eqb_refl. done.
Qed.

Lemma length_header len crc : length (encode_header len crc) = FRAME_HEADER_SIZE.
Proof. unfold encode_header. by rewrite length_app, !length_be_bytes. Qed.

Lemma read_frame_torn t : torn_tail t -> read_frame t = SegmentEnd.
Proof.
  intros (p & k & Hp & -> & Hk). rewrite length_frame in Hk. unfold read_frame.
  destruct (Nat.ltb_spec (length (take k (frame p))) FRAME_HEADER_SIZE) as [|Hlen]; [done|].
  rewrite length_take in Hlen. unfold frame.
  rewrite take_app_ge by (rewrite length_header; lia).
  rewrite length_header, drop_header, decode_encode_header by auto using payload_ok_u32.
  unfold payload_ok in Hp. destruct (Z.ltb_spec MAX_REPLAY_FRAME_BYTES (zlen p)); [lia|].
  destruct (Z.ltb_spec (zlen (take (k - FRAME_HEADER_SIZE) p)) (zlen p)) as [|Hz]; [done|].
  unfold zlen, FRAME_HEADER_SIZE in *. rewrite length_take in Hz. lia.
Qed.

Lemma torn_nil : torn_tail [].
Proof.
  exists [], 0%nat. split; [|split; [done|rewrite length_frame; lia]].
  unfold payload_ok, zlen, MAX_REPLAY_FRAME_BYTES. simpl. lia.
Qed.

Lemma frames_app ps qs : frames (ps ++ qs) = frames ps ++ frames qs.
Proof. unfold frames. by rewrite map_app, concat_app. Qed.

Lemma frames_cons p ps : frames (p :: ps) = frame p ++ frames ps.
Proof. done. Qed.

Lemma take_frames k ps :
  Forall payload_ok ps -> seg_ok (take k (frames ps)) (whole_frames k ps).
Proof.
  intros Hps. revert k. induction Hps as [|p ps Hp Hps IH]; intros k.
  - split; [constructor|]. exists []. split; [apply torn_nil|]. change (frames []) with (@nil u8). by rewrite take_nil.
  - rewrite frames_cons. cbn [whole_frames].
    destruct (Nat.leb_spec (length (frame p)) k) as [Hle|Hlt].
    + destruct (IH (k - length (frame p))%nat) as (Hw & t & Ht & Heq).
      split; [by constructor|]. exists t. split; [done|].
      by rewrite take_app_ge, Heq, frames_cons, app_assoc by done.
    + split; [constructor|]. exists (take k (frame p)). split; [by exists p, k|].
      by rewrite take_app_le by lia.
Qed.

(** ** Replaying a directory *)

(** [it] yields [rs] and then ends. *)
Definition reads (d : gmap bytes bytes) (it : ReplayIter) (rs : list bytes) : Prop :=
  forall fuel, (length rs < fuel)%nat -> replay_collect fuel d it = Some (Ok rs).

Lemma reads_done d : reads d (mkIter [] None) [].
Proof. intros [|fuel] Hf; simpl in Hf; [lia|done]. Qed.

Lemma reads_next d it it' rs : next d it = next d it' -> reads d it' rs -> reads d it rs.
Proof.
  intros Hn Hr [|fuel] Hf; [lia|]. specialize (Hr _ Hf). simpl in *. by rewrite Hn.
Qed.

Lemma reads_frame d ss p rest rs :
  payload_ok p -> reads d (mkIter ss (Some rest)) rs ->
  reads d (mkIter ss (Some (frame p ++ rest))) (p :: rs).
Proof.
  intros Hp Hr [|fuel] Hf; simpl in Hf; [lia|]. cbn [replay_collect next cur_file].
  rewrite read_frame_ok by done. cbn [seqs]. rewrite Hr by lia. done.
Qed.

Lemma reads_segment d ss f ps rs :
  seg_ok f ps -> reads d (mkIter ss None) rs -> reads d (mkIter ss (Some f)) (ps ++ rs).
Proof.
  intros (Hps & t & Ht & ->) Hr. induction Hps as [|p ps Hp Hps IH].
  - apply (reads_next _ _ (mkIter ss None)); [|done]. unfold next. simpl.
    by rewrite read_frame_torn.
  - rewrite frames_cons, <- app_assoc. by apply reads_frame.
Qed.

Lemma reads_segments d segs :
  Forall (fun sp => exists c, d !! segment_path sp.1 = Some c /\ seg_ok c sp.2) segs ->
  reads d (mkIter segs.*1 None) (concat segs.*2).
Proof.
  induction 1 as [|[s ps] segs (c & Hc & Hok) _ IH]; simpl in *; [apply reads_done|].
  apply (reads_next _ _ (mkIter segs.*1 (Some c))); [|by apply reads_segment].
  unfold next. simpl. by rewrite Hc.
Qed.

(** ** The refinement relation *)

Record wal_rel (w : World) (a : AbsWal) : Prop := {
  rel_seq : current_seq (wal w) = active_seq a;
  rel_range : in_u64 (active_seq a);
  rel_cur : current (wal w) = frames (active a);
  rel_bytes : current_bytes (wal w) = wrap64 (zlen (frames (active a)));
  rel_active_ok : Forall payload_ok (active a);
  rel_sorted : StronglySorted Z.lt (sealed a).*1;
  rel_below : Forall (fun s => 0 <= s < active_seq a) (sealed a).*1;
  rel_files : Forall (fun sp => exists c, dir w !! segment_path sp.1 = Some c /\ seg_ok c sp.2)
                (sealed a);
  rel_active_file : is_Some (dir w !! segment_path (active_seq a));
  rel_only : forall name c, dir w !! name = Some c ->
    exists s, name = segment_path s /\ (s ∈ (sealed a).*1 \/ s = active_seq a);
}.

Lemma elem_of_scan_seqs d s :
  s ∈ scan_seqs d <-> exists name c, d !! name = Some c /\ parse_segment_filename name = Some s.
Proof.
  unfold scan_seqs. rewrite list_elem_of_omap. split.
  - intros ([name c] & Hin & Hp). apply elem_of_map_to_list in Hin. eauto.
  - intros (name & c & Hd & Hp). exists (name, c). by rewrite elem_of_map_to_list.
Qed.

Lemma scan_fold_max l m :
  m ∈ l -> (forall x, x ∈ l -> x <= m) ->
  fold_left (fun o seq => Some (match o with None => seq | Some x => Z.max x seq end)) l None
    = Some m.
Proof.
  intros Hm Hle.
  enough (forall l o, (forall x, x ∈ l -> x <= m) -> (forall x, o = Some x -> x <= m) ->
    m ∈ l \/ o = Some m ->
    fold_left (fun o seq => Some (match o with None => seq | Some x => Z.max x seq end)) l o
      = Some m) as Hgen by (apply Hgen; naive_solver).
  clear. induction l as [|y l IH]; intros o Hl Ho Hin; simpl.
  - destruct Hin as [Hin| ->]; [by apply not_elem_of_nil in Hin|done].
  - assert (y <= m) by (apply Hl; left). apply IH.
    + intros x Hx. apply Hl. by right.
    + intros x [= <-]. destruct o as [o|]; [|done]. specialize (Ho o eq_refl). lia.
    + destruct Hin as [Hin| ->].
      * apply elem_of_cons in Hin as [<-|Hin]; [right|by left]. f_equal.
        destruct o as [o|]; [|done]. specialize (Ho o eq_refl). lia.
      * right. f_equal. lia.
Qed.

Section Related.
Context (w : World) (a : AbsWal) (Hrel : wal_rel w a).

Lemma rel_seq_u64 s : s ∈ (sealed a).*1 \/ s = active_seq a -> in_u64 s.
Proof.
  pose proof (rel_range _ _ Hrel). intros [Hs| ->]; [|done].
  pose proof (rel_below _ _ Hrel) as Hb. rewrite Forall_forall in Hb.
  apply Hb in Hs. ints.
Qed.

(** Sealing the active file with contents [c] and opening the next one. *)
Lemma seal_rel c ps max :
  active_seq a < u64_max -> seg_ok c ps ->
  let d := <[segment_path (active_seq a) := c]> (dir w) in
  let next_seq := active_seq a + 1 in
  d !! segment_path next_seq = None /\
  wal_rel (mkWorld (<[segment_path next_seq := []]> d) (mkWal next_seq [] 0 max))
    (abs_rotate (mkAbs (sealed a) (active_seq a) ps)).
Proof.
  intros Hlt Hok d next_seq. pose proof (rel_range _ _ Hrel) as Hr.
  assert (in_u64 next_seq) as Hn by ints.
  assert (forall s, s ∈ (sealed a).*1 \/ s = active_seq a ->
    segment_path s <> segment_path next_seq) as Hfresh.
  { intros s Hs Heq. apply segment_path_inj in Heq; [|by apply rel_seq_u64|done].
    destruct Hs as [Hs|Hs]; [|lia]. pose proof (rel_below _ _ Hrel) as Hb.
    rewrite Forall_forall in Hb. apply Hb in Hs. lia. }
  assert (d !! segment_path next_seq = None) as Hnone.
  { destruct (d !! segment_path next_seq) as [c'|] eqn:E; [|done]. exfalso. unfold d in E.
    rewrite lookup_insert_ne in E by (apply Hfresh; by right).
    apply (rel_only _ _ Hrel) in E as (s & Heq & Hs). by eapply Hfresh. }
  split; [done|]. constructor; simpl; try done.
  - rewrite fmap_app. simpl.
    apply StronglySorted_app_2; [|apply (rel_sorted _ _ Hrel)|by repeat constructor].
    intros x y Hx ->%list_elem_of_singleton. pose proof (rel_below _ _ Hrel) as Hb.
    rewrite Forall_forall in Hb. apply Hb in Hx. lia.
  - rewrite fmap_app. apply Forall_app. split.
    + eapply Forall_impl; [apply (rel_below _ _ Hrel)|]. simpl. lia.
    + simpl. constructor; [|done]. ints.
  - apply Forall_app. split.
    + pose proof (rel_files _ _ Hrel) as Hf. rewrite Forall_forall in Hf |- *.
      intros sp Hsp. destruct (Hf _ Hsp) as (c' & Hc' & Hok').
      assert (sp.1 ∈ (sealed a).*1) as Hin by (apply list_elem_of_fmap; eauto).
      exists c'. split; [|done].
      rewrite lookup_insert_ne by (apply not_eq_sym, Hfresh; by left).
      unfold d. rewrite lookup_insert_ne; [done|]. intros Heq.
      apply segment_path_inj in Heq; [|done|apply rel_seq_u64; by left].
      pose proof (rel_below _ _ Hrel) as Hb. rewrite Forall_forall in Hb. apply Hb in Hin. lia.
    + constructor; [|done]. exists c. split; [|done].
      rewrite lookup_insert_ne by (apply not_eq_sym, Hfresh; by right). apply lookup_insert_eq.
  - rewrite lookup_insert_eq. eauto.
  - intros name c'. rewrite lookup_insert_Some. intros [[<- _]|[_ Hl]]; [eauto|].
    unfold d in Hl. rewrite lookup_insert_Some in Hl. rewrite fmap_app.
    destruct Hl as [[<- _]|[_ Hl]].
    + exists (active_seq a). split; [done|]. left. apply elem_of_app. right. by left.
    + apply (rel_only _ _ Hrel) in Hl as (s & -> & Hs). exists s. split; [done|].
      left. apply elem_of_app. destruct Hs as [?| ->]; [by left|right; by left].
Qed.

Lemma wrapping_succ s : in_u64 s -> s < u64_max -> wrapping_add s 1 = s + 1.
Proof. intros. apply wrap64_id. ints. Qed.

Lemma rotate_rel :
  active_seq a < u64_max ->
  snd (rotate w) = Ok (active_seq a) /\ wal_rel (fst (rotate w)) (abs_rotate a).
Proof.
  intros Hlt. unfold rotate. rewrite (rel_seq _ _ Hrel), (rel_cur _ _ Hrel).
  rewrite wrapping_succ by (done || apply (rel_range _ _ Hrel)).
  assert (seg_ok (frames (active a)) (active a)) as Hok.
  { split; [apply (rel_active_ok _ _ Hrel)|]. exists []. split; [apply torn_nil|].
    by rewrite app_nil_r. }
  destruct (seal_rel _ _ (max_segment_bytes (wal w)) Hlt Hok) as [Hnone Hr].
  rewrite Hnone. split; [done|]. simpl. by destruct a.
Qed.

Lemma append_push_rel p :
  payload_ok p ->
  wal_rel
    (mkWorld (dir w) (mkWal (current_seq (wal w))
       ((current (wal w) ++ encode_header (zlen p) (crc32 p)) ++ p)
       (wrapping_add (current_bytes (wal w)) (Z.of_nat FRAME_HEADER_SIZE + zlen p))
       (max_segment_bytes (wal w))))
    (mkAbs (sealed a) (active_seq a) (active a ++ [p])).
Proof.
  intros Hp. destruct Hrel. constructor; simpl; try done.
  - rewrite rel_cur0, frames_app, frames_cons, app_nil_r, <- app_assoc. done.
  - rewrite rel_bytes0, frames_app, frames_cons, app_nil_r, zlen_app.
    unfold wrapping_add, wrap64. by rewrite Zplus_mod_idemp_l, zlen_frame.
  - apply Forall_app; auto.
Qed.

Lemma release_rel lo hi : wal_rel (fst (mark_uploaded w lo hi)) (abs_release a lo hi).
Proof.
  unfold mark_uploaded, prepare_release, abs_release. rewrite (rel_seq _ _ Hrel).
  destruct (Z.leb_spec (active_seq a) hi) as [|Hhi]; [done|].
  assert (forall s, s ∈ (sealed a).*1 \/ s = active_seq a ->
    dir w !! segment_path s =
      match release_segments (dir w) lo hi !! segment_path s with
      | Some c => Some c
      | None => if (lo <=? s) && (s <=? hi) then dir w !! segment_path s else None
      end) as Hlook.
  { intros s Hs. unfold release_segments.
    rewrite map_lookup_filter. simpl. rewrite parse_segment_path by by apply rel_seq_u64.
    destruct (dir w !! segment_path s) eqn:E; simpl; [|by case_match].
    case_guard as G; simpl; [done|]. by destruct ((lo <=? s) && (s <=? hi)). }
  set (keep := fun sp : Z * list bytes => negb ((lo <=? sp.1) && (sp.1 <=? hi))).
  destruct Hrel. constructor; simpl; try done.
  - clear -rel_sorted0. induction (sealed a) as [|sp l IH]; simpl; [constructor|].
    inversion rel_sorted0 as [|? ? Hs Hf]; subst. destruct (keep sp); simpl; auto.
    constructor; auto. rewrite Forall_forall in Hf |- *. intros x Hx. apply Hf.
    apply list_elem_of_fmap in Hx as (y & -> & Hy). apply list_elem_of_fmap.
    exists y. split; [done|]. apply list_elem_of_In in Hy. apply filter_In in Hy as [Hy _].
    by apply list_elem_of_In.
  - rewrite Forall_forall in rel_below0 |- *. intros x (y & -> & Hy)%list_elem_of_fmap.
    apply list_elem_of_In, filter_In in Hy as [Hy _]. apply rel_below0, list_elem_of_fmap.
    exists y. split; [done|]. by apply list_elem_of_In.
  - rewrite Forall_forall in rel_files0 |- *. intros sp Hsp.
    apply list_elem_of_In, filter_In in Hsp as [Hsp Hk]. apply list_elem_of_In in Hsp.
    destruct (rel_files0 _ Hsp) as (c & Hc & Hok). exists c. split; [|done].
    specialize (Hlook sp.1 ltac:(left; apply list_elem_of_fmap; eauto)).
    unfold keep in Hk. apply negb_true_iff in Hk. rewrite Hk, Hc in Hlook.
    by destruct (release_segments _ _ _ !! _).
  - specialize (Hlook (active_seq a) ltac:(by right)). destruct rel_active_file0 as [c Hc].
    rewrite Hc in Hlook. destruct (release_segments _ _ _ !! _); [eauto|].
    destruct (Z.leb_spec (active_seq a) hi); [lia|]. by rewrite andb_false_r in Hlook.
  - intros name c Hl. unfold release_segments in Hl. apply map_lookup_filter_Some in Hl as [Hl Hk].
    destruct (rel_only0 _ _ Hl) as (s & -> & Hs). exists s. split; [done|].
    destruct Hs as [Hs| ->]; [|by right]. left.
    simpl in Hk. rewrite parse_segment_path in Hk by (apply rel_seq_u64; by left).
    apply list_elem_of_fmap in Hs as (sp & -> & Hsp). apply list_elem_of_fmap. exists sp.
    split; [done|]. apply list_elem_of_In, filter_In. split; [by apply list_elem_of_In|].
    unfold keep. by rewrite Hk.
Qed.

Lemma restart_rel k :
  active_seq a < u64_max ->
  snd (restart w k) = Ok tt /\ wal_rel (fst (restart w k)) (abs_restart a k).
Proof.
  intros Hlt. unfold restart, open. rewrite (rel_seq _ _ Hrel), (rel_cur _ _ Hrel).
  pose proof (take_frames k _ (rel_active_ok _ _ Hrel)) as Hok.
  destruct (seal_rel _ _ (max_segment_bytes (wal w)) Hlt Hok) as [Hnone Hr].
  set (d := <[segment_path (active_seq a) := take k (frames (active a))]> (dir w)) in *.
  rewrite (scan_fold_max (scan_seqs d) (active_seq a)).
  - rewrite wrapping_succ by (done || apply (rel_range _ _ Hrel)). rewrite Hnone. by split.
  - apply elem_of_scan_seqs. exists (segment_path (active_seq a)), (take k (frames (active a))).
    split; [apply lookup_insert_eq|]. apply parse_segment_path, (rel_range _ _ Hrel).
  - intros x (name & c & Hl & Hp)%elem_of_scan_seqs.
    assert (exists s, name = segment_path s /\ (s ∈ (sealed a).*1 \/ s = active_seq a))
      as (s & -> & Hs).
    { unfold d in Hl. apply lookup_insert_Some in Hl as [[<- _]|[_ Hl]]; [eauto|].
      by eapply (rel_only _ _ Hrel). }
    rewrite parse_segment_path in Hp by by apply rel_seq_u64. simplify_eq.
    destruct Hs as [Hs| ->]; [|lia]. pose proof (rel_below _ _ Hrel) as Hb.
    rewrite Forall_forall in Hb. apply Hb in Hs. lia.
Qed.
End Related.

(** ** Runs *)

Lemma run_op_rel w a op :
  wal_rel w a -> active_seq a < u64_max ->
  wal_rel (fst (run_op w op)) (abs_op (max_segment_bytes (wal w)) a op) /\
  max_segment_bytes (wal (fst (run_op w op))) = max_segment_bytes (wal w).
Proof.
  intros Hrel Hlt. destruct op as [p| |lo hi|k]; simpl.
  - unfold append, abs_append.
    destruct (Z.ltb_spec MAX_REPLAY_FRAME_BYTES (zlen p)) as [|Hp]; [done|].
    pose proof (append_push_rel _ _ Hrel _ Hp) as Hpush. cbv zeta.
    pose proof (rel_bytes _ _ Hpush) as Hb. simpl in Hb.
    rewrite Hb in Hpush. simpl. rewrite Hb.
    destruct (max_segment_bytes (wal w) <=? _); [|done].
    destruct (rotate_rel _ _ Hpush Hlt) as [Hok Hr].
    unfold rotate in *. simpl in *. by destruct (_ !! _).
  - destruct (rotate_rel _ _ Hrel Hlt) as [Hok Hr].
    unfold rotate in *. simpl in *. by destruct (_ !! _).
  - split; [by apply release_rel|]. unfold mark_uploaded. by destruct (prepare_release _ _).
  - destruct (restart_rel _ _ Hrel k Hlt) as [Hok Hr]. split; [done|].
    unfold restart, open in *. by destruct (_ !! _).
Qed.

Lemma abs_op_seq mx a op : active_seq a <= active_seq (abs_op mx a op) <= active_seq a + 1.
Proof.
  destruct op; simpl; unfold abs_append, abs_release, abs_rotate;
    repeat case_match; simpl; lia.
Qed.

Lemma abs_run_seq mx ops a : active_seq (abs_run mx a ops) <= active_seq a + zlen ops.
Proof.
  revert a. induction ops as [|op ops IH]; intros a; [unfold zlen; simpl; lia|].
  rewrite zlen_cons. pose proof (abs_op_seq mx a op). specialize (IH (abs_op mx a op)).
  simpl. lia.
Qed.

Lemma wal_init_rel mx : wal_rel (wal_init mx) abs_init.
Proof.
  unfold wal_init, abs_init.
  constructor; cbn [sealed active_seq active dir wal]; try done; try by constructor.
  - intros name c Hl. apply lookup_singleton_Some in Hl as [<- _]. eauto.
Qed.

Lemma run_ops_rel mx ops w a :
  wal_rel w a -> max_segment_bytes (wal w) = mx ->
  active_seq a + zlen ops <= u64_max ->
  wal_rel (run_ops w ops) (abs_run mx a ops).
Proof.
  revert w a. induction ops as [|op ops IH]; intros w a Hrel <- Hlen; [done|].
  rewrite zlen_cons in Hlen. pose proof (zlen_nonneg ops).
  destruct (run_op_rel w a op Hrel ltac:(lia)) as [Hrel' Hmx].
  pose proof (abs_op_seq (max_segment_bytes (wal w)) a op).
  simpl. apply IH; [done|done|lia].
Qed.

(** The sequence numbers [replay] visits are those of the sealed segments. *)
Lemma replay_seqs w a : wal_rel w a -> seqs (replay w) = (sealed a).*1.
Proof.
  intros Hrel. unfold replay. simpl. rewrite (rel_seq _ _ Hrel).
  set (l := List.filter _ _).
  assert (Permutation l (sealed a).*1) as Hp.
  { apply NoDup_Permutation.
    - apply NoDup_ListNoDup, List.NoDup_filter, NoDup_ListNoDup. unfold scan_seqs.
      apply NoDup_omap_inj; [|apply NoDup_map_to_list].
      intros [n1 c1] [n2 c2] s H1%elem_of_map_to_list H2%elem_of_map_to_list; simpl.
      destruct (rel_only _ _ Hrel _ _ H1) as (s1 & -> & Hs1).
      destruct (rel_only _ _ Hrel _ _ H2) as (s2 & -> & Hs2).
      rewrite !parse_segment_path by eauto using rel_seq_u64.
      intros [= <-] [= <-]. congruence.
    - assert (StronglySorted Z.lt (sealed a).*1) as Hs by apply (rel_sorted _ _ Hrel).
      clear -Hs. induction Hs as [|x l Hs IH Hf]; constructor; [|done].
      rewrite Forall_forall in Hf. intros Hx%Hf. lia.
    - intros s. unfold l. rewrite list_elem_of_In, filter_In, <- list_elem_of_In, elem_of_scan_seqs.
      rewrite Z.ltb_lt. split.
      + intros [(name & c & Hl & Hpr) Hlt]. destruct (rel_only _ _ Hrel _ _ Hl) as (s' & -> & Hs').
        rewrite parse_segment_path in Hpr by eauto using rel_seq_u64. simplify_eq.
        destruct Hs' as [|Hs']; [done|lia].
      + intros Hs. pose proof (rel_below _ _ Hrel) as Hb. rewrite Forall_forall in Hb.
        split; [|by apply Hb]. pose proof Hs as (sp & -> & Hsp)%list_elem_of_fmap.
        pose proof (rel_files _ _ Hrel) as Hf. rewrite Forall_forall in Hf.
        destruct (Hf _ Hsp) as (c & Hc & _). exists (segment_path sp.1), c. split; [done|].
        apply parse_segment_path. eauto using rel_seq_u64. }
  apply (StronglySorted_unique (fun x y => cmp_leb (id x) (id y))).
  - intros x y _ _. apply cmp_leb_antisym.
  - apply sort_by_key_sorted.
  - eapply StronglySorted_impl; [|apply (rel_sorted _ _ Hrel)].
    intros x y Hxy. unfold cmp_leb. simpl. by rewrite (proj2 (Z.compare_lt_iff _ _) Hxy).
  - by rewrite sort_by_key_perm.
Qed.

Lemma replay_reads w a : wal_rel w a -> reads (dir w) (replay w) (concat (sealed a).*2).
Proof.
  intros Hrel. pose proof (replay_seqs _ _ Hrel) as Hs. unfold replay in *. simpl in Hs.
  rewrite Hs. apply reads_segments, (rel_files _ _ Hrel).
Qed.

Lemma whole_frames_prefix k ps : whole_frames k ps `prefix_of` ps.
Proof.
  revert k. induction ps as [|p ps IH]; intros k; cbn [whole_frames]; [done|].
  case_match; [by apply prefix_cons|apply prefix_nil].
Qed.

Lemma whole_frames_all k ps : (length (frames ps) <= k)%nat -> whole_frames k ps = ps.
Proof.
  revert k. induction ps as [|p ps IH]; intros k Hk; cbn [whole_frames]; [done|].
  rewrite frames_cons, length_app in Hk.
  destruct (Nat.leb_spec (length (frame p)) k); [|lia]. f_equal. apply IH. lia.
Qed.

(** ** Termination of replay on arbitrary directories *)

(** Bytes still to be read by an iterator. *)
Definition iter_bytes (d : gmap bytes bytes) (it : ReplayIter) : nat :=
  length (default [] (cur_file it)) +
  sum_list_with (fun s => length (default [] (d !! segment_path s))) (seqs it).

Lemma read_frame_rest f p rest :
  read_frame f = FrameOk p rest -> (8 + length rest <= length f)%nat.
Proof.
  unfold read_frame. destruct (Nat.ltb_spec (length f) FRAME_HEADER_SIZE) as [|Hl]; [done|].
  unfold FRAME_HEADER_SIZE in *. destruct (decode_header _) as [len crc]. do 2 (case_match; [done|]).
  case_match; [|done]. intros [= <- <-]. rewrite !length_drop. lia.
Qed.

Lemma next_segment_decreases d ss p it' :
  next_segment d ss = Some (Ok p, it') ->
  (iter_bytes d it' < sum_list_with (fun s => length (default [] (d !! segment_path s))) ss)%nat.
Proof.
  induction ss as [|s ss IH]; simpl; [done|].
  destruct (d !! segment_path s) as [f|]; [|done].
  destruct (read_frame f) as [|e rest|p' rest] eqn:E; [intros ?%IH; lia|done|].
  intros [= <- <-]. apply read_frame_rest in E. unfold iter_bytes. simpl. lia.
Qed.

Lemma next_decreases d it p it' :
  next d it = Some (Ok p, it') -> (iter_bytes d it' < iter_bytes d it)%nat.
Proof.
  unfold next. destruct it as [ss [f|]]; simpl.
  - destruct (read_frame f) as [|e rest|p' rest] eqn:E; [|done|].
    + intros ?%next_segment_decreases. unfold iter_bytes at 2. simpl. lia.
    + intros [= <- <-]. apply read_frame_rest in E. unfold iter_bytes. simpl. lia.
  - intros ?%next_segment_decreases. unfold iter_bytes at 2. simpl. lia.
Qed.

Lemma replay_collect_total d it fuel :
  (iter_bytes d it < fuel)%nat -> is_Some (replay_collect fuel d it).
Proof.
  revert it. induction fuel as [|fuel IH]; intros it Hf; [lia|]. simpl.
  destruct (next d it) as [[[p|e] it']|] eqn:E; [|eauto..].
  apply next_decreases in E. destruct (IH it' ltac:(lia)) as [[ps|e] ->]; eauto.
Qed.

(** ** The properties *)

(** C3. Refinement: whatever sequence of appends, rotations, releases and
    crash-restarts a WAL goes through, the directory and the writer stay
    related to the abstract log that only records which payload belongs to
    which segment. *)
Theorem wal_run_refines (mx : Z) (ops : list WalOp) :
  zlen ops <= u64_max ->
  wal_rel (run_ops (wal_init mx) ops) (abs_run mx abs_init ops).
Proof. intros Hn. apply run_ops_rel; [apply wal_init_rel|done|simpl; lia]. Qed.

(** C2. Crash recovery: after any run, a crash that left the first [k] bytes
    of the active segment on disk, followed by [open] and [replay], yields
    every payload of every unreleased sealed segment, in append order, and then
    a prefix of the payloads of the active segment, without an error; if all
    bytes of the active segment reached the disk, nothing at all is missing. *)
Theorem wal_crash_recovery (mx : Z) (ops : list WalOp) (k : nat) :
  zlen ops < u64_max ->
  let w := run_ops (wal_init mx) ops in
  let a := abs_run mx abs_init ops in
  let w' := fst (restart w k) in
  exists n,
    (forall fuel, (length (concat (sealed a).*2 ++ take n (active a)) < fuel)%nat ->
       replay_collect fuel (dir w') (replay w') =
         Some (Ok (concat (sealed a).*2 ++ take n (active a)))) /\
    ((length (current (wal w)) <= k)%nat -> take n (active a) = active a).
Proof.
  intros Hn w a w'.
  assert (wal_rel w a) as Hrel by (apply run_ops_rel; [apply wal_init_rel|done|simpl; lia]).
  assert (active_seq a < u64_max).
  { pose proof (abs_run_seq mx ops abs_init) as Hle. simpl in Hle. fold a in Hle. lia. }
  destruct (restart_rel w a Hrel k) as [_ Hrel']; [done|].
  apply replay_reads in Hrel'. unfold abs_restart, abs_rotate in Hrel'. simpl in Hrel'.
  rewrite fmap_app, concat_app in Hrel'. simpl in Hrel'. rewrite app_nil_r in Hrel'.
  destruct (whole_frames_prefix k (active a)) as [tl Htl].
  exists (length (whole_frames k (active a))).
  assert (take (length (whole_frames k (active a))) (active a) = whole_frames k (active a)) as ->.
  { rewrite Htl at 2. apply take_app_length. }
  split; [exact Hrel'|]. rewrite (rel_cur _ _ Hrel). apply whole_frames_all.
Qed.

(** Release is exact: releasing [[lo, hi]] below the active segment makes
    replay skip precisely the payloads of the segments numbered in [[lo, hi]];
    a range that reaches the active segment is refused and changes nothing. *)
Theorem wal_release_exact (mx : Z) (ops : list WalOp) (lo hi : Z) :
  zlen ops <= u64_max ->
  let w := run_ops (wal_init mx) ops in
  let a := abs_run mx abs_init ops in
  let kept := List.filter (fun sp => negb ((lo <=? fst sp) && (fst sp <=? hi))) (sealed a) in
  let w' := fst (mark_uploaded w lo hi) in
  if active_seq a <=? hi then mark_uploaded w lo hi = (w, Err ReleaseActive)
  else snd (mark_uploaded w lo hi) = Ok tt /\
       forall fuel, (length (concat kept.*2) < fuel)%nat ->
         replay_collect fuel (dir w') (replay w') = Some (Ok (concat kept.*2)).
Proof.
  intros Hn w a kept w'.
  assert (wal_rel w a) as Hrel by (apply run_ops_rel; [apply wal_init_rel|done|simpl; lia]).
  pose proof (release_rel w a Hrel lo hi) as Hr. fold w' in Hr.
  destruct (active_seq a <=? hi) eqn:E; unfold mark_uploaded, prepare_release;
    rewrite (rel_seq _ _ Hrel), E; [done|]. split; [done|].
  apply replay_reads in Hr. unfold abs_release in Hr. rewrite E in Hr. exact Hr.
Qed.

(** Replay terminates: on an arbitrary directory, including corrupt and
    missing files, collecting the iterator finishes within a number of steps
    bounded by the bytes on disk. *)
Theorem wal_replay_terminates (w : World) :
  is_Some (replay_collect (S (iter_bytes (dir w) (replay w))) (dir w) (replay w)).
Proof. apply replay_collect_total. lia. Qed.

(** C38. A complete frame whose CRC does not match ends its segment silently:
    the frame and every frame after it in the file are dropped, replay goes on
    with the next segment and reports no error. *)
Theorem wal_crc_mismatch_skips d ss p crc rest rs :
  payload_ok p -> in_u32 crc -> crc <> crc32 p ->
  (forall fuel, (length rs < fuel)%nat -> replay_collect fuel d (mkIter ss None) = Some (Ok rs)) ->
  forall fuel, (length rs < fuel)%nat ->
    replay_collect fuel d (mkIter ss (Some (encode_header (zlen p) crc ++ p ++ rest)))
      = Some (Ok rs).
Proof.
  intros Hp Hc Hne Hr. apply (reads_next _ _ (mkIter ss None)); [|exact Hr].
  unfold next, read_frame. cbn [cur_file seqs].
  rewrite decode_encode_header, drop_header by auto using payload_ok_u32.
  rewrite length_app, length_header. unfold payload_ok in Hp.
  destruct (Nat.ltb_spec (FRAME_HEADER_SIZE + length (p ++ rest)) FRAME_HEADER_SIZE); [lia|].
  destruct (Z.ltb_spec MAX_REPLAY_FRAME_BYTES (zlen p)); [lia|].
  rewrite zlen_app. pose proof (zlen_nonneg rest).
  destruct (Z.ltb_spec (zlen p + zlen rest) (zlen p)); [lia|].
  unfold zlen. rewrite Nat2Z.id, take_app_length.
  by destruct (Z.eqb_spec (crc32 p) crc); [congruence|].
Qed.

End WithCrc.

(** ** Witnesses *)

(** A concrete 32-bit checksum to run the model with. *)
Definition sum32 (p : bytes) : Z := fold_left (fun a b => a * 31 + b2z b) p 7 mod 2 ^ 32.

Lemma sum32_range p : in_u32 (sum32 p).
Proof.
  unfold sum32. pose proof (Z.mod_pos_bound (fold_left (fun a b => a * 31 + b2z b) p 7) (2 ^ 32)).
  ints.
Qed.

Definition sample_ops : list WalOp :=
  [OpAppend (str "one"); OpRotate; OpAppend (str "two"); OpAppend (str "three");
   OpRestart 20; OpAppend (str "four"); OpRotate; OpAppend (str "five")].

Example sample_run :
  let w := run_ops sum32 (wal_init 1000) sample_ops in
  replay_collect sum32 100 (dir w) (replay w)
    = Some (Ok [str "one"; str "two"; str "four"]).
Proof. vm_compute. reflexivity. Qed.

Lemma wal_run_refines_witness :
  wal_rel sum32 (run_ops sum32 (wal_init 1000) sample_ops)
    (abs_run sum32 1000 abs_init sample_ops).
Proof. apply (wal_run_refines sum32). vm_compute. discriminate. Defined.

Lemma wal_crash_recovery_witness :
  exists n,
    (forall fuel, (length ([str "one"; str "two"; str "four"] ++ take n [str "five"]) < fuel)%nat ->
       let w' := fst (restart (run_ops sum32 (wal_init 1000) sample_ops) 12) in
       replay_collect sum32 fuel (dir w') (replay w') =
         Some (Ok ([str "one"; str "two"; str "four"] ++ take n [str "five"]))) /\
    ((12 <= 12)%nat -> take n [str "five"] = [str "five"]).
Proof. apply (wal_crash_recovery sum32 sum32_range 1000 sample_ops 12). vm_compute. reflexivity. Defined.

Lemma wal_release_exact_witness :
  let w := run_ops sum32 (wal_init 1000) sample_ops in
  let w' := fst (mark_uploaded w 1 1) in
  snd (mark_uploaded w 1 1) = Ok tt /\
  forall fuel, (length [str "one"; str "four"] < fuel)%nat ->
    replay_collect sum32 fuel (dir w') (replay w') = Some (Ok [str "one"; str "four"]).
Proof. apply (wal_release_exact sum32 sum32_range 1000 sample_ops 1 1). vm_compute. discriminate. Defined.

Lemma wal_crc_mismatch_skips_witness :
  replay_collect sum32 2 ∅ (mkIter [] (Some (encode_header 3 0 ++ str "one" ++ frame sum32 (str "two"))))
    = Some (Ok []).
Proof.
  apply (wal_crc_mismatch_skips sum32 ∅ [] (str "one") 0 (frame sum32 (str "two")) []);
    [vm_compute; discriminate|vm_compute; split; discriminate|vm_compute; discriminate| |simpl; lia].
  intros [|fuel] Hf; [simpl in Hf; lia|reflexivity].
Defined.
