(* ===== verification/Alert.v ===== *)
(** * Alert rules: the alert state machine

    [crates/alert/src/model.rs] and [crates/alert/src/state.rs].  An [f64] is a
    [spec_float], the IEEE-754 data with its comparison; a UUID is its 128-bit
    number. *)

From stdpp Require Import sorting.
From Stdlib Require Import Floats.SpecFloat Sorting.Sorted.
From S2P Require Import Prelude.

(** ** The model *)

Abbreviation f64 := spec_float.

Definition f64_is_finite (x : f64) : bool :=
  match x with
  | S754_zero _ | S754_finite _ _ _ => true
  | S754_infinity _ | S754_nan => false
  end.

Inductive Signal := Metrics | Logs | Traces | Profiles.

Record EqualityMatcher := mkEqualityMatcher { em_name : string; em_value : string }.

Record ScalarQuery := mkScalarQuery {
  target_id : string;
  signal : Signal;
  matchers : list EqualityMatcher;
  lookback_seconds : Z;
  sql : string;
}.

Inductive Comparator := Lt_ | Lte_ | Gt_ | Gte_ | Eq_ | Ne_.

Definition compare (c : Comparator) (value threshold : f64) : bool :=
  match c with
  | Lt_ => SFltb value threshold
  | Lte_ => SFleb value threshold
  | Gt_ => SFltb threshold value
  | Gte_ => SFleb threshold value
  | Eq_ => SFeqb value threshold
  | Ne_ => negb (SFeqb value threshold)
  end.

Inductive NoDataPolicy := NoDataReport | NoDataFiring.
Inductive ExecutionErrorPolicy := ErrorKeepLast | ErrorReport | ErrorFiring.

Record ScalarCondition := mkCondition { comparator : Comparator; threshold : f64 }.

Record Monitor := mkMonitor {
  schema_version : Z;
  id : Z;
  revision : Z;
  name : string;
  enabled : bool;
  query : ScalarQuery;
  condition : ScalarCondition;
  every_seconds : Z;
  jitter_seconds : Z;
  for_seconds : Z;
  recover_for_seconds : Z;
  no_data : NoDataPolicy;
  execution_error : ExecutionErrorPolicy;
  labels : list (string * string);
  annotations : list (string * string);
  created_at_unix_nano : Z;
  updated_at_unix_nano : Z;
}.

(** ** The state *)

Inductive AlertStatus := Inactive | Pending | Firing | Recovering | NoData | Error | Disabled.

#[export] Instance AlertStatus_eq_dec : EqDecision AlertStatus.
Proof. solve_decision. Defined.

Definition as_str (s : AlertStatus) : string :=
  match s with
  | Inactive => "inactive"
  | Pending => "pending"
  | Firing => "firing"
  | Recovering => "recovering"
  | NoData => "no_data"
  | Error => "error"
  | Disabled => "disabled"
  end.

Definition is_hold (s : AlertStatus) : bool :=
  match s with Pending | Recovering => true | _ => false end.

Record InterruptedStatus := mkInterrupted {
  i_status : AlertStatus;
  i_since_unix_nano : Z;
}.

Record AlertState := mkState {
  monitor_revision : Z;
  status : AlertStatus;
  since_unix_nano : Z;
  last_evaluated_at_unix_nano : Z;
  last_slot_id : Z;
  last_value : option f64;
  last_error_class : option string;
  transition_sequence : Z;
  stale : bool;
  interrupted : option InterruptedStatus;
}.

Definition active (s : AlertState) : option InterruptedStatus :=
  match status s with
  | Firing | Recovering => Some (mkInterrupted (status s) (since_unix_nano s))
  | NoData | Error => interrupted s
  | _ => None
  end.

(** Lexicographic [(monitor_revision, last_slot_id) >= (revision, slot_id)]. *)
Definition covers (s : AlertState) (rev slot_id : Z) : bool :=
  (rev <? monitor_revision s) ||
  ((monitor_revision s =? rev) && (slot_id <=? last_slot_id s)).

Inductive Observation :=
| ObsValue (value : f64)
| ObsNoData
| ObsError (class : string).

Record StateChange := mkChange {
  previous : option AlertStatus;
  current : AlertStatus;
  transitioned : bool;
  resumed : bool;
}.

(** ** Evaluation *)

Definition held_for (since now seconds : Z) : bool :=
  sat_mul seconds 1000000000 <=? sat_sub now since.

Definition opt_filter {A} (p : A -> bool) (o : option A) : option A :=
  match o with Some x => if p x then Some x else None | None => None end.

Definition breaching_status (m : Monitor) (prior same_revision : option AlertState) (now : Z)
    : AlertStatus :=
  if (match prior ≫= active with Some _ => true | None => false end) || (for_seconds m =? 0)
  then Firing
  else
    let pending_since :=
      match opt_filter (fun s => bool_decide (status s = Pending)) same_revision with
      | Some s => since_unix_nano s
      | None => now
      end in
    if held_for pending_since now (for_seconds m) then Firing else Pending.

Definition clear_status (m : Monitor) (prior same_revision : option AlertState) (now : Z)
    : AlertStatus :=
  match prior ≫= active with
  | None => Inactive
  | Some act =>
      if recover_for_seconds m =? 0 then Inactive
      else
        let recovering_since :=
          match opt_filter (fun i => bool_decide (i_status i = Recovering))
                  (match same_revision with Some _ => Some act | None => None end) with
          | Some i => i_since_unix_nano i
          | None => now
          end in
        if held_for recovering_since now (recover_for_seconds m) then Inactive else Recovering
  end.

Definition next_status (m : Monitor) (prior same_revision : option AlertState)
    (obs : Observation) (now : Z) : AlertStatus * option f64 * option string * bool :=
  if negb (enabled m) then (Disabled, None, None, false)
  else
    match obs with
    | ObsValue value =>
        let breaching :=
          f64_is_finite value &&
          compare (comparator (condition m)) value (threshold (condition m)) in
        let st := if breaching then breaching_status m prior same_revision now
                  else clear_status m prior same_revision now in
        (st, Some value, None, false)
    | ObsNoData =>
        let st := match no_data m with
                  | NoDataReport => NoData
                  | NoDataFiring => breaching_status m prior same_revision now
                  end in
        (st, None, None, true)
    | ObsError class =>
        let st := match execution_error m with
                  | ErrorKeepLast =>
                      match prior with
                      | None => Error
                      | Some s => match status s with Disabled => Error | st => st end
                      end
                  | ErrorReport => Error
                  | ErrorFiring => breaching_status m prior same_revision now
                  end in
        (st, None, Some class, true)
    end.

Definition evaluate (m : Monitor) (prior : option AlertState) (obs : Observation)
    (slot_id now : Z) : AlertState * StateChange :=
  match opt_filter (fun s => covers s (revision m) slot_id) prior with
  | Some p => (p, mkChange (Some (status p)) (status p) false false)
  | None =>
      let same_revision := opt_filter (fun s => monitor_revision s =? revision m) prior in
      let prev := status <$> prior in
      let '(st, value, error, stl) := next_status m prior same_revision obs now in
      let suspended :=
        opt_filter (fun s => match status s with NoData | Error => true | _ => false end) prior
          ≫= interrupted in
      let res := opt_filter (fun i => bool_decide (i_status i = st)) suspended in
      let keeps := match same_revision with Some _ => true | None => negb (is_hold st) end in
      let since :=
        match res with
        | Some i =>
            if keeps then i_since_unix_nano i
            else match prior with
                 | Some s => if bool_decide (status s = st) && keeps
                             then since_unix_nano s else now
                 | None => now
                 end
        | None =>
            match prior with
            | Some s => if bool_decide (status s = st) && keeps then since_unix_nano s else now
            | None => now
            end
        end in
      let intr := match st with NoData | Error => prior ≫= active | _ => None end in
      let trans := negb (bool_decide (prev = Some st)) in
      let sequence :=
        wrapping_add (match prior with Some s => transition_sequence s | None => 0 end)
          (if trans then 1 else 0) in
      let lv := match value with
                | Some v => Some v
                | None => same_revision ≫= last_value
                end in
      (mkState (revision m) st since now slot_id lv error sequence stl intr,
       mkChange prev st trans (trans && match res with Some _ => true | None => false end))
  end.

(** ** Facts about one evaluation *)

Ltac destruct_obs m obs :=
  unfold next_status; destruct (enabled m); simpl; [|];
  [destruct obs as [v| |cl]; simpl;
   [|destruct (no_data m)|destruct (execution_error m)]|].

Definition is_active (s : option AlertState) : bool :=
  match s ≫= active with Some _ => true | None => false end.

Lemma breaching_status_cases m prior same now :
  breaching_status m prior same now = Firing \/
  (breaching_status m prior same now = Pending /\ is_active prior = false).
Proof.
  unfold breaching_status, is_active. destruct (prior ≫= active); simpl; [auto|].
  repeat case_match; auto.
Qed.

Lemma clear_status_cases m prior same now :
  clear_status m prior same now = Inactive \/
  (clear_status m prior same now = Recovering /\ is_active prior = true).
Proof.
  unfold clear_status, is_active. destruct (prior ≫= active); [|auto].
  repeat case_match; auto.
Qed.

(** The evaluation is not already reflected in the durable state. *)
Definition fresh (m : Monitor) (prior : option AlertState) (slot_id : Z) : bool :=
  match prior with Some s => negb (covers s (revision m) slot_id) | None => true end.

Lemma evaluate_fresh m prior obs slot now :
  fresh m prior slot = true ->
  let r := evaluate m prior obs slot now in
  let same := opt_filter (fun s => monitor_revision s =? revision m) prior in
  let st := fst (fst (fst (next_status m prior same obs now))) in
  monitor_revision (fst r) = revision m /\
  last_slot_id (fst r) = slot /\
  last_evaluated_at_unix_nano (fst r) = now /\
  status (fst r) = st /\
  current (snd r) = st /\
  previous (snd r) = status <$> prior /\
  transitioned (snd r) = negb (bool_decide (status <$> prior = Some st)) /\
  transition_sequence (fst r) =
    wrapping_add (match prior with Some s => transition_sequence s | None => 0 end)
      (if transitioned (snd r) then 1 else 0) /\
  interrupted (fst r) = (match st with NoData | Error => prior ≫= active | _ => None end).
Proof.
  intros Hf r same st. unfold r, evaluate.
  assert (opt_filter (fun s => covers s (revision m) slot) prior = None) as ->.
  { destruct prior as [s|]; [|done]. simpl in *. by destruct (covers _ _ _). }
  fold same. unfold st. destruct (next_status m prior same obs now) as [[[st' v] e] stl].
  simpl. repeat split; done.
Qed.

Lemma evaluate_covered m prior obs slot now :
  fresh m prior slot = false ->
  exists s, prior = Some s /\
    evaluate m prior obs slot now = (s, mkChange (Some (status s)) (status s) false false).
Proof.
  intros Hc. destruct prior as [s|]; [|done]. exists s. split; [done|].
  unfold evaluate. simpl in *. by destruct (covers _ _ _).
Qed.

(** The status of an outage never invents an activity, and keeps a real one. *)
Definition state_wf (s : AlertState) : Prop :=
  match interrupted s with
  | Some i => (status s = NoData \/ status s = Error) /\
              (i_status i = Firing \/ i_status i = Recovering)
  | None => True
  end.

Definition prior_wf (p : option AlertState) : Prop :=
  match p with Some s => state_wf s | None => True end.

Lemma active_status p i :
  prior_wf p -> p ≫= active = Some i -> i_status i = Firing \/ i_status i = Recovering.
Proof.
  destruct p as [s|]; [|done]. simpl. unfold state_wf, active. intros Hwf.
  destruct (status s); intros; simplify_eq/=; auto; destruct (interrupted s); naive_solver.
Qed.

Lemma evaluate_wf m prior obs slot now :
  prior_wf prior -> state_wf (fst (evaluate m prior obs slot now)).
Proof.
  intros Hwf. destruct (fresh m prior slot) eqn:Hf.
  2:{ destruct (evaluate_covered m prior obs slot now Hf) as (s & -> & ->). done. }
  destruct (evaluate_fresh m prior obs slot now Hf) as (_ & _ & _ & Hst & _ & _ & _ & _ & Hi).
  unfold state_wf. rewrite Hi, Hst. clear Hi Hst.
  generalize (fst (fst (fst (next_status m prior
    (opt_filter (fun s => monitor_revision s =? revision m) prior) obs now)))). intros st.
  destruct (prior ≫= active) as [i|] eqn:E.
  - pose proof (active_status _ _ Hwf E). destruct st; auto.
  - by destruct st.
Qed.

(** ** Runs *)

Record Evaluation := mkEval { ev_obs : Observation; ev_slot : Z; ev_now : Z }.

(** Any sequence of evaluations, each under its own revision of the rule. *)
Fixpoint alert_run (prior : option AlertState) (evs : list (Monitor * Evaluation))
    : option AlertState * list StateChange :=
  match evs with
  | [] => (prior, [])
  | (m, e) :: evs' =>
      let '(s, c) := evaluate m prior (ev_obs e) (ev_slot e) (ev_now e) in
      let '(s', cs) := alert_run (Some s) evs' in
      (s', c :: cs)
  end.

Definition sequence_of (p : option AlertState) : Z :=
  match p with Some s => transition_sequence s | None => 0 end.

Definition n_transitions (cs : list StateChange) : Z :=
  zlen (List.filter transitioned cs).

Lemma n_transitions_cons c cs :
  n_transitions (c :: cs) = (if transitioned c then 1 else 0) + n_transitions cs.
Proof. unfold n_transitions. simpl. destruct (transitioned c); rewrite ?zlen_cons; lia. Qed.

Lemma evaluate_sequence m prior obs slot now :
  0 <= sequence_of prior < u64_max ->
  transition_sequence (fst (evaluate m prior obs slot now)) =
    sequence_of prior + (if transitioned (snd (evaluate m prior obs slot now)) then 1 else 0).
Proof.
  intros Hs. destruct (fresh m prior slot) eqn:Hf.
  - destruct (evaluate_fresh m prior obs slot now Hf) as (_ & _ & _ & _ & _ & _ & _ & Hq & _).
    rewrite Hq. fold (sequence_of prior). apply wrap64_id. unfold in_u64.
    destruct (transitioned _); lia.
  - destruct (evaluate_covered m prior obs slot now Hf) as (s & -> & ->). simpl. lia.
Qed.

Lemma alert_run_inv prior evs :
  prior_wf prior -> 0 <= sequence_of prior -> sequence_of prior + zlen evs <= u64_max ->
  prior_wf (fst (alert_run prior evs)) /\
  sequence_of (fst (alert_run prior evs)) =
    sequence_of prior + n_transitions (snd (alert_run prior evs)).
Proof.
  revert prior. induction evs as [|[m e] evs IH]; intros prior Hwf H0 Hle; simpl.
  { split; [done|]. unfold n_transitions, zlen. simpl. lia. }
  rewrite zlen_cons in Hle. pose proof (zlen_nonneg evs).
  pose proof (evaluate_wf m prior (ev_obs e) (ev_slot e) (ev_now e) Hwf) as Hwf'.
  pose proof (evaluate_sequence m prior (ev_obs e) (ev_slot e) (ev_now e) ltac:(lia)) as Hq.
  destruct (evaluate m prior (ev_obs e) (ev_slot e) (ev_now e)) as [s c]. simpl in *.
  specialize (IH (Some s) Hwf'). simpl in IH.
  destruct (alert_run (Some s) evs) as [s' cs]. simpl in *.
  rewrite n_transitions_cons. destruct (transitioned c); destruct IH as [? Hs'];
    (lia || (split; [done|lia])).
Qed.

(** ** Hold timers *)

(** The observation lets a [Pending] hold continue under the rule. *)
Definition sustains (m : Monitor) (e : Evaluation) : bool :=
  enabled m &&
  match ev_obs e with
  | ObsValue v => f64_is_finite v && compare (comparator (condition m)) v (threshold (condition m))
  | ObsNoData => match no_data m with NoDataFiring => true | NoDataReport => false end
  | ObsError _ => match execution_error m with ErrorReport => false | _ => true end
  end.

Definition same_rev (m : Monitor) (prior : option AlertState) : option AlertState :=
  opt_filter (fun s => monitor_revision s =? revision m) prior.

Definition status_of (m : Monitor) (prior : option AlertState) (e : Evaluation) : AlertStatus :=
  fst (fst (fst (next_status m prior (same_rev m prior) (ev_obs e) (ev_now e)))).

Lemma status_of_pending m prior e :
  status_of m prior e = Pending -> sustains m e = true /\ is_active prior = false.
Proof.
  unfold status_of, next_status, sustains. destruct (enabled m); simpl; [|done].
  pose proof (breaching_status_cases m prior (same_rev m prior) (ev_now e)) as Hb.
  pose proof (clear_status_cases m prior (same_rev m prior) (ev_now e)) as Hc.
  destruct (ev_obs e) as [v| |cl]; simpl.
  - destruct (f64_is_finite v && _); simpl; [|by destruct Hc as [->|[-> _]]].
    destruct Hb as [->|[-> ?]]; done.
  - destruct (no_data m); [done|]. destruct Hb as [->|[-> ?]]; done.
  - destruct (execution_error m); simpl; [|done|by destruct Hb as [->|[-> ?]]].
    destruct prior as [s|]; [|done]. unfold is_active, active. simpl. by destruct (status s).
Qed.

(** Since when the rule has been pending, as [breaching_status] sees it. *)
Definition pending_since (m : Monitor) (prior : option AlertState) (now : Z) : Z :=
  match prior with
  | Some s => if bool_decide (status s = Pending) && (monitor_revision s =? revision m)
              then since_unix_nano s else now
  | None => now
  end.

Lemma pending_since_eq m prior now :
  match opt_filter (fun s => bool_decide (status s = Pending)) (same_rev m prior) with
  | Some s => since_unix_nano s
  | None => now
  end = pending_since m prior now.
Proof.
  destruct prior as [s|]; [|done]. unfold same_rev, opt_filter, pending_since.
  destruct (monitor_revision s =? revision m), (bool_decide (status s = Pending)); done.
Qed.

Lemma status_of_fires m prior e :
  is_active prior = false -> status_of m prior e = Firing ->
  sustains m e = true /\
  held_for (pending_since m prior (ev_now e)) (ev_now e) (for_seconds m) = true.
Proof.
  intros Ha.
  assert (breaching_status m prior (same_rev m prior) (ev_now e) = Firing ->
    held_for (pending_since m prior (ev_now e)) (ev_now e) (for_seconds m) = true) as Hb.
  { unfold breaching_status. rewrite pending_since_eq. unfold is_active in Ha.
    destruct (prior ≫= active); [done|]. simpl.
    destruct (Z.eqb_spec (for_seconds m) 0) as [Hz|]; [|by case_match].
    intros _. unfold held_for. rewrite Hz. apply Z.leb_le. unfold sat_mul, sat_sub. lia. }
  pose proof (clear_status_cases m prior (same_rev m prior) (ev_now e)) as Hc.
  unfold status_of, next_status, sustains. destruct (enabled m); simpl; [|done].
  destruct (ev_obs e) as [v| |cl]; simpl.
  - destruct (f64_is_finite v && _); simpl; [auto|by destruct Hc as [->|[-> _]]].
  - destruct (no_data m); [done|auto].
  - destruct (execution_error m); simpl; [|done|auto].
    destruct prior as [s|]; [|done]. unfold is_active, active in Ha. simpl in Ha.
    by destruct (status s).
Qed.

Lemma suspended_not_pending prior :
  prior_wf prior ->
  opt_filter (fun i => bool_decide (i_status i = Pending))
    (opt_filter (fun s => match status s with NoData | Error => true | _ => false end) prior
       ≫= interrupted) = None.
Proof.
  intros Hwf. destruct prior as [s|]; [|done]. simpl in *. unfold state_wf in Hwf.
  assert (opt_filter (fun i => bool_decide (i_status i = Pending)) (interrupted s) = None) as Hn.
  { destruct (interrupted s) as [i|]; [|done]. destruct Hwf as [_ Hi]. unfold opt_filter.
    rewrite bool_decide_eq_false_2; [done|]. destruct Hi; congruence. }
  by destruct (status s).
Qed.

Lemma evaluate_pending_since m prior e :
  prior_wf prior -> fresh m prior (ev_slot e) = true ->
  status_of m prior e = Pending ->
  since_unix_nano (fst (evaluate m prior (ev_obs e) (ev_slot e) (ev_now e))) =
    pending_since m prior (ev_now e).
Proof.
  intros Hwf Hf Hst. unfold evaluate.
  assert (opt_filter (fun s => covers s (revision m) (ev_slot e)) prior = None) as ->.
  { destruct prior as [s|]; [|done]. simpl in *. by destruct (covers _ _ _). }
  unfold status_of, same_rev in Hst.
  destruct (next_status m prior _ (ev_obs e) (ev_now e)) as [[[st v] er] stl]. simpl in Hst.
  subst st. simpl.
  rewrite suspended_not_pending by done.
  destruct prior as [s|]; [|done]. unfold pending_since, opt_filter.
  destruct (monitor_revision s =? revision m), (bool_decide (status s = Pending)); done.
Qed.

(** A rule evaluated under one revision, slot after slot. *)
Definition alert_fold (m : Monitor) (evs : list Evaluation) : option AlertState :=
  fold_left (fun p e => Some (fst (evaluate m p (ev_obs e) (ev_slot e) (ev_now e)))) evs None.

Lemma alert_fold_snoc m evs e :
  alert_fold m (evs ++ [e]) =
    Some (fst (evaluate m (alert_fold m evs) (ev_obs e) (ev_slot e) (ev_now e))).
Proof. unfold alert_fold. by rewrite fold_left_app. Qed.

Lemma alert_fold_wf m evs : prior_wf (alert_fold m evs).
Proof.
  induction evs as [|e evs IH] using rev_ind; [done|]. rewrite alert_fold_snoc.
  by apply evaluate_wf.
Qed.

(** Each evaluation has a newer slot than all earlier ones. *)
Definition slots_increase (evs : list Evaluation) : Prop := StronglySorted Z.lt (map ev_slot evs).

Lemma slots_increase_snoc evs e :
  slots_increase (evs ++ [e]) ->
  slots_increase evs /\ forall x, In x evs -> ev_slot x < ev_slot e.
Proof.
  unfold slots_increase. rewrite map_app, StronglySorted_app. intros (Hlt & Hs & _).
  split; [done|]. intros x Hx. apply Hlt; [|by left]. by apply list_elem_of_In, in_map.
Qed.

Lemma alert_fold_slot m evs :
  slots_increase evs ->
  match alert_fold m evs with
  | Some s => monitor_revision s = revision m /\ exists x, In x evs /\ last_slot_id s = ev_slot x
  | None => evs = []
  end.
Proof.
  induction evs as [|e evs IH] using rev_ind; [done|].
  intros [Hi Hl]%slots_increase_snoc. specialize (IH Hi). rewrite alert_fold_snoc.
  destruct (fresh m (alert_fold m evs) (ev_slot e)) eqn:Hf.
  - destruct (evaluate_fresh m _ (ev_obs e) (ev_slot e) (ev_now e) Hf) as (-> & -> & _).
    split; [done|]. exists e. split; [apply in_or_app; right; by left|done].
  - destruct (evaluate_covered m _ (ev_obs e) (ev_slot e) (ev_now e) Hf) as (s & Hs & ->).
    rewrite Hs in IH. destruct IH as (? & x & ? & ?). split; [done|]. exists x.
    split; [apply in_or_app; by left|done].
Qed.

Lemma alert_fold_fresh m evs e :
  slots_increase (evs ++ [e]) -> fresh m (alert_fold m evs) (ev_slot e) = true.
Proof.
  intros [Hi Hl]%slots_increase_snoc. pose proof (alert_fold_slot m evs Hi) as IH.
  unfold fresh. destruct (alert_fold m evs) as [s|]; [|done]. destruct IH as (Hr & x & Hx & Hs).
  unfold covers. rewrite Hr, Hs, Z.ltb_irrefl, Z.eqb_refl. simpl.
  rewrite (proj2 (Z.leb_gt _ _)); [done|]. by apply Hl.
Qed.

(** The history behind a running [Pending] hold. *)
Lemma pending_history m evs s :
  slots_increase evs -> alert_fold m evs = Some s -> status s = Pending ->
  exists h1 e0 h2, evs = h1 ++ e0 :: h2 /\ ev_now e0 = since_unix_nano s /\
    Forall (fun e => sustains m e = true) (e0 :: h2).
Proof.
  revert s. induction evs as [|e evs IH] using rev_ind; [done|]. intros s Hinc Hs Hp.
  pose proof (alert_fold_fresh m evs e Hinc) as Hf. apply slots_increase_snoc in Hinc as [Hinc _].
  pose proof (alert_fold_slot m evs Hinc) as Hslot. rewrite alert_fold_snoc in Hs. simplify_eq.
  destruct (evaluate_fresh m _ (ev_obs e) (ev_slot e) (ev_now e) Hf) as (_ & _ & _ & Hst & _).
  fold (same_rev m (alert_fold m evs)) in Hst. fold (status_of m (alert_fold m evs) e) in Hst.
  rewrite Hst in Hp. rewrite evaluate_pending_since by eauto using alert_fold_wf.
  apply status_of_pending in Hp as [Hsus _]. unfold pending_since.
  destruct (alert_fold m evs) as [p|] eqn:E.
  2:{ exists evs, e, []. by repeat constructor. }
  destruct Hslot as [-> _]. rewrite Z.eqb_refl, andb_true_r.
  destruct (bool_decide (status p = Pending)) eqn:Ep.
  - apply bool_decide_eq_true in Ep. destruct (IH p Hinc eq_refl Ep) as (h1 & e0 & h2 & -> & Hn & HF).
    exists h1, e0, (h2 ++ [e]). split; [by rewrite <- app_assoc|]. split; [done|].
    rewrite app_comm_cons. apply Forall_app; split; [done|]. by constructor.
  - exists evs, e, []. by repeat constructor.
Qed.

(** ** The properties *)

(** C18. A rule fires only on a sustained condition: in any run of one rule over
    strictly newer slots, if an evaluation moves an alert that was not active
    (neither firing, recovering nor interrupted by an outage) to [Firing], then
    there is an earlier-or-equal evaluation from which on every observation,
    including this one, counted as breaching (or was an execution error that
    the rule says to ignore), and the time from it to now is at least the
    configured [for]. *)
Theorem firing_is_sustained (m : Monitor) (evs : list Evaluation) (e : Evaluation) :
  slots_increase (evs ++ [e]) ->
  is_active (alert_fold m evs) = false ->
  status <$> alert_fold m (evs ++ [e]) = Some Firing ->
  exists h1 e0 h2, evs ++ [e] = h1 ++ e0 :: h2 /\
    Forall (fun x => sustains m x = true) (e0 :: h2) /\
    sat_mul (for_seconds m) 1000000000 <= sat_sub (ev_now e) (ev_now e0).
Proof.
  intros Hinc Ha. pose proof (alert_fold_fresh m evs e Hinc) as Hf.
  apply slots_increase_snoc in Hinc as [Hinc _].
  rewrite alert_fold_snoc. simpl. intros [= Hst].
  destruct (evaluate_fresh m _ (ev_obs e) (ev_slot e) (ev_now e) Hf) as (_ & _ & _ & Hst' & _).
  rewrite Hst' in Hst. apply status_of_fires in Hst as [Hsus Hheld]; [|done].
  unfold held_for in Hheld. apply Z.leb_le in Hheld. unfold pending_since in Hheld.
  destruct (alert_fold m evs) as [p|] eqn:E.
  2:{ exists evs, e, []. by repeat constructor. }
  destruct (bool_decide (status p = Pending)) eqn:Ep.
  2:{ exists evs, e, []. by repeat constructor. }
  pose proof (alert_fold_slot m evs Hinc) as Hslot. rewrite E in Hslot. destruct Hslot as [Hr _].
  rewrite Hr, Z.eqb_refl in Hheld. apply bool_decide_eq_true in Ep.
  destruct (pending_history m evs p Hinc E Ep) as (h1 & e0 & h2 & -> & Hn & HF).
  exists h1, e0, (h2 ++ [e]). split; [by rewrite <- app_assoc|]. split.
  - rewrite app_comm_cons. apply Forall_app; split; [done|]. by constructor.
  - rewrite Hn. exact Hheld.
Qed.

(** C19. An alert that is active, or whose activity an outage interrupted, never
    goes back to [Pending]: from a well-formed prior state an evaluation of a
    newer slot gives [Firing], [Recovering], [Inactive], [Disabled] or an
    outage, and an outage keeps the interrupted activity; it becomes [Inactive]
    only because the condition was observed false and the recovery hold (if
    any) had elapsed under the same revision of the rule. *)
Theorem active_alert_continues (m : Monitor) (s : AlertState) (act : InterruptedStatus)
    (e : Evaluation) :
  state_wf s -> active s = Some act -> covers s (revision m) (ev_slot e) = false ->
  let s' := fst (evaluate m (Some s) (ev_obs e) (ev_slot e) (ev_now e)) in
  status s' <> Pending /\
  (status s' = NoData \/ status s' = Error -> interrupted s' = Some act) /\
  (status s' = Inactive ->
     (exists v, ev_obs e = ObsValue v /\ sustains m e = false) /\
     (recover_for_seconds m = 0 \/
      (exists since, sat_mul (recover_for_seconds m) 1000000000 <= sat_sub (ev_now e) since /\
         (since = ev_now e \/
          (monitor_revision s = revision m /\ i_status act = Recovering /\
           since = i_since_unix_nano act))))).
Proof.
  intros Hwf Ha Hc. cbv zeta.
  assert (fresh m (Some s) (ev_slot e) = true) as Hf by (simpl; by rewrite Hc).
  destruct (evaluate_fresh m _ (ev_obs e) (ev_slot e) (ev_now e) Hf)
    as (_ & _ & _ & Hst & _ & _ & _ & _ & Hi).
  fold (same_rev m (Some s)) in Hst, Hi. fold (status_of m (Some s) e) in Hst, Hi.
  rewrite Hst, Hi. clear Hst Hi. split; [|split].
  - intros Hp%status_of_pending. destruct Hp as [_ Hp]. unfold is_active in Hp. simpl in Hp.
    by rewrite Ha in Hp.
  - simpl. rewrite Ha. by intros [-> | ->].
  - unfold status_of, next_status, sustains. destruct (enabled m) eqn:En; cbn [negb fst]; [|done].
    pose proof (breaching_status_cases m (Some s) (same_rev m (Some s)) (ev_now e)) as Hb.
    destruct (ev_obs e) as [v| |cl]; cbn [fst].
    + destruct (f64_is_finite v && _); cbn [fst]; [by destruct Hb as [->|[-> _]]|].
      intros Hcl. split; [by eexists|]. unfold clear_status in Hcl. simpl in Hcl.
      rewrite Ha in Hcl. destruct (Z.eqb_spec (recover_for_seconds m) 0); [by left|].
      right. unfold same_rev, opt_filter in Hcl.
      destruct (Z.eqb_spec (monitor_revision s) (revision m)).
      * destruct (bool_decide (i_status act = Recovering)) eqn:Er.
        -- apply bool_decide_eq_true in Er. destruct (held_for _ _ _) eqn:Eh; [|done].
           apply Z.leb_le in Eh. exists (i_since_unix_nano act). auto.
        -- destruct (held_for _ _ _) eqn:Eh; [|done]. apply Z.leb_le in Eh. eauto.
      * destruct (held_for _ _ _) eqn:Eh; [|done]. apply Z.leb_le in Eh. eauto.
    + destruct (no_data m); [done|]. by destruct Hb as [->|[-> _]].
    + destruct (execution_error m); [|done|by destruct Hb as [->|[-> _]]].
      unfold active in Ha. by destruct (status s).
Qed.

(** Over any run of any revisions from no state, the transition sequence of
    the durable state is exactly the number of evaluations that reported a
    transition, and the state is well formed (an interrupted activity exists
    only inside an outage and is [Firing] or [Recovering]). *)
Theorem alert_run_sequence (evs : list (Monitor * Evaluation)) :
  zlen evs <= u64_max ->
  prior_wf (fst (alert_run None evs)) /\
  sequence_of (fst (alert_run None evs)) = n_transitions (snd (alert_run None evs)).
Proof.
  intros Hle. destruct (alert_run_inv None evs) as [Hwf Hs]; simpl; try done.
Qed.

(** Slots are evaluated once and revisions never go back: an evaluation
    whose [(revision, slot)] is not lexicographically newer than the durable one
    changes nothing; otherwise the durable pair becomes exactly the evaluated
    one, so it strictly increases, and a transition is reported exactly when the
    status changed. *)
Theorem evaluate_once (m : Monitor) (s : AlertState) (e : Evaluation) :
  let r := evaluate m (Some s) (ev_obs e) (ev_slot e) (ev_now e) in
  if covers s (revision m) (ev_slot e)
  then fst r = s /\ transitioned (snd r) = false
  else monitor_revision (fst r) = revision m /\ last_slot_id (fst r) = ev_slot e /\
       (monitor_revision s < revision m \/
        (monitor_revision s = revision m /\ last_slot_id s < ev_slot e)) /\
       covers (fst r) (revision m) (ev_slot e) = true /\
       (transitioned (snd r) = true <-> status (fst r) <> status s).
Proof.
  cbv zeta. destruct (covers s (revision m) (ev_slot e)) eqn:Hc.
  - unfold evaluate. simpl. by rewrite Hc.
  - assert (fresh m (Some s) (ev_slot e) = true) as Hf by (simpl; by rewrite Hc).
    destruct (evaluate_fresh m _ (ev_obs e) (ev_slot e) (ev_now e) Hf)
      as (Hr & Hs & _ & Hst & _ & _ & Ht & _).
    rewrite Hr, Hs, Ht, Hst. split; [done|]. split; [done|]. split; [|split].
    + unfold covers in Hc. split_tests; simpl in Hc; try done; lia.
    + unfold covers. rewrite Hr, Hs, Z.ltb_irrefl, Z.eqb_refl, Z.leb_refl. done.
    + simpl. rewrite negb_true_iff, bool_decide_eq_false.
      split; [intros Hn Heq; apply Hn; by rewrite Heq|intros Hn Heq; apply Hn; congruence].
Qed.

(** ** Witnesses *)

Definition demo_monitor : Monitor :=
  mkMonitor 1 7 1 "high error rate" true
    (mkScalarQuery "all" Logs [] 300 "SELECT count(*) FROM logs")
    (mkCondition Gt_ (S754_finite false 5 0)) 60 5 60 120 NoDataReport ErrorKeepLast [] []
    0 0.

Definition demo_eval (slot : Z) (v : positive) : Evaluation :=
  mkEval (ObsValue (S754_finite false v 0)) slot (slot * 60 * 1000000000).

(** The condition holds from slot 2 on, [for = 60s]: slot 3 fires. *)
Lemma firing_is_sustained_witness :
  exists h1 e0 h2,
    [demo_eval 1 3; demo_eval 2 6; demo_eval 3 9] = h1 ++ e0 :: h2 /\
    Forall (fun x => sustains demo_monitor x = true) (e0 :: h2) /\
    sat_mul 60 1000000000 <= sat_sub (ev_now (demo_eval 3 9)) (ev_now e0).
Proof.
  apply (firing_is_sustained demo_monitor [demo_eval 1 3; demo_eval 2 6] (demo_eval 3 9)).
  - unfold slots_increase, demo_eval. simpl. repeat constructor; lia.
  - vm_compute. reflexivity.
  - vm_compute. reflexivity.
Defined.

Definition demo_firing : AlertState :=
  mkState 1 Firing 60 120 2 None None 2 false None.

(** A firing alert whose query finds no data becomes an outage that remembers
    the interrupted activity. *)
Lemma active_alert_continues_witness :
  interrupted (fst (evaluate demo_monitor (Some demo_firing) ObsNoData 3 180)) =
    Some (mkInterrupted Firing 60).
Proof.
  apply (active_alert_continues demo_monitor demo_firing (mkInterrupted Firing 60)
           (mkEval ObsNoData 3 180)).
  - exact I.
  - reflexivity.
  - reflexivity.
  - left. vm_compute. reflexivity.
Defined.

Lemma alert_run_sequence_witness :
  sequence_of (fst (alert_run None [(demo_monitor, demo_eval 1 3); (demo_monitor, demo_eval 2 6);
                                    (demo_monitor, demo_eval 3 9)])) = 3.
Proof.
  transitivity (n_transitions (snd (alert_run None
     [(demo_monitor, demo_eval 1 3); (demo_monitor, demo_eval 2 6); (demo_monitor, demo_eval 3 9)]))).
  - apply alert_run_sequence. vm_compute. discriminate.
  - vm_compute. reflexivity.
Defined.
