(* ===== verification/Schedule.v ===== *)
(** * The evaluation schedule of an alert rule

    [crates/alert/src/schedule.rs]: wall-clock-aligned slots, their
    deterministic jitter and the newest slot that is due.  SHA-256 is a
    parameter; nothing is assumed of it. *)

From S2P Require Import Prelude Bytes.

Definition NANOS_PER_SECOND : Z := 1000000000.

Record EvaluationSlot := mkSlot {
  slot_id : Z;
  start_unix_nano : Z;
  end_unix_nano : Z;
  execute_at_unix_nano : Z;
}.

Section Schedule.
  Context (sha256 : bytes -> bytes).

Definition deterministic_jitter (monitor_id id cap : Z) : Z :=
  if cap =? 0 then 0
  else
    let digest := sha256 (str "scry.alert.jitter.v1" ++ [z2b 0]
                            ++ be_bytes 16 monitor_id ++ be_bytes 8 id) in
    from_be (take 8 digest) mod (cap + 1).

Definition slot (monitor_id id every_seconds jitter_seconds evaluation_delay_nanos : Z)
    : option EvaluationSlot :=
  every ← checked_mul every_seconds NANOS_PER_SECOND;
  if every =? 0 then None
  else
    start ← checked_mul id every;
    end_ ← checked_add start every;
    jitter_nanos ← checked_mul jitter_seconds NANOS_PER_SECOND;
    let jitter_cap := Z.min jitter_nanos (sat_sub every 1) in
    let jitter := deterministic_jitter monitor_id id jitter_cap in
    delayed ← checked_add end_ evaluation_delay_nanos;
    execute_at ← checked_add delayed jitter;
    Some (mkSlot id start end_ execute_at).

Definition latest_due_slot (monitor_id now every_seconds jitter_seconds delay : Z)
    : option EvaluationSlot :=
  every ← checked_mul every_seconds NANOS_PER_SECOND;
  if every =? 0 then None
  else
    horizon ← checked_sub now delay;
    let ended := horizon / every in
    newest ← checked_sub ended 1;
    candidate ← slot monitor_id newest every_seconds jitter_seconds delay;
    if execute_at_unix_nano candidate <=? now then Some candidate
    else
      before ← checked_sub newest 1;
      previous ← slot monitor_id before every_seconds jitter_seconds delay;
      if execute_at_unix_nano previous <=? now then Some previous else None.

(** ** Slots *)

Lemma deterministic_jitter_range m i cap :
  0 <= cap -> 0 <= deterministic_jitter m i cap <= cap.
Proof.
  intros H. unfold deterministic_jitter. destruct (Z.eqb_spec cap 0); [lia|].
  pose proof (Z.mod_pos_bound
    (from_be (take 8 (sha256 (str "scry.alert.jitter.v1" ++ [z2b 0] ++ be_bytes 16 m ++ be_bytes 8 i))))
    (cap + 1)). lia.
Qed.

(** The jitter of a slot, as [slot] computes it. *)
Definition slot_jitter (m i every jit : Z) : Z :=
  deterministic_jitter m i (Z.min (jit * NANOS_PER_SECOND) (sat_sub (every * NANOS_PER_SECOND) 1)).

Lemma slot_jitter_range m i every jit :
  0 < every * NANOS_PER_SECOND -> 0 <= jit ->
  0 <= slot_jitter m i every jit < every * NANOS_PER_SECOND.
Proof.
  intros He Hj. unfold slot_jitter.
  pose proof (deterministic_jitter_range m i
    (Z.min (jit * NANOS_PER_SECOND) (sat_sub (every * NANOS_PER_SECOND) 1))) as H.
  unfold sat_sub, NANOS_PER_SECOND in *. lia.
Qed.

(** The whole arithmetic of a slot, read off its definition. *)
Lemma slot_Some m i every jit delay s :
  slot m i every jit delay = Some s <->
  let e := every * NANOS_PER_SECOND in
  s = mkSlot i (i * e) (i * e + e) (i * e + e + delay + slot_jitter m i every jit) /\
  0 <= e <= u64_max /\ e <> 0 /\ 0 <= i * e <= u64_max /\ 0 <= i * e + e <= u64_max /\
  0 <= jit * NANOS_PER_SECOND <= u64_max /\ 0 <= i * e + e + delay <= u64_max /\
  0 <= i * e + e + delay + slot_jitter m i every jit <= u64_max.
Proof.
  unfold slot, checked_mul, checked_add, slot_jitter.
  split.
  - intros (e & He & H)%bind_Some. apply checked_Some in He as [-> He].
    destruct (Z.eqb_spec (every * NANOS_PER_SECOND) 0) as [|Hne]; [done|].
    apply bind_Some in H as (st & H1 & H). apply checked_Some in H1 as [-> H1].
    apply bind_Some in H as (en & H2 & H). apply checked_Some in H2 as [-> H2].
    apply bind_Some in H as (j & H3 & H). apply checked_Some in H3 as [-> H3].
    apply bind_Some in H as (d & H4 & H). apply checked_Some in H4 as [-> H4].
    apply bind_Some in H as (x & H5 & H). apply checked_Some in H5 as [-> H5].
    by simplify_eq.
  - cbv zeta. intros (-> & H0 & Hne & H1 & H2 & H3 & H4 & H5).
    rewrite (proj2 (checked_Some _ _ _) (conj eq_refl H0)). cbn [mbind option_bind].
    rewrite (proj2 (Z.eqb_neq _ _) Hne).
    rewrite (proj2 (checked_Some _ _ _) (conj eq_refl H1)). cbn [mbind option_bind].
    rewrite (proj2 (checked_Some _ _ _) (conj eq_refl H2)). cbn [mbind option_bind].
    rewrite (proj2 (checked_Some _ _ _) (conj eq_refl H3)). cbn [mbind option_bind].
    rewrite (proj2 (checked_Some _ _ _) (conj eq_refl H4)). cbn [mbind option_bind].
    by rewrite (proj2 (checked_Some _ _ _) (conj eq_refl H5)).
Qed.

(** A slot whose interval after the delay still fits the clock exists. *)
Lemma slot_fits m i every jit delay :
  let e := every * NANOS_PER_SECOND in
  0 < e -> 0 <= i -> 0 <= delay -> 0 <= jit * NANOS_PER_SECOND <= u64_max ->
  i * e + e + delay + e <= u64_max + 1 ->
  slot m i every jit delay =
    Some (mkSlot i (i * e) (i * e + e) (i * e + e + delay + slot_jitter m i every jit)).
Proof.
  cbv zeta. intros He Hi Hd Hj Hfit. apply slot_Some. cbv zeta.
  pose proof (slot_jitter_range m i every jit He ltac:(unfold NANOS_PER_SECOND in *; lia)).
  repeat split; nia.
Qed.

(** [slot i] is due at [now]. *)
Definition due (m i now every jit delay : Z) : Prop :=
  exists s, slot m i every jit delay = Some s /\ execute_at_unix_nano s <= now.

(** ** The properties *)

(** Slots tile time: consecutive slots share their boundary, each spans
    exactly one interval, and a slot executes after it has ended and the
    evaluation delay has passed, less than one interval later. *)
Theorem slots_tile (m i every jit delay : Z) (s s' : EvaluationSlot) :
  0 <= delay -> 0 <= jit ->
  slot m i every jit delay = Some s -> slot m (i + 1) every jit delay = Some s' ->
  end_unix_nano s = start_unix_nano s' /\
  end_unix_nano s - start_unix_nano s = every * NANOS_PER_SECOND /\
  end_unix_nano s + delay <= execute_at_unix_nano s
    < end_unix_nano s + delay + every * NANOS_PER_SECOND.
Proof.
  intros Hd Hj Hs%slot_Some Hs'%slot_Some. cbv zeta in Hs, Hs'.
  destruct Hs as (-> & ?), Hs' as (-> & _). simpl.
  pose proof (slot_jitter_range m i every jit). lia.
Qed.

Lemma latest_due_slot_sound m now every jit delay s :
  latest_due_slot m now every jit delay = Some s ->
  slot m (slot_id s) every jit delay = Some s /\ execute_at_unix_nano s <= now /\
  exists n, n = (now - delay) / (every * NANOS_PER_SECOND) - 1 /\
    (slot_id s = n \/
     (slot_id s = n - 1 /\ ~ due m n now every jit delay)).
Proof.
  unfold latest_due_slot, checked_mul, checked_sub.
  intros (e & He & H)%bind_Some. apply checked_Some in He as [-> He].
  destruct (Z.eqb_spec (every * NANOS_PER_SECOND) 0) as [|Hne]; [done|].
  apply bind_Some in H as (h & H1 & H). apply checked_Some in H1 as [-> H1].
  apply bind_Some in H as (n & H2 & H). apply checked_Some in H2 as [-> H2].
  apply bind_Some in H as (c & Hc & H).
  pose proof Hc as Hc'. apply slot_Some in Hc' as [Ec _].
  destruct (Z.leb_spec (execute_at_unix_nano c) now) as [Hle|Hgt].
  { simplify_eq. cbn [slot_id]. split; [done|]. split; [done|]. eauto. }
  apply bind_Some in H as (b & H3 & H). apply checked_Some in H3 as [-> H3].
  apply bind_Some in H as (p & Hp & H).
  pose proof Hp as Hp'. apply slot_Some in Hp' as [Ep _].
  destruct (Z.leb_spec (execute_at_unix_nano p) now) as [Hle|]; [|done].
  injection H as <-. rewrite Ep at 1. cbn [slot_id]. split; [done|]. split; [done|].
  eexists. split; [reflexivity|]. right. split; [by rewrite Ep|].
  intros (s' & Hs' & ?). rewrite Hc in Hs'. simplify_eq. lia.
Qed.

(** A due slot has ended by the horizon. *)
Lemma due_bound m i now every jit delay :
  0 <= jit -> due m i now every jit delay ->
  0 < every * NANOS_PER_SECOND /\ 0 <= i /\
  i + 1 <= (now - delay) / (every * NANOS_PER_SECOND).
Proof.
  intros Hj (s & Hs%slot_Some & Hx). cbv zeta in Hs. destruct Hs as (-> & Hs). simpl in Hx.
  pose proof (slot_jitter_range m i every jit ltac:(lia) Hj).
  split; [lia|]. split; [nia|].
  apply Z.div_le_lower_bound; [lia|]. lia.
Qed.

(** [latest_due_slot] returns a slot that is due, and the newest such slot:
    no slot with a larger id is due. *)
Theorem latest_due_slot_is_newest_due (m now every jit delay : Z) (s : EvaluationSlot) :
  0 <= jit ->
  latest_due_slot m now every jit delay = Some s ->
  due m (slot_id s) now every jit delay /\
  forall j, due m j now every jit delay -> j <= slot_id s.
Proof.
  intros Hj (Hs & Hx & n & -> & Hn)%latest_due_slot_sound.
  split; [by exists s|]. intros j Hd.
  pose proof (due_bound _ _ _ _ _ _ Hj Hd) as (_ & _ & Hb).
  destruct Hn as [Hn|[Hn Hnot]]; [lia|].
  destruct (Z.eq_dec j ((now - delay) / (every * NANOS_PER_SECOND) - 1)) as [->|]; [done|lia].
Qed.

(** Whenever some slot is due (and [now] is at least one interval before the
    end of the 64-bit clock) a slot is returned: a rule is never silently
    skipped because its newest slot is still inside its jitter. *)
Theorem latest_due_slot_complete (m now every jit delay j : Z) :
  0 <= jit -> in_u64 delay -> now + every * NANOS_PER_SECOND <= u64_max ->
  due m j now every jit delay ->
  exists s, latest_due_slot m now every jit delay = Some s.
Proof.
  intros Hj Hd Hnow Hdue. pose proof (due_bound _ _ _ _ _ _ Hj Hdue) as (He & Hj0 & Hb).
  destruct Hdue as (sj & Hsj%slot_Some & Hxj). cbv zeta in Hsj. destruct Hsj as (-> & Hsj).
  simpl in Hxj. pose proof (slot_jitter_range m j every jit He Hj) as Hjr.
  unfold latest_due_slot, checked_mul, checked_sub.
  set (e := every * NANOS_PER_SECOND) in *.
  rewrite (proj2 (checked_Some _ e _) (conj eq_refl (proj1 Hsj))). cbn [mbind option_bind].
  rewrite (proj2 (Z.eqb_neq e 0)) by lia.
  rewrite (proj2 (checked_Some _ (now - delay) _)) by (split; [reflexivity|ints]).
  cbn [mbind option_bind].
  pose proof (Z.mul_div_le (now - delay) e He) as Hq.
  set (q := (now - delay) / e) in *.
  rewrite (proj2 (checked_Some _ (q - 1) _)) by (split; [reflexivity|unfold in_u64 in *; nia]).
  cbn [mbind option_bind].
  pose proof (slot_jitter_range m (q - 1) every jit He Hj) as Hjq. fold e in Hjq.
  rewrite slot_fits by (fold e; unfold in_u64 in *; nia).
  fold e. cbn [mbind option_bind execute_at_unix_nano].
  case_match eqn:Hc; [eauto|]. apply Z.leb_gt in Hc.
  assert (j <> q - 1) by (intros ->; fold e in Hxj; lia).
  rewrite (proj2 (checked_Some _ (q - 1 - 1) _)) by (split; [reflexivity|unfold in_u64 in *; nia]).
  cbn [mbind option_bind].
  rewrite slot_fits by (fold e; unfold in_u64 in *; nia).
  pose proof (slot_jitter_range m (q - 1 - 1) every jit He Hj) as Hjp.
  fold e. fold e in Hjp. cbn [mbind option_bind execute_at_unix_nano].
  rewrite (proj2 (Z.leb_le _ now)); [eauto|nia].
Qed.

End Schedule.

(** ** Witnesses *)

Definition demo_sha (l : bytes) : bytes := rev l.

Lemma slots_tile_witness :
  exists s s', slot demo_sha 7 2 60 5 90 = Some s /\ slot demo_sha 7 (2 + 1) 60 5 90 = Some s' /\
    end_unix_nano s = start_unix_nano s'.
Proof.
  destruct (slot demo_sha 7 2 60 5 90) as [s|] eqn:E; [|vm_compute in E; discriminate].
  destruct (slot demo_sha 7 (2 + 1) 60 5 90) as [s'|] eqn:E'; [|vm_compute in E'; discriminate].
  exists s, s'. split; [reflexivity|]. split; [reflexivity|].
  apply (slots_tile demo_sha 7 2 60 5 90 s s'); [lia|lia|exact E|exact E'].
Defined.

Lemma latest_due_slot_is_newest_due_witness :
  exists s, latest_due_slot demo_sha 7 300000000000 60 5 0 = Some s /\
    forall j, due demo_sha 7 j 300000000000 60 5 0 -> j <= slot_id s.
Proof.
  destruct (latest_due_slot demo_sha 7 300000000000 60 5 0) as [s|] eqn:E;
    [|vm_compute in E; discriminate].
  exists s. split; [reflexivity|].
  apply (latest_due_slot_is_newest_due demo_sha 7 300000000000 60 5 0 s); [lia|exact E].
Defined.

Lemma latest_due_slot_complete_witness :
  exists s, latest_due_slot demo_sha 7 300000000000 60 5 0 = Some s.
Proof.
  apply (latest_due_slot_complete demo_sha 7 300000000000 60 5 0 2).
  - lia.
  - vm_compute. split; discriminate.
  - vm_compute. discriminate.
  - destruct (slot demo_sha 7 2 60 5 0) as [s|] eqn:E; [|vm_compute in E; discriminate].
    exists s. split; [exact E|]. vm_compute in E. injection E as <-. vm_compute. discriminate.
Defined.
