(* ===== verification/Scheduler.v ===== *)
(** * Cache-aware distributed query scheduling

    [crates/server/src/distributed_scheduler.rs]: eligibility of workers,
    validation of the configuration, rendezvous affinity and the assignment of
    every block of a query to exactly one worker.  A [BTreeMap] is a [btree],
    a [BTreeSet] of strings a [btree string unit]. *)

From S2P Require Import Prelude Order Bytes.
From Stdlib Require Import Sorting.Sorted.

Definition MAX_WORKERS_PER_QUERY : Z := 64.
Definition MAX_WORKER_SNAPSHOTS : Z := 256.
Definition MAX_BLOCKS_PER_QUERY : Z := 100000.
Definition MAX_BLOCKS_PER_WORKER : Z := 50000.
Definition MAX_OFFERS_PER_BLOCK : Z := MAX_WORKER_SNAPSHOTS.
Definition MAX_BYTES_PER_WORKER : Z := Z.shiftl 1 50.

(** ** Workers and their eligibility *)

Inductive WorkerRole := RoleQuery | RoleOther.

#[export] Instance WorkerRole_eq_dec : EqDecision WorkerRole.
Proof. solve_decision. Defined.

Record WorkerSnapshot := mkWorker {
  worker_id : string;
  role : WorkerRole;
  deployment : string;
  fragment_protocol_version : Z;
  schema_versions : gset Z;
  heartbeat_unix_ms : Z;
  draining : bool;
  fragment_slots_limit : Z;
  fragment_slots_in_use : Z;
  admission_waiters : Z;
  recently_rejected : bool;
  memory_pressure_per_mille : Z;
  load_cost : Z;
  minimum_completion_ms : Z;
}.

Record EligibilityRequirements := mkRequirements {
  r_deployment : string;
  protocol_version : Z;
  schema_version : Z;
  now_unix_ms : Z;
  remaining_deadline_ms : Z;
}.

Record EligibilityPolicy := mkPolicy {
  freshness_ms : Z;
  maximum_future_skew_ms : Z;
  maximum_memory_pressure_per_mille : Z;
}.

Definition EligibilityPolicy_default : EligibilityPolicy := mkPolicy 10000 2000 700.

Inductive IneligibilityReason :=
| InvalidSnapshot | Stale | IncompatibleRole | IncompatibleDeployment
| IncompatibleProtocol | IncompatibleSchema | Draining | Busy | AdmissionQueued
| RecentlyRejecting | MemoryPressure | Deadline.

Definition eligibility (w : WorkerSnapshot) (req : EligibilityRequirements)
    (policy : EligibilityPolicy) : result IneligibilityReason unit :=
  if (worker_id w =? "")%string || (fragment_slots_limit w =? 0)
     || (fragment_slots_limit w <? fragment_slots_in_use w)
     || (1000 <? memory_pressure_per_mille w)
  then Err InvalidSnapshot
  else if (sat_add (now_unix_ms req) (maximum_future_skew_ms policy) <? heartbeat_unix_ms w)
     || (freshness_ms policy <? sat_sub (now_unix_ms req) (heartbeat_unix_ms w))
  then Err Stale
  else if negb (bool_decide (role w = RoleQuery)) then Err IncompatibleRole
  else if negb (deployment w =? r_deployment req)%string then Err IncompatibleDeployment
  else if negb (fragment_protocol_version w =? protocol_version req)
  then Err IncompatibleProtocol
  else if negb (bool_decide (schema_version req ∈ schema_versions w))
  then Err IncompatibleSchema
  else if draining w then Err Draining
  else if fragment_slots_in_use w =? fragment_slots_limit w then Err Busy
  else if negb (admission_waiters w =? 0) then Err AdmissionQueued
  else if recently_rejected w then Err RecentlyRejecting
  else if maximum_memory_pressure_per_mille policy <? memory_pressure_per_mille w
  then Err MemoryPressure
  else if remaining_deadline_ms req <? minimum_completion_ms w then Err Deadline
  else Ok tt.

(** ** Offers, blocks and the configuration *)

Inductive LocalityClass :=
| CompleteMain | AllRequiredRanges | SomeRequiredRanges
| FooterAndRequiredSidecars | RequiredSidecars | Cold.

#[export] Instance LocalityClass_eq_dec : EqDecision LocalityClass.
Proof. solve_decision. Defined.

Definition rank (l : LocalityClass) : Z :=
  match l with
  | CompleteMain => 0 | AllRequiredRanges => 1 | SomeRequiredRanges => 2
  | FooterAndRequiredSidecars => 3 | RequiredSidecars => 4 | Cold => 5
  end.

Record BlockOffer := mkOffer {
  o_worker_id : string;
  o_block_id : string;
  o_locality : LocalityClass;
  admitted : bool;
  estimated_cost : Z;
}.

Record SchedulableBlock := mkBlock { block_id : string; estimated_bytes : Z }.

Record SchedulerConfig := mkConfig {
  maximum_workers_per_query : Z;
  maximum_blocks_per_query : Z;
  maximum_blocks_per_worker : Z;
  maximum_bytes_per_worker : Z;
  bytes_per_load_cost : Z;
  locality_step_cost : Z;
  cold_non_affinity_cost : Z;
}.

Definition SchedulerConfig_default : SchedulerConfig :=
  mkConfig 8 10000 2000 (Z.shiftl 1 40) (Z.shiftl 1 20) 100 25.

Record ConfigError := mkConfigError { field : string; message : string }.

Definition in_range (lo hi x : Z) : bool := (lo <=? x) && (x <=? hi).

Definition validate_policy (p : EligibilityPolicy) : result ConfigError unit :=
  ensure! in_range 100 300000 (freshness_ms p)
    else mkConfigError "freshness_ms" "must be in 100..=300000" in
  ensure! negb (60000 <? maximum_future_skew_ms p)
    else mkConfigError "maximum_future_skew_ms" "must be <= 60000" in
  ensure! negb (1000 <? maximum_memory_pressure_per_mille p)
    else mkConfigError "maximum_memory_pressure_per_mille" "must be <= 1000" in
  Ok tt.

Definition validate_config (c : SchedulerConfig) : result ConfigError unit :=
  ensure! in_range 1 MAX_WORKERS_PER_QUERY (maximum_workers_per_query c)
    else mkConfigError "maximum_workers_per_query" "outside hard bounds" in
  ensure! in_range 1 MAX_BLOCKS_PER_QUERY (maximum_blocks_per_query c)
    else mkConfigError "maximum_blocks_per_query" "outside hard bounds" in
  ensure! in_range 1 MAX_BLOCKS_PER_WORKER (maximum_blocks_per_worker c)
    else mkConfigError "maximum_blocks_per_worker" "outside hard bounds" in
  ensure! in_range 1 MAX_BYTES_PER_WORKER (maximum_bytes_per_worker c)
    else mkConfigError "maximum_bytes_per_worker" "outside hard bounds" in
  ensure! negb (bytes_per_load_cost c =? 0)
    else mkConfigError "bytes_per_load_cost" "must be non-zero" in
  ensure! negb (1000000000 <? locality_step_cost c)
    else mkConfigError "locality_step_cost" "must be <= 1000000000" in
  ensure! negb (1000000000 <? cold_non_affinity_cost c)
    else mkConfigError "cold_non_affinity_cost" "must be <= 1000000000" in
  Ok tt.

Inductive AssignmentReason :=
| Locality (l : LocalityClass)
| RendezvousAffinity | LowerLoad | CapacityOverride | LocalFallback.

Record BlockAssignment := mkAssignment {
  a_block_id : string;
  a_worker_id : string;
  a_estimated_bytes : Z;
  a_locality : LocalityClass;
  a_reason : AssignmentReason;
}.

Record WorkerExclusion := mkExclusion {
  e_worker_id : string;
  e_reason : IneligibilityReason;
}.

Record Schedule := mkSchedule {
  assignments : list BlockAssignment;
  excluded_workers : list WorkerExclusion;
}.

Inductive ScheduleError :=
| InvalidConfig (e : ConfigError)
| TooManyBlocks (count maximum : Z)
| DuplicateBlock (b : string)
| DuplicateWorker (w : string)
| DuplicateOffer (w b : string)
| TooManyWorkers (count maximum : Z)
| TooManyOffers (count maximum : Z)
| UnknownOfferBlock (b : string)
| UnknownOfferWorker (w : string)
| DeploymentMismatch
| MissingCoordinator.

Record WorkerState := mkWorkerState { blocks : Z; bytes : Z }.

Record Candidate := mkCandidate {
  c_worker_id : string;
  c_locality : LocalityClass;
  score : Z;
  is_local : bool;
}.

(** ** Rendezvous hashing *)

Definition fnv_byte (hash : Z) (byte : u8) : Z :=
  wrapping_mul (Z.lxor hash (b2z byte)) 0x100000001b3.

Definition rendezvous_score (deployment signal block_id worker : string) : Z :=
  let hash :=
    fold_left (fun h component =>
        fold_left fnv_byte (le_bytes 8 (zlen (str component)) ++ str component) h)
      [deployment; signal; block_id; worker] 0xcbf29ce484222325 in
  let hash := Z.lxor hash (Z.shiftr hash 30) in
  let hash := wrapping_mul hash 0xbf58476d1ce4e5b9 in
  let hash := Z.lxor hash (Z.shiftr hash 27) in
  let hash := wrapping_mul hash 0x94d049bb133111eb in
  Z.lxor hash (Z.shiftr hash 31).

(** [Iterator::max_by]: the last of several maxima. *)
Definition max_by {A} (c : A -> A -> comparison) (l : list A) : option A :=
  match l with
  | [] => None
  | x :: l => Some (fold_left (fun acc y => match c acc y with Gt => acc | _ => y end) l x)
  end.

Definition rendezvous_worker (deployment signal block_id : string) (workers : list string)
    : option string :=
  max_by (fun left right =>
      then_with (cmp (rendezvous_score deployment signal block_id left)
                     (rendezvous_score deployment signal block_id right))
        (cmp right left)) workers.

(** ** The assignment *)

Definition best_locality (bid : string) (eligible : btree string WorkerSnapshot)
    (offers : btree (string * string) BlockOffer) : LocalityClass :=
  let found := List.filter admitted (omap (fun w => bt_get (bid, w) offers) (bt_keys eligible)) in
  match map o_locality found with
  | [] => Cold
  | l :: ls => fold_left (fun m l => if rank l <? rank m then l else m) ls l
  end.

Fixpoint collect_blocks (ids : btree string unit) (bs : list SchedulableBlock)
    : result ScheduleError (btree string unit) :=
  match bs with
  | [] => Ok ids
  | b :: bs =>
      if (block_id b =? "")%string || bt_contains (block_id b) ids
      then Err (DuplicateBlock (block_id b))
      else collect_blocks (bt_insert (block_id b) tt ids) bs
  end.

Fixpoint split_workers (req : EligibilityRequirements) (policy : EligibilityPolicy)
    (eligible : btree string WorkerSnapshot) (exclusions : list WorkerExclusion)
    (ws : list WorkerSnapshot)
    : result ScheduleError (btree string WorkerSnapshot * list WorkerExclusion) :=
  match ws with
  | [] => Ok (eligible, exclusions)
  | w :: ws =>
      if bt_contains (worker_id w) eligible
         || existsb (fun e => (e_worker_id e =? worker_id w)%string) exclusions
      then Err (DuplicateWorker (worker_id w))
      else
        match eligibility w req policy with
        | Ok _ => split_workers req policy (bt_insert (worker_id w) w eligible) exclusions ws
        | Err reason =>
            split_workers req policy eligible
              (exclusions ++ [mkExclusion (worker_id w) reason]) ws
        end
  end.

Fixpoint index_offers (ids : btree string unit) (eligible : btree string WorkerSnapshot)
    (m : btree (string * string) BlockOffer) (os : list BlockOffer)
    : result ScheduleError (btree (string * string) BlockOffer) :=
  match os with
  | [] => Ok m
  | o :: os =>
      if negb (bt_contains (o_block_id o) ids) then Err (UnknownOfferBlock (o_block_id o))
      else if negb (bt_contains (o_worker_id o) eligible)
      then Err (UnknownOfferWorker (o_worker_id o))
      else if bt_contains (o_block_id o, o_worker_id o) m
      then Err (DuplicateOffer (o_worker_id o) (o_block_id o))
      else index_offers ids eligible (bt_insert (o_block_id o, o_worker_id o) o m) os
  end.

Definition block_order (eligible : btree string WorkerSnapshot)
    (offers : btree (string * string) BlockOffer) (a b : SchedulableBlock) : comparison :=
  then_with (then_with
      (cmp (rank (best_locality (block_id a) eligible offers))
           (rank (best_locality (block_id b) eligible offers)))
      (cmp (estimated_bytes b) (estimated_bytes a)))
    (cmp (block_id a) (block_id b)).

Definition le_of (c : comparison) : bool := match c with Gt => false | _ => true end.

(** The mutable state of the assignment loop. *)
Record LoopState := mkLoop {
  states : btree string WorkerState;
  active_remote : btree string unit;
  out : list BlockAssignment;
}.

Definition state_of (st : LoopState) (w : string) : WorkerState :=
  default (mkWorkerState 0 0) (bt_get w (states st)).

Section Assign.
  Context (deployment signal coordinator_id : string) (config : SchedulerConfig).
  Context (eligible : btree string WorkerSnapshot).
  Context (offer_map : btree (string * string) BlockOffer).

Definition affinity_workers : list string :=
  List.filter (fun id => negb (id =? coordinator_id)%string) (bt_keys eligible).

Definition candidate (st : LoopState) (block : SchedulableBlock) (affinity : option string)
    (worker_id : string) (worker : WorkerSnapshot) : option Candidate :=
  offer ← bt_get (block_id block, worker_id) offer_map;
  if negb (admitted offer) then None
  else
    let is_local := (worker_id =? coordinator_id)%string in
    let state := state_of st worker_id in
    if negb is_local
       && ((maximum_blocks_per_worker config <=? blocks state)
           || (maximum_bytes_per_worker config <? sat_add (bytes state) (estimated_bytes block))
           || (negb (bt_contains worker_id (active_remote st))
               && (maximum_workers_per_query config <=? zlen (active_remote st))))
    then None
    else
      let projected_units :=
        div_ceil (sat_add (bytes state) (estimated_bytes block)) (bytes_per_load_cost config) in
      let affinity_penalty :=
        if bool_decide (o_locality offer = Cold)
           && match affinity with
              | Some winner => negb (winner =? worker_id)%string
              | None => false
              end
        then cold_non_affinity_cost config else 0 in
      let score :=
        sat_add (sat_add (sat_add (sat_add (load_cost worker) projected_units)
                            (estimated_cost offer))
                   (sat_mul (rank (o_locality offer)) (locality_step_cost config)))
          affinity_penalty in
      Some (mkCandidate worker_id (o_locality offer) score is_local).

Definition candidates (st : LoopState) (block : SchedulableBlock) (affinity : option string)
    : list Candidate :=
  stable_sort (fun a b => le_of (then_with (cmp (score a) (score b))
                                   (cmp (c_worker_id a) (c_worker_id b))))
    (omap (fun p => candidate st block affinity (fst p) (snd p)) eligible).

Definition assign_reason (block : SchedulableBlock) (affinity : option string)
    (cands : list Candidate) (chosen : Candidate) : AssignmentReason :=
  let preferred_was_capped :=
    match affinity with
    | Some winner =>
        bt_contains (block_id block, winner) offer_map
        && negb (existsb (fun c => (c_worker_id c =? winner)%string) cands)
    | None => false
    end in
  if negb (bool_decide (c_locality chosen = Cold)) then Locality (c_locality chosen)
  else if bool_decide (affinity = Some (c_worker_id chosen)) then RendezvousAffinity
  else if preferred_was_capped then CapacityOverride
  else LowerLoad.

(** One iteration of [for block in ordered]. *)
Definition assign_block (st : LoopState) (block : SchedulableBlock) : LoopState :=
  let affinity := rendezvous_worker deployment signal (block_id block) affinity_workers in
  let cands := candidates st block affinity in
  match cands with
  | chosen :: _ =>
      mkLoop
        (bt_alter (fun o => let s := default (mkWorkerState 0 0) o in
                     mkWorkerState (wrapping_add (blocks s) 1)
                       (sat_add (bytes s) (estimated_bytes block)))
           (c_worker_id chosen) (states st))
        (if is_local chosen then active_remote st
         else bt_insert (c_worker_id chosen) tt (active_remote st))
        (out st ++ [mkAssignment (block_id block) (c_worker_id chosen) (estimated_bytes block)
                      (c_locality chosen) (assign_reason block affinity cands chosen)])
  | [] =>
      mkLoop (states st) (active_remote st)
        (out st ++ [mkAssignment (block_id block) coordinator_id (estimated_bytes block)
                      Cold LocalFallback])
  end.

End Assign.

Definition schedule_blocks (deployment signal coordinator_id : string)
    (bs : list SchedulableBlock) (workers : list WorkerSnapshot) (offers : list BlockOffer)
    (requirements : EligibilityRequirements) (eligibility_policy : EligibilityPolicy)
    (config : SchedulerConfig) : result ScheduleError Schedule :=
  let? _ := map_err InvalidConfig (validate_policy eligibility_policy) in
  let? _ := map_err InvalidConfig (validate_config config) in
  ensure! negb (coordinator_id =? "")%string else MissingCoordinator in
  ensure! (deployment =? r_deployment requirements)%string else DeploymentMismatch in
  ensure! negb (MAX_WORKER_SNAPSHOTS <? zlen workers)
    else TooManyWorkers (zlen workers) MAX_WORKER_SNAPSHOTS in
  let maximum_offers := sat_mul (zlen bs) MAX_OFFERS_PER_BLOCK in
  ensure! negb (maximum_offers <? zlen offers) else TooManyOffers (zlen offers) maximum_offers in
  ensure! negb (maximum_blocks_per_query config <? zlen bs)
    else TooManyBlocks (zlen bs) (maximum_blocks_per_query config) in
  let? block_ids := collect_blocks [] bs in
  let? '(eligible, exclusions) := split_workers requirements eligibility_policy [] [] workers in
  let exclusions := sort_by_key e_worker_id exclusions in
  let? offer_map := index_offers block_ids eligible [] offers in
  let ordered := stable_sort (fun a b => le_of (block_order eligible offer_map a b)) bs in
  let final :=
    fold_left (assign_block deployment signal coordinator_id config eligible offer_map)
      ordered (mkLoop [] [] []) in
  Ok (mkSchedule (sort_by_key a_block_id (out final)) exclusions).

(** ** The indexing loops: they succeed exactly on distinct keys *)

Lemma fresh_step {K V} `{Ord K} (k : K) (v : V) (m r l : btree K V) (ks : list K) :
  bt_sorted m -> bt_contains k m = false ->
  (Permutation r (l ++ bt_insert k v m) <-> Permutation r ((k, v) :: l ++ m)) /\
  (NoDup (ks ++ bt_keys (bt_insert k v m)) <-> NoDup (k :: ks ++ bt_keys m)).
Proof.
  intros Hs Hc.
  assert (Permutation (bt_insert k v m) ((k, v) :: m)) as HP.
  { apply bt_insert_fresh_perm. unfold bt_contains in Hc. by destruct (bt_get k m). }
  assert (Permutation (bt_keys (bt_insert k v m)) (k :: bt_keys m)) as HP2
    by (unfold bt_keys; by rewrite HP).
  split.
  - rewrite HP, <- Permutation_middle. done.
  - rewrite HP2. by rewrite <- Permutation_middle.
Qed.

Lemma dup_step {K V} `{Ord K} (k : K) (m : btree K V) (ks : list K) :
  bt_sorted m -> bt_contains k m = true -> ~ NoDup (k :: ks ++ bt_keys m).
Proof.
  intros Hs Hc%bt_contains_keys Hn; [|done]. apply NoDup_cons in Hn as [Hn _]. apply Hn.
  apply elem_of_app. right. by apply list_elem_of_In.
Qed.

Lemma collect_blocks_spec ids bs r :
  bt_sorted ids ->
  collect_blocks ids bs = Ok r <->
  bt_sorted r /\ Permutation r (map (fun b => (block_id b, tt)) bs ++ ids) /\
  Forall (fun b => block_id b <> "") bs /\ NoDup (map block_id bs ++ bt_keys ids).
Proof.
  revert ids. induction bs as [|b bs IH]; intros ids Hs; simpl.
  - split.
    + intros [= <-]. repeat split; auto using Forall_nil_2.
      rewrite NoDup_ListNoDup. by apply bt_sorted_keys_NoDup.
    + intros (? & ? & _). f_equal. symmetry. by apply bt_sorted_perm_eq.
  - destruct (String.eqb_spec (block_id b) "") as [He|He]; simpl.
    { split; [done|]. intros (_ & _ & HF & _). by inversion HF. }
    destruct (bt_contains (block_id b) ids) eqn:Hc.
    { split; [done|]. intros (_ & _ & _ & HN). by apply dup_step in HN. }
    rewrite IH by auto with scry.
    destruct (fresh_step (block_id b) tt ids r (map (fun b => (block_id b, tt)) bs)
                (map block_id bs) Hs Hc) as [-> ->].
    rewrite Forall_cons. naive_solver.
Qed.

Definition eligible_entry (req : EligibilityRequirements) (policy : EligibilityPolicy)
    (w : WorkerSnapshot) : option (string * WorkerSnapshot) :=
  match eligibility w req policy with Ok _ => Some (worker_id w, w) | Err _ => None end.

Definition excluded_entry (req : EligibilityRequirements) (policy : EligibilityPolicy)
    (w : WorkerSnapshot) : option WorkerExclusion :=
  match eligibility w req policy with
  | Ok _ => None
  | Err reason => Some (mkExclusion (worker_id w) reason)
  end.

Lemma existsb_worker_id x l :
  existsb (fun e => (e_worker_id e =? x)%string) l = true <-> x ∈ map e_worker_id l.
Proof.
  rewrite existsb_exists, list_elem_of_In, in_map_iff. split.
  - intros (e & ? & ?%String.eqb_eq). eauto.
  - intros (e & <- & ?). exists e. by rewrite String.eqb_refl.
Qed.

Lemma split_workers_spec req policy el ex ws el' ex' :
  bt_sorted el ->
  NoDup (bt_keys el ++ map e_worker_id ex) ->
  split_workers req policy el ex ws = Ok (el', ex') <->
  bt_sorted el' /\ Permutation el' (omap (eligible_entry req policy) ws ++ el) /\
  ex' = ex ++ omap (excluded_entry req policy) ws /\
  NoDup (map worker_id ws ++ bt_keys el ++ map e_worker_id ex).
Proof.
  revert el ex. induction ws as [|w ws IH]; intros el ex Hs Hn; simpl.
  - rewrite app_nil_r. split; [intros [= <- <-]; done|].
    intros (? & ? & -> & _). do 2 f_equal. symmetry. by apply bt_sorted_perm_eq.
  - destruct (bt_contains (worker_id w) el || _) eqn:Hd.
    { split; [done|]. intros (_ & _ & _ & HN). exfalso. apply NoDup_cons in HN as [HN _].
      apply HN, elem_of_app. right. apply elem_of_app.
      apply orb_true_iff in Hd as [Hd|Hd]; [left|right].
      - apply bt_contains_keys in Hd; [|done]. by apply list_elem_of_In.
      - by apply existsb_worker_id. }
    apply orb_false_iff in Hd as [Hc Hx].
    assert (worker_id w ∉ map e_worker_id ex) as Hx'
      by (rewrite <- existsb_worker_id, Hx; done).
    assert (worker_id w ∉ bt_keys el) as Hc'.
    { rewrite list_elem_of_In, <- bt_contains_keys, Hc; done. }
    unfold eligible_entry, excluded_entry.
    destruct (eligibility w req policy) as [[]|reason] eqn:He.
    + assert (Permutation (bt_keys (bt_insert (worker_id w) w el)) (worker_id w :: bt_keys el))
        as HP.
      { unfold bt_keys. rewrite bt_insert_fresh_perm; [done|].
        unfold bt_contains in Hc. by destruct (bt_get _ el). }
      rewrite IH; [|auto with scry|].
      2:{ rewrite HP. simpl. apply NoDup_cons. split; [|done].
          rewrite elem_of_app. tauto. }
      rewrite HP.
      destruct (fresh_step (worker_id w) w el el' (omap (eligible_entry req policy) ws) [] Hs Hc)
        as [-> _].
      simpl. by rewrite <- Permutation_middle.
    + rewrite IH; [|done|].
      2:{ rewrite map_app, app_assoc. apply NoDup_app. split; [done|].
          simpl. split; [|apply NoDup_singleton].
          intros x Hin ->%list_elem_of_singleton. rewrite elem_of_app in Hin. tauto. }
      rewrite map_app, <- app_assoc. simpl.
      assert (Permutation (map worker_id ws ++ bt_keys el ++ map e_worker_id ex ++ [worker_id w])
                (worker_id w :: map worker_id ws ++ bt_keys el ++ map e_worker_id ex)) as ->.
      { rewrite !app_assoc, <- Permutation_cons_append. done. }
      done.
Qed.

Definition offer_key (o : BlockOffer) : string * string := (o_block_id o, o_worker_id o).

Lemma index_offers_spec ids el m os r :
  bt_sorted m ->
  index_offers ids el m os = Ok r <->
  bt_sorted r /\ Permutation r (map (fun o => (offer_key o, o)) os ++ m) /\
  Forall (fun o => bt_contains (o_block_id o) ids = true /\
                   bt_contains (o_worker_id o) el = true) os /\
  NoDup (map offer_key os ++ bt_keys m).
Proof.
  revert m. induction os as [|o os IH]; intros m Hs; simpl.
  - split.
    + intros [= <-]. repeat split; auto using Forall_nil_2.
      rewrite NoDup_ListNoDup. by apply bt_sorted_keys_NoDup.
    + intros (? & ? & _). f_equal. symmetry. by apply bt_sorted_perm_eq.
  - rewrite Forall_cons.
    destruct (bt_contains (o_block_id o) ids); simpl; [|by split; [|naive_solver]].
    destruct (bt_contains (o_worker_id o) el); simpl; [|by split; [|naive_solver]].
    fold (offer_key o). destruct (bt_contains (offer_key o) m) eqn:Hc.
    { split; [done|]. intros (_ & _ & _ & HN). by apply dup_step in HN. }
    rewrite IH by auto with scry.
    destruct (fresh_step (offer_key o) o m r (map (fun o => (offer_key o, o)) os)
                (map offer_key os) Hs Hc) as [-> ->].
    naive_solver.
Qed.

(** ** The shape of a successful call *)

Definition guards (dep coord : string) (nb nw no : Z) (req : EligibilityRequirements)
    (policy : EligibilityPolicy) (cfg : SchedulerConfig) : bool :=
  is_ok (validate_policy policy) && is_ok (validate_config cfg) &&
  negb (coord =? "")%string && (dep =? r_deployment req)%string &&
  negb (MAX_WORKER_SNAPSHOTS <? nw) && negb (sat_mul nb MAX_OFFERS_PER_BLOCK <? no) &&
  negb (maximum_blocks_per_query cfg <? nb).

Definition assign_all (dep sig coord : string) (cfg : SchedulerConfig)
    (el : btree string WorkerSnapshot) (om : btree (string * string) BlockOffer)
    (bs : list SchedulableBlock) : LoopState :=
  fold_left (assign_block dep sig coord cfg el om)
    (stable_sort (fun a b => le_of (block_order el om a b)) bs) (mkLoop [] [] []).

Lemma schedule_blocks_Ok dep sig coord bs ws os req policy cfg s :
  schedule_blocks dep sig coord bs ws os req policy cfg = Ok s <->
  guards dep coord (zlen bs) (zlen ws) (zlen os) req policy cfg = true /\
  exists ids el ex om,
    collect_blocks [] bs = Ok ids /\ split_workers req policy [] [] ws = Ok (el, ex) /\
    index_offers ids el [] os = Ok om /\
    s = mkSchedule (sort_by_key a_block_id (out (assign_all dep sig coord cfg el om bs)))
          (sort_by_key e_worker_id ex).
Proof.
  unfold schedule_blocks, guards, assign_all. cbv zeta.
  destruct (validate_policy policy); cbn [map_err result_bind is_ok andb]; [|by split; [|intros []]].
  destruct (validate_config cfg); cbn [map_err result_bind is_ok andb]; [|by split; [|intros []]].
  destruct (negb (coord =? "")%string); cbn [map_err result_bind is_ok andb]; [|by split; [|intros []]].
  destruct (dep =? r_deployment req)%string; cbn [map_err result_bind is_ok andb]; [|by split; [|intros []]].
  destruct (negb (MAX_WORKER_SNAPSHOTS <? zlen ws)); cbn [map_err result_bind is_ok andb]; [|by split; [|intros []]].
  destruct (negb (sat_mul _ _ <? _)); cbn [map_err result_bind is_ok andb]; [|by split; [|intros []]].
  destruct (negb (_ <? zlen bs)); cbn [map_err result_bind is_ok andb]; [|by split; [|intros []]].
  destruct (collect_blocks [] bs) as [ids|]; cbn [result_bind]; [|split; [done|naive_solver]].
  destruct (split_workers req policy [] [] ws) as [[el ex]|]; cbn [result_bind]; [|split; [done|naive_solver]].
  destruct (index_offers ids el [] os) as [om|] eqn:Ho; cbn [result_bind].
  - split.
    + intros [= <-]. split; [done|]. by exists ids, el, ex, om.
    + intros (_ & ids' & el' & ex' & om' & ? & ? & Ho' & ->). simplify_eq.
      rewrite Ho in Ho'. by injection Ho' as <-.
  - split; [done|]. intros (_ & ids' & el' & ex' & om' & ? & ? & Ho' & _). simplify_eq. congruence.
Qed.

(** The comparison of blocks is a total order by a key. *)
Definition block_key el om (b : SchedulableBlock) : Z * (Z * string) :=
  (rank (best_locality (block_id b) el om), (- estimated_bytes b, block_id b)).

Lemma block_order_key el om a b :
  le_of (block_order el om a b) = cmp_leb (block_key el om a) (block_key el om b).
Proof.
  unfold block_order, cmp_leb, le_of, block_key. cbn [cmp prod_Ord fst snd Z_Ord].
  rewrite (Z.compare_opp (estimated_bytes a)). 
  by destruct (_ ?= _), (_ ?= _), (cmp (block_id a) (block_id b)).
Qed.

Lemma stable_sort_ext {A} (f g : A -> A -> bool) l :
  (forall x y, f x y = g x y) -> stable_sort f l = stable_sort g l.
Proof.
  intros Hfg. induction l as [|x l IH]; simpl; [done|]. rewrite IH. clear IH.
  induction (stable_sort g l) as [|y k IHk]; simpl; [done|]. by rewrite Hfg, IHk.
Qed.

Lemma ordered_unique el om bs bs' :
  NoDup (map block_id bs) -> Permutation bs bs' ->
  stable_sort (fun a b => le_of (block_order el om a b)) bs =
  stable_sort (fun a b => le_of (block_order el om a b)) bs'.
Proof.
  intros Hn HP. rewrite !(stable_sort_ext _ _ _ (block_order_key el om)).
  apply sort_by_key_unique; [|done]. intros x y Hx Hy [= _ _ Heq].
  by apply (NoDup_map_inj block_id bs).
Qed.

(** [guards] only looks at lengths, and the loops at sets. *)
Lemma schedule_blocks_permuted dep sig coord bs ws os bs' ws' os' req policy cfg s :
  Permutation bs bs' -> Permutation ws ws' -> Permutation os os' ->
  schedule_blocks dep sig coord bs ws os req policy cfg = Ok s ->
  schedule_blocks dep sig coord bs' ws' os' req policy cfg = Ok s.
Proof.
  intros Hb Hw Ho. rewrite !schedule_blocks_Ok.
  intros (Hg & ids & el & ex & om & H1 & H2 & H3 & ->).
  split.
  { unfold zlen in *. by rewrite <- Hb, <- Hw, <- Ho. }
  apply collect_blocks_spec in H1 as (? & HP1 & HF1 & HN1); [|constructor].
  apply split_workers_spec in H2 as (? & HP2 & Hx & HN2); [|constructor|constructor].
  apply index_offers_spec in H3 as (? & HP3 & HF3 & HN3); [|constructor].
  exists ids, el, (omap (excluded_entry req policy) ws'), om. split_and!.
  - apply collect_blocks_spec; [constructor|]. by rewrite <- Hb.
  - apply split_workers_spec; [constructor..|]. split_and!; [assumption| |reflexivity|].
    + rewrite HP2. by rewrite Hw.
    + simpl in *. by rewrite <- Hw.
  - apply index_offers_spec; [constructor|]. by rewrite <- Ho.
  - simpl in *. rewrite !app_nil_r in *. subst ex. f_equal.
    + unfold assign_all. by rewrite (ordered_unique el om bs bs').
    + apply sort_by_key_unique; [|by rewrite Hw].
      intros x y Hin Hin' Heq. apply list_elem_of_In, list_elem_of_omap in Hin as (w & Hw1 & Ex).
      apply list_elem_of_In, list_elem_of_omap in Hin' as (w' & Hw2 & Ey).
      assert (w = w') as ->; [|congruence].
      apply (NoDup_map_inj worker_id ws); [done|by apply list_elem_of_In|by apply list_elem_of_In|].
      unfold excluded_entry in *. destruct (eligibility w _ _); [done|].
      destruct (eligibility w' _ _); [done|]. by simplify_eq/=.
Qed.

(** ** The assignment loop *)

Definition on_worker (w : string) (l : list BlockAssignment) : list BlockAssignment :=
  List.filter (fun a => (a_worker_id a =? w)%string) l.

Definition total_bytes (l : list BlockAssignment) : Z :=
  fold_right (fun a n => a_estimated_bytes a + n) 0 l.

Definition block_of (a : BlockAssignment) : SchedulableBlock :=
  mkBlock (a_block_id a) (a_estimated_bytes a).

Lemma on_worker_snoc w l a :
  on_worker w (l ++ [a]) =
    if (a_worker_id a =? w)%string then on_worker w l ++ [a] else on_worker w l.
Proof.
  unfold on_worker. rewrite List.filter_app. simpl. case_match; by rewrite ?app_nil_r.
Qed.

Lemma total_bytes_app l k : total_bytes (l ++ k) = total_bytes l + total_bytes k.
Proof. induction l; simpl; lia. Qed.

Section Loop.
  Context (dep sig coord : string) (cfg : SchedulerConfig).
  Context (el : btree string WorkerSnapshot) (om : btree (string * string) BlockOffer).

(** An assignment that an admitted offer of an eligible worker justifies. *)
Definition offered (a : BlockAssignment) : Prop :=
  exists w o, In (a_worker_id a, w) el /\
    bt_get (a_block_id a, a_worker_id a) om = Some o /\ admitted o = true /\
    a_locality a = o_locality o.

Lemma candidate_Some st b aff w wk c :
  candidate coord cfg om st b aff w wk = Some c ->
  c_worker_id c = w /\ is_local c = (w =? coord)%string /\
  (exists o, bt_get (block_id b, w) om = Some o /\ admitted o = true /\
     c_locality c = o_locality o) /\
  (w <> coord ->
     blocks (state_of st w) < maximum_blocks_per_worker cfg /\
     sat_add (bytes (state_of st w)) (estimated_bytes b) <= maximum_bytes_per_worker cfg /\
     (bt_contains w (active_remote st) = true \/
      zlen (active_remote st) < maximum_workers_per_query cfg)).
Proof.
  unfold candidate. intros (o & Ho & H)%bind_Some.
  destruct (admitted o) eqn:Ha; [|done]. cbn [negb] in H.
  destruct (negb (w =? coord)%string && _) eqn:Hg; [done|]. injection H as <-. simpl.
  split; [done|]. split; [done|]. split; [eauto|]. intros Hne.
  apply String.eqb_neq in Hne. rewrite Hne in Hg. simpl in Hg.
  apply orb_false_iff in Hg as [[Hb Hby]%orb_false_iff Hw].
  split; [lia|]. split; [lia|]. destruct (bt_contains w _); [by left|right]. simpl in Hw. lia.
Qed.

(** One iteration appends one assignment: the local fallback, or the first
    candidate. *)
Inductive assigned (st : LoopState) (b : SchedulableBlock) : LoopState -> Prop :=
| assigned_local :
    assigned st b (mkLoop (states st) (active_remote st)
      (out st ++ [mkAssignment (block_id b) coord (estimated_bytes b) Cold LocalFallback]))
| assigned_to w wk c r :
    In (w, wk) el ->
    candidate coord cfg om st b
      (rendezvous_worker dep sig (block_id b) (affinity_workers coord el)) w wk = Some c ->
    assigned st b (mkLoop
      (bt_alter (fun o => let s := default (mkWorkerState 0 0) o in
                   mkWorkerState (wrapping_add (blocks s) 1)
                     (sat_add (bytes s) (estimated_bytes b))) w (states st))
      (if (w =? coord)%string then active_remote st else bt_insert w tt (active_remote st))
      (out st ++ [mkAssignment (block_id b) w (estimated_bytes b) (c_locality c) r])).

Lemma assign_block_assigned st b :
  assigned st b (assign_block dep sig coord cfg el om st b).
Proof.
  unfold assign_block. set (aff := rendezvous_worker _ _ _ _).
  destruct (candidates coord cfg el om st b aff) as [|c cs] eqn:Ec; [constructor|].
  assert (In c (candidates coord cfg el om st b aff)) as Hin by (rewrite Ec; by left).
  unfold candidates in Hin. apply stable_sort_In in Hin.
  apply list_elem_of_In, list_elem_of_omap in Hin as ([w wk] & Hp & Hc). simpl in Hc.
  pose proof (candidate_Some _ _ _ _ _ _ Hc) as (<- & -> & _).
  eapply assigned_to; [by apply list_elem_of_In|done].
Qed.

(** The invariant of the loop after the blocks [bs]. *)
Record loop_inv (st : LoopState) (bs : list SchedulableBlock) : Prop := {
  li_states : bt_sorted (states st);
  li_active : bt_sorted (active_remote st);
  li_blocks : map block_of (out st) = bs;
  li_count w : w <> coord ->
    blocks (state_of st w) = zlen (on_worker w (out st)) /\
    zlen (on_worker w (out st)) <= maximum_blocks_per_worker cfg;
  li_bytes w : w <> coord ->
    bytes (state_of st w) = total_bytes (on_worker w (out st)) /\
    total_bytes (on_worker w (out st)) <= maximum_bytes_per_worker cfg;
  li_remote a : In a (out st) -> a_worker_id a <> coord -> In (a_worker_id a) (bt_keys (active_remote st));
  li_workers : zlen (active_remote st) <= maximum_workers_per_query cfg;
  li_offered a : In a (out st) -> a_reason a = LocalFallback /\ a_worker_id a = coord \/ offered a;
}.

Definition caps_ok : Prop :=
  1 <= maximum_workers_per_query cfg /\
  1 <= maximum_blocks_per_worker cfg <= MAX_BLOCKS_PER_WORKER /\
  1 <= maximum_bytes_per_worker cfg <= MAX_BYTES_PER_WORKER.

Lemma state_of_alter st f w0 w ar o :
  bt_sorted (states st) ->
  state_of (mkLoop (bt_alter f w0 (states st)) ar o) w =
    if (w0 =? w)%string then f (bt_get w0 (states st)) else state_of st w.
Proof.
  intros Hs. unfold state_of. simpl. destruct (String.eqb_spec w0 w) as [->|Hne].
  - by rewrite bt_get_alter_eq.
  - by rewrite bt_get_alter_ne.
Qed.

Lemma total_bytes_nonneg l : Forall (fun b => in_u64 (estimated_bytes b)) (map block_of l) -> 0 <= total_bytes l.
Proof.
  induction l as [|a l IH]; simpl; [done|]. intros [Ha Hl]%Forall_cons.
  unfold block_of, in_u64 in Ha. simpl in Ha. specialize (IH Hl). lia.
Qed.

Lemma on_worker_In a w l : In a (on_worker w l) -> In a l.
Proof. intros [? _]%List.filter_In. done. Qed.

Lemma total_bytes_on_worker_nonneg w l :
  Forall (fun b => in_u64 (estimated_bytes b)) (map block_of l) -> 0 <= total_bytes (on_worker w l).
Proof.
  intros HF. apply total_bytes_nonneg. rewrite Forall_forall in HF |- *. intros b Hb. apply HF.
  apply list_elem_of_In, in_map_iff in Hb as (a & <- & Ha). apply list_elem_of_In, in_map.
  by eapply on_worker_In.
Qed.

Lemma loop_inv_local st bs b :
  loop_inv st bs -> loop_inv (mkLoop (states st) (active_remote st)
    (out st ++ [mkAssignment (block_id b) coord (estimated_bytes b) Cold LocalFallback]))
    (bs ++ [b]).
Proof.
  intros [? ? Hb Hc Hby Hr ? Ho]. constructor; simpl; auto.
  - rewrite map_app, Hb. simpl. by destruct b.
  - intros w Hw. rewrite on_worker_snoc. simpl.
    rewrite (proj2 (String.eqb_neq coord w)) by done. by apply Hc.
  - intros w Hw. rewrite on_worker_snoc. simpl.
    rewrite (proj2 (String.eqb_neq coord w)) by done. by apply Hby.
  - intros a [Hin|[<-|[]]]%in_app_or ?; [by apply Hr|done].
  - intros a [Hin|[<-|[]]]%in_app_or; [by apply Ho|by left].
Qed.

Lemma loop_inv_step st bs b :
  caps_ok -> Forall (fun b => in_u64 (estimated_bytes b)) (bs ++ [b]) ->
  loop_inv st bs -> loop_inv (assign_block dep sig coord cfg el om st b) (bs ++ [b]).
Proof.
  intros (Hmw & Hmb & Hmy) HF Hinv.
  destruct (assign_block_assigned st b) as [|w wk c r Hin Hc]; [by apply loop_inv_local|].
  apply candidate_Some in Hc as (Hcw & _ & (o & Ho1 & Ho2 & Ho3) & Hcap).
  destruct Hinv as [Hs Ha Hb Hcnt Hby Hr Hnw Ho].
  apply Forall_app in HF as [HF HFb]. apply Forall_cons in HFb as [HFb _].
  constructor; simpl.
  - by apply bt_alter_sorted.
  - case_match; auto with scry.
  - rewrite map_app, Hb. simpl. by destruct b.
  - intros w' Hw'. rewrite state_of_alter, on_worker_snoc by done. simpl.
    destruct (String.eqb_spec w w') as [->|Hne]; [|by apply Hcnt].
    destruct (Hcap Hw') as (H1 & _ & _), (Hcnt _ Hw') as [H2 _]. unfold state_of in H1, H2.
    unfold wrapping_add. rewrite zlen_app, wrap64_id; simpl.
    + rewrite H2 in *. split; [done|]. unfold zlen in *. simpl. lia.
    + rewrite H2 in *. pose proof (zlen_nonneg (on_worker w' (out st))).
      unfold MAX_BLOCKS_PER_WORKER in *. ints.
  - intros w' Hw'. rewrite state_of_alter, on_worker_snoc by done. simpl.
    destruct (String.eqb_spec w w') as [->|Hne]; [|by apply Hby].
    destruct (Hcap Hw') as (_ & H1 & _), (Hby _ Hw') as [H2 _]. unfold state_of in H1, H2.
    rewrite H2 in *. rewrite total_bytes_app. simpl.
    pose proof (total_bytes_on_worker_nonneg w' (out st)) as Hnn.
    rewrite Hb in Hnn. specialize (Hnn HF).
    unfold MAX_BYTES_PER_WORKER in Hmy. change (Z.shiftl 1 50) with (2 ^ 50) in Hmy.
    unfold sat_add, u64_max, in_u64 in *. lia.
  - intros a Hin' Hne. rewrite in_app_iff in Hin'. destruct Hin' as [Hin'|[<-|[]]]; simpl in *.
    + specialize (Hr a Hin' Hne). case_match; [done|].
      apply bt_contains_keys; [auto with scry|]. apply bt_contains_keys in Hr; [|done].
      unfold bt_contains in *. rewrite bt_get_insert by done. by destruct (cmp w (a_worker_id a)).
    + rewrite (proj2 (String.eqb_neq w coord)) by done.
      apply bt_contains_keys; [auto with scry|]. unfold bt_contains.
      by rewrite bt_get_insert, cmp_refl.
  - destruct (String.eqb_spec w coord) as [|Hne]; [done|].
    destruct (Hcap Hne) as (_ & _ & Hw). destruct (bt_contains w (active_remote st)) eqn:Hcn.
    + assert (bt_insert w tt (active_remote st) = active_remote st) as ->; [|done].
      by apply bt_insert_unit_id.
    + destruct Hw as [?|Hw]; [done|].
      unfold zlen in *. rewrite bt_insert_fresh_perm; [simpl; lia|].
      unfold bt_contains in Hcn. by destruct (bt_get w _).
  - intros a [Hin'|[<-|[]]]%in_app_or; [by apply Ho|]. right.
    exists wk, o. simpl. split_and!; done.
Qed.

Lemma loop_inv_all bs :
  caps_ok -> Forall (fun b => in_u64 (estimated_bytes b)) bs ->
  loop_inv (fold_left (assign_block dep sig coord cfg el om) bs (mkLoop [] [] [])) bs.
Proof.
  intros Hcap HF. induction bs as [|b bs IH] using rev_ind.
  - destruct Hcap as (? & ? & ?). constructor; simpl; try done; try constructor; unfold zlen; simpl; try done; lia.
  - rewrite fold_left_app. simpl. apply loop_inv_step; [done..|]. apply IH.
    by apply Forall_app in HF as [HF _].
Qed.

End Loop.

(** What a validated configuration gives the loop. *)
Lemma guards_caps dep coord nb nw no req policy cfg :
  guards dep coord nb nw no req policy cfg = true -> caps_ok cfg.
Proof.
  unfold guards, validate_config, caps_ok. intros Hg.
  apply andb_true_iff in Hg as [Hg _], Hg as [Hg _], Hg as [Hg _], Hg as [Hg _], Hg as [Hg _],
    Hg as [_ Hg].
  destruct (in_range 1 MAX_WORKERS_PER_QUERY _) eqn:H1; [|done].
  destruct (in_range 1 MAX_BLOCKS_PER_QUERY _); [|done].
  destruct (in_range 1 MAX_BLOCKS_PER_WORKER _) eqn:H2; [|done].
  destruct (in_range 1 MAX_BYTES_PER_WORKER _) eqn:H3; [|done].
  unfold in_range in H1, H2, H3. apply andb_true_iff in H1 as [H1 _], H2 as [H2 H2'], H3 as [H3 H3'].
  apply Z.leb_le in H1, H2, H2', H3, H3'. by split_and!.
Qed.

Lemma on_worker_perm w l k : Permutation l k -> Permutation (on_worker w l) (on_worker w k).
Proof.
  unfold on_worker. induction 1 as [|a l k _ IH|a b l|l k j _ IH1 _ IH2]; simpl; [done| | |].
  - case_match; by rewrite IH.
  - do 2 case_match; try done. apply Permutation_swap.
  - by rewrite IH1, IH2.
Qed.

Lemma on_worker_zlen_perm w l k : Permutation l k -> zlen (on_worker w l) = zlen (on_worker w k).
Proof. intros HP. unfold zlen. by rewrite (on_worker_perm w l k HP). Qed.

Lemma on_worker_bytes_perm w l k :
  Permutation l k -> total_bytes (on_worker w l) = total_bytes (on_worker w k).
Proof.
  intros HP%(on_worker_perm w). induction HP; simpl; lia.
Qed.

(** ** Candidates *)

Lemma candidates_In coord cfg el om st b aff w wk c :
  In (w, wk) el -> candidate coord cfg om st b aff w wk = Some c ->
  In c (candidates coord cfg el om st b aff).
Proof.
  intros Hin Hc. unfold candidates. apply stable_sort_In, list_elem_of_In, list_elem_of_omap.
  exists (w, wk). split; [by apply list_elem_of_In|done].
Qed.

Lemma candidates_cand coord cfg el om st b aff c :
  In c (candidates coord cfg el om st b aff) ->
  exists wk, In (c_worker_id c, wk) el /\
    candidate coord cfg om st b aff (c_worker_id c) wk = Some c.
Proof.
  unfold candidates. intros Hin%stable_sort_In.
  apply list_elem_of_In, list_elem_of_omap in Hin as ([w wk] & Hp & Hc). simpl in Hc.
  pose proof (candidate_Some _ _ _ _ _ _ _ _ _ Hc) as [-> _]. exists wk.
  split; [by apply list_elem_of_In|done].
Qed.

Lemma candidates_sorted coord cfg el om st b aff :
  StronglySorted (fun c d => cmp_leb (score c, c_worker_id c) (score d, c_worker_id d) = true)
    (candidates coord cfg el om st b aff).
Proof.
  exact (sort_by_key_sorted (fun c => (score c, c_worker_id c))
           (omap (fun p => candidate coord cfg om st b aff p.1 p.2) el)).
Qed.

(** ** Rendezvous affinity *)

Definition rendezvous_key (dep sig bid w : string) : Z * string :=
  (- rendezvous_score dep sig bid w, w).

Lemma max_by_fold_key {A K} `{Ord K} (c : A -> A -> comparison) (key : A -> K) l x :
  (forall a b, c a b = cmp (key b) (key a)) ->
  let m := fold_left (fun acc y => match c acc y with Gt => acc | _ => y end) l x in
  In m (x :: l) /\ forall y, In y (x :: l) -> cmp_leb (key m) (key y) = true.
Proof.
  intros Hc. cbv zeta. revert x. induction l as [|z l IH]; intros x; simpl.
  - split; [by left|]. intros y [<-|[]]. unfold cmp_leb. by rewrite cmp_refl.
  - destruct (IH (match c x z with Gt => x | _ => z end)) as [Hin Hmin]. split.
    + destruct Hin as [Heq|Hin]; [|auto]. rewrite <- Heq. case_match; auto.
    + intros y [<-|[<-|Hy]]; [| |by apply Hmin; right];
        (eapply cmp_leb_trans; [apply Hmin; by left|]); rewrite Hc; unfold cmp_leb;
        destruct (cmp (key z) (key x)) eqn:E; rewrite ?cmp_refl, ?E; try done;
        try (apply cmp_gt_lt in E; by rewrite E).
Qed.

Lemma rendezvous_worker_Some dep sig bid l m :
  rendezvous_worker dep sig bid l = Some m <->
  In m l /\ forall y, In y l ->
    cmp_leb (rendezvous_key dep sig bid m) (rendezvous_key dep sig bid y) = true.
Proof.
  unfold rendezvous_worker, max_by. destruct l as [|x l]; [split; [done|intros [[] _]]|].
  match goal with |- context [fold_left ?f l x] => set (g := f) end.
  assert (In (fold_left g l x) (x :: l) /\ forall y, In y (x :: l) ->
    cmp_leb (rendezvous_key dep sig bid (fold_left g l x)) (rendezvous_key dep sig bid y) = true)
    as [Hin Hmin].
  { subst g. apply (max_by_fold_key _ (rendezvous_key dep sig bid)).
    intros a b. unfold rendezvous_key. cbn [cmp prod_Ord fst snd Z_Ord].
    by rewrite Z.compare_opp. }
  split; [by intros [= <-]|]. intros [Hm Hmm]. f_equal.
  assert (rendezvous_key dep sig bid (fold_left g l x) = rendezvous_key dep sig bid m) as Heq.
  { apply cmp_leb_antisym; auto. }
  by injection Heq.
Qed.

Lemma rendezvous_worker_None dep sig bid l : rendezvous_worker dep sig bid l = None <-> l = [].
Proof. destruct l; by split. Qed.

(** ** The properties *)

(** C14. A successful schedule assigns every block exactly once: the assignments,
    read as blocks with their byte estimates, are a permutation of the input
    blocks, they are sorted by block id and no block occurs twice. *)
Theorem schedule_assigns_every_block_once dep sig coord bs ws os req policy cfg s :
  Forall (fun b => in_u64 (estimated_bytes b)) bs ->
  schedule_blocks dep sig coord bs ws os req policy cfg = Ok s ->
  Permutation (map block_of (assignments s)) bs /\
  NoDup (map a_block_id (assignments s)) /\
  StronglySorted (fun a b => cmp_leb (a_block_id a) (a_block_id b) = true) (assignments s).
Proof.
  intros HF (Hg & ids & el & ex & om & Hb & _ & _ & ->)%schedule_blocks_Ok. simpl.
  apply collect_blocks_spec in Hb as (_ & _ & _ & Hn); [|constructor].
  rewrite app_nil_r in Hn. unfold assign_all.
  set (sorted := stable_sort _ bs). assert (Permutation sorted bs) as HP by apply stable_sort_perm.
  destruct (loop_inv_all dep sig coord cfg el om sorted) as [_ _ Hbl _ _ _ _ _].
  { apply guards_caps in Hg. exact Hg. }
  { by rewrite HP. }
  assert (Permutation (map block_of (sort_by_key a_block_id
    (out (fold_left (assign_block dep sig coord cfg el om) sorted (mkLoop [] [] []))))) bs) as HP2.
  { by rewrite sort_by_key_perm, Hbl. }
  split; [done|]. split; [|apply sort_by_key_sorted].
  rewrite <- HP2, map_map in Hn. exact Hn.
Qed.

(** C15. A schedule obeys its caps and its evidence: a remote worker gets at most
    [maximum_blocks_per_worker] blocks and [maximum_bytes_per_worker] bytes, at
    most [maximum_workers_per_query] remote workers are used, and a block goes
    to a remote worker only if that worker was eligible and made an admitted
    offer for exactly this block, whose locality is the one recorded. *)
Theorem schedule_respects_caps dep sig coord bs ws os req policy cfg s :
  Forall (fun b => in_u64 (estimated_bytes b)) bs ->
  schedule_blocks dep sig coord bs ws os req policy cfg = Ok s ->
  (forall w, w <> coord ->
     zlen (on_worker w (assignments s)) <= maximum_blocks_per_worker cfg /\
     total_bytes (on_worker w (assignments s)) <= maximum_bytes_per_worker cfg) /\
  (forall l, NoDup l -> (forall w, In w l -> w <> coord /\ on_worker w (assignments s) <> []) ->
     zlen l <= maximum_workers_per_query cfg) /\
  (forall a, In a (assignments s) -> a_worker_id a <> coord ->
     exists w o, In w ws /\ eligibility w req policy = Ok tt /\ In o os /\ admitted o = true /\
       worker_id w = a_worker_id a /\ o_worker_id o = a_worker_id a /\
       o_block_id o = a_block_id a /\ o_locality o = a_locality a).
Proof.
  intros HF (Hg & ids & el & ex & om & _ & Hw & Ho & ->)%schedule_blocks_Ok. simpl.
  apply split_workers_spec in Hw as (_ & HPw & _ & _); [|constructor|constructor].
  apply index_offers_spec in Ho as (Hso & HPo & _ & _); [|constructor].
  rewrite app_nil_r in HPw, HPo. unfold assign_all.
  set (sorted := stable_sort _ bs). assert (Permutation sorted bs) as HP by apply stable_sort_perm.
  destruct (loop_inv_all dep sig coord cfg el om sorted) as [_ Ha _ Hc Hby Hr Hn Hof].
  { apply guards_caps in Hg. exact Hg. }
  { by rewrite HP. }
  set (fin := fold_left _ sorted _) in *.
  pose proof (sort_by_key_perm a_block_id (out fin)) as HS. split; [|split].
  - intros w Hne. rewrite (on_worker_zlen_perm w _ _ HS), (on_worker_bytes_perm w _ _ HS).
    split; [apply Hc|apply Hby]; done.
  - intros l Hl Hin. etransitivity; [|exact Hn].
    transitivity (zlen (bt_keys (active_remote fin))).
    2:{ unfold zlen, bt_keys. by rewrite List.length_map. }
    unfold zlen. apply inj_le, NoDup_incl_length; [by apply NoDup_ListNoDup|].
    intros w (Hne & Hon)%Hin. destruct (on_worker w _) as [|a k] eqn:E; [done|].
    assert (In a (on_worker w (sort_by_key a_block_id (out fin)))) as Hon' by (rewrite E; by left).
    apply List.filter_In in Hon' as [Ha1 <-%String.eqb_eq].
    apply Hr; [|done]. by apply sort_by_key_In in Ha1.
  - intros a Hina Hne. apply sort_by_key_In in Hina.
    destruct (Hof a Hina) as [[_ ?]|(w & o & Hw & Hg1 & Had & Hloc)]; [done|].
    apply (Permutation_in _ HPw), list_elem_of_In, list_elem_of_omap in Hw as (w' & Hw' & He).
    unfold eligible_entry in He. destruct (eligibility w' req policy) as [[]|] eqn:Hel; [|done].
    injection He as Hid <-.
    apply bt_get_Some_In, (Permutation_in _ HPo), in_map_iff in Hg1 as (o' & [= Hk1 Hk2 <-] & Ho').
    exists w', o'. apply list_elem_of_In in Hw'. rewrite Hid, Hk1, Hk2. split_and!; done.
Qed.

(** Input order does not affect the result: if a call succeeds, the same call
    on any permutation of the blocks, of the worker snapshots and of the offers
    succeeds with the same schedule. *)
Theorem schedule_order_independent dep sig coord bs ws os bs' ws' os' req policy cfg s :
  Permutation bs bs' -> Permutation ws ws' -> Permutation os os' ->
  schedule_blocks dep sig coord bs ws os req policy cfg = Ok s ->
  schedule_blocks dep sig coord bs' ws' os' req policy cfg = Ok s.
Proof. apply schedule_blocks_permuted. Qed.

(** A block goes to the cheapest admissible worker: an iteration of the loop
    appends one assignment; either no eligible worker is a candidate and the
    coordinator keeps the block, or the chosen worker is a candidate and every
    other candidate has a larger [(score, worker id)]. *)
Theorem assign_block_picks_cheapest dep sig coord cfg el om st b :
  let aff := rendezvous_worker dep sig (block_id b) (affinity_workers coord el) in
  let cand w wk := candidate coord cfg om st b aff w wk in
  exists a, out (assign_block dep sig coord cfg el om st b) = out st ++ [a] /\
    block_of a = b /\
    ((a_worker_id a = coord /\ a_reason a = LocalFallback /\
      forall w wk, In (w, wk) el -> cand w wk = None) \/
     (exists wk c, In (a_worker_id a, wk) el /\ cand (a_worker_id a) wk = Some c /\
      a_locality a = c_locality c /\
      forall w wk' c', In (w, wk') el -> cand w wk' = Some c' ->
        cmp_leb (score c, a_worker_id a) (score c', w) = true)).
Proof.
  cbv zeta. unfold assign_block. set (aff := rendezvous_worker _ _ _ _).
  destruct (candidates coord cfg el om st b aff) as [|c cs] eqn:Ec; simpl;
    eexists; (split; [reflexivity|]); (split; [by destruct b|]).
  - left. split; [done|]. split; [done|]. intros w wk Hin.
    destruct (candidate coord cfg om st b aff w wk) as [c|] eqn:Hc; [|done].
    exfalso. apply (candidates_In coord cfg el om st b aff w wk c Hin) in Hc.
    by rewrite Ec in Hc.
  - right. assert (In c (candidates coord cfg el om st b aff)) as Hin by (rewrite Ec; by left).
    apply candidates_cand in Hin as (wk & Hin & Hc). exists wk, c. split_and!; try done.
    intros w wk' c' Hin' Hc'.
    pose proof (candidates_In coord cfg el om st b aff w wk' c' Hin' Hc') as Hin2.
    apply candidate_Some in Hc' as [<- _].
    pose proof (candidates_sorted coord cfg el om st b aff) as Hs. rewrite Ec in *.
    inversion Hs as [|? ? _ HF]; subst. destruct Hin2 as [<-|Hin2].
    + unfold cmp_leb. by rewrite cmp_refl.
    + rewrite List.Forall_forall in HF. by apply HF.
Qed.

(** Rendezvous affinity moves as little as possible: when the set of workers
    gains one member, the winner of a block is either unchanged or the new
    worker (read backwards: removing a worker that is not the winner changes
    nothing), whatever the order in which the workers are listed. *)
Theorem rendezvous_minimal_movement dep sig bid w (l l' : list string) :
  (forall x, In x l' <-> In x l \/ x = w) ->
  rendezvous_worker dep sig bid l' = Some w \/
  rendezvous_worker dep sig bid l' = rendezvous_worker dep sig bid l.
Proof.
  intros Hl. destruct (rendezvous_worker dep sig bid l') as [m|] eqn:Em.
  2:{ apply rendezvous_worker_None in Em as ->. exfalso. apply (Hl w). by right. }
  destruct (String.string_dec m w) as [->|Hne]; [by left|]. right. symmetry.
  apply rendezvous_worker_Some in Em as [Hin Hmin]. apply rendezvous_worker_Some. split.
  - by apply Hl in Hin as [?| ->].
  - intros y Hy. apply Hmin, Hl. by left.
Qed.

(** ** Witnesses *)

Definition demo_req : EligibilityRequirements := mkRequirements "prod" 1 3 1000000 5000.

Definition demo_worker (id : string) (load : Z) : WorkerSnapshot :=
  mkWorker id RoleQuery "prod" 1 {[3]} 999000 false 4 1 0 false 200 load 100.

Definition demo_workers : list WorkerSnapshot := [demo_worker "w1" 10; demo_worker "w2" 0].
Definition demo_blocks : list SchedulableBlock := [mkBlock "b1" 100; mkBlock "b2" 2000000].
Definition demo_offers : list BlockOffer :=
  [mkOffer "w1" "b1" CompleteMain true 5; mkOffer "w2" "b1" Cold true 5;
   mkOffer "w2" "b2" Cold false 1].

Definition demo_schedule : result ScheduleError Schedule :=
  schedule_blocks "prod" "logs" "coord" demo_blocks demo_workers demo_offers demo_req
    EligibilityPolicy_default SchedulerConfig_default.

Definition demo_result : Schedule :=
  mkSchedule [mkAssignment "b1" "w1" 100 CompleteMain (Locality CompleteMain);
              mkAssignment "b2" "coord" 2000000 Cold LocalFallback] [].

Lemma demo_schedule_result : demo_schedule = Ok demo_result.
Proof. vm_compute. reflexivity. Qed.

Lemma demo_blocks_u64 : Forall (fun b => in_u64 (estimated_bytes b)) demo_blocks.
Proof. repeat constructor; vm_compute; discriminate. Qed.

Lemma schedule_assigns_every_block_once_witness :
  Permutation (map block_of (assignments demo_result)) demo_blocks.
Proof.
  apply (schedule_assigns_every_block_once "prod" "logs" "coord" demo_blocks demo_workers
           demo_offers demo_req EligibilityPolicy_default SchedulerConfig_default demo_result).
  - exact demo_blocks_u64.
  - exact demo_schedule_result.
Defined.

Lemma schedule_respects_caps_witness :
  total_bytes (on_worker "w1" (assignments demo_result)) <= Z.shiftl 1 40.
Proof.
  apply (schedule_respects_caps "prod" "logs" "coord" demo_blocks demo_workers
           demo_offers demo_req EligibilityPolicy_default SchedulerConfig_default demo_result).
  - exact demo_blocks_u64.
  - exact demo_schedule_result.
  - discriminate.
Defined.

Lemma schedule_order_independent_witness :
  schedule_blocks "prod" "logs" "coord" (rev demo_blocks) (rev demo_workers) (rev demo_offers)
    demo_req EligibilityPolicy_default SchedulerConfig_default = Ok demo_result.
Proof.
  apply (schedule_order_independent "prod" "logs" "coord" demo_blocks demo_workers demo_offers).
  - apply Permutation_rev.
  - apply Permutation_rev.
  - apply Permutation_rev.
  - exact demo_schedule_result.
Defined.

Lemma rendezvous_minimal_movement_witness :
  rendezvous_worker "prod" "logs" "b1" ["w2"; "w3"; "w1"] = Some "w3" \/
  rendezvous_worker "prod" "logs" "b1" ["w2"; "w3"; "w1"] =
    rendezvous_worker "prod" "logs" "b1" ["w1"; "w2"].
Proof.
  apply (rendezvous_minimal_movement "prod" "logs" "b1" "w3" ["w1"; "w2"] ["w2"; "w3"; "w1"]).
  intros x. simpl. intuition congruence.
Defined.
