(* ===== verification/Block.v ===== *)
(** * Blocks: sidecar metadata, ancestry, ordered upload and delete

    [crates/block/src/meta.rs] (the metadata record, the ancestor closure of a
    compacted block and the check its decoder makes) and the part of
    [crates/block/src/lib.rs] that writes and deletes the objects of a block.

    A UUID is its 128-bit number.  Parameters stand for third-party code: the
    length of the JSON encoding of a vector of UUIDs (serde_json), the printing
    of UUIDs and dates (uuid, chrono), the normalisation of object paths and
    the object store itself (object_store). *)

From S2P Require Import Prelude Order Bytes.
From Stdlib Require Import Sorting.Sorted.

Definition MAX_COMPACTED_ANCESTORS : Z := 584.
Definition MAX_COMPACTED_ANCESTRY_BYTES : Z := 24 * 1024.

Abbreviation Uuid := Z (only parsing).

Record BlockMeta := mkMeta {
  uuid : Uuid;
  signal : string;
  writer_id : Uuid;
  ts_min_unix_nano : Z;
  ts_max_unix_nano : Z;
  row_count : Z;
  byte_size : Z;
  schema_version : Z;
  meta_level : Z;
  compacted_from : list Uuid;
  producer_version : string;
  label_fingerprint_bloom : option bytes;
  has_postings : bool;
  postings_size_bytes : option Z;
  series_types : option (list (Z * Z));
  all_fingerprints : option (list Z);
  has_body_bloom : bool;
  body_bloom_size_bytes : option Z;
  meta_json_size_bytes : option Z;
  wal_seg_max : option Z;
  wal_shard : option Z;
}.

(** ** Ancestry *)

Inductive AncestryError :=
| NoDirectInputs
| CompactsItself (u : Uuid)
| DuplicateInput (u : Uuid)
| InputContainsItself (u : Uuid)
| InputContainsOutput (u : Uuid)
| UnsortedAncestry (u : Uuid)
| TooManyAncestors
| EncodedTooLong.

(** [v.windows(2).any(|pair| pair[0] >= pair[1])]. *)
Fixpoint not_increasing (v : list Z) : bool :=
  match v with
  | x :: ((y :: _) as v') => (y <=? x) || not_increasing v'
  | _ => false
  end.

Definition contains (x : Z) (v : list Z) : bool := existsb (Z.eqb x) v.

Section Ancestry.
  (** [serde_json::to_vec(&ancestors)?.len()]. *)
  Context (json_len : list Uuid -> Z).

Fixpoint closure_loop (output_uuid : Uuid) (direct closure : gset Z) (inputs : list BlockMeta)
    : result AncestryError (gset Z) :=
  match inputs with
  | [] => Ok closure
  | input :: inputs =>
      ensure! negb (uuid input =? output_uuid) else CompactsItself output_uuid in
      ensure! negb (bool_decide (uuid input ∈ direct)) else DuplicateInput (uuid input) in
      ensure! negb (contains (uuid input) (compacted_from input))
        else InputContainsItself (uuid input) in
      ensure! negb (contains output_uuid (compacted_from input))
        else InputContainsOutput (uuid input) in
      ensure! negb (not_increasing (compacted_from input)) else UnsortedAncestry (uuid input) in
      let closure := closure ∪ {[uuid input]} ∪ list_to_set (compacted_from input) in
      ensure! (Z.of_nat (size closure) <=? MAX_COMPACTED_ANCESTORS) else TooManyAncestors in
      closure_loop output_uuid (direct ∪ {[uuid input]}) closure inputs
  end.

Definition compacted_ancestor_closure (output_uuid : Uuid) (inputs : list BlockMeta)
    : result AncestryError (list Uuid) :=
  ensure! negb (bool_decide (inputs = [])) else NoDirectInputs in
  let? closure := closure_loop output_uuid ∅ ∅ inputs in
  let ancestors := sort_by_key (fun u : Z => u) (elements closure) in
  ensure! (json_len ancestors <=? MAX_COMPACTED_ANCESTRY_BYTES) else EncodedTooLong in
  Ok ancestors.

(** The check of [deserialize_compacted_from] on the decoded vector. *)
Definition deserialize_compacted_from (ancestors : list Uuid)
    : result AncestryError (list Uuid) :=
  ensure! negb (MAX_COMPACTED_ANCESTORS <? zlen ancestors) else TooManyAncestors in
  ensure! negb (not_increasing ancestors) else UnsortedAncestry 0 in
  ensure! negb (MAX_COMPACTED_ANCESTRY_BYTES <? json_len ancestors) else EncodedTooLong in
  Ok ancestors.

End Ancestry.

(** ** Objects of a block *)

Inductive StoreError := NotFound | PermissionDenied | Unauthenticated | OtherError.

(** What the code relies on of an object store: a successful request has its
    effect; a failed put either had no effect or wrote the object; a failed
    delete had no effect or removed the object; [NotFound] means the object
    is absent. *)
Class ObjectStore (St : Type) := {
  objects : St -> gmap string bytes;
  store_put : St -> string -> bytes -> St * result StoreError unit;
  store_delete : St -> string -> St * result StoreError unit;
  store_put_ok s p b : snd (store_put s p b) = Ok tt ->
    objects (fst (store_put s p b)) = <[p := b]> (objects s);
  store_put_err s p b e : snd (store_put s p b) = Err e ->
    objects (fst (store_put s p b)) = objects s \/
    objects (fst (store_put s p b)) = <[p := b]> (objects s);
  store_delete_ok s p : snd (store_delete s p) = Ok tt ->
    objects (fst (store_delete s p)) = delete p (objects s);
  store_delete_err s p e : snd (store_delete s p) = Err e ->
    objects (fst (store_delete s p)) = objects s \/
    objects (fst (store_delete s p)) = delete p (objects s);
  store_delete_not_found s p : snd (store_delete s p) = Err NotFound ->
    objects (fst (store_delete s p)) = delete p (objects s);
}.

Definition PUT_ATTEMPTS : Z := 3.

(** Milliseconds before the [retry]-th retry. *)
Definition put_backoff (retry : Z) : Z := 250 * 4 ^ (sat_sub retry 1).

Section Objects.
  Context {St : Type} `{ObjectStore St}.
  (** Printing of UUIDs, calendar dates of a Unix second, the present date,
      and [Path::from]. *)
  Context (uuid_str : Uuid -> string) (civil : Z -> option (string * string * string)).
  Context (today : string * string * string) (path_from : string -> string).

Definition block_path (signal : string) (ts_min : Z) (writer_id block_uuid : Uuid)
    (kind : string) : string :=
  let secs := ts_min / 1000000000 in
  let '(y, m, d) := default today (civil secs) in
  signal +:+ "/" +:+ y +:+ "/" +:+ m +:+ "/" +:+ d +:+ "/" +:+ uuid_str writer_id +:+ "/"
    +:+ uuid_str block_uuid +:+ "." +:+ kind.

(** The inner [loop]: the states of the store after each attempt, and the
    outcome.  [fuel] counts the attempts left beyond [PUT_ATTEMPTS]. *)
Fixpoint put_loop (fuel : nat) (attempt : Z) (s : St) (p : string) (b : bytes)
    : list St * St * result StoreError unit :=
  let '(s', r) := store_put s p b in
  match r with
  | Ok _ => ([s'], s', Ok tt)
  | Err e =>
      if attempt <? PUT_ATTEMPTS
      then match fuel with
           | O => ([s'], s', Err e)
           | S fuel =>
               let '(tr, s'', r') := put_loop fuel (attempt + 1) s' p b in (s' :: tr, s'', r')
           end
      else ([s'], s', Err e)
  end.

(** [put_block_objects], with the trace of store states it goes through. *)
Fixpoint put_block_objects (s : St) (puts : list (string * bytes))
    : list St * St * result StoreError unit :=
  match puts with
  | [] => ([], s, Ok tt)
  | (p, b) :: puts =>
      let '(tr, s', r) := put_loop (Z.to_nat PUT_ATTEMPTS) 1 s p b in
      match r with
      | Err e => (tr, s', Err e)
      | Ok _ => let '(tr', s'', r') := put_block_objects s' puts in (tr ++ tr', s'', r')
      end
  end.

Definition delete_kinds (meta : BlockMeta) : list string :=
  ["parquet"] ++ (if has_postings meta then ["postings.parquet"] else [])
    ++ (if has_body_bloom meta then ["body.bloom"] else []) ++ ["meta.json"].

Definition object_path (meta : BlockMeta) (kind : string) : string :=
  path_from (block_path (signal meta) (ts_min_unix_nano meta) (writer_id meta) (uuid meta) kind).

Fixpoint delete_loop (s : St) (paths : list string) : list St * St * result StoreError unit :=
  match paths with
  | [] => ([], s, Ok tt)
  | p :: paths =>
      let '(s', r) := store_delete s p in
      match r with
      | Ok _ | Err NotFound =>
          let '(tr, s'', r') := delete_loop s' paths in (s' :: tr, s'', r')
      | Err e => ([s'], s', Err e)
      end
  end.

Definition delete_block_objects (s : St) (meta : BlockMeta)
    : list St * St * result StoreError unit :=
  delete_loop s (map (object_path meta) (delete_kinds meta)).

End Objects.

(** ** Facts about ancestry *)

Lemma not_increasing_sorted v : not_increasing v = false <-> StronglySorted Z.lt v.
Proof.
  induction v as [|x v IH]; simpl; [split; [constructor|done]|].
  destruct v as [|y v]; [split; [by repeat constructor|done]|].
  rewrite orb_false_iff, IH, Z.leb_gt. split.
  - intros [Hxy Hs]. constructor; [done|]. inversion Hs as [|? ? ? HF]; subst.
    constructor; [done|]. eapply List.Forall_impl; [|exact HF]. intros; lia.
  - intros Hs. inversion Hs as [|? ? ? HF]; subst. by inversion HF.
Qed.

Lemma contains_In x v : contains x v = true <-> In x v.
Proof.
  unfold contains. rewrite existsb_exists. split.
  - by intros (y & ? & ->%Z.eqb_eq).
  - intros. exists x. by rewrite Z.eqb_refl.
Qed.

(** What the loop accepts of one input. *)
Definition good_input (output_uuid : Uuid) (i : BlockMeta) : Prop :=
  uuid i <> output_uuid /\ ~ In (uuid i) (compacted_from i) /\
  ~ In output_uuid (compacted_from i) /\ StronglySorted Z.lt (compacted_from i).

Definition ancestry (inputs : list BlockMeta) : gset Z :=
  fold_right (fun i acc => {[uuid i]} ∪ list_to_set (compacted_from i) ∪ acc) ∅ inputs.

Lemma ancestry_elem u inputs :
  u ∈ ancestry inputs <-> exists i, In i inputs /\ (u = uuid i \/ In u (compacted_from i)).
Proof.
  induction inputs as [|i inputs IH]; simpl.
  - rewrite elem_of_empty. naive_solver.
  - rewrite !elem_of_union, elem_of_singleton, elem_of_list_to_set, list_elem_of_In, IH.
    naive_solver.
Qed.

Lemma closure_loop_spec o d c inputs r :
  closure_loop o d c inputs = Ok r <->
  Forall (good_input o) inputs /\ NoDup (map uuid inputs) /\
  Forall (fun i => uuid i ∉ d) inputs /\ r = c ∪ ancestry inputs /\
  (inputs = [] \/ Z.of_nat (size r) <= MAX_COMPACTED_ANCESTORS).
Proof.
  revert d c. induction inputs as [|i inputs IH]; intros d c; simpl.
  { rewrite union_empty_r_L. split; [intros [= <-]|intros (_ & _ & _ & -> & _)]; [|done].
    split_and!; auto using Forall_nil_2; [constructor]. }
  rewrite !Forall_cons, NoDup_cons. unfold good_input at 1.
  destruct (Z.eqb_spec (uuid i) o); simpl; [split; [done|naive_solver]|].
  case_bool_decide; simpl; [split; [done|naive_solver]|].
  destruct (contains (uuid i) _) eqn:E1; simpl;
    [apply contains_In in E1; split; [done|naive_solver]|].
  destruct (contains o _) eqn:E2; simpl; [apply contains_In in E2; split; [done|naive_solver]|].
  destruct (not_increasing _) eqn:E3; simpl.
  { split; [done|]. intros ((( _ & _ & _ & Hs) & _) & _).
    apply not_increasing_sorted in Hs. congruence. }
  apply not_increasing_sorted in E3.
  assert (~ In (uuid i) (compacted_from i)) by (rewrite <- contains_In, E1; done).
  assert (~ In o (compacted_from i)) by (rewrite <- contains_In, E2; done).
  set (c' := c ∪ {[uuid i]} ∪ list_to_set (compacted_from i)).
  assert (c' ∪ ancestry inputs =
    c ∪ ({[uuid i]} ∪ list_to_set (compacted_from i) ∪ ancestry inputs)) as Hc by set_solver.
  destruct (Z.leb_spec (Z.of_nat (size c')) MAX_COMPACTED_ANCESTORS) as [Hsz|Hsz]; simpl.
  - rewrite IH, Hc. split.
    + intros (? & ? & Hd & -> & Hz). split_and!; try done.
      * intros Hin. apply list_elem_of_In, in_map_iff in Hin as (j & Hj & Hin).
        rewrite Forall_forall in Hd. apply (Hd j); [by apply list_elem_of_In|]. set_solver.
      * eapply Forall_impl; [exact Hd|]. set_solver.
      * right. destruct Hz as [->|Hz]; [|done]. rewrite <- Hc.
        simpl. by rewrite union_empty_r_L.
    + intros ((_ & ?) & (Hn & ?) & (_ & Hd) & -> & Hz). split_and!; try done.
      * rewrite Forall_forall in Hd |- *. intros j Hj Hin. apply elem_of_union in Hin as [Hin|Hin].
        -- by apply (Hd j).
        -- apply elem_of_singleton in Hin. apply Hn. rewrite <- Hin.
           apply list_elem_of_In, in_map. by apply list_elem_of_In.
      * right. by destruct Hz.
  - split; [done|]. intros (_ & _ & _ & -> & [?|Hz]); [done|].
    exfalso. assert (size c' <= size (c ∪ ({[uuid i]} ∪ list_to_set (compacted_from i) ∪ ancestry inputs)))%nat.
    { apply subseteq_size. rewrite <- Hc. set_solver. }
    lia.
Qed.

(** The canonical vector of a set of UUIDs. *)
Lemma canonical_vector (c : gset Z) :
  let v := sort_by_key (fun u : Z => u) (elements c) in
  StronglySorted Z.lt v /\ (forall u, In u v <-> u ∈ c) /\ zlen v = Z.of_nat (size c).
Proof.
  cbv zeta. pose proof (sort_by_key_perm (fun u : Z => u) (elements c)) as HP. split; [|split].
  - assert (NoDup (sort_by_key (fun u : Z => u) (elements c))) as Hn
      by (rewrite HP; apply NoDup_elements).
    pose proof (sort_by_key_sorted (fun u : Z => u) (elements c)) as Hs. clear HP.
    induction Hs as [|x l Hs IH HF]; constructor; apply NoDup_cons in Hn as [Hx Hn]; [by apply IH|].
    rewrite List.Forall_forall in HF |- *. intros y Hy. specialize (HF y Hy).
    assert (x <> y) by (intros ->; by apply Hx, list_elem_of_In).
    unfold cmp_leb in HF. cbn [cmp Z_Ord] in HF. destruct (Z.compare_spec x y); lia || done.
  - intros u. rewrite sort_by_key_In, <- list_elem_of_In. apply elem_of_elements.
  - unfold zlen. by rewrite HP.
Qed.

Lemma compacted_ancestor_closure_Ok json_len o inputs a :
  compacted_ancestor_closure json_len o inputs = Ok a <->
  inputs <> [] /\ Forall (good_input o) inputs /\ NoDup (map uuid inputs) /\
  Z.of_nat (size (ancestry inputs)) <= MAX_COMPACTED_ANCESTORS /\
  a = sort_by_key (fun u : Z => u) (elements (ancestry inputs)) /\
  json_len a <= MAX_COMPACTED_ANCESTRY_BYTES.
Proof.
  unfold compacted_ancestor_closure. case_bool_decide as Hi; cbn [negb]; [split; [done|naive_solver]|].
  destruct (closure_loop o ∅ ∅ inputs) as [c|e] eqn:E; cbn [result_bind].
  - apply closure_loop_spec in E as (Hg & Hn & _ & Hc & [?|Hs]); [done|].
    rewrite union_empty_l_L in Hc. subst c. cbv zeta. case_match eqn:Hj.
    + apply Z.leb_le in Hj. split; [intros [= <-]; split_and!; done|].
      by intros (_ & _ & _ & _ & -> & _).
    + apply Z.leb_gt in Hj. split; [done|]. intros (_ & _ & _ & _ & -> & ?). lia.
  - split; [done|]. intros (_ & Hg & Hn & Hs & _).
    assert (closure_loop o ∅ ∅ inputs = Ok (ancestry inputs)); [|congruence].
    apply closure_loop_spec. rewrite union_empty_l_L. split_and!; auto.
    apply Forall_forall. set_solver.
Qed.

(** C29. The ancestor closure of a compacted block: whenever it is built, it holds
    exactly the direct inputs and their recorded ancestors, strictly sorted, at
    most 584 of them, never the output itself, and the decoder of the sidecar
    accepts it unchanged; malformed lineage (a duplicate input, a self
    reference, an unsorted input closure) is rejected. *)
Theorem ancestor_closure_exact json_len output inputs a :
  compacted_ancestor_closure json_len output inputs = Ok a ->
  (forall u, In u a <-> exists i, In i inputs /\ (u = uuid i \/ In u (compacted_from i))) /\
  StronglySorted Z.lt a /\ zlen a <= MAX_COMPACTED_ANCESTORS /\ ~ In output a /\
  NoDup (map uuid inputs) /\ Forall (good_input output) inputs /\
  deserialize_compacted_from json_len a = Ok a.
Proof.
  intros (Hi & Hg & Hn & Hs & -> & Hj)%compacted_ancestor_closure_Ok.
  destruct (canonical_vector (ancestry inputs)) as (Hsort & Hin & Hlen).
  assert (forall u, In u (sort_by_key (fun u : Z => u) (elements (ancestry inputs))) <->
    exists i, In i inputs /\ (u = uuid i \/ In u (compacted_from i))) as Hex.
  { intros u. by rewrite Hin, ancestry_elem. }
  split_and!; try done; [lia| |].
  - intros (i & Hii & Ho)%Hex. rewrite Forall_forall in Hg.
    destruct (Hg i (proj2 (list_elem_of_In _ _) Hii)) as (? & _ & ? & _). destruct Ho; congruence.
  - unfold deserialize_compacted_from.
    rewrite (proj2 (Z.ltb_ge MAX_COMPACTED_ANCESTORS _)) by lia.
    rewrite (proj2 (not_increasing_sorted _) Hsort).
    by rewrite (proj2 (Z.ltb_ge MAX_COMPACTED_ANCESTRY_BYTES _)) by lia.
Qed.

(** ** Facts about uploads and deletes *)

Definition apply_puts (m : gmap string bytes) (puts : list (string * bytes)) : gmap string bytes :=
  fold_left (fun m pb => <[fst pb := snd pb]> m) puts m.

Definition apply_deletes (m : gmap string bytes) (paths : list string) : gmap string bytes :=
  fold_left (fun m p => delete p m) paths m.

Lemma apply_puts_lookup_other puts m p :
  ~ In p (map fst puts) -> apply_puts m puts !! p = m !! p.
Proof.
  unfold apply_puts. revert m. induction puts as [|[q b] puts IH]; intros m Hp; simpl in *; [done|].
  rewrite IH by tauto. apply lookup_insert_ne. tauto.
Qed.

Lemma apply_puts_lookup puts m p b :
  NoDup (map fst puts) -> In (p, b) puts -> apply_puts m puts !! p = Some b.
Proof.
  unfold apply_puts. revert m. induction puts as [|[q c] puts IH]; intros m Hn Hin; simpl in *; [done|].
  apply NoDup_cons in Hn as [Hq Hn]. destruct Hin as [[= -> ->]|Hin]; [|by apply IH].
  fold (apply_puts (<[p := b]> m) puts). rewrite apply_puts_lookup_other, lookup_insert_eq; [done|].
  by rewrite <- list_elem_of_In.
Qed.

Lemma apply_deletes_lookup paths m p :
  apply_deletes m paths !! p = if bool_decide (p ∈ paths) then None else m !! p.
Proof.
  unfold apply_deletes. revert m. induction paths as [|q paths IH]; intros m; cbn [fold_left];
    [by rewrite bool_decide_eq_false_2 by apply not_elem_of_nil|].
  rewrite IH. destruct (decide (p = q)) as [->|Hne].
  - rewrite lookup_delete_eq, (bool_decide_eq_true_2 (q ∈ q :: paths)) by (by left).
    by case_match.
  - rewrite lookup_delete_ne by done.
    by rewrite (bool_decide_ext (p ∈ q :: paths) (p ∈ paths)) by (rewrite elem_of_cons; tauto).
Qed.

Section ObjectFacts.
  Context {St : Type} `{ObjectStore St}.
  Implicit Types s t : St.

(** Attempts on one object: each leaves the store with or without it, the last
    one of a success with it; a failure is the failure of every attempt left. *)
Lemma put_loop_spec fuel attempt s p b :
  (Z.to_nat (PUT_ATTEMPTS - attempt) <= fuel)%nat -> 1 <= attempt <= PUT_ATTEMPTS ->
  let '(tr, s', r) := put_loop fuel attempt s p b in
  (forall t, In t tr -> objects t = objects s \/ objects t = <[p := b]> (objects s)) /\
  In s' tr /\ zlen tr <= PUT_ATTEMPTS - attempt + 1 /\
  match r with
  | Ok _ => objects s' = <[p := b]> (objects s)
  | Err _ => zlen tr = PUT_ATTEMPTS - attempt + 1
  end.
Proof.
  revert attempt s. induction fuel as [|fuel IH]; intros attempt s Hf Ha; cbn [put_loop].
  all: pose proof (store_put_ok s p b) as Hok; pose proof (store_put_err s p b) as Herr.
  all: destruct (store_put s p b) as [s1 [[]|e]]; cbn [fst snd] in *;
    [split_and!; [naive_solver|by left|rewrite zlen_cons, zlen_nil; lia|auto]|].
  all: specialize (Herr e eq_refl); destruct (Z.ltb_spec attempt PUT_ATTEMPTS) as [Hlt|Hge].
  - lia.
  - split_and!; [naive_solver|by left|rewrite zlen_cons, zlen_nil; lia..].
  - specialize (IH (attempt + 1) s1 ltac:(lia) ltac:(lia)).
    destruct (put_loop fuel (attempt + 1) s1 p b) as [[tr s'] r].
    destruct IH as (Htr & Hs' & Hl & Hr). split_and!.
    + intros t [<-|Ht]; [done|]. destruct (Htr t Ht) as [->| ->], Herr as [->| ->]; auto.
      rewrite insert_insert_eq. auto.
    + by right.
    + rewrite zlen_cons. lia.
    + destruct r; [|rewrite zlen_cons; lia]. rewrite Hr.
      destruct Herr as [->| ->]; [done|]. by rewrite insert_insert_eq.
  - split_and!; [naive_solver|by left|rewrite zlen_cons, zlen_nil; lia..].
Qed.

(** Every state visited has a prefix of the objects. *)
Lemma put_block_objects_spec s puts :
  let '(tr, s', r) := put_block_objects s puts in
  (forall t, In t tr -> exists k, (k <= length puts)%nat /\
     objects t = apply_puts (objects s) (take k puts)) /\
  zlen tr <= PUT_ATTEMPTS * zlen puts /\
  (r = Ok tt -> objects s' = apply_puts (objects s) puts).
Proof.
  revert s. induction puts as [|[p b] puts IH]; intros s; cbn [put_block_objects].
  { split_and!; [done|unfold zlen; simpl; lia|done]. }
  pose proof (put_loop_spec (Z.to_nat PUT_ATTEMPTS) 1 s p b) as Hp.
  destruct (put_loop _ 1 s p b) as [[tr s1] r1].
  destruct Hp as (Htr & Hin & Hl & Hr); [unfold PUT_ATTEMPTS; lia|unfold PUT_ATTEMPTS; lia|].
  assert (forall t, In t tr -> exists k, (k <= S (length puts))%nat /\
    objects t = apply_puts (objects s) (take k ((p, b) :: puts))) as Hpre.
  { intros t [Ht|Ht]%Htr; [exists 0%nat|exists 1%nat]; (split; [lia|]); simpl.
    - done.
    - by rewrite ?take_0. }
  rewrite zlen_cons. destruct r1 as [[]|e].
  - specialize (IH s1). destruct (put_block_objects s1 puts) as [[tr' s2] r2].
    destruct IH as (Htr' & Hl' & Hr'). split_and!.
    + intros t [Ht|Ht]%in_app_or; [by apply Hpre|].
      destruct (Htr' t Ht) as (k & Hk & ->). exists (S k). split; [simpl; lia|].
      by rewrite Hr.
    + rewrite zlen_app. lia.
    + intros Hok. by rewrite (Hr' Hok), Hr.
  - split_and!; [done| |done]. pose proof (zlen_nonneg puts). unfold PUT_ATTEMPTS in *. lia.
Qed.

Lemma delete_loop_spec s paths :
  let '(tr, s', r) := delete_loop s paths in
  (forall t, In t tr -> exists k, (k <= length paths)%nat /\
     objects t = apply_deletes (objects s) (take k paths)) /\
  (r = Ok tt -> objects s' = apply_deletes (objects s) paths).
Proof.
  revert s. induction paths as [|p paths IH]; intros s; cbn [delete_loop]; [done|].
  pose proof (store_delete_ok s p) as Hok. pose proof (store_delete_err s p) as Herr.
  pose proof (store_delete_not_found s p) as Hnf.
  destruct (store_delete s p) as [s1 r1]. simpl in *.
  assert (objects s1 = delete p (objects s) ->
    let '(tr, s', r) :=
      let '(tr, s'', r') := delete_loop s1 paths in (s1 :: tr, s'', r') in
    (forall t, In t tr -> exists k, (k <= S (length paths))%nat /\
       objects t = apply_deletes (objects s) (take k (p :: paths))) /\
    (r = Ok tt -> objects s' = apply_deletes (objects s) (p :: paths))) as Hgo.
  { intros Hs1. specialize (IH s1). destruct (delete_loop s1 paths) as [[tr s2] r2].
    destruct IH as [Htr Hr]. split.
    - intros t [<-|Ht]; [exists 1%nat; simpl; rewrite ?take_0; split; [lia|done]|].
      destruct (Htr t Ht) as (k & Hk & ->). exists (S k). split; [lia|]. by rewrite Hs1.
    - intros Hr2. by rewrite (Hr Hr2), Hs1. }
  destruct r1 as [[]|[]]; try (apply Hgo; auto; fail).
  all: split; [|done]; intros t [<-|[]].
  all: destruct (Herr _ eq_refl) as [->| ->]; [exists 0%nat|exists 1%nat]; simpl;
    rewrite ?take_0; (split; [lia|done]).
Qed.

End ObjectFacts.

(** C28. [meta.json] is the commit point of an upload: with distinct paths and no
    sidecar beforehand, in every state the store goes through, whatever requests
    fail and wherever the upload is cut short, the sidecar is absent or every
    data object it describes is already there with its bytes; at most three
    attempts are made per object, and on success everything is stored. *)
Theorem upload_commits_last {St} `{ObjectStore St} (s : St) (data : list (string * bytes)) mp mb :
  NoDup (map fst (data ++ [(mp, mb)])) -> objects s !! mp = None ->
  let '(tr, s', r) := put_block_objects s (data ++ [(mp, mb)]) in
  (forall t, In t tr -> objects t !! mp = None \/
     forall p b, In (p, b) data -> objects t !! p = Some b) /\
  zlen tr <= 3 * zlen (data ++ [(mp, mb)]) /\
  (r = Ok tt -> forall p b, In (p, b) (data ++ [(mp, mb)]) -> objects s' !! p = Some b).
Proof.
  intros Hn Hm. pose proof (put_block_objects_spec s (data ++ [(mp, mb)])) as Hp.
  destruct (put_block_objects s _) as [[tr s'] r]. destruct Hp as (Htr & Hl & Hr).
  split_and!; [|done|].
  - intros t (k & Hk & ->)%Htr. rewrite length_app in Hk. simpl in Hk.
    destruct (decide (k <= length data)%nat) as [Hle|Hgt].
    + left. rewrite take_app_le by done. rewrite apply_puts_lookup_other; [done|].
      intros (pb & Hpb & Hin)%in_map_iff. rewrite map_app, NoDup_app in Hn.
      destruct Hn as (_ & Hd & _). apply (Hd mp); [|by left].
      rewrite <- Hpb. apply list_elem_of_In, in_map.
      apply list_elem_of_In. apply list_elem_of_In in Hin.
      by apply elem_of_take in Hin as (i & Hi%list_elem_of_lookup_2 & _).
    + right. intros p b Hin. rewrite take_ge by (rewrite length_app; simpl; lia).
      apply apply_puts_lookup; [done|]. apply in_or_app. by left.
  - intros Hok p b Hin. rewrite (Hr Hok). by apply apply_puts_lookup.
Qed.

Lemma block_path_inj uuid_str civil today sg ts w u k k' :
  block_path uuid_str civil today sg ts w u k = block_path uuid_str civil today sg ts w u k' ->
  k = k'.
Proof.
  unfold block_path. destruct (default today (civil _)) as [[y m] d].
  intros Heq. by repeat apply (inj (String.append _)) in Heq.
Qed.

Definition data_kinds (meta : BlockMeta) : list string :=
  ["parquet"] ++ (if has_postings meta then ["postings.parquet"] else [])
    ++ (if has_body_bloom meta then ["body.bloom"] else []).

(** Deleting a block removes its sidecar last and nothing else: if
    normalisation keeps the paths of one block distinct and its sidecar is
    present, in every state the store goes through, whatever requests fail,
    the sidecar is still there or every data object of the block is gone, and no
    other object has changed; on success no object of the block is left, so a
    failed pass can be retried. *)
Theorem delete_removes_sidecar_last {St} `{ObjectStore St} uuid_str civil today path_from
    (s : St) (meta : BlockMeta) :
  let path := object_path uuid_str civil today path_from meta in
  (forall k k', path k = path k' ->
     block_path uuid_str civil today (signal meta) (ts_min_unix_nano meta) (writer_id meta)
       (uuid meta) k =
     block_path uuid_str civil today (signal meta) (ts_min_unix_nano meta) (writer_id meta)
       (uuid meta) k') ->
  objects s !! path "meta.json" <> None ->
  let '(tr, s', r) := delete_block_objects uuid_str civil today path_from s meta in
  (forall t, In t tr ->
     (objects t !! path "meta.json" <> None \/
      forall k, In k (data_kinds meta) -> objects t !! path k = None) /\
     forall p, ~ In p (map path (delete_kinds meta)) -> objects t !! p = objects s !! p) /\
  (r = Ok tt -> forall k, In k (delete_kinds meta) -> objects s' !! path k = None).
Proof.
  cbv zeta. set (path := object_path uuid_str civil today path_from meta). intros Hinj Hm.
  unfold delete_block_objects. fold path.
  assert (delete_kinds meta = data_kinds meta ++ ["meta.json"]) as Hk.
  { unfold delete_kinds, data_kinds. by rewrite !app_assoc. }
  pose proof (delete_loop_spec s (map path (delete_kinds meta))) as Hd.
  destruct (delete_loop s _) as [[tr s'] r]. destruct Hd as [Htr Hr]. split.
  - intros t (k & Hlen & ->)%Htr. split.
    2:{ intros p Hp. rewrite apply_deletes_lookup, bool_decide_eq_false_2; [done|].
        intros (i & Hi%list_elem_of_lookup_2 & _)%elem_of_take. by apply Hp, list_elem_of_In. }
    rewrite Hk, map_app, length_app, length_map in *. cbn [map length] in Hlen.
    destruct (decide (k <= length (data_kinds meta))%nat) as [Hle|Hgt].
    + left. rewrite take_app_le by (by rewrite length_map).
      rewrite apply_deletes_lookup, bool_decide_eq_false_2; [done|].
      intros (i & Hi%list_elem_of_lookup_2 & _)%elem_of_take.
      apply list_elem_of_In, in_map_iff in Hi as (kd & Hkd & Hin).
      apply Hinj, block_path_inj in Hkd. subst kd. revert Hin. unfold data_kinds.
      destruct (has_postings meta), (has_body_bloom meta); simpl; intuition discriminate.
    + right. intros kd Hin. rewrite apply_deletes_lookup, bool_decide_eq_true_2; [done|].
      rewrite take_ge by (rewrite length_app, length_map; cbn [map length]; lia).
      apply elem_of_app. left. by apply list_elem_of_In, in_map.
  - intros Hok kd Hin. rewrite (Hr Hok), apply_deletes_lookup, bool_decide_eq_true_2; [done|].
    by apply list_elem_of_In, in_map.
Qed.

(** ** Witnesses *)

Definition demo_meta (u : Uuid) (from : list Uuid) : BlockMeta :=
  mkMeta u "logs" 9 1000 2000 10 500 1 0 from "0.24" None true (Some 40) None None true
    (Some 30) None None None.

(** The documented size of a JSON array of hyphenated UUID strings. *)
Definition uuid_json_len (l : list Uuid) : Z :=
  match l with [] => 2 | _ => 39 * zlen l + 1 end.

Lemma ancestor_closure_exact_witness :
  deserialize_compacted_from uuid_json_len [1; 2; 3; 5] = Ok [1; 2; 3; 5].
Proof.
  apply (ancestor_closure_exact uuid_json_len 7 [demo_meta 3 [1; 2]; demo_meta 5 [2]] [1; 2; 3; 5]).
  vm_compute. reflexivity.
Defined.

(** A store that fails its requests as a list of outcomes says. *)
Record FlakyStore := mkFlaky { contents : gmap string bytes; outcomes : list bool }.

Definition flaky_next (s : FlakyStore) : bool := match outcomes s with [] => true | o :: _ => o end.

Definition flaky_put (s : FlakyStore) (p : string) (b : bytes)
    : FlakyStore * result StoreError unit :=
  if flaky_next s then (mkFlaky (<[p := b]> (contents s)) (tl (outcomes s)), Ok tt)
  else (mkFlaky (contents s) (tl (outcomes s)), Err OtherError).

Definition flaky_delete (s : FlakyStore) (p : string) : FlakyStore * result StoreError unit :=
  if flaky_next s then (mkFlaky (delete p (contents s)) (tl (outcomes s)), Ok tt)
  else (mkFlaky (contents s) (tl (outcomes s)), Err OtherError).

#[export] Instance FlakyStore_store : ObjectStore FlakyStore.
Proof.
  refine {| objects := contents; store_put := flaky_put; store_delete := flaky_delete |};
    unfold flaky_put, flaky_delete; intros s; intros; destruct (flaky_next s); simpl in *;
    (done || (by left) || (by right)).
Defined.

Definition demo_store : FlakyStore := mkFlaky ∅ [false; false; true; true].
Definition demo_data : list (string * bytes) := [("a.parquet", str "rows")].

Lemma upload_commits_last_witness :
  let '(tr, s', r) := put_block_objects demo_store (demo_data ++ [("a.meta.json", str "meta")]) in
  r = Ok tt /\ contents s' !! "a.parquet" = Some (str "rows").
Proof.
  pose proof (upload_commits_last demo_store demo_data "a.meta.json" (str "meta")) as Hu.
  destruct (put_block_objects demo_store _) as [[tr s'] r] eqn:E.
  assert (r = Ok tt) as Hr by (vm_compute in E; injection E; congruence).
  split; [exact Hr|]. apply Hu.
  - apply NoDup_ListNoDup. repeat constructor; simpl; intuition discriminate.
  - vm_compute. reflexivity.
  - exact Hr.
  - left. reflexivity.
Defined.

Definition demo_block_store : FlakyStore :=
  mkFlaky {["logs/y/m/d/u/u.meta.json" := str "meta"; "logs/y/m/d/u/u.parquet" := str "rows"]} [].

Lemma delete_removes_sidecar_last_witness :
  let '(tr, s', r) := delete_block_objects (fun _ => "u") (fun _ => Some ("y", "m", "d"))
                        ("y", "m", "d") (fun p => p) demo_block_store (demo_meta 3 []) in
  contents s' !! "logs/y/m/d/u/u.parquet" = None.
Proof.
  pose proof (delete_removes_sidecar_last (fun _ => "u") (fun _ => Some ("y", "m", "d"))
                ("y", "m", "d") (fun p => p) demo_block_store (demo_meta 3 [])) as Hd.
  destruct (delete_block_objects _ _ _ _ demo_block_store (demo_meta 3 [])) as [[tr s'] r] eqn:E.
  cbv zeta in Hd. apply (proj2 (Hd (fun k k' Heq => Heq) ltac:(vm_compute; discriminate))
                           ltac:(vm_compute in E; injection E; congruence) "parquet").
  left. reflexivity.
Defined.
