(* ===== verification/Compaction.v ===== *)
(** * Compaction policy

    [crates/compact/src/policy.rs]: the configuration and its validation, the
    grouping of live blocks into partitions and the choice of the merges of one
    pass.  [CatalogEntry] is the row of [crates/catalog/src/lib.rs]. *)

From S2P Require Import Prelude Order Block.
From Stdlib Require Import Sorting.Sorted.

Record CatalogEntry := mkEntry {
  meta : BlockMeta;
  bucket : string;
  date : string;
  level : Z;
}.

(** [grace] is in nanoseconds. *)
Record CompactConfig := mkCompact {
  fanout : Z;
  max_level : Z;
  grace : Z;
  signal_filter : option string;
  parallelism : Z;
}.

Definition CompactConfig_default : CompactConfig := mkCompact 8 3 0 None 1.

Inductive ValidateError :=
| FanoutTooSmall
| MaxLevelTooSmall
| AncestryOverflow
| AncestryTooLarge (represented : Z).

(** [for _ in 0..self.max_level]. *)
Fixpoint validate_levels (fanout : Z) (n : nat) (represented width : Z)
    : result ValidateError unit :=
  match n with
  | O => Ok tt
  | S n =>
      match checked_mul width fanout with
      | None => Err AncestryOverflow
      | Some width =>
          match checked_add represented width with
          | None => Err AncestryOverflow
          | Some represented =>
              ensure! (represented <=? MAX_COMPACTED_ANCESTORS)
                else AncestryTooLarge represented in
              validate_levels fanout n represented width
          end
      end
  end.

Definition validate (c : CompactConfig) : result ValidateError unit :=
  ensure! (2 <=? fanout c) else FanoutTooSmall in
  ensure! (1 <=? max_level c) else MaxLevelTooSmall in
  validate_levels (fanout c) (Z.to_nat (max_level c)) 0 1.

Record PlannedMerge := mkMerge {
  pm_signal : string;
  pm_date : string;
  input_level : Z;
  inputs : list CatalogEntry;
}.

Definition output_level (m : PlannedMerge) : Z := (input_level m + 1) mod 2 ^ 32.

Record OversizedPartition := mkOversized {
  ov_signal : string;
  ov_date : string;
  ov_input_level : Z;
  projected_ancestors : Z;
}.

Record CompactionPlan := mkPlan {
  merges : list PlannedMerge;
  oversized : list OversizedPartition;
}.

Definition projected_ancestry_len (inputs : list CatalogEntry) : Z :=
  Z.of_nat (size (fold_left (fun (closure : gset Z) e =>
    closure ∪ {[uuid (meta e)]} ∪ list_to_set (compacted_from (meta e))) inputs ∅)).

Definition PartitionKey : Type := string * (Z * (string * Z)).

Definition partition_key (b : CatalogEntry) : PartitionKey :=
  (signal (meta b), (schema_version (meta b), (date b, level b))).

(** The two [continue]s of the grouping loop. *)
Definition eligible (cfg : CompactConfig) (b : CatalogEntry) : bool :=
  match signal_filter cfg with
  | Some f => (signal (meta b) =? f)%string
  | None => true
  end && negb (max_level cfg <=? level b).

Definition group_blocks (cfg : CompactConfig) (blocks : list CatalogEntry)
    : btree PartitionKey (list CatalogEntry) :=
  fold_left (fun groups b =>
      if eligible cfg b
      then bt_alter (fun o => default [] o ++ [b]) (partition_key b) groups
      else groups) blocks [].

(** The [fanout] smallest blocks of a partition. *)
Definition smallest (cfg : CompactConfig) (entries : list CatalogEntry) : list CatalogEntry :=
  take (Z.to_nat (fanout cfg)) (sort_by_key (fun e => byte_size (meta e)) entries).

Definition plan_partition (cfg : CompactConfig) (plan : CompactionPlan)
    (group : PartitionKey * list CatalogEntry) : CompactionPlan :=
  let '((signal, (_, (date, level))), entries) := group in
  if zlen entries <? fanout cfg then plan
  else
    let entries := smallest cfg entries in
    let projected := projected_ancestry_len entries in
    if MAX_COMPACTED_ANCESTORS <? projected
    then mkPlan (merges plan) (oversized plan ++ [mkOversized signal date level projected])
    else mkPlan (merges plan ++ [mkMerge signal date level entries]) (oversized plan).

Definition plan_merges (blocks : list CatalogEntry) (cfg : CompactConfig) : CompactionPlan :=
  fold_left (plan_partition cfg) (group_blocks cfg blocks) (mkPlan [] []).

Definition validate_against_catalog (blocks : list CatalogEntry) (cfg : CompactConfig)
    : list OversizedPartition := oversized (plan_merges blocks cfg).

(** ** Validation *)

(** [fanout + fanout^2 + ... + fanout^n]. *)
Fixpoint geometric (f : Z) (n : nat) : Z :=
  match n with O => 0 | S n => geometric f n + f ^ Z.of_nat (S n) end.

Lemma geometric_mono f n m : 0 <= f -> (n <= m)%nat -> geometric f n <= geometric f m.
Proof.
  intros Hf. induction 1 as [|m Hm IH]; [lia|]. cbn [geometric].
  pose proof (Z.pow_nonneg f (Z.of_nat (S m)) Hf). lia.
Qed.

Lemma geometric_nonneg f n : 0 <= f -> 0 <= geometric f n.
Proof. intros. apply (geometric_mono f 0 n); lia. Qed.

Lemma validate_levels_spec f k n :
  0 <= f -> geometric f k <= MAX_COMPACTED_ANCESTORS ->
  validate_levels f n (geometric f k) (f ^ Z.of_nat k) = Ok tt <->
  geometric f (k + n) <= MAX_COMPACTED_ANCESTORS.
Proof.
  intros Hf. revert k. induction n as [|n IH]; intros k Hk; cbn [validate_levels].
  { by rewrite Nat.add_0_r. }
  assert (f ^ Z.of_nat k * f = f ^ Z.of_nat (S k)) as Hw
    by (rewrite Nat2Z.inj_succ, Z.pow_succ_r; lia).
  pose proof (Z.pow_nonneg f (Z.of_nat (S k)) Hf) as Hp.
  pose proof (geometric_nonneg f k Hf) as Hg.
  pose proof (geometric_mono f (S k) (k + S n) Hf ltac:(lia)) as Hm. cbn [geometric] in Hm.
  unfold checked_mul, checked_add. rewrite Hw.
  destruct (checked u64_max (f ^ Z.of_nat (S k))) as [w|] eqn:E1.
  2:{ apply checked_None in E1. split; [done|]. unfold MAX_COMPACTED_ANCESTORS, u64_max in *. lia. }
  apply checked_Some in E1 as [-> _].
  destruct (checked u64_max (geometric f k + _)) as [r|] eqn:E2.
  2:{ apply checked_None in E2. split; [done|]. unfold MAX_COMPACTED_ANCESTORS, u64_max in *. lia. }
  apply checked_Some in E2 as [-> _].
  destruct (Z.leb_spec (geometric f k + f ^ Z.of_nat (S k)) MAX_COMPACTED_ANCESTORS).
  - change (geometric f k + f ^ Z.of_nat (S k)) with (geometric f (S k)) in *.
    rewrite IH by done. by rewrite Nat.add_succ_r.
  - split; [done|lia].
Qed.

(** ** Grouping *)

(** The blocks of one partition, in catalog order. *)
Definition partition (cfg : CompactConfig) (blocks : list CatalogEntry) (k : PartitionKey)
    : list CatalogEntry :=
  List.filter (fun b => eligible cfg b && match cmp (partition_key b) k with Eq => true | _ => false end)
    blocks.

Lemma partition_snoc cfg blocks b k :
  partition cfg (blocks ++ [b]) k =
    partition cfg blocks k ++
      (if eligible cfg b && match cmp (partition_key b) k with Eq => true | _ => false end
       then [b] else []).
Proof. unfold partition. rewrite List.filter_app. simpl. by case_match. Qed.

Lemma group_blocks_spec cfg blocks :
  bt_sorted (group_blocks cfg blocks) /\
  forall k, bt_get k (group_blocks cfg blocks) =
    match partition cfg blocks k with [] => None | l => Some l end.
Proof.
  induction blocks as [|b blocks [IHs IHg]] using rev_ind; [split; [constructor|done]|].
  unfold group_blocks. rewrite fold_left_app. cbn [fold_left]. fold (group_blocks cfg blocks).
  destruct (eligible cfg b) eqn:He.
  - split; [auto with scry|]. intros k. rewrite bt_get_alter, partition_snoc, He by done.
    cbn [andb]. rewrite !IHg. destruct (cmp (partition_key b) k) eqn:E.
    + apply cmp_eq in E as <-. by destruct (partition cfg blocks (partition_key b)).
    + by rewrite app_nil_r.
    + by rewrite app_nil_r.
  - split; [done|]. intros k. rewrite partition_snoc, He. cbn [andb]. by rewrite app_nil_r.
Qed.

Lemma group_blocks_In cfg blocks k l :
  In (k, l) (group_blocks cfg blocks) <-> l = partition cfg blocks k /\ l <> [].
Proof.
  destruct (group_blocks_spec cfg blocks) as [Hs Hg].
  rewrite <- (bt_get_In k l _ Hs), Hg. destruct (partition cfg blocks k) as [|x p].
  - split; [done|]. intros [-> []]. done.
  - split; [intros [= <-]; done|]. by intros [-> _].
Qed.

(** What the plan takes of one partition. *)
Definition merge_of (cfg : CompactConfig) (g : PartitionKey * list CatalogEntry)
    : option PlannedMerge :=
  let '((signal, (_, (date, level))), entries) := g in
  if zlen entries <? fanout cfg then None
  else if MAX_COMPACTED_ANCESTORS <? projected_ancestry_len (smallest cfg entries) then None
  else Some (mkMerge signal date level (smallest cfg entries)).

Definition oversized_of (cfg : CompactConfig) (g : PartitionKey * list CatalogEntry)
    : option OversizedPartition :=
  let '((signal, (_, (date, level))), entries) := g in
  if zlen entries <? fanout cfg then None
  else if MAX_COMPACTED_ANCESTORS <? projected_ancestry_len (smallest cfg entries)
  then Some (mkOversized signal date level (projected_ancestry_len (smallest cfg entries)))
  else None.

Lemma plan_fold cfg gs plan :
  fold_left (plan_partition cfg) gs plan =
  mkPlan (merges plan ++ omap (merge_of cfg) gs) (oversized plan ++ omap (oversized_of cfg) gs).
Proof.
  revert plan. induction gs as [|g gs IH]; intros plan; cbn [fold_left].
  { cbn. rewrite !app_nil_r. by destruct plan. }
  rewrite IH. destruct g as [[sg [v [d l]]] es]. unfold plan_partition, merge_of, oversized_of.
  cbn [omap list_omap]. destruct (zlen es <? fanout cfg); [done|].
  destruct (MAX_COMPACTED_ANCESTORS <? _); cbn [merges oversized]; by rewrite <- app_assoc.
Qed.

Lemma plan_merges_lists cfg blocks :
  merges (plan_merges blocks cfg) = omap (merge_of cfg) (group_blocks cfg blocks) /\
  oversized (plan_merges blocks cfg) = omap (oversized_of cfg) (group_blocks cfg blocks).
Proof. unfold plan_merges. by rewrite plan_fold. Qed.

Lemma take_sorted_cross {A} (R : A -> A -> Prop) n l x y :
  StronglySorted R l -> In x (take n l) -> In y (drop n l) -> R x y.
Proof.
  intros Hs. revert n. induction Hs as [|z l Hs IH HF]; intros [|n]; simpl; try done.
  intros [<-|Hx] Hy; [|by eapply IH]. rewrite List.Forall_forall in HF. apply HF.
  rewrite <- (take_drop n l). apply in_or_app. by right.
Qed.

Lemma projected_ancestry_len_size es :
  projected_ancestry_len es = Z.of_nat (size (ancestry (map meta es))).
Proof.
  unfold projected_ancestry_len. do 2 f_equal.
  assert (forall c : gset Z, fold_left (fun (closure : gset Z) e =>
    closure ∪ {[uuid (meta e)]} ∪ list_to_set (compacted_from (meta e))) es c =
    c ∪ ancestry (map meta es)) as H.
  { induction es as [|e es IH]; intros c; simpl; [by rewrite union_empty_r_L|].
    rewrite IH. set_solver. }
  rewrite H. set_solver.
Qed.

Lemma partition_In cfg blocks k b :
  In b (partition cfg blocks k) <-> In b blocks /\ eligible cfg b = true /\ partition_key b = k.
Proof.
  unfold partition. rewrite List.filter_In, andb_true_iff. split.
  - intros (? & ? & Hc). split_and!; try done. apply cmp_eq. by destruct (cmp _ _).
  - intros (? & ? & <-). by rewrite cmp_refl.
Qed.

Lemma smallest_perm cfg l :
  exists rest, Permutation l (smallest cfg l ++ rest).
Proof.
  exists (drop (Z.to_nat (fanout cfg)) (sort_by_key (fun e => byte_size (meta e)) l)).
  unfold smallest. rewrite take_drop. symmetry. apply sort_by_key_perm.
Qed.

Lemma merge_of_inputs cfg k l m : merge_of cfg (k, l) = Some m -> inputs m = smallest cfg l.
Proof. destruct k as [sg [v [d lv]]]. simpl. repeat case_match; try done. by intros [= <-]. Qed.

(** The inputs of the merges of disjoint partitions are disjoint. *)
Lemma merges_disjoint cfg blocks gs :
  NoDup blocks -> bt_sorted gs ->
  (forall k l, In (k, l) gs -> l = partition cfg blocks k) ->
  NoDup (concat (map inputs (omap (merge_of cfg) gs))).
Proof.
  intros Hn. induction gs as [|[k l] gs IH]; intros Hs Hg; [constructor|].
  inversion Hs as [|? ? Hs' HF]; subst. cbn [omap list_omap].
  assert (NoDup (concat (map inputs (omap (merge_of cfg) gs)))) as IH'.
  { apply IH; [done|]. intros k' l' Hin. apply Hg. by right. }
  destruct (merge_of cfg (k, l)) as [m|] eqn:Em; [|done]. cbn [map concat].
  rewrite (merge_of_inputs _ _ _ _ Em).
  assert (l = partition cfg blocks k) as Hl by (apply Hg; by left).
  destruct (smallest_perm cfg l) as [rest HP]. apply NoDup_app. split_and!; [| |done].
  - assert (NoDup l) as Hnl.
    { rewrite Hl, NoDup_ListNoDup. apply List.NoDup_filter. by apply NoDup_ListNoDup. }
    rewrite HP in Hnl. by apply NoDup_app in Hnl as [? _].
  - intros b Hb Hb'. assert (partition_key b = k) as Hbk.
    { assert (b ∈ l) as Hbl by (rewrite HP; apply elem_of_app; by left).
      rewrite Hl, list_elem_of_In in Hbl. by apply partition_In in Hbl as (_ & _ & ?). }
    apply list_elem_of_In, in_concat in Hb' as (i & Hi & Hbi).
    apply in_map_iff in Hi as (m' & <- & Hm').
    apply list_elem_of_In, list_elem_of_omap in Hm' as ([k' l'] & Hin & Hm').
    apply list_elem_of_In in Hin. rewrite (merge_of_inputs _ _ _ _ Hm') in Hbi.
    destruct (smallest_perm cfg l') as [rest' HP'].
    assert (In b l') as Hbl'.
    { apply list_elem_of_In. rewrite HP'. apply elem_of_app. left. by apply list_elem_of_In. }
    rewrite (Hg k' l' (or_intror Hin)) in Hbl'. apply partition_In in Hbl' as (_ & _ & Hbk').
    rewrite List.Forall_forall in HF. specialize (HF _ Hin). cbn [fst] in HF.
    apply cmp_lt_ne in HF. congruence.
Qed.

(** ** The properties *)

(** A policy is accepted exactly when [fanout >= 2], [max_level >= 1] and the
    complete ancestry of a uniform tree of [max_level] levels,
    [fanout + fanout^2 + ... + fanout^max_level] blocks, fits a sidecar; the
    overflow checks of the loop never decide otherwise. *)
Theorem validate_bounds_ancestry (c : CompactConfig) :
  validate c = Ok tt <->
  2 <= fanout c /\ 1 <= max_level c /\
  geometric (fanout c) (Z.to_nat (max_level c)) <= MAX_COMPACTED_ANCESTORS.
Proof.
  unfold validate. destruct (Z.leb_spec 2 (fanout c)); [|split; [done|lia]].
  destruct (Z.leb_spec 1 (max_level c)); [|split; [done|lia]].
  pose proof (validate_levels_spec (fanout c) 0 (Z.to_nat (max_level c))) as Hv. simpl in Hv.
  rewrite Hv by (unfold MAX_COMPACTED_ANCESTORS; lia). tauto.
Qed.

Lemma merge_of_Some cfg k l m :
  merge_of cfg (k, l) = Some m ->
  exists ver, k = (pm_signal m, (ver, (pm_date m, input_level m))) /\
    fanout cfg <= zlen l /\ inputs m = smallest cfg l /\
    projected_ancestry_len (inputs m) <= MAX_COMPACTED_ANCESTORS.
Proof.
  destruct k as [sg [v [d lv]]]. simpl. destruct (Z.ltb_spec (zlen l) (fanout cfg)); [done|].
  destruct (Z.ltb_spec MAX_COMPACTED_ANCESTORS (projected_ancestry_len (smallest cfg l))); [done|].
  intros [= <-]. by exists v.
Qed.

Lemma merges_In cfg blocks m :
  In m (merges (plan_merges blocks cfg)) <->
  exists k, merge_of cfg (k, partition cfg blocks k) = Some m /\ partition cfg blocks k <> [].
Proof.
  rewrite (proj1 (plan_merges_lists cfg blocks)).
  rewrite <- list_elem_of_In, list_elem_of_omap. split.
  - intros ([k l] & Hin & Hm). apply list_elem_of_In, group_blocks_In in Hin as [-> Hne].
    by exists k.
  - intros (k & Hm & Hne). exists (k, partition cfg blocks k). split; [|done].
    by apply list_elem_of_In, group_blocks_In.
Qed.

(** What a planned merge is: exactly [fanout] live blocks, all eligible (below
    [max_level], of the filtered signal), all of one signal, schema version, date
    and level, and they are the smallest of that partition: the partition is a
    permutation of the inputs and a rest in which no block is smaller than an
    input; the ancestry of the output fits a sidecar. *)
Theorem planned_merge_is_fanout_smallest (cfg : CompactConfig) (blocks : list CatalogEntry)
    (m : PlannedMerge) :
  0 <= fanout cfg -> In m (merges (plan_merges blocks cfg)) ->
  zlen (inputs m) = fanout cfg /\
  projected_ancestry_len (inputs m) <= MAX_COMPACTED_ANCESTORS /\
  exists ver rest,
    (forall b, In b (inputs m) -> In b blocks /\ eligible cfg b = true /\
       signal (meta b) = pm_signal m /\ schema_version (meta b) = ver /\
       date b = pm_date m /\ level b = input_level m /\ level b < max_level cfg) /\
    Permutation (partition cfg blocks (pm_signal m, (ver, (pm_date m, input_level m))))
      (inputs m ++ rest) /\
    (forall x y, In x (inputs m) -> In y rest -> byte_size (meta x) <= byte_size (meta y)).
Proof.
  intros Hf (k & (ver & Hk & Hlen & Hin & Hp)%merge_of_Some & Hne)%merges_In.
  set (p := partition cfg blocks k) in *.
  set (sorted := sort_by_key (fun e => byte_size (meta e)) p).
  assert (Permutation sorted p) as HP by apply sort_by_key_perm.
  assert (inputs m = take (Z.to_nat (fanout cfg)) sorted) as Ht by exact Hin.
  split_and!; [|done|].
  - rewrite Ht. unfold zlen in *. rewrite length_take, HP. lia.
  - exists ver, (drop (Z.to_nat (fanout cfg)) sorted). split_and!.
    + intros b Hb. assert (In b p) as Hbp.
      { apply (Permutation_in _ HP). rewrite <- (take_drop (Z.to_nat (fanout cfg)) sorted).
        apply in_or_app. left. by rewrite <- Ht. }
      apply partition_In in Hbp as (Hbb & He & Hbk). rewrite Hk in Hbk.
      injection Hbk as <- <- <- <-. split_and!; try done.
      unfold eligible in He. apply andb_true_iff in He as [_ He]. lia.
    + rewrite <- Hk, Ht, take_drop. by rewrite HP.
    + intros x y Hx Hy. rewrite Ht in Hx.
      pose proof (take_sorted_cross _ _ _ _ _ (sort_by_key_sorted _ p) Hx Hy) as Hle.
      simpl in Hle. unfold cmp_leb in Hle. cbn [cmp Z_Ord] in Hle.
      destruct (Z.compare_spec (byte_size (meta x)) (byte_size (meta y))); lia || done.
Qed.

(** A pass makes one decision per partition and never merges a block twice:
    every partition with at least [fanout] blocks is planned or reported as
    oversized with its projected ancestry, nothing else is planned, and over
    distinct blocks no block occurs in two merges (or twice in one). *)
Theorem plan_covers_partitions_disjointly (cfg : CompactConfig) (blocks : list CatalogEntry) :
  1 <= fanout cfg -> NoDup blocks ->
  (forall k, let p := partition cfg blocks k in
     let projected := projected_ancestry_len (smallest cfg p) in
     fanout cfg <= zlen p <->
     (exists m, In m (merges (plan_merges blocks cfg)) /\ inputs m = smallest cfg p /\
        merge_of cfg (k, p) = Some m) \/
     (In (mkOversized k.1 k.2.2.1 k.2.2.2 projected) (oversized (plan_merges blocks cfg)) /\
        MAX_COMPACTED_ANCESTORS < projected /\ fanout cfg <= zlen p)) /\
  NoDup (concat (map inputs (merges (plan_merges blocks cfg)))).
Proof.
  intros Hf Hn. split.
  - intros k. cbv zeta. set (p := partition cfg blocks k). split.
    + intros Hlen. assert (p <> []) as Hne by (intros He; rewrite He, zlen_nil in Hlen; lia).
      destruct (merge_of cfg (k, p)) as [m|] eqn:Em.
      * left. exists m. pose proof (merge_of_Some _ _ _ _ Em) as (_ & _ & _ & Hi & _).
        split; [|done]. apply merges_In. by exists k.
      * right. rewrite (proj2 (plan_merges_lists cfg blocks)), <- list_elem_of_In, list_elem_of_omap.
        destruct k as [sg [v [d lv]]]. simpl in Em.
        rewrite (proj2 (Z.ltb_ge (zlen p) (fanout cfg)) Hlen) in Em.
        destruct (Z.ltb_spec MAX_COMPACTED_ANCESTORS (projected_ancestry_len (smallest cfg p)))
          as [Hlt|]; [|done].
        split; [|done]. exists ((sg, (v, (d, lv))), p). split.
        -- by apply list_elem_of_In, group_blocks_In.
        -- simpl. rewrite (proj2 (Z.ltb_ge (zlen p) (fanout cfg)) Hlen).
           by rewrite (proj2 (Z.ltb_lt _ _) Hlt).
    + intros [(m & _ & _ & (_ & _ & ? & _)%merge_of_Some)|(_ & _ & ?)]; done.
  - rewrite (proj1 (plan_merges_lists cfg blocks)).
    destruct (group_blocks_spec cfg blocks) as [Hs _].
    assert (forall k l, In (k, l) (group_blocks cfg blocks) -> l = partition cfg blocks k) as Hg
      by (intros k l [-> _]%group_blocks_In; done).
    by apply (merges_disjoint cfg blocks).
Qed.

(** ** Witnesses *)

Definition demo_entry (u size : Z) : CatalogEntry :=
  mkEntry (mkMeta u "logs" 9 1000 2000 10 size 1 0 [] "0.24" None false None None None false
             None None None None) "bucket" "2026-05-30" 0.

Definition demo_cfg : CompactConfig := mkCompact 2 3 0 None 1.
Definition demo_catalog : list CatalogEntry :=
  [demo_entry 1 500; demo_entry 2 100; demo_entry 3 300].

Lemma planned_merge_is_fanout_smallest_witness :
  zlen (smallest demo_cfg demo_catalog) = 2.
Proof.
  apply (planned_merge_is_fanout_smallest demo_cfg demo_catalog
           (mkMerge "logs" "2026-05-30" 0 (smallest demo_cfg demo_catalog))).
  - simpl. lia.
  - vm_compute. left. reflexivity.
Defined.

Lemma demo_catalog_NoDup : NoDup demo_catalog.
Proof. apply NoDup_ListNoDup. repeat constructor; simpl; intuition discriminate. Qed.

Lemma plan_covers_partitions_disjointly_witness :
  NoDup (concat (map inputs (merges (plan_merges demo_catalog demo_cfg)))).
Proof.
  apply (plan_covers_partitions_disjointly demo_cfg demo_catalog).
  - simpl. lia.
  - exact demo_catalog_NoDup.
Defined.
