(* ===== verification/Retention.v ===== *)
(** * Retention policy

    [crates/retention/src/policy.rs]: which blocks are past the time to live of
    their signal.  A [Duration] is its number of nanoseconds. *)

From S2P Require Import Prelude Order Block Compaction.
From Stdlib Require Import Sorting.Sorted.

Record RetentionConfig := mkRetention {
  default_ttl : option Z;
  overrides : btree string Z;
  retention_grace : Z;
  apply_deletes_flag : bool;
}.

Definition ttl_for (cfg : RetentionConfig) (signal : string) : option Z :=
  match bt_get signal (overrides cfg) with Some t => Some t | None => default_ttl cfg end.

Definition any_ttl_configured (cfg : RetentionConfig) : bool :=
  match default_ttl cfg with Some _ => true | None => false end
  || negb (bool_decide (zlen (overrides cfg) = 0)).

Definition expired (cfg : RetentionConfig) (now_unix_nano : Z) (b : CatalogEntry) : bool :=
  match ttl_for cfg (signal (meta b)) with
  | Some ttl =>
      let ttl_nanos := if ttl <=? u64_max then ttl else u64_max in
      let cutoff := sat_sub now_unix_nano ttl_nanos in
      ts_max_unix_nano (meta b) <? cutoff
  | None => false
  end.

Definition plan_reaping (blocks : list CatalogEntry) (cfg : RetentionConfig)
    (now_unix_nano : Z) : list CatalogEntry :=
  stable_sort (fun a b =>
      match then_with (then_with (cmp (signal (meta a)) (signal (meta b))) (cmp (date a) (date b)))
              (cmp (uuid (meta a)) (uuid (meta b))) with
      | Gt => false | _ => true
      end)
    (List.filter (expired cfg now_unix_nano) blocks).

Lemma expired_iff cfg now b :
  in_u64 now -> in_u64 (ts_max_unix_nano (meta b)) ->
  (forall ttl, ttl_for cfg (signal (meta b)) = Some ttl -> 0 <= ttl) ->
  expired cfg now b = true <->
  exists ttl, ttl_for cfg (signal (meta b)) = Some ttl /\ ts_max_unix_nano (meta b) + ttl < now.
Proof.
  intros Hn Hb Ht. unfold expired. destruct (ttl_for cfg _) as [ttl|]; [|naive_solver].
  specialize (Ht ttl eq_refl). rewrite Z.ltb_lt. unfold in_u64, sat_sub in *. split.
  - intros Hlt. exists ttl. split; [done|]. destruct (Z.leb_spec ttl u64_max); lia.
  - intros (ttl' & [= <-] & Hlt). destruct (Z.leb_spec ttl u64_max); lia.
Qed.

Lemma plan_reaping_sort blocks cfg now :
  plan_reaping blocks cfg now =
  sort_by_key (fun b => ((signal (meta b), date b), uuid (meta b)))
    (List.filter (expired cfg now) blocks).
Proof. reflexivity. Qed.

(** Retention reaps exactly the expired blocks: a block is selected if and only
    if it is live, its signal has a time to live (an override, else the default)
    and its newest record is strictly older than that, computed without
    wrap-around whatever the size of the time to live; without a configured
    time to live nothing is selected. *)
Theorem reaps_exactly_expired (blocks : list CatalogEntry) (cfg : RetentionConfig) (now : Z) :
  in_u64 now ->
  Forall (fun b => in_u64 (ts_max_unix_nano (meta b))) blocks ->
  (forall signal ttl, ttl_for cfg signal = Some ttl -> 0 <= ttl) ->
  (forall b, In b (plan_reaping blocks cfg now) <->
     In b blocks /\ exists ttl, ttl_for cfg (signal (meta b)) = Some ttl /\
       ts_max_unix_nano (meta b) + ttl < now) /\
  (any_ttl_configured cfg = false -> plan_reaping blocks cfg now = []).
Proof.
  intros Hn HF Ht. assert (forall b, In b (plan_reaping blocks cfg now) <->
     In b blocks /\ exists ttl, ttl_for cfg (signal (meta b)) = Some ttl /\
       ts_max_unix_nano (meta b) + ttl < now) as Hiff.
  { intros b. rewrite plan_reaping_sort, sort_by_key_In, List.filter_In.
    rewrite List.Forall_forall in HF. split; intros [Hb He]; (split; [done|]);
      apply (expired_iff cfg now b Hn (HF b Hb) (Ht _)) in He; done. }
  split; [done|]. unfold any_ttl_configured. intros Hno.
  apply orb_false_iff in Hno as [Hd Ho]. apply negb_false_iff, bool_decide_eq_true in Ho.
  destruct (plan_reaping blocks cfg now) as [|b l] eqn:E; [done|]. exfalso.
  destruct (proj1 (Hiff b) ltac:(by left)) as (_ & ttl & Httl & _).
  unfold ttl_for in Httl. destruct (overrides cfg); [|rewrite zlen_cons in Ho; pose proof (zlen_nonneg b0); lia].
  simpl in Httl. by destruct (default_ttl cfg).
Qed.

(** A pass is reproducible and monotone: over blocks with distinct ids the
    selection does not depend on the order of the catalog rows, it is sorted by
    signal, date and id, and a later pass selects at least the same blocks. *)
Theorem reaping_reproducible (blocks blocks' : list CatalogEntry) (cfg : RetentionConfig)
    (now now' : Z) :
  NoDup (map (fun b => uuid (meta b)) blocks) -> Permutation blocks blocks' -> now <= now' ->
  plan_reaping blocks cfg now = plan_reaping blocks' cfg now /\
  StronglySorted (fun a b => cmp_leb ((signal (meta a), date a), uuid (meta a))
                                     ((signal (meta b), date b), uuid (meta b)) = true)
    (plan_reaping blocks cfg now) /\
  (forall b, In b (plan_reaping blocks cfg now) -> In b (plan_reaping blocks cfg now')).
Proof.
  intros Hn HP Hle. rewrite !plan_reaping_sort. split_and!.
  - apply sort_by_key_unique.
    + intros x y [Hx _]%List.filter_In [Hy _]%List.filter_In [= _ _ Heq].
      by apply (NoDup_map_inj (fun b => uuid (meta b)) blocks).
    + induction HP as [|x l l' _ IH|x y l|l1 l2 l3 HP1 IH1 HP2 IH2]; simpl in *; [done| | |].
      * apply NoDup_cons in Hn as [_ Hn]. case_match; by rewrite IH.
      * do 2 case_match; try done. apply Permutation_swap.
      * rewrite IH1 by done. apply IH2. by rewrite <- HP1.
  - apply sort_by_key_sorted.
  - intros b. rewrite !sort_by_key_In, !List.filter_In. intros [Hb He]. split; [done|].
    unfold expired in *. destruct (ttl_for _ _) as [ttl|]; [|done].
    rewrite Z.ltb_lt in *. unfold sat_sub in *. lia.
Qed.

(** ** Witnesses *)

Definition demo_retention : RetentionConfig :=
  mkRetention (Some 500) [("logs", 1000); ("metrics", 100)] 0 false.

Lemma reaps_exactly_expired_witness :
  In (demo_entry 1 500) (plan_reaping demo_catalog demo_retention 5000).
Proof.
  apply (proj1 (reaps_exactly_expired demo_catalog demo_retention 5000
    ltac:(vm_compute; split; discriminate)
    ltac:(repeat constructor; vm_compute; discriminate)
    ltac:(intros sg ttl; unfold ttl_for; simpl;
          repeat case_match; intros; simplify_eq; lia))).
  split; [left; reflexivity|]. exists 1000. split; vm_compute; reflexivity.
Defined.

Lemma reaping_reproducible_witness :
  plan_reaping demo_catalog demo_retention 5000 =
  plan_reaping (rev demo_catalog) demo_retention 5000.
Proof.
  apply (reaping_reproducible demo_catalog (rev demo_catalog) demo_retention 5000 6000).
  - apply NoDup_ListNoDup. repeat constructor; simpl; intuition discriminate.
  - apply Permutation_rev.
  - lia.
Defined.
