(* ===== verification/Bloom.v ===== *)
(** * The body bloom: the full-text skip index of a block

    [crates/block/src/bloom.rs].  A string is its bytes.  Parameters: the seeded
    64-bit hash (twox_hash) and the floating-point part of the sizing formula,
    whose results are only assumed to be in the range of the integer types they
    are cast to.  An operation that would panic (a zero divisor, an index out
    of bounds, windows of width zero) gives [None]. *)

From S2P Require Import Prelude Bytes.

Definition MAGIC : bytes := str "SBLM".
Definition FORMAT_VERSION : Z := 1.
Definition SEED1 : Z := 0.
Definition SEED2 : Z := 0x9E3779B97F4A7C15.
Definition HEADER_LEN : Z := 4 + 1 + 1 + 4 + 8.
Definition BYTES_PER_DISTINCT_GRAM : Z := 40.

Record BodyBloom := mkBloom { ngram : Z; k : Z; m_bits : Z; bits : bytes }.

Record BodyBloomBuilder := mkBuilder {
  b_ngram : Z;
  seen : gset Z;
  grams : list (Z * Z);
}.

(** [slice::windows(n)] for [n > 0]. *)
Fixpoint windows {A} (n : nat) (l : list A) : list (list A) :=
  match l with
  | [] => []
  | _ :: l' => if Nat.leb n (length l) then take n l :: windows n l' else []
  end.

(** The bit position of the [i]-th probe. *)
Definition probe (m h1 h2 i : Z) : Z := wrapping_add h1 (wrapping_mul i h2) mod m.

Definition set_bit (bits : bytes) (pos : Z) : option bytes :=
  b ← bits !! Z.to_nat (pos / 8);
  Some (<[Z.to_nat (pos / 8) := z2b (Z.lor (b2z b) (Z.shiftl 1 (pos mod 8)))]> bits).

Definition test_bit (bits : bytes) (pos : Z) : option bool :=
  b ← bits !! Z.to_nat (pos / 8);
  Some (negb (Z.land (b2z b) (Z.shiftl 1 (pos mod 8)) =? 0)).

(** [for i in 0..k], in [n] steps from [i]. *)
Fixpoint set_gram_loop (m h1 h2 i : Z) (n : nat) (bits : bytes) : option bytes :=
  match n with
  | O => Some bits
  | S n =>
      if m =? 0 then None
      else bits ← set_bit bits (probe m h1 h2 i); set_gram_loop m h1 h2 (i + 1) n bits
  end.

Definition set_gram (bloom : BodyBloom) (h1 h2 : Z) : option BodyBloom :=
  bits ← set_gram_loop (m_bits bloom) h1 h2 0 (Z.to_nat (k bloom)) (bits bloom);
  Some (mkBloom (ngram bloom) (k bloom) (m_bits bloom) bits).

Fixpoint test_gram_loop (m h1 h2 i : Z) (n : nat) (bits : bytes) : option bool :=
  match n with
  | O => Some true
  | S n =>
      if m =? 0 then None
      else
        test_bit bits (probe m h1 h2 i) ≫= fun b : bool =>
        if b then test_gram_loop m h1 h2 (i + 1) n bits else Some false
  end.

Definition test_gram (bloom : BodyBloom) (h1 h2 : Z) : option bool :=
  test_gram_loop (m_bits bloom) h1 h2 0 (Z.to_nat (k bloom)) (bits bloom).

(** ** The sidecar *)

Definition byte_len (b : BodyBloom) : Z := HEADER_LEN + zlen (bits b).

Definition to_bytes_bounded (b : BodyBloom) (max_bytes : Z) : option bytes :=
  if max_bytes <? byte_len b then None
  else Some (MAGIC ++ [z2b FORMAT_VERSION] ++ [z2b (ngram b)] ++ be_bytes 4 (k b)
               ++ be_bytes 8 (m_bits b) ++ bits b).

Definition to_bytes (b : BodyBloom) : option bytes := to_bytes_bounded b usize_max.

Definition from_bytes (buf : bytes) : option BodyBloom :=
  if (zlen buf <? HEADER_LEN) || negb (bool_decide (take 4 buf = MAGIC))
     || negb (bool_decide (nth 4 buf (z2b 0) = z2b FORMAT_VERSION))
  then None
  else
    let ngram := b2z (nth 5 buf (z2b 0)) in
    let k := from_be (take 4 (drop 6 buf)) in
    let m_bits := from_be (take 8 (drop 10 buf)) in
    let expected_bytes := div_ceil m_bits 8 in
    if HEADER_LEN + expected_bytes <=? zlen buf
    then Some (mkBloom ngram k m_bits (take (Z.to_nat expected_bytes) (drop 18 buf)))
    else None.

Section Hashing.
  Context {F : Type} (xxhash : Z -> bytes -> Z).
  Context (m_raw : Z -> F -> Z) (k_raw : Z -> Z -> Z).

Definition hash_pair (gram : bytes) : Z * Z := (xxhash SEED1 gram, xxhash SEED2 gram).

(** [m_raw n p] is [(-(n as f64) * p.ln() / (ln2 * ln2)).ceil() as u64] for the
    clamped [p]; [k_raw m n] is [((m as f64 / n as f64) * ln2).round() as u32]. *)
Definition optimal_params (n : Z) (p : F) : Z * Z :=
  if n =? 0 then (1, 1)
  else
    let m_bits := Z.max (m_raw n p) 1 in
    (m_bits, Z.max (k_raw m_bits n) 1).

Definition builder_new (cfg_ngram : Z) : BodyBloomBuilder :=
  mkBuilder (Z.min (Z.max cfg_ngram 1) u8_max) ∅ [].

Fixpoint add_windows (b : BodyBloomBuilder) (ws : list bytes) (max_bytes : Z)
    : BodyBloomBuilder * bool :=
  match ws with
  | [] => (b, true)
  | window :: ws =>
      let '(h1, h2) := hash_pair window in
      if bool_decide (h1 ∈ seen b) then add_windows b ws max_bytes
      else
        let next_bytes := sat_mul (sat_add (zlen (grams b)) 1) BYTES_PER_DISTINCT_GRAM in
        if max_bytes <? next_bytes then (b, false)
        else add_windows (mkBuilder (b_ngram b) (seen b ∪ {[h1]}) (grams b ++ [(h1, h2)]))
               ws max_bytes
  end.

Definition add_body_bounded (b : BodyBloomBuilder) (body : bytes) (max_bytes : Z)
    : BodyBloomBuilder * bool :=
  if zlen body <? b_ngram b then (b, true)
  else add_windows b (windows (Z.to_nat (b_ngram b)) body) max_bytes.

Definition add_body (b : BodyBloomBuilder) (body : bytes) : BodyBloomBuilder :=
  fst (add_body_bounded b body usize_max).

Definition estimated_bytes (b : BodyBloomBuilder) : Z :=
  sat_mul (zlen (grams b)) BYTES_PER_DISTINCT_GRAM.

Fixpoint set_grams (bloom : BodyBloom) (gs : list (Z * Z)) : option BodyBloom :=
  match gs with
  | [] => Some bloom
  | (h1, h2) :: gs => bloom ← set_gram bloom h1 h2; set_grams bloom gs
  end.

(** The outer option is the panic, the inner one the returned [Option]. *)
Definition finish_bounded (b : BodyBloomBuilder) (target_fpr : F) (max_bytes : Z)
    : option (option BodyBloom) :=
  let n := zlen (grams b) in
  let '(m_bits, k) := optimal_params n target_fpr in
  let bit_bytes := div_ceil m_bits 8 in
  if max_bytes <? sat_add (estimated_bytes b) bit_bytes then Some None
  else
    bloom ← set_grams (mkBloom (b_ngram b mod 2 ^ 8) k m_bits
                         (replicate (Z.to_nat bit_bytes) (z2b 0))) (grams b);
    Some (Some bloom).

(** [finish]: [expect]s the unbounded finalisation. *)
Definition finish (b : BodyBloomBuilder) (target_fpr : F) : option BodyBloom :=
  match finish_bounded b target_fpr usize_max with
  | Some (Some bloom) => Some bloom
  | _ => None
  end.

Definition build_from_bodies (bodies : list bytes) (cfg_ngram : Z) (target_fpr : F)
    : option BodyBloom :=
  finish (fold_left add_body bodies (builder_new cfg_ngram)) target_fpr.

Fixpoint test_windows (bloom : BodyBloom) (ws : list bytes) : option bool :=
  match ws with
  | [] => Some true
  | window :: ws =>
      let '(h1, h2) := hash_pair window in
      test_gram bloom h1 h2 ≫= fun b : bool =>
      if b then test_windows bloom ws else Some false
  end.

Definition contains_pattern (bloom : BodyBloom) (pattern : bytes) : option bool :=
  if zlen pattern <? ngram bloom then Some true
  else if ngram bloom =? 0 then None
  else test_windows bloom (windows (Z.to_nat (ngram bloom)) pattern).

End Hashing.

(** ** Bits *)

Definition bit_set (bits : bytes) (pos : Z) : Prop := test_bit bits pos = Some true.

Lemma shiftl_bit p : 0 <= p < 8 -> 0 < Z.shiftl 1 p < 256.
Proof.
  intros. rewrite Z.shiftl_mul_pow2, Z.mul_1_l by lia. split; [apply Z.pow_pos_nonneg; lia|].
  apply (Z.lt_le_trans _ (2 ^ 8)); [apply Z.pow_lt_mono_r; lia|lia].
Qed.

Lemma land_bit b p : 0 <= p -> (Z.land b (Z.shiftl 1 p) =? 0) = negb (Z.testbit b p).
Proof.
  intros Hp. rewrite Z.shiftl_mul_pow2, Z.mul_1_l by done.
  destruct (Z.testbit b p) eqn:Hb; simpl.
  - apply Z.eqb_neq. intros Hz.
    assert (Z.testbit (Z.land b (2 ^ p)) p = false) as Hf by (rewrite Hz; apply Z.bits_0).
    rewrite Z.land_spec, Hb, Z.pow2_bits_true in Hf; [done|lia].
  - apply Z.eqb_eq, Z.bits_inj'. intros n Hn. rewrite Z.land_spec, Z.bits_0.
    destruct (Z.eq_dec n p) as [->|]; [by rewrite Hb|].
    rewrite (Z.pow2_bits_false p n) by lia. apply andb_false_r.
Qed.

Lemma test_bit_testbit bits pos :
  test_bit bits pos = (fun b => Z.testbit (b2z b) (pos mod 8)) <$> bits !! Z.to_nat (pos / 8).
Proof.
  unfold test_bit. destruct (bits !! _) as [b|]; [|done]. simpl.
  pose proof (Z.mod_pos_bound pos 8). rewrite land_bit by lia. by rewrite negb_involutive.
Qed.

Lemma set_bit_spec bits pos :
  0 <= pos < 8 * zlen bits ->
  exists bits', set_bit bits pos = Some bits' /\ length bits' = length bits /\
    bit_set bits' pos /\ forall p, 0 <= p -> bit_set bits p -> bit_set bits' p.
Proof.
  intros Hp. assert (0 <= pos / 8 < zlen bits) as Hd.
  { split; [apply Z.div_pos; lia|]. apply Z.div_lt_upper_bound; lia. }
  destruct (lookup_lt_is_Some_2 bits (Z.to_nat (pos / 8))) as [b Hb]; [unfold zlen in *; lia|].
  unfold set_bit. rewrite Hb. simpl. eexists. split; [done|]. split; [by rewrite length_insert|].
  assert (b2z (z2b (Z.lor (b2z b) (Z.shiftl 1 (pos mod 8)))) =
          Z.lor (b2z b) (Z.shiftl 1 (pos mod 8))) as Hz.
  { rewrite b2z_z2b. apply Z.mod_small. pose proof (b2z_range b).
    pose proof (shiftl_bit (pos mod 8) ltac:(apply Z.mod_pos_bound; lia)).
    split; [apply Z.lor_nonneg; lia|].
    change 256 with (2 ^ 8). apply Z.log2_lt_cancel. rewrite Z.log2_lor, Z.log2_pow2 by lia.
    apply Z.max_lub_lt; (apply Z.le_lt_trans with (Z.log2 255); [apply Z.log2_le_mono; lia|done]). }
  pose proof (Z.mod_pos_bound pos 8).
  split.
  - unfold bit_set. rewrite test_bit_testbit, list_lookup_insert_eq
      by (apply lookup_lt_is_Some_1; eauto).
    simpl. rewrite Hz, Z.lor_spec, Z.shiftl_mul_pow2, Z.mul_1_l, Z.pow2_bits_true, orb_true_r by lia.
    done.
  - intros p Hp0. unfold bit_set. rewrite !test_bit_testbit.
    destruct (decide (Z.to_nat (pos / 8) = Z.to_nat (p / 8))) as [<-|Hne].
    + rewrite list_lookup_insert_eq, Hb by (apply lookup_lt_is_Some_1; eauto). simpl.
      intros [= Ht]. by rewrite Hz, Z.lor_spec, Ht.
    + by rewrite list_lookup_insert_ne.
Qed.

(** ** Probes *)

Definition probes_set (m h1 h2 i : Z) (n : nat) (bits : bytes) : Prop :=
  forall j, (j < n)%nat -> bit_set bits (probe m h1 h2 (i + Z.of_nat j)).

Lemma probe_range m h1 h2 i : 0 < m -> 0 <= probe m h1 h2 i < m.
Proof. intros. unfold probe. by apply Z.mod_pos_bound. Qed.

(** The bit array is large enough for its parameters. *)
Definition room (m : Z) (bits : bytes) : Prop := 0 < m <= 8 * zlen bits.

Lemma set_gram_loop_spec m h1 h2 i n bits :
  room m bits ->
  exists bits', set_gram_loop m h1 h2 i n bits = Some bits' /\ length bits' = length bits /\
    probes_set m h1 h2 i n bits' /\ forall p, 0 <= p -> bit_set bits p -> bit_set bits' p.
Proof.
  revert i bits. induction n as [|n IH]; intros i bits Hr.
  - exists bits. split_and!; try done. intros j Hj. lia.
  - cbn [set_gram_loop]. rewrite (proj2 (Z.eqb_neq m 0)) by (destruct Hr; lia).
    destruct (set_bit_spec bits (probe m h1 h2 i)) as (b1 & -> & Hl & Hs & Hk).
    { pose proof (probe_range m h1 h2 i). destruct Hr. lia. }
    cbn [mbind option_bind].
    destruct (IH (i + 1) b1) as (b2 & -> & Hl2 & Hp & Hk2).
    { unfold room, zlen in *. by rewrite Hl. }
    exists b2. split; [done|]. split; [congruence|]. split; [|auto].
    intros [|j] Hj.
    + rewrite Z.add_0_r. apply Hk2; [|done]. destruct Hr as [Hr _].
      pose proof (probe_range m h1 h2 i Hr). lia.
    + replace (i + Z.of_nat (S j)) with (i + 1 + Z.of_nat j) by lia. apply Hp. lia.
Qed.

Lemma test_gram_loop_true m h1 h2 i n bits :
  0 < m -> probes_set m h1 h2 i n bits -> test_gram_loop m h1 h2 i n bits = Some true.
Proof.
  intros Hm. revert i. induction n as [|n IH]; intros i Hp; [done|]. cbn [test_gram_loop].
  rewrite (proj2 (Z.eqb_neq m 0)) by lia.
  pose proof (Hp 0%nat ltac:(lia)) as H0. rewrite Z.add_0_r in H0. rewrite H0.
  cbn [mbind option_bind]. apply IH. intros j Hj.
  replace (i + 1 + Z.of_nat j) with (i + Z.of_nat (S j)) by lia. apply Hp. lia.
Qed.

Lemma test_gram_loop_defined m h1 h2 i n bits :
  room m bits -> test_gram_loop m h1 h2 i n bits <> None.
Proof.
  intros Hr. revert i. induction n as [|n IH]; intros i; [done|]. cbn [test_gram_loop].
  rewrite (proj2 (Z.eqb_neq m 0)) by (destruct Hr; lia).
  rewrite test_bit_testbit. destruct (lookup_lt_is_Some_2 bits (Z.to_nat (probe m h1 h2 i / 8)))
    as [b ->].
  { destruct Hr as [Hm Hr]. pose proof (probe_range m h1 h2 i Hm). unfold zlen in *.
    assert (probe m h1 h2 i / 8 < Z.of_nat (length bits)) by (apply Z.div_lt_upper_bound; lia).
    pose proof (Z.div_pos (probe m h1 h2 i) 8). lia. }
  cbn. by destruct (Z.testbit _ _).
Qed.

Lemma set_grams_spec bloom gs :
  room (m_bits bloom) (bits bloom) ->
  exists bloom', set_grams bloom gs = Some bloom' /\
    ngram bloom' = ngram bloom /\ k bloom' = k bloom /\ m_bits bloom' = m_bits bloom /\
    length (bits bloom') = length (bits bloom) /\
    (forall p, 0 <= p -> bit_set (bits bloom) p -> bit_set (bits bloom') p) /\
    forall h1 h2, In (h1, h2) gs ->
      probes_set (m_bits bloom) h1 h2 0 (Z.to_nat (k bloom)) (bits bloom').
Proof.
  revert bloom. induction gs as [|[h1 h2] gs IH]; intros bloom Hr; cbn [set_grams].
  { exists bloom. split_and!; done. }
  unfold set_gram. destruct (set_gram_loop_spec (m_bits bloom) h1 h2 0 (Z.to_nat (k bloom))
    (bits bloom) Hr) as (b1 & -> & Hl & Hp & Hk). cbn [mbind option_bind].
  destruct (IH (mkBloom (ngram bloom) (k bloom) (m_bits bloom) b1))
    as (b2 & -> & ? & ? & ? & Hl2 & Hk2 & Hp2); cbn [ngram k m_bits bits] in *.
  { unfold room, zlen in *. by rewrite Hl. }
  exists b2. split_and!; try done; [congruence|auto|].
  intros g1 g2 [[= -> ->]|Hin]; [|by apply Hp2].
  intros j Hj. apply Hk2; [|by apply Hp]. destruct Hr as [Hr _].
  pose proof (probe_range (m_bits bloom) g1 g2 (0 + Z.of_nat j) Hr). lia.
Qed.

(** ** Grams *)

Lemma windows_In {A} n (l w : list A) :
  (0 < n)%nat -> In w (windows n l) <-> exists p q, l = p ++ w ++ q /\ length w = n.
Proof.
  intros Hn. induction l as [|x l IH]; cbn [windows].
  - split; [done|]. intros (p & q & Heq & Hw).
    symmetry in Heq. apply app_nil in Heq as [_ [-> _]%app_nil]. simpl in Hw. lia.
  - destruct (Nat.leb_spec n (length (x :: l))) as [Hle|Hgt]; cbn [In].
    + rewrite IH. split.
      * intros [<-|(p & q & -> & Hw)].
        -- exists [], (drop n (x :: l)). rewrite length_take. split; [|lia].
           cbn [app]. by rewrite take_drop.
        -- by exists (x :: p), q.
      * intros ([|y p] & q & Heq & Hw).
        -- left. cbn [app] in Heq. rewrite Heq, <- Hw, take_app_length. done.
        -- right. injection Heq as -> ->. eauto.
    + split; [done|]. intros (p & q & Heq & Hw). rewrite Heq, !length_app in Hgt. lia.
Qed.

Section Builder.
  Context (xxhash : Z -> bytes -> Z).

(** [gs] are the windows added so far. *)
Record builder_inv (b : BodyBloomBuilder) (gs : list bytes) : Prop := {
  bi_seen h : h ∈ seen b <-> exists g, In g gs /\ h = fst (hash_pair xxhash g);
  bi_grams h1 h2 : In (h1, h2) (grams b) -> exists g, In g gs /\ (h1, h2) = hash_pair xxhash g;
  bi_cover h : h ∈ seen b -> exists h2, In (h, h2) (grams b);
}.

Lemma add_windows_inv b gs ws mx :
  builder_inv b gs ->
  snd (add_windows xxhash b ws mx) = true ->
  builder_inv (fst (add_windows xxhash b ws mx)) (gs ++ ws).
Proof.
  revert b gs. induction ws as [|w ws IH]; intros b gs Hi; cbn [add_windows].
  { by rewrite app_nil_r. }
  destruct (hash_pair xxhash w) as [h1 h2] eqn:Hh. destruct Hi as [Hs Hg Hc].
  replace (gs ++ w :: ws) with ((gs ++ [w]) ++ ws) by (by rewrite <- app_assoc).
  case_bool_decide as Hin.
  - apply IH. constructor.
    + intros h. rewrite Hs. split; [intros (g & ? & ?); exists g; rewrite in_app_iff; auto|].
      intros (g & [Hg'|[<-|[]]]%in_app_or & ->); [eauto|].
      rewrite Hh. simpl. by apply Hs.
    + intros a c (g & ? & ?)%Hg. exists g. rewrite in_app_iff. auto.
    + done.
  - case_match; [done|]. apply IH. constructor; cbn [seen grams].
    + intros h. rewrite elem_of_union, elem_of_singleton, Hs. split.
      * intros [(g & ? & ->)| ->]; [exists g; rewrite in_app_iff; auto|].
        exists w. rewrite Hh, in_app_iff. split; [right; by left|done].
      * intros (g & [Hg'|[<-|[]]]%in_app_or & ->); [eauto|]. right. by rewrite Hh.
    + intros a c [(g & ? & ?)%Hg|[[= <- <-]|[]]]%in_app_or.
      * exists g. rewrite in_app_iff. auto.
      * exists w. rewrite Hh, in_app_iff. split; [right; by left|done].
    + intros h [Hh'|Hh']%elem_of_union.
      * destruct (Hc h Hh') as [c ?]. exists c. rewrite in_app_iff. auto.
      * apply elem_of_singleton in Hh' as ->. exists h2. rewrite in_app_iff. right. by left.
Qed.

Lemma add_windows_unbounded b ws : snd (add_windows xxhash b ws usize_max) = true.
Proof.
  revert b. induction ws as [|w ws IH]; intros b; cbn [add_windows]; [done|].
  destruct (hash_pair xxhash w) as [h1 h2]. case_bool_decide; [done|].
  rewrite (proj2 (Z.ltb_ge _ _)); [done|]. unfold sat_mul, usize_max. lia.
Qed.

Lemma add_windows_ngram b ws mx : b_ngram (fst (add_windows xxhash b ws mx)) = b_ngram b.
Proof.
  revert b. induction ws as [|w ws IH]; intros b; cbn [add_windows]; [done|].
  destruct (hash_pair xxhash w). repeat case_match; auto. by rewrite IH.
Qed.

Lemma add_body_ngram b body : b_ngram (add_body xxhash b body) = b_ngram b.
Proof. unfold add_body, add_body_bounded. case_match; [done|]. apply add_windows_ngram. Qed.

Definition body_grams (n : Z) (body : bytes) : list bytes :=
  if zlen body <? n then [] else windows (Z.to_nat n) body.

Lemma add_body_inv b gs body :
  builder_inv b gs -> builder_inv (add_body xxhash b body) (gs ++ body_grams (b_ngram b) body).
Proof.
  intros Hi. unfold add_body, add_body_bounded, body_grams.
  case_match; [by rewrite app_nil_r|]. apply add_windows_inv; [done|]. apply add_windows_unbounded.
Qed.

Lemma add_bodies_inv bodies b gs :
  builder_inv b gs ->
  builder_inv (fold_left (add_body xxhash) bodies b)
    (gs ++ concat (map (body_grams (b_ngram b)) bodies)) /\
  b_ngram (fold_left (add_body xxhash) bodies b) = b_ngram b.
Proof.
  revert b gs. induction bodies as [|body bodies IH]; intros b gs Hi; cbn [fold_left map concat].
  { by rewrite app_nil_r. }
  destruct (IH _ _ (add_body_inv b gs body Hi)) as [Hi' Hn].
  rewrite add_body_ngram in Hi', Hn. by rewrite <- app_assoc in Hi'.
Qed.
End Builder.

(** ** The properties *)

Lemma room_replicate m : 1 <= m -> room m (replicate (Z.to_nat (div_ceil m 8)) (z2b 0)).
Proof.
  intros Hm. unfold room, zlen. rewrite length_replicate.
  pose proof (div_ceil_spec m 8). lia.
Qed.

Lemma optimal_params_pos {F} m_raw k_raw n (p : F) :
  1 <= fst (optimal_params m_raw k_raw n p) /\ 1 <= snd (optimal_params m_raw k_raw n p).
Proof. unfold optimal_params. case_match; simpl; lia. Qed.

(** Finalisation always succeeds and sets every accumulated gram. *)
Lemma finish_spec {F} m_raw k_raw b (fpr : F) :
  exists bloom, finish m_raw k_raw b fpr = Some bloom /\ ngram bloom = b_ngram b mod 2 ^ 8 /\
    1 <= m_bits bloom /\
    forall h1 h2, In (h1, h2) (grams b) ->
      probes_set (m_bits bloom) h1 h2 0 (Z.to_nat (k bloom)) (bits bloom).
Proof.
  unfold finish, finish_bounded. pose proof (optimal_params_pos m_raw k_raw (zlen (grams b)) fpr) as Hp.
  destruct (optimal_params m_raw k_raw (zlen (grams b)) fpr) as [m kk]. cbn [fst snd] in Hp.
  rewrite (proj2 (Z.ltb_ge _ _)) by (unfold sat_add, usize_max; lia).
  destruct (set_grams_spec (mkBloom (b_ngram b mod 2 ^ 8) kk m
    (replicate (Z.to_nat (div_ceil m 8)) (z2b 0))) (grams b)) as (bl & -> & Hn & Hk & Hm & _ & _ & Hs).
  { cbn [m_bits bits]. apply room_replicate. lia. }
  cbn [ngram k m_bits] in *. exists bl. split; [reflexivity|].
  split; [exact Hn|]. split; [rewrite Hm; lia|]. by rewrite Hm, Hk.
Qed.

Lemma test_windows_true xxhash bloom ws :
  (forall w, In w ws -> test_gram bloom (fst (hash_pair xxhash w)) (snd (hash_pair xxhash w)) = Some true) ->
  test_windows xxhash bloom ws = Some true.
Proof.
  induction ws as [|w ws IH]; intros Hw; cbn [test_windows]; [done|].
  pose proof (Hw w ltac:(by left)) as H0. destruct (hash_pair xxhash w) as [h1 h2].
  cbn [fst snd] in H0. rewrite H0. cbn [mbind option_bind]. apply IH. intros. apply Hw. by right.
Qed.

(** C32. The skip index has no false negatives as long as no two byte n-grams of the
    bodies agree on the first hash and differ on the second: then building the filter
    succeeds, and every pattern that occurs in one of the bodies tests as
    possibly present, whatever the sizing formula and the hash. *)
Theorem bloom_no_false_negatives {F} xxhash m_raw k_raw (bodies : list bytes) (cfg_ngram : Z)
    (fpr : F) :
  (forall g g', let gs := concat (map (body_grams (Z.min (Z.max cfg_ngram 1) u8_max)) bodies) in
     In g gs -> In g' gs -> fst (hash_pair xxhash g) = fst (hash_pair xxhash g') ->
     hash_pair xxhash g = hash_pair xxhash g') ->
  exists bloom, build_from_bodies xxhash m_raw k_raw bodies cfg_ngram fpr = Some bloom /\
    forall pre pattern post, In (pre ++ pattern ++ post) bodies ->
      contains_pattern xxhash bloom pattern = Some true.
Proof.
  cbv zeta. set (n := Z.min (Z.max cfg_ngram 1) u8_max). intros Hinj.
  assert (1 <= n < 2 ^ 8) as Hn by (unfold n, u8_max; lia).
  destruct (add_bodies_inv xxhash bodies (builder_new cfg_ngram) []) as [[Hs Hg Hc] Hb].
  { constructor; cbn; [set_solver|done|set_solver]. }
  cbn [app builder_new b_ngram] in *. fold n in Hs, Hg, Hc, Hb.
  unfold build_from_bodies.
  destruct (finish_spec m_raw k_raw (fold_left (add_body xxhash) bodies (builder_new cfg_ngram)) fpr)
    as (bloom & -> & Hng & Hm & Hp).
  exists bloom. split; [done|]. intros pre pat post Hin. unfold contains_pattern.
  rewrite Hng, Hb, Z.mod_small by lia.
  destruct (Z.ltb_spec (zlen pat) n) as [|Hlen]; [done|].
  rewrite (proj2 (Z.eqb_neq n 0)) by lia. apply test_windows_true. intros w Hw.
  apply windows_In in Hw as (p & q & -> & Hl); [|lia].
  assert (In w (concat (map (body_grams n) bodies))) as Hwg.
  { apply in_concat. exists (body_grams n (pre ++ (p ++ w ++ q) ++ post)). split; [by apply in_map|].
    unfold body_grams. rewrite (proj2 (Z.ltb_ge _ _)).
    - apply windows_In; [lia|]. exists (pre ++ p), (q ++ post). by rewrite <- !app_assoc.
    - rewrite !zlen_app in *. pose proof (zlen_nonneg pre). pose proof (zlen_nonneg post). lia. }
  unfold test_gram. apply test_gram_loop_true; [lia|].
  destruct (Hc (fst (hash_pair xxhash w))) as [h2 Hh2].
  { apply Hs. eauto. }
  assert (h2 = snd (hash_pair xxhash w)) as ->; [|by apply Hp].
  destruct (Hg _ _ Hh2) as (g & Hgin & Heq).
  assert (hash_pair xxhash g = hash_pair xxhash w) as Hgw
    by (apply Hinj; [done|done|by rewrite <- Heq]).
  by rewrite <- Hgw, <- Heq.
Qed.

Definition bloom_wf (b : BodyBloom) : Prop :=
  in_u8 (ngram b) /\ in_u32 (k b) /\ in_u64 (m_bits b) /\ zlen (bits b) = div_ceil (m_bits b) 8.

(** The sidecar round trips: a well-formed filter serialises, to exactly
    [byte_len] bytes, and parsing these bytes, also with others after them, gives
    the same filter back. *)
Theorem bloom_sidecar_roundtrip (b : BodyBloom) (rest : bytes) :
  bloom_wf b ->
  exists buf, to_bytes b = Some buf /\ zlen buf = byte_len b /\ from_bytes (buf ++ rest) = Some b.
Proof.
  intros (Hn & Hk & Hm & Hl). unfold to_bytes, to_bytes_bounded.
  pose proof (div_ceil_spec (m_bits b) 8 ltac:(lia)) as Hd.
  rewrite (proj2 (Z.ltb_ge _ _)).
  2:{ unfold byte_len, HEADER_LEN. rewrite Hl. unfold usize_max, in_u64, u64_max in *. lia. }
  eexists. split; [reflexivity|]. split.
  { rewrite !zlen_app. unfold byte_len, zlen, HEADER_LEN. rewrite !length_be_bytes.
    change (length MAGIC) with 4%nat. cbn [length]. lia. }
  unfold from_bytes. rewrite <- !app_assoc.
  set (buf := MAGIC ++ _).
  assert (zlen buf = HEADER_LEN + zlen (bits b) + zlen rest) as Hz.
  { unfold buf. rewrite !zlen_app. unfold zlen. rewrite !length_be_bytes. unfold HEADER_LEN.
    change (length MAGIC) with 4%nat. cbn [length]. lia. }
  pose proof (zlen_nonneg rest) as Hr. pose proof (zlen_nonneg (bits b)) as Hbb.
  rewrite (proj2 (Z.ltb_ge (zlen buf) _)) by lia.
  change (take 4 buf) with MAGIC. change (nth 4 buf (z2b 0)) with (z2b FORMAT_VERSION).
  change (nth 5 buf (z2b 0)) with (z2b (ngram b)).
  rewrite !bool_decide_eq_true_2 by done. cbn [orb negb].
  change (drop 6 buf) with (be_bytes 4 (k b) ++ be_bytes 8 (m_bits b) ++ bits b ++ rest).
  replace (drop 10 buf) with (be_bytes 8 (m_bits b) ++ bits b ++ rest).
  2:{ change (drop 10 buf) with (drop 4 (be_bytes 4 (k b) ++ be_bytes 8 (m_bits b) ++ bits b ++ rest)).
      by rewrite drop_be_bytes. }
  replace (drop 18 buf) with (bits b ++ rest).
  2:{ change (drop 18 buf) with (drop (4 + 8) (be_bytes 4 (k b) ++ be_bytes 8 (m_bits b) ++ bits b ++ rest)).
      by rewrite <- drop_drop, !drop_be_bytes. }
  rewrite !take_be_bytes, b2z_z2b.
  rewrite !from_be_be_bytes_id by (unfold in_u32, in_u64, u32_max, u64_max in *; lia).
  rewrite (Z.mod_small (ngram b)) by (unfold in_u8, u8_max in *; lia).
  rewrite <- Hl, Hz, (proj2 (Z.leb_le _ _)) by lia.
  unfold zlen. rewrite Nat2Z.id, take_app_length. by destruct b.
Qed.

Lemma from_bytes_room buf b :
  from_bytes buf = Some b -> 0 <= k b /\ 0 <= ngram b /\ (m_bits b = 0 \/ room (m_bits b) (bits b)).
Proof.
  unfold from_bytes. case_match; [done|]. case_match eqn:Hlen; [|done]. intros [= <-].
  cbn [k ngram m_bits bits]. apply Z.leb_le in Hlen.
  pose proof (from_be_range (take 4 (drop 6 buf))). pose proof (b2z_range (nth 5 buf (z2b 0))).
  pose proof (from_be_range (take 8 (drop 10 buf))) as Hm.
  split; [lia|]. split; [lia|].
  set (m := from_be (take 8 (drop 10 buf))) in *. destruct (Z.eq_dec m 0); [by left|right].
  unfold room. split; [lia|]. pose proof (div_ceil_spec m 8 ltac:(lia)).
  unfold zlen in *. rewrite length_take, length_drop. unfold HEADER_LEN in *. lia.
Qed.

Lemma test_windows_defined xxhash bloom ws :
  room (m_bits bloom) (bits bloom) -> test_windows xxhash bloom ws <> None.
Proof.
  intros Hr. induction ws as [|w ws IH]; cbn [test_windows]; [done|].
  destruct (hash_pair xxhash w) as [h1 h2].
  pose proof (test_gram_loop_defined (m_bits bloom) h1 h2 0 (Z.to_nat (k bloom)) (bits bloom) Hr) as Hd.
  unfold test_gram. destruct (test_gram_loop _ _ _ _ _ _) as [[]|]; done.
Qed.

Lemma test_windows_no_probes xxhash bloom ws :
  Z.to_nat (k bloom) = 0%nat -> test_windows xxhash bloom ws = Some true.
Proof.
  intros Hk. apply test_windows_true. intros. unfold test_gram. by rewrite Hk.
Qed.

(** C39. Exactly which parsed sidecars can be probed: whatever the bytes, a filter
    that [from_bytes] accepts answers every pattern without a panic if and only
    if its n-gram width is not zero and it has bits (or probes nothing).  The
    parser does not reject the other two cases. *)
Theorem parsed_bloom_probe_defined xxhash (buf : bytes) (b : BodyBloom) :
  from_bytes buf = Some b ->
  (forall pattern, contains_pattern xxhash b pattern <> None) <->
  (ngram b <> 0 /\ (m_bits b <> 0 \/ k b = 0)).
Proof.
  intros (Hk & Hn & Hr)%from_bytes_room. split.
  - intros Hd. assert (ngram b <> 0) as Hne.
    { intros Hz. specialize (Hd []). unfold contains_pattern in Hd. by rewrite Hz in Hd. }
    split; [done|]. destruct (Z.eq_dec (m_bits b) 0) as [Hm|]; [|by left]. right.
    destruct (Z.eq_dec (k b) 0) as [|Hkz]; [done|]. exfalso.
    apply (Hd (replicate (Z.to_nat (ngram b)) (z2b 0))). unfold contains_pattern, zlen.
    rewrite length_replicate, (proj2 (Z.ltb_ge _ _)) by lia.
    rewrite (proj2 (Z.eqb_neq _ _) Hne).
    destruct (Z.to_nat (ngram b)) as [|n] eqn:En; [lia|]. cbn [replicate windows].
    rewrite (proj2 (Nat.leb_le _ _)) by (cbn [length]; rewrite length_replicate; lia).
    cbn [test_windows]. destruct (hash_pair xxhash _) as [h1 h2]. unfold test_gram.
    destruct (Z.to_nat (k b)) as [|kk] eqn:Ek; [lia|]. cbn [test_gram_loop]. by rewrite Hm.
  - intros [Hne Hor] pattern. unfold contains_pattern. case_match; [done|].
    rewrite (proj2 (Z.eqb_neq _ _) Hne). destruct Hr as [Hm|Hr]; [|by apply test_windows_defined].
    destruct Hor as [?|Hk0]; [done|]. rewrite test_windows_no_probes; [done|]. by rewrite Hk0.
Qed.

Lemma add_windows_bound xxhash b ws mx :
  estimated_bytes b <= mx -> estimated_bytes (fst (add_windows xxhash b ws mx)) <= mx.
Proof.
  revert b. induction ws as [|w ws IH]; intros b Hb; cbn [add_windows]; [done|].
  destruct (hash_pair xxhash w) as [h1 h2]. case_bool_decide; [by apply IH|].
  destruct (Z.ltb_spec mx (sat_mul (sat_add (zlen (grams b)) 1) BYTES_PER_DISTINCT_GRAM)) as [|Hle];
    [done|].
  apply IH. unfold estimated_bytes. cbn [grams]. rewrite zlen_app, zlen_cons, zlen_nil.
  pose proof (zlen_nonneg (grams b)). unfold sat_mul, sat_add, BYTES_PER_DISTINCT_GRAM in *.
  unfold u64_max in *. lia.
Qed.

(** The bounded build keeps its memory bound: feeding a body never takes the
    accumulator estimate past the bound it was below, and finalisation under a
    bound returns a filter only when accumulator and bit array fit together; the
    filter it returns is well formed and its bit array has the size announced. *)
Theorem bloom_bounded_build {F} xxhash m_raw k_raw b body (fpr : F) mx :
  (forall n p, in_u64 (m_raw n p)) -> (forall m n, in_u32 (k_raw m n)) -> in_u8 (b_ngram b) ->
  (estimated_bytes b <= mx -> estimated_bytes (fst (add_body_bounded xxhash b body mx)) <= mx) /\
  (forall bloom, finish_bounded m_raw k_raw b fpr mx = Some (Some bloom) ->
     mx < u64_max -> estimated_bytes b + zlen (bits bloom) <= mx) /\
  (forall bloom, finish_bounded m_raw k_raw b fpr mx = Some (Some bloom) -> bloom_wf bloom) /\
  finish_bounded m_raw k_raw b fpr mx <> None.
Proof.
  intros Hm Hk Hn. split.
  { unfold add_body_bounded. case_match; [done|]. apply add_windows_bound. }
  unfold finish_bounded. pose proof (optimal_params_pos m_raw k_raw (zlen (grams b)) fpr) as Hp.
  assert (in_u64 (fst (optimal_params m_raw k_raw (zlen (grams b)) fpr)) /\
          in_u32 (snd (optimal_params m_raw k_raw (zlen (grams b)) fpr))) as [Hmr Hkr].
  { unfold optimal_params. case_match; simpl; [by vm_compute|].
    pose proof (Hm (zlen (grams b)) fpr). pose proof (Hk (Z.max (m_raw (zlen (grams b)) fpr) 1) (zlen (grams b))).
    ints. }
  destruct (optimal_params m_raw k_raw (zlen (grams b)) fpr) as [m kk]. cbn [fst snd] in *.
  case_match eqn:Hmx; [done|]. apply Z.ltb_ge in Hmx.
  destruct (set_grams_spec (mkBloom (b_ngram b mod 2 ^ 8) kk m
    (replicate (Z.to_nat (div_ceil m 8)) (z2b 0))) (grams b)) as (bl & -> & Hng & Hkk & Hmm & Hl & _).
  { cbn [m_bits bits]. apply room_replicate. lia. }
  cbn [ngram k m_bits bits mbind option_bind] in *.
  pose proof (div_ceil_nonneg m 8 ltac:(lia) ltac:(lia)).
  assert (zlen (bits bl) = div_ceil m 8) as Hz.
  { unfold zlen. rewrite Hl, length_replicate. lia. }
  split_and!; [| |done].
  - intros bloom [= <-] ?. unfold sat_add in Hmx. rewrite Hz. lia.
  - intros bloom [= <-]. unfold bloom_wf. rewrite Hng, Hkk, Hmm, Hz. split_and!; try done.
    + pose proof (Z.mod_pos_bound (b_ngram b) (2 ^ 8)). unfold in_u8, u8_max. lia.
Qed.

(** ** Witnesses *)

(** A toy hash: the bytes as a number, shifted by the seed. *)
Definition demo_hash (seed : Z) (g : bytes) : Z := wrapping_add seed (from_be g).
Definition demo_m (n : Z) (p : unit) : Z := Z.max 0 (Z.min (10 * n) 1000).
Definition demo_k (m n : Z) : Z := 3.

Definition demo_bodies : list bytes := [str "connection refused"; str "ok"].

Lemma bloom_no_false_negatives_witness :
  exists bloom, build_from_bodies demo_hash demo_m demo_k demo_bodies 3 tt = Some bloom /\
    contains_pattern demo_hash bloom (str "refused") = Some true.
Proof.
  destruct (bloom_no_false_negatives demo_hash demo_m demo_k demo_bodies 3 tt) as (bloom & Hb & Hc).
  - intros g g' gs Hg Hg' Heq. unfold hash_pair, demo_hash in *. cbn [fst] in Heq.
    f_equal; [exact Heq|]. unfold wrapping_add, wrap64 in *.
    rewrite (Z.add_mod SEED2 (from_be g)), (Z.add_mod SEED2 (from_be g')) by discriminate.
    unfold SEED1 in Heq. rewrite !Z.add_0_l in Heq. rewrite Heq. reflexivity.
  - exists bloom. split; [exact Hb|]. apply (Hc (str "connection ") (str "refused") []).
    left. vm_compute. reflexivity.
Defined.

Lemma bloom_sidecar_roundtrip_witness :
  exists buf, to_bytes (mkBloom 3 7 12 [z2b 5; z2b 9]) = Some buf /\
    from_bytes (buf ++ str "tail") = Some (mkBloom 3 7 12 [z2b 5; z2b 9]).
Proof.
  destruct (bloom_sidecar_roundtrip (mkBloom 3 7 12 [z2b 5; z2b 9]) (str "tail"))
    as (buf & H1 & _ & H2).
  - unfold bloom_wf. vm_compute. repeat split; discriminate.
  - exists buf. split; [exact H1|exact H2].
Defined.

(** A sidecar of zero bits with one probe: accepted, and not probeable. *)
Definition zero_bits_sidecar : bytes :=
  MAGIC ++ [z2b 1; z2b 3] ++ be_bytes 4 1 ++ be_bytes 8 0.

Lemma parsed_bloom_probe_defined_witness :
  ~ (forall pattern, contains_pattern demo_hash (mkBloom 3 1 0 []) pattern <> None).
Proof.
  intros Hd.
  apply (parsed_bloom_probe_defined demo_hash zero_bits_sidecar (mkBloom 3 1 0 [])
           ltac:(vm_compute; reflexivity)) in Hd.
  destruct Hd as [_ [Hd|Hd]]; cbn in Hd; congruence.
Defined.

Lemma bloom_bounded_build_witness :
  finish_bounded demo_m demo_k (builder_new 3) tt 100 <> None.
Proof.
  apply (bloom_bounded_build demo_hash demo_m demo_k (builder_new 3) (str "abcd") tt 100).
  - intros n p. unfold demo_m. ints.
  - intros m n. vm_compute. split; discriminate.
  - vm_compute. split; discriminate.
Defined.
