(* ===== verification/Layout.v ===== *)
(** * Ownership of object-storage keys

    [crates/storage-layout/src/lib.rs]: which keys of the bucket belong to the
    control plane. *)

From Stdlib Require Import Ascii.
From S2P Require Import Prelude.

Definition CATALOG_CONTROL_ROOT : string := "_catalog".
Definition SCRY_CONTROL_ROOT : string := "_scry".

Inductive ObjectNamespace :=
| Telemetry
| CatalogControl
| ScryControl (subsystem : option string).

(** [str::split('/')]: never empty. *)
Fixpoint split_slash (s : string) : list string :=
  match s with
  | EmptyString => [""]
  | String c s =>
      if Ascii.eqb c "/"%char then "" :: split_slash s
      else match split_slash s with
           | seg :: segs => String c seg :: segs
           | [] => [String c ""]
           end
  end.

Definition classify_object_key (key : string) : ObjectNamespace :=
  match split_slash key with
  | [] => Telemetry
  | first :: segments =>
      if (first =? CATALOG_CONTROL_ROOT)%string then CatalogControl
      else if (first =? SCRY_CONTROL_ROOT)%string
      then ScryControl (match segments with
                        | seg :: _ => if (seg =? "")%string then None else Some seg
                        | [] => None
                        end)
      else Telemetry
  end.

Definition is_reserved_control_key (key : string) : bool :=
  match classify_object_key key with Telemetry => false | _ => true end.

Definition is_reserved_control_prefix (prefix : string) : bool :=
  let first := match split_slash prefix with seg :: _ => seg | [] => "" end in
  (first =? CATALOG_CONTROL_ROOT)%string || (first =? SCRY_CONTROL_ROOT)%string.

(** The key is the root itself or lies below it. *)
Definition under (root key : string) : Prop := key = root \/ exists rest, key = root +:+ "/" +:+ rest.

Fixpoint has_slash (s : string) : bool :=
  match s with EmptyString => false | String c s => Ascii.eqb c "/"%char || has_slash s end.

Lemma split_slash_cons s : exists seg segs, split_slash s = seg :: segs.
Proof.
  induction s as [|c s (seg & segs & IH)]; simpl; [eauto|]. rewrite IH. case_match; eauto.
Qed.

Lemma split_slash_first root key :
  has_slash root = false ->
  (exists segs, split_slash key = root :: segs) <-> under root key.
Proof.
  unfold under. revert key. induction root as [|c root IH]; intros key Hr; simpl in *.
  - destruct key as [|d key]; simpl.
    + split; [by left|]. eauto.
    + destruct (Ascii.eqb_spec d "/"%char) as [->|Hd].
      * split; [|eauto]. right. eauto.
      * destruct (split_slash_cons key) as (seg & segs & ->). split; [by intros [? [=]]|].
        intros [?|[rest [= -> _]]]; done.
  - apply orb_false_iff in Hr as [Hc Hr]. destruct key as [|d key]; simpl.
    + split; [by intros [? [=]]|]. intros [?|[? [=]]]; done.
    + specialize (IH key Hr). destruct (Ascii.eqb_spec d "/"%char) as [->|Hd].
      * split; [by intros [? [=]]|]. intros [[= <- _]|[? [= <- _]]]; by rewrite Ascii.eqb_refl in Hc.
      * destruct (split_slash_cons key) as (seg & segs & Hs). rewrite Hs in *. split.
        -- intros [segs' [= -> -> _]]. destruct (proj1 IH) as [->|[rest ->]]; eauto.
        -- intros [[= -> ->]|[rest [= -> ->]]].
           ++ destruct (proj2 IH) as [segs' [= -> _]]; eauto.
           ++ destruct (proj2 IH) as [segs' [= -> _]]; eauto.
Qed.

(** Control keys are exactly the two roots and what lies below them, by whole
    path segments: a key is reserved if and only if it is [_catalog] or [_scry]
    or starts with one of them and a slash, the prefix test agrees with it, and
    no other key (such as [_scryevil/...]) is. *)
Theorem reserved_keys_exact (key : string) :
  (is_reserved_control_key key = true <->
     under CATALOG_CONTROL_ROOT key \/ under SCRY_CONTROL_ROOT key) /\
  is_reserved_control_prefix key = is_reserved_control_key key /\
  (classify_object_key key = CatalogControl <-> under CATALOG_CONTROL_ROOT key).
Proof.
  rewrite <- !split_slash_first by done.
  unfold is_reserved_control_key, is_reserved_control_prefix, classify_object_key.
  destruct (split_slash_cons key) as (seg & segs & ->).
  destruct (String.eqb_spec seg CATALOG_CONTROL_ROOT) as [->|H1].
  { split_and!; [|done|]; split; eauto. }
  destruct (String.eqb_spec seg SCRY_CONTROL_ROOT) as [->|H2].
  { split_and!; [|done|]; split; eauto; [done|]. by intros [? [=]]. }
  split_and!; [|done|]; split; try done; naive_solver.
Qed.
