(* ===== verification/Utf8.v ===== *)
(** * UTF-8

    A Rust [String] is the list of its bytes, well formed when [valid_utf8] holds of
    them.  [chars] are its Unicode scalar values, [encode_utf8] the bytes of one. *)

From S2P Require Import Prelude Bytes.

(** [str::from_utf8]: the well-formed byte sequences of Unicode, table 3-7. *)
Definition between (lo hi : Z) (b : u8) : bool := (lo <=? b2z b) && (b2z b <=? hi).

Fixpoint valid_utf8 (l : bytes) : bool :=
  match l with
  | [] => true
  | a :: l1 =>
      if between 0 0x7F a then valid_utf8 l1
      else
        match l1 with
        | [] => false
        | b :: l2 =>
            if between 0xC2 0xDF a then between 0x80 0xBF b && valid_utf8 l2
            else
              match l2 with
              | [] => false
              | c :: l3 =>
                  if between 0xE0 0xEF a then
                    between (if b2z a =? 0xE0 then 0xA0 else 0x80)
                      (if b2z a =? 0xED then 0x9F else 0xBF) b
                    && between 0x80 0xBF c && valid_utf8 l3
                  else
                    match l3 with
                    | [] => false
                    | d :: l4 =>
                        between 0xF0 0xF4 a
                        && between (if b2z a =? 0xF0 then 0x90 else 0x80)
                             (if b2z a =? 0xF4 then 0x8F else 0xBF) b
                        && between 0x80 0xBF c && between 0x80 0xBF d && valid_utf8 l4
                    end
              end
        end
  end.

(** [str::chars], of a well-formed string. *)
Fixpoint chars (l : bytes) : list Z :=
  match l with
  | [] => []
  | a :: l1 =>
      if b2z a <? 0x80 then b2z a :: chars l1
      else
        match l1 with
        | [] => []
        | b :: l2 =>
            if b2z a <? 0xE0 then (b2z a - 0xC0) * 64 + (b2z b - 0x80) :: chars l2
            else
              match l2 with
              | [] => []
              | c :: l3 =>
                  if b2z a <? 0xF0 then
                    (b2z a - 0xE0) * 4096 + (b2z b - 0x80) * 64 + (b2z c - 0x80) :: chars l3
                  else
                    match l3 with
                    | [] => []
                    | d :: l4 =>
                        (b2z a - 0xF0) * 262144 + (b2z b - 0x80) * 4096 + (b2z c - 0x80) * 64
                          + (b2z d - 0x80) :: chars l4
                    end
              end
        end
  end.

(** [char::encode_utf8]. *)
Definition encode_utf8 (c : Z) : bytes :=
  if c <? 0x80 then [z2b c]
  else if c <? 0x800 then [z2b (0xC0 + c / 64); z2b (0x80 + c mod 64)]
  else if c <? 0x10000 then
    [z2b (0xE0 + c / 4096); z2b (0x80 + c / 64 mod 64); z2b (0x80 + c mod 64)]
  else [z2b (0xF0 + c / 262144); z2b (0x80 + c / 4096 mod 64); z2b (0x80 + c / 64 mod 64);
        z2b (0x80 + c mod 64)].

(** [chars.collect::<String>()]. *)
Definition collect (cs : list Z) : bytes := concat (map encode_utf8 cs).

Lemma between_spec lo hi b : between lo hi b = true <-> lo <= b2z b <= hi.
Proof. unfold between. by rewrite andb_true_iff, !Z.leb_le. Qed.

Lemma z2b_eq z b : z = b2z b -> z2b z = b.
Proof. intros ->. apply z2b_b2z. Qed.

(** The arithmetic of continuation bytes. *)
Ltac utf8_arith := Z.to_euclidean_division_equations; lia.

Lemma encode_utf8_2 a b :
  0xC2 <= b2z a <= 0xDF -> 0x80 <= b2z b <= 0xBF ->
  encode_utf8 ((b2z a - 0xC0) * 64 + (b2z b - 0x80)) = [a; b].
Proof.
  intros Ha Hb. unfold encode_utf8. rewrite (proj2 (Z.ltb_ge _ 0x80)), (proj2 (Z.ltb_lt _ 0x800)) by lia.
  repeat f_equal; apply z2b_eq; utf8_arith.
Qed.

Lemma encode_utf8_3 a b c :
  0xE0 <= b2z a <= 0xEF -> (if b2z a =? 0xE0 then 0xA0 else 0x80) <= b2z b <= 0xBF ->
  0x80 <= b2z c <= 0xBF ->
  encode_utf8 ((b2z a - 0xE0) * 4096 + (b2z b - 0x80) * 64 + (b2z c - 0x80)) = [a; b; c].
Proof.
  intros Ha Hb Hc. assert (0x800 <= (b2z a - 0xE0) * 4096 + (b2z b - 0x80) * 64).
  { destruct (Z.eqb_spec (b2z a) 0xE0); lia. }
  assert (0x80 <= b2z b) by (destruct (b2z a =? 0xE0); lia).
  unfold encode_utf8. rewrite (proj2 (Z.ltb_ge _ 0x80)), (proj2 (Z.ltb_ge _ 0x800)),
    (proj2 (Z.ltb_lt _ 0x10000)) by lia.
  repeat f_equal; apply z2b_eq; utf8_arith.
Qed.

Lemma encode_utf8_4 a b c d :
  0xF0 <= b2z a <= 0xF4 -> (if b2z a =? 0xF0 then 0x90 else 0x80) <= b2z b <= 0xBF ->
  0x80 <= b2z c <= 0xBF -> 0x80 <= b2z d <= 0xBF ->
  encode_utf8 ((b2z a - 0xF0) * 262144 + (b2z b - 0x80) * 4096 + (b2z c - 0x80) * 64 + (b2z d - 0x80))
  = [a; b; c; d].
Proof.
  intros Ha Hb Hc Hd. assert (0x10000 <= (b2z a - 0xF0) * 262144 + (b2z b - 0x80) * 4096).
  { destruct (Z.eqb_spec (b2z a) 0xF0); lia. }
  assert (0x80 <= b2z b) by (destruct (b2z a =? 0xF0); lia).
  unfold encode_utf8. rewrite (proj2 (Z.ltb_ge _ 0x80)), (proj2 (Z.ltb_ge _ 0x800)),
    (proj2 (Z.ltb_ge _ 0x10000)) by lia.
  repeat f_equal; apply z2b_eq; utf8_arith.
Qed.

Lemma encode_utf8_1 a : b2z a < 0x80 -> encode_utf8 (b2z a) = [a].
Proof. intros Ha. unfold encode_utf8. rewrite (proj2 (Z.ltb_lt _ _)) by done. by rewrite z2b_b2z. Qed.

(** The characters of a well-formed string are the string. *)
Lemma collect_chars l : valid_utf8 l = true -> collect (chars l) = l.
Proof.
  unfold collect. remember (length l) as n eqn:Hn. revert l Hn.
  induction n as [n IH] using lt_wf_ind. intros l -> Hv.
  destruct l as [|a l1]; [done|]. cbn [valid_utf8 chars] in *.
  pose proof (b2z_range a) as Hra.
  destruct (between 0 0x7F a) eqn:E1.
  { apply between_spec in E1. rewrite (proj2 (Z.ltb_lt _ 0x80)) by lia. cbn [map concat].
    rewrite encode_utf8_1, (IH (length l1)) by (simpl; (done || lia)). done. }
  apply not_true_iff_false in E1. rewrite between_spec in E1.
  rewrite (proj2 (Z.ltb_ge _ 0x80)) by lia. destruct l1 as [|b l2]; [done|].
  destruct (between 0xC2 0xDF a) eqn:E2.
  { apply between_spec in E2. apply andb_true_iff in Hv as [Hb%between_spec Hv].
    rewrite (proj2 (Z.ltb_lt _ 0xE0)) by lia. cbn [map concat].
    rewrite encode_utf8_2, (IH (length l2)) by (simpl; (done || lia)). done. }
  apply not_true_iff_false in E2. rewrite between_spec in E2. destruct l2 as [|c l3].
  { done. }
  destruct (between 0xE0 0xEF a) eqn:E3.
  { apply between_spec in E3. rewrite !andb_true_iff in Hv. destruct Hv as [[Hb Hc] Hv].
    apply between_spec in Hb, Hc. rewrite (proj2 (Z.ltb_ge _ 0xE0)), (proj2 (Z.ltb_lt _ 0xF0)) by lia.
    cbn [map concat]. rewrite encode_utf8_3, (IH (length l3)); simpl; (done || lia || idtac).
    destruct (b2z a =? 0xED); lia. }
  apply not_true_iff_false in E3. rewrite between_spec in E3. destruct l3 as [|d l4]; [done|].
  rewrite !andb_true_iff, !between_spec in Hv. destruct Hv as [[[[Ha Hb] Hc] Hd] Hv].
  rewrite (proj2 (Z.ltb_ge _ 0xE0)), (proj2 (Z.ltb_ge _ 0xF0)) by lia.
  cbn [map concat]. rewrite encode_utf8_4, (IH (length l4)); simpl; (done || lia || idtac).
  destruct (b2z a =? 0xF4); lia.
Qed.
