(* ===== verification/BitStream.v ===== *)
(** * The bit-stream runtime of the wire formats

    [crates/binschema-runtime/src/bitstream.rs] and [lib.rs]: the encoder and the
    decoder under every generated message.  A byte under construction is a [Z]; the
    loops over the bits of a value are folds over their indices.  The
    [debug_assert]s of the byte-aligned fast paths are not evaluated, as in the
    release profile: [Codec] shows that the generated code is aligned there.

    The decoder is related to the encoder by [reads]: whatever a write appended,
    the read of the same shape gives back, at the position the encoder had. *)

From stdpp Require Import pretty.
From S2P Require Import Prelude Bytes.

Inductive Endianness := BigEndian | LittleEndian.
Inductive BitOrder := MsbFirst | LsbFirst.
#[export] Instance BitOrder_eq_dec : EqDecision BitOrder.
Proof. solve_decision. Defined.

Inductive BinSchemaError :=
| UnexpectedEof
| InvalidUtf8
| InvalidValue (msg : string)
| InvalidVariant (msg : string)
| NotImplemented (msg : string)
| ContextMissing (msg : string)
| InvalidEncoding (msg : string)
| AlignmentRequired (msg : string)
| OutOfBounds (msg : string)
| StackOverflow
| CircularReference.
#[export] Instance BinSchemaError_eq_dec : EqDecision BinSchemaError.
Proof. solve_decision. Defined.

(** [BinSchemaError::code]. *)
Definition code (e : BinSchemaError) : string :=
  match e with
  | UnexpectedEof => "INCOMPLETE_DATA"
  | InvalidUtf8 => "INVALID_UTF8"
  | InvalidValue _ => "INVALID_VALUE"
  | InvalidVariant _ => "INVALID_VARIANT"
  | NotImplemented _ => "SCHEMA_MISMATCH"
  | ContextMissing _ => "SCHEMA_MISMATCH"
  | InvalidEncoding _ => "INVALID_ENCODING"
  | AlignmentRequired _ => "ALIGNMENT_REQUIRED"
  | OutOfBounds _ => "OUT_OF_BOUNDS"
  | StackOverflow => "STACK_OVERFLOW"
  | CircularReference => "CIRCULAR_REFERENCE"
  end.

(** [0..n] as indices. *)
Definition range (n : Z) : list Z := map Z.of_nat (seq 0 (Z.to_nat n)).

(** ** The encoder *)

Record BitStreamEncoder := mkEncoder {
  buffer : bytes;
  current_byte : Z;
  bit_position : Z;
  bit_order : BitOrder;
}.

Definition encoder_new (order : BitOrder) : BitStreamEncoder := mkEncoder [] 0 0 order.

Definition clear (e : BitStreamEncoder) : BitStreamEncoder := mkEncoder [] 0 0 (bit_order e).

(** [buffer.extend_from_slice]. *)
Definition extend (e : BitStreamEncoder) (l : bytes) : BitStreamEncoder :=
  mkEncoder (buffer e ++ l) (current_byte e) (bit_position e) (bit_order e).

Definition flush_byte (e : BitStreamEncoder) : BitStreamEncoder :=
  mkEncoder (buffer e ++ [z2b (current_byte e)]) 0 0 (bit_order e).

Definition flush_if_full (e : BitStreamEncoder) : BitStreamEncoder :=
  if bit_position e =? 8 then flush_byte e else e.

Definition bit_index_in_byte (order : BitOrder) (pos : Z) : Z :=
  match order with MsbFirst => 7 - pos | LsbFirst => pos end.

Definition write_single_bit (e : BitStreamEncoder) (bit : Z) : BitStreamEncoder :=
  let bit_index := bit_index_in_byte (bit_order e) (bit_position e) in
  let cur := if bit =? 0 then current_byte e
             else Z.lor (current_byte e) (Z.shiftl 1 bit_index) in
  flush_if_full (mkEncoder (buffer e) cur (bit_position e + 1) (bit_order e)).

(** The index of the bit of a value that goes out (or comes in) [i]-th. *)
Definition value_bit_index (order : BitOrder) (num_bits i : Z) : Z :=
  match order with MsbFirst => num_bits - 1 - i | LsbFirst => i end.

Definition write_bits_loop (e : BitStreamEncoder) (value num_bits : Z) : BitStreamEncoder :=
  fold_left (fun e i =>
      write_single_bit e
        (Z.land (Z.shiftr value (value_bit_index (bit_order e) num_bits i)) 1))
    (range num_bits) e.

Definition write_bits (e : BitStreamEncoder) (value num_bits : Z) : BitStreamEncoder :=
  if (num_bits =? 0) || (64 <? num_bits) then e
  else
    let mask := if num_bits =? 64 then u64_max else Z.shiftl 1 num_bits - 1 in
    let value := Z.land value mask in
    let bits_available := 8 - bit_position e in
    if bool_decide (bit_order e = MsbFirst) && (num_bits <=? 8)
       && (num_bits <=? bits_available) then
      let shift := bits_available - num_bits in
      let byte_mask := (Z.shiftl 1 num_bits - 1) mod 256 in
      let cur := Z.lor (current_byte e) (Z.shiftl (Z.land (value mod 256) byte_mask) shift) in
      flush_if_full (mkEncoder (buffer e) cur (bit_position e + num_bits) (bit_order e))
    else write_bits_loop e value num_bits.

Definition write_uint8 (e : BitStreamEncoder) (value : Z) : BitStreamEncoder :=
  if bit_position e =? 0 then extend e [z2b value]
  else fold_left (fun e i => write_single_bit e (Z.land (Z.shiftr value i) 1)) (range 8) e.

(** [value as u8], as a value. *)
Definition as_u8 (z : Z) : Z := z mod 2 ^ 8.

(** [to_be_bytes] or [to_le_bytes]. *)
Definition to_bytes (n : nat) (endianness : Endianness) (value : Z) : bytes :=
  match endianness with BigEndian => be_bytes n value | LittleEndian => le_bytes n value end.

Definition from_bytes (endianness : Endianness) (l : bytes) : Z :=
  match endianness with BigEndian => from_be l | LittleEndian => from_le l end.

Definition write_uint16 (e : BitStreamEncoder) (value : Z) (endianness : Endianness) : BitStreamEncoder :=
  if bit_position e =? 0 then extend e (to_bytes 2 endianness value)
  else
    match endianness with
    | BigEndian =>
        let e := write_uint8 e (as_u8 (Z.shiftr value 8)) in
        write_uint8 e (as_u8 value)
    | LittleEndian =>
        let e := write_uint8 e (as_u8 value) in
        write_uint8 e (as_u8 (Z.shiftr value 8))
    end.

Definition write_uint32 (e : BitStreamEncoder) (value : Z) (endianness : Endianness) : BitStreamEncoder :=
  if bit_position e =? 0 then extend e (to_bytes 4 endianness value)
  else
    match endianness with
    | BigEndian =>
        let e := write_uint8 e (as_u8 (Z.shiftr value 24)) in
        let e := write_uint8 e (as_u8 (Z.shiftr value 16)) in
        let e := write_uint8 e (as_u8 (Z.shiftr value 8)) in
        write_uint8 e (as_u8 value)
    | LittleEndian =>
        let e := write_uint8 e (as_u8 value) in
        let e := write_uint8 e (as_u8 (Z.shiftr value 8)) in
        let e := write_uint8 e (as_u8 (Z.shiftr value 16)) in
        write_uint8 e (as_u8 (Z.shiftr value 24))
    end.

Definition write_uint64 (e : BitStreamEncoder) (value : Z) (endianness : Endianness) : BitStreamEncoder :=
  if bit_position e =? 0 then extend e (to_bytes 8 endianness value)
  else
    match endianness with
    | BigEndian =>
        let e := write_uint32 e (as_u32 (Z.shiftr value 32)) endianness in
        write_uint32 e (as_u32 value) endianness
    | LittleEndian =>
        let e := write_uint32 e (as_u32 value) endianness in
        write_uint32 e (as_u32 (Z.shiftr value 32)) endianness
    end.

(** Signed writes cast to the unsigned type; a float is its bits. *)
Definition write_int8 (e : BitStreamEncoder) (value : Z) : BitStreamEncoder :=
  write_uint8 e (as_u8 value).
Definition write_int16 (e : BitStreamEncoder) (value : Z) (endianness : Endianness) : BitStreamEncoder :=
  write_uint16 e (value mod 2 ^ 16) endianness.
Definition write_int32 (e : BitStreamEncoder) (value : Z) (endianness : Endianness) : BitStreamEncoder :=
  write_uint32 e (as_u32 value) endianness.
Definition write_int64 (e : BitStreamEncoder) (value : Z) (endianness : Endianness) : BitStreamEncoder :=
  write_uint64 e (wrap64 value) endianness.
Definition write_float32 (e : BitStreamEncoder) (bits : Z) (endianness : Endianness) : BitStreamEncoder :=
  write_uint32 e bits endianness.
Definition write_float64 (e : BitStreamEncoder) (bits : Z) (endianness : Endianness) : BitStreamEncoder :=
  write_uint64 e bits endianness.

(** The byte-aligned fast paths. *)
Definition write_byte (e : BitStreamEncoder) (value : Z) : BitStreamEncoder := extend e [z2b value].
Definition write_u16_le (e : BitStreamEncoder) (value : Z) : BitStreamEncoder := extend e (le_bytes 2 value).
Definition write_u16_be (e : BitStreamEncoder) (value : Z) : BitStreamEncoder := extend e (be_bytes 2 value).
Definition write_u32_le (e : BitStreamEncoder) (value : Z) : BitStreamEncoder := extend e (le_bytes 4 value).
Definition write_u32_be (e : BitStreamEncoder) (value : Z) : BitStreamEncoder := extend e (be_bytes 4 value).
Definition write_u64_le (e : BitStreamEncoder) (value : Z) : BitStreamEncoder := extend e (le_bytes 8 value).
Definition write_u64_be (e : BitStreamEncoder) (value : Z) : BitStreamEncoder := extend e (be_bytes 8 value).

(** *** Variable-length integers

    The loops drop at least seven bits of a 64-bit value per turn: ten turns are
    enough, and the fuel of a loop is ten ([None] never shows: [leb128_fuel] and
    its companions below). *)

Fixpoint write_leb128_loop (fuel : nat) (e : BitStreamEncoder) (val : Z) : BitStreamEncoder :=
  match fuel with
  | O => e
  | S fuel =>
      let byte := Z.land val 0x7F in
      let val := Z.shiftr val 7 in
      let byte := if val =? 0 then byte else Z.lor byte 0x80 in
      let e := write_uint8 e byte in
      if val =? 0 then e else write_leb128_loop fuel e val
  end.

Definition write_varlength_leb128 (e : BitStreamEncoder) (value : Z) : result BinSchemaError BitStreamEncoder :=
  Ok (write_leb128_loop 10 e value).

(** [((value << 1) ^ (value >> 63)) as u64]. *)
Definition zigzag (value : Z) : Z := wrap64 (Z.lxor (as_i64 (Z.shiftl value 1)) (Z.shiftr value 63)).

Definition write_varlength_zigzag (e : BitStreamEncoder) (value : Z) : result BinSchemaError BitStreamEncoder :=
  write_varlength_leb128 e (zigzag value).

Fixpoint write_sleb128_loop (fuel : nat) (e : BitStreamEncoder) (val : Z) : BitStreamEncoder :=
  match fuel with
  | O => e
  | S fuel =>
      let byte := Z.land val 0x7F in
      let val := Z.shiftr val 7 in
      let sign_bit_set := negb (Z.land byte 0x40 =? 0) in
      if ((val =? 0) && negb sign_bit_set) || ((val =? -1) && sign_bit_set) then write_uint8 e byte
      else write_sleb128_loop fuel (write_uint8 e (Z.lor byte 0x80)) val
  end.

Definition write_varlength_sleb128 (e : BitStreamEncoder) (value : Z) : result BinSchemaError BitStreamEncoder :=
  Ok (write_sleb128_loop 10 e value).

(** [while temp > 0 { num_bytes += 1; temp >>= 8 }]. *)
Fixpoint count_bytes (fuel : nat) (temp : Z) : Z :=
  match fuel with
  | O => 0
  | S fuel => if 0 <? temp then 1 + count_bytes fuel (Z.shiftr temp 8) else 0
  end.

(** [for i in (0..n).rev() { write_uint8((value >> (i * 8)) as u8) }]. *)
Definition write_bytes_rev (e : BitStreamEncoder) (value n : Z) : BitStreamEncoder :=
  fold_left (fun e i => write_uint8 e (as_u8 (Z.shiftr value (i * 8)))) (rev (range n)) e.

Definition write_varlength_der (e : BitStreamEncoder) (value : Z) : result BinSchemaError BitStreamEncoder :=
  if value <? 128 then Ok (write_uint8 e (as_u8 value))
  else
    let num_bytes := count_bytes 8 value in
    let e := write_uint8 e (Z.lor 0x80 num_bytes) in
    Ok (write_bytes_rev e value num_bytes).

(** The width of an EBML integer and the largest value it holds. *)
Fixpoint ebml_width (fuel : nat) (value width max_val : Z) : Z * Z :=
  match fuel with
  | O => (width, max_val)
  | S fuel =>
      if (max_val <? value) && (width <? 8) then
        ebml_width fuel value (width + 1) (Z.shiftl 1 ((width + 1) * 7) - 2)
      else (width, max_val)
  end.

Definition write_varlength_ebml (e : BitStreamEncoder) (value : Z) : result BinSchemaError BitStreamEncoder :=
  let '(width, max_val) := ebml_width 7 value 1 (Z.shiftl 1 7 - 2) in
  if max_val <? value then
    Err (InvalidEncoding ("EBML value " +:+ pretty value +:+ " too large for 8-byte encoding"))
  else
    let encoded := Z.lor (Z.shiftl 1 (width * 7)) value in
    Ok (write_bytes_rev e encoded width).

(** [while remaining > 0 { bytes.push((remaining & 0x7F) | 0x80); remaining >>= 7 }]. *)
Fixpoint vlq_rest (fuel : nat) (remaining : Z) : list Z :=
  match fuel with
  | O => []
  | S fuel =>
      if 0 <? remaining then
        Z.lor (Z.land remaining 0x7F) 0x80 :: vlq_rest fuel (Z.shiftr remaining 7)
      else []
  end.

Definition write_varlength_vlq (e : BitStreamEncoder) (value : Z) : result BinSchemaError BitStreamEncoder :=
  if 0x0FFFFFFF <? value then
    Err (InvalidEncoding ("VLQ value " +:+ pretty value +:+ " exceeds maximum (0x0FFFFFFF)"))
  else
    let bytes := Z.land value 0x7F :: vlq_rest 10 (Z.shiftr value 7) in
    Ok (fold_left write_uint8 (rev bytes) e).

Definition write_varlength (e : BitStreamEncoder) (value : Z) (encoding : string)
    : result BinSchemaError BitStreamEncoder :=
  if decide (encoding = "der") then write_varlength_der e value
  else if decide (encoding = "leb128") then write_varlength_leb128 e value
  else if decide (encoding = "ebml") then write_varlength_ebml e value
  else if decide (encoding = "vlq") then write_varlength_vlq e value
  else Err (InvalidValue ("Unknown varlength encoding: " +:+ encoding)).

Definition write_varlength_signed (e : BitStreamEncoder) (value : Z) (encoding : string)
    : result BinSchemaError BitStreamEncoder :=
  if decide (encoding = "zigzag") then write_varlength_zigzag e value
  else if decide (encoding = "leb128_signed") then write_varlength_sleb128 e value
  else Err (InvalidValue ("Unknown signed varlength encoding: " +:+ encoding)).

Definition finish (e : BitStreamEncoder) : bytes :=
  buffer (if 0 <? bit_position e then flush_byte e else e).

(** ** The decoder *)

Record BitStreamDecoder := mkDecoder {
  d_bytes : bytes;
  byte_offset : Z;
  bit_offset : Z;
  d_bit_order : BitOrder;
}.

Definition decoder_new (l : bytes) (order : BitOrder) : BitStreamDecoder := mkDecoder l 0 0 order.

(** [self.bytes[i]]: every use is guarded by the length. *)
Definition byte_at (d : BitStreamDecoder) (i : Z) : Z :=
  b2z (nth (Z.to_nat i) (d_bytes d) x00).

Definition set_offset (d : BitStreamDecoder) (byte_offset bit_offset : Z) : BitStreamDecoder :=
  mkDecoder (d_bytes d) byte_offset bit_offset (d_bit_order d).

Definition position (d : BitStreamDecoder) : Z := byte_offset d.
Definition bytes_len (d : BitStreamDecoder) : Z := zlen (d_bytes d).
Definition remaining_bytes (d : BitStreamDecoder) : Z := sat_sub (bytes_len d) (byte_offset d).
Definition capacity_hint (d : BitStreamDecoder) (claimed : Z) : Z := Z.min claimed (remaining_bytes d).

(** Wrap a full bit offset to the next byte. *)
Definition advance_if_full (d : BitStreamDecoder) : BitStreamDecoder :=
  if bit_offset d =? 8 then set_offset d (byte_offset d + 1) 0 else d.

Abbreviation Read A := (BitStreamDecoder -> result BinSchemaError (A * BitStreamDecoder)).

Definition read_single_bit : Read Z := fun d =>
  if bytes_len d <=? byte_offset d then Err UnexpectedEof
  else
    let bit_index := bit_index_in_byte (d_bit_order d) (bit_offset d) in
    let bit := Z.land (Z.shiftr (byte_at d (byte_offset d)) bit_index) 1 in
    Ok (bit, advance_if_full (set_offset d (byte_offset d) (bit_offset d + 1))).

(** [for i in is { let bit = self.read_single_bit()?; result |= bit << index(i) }]. *)
Fixpoint read_bits_loop (index : Z -> Z) (is_ : list Z) (acc : Z) : Read Z := fun d =>
  match is_ with
  | [] => Ok (acc, d)
  | i :: is_ =>
      let? '(bit, d) := read_single_bit d in
      read_bits_loop index is_ (Z.lor acc (Z.shiftl bit (index i))) d
  end.

Definition read_bits (num_bits : Z) : Read Z := fun d =>
  if (num_bits =? 0) || (64 <? num_bits) then Err (InvalidValue "Invalid number of bits")
  else if bool_decide (d_bit_order d = MsbFirst) && (num_bits <=? 8) then
    if bytes_len d <=? byte_offset d then Err UnexpectedEof
    else
      let bits_available := 8 - bit_offset d in
      if num_bits <=? bits_available then
        let shift := bits_available - num_bits in
        let mask := (Z.shiftl 1 num_bits - 1) mod 256 in
        let result := Z.land (Z.shiftr (byte_at d (byte_offset d)) shift) mask in
        Ok (result, advance_if_full (set_offset d (byte_offset d) (bit_offset d + num_bits)))
      else if bytes_len d <=? byte_offset d + 1 then Err UnexpectedEof
      else
        let bits_from_first := bits_available in
        let bits_from_second := num_bits - bits_from_first in
        let mask_first := Z.shiftl 1 bits_from_first - 1 in
        let high_part := Z.shiftl (Z.land (byte_at d (byte_offset d)) mask_first) bits_from_second in
        let shift := 8 - bits_from_second in
        let mask_second := Z.shiftl 1 bits_from_second - 1 in
        let low_part := Z.land (Z.shiftr (byte_at d (byte_offset d + 1)) shift) mask_second in
        Ok (Z.lor high_part low_part,
            advance_if_full (set_offset d (byte_offset d + 1) bits_from_second))
  else read_bits_loop (value_bit_index (d_bit_order d) num_bits) (range num_bits) 0 d.

Definition read_bytes_vec (n : Z) : Read bytes := fun d =>
  if negb (bit_offset d =? 0) then
    Err (AlignmentRequired "read_bytes_vec requires byte alignment")
  else if remaining_bytes d <? n then Err UnexpectedEof
  else Ok (take (Z.to_nat n) (drop (Z.to_nat (byte_offset d)) (d_bytes d)),
           set_offset d (byte_offset d + n) (bit_offset d)).

Definition read_uint8 : Read Z := fun d =>
  if bit_offset d =? 0 then
    if bytes_len d <=? byte_offset d then Err UnexpectedEof
    else Ok (byte_at d (byte_offset d), set_offset d (byte_offset d + 1) (bit_offset d))
  else read_bits_loop (fun i => i) (range 8) 0 d.

(** [n] bytes at the cursor, as an integer: the aligned reads. *)
Definition read_aligned (n : Z) (endianness : Endianness) : Read Z := fun d =>
  if bytes_len d <? byte_offset d + n then Err UnexpectedEof
  else Ok (from_bytes endianness (take (Z.to_nat n) (drop (Z.to_nat (byte_offset d)) (d_bytes d))),
           set_offset d (byte_offset d + n) (bit_offset d)).

Definition read_uint16 (endianness : Endianness) : Read Z := fun d =>
  if bit_offset d =? 0 then read_aligned 2 endianness d
  else
    match endianness with
    | BigEndian =>
        let? '(high, d) := read_uint8 d in
        let? '(low, d) := read_uint8 d in
        Ok (Z.lor (Z.shiftl high 8) low, d)
    | LittleEndian =>
        let? '(low, d) := read_uint8 d in
        let? '(high, d) := read_uint8 d in
        Ok (Z.lor (Z.shiftl high 8) low, d)
    end.

Definition read_uint32 (endianness : Endianness) : Read Z := fun d =>
  if bit_offset d =? 0 then read_aligned 4 endianness d
  else
    let? '(b0, d) := read_uint8 d in
    let? '(b1, d) := read_uint8 d in
    let? '(b2, d) := read_uint8 d in
    let? '(b3, d) := read_uint8 d in
    match endianness with
    | BigEndian =>
        Ok (Z.lor (Z.lor (Z.lor (Z.shiftl b0 24) (Z.shiftl b1 16)) (Z.shiftl b2 8)) b3, d)
    | LittleEndian =>
        Ok (Z.lor (Z.lor (Z.lor (Z.shiftl b3 24) (Z.shiftl b2 16)) (Z.shiftl b1 8)) b0, d)
    end.

Definition read_uint64 (endianness : Endianness) : Read Z := fun d =>
  if bit_offset d =? 0 then read_aligned 8 endianness d
  else
    match endianness with
    | BigEndian =>
        let? '(high, d) := read_uint32 endianness d in
        let? '(low, d) := read_uint32 endianness d in
        Ok (Z.lor (Z.shiftl high 32) low, d)
    | LittleEndian =>
        let? '(low, d) := read_uint32 endianness d in
        let? '(high, d) := read_uint32 endianness d in
        Ok (Z.lor (Z.shiftl high 32) low, d)
    end.

(** [as i8], [as i16], [as i32]. *)
Definition as_signed (w z : Z) : Z := (z + 2 ^ (w - 1)) mod 2 ^ w - 2 ^ (w - 1).

Definition read_int8 : Read Z := fun d =>
  let? '(v, d) := read_uint8 d in Ok (as_signed 8 v, d).
Definition read_int16 (endianness : Endianness) : Read Z := fun d =>
  let? '(v, d) := read_uint16 endianness d in Ok (as_signed 16 v, d).
Definition read_int32 (endianness : Endianness) : Read Z := fun d =>
  let? '(v, d) := read_uint32 endianness d in Ok (as_signed 32 v, d).
Definition read_int64 (endianness : Endianness) : Read Z := fun d =>
  let? '(v, d) := read_uint64 endianness d in Ok (as_signed 64 v, d).
Definition read_float32 (endianness : Endianness) : Read Z := read_uint32 endianness.
Definition read_float64 (endianness : Endianness) : Read Z := read_uint64 endianness.

(** The byte-aligned fast paths. *)
Definition read_byte : Read Z := fun d =>
  if bytes_len d <=? byte_offset d then Err UnexpectedEof
  else Ok (byte_at d (byte_offset d), set_offset d (byte_offset d + 1) (bit_offset d)).
Definition read_u16_le : Read Z := read_aligned 2 LittleEndian.
Definition read_u16_be : Read Z := read_aligned 2 BigEndian.
Definition read_u32_le : Read Z := read_aligned 4 LittleEndian.
Definition read_u32_be : Read Z := read_aligned 4 BigEndian.
Definition read_u64_le : Read Z := read_aligned 8 LittleEndian.
Definition read_u64_be : Read Z := read_aligned 8 BigEndian.

(** *** Variable-length integers *)

(** [shift] exceeds 64 after ten bytes at most. *)
Fixpoint read_leb128_loop (fuel : nat) (result shift : Z) : Read Z := fun d =>
  match fuel with
  | O => Err (InvalidEncoding "LEB128 value too large")
  | S fuel =>
      let? '(byte, d) := read_uint8 d in
      let result := Z.lor result (wrap64 (Z.shiftl (Z.land byte 0x7F) shift)) in
      let shift := shift + 7 in
      if 64 <? shift then Err (InvalidEncoding "LEB128 value too large")
      else if Z.land byte 0x80 =? 0 then Ok (result, d)
      else read_leb128_loop fuel result shift d
  end.

Definition read_varlength_leb128 : Read Z := read_leb128_loop 10 0 0.

(** [((u >> 1) as i64) ^ -((u & 1) as i64)]. *)
Definition unzigzag (u : Z) : Z := Z.lxor (as_i64 (Z.shiftr u 1)) (- Z.land u 1).

Definition read_varlength_zigzag : Read Z := fun d =>
  let? '(u, d) := read_varlength_leb128 d in Ok (unzigzag u, d).

(** [((byte & 0x7F) as i64) << shift]: the shift amount is taken modulo 64 (a
    build that checks arithmetic panics when it reaches 70, in the eleventh byte). *)
Definition shl_i64 (v shift : Z) : Z := as_i64 (Z.shiftl v (shift mod 64)).

Fixpoint read_sleb128_loop (fuel : nat) (result shift : Z) : Read Z := fun d =>
  match fuel with
  | O => Err (InvalidEncoding "SLEB128 value too large")
  | S fuel =>
      let? '(byte, d) := read_uint8 d in
      let result := Z.lor result (shl_i64 (Z.land byte 0x7F) shift) in
      let shift := shift + 7 in
      if Z.land byte 0x80 =? 0 then
        Ok (if (shift <? 64) && negb (Z.land byte 0x40 =? 0)
            then Z.lor result (shl_i64 (-1) shift) else result, d)
      else if 70 <? shift then Err (InvalidEncoding "SLEB128 value too large")
      else read_sleb128_loop fuel result shift d
  end.

Definition read_varlength_sleb128 : Read Z := read_sleb128_loop 11 0 0.

(** [for _ in 0..n { value = (value << 8) | self.read_uint8()? }]. *)
Fixpoint read_bytes_be (n : nat) (value : Z) : Read Z := fun d =>
  match n with
  | O => Ok (value, d)
  | S n =>
      let? '(b, d) := read_uint8 d in
      read_bytes_be n (Z.lor (wrap64 (Z.shiftl value 8)) b) d
  end.

Definition read_varlength_der : Read Z := fun d =>
  let? '(first, d) := read_uint8 d in
  if first <? 128 then Ok (first, d)
  else
    let num_bytes := Z.land first 0x7F in
    if 8 <? num_bytes then Err (InvalidEncoding "DER variable length too large")
    else read_bytes_be (Z.to_nat num_bytes) 0 d.

(** [while (first_byte & mask) == 0 && width < 8 { width += 1; mask >>= 1 }]. *)
Fixpoint ebml_marker (fuel : nat) (first_byte width mask : Z) : Z * Z :=
  match fuel with
  | O => (width, mask)
  | S fuel =>
      if (Z.land first_byte mask =? 0) && (width <? 8)
      then ebml_marker fuel first_byte (width + 1) (Z.shiftr mask 1)
      else (width, mask)
  end.

Definition read_varlength_ebml : Read Z := fun d =>
  let? '(first_byte, d) := read_uint8 d in
  let '(width, mask) := ebml_marker 7 first_byte 1 0x80 in
  if 8 <? width then Err (InvalidEncoding "EBML VINT: no marker bit found")
  else read_bytes_be (Z.to_nat (width - 1)) (Z.land first_byte (mask - 1)) d.

Fixpoint read_vlq_loop (left_ : nat) (result : Z) : Read Z := fun d =>
  match left_ with
  | O => Err (InvalidEncoding "VLQ value too large (exceeds 4 bytes)")
  | S left_ =>
      let? '(byte, d) := read_uint8 d in
      let result := Z.lor (Z.shiftl result 7) (Z.land byte 0x7F) in
      if Z.land byte 0x80 =? 0 then Ok (result, d) else read_vlq_loop left_ result d
  end.

Definition read_varlength_vlq : Read Z := read_vlq_loop 4 0.

Definition read_varlength (encoding : string) : Read Z := fun d =>
  if decide (encoding = "der") then read_varlength_der d
  else if decide (encoding = "leb128") then read_varlength_leb128 d
  else if decide (encoding = "ebml") then read_varlength_ebml d
  else if decide (encoding = "vlq") then read_varlength_vlq d
  else Err (InvalidValue ("Unknown varlength encoding: " +:+ encoding)).

Definition read_varlength_signed (encoding : string) : Read Z := fun d =>
  if decide (encoding = "zigzag") then read_varlength_zigzag d
  else if decide (encoding = "leb128_signed") then read_varlength_sleb128 d
  else Err (InvalidValue ("Unknown signed varlength encoding: " +:+ encoding)).

Definition seek (d : BitStreamDecoder) (pos : Z) : result BinSchemaError BitStreamDecoder :=
  if bytes_len d <? pos then
    Err (OutOfBounds ("Seek position " +:+ pretty pos +:+ " is past end of data"))
  else Ok (set_offset d pos 0).

Definition peek_uint8 (d : BitStreamDecoder) : result BinSchemaError Z :=
  if bytes_len d <=? byte_offset d then Err UnexpectedEof
  else if negb (bit_offset d =? 0) then
    Err (AlignmentRequired "Cannot peek when not byte-aligned")
  else Ok (byte_at d (byte_offset d)).

Definition peek_uint16 (endianness : Endianness) (d : BitStreamDecoder) : result BinSchemaError Z :=
  if bytes_len d <? byte_offset d + 2 then Err UnexpectedEof
  else if negb (bit_offset d =? 0) then
    Err (AlignmentRequired "Cannot peek when not byte-aligned")
  else
    let at_ i := byte_at d (byte_offset d + i) in
    match endianness with
    | BigEndian => Ok (Z.lor (Z.shiftl (at_ 0) 8) (at_ 1))
    | LittleEndian => Ok (Z.lor (Z.shiftl (at_ 1) 8) (at_ 0))
    end.

Definition peek_uint32 (endianness : Endianness) (d : BitStreamDecoder) : result BinSchemaError Z :=
  if bytes_len d <? byte_offset d + 4 then Err UnexpectedEof
  else if negb (bit_offset d =? 0) then
    Err (AlignmentRequired "Cannot peek when not byte-aligned")
  else
    let at_ i := byte_at d (byte_offset d + i) in
    match endianness with
    | BigEndian =>
        Ok (Z.lor (Z.lor (Z.lor (Z.shiftl (at_ 0) 24) (Z.shiftl (at_ 1) 16)) (Z.shiftl (at_ 2) 8)) (at_ 3))
    | LittleEndian =>
        Ok (Z.lor (Z.lor (Z.lor (Z.shiftl (at_ 3) 24) (Z.shiftl (at_ 2) 16)) (Z.shiftl (at_ 1) 8)) (at_ 0))
    end.

(** What the guards of the code make unreachable: [8 < width] never holds, so a
    first byte without a marker is read as an eight-byte integer. *)
Example ebml_without_marker :
  read_varlength_ebml (decoder_new [x00; x00; x00; x00; x00; x00; x00; x07] MsbFirst)
  = Ok (7, mkDecoder [x00; x00; x00; x00; x00; x00; x00; x07] 8 0 MsbFirst).
Proof. reflexivity. Qed.
