(* ===== verification/BitStreamFacts.v ===== *)
(** * The bit-stream runtime: what is written is read

    [reads e e' rd v] says that the encoder went from [e] to [e'] and that the
    decoder [rd], on any final stream that continues [e'], starts where [e] was,
    ends where [e'] was and returns [v].  It composes like the writes do, so a
    lemma per primitive gives the round trip of whole messages. *)

From stdpp Require Import pretty.
From S2P Require Import Prelude Bytes BitStream.

(** ** Bits of a value *)

Lemma land_1 z i : 0 <= i -> Z.land (Z.shiftr z i) 1 = Z.b2z (Z.testbit z i).
Proof.
  intros Hi. change 1 with (Z.ones 1). rewrite Z.land_ones by lia.
  by rewrite Z.shiftr_div_pow2, Z.testbit_spec', Z.pow_1_r by lia.
Qed.

Lemma b2z_testbit_high b j : 8 <= j -> Z.testbit (b2z b) j = false.
Proof.
  intros Hj. pose proof (b2z_range b).
  destruct (Z.eq_dec (b2z b) 0) as [->|]; [apply Z.bits_0|].
  apply Z.bits_above_log2; [lia|]. apply Z.log2_lt_pow2; [lia|].
  pose proof (Z.pow_le_mono_r 2 8 j). lia.
Qed.

Lemma testbit_mod_pow2 z n j : 0 <= n -> 0 <= j -> Z.testbit (z mod 2 ^ n) j = (j <? n) && Z.testbit z j.
Proof.
  intros Hn Hj. destruct (Z.ltb_spec j n).
  - rewrite Z.mod_pow2_bits_low by lia. done.
  - rewrite Z.mod_pow2_bits_high by lia. done.
Qed.

Lemma range_S n : 0 <= n -> range (n + 1) = range n ++ [n].
Proof.
  intros Hn. unfold range. replace (Z.to_nat (n + 1)) with (Z.to_nat n + 1)%nat by lia.
  rewrite seq_app, map_app. simpl. do 2 f_equal. lia.
Qed.

Lemma range_elem n i : In i (range n) <-> 0 <= i < n.
Proof.
  unfold range. rewrite in_map_iff. setoid_rewrite in_seq. split.
  - intros (k & <- & ?). lia.
  - intros ?. exists (Z.to_nat i). lia.
Qed.

(** Collecting the bits of [v] at the indices of a list. *)
Definition gather (index : Z -> Z) (bit : Z -> Z) (is_ : list Z) (acc : Z) : Z :=
  fold_left (fun acc i => Z.lor acc (Z.shiftl (bit i) (index i))) is_ acc.

Lemma gather_ext index bit bit' is_ acc :
  (forall i, In i is_ -> bit i = bit' i) -> gather index bit is_ acc = gather index bit' is_ acc.
Proof.
  revert acc. induction is_ as [|i l IH]; intros acc H; [done|]. unfold gather in *. cbn [fold_left].
  rewrite (H i) by (by left). apply IH. intros j Hj. apply H. by right.
Qed.

Lemma testbit_gather index v is_ acc j :
  0 <= j -> (forall i, In i is_ -> 0 <= index i) ->
  Z.testbit (gather index (fun i => Z.b2z (Z.testbit v (index i))) is_ acc) j =
  Z.testbit acc j || (existsb (fun i => index i =? j) is_ && Z.testbit v j).
Proof.
  intros Hj. revert acc. induction is_ as [|i l IH]; intros acc Hi; cbn [gather fold_left existsb].
  { by rewrite orb_false_r. }
  unfold gather in IH. rewrite IH by (intros; apply Hi; by right).
  rewrite Z.lor_spec, Z.shiftl_spec by lia. specialize (Hi i (or_introl eq_refl)).
  destruct (Z.eqb_spec (index i) j) as [->|Hne]; cbn [orb andb].
  - rewrite Z.sub_diag. rewrite Z.bit0_odd. destruct (Z.testbit v j), (Z.testbit acc j), (existsb _ l); done.
  - replace (Z.testbit (Z.b2z (Z.testbit v (index i))) (j - index i)) with false.
    { by rewrite orb_false_r. }
    destruct (Z.testbit v (index i)); cbn [Z.b2z]; [|by rewrite Z.bits_0].
    symmetry. destruct (Z.ltb_spec j (index i)); [apply Z.testbit_neg_r; lia|].
    apply Z.bits_above_log2; [lia|]. cbn. lia.
Qed.

Definition bit_of (v index : Z) : Z := Z.land (Z.shiftr v index) 1.

Lemma gather_range index v n :
  0 <= n -> (forall i, 0 <= i < n -> 0 <= index i < n) ->
  (forall j, 0 <= j < n -> exists i, 0 <= i < n /\ index i = j) ->
  gather index (fun i => bit_of v (index i)) (range n) 0 = v mod 2 ^ n.
Proof.
  intros Hn Hlo Hsur.
  rewrite (gather_ext _ _ (fun i => Z.b2z (Z.testbit v (index i)))).
  2:{ intros i Hi%range_elem%Hlo. unfold bit_of. apply land_1. lia. }
  apply Z.bits_inj'. intros j Hj. rewrite testbit_gather, testbit_mod_pow2 by
    (try lia; intros i Hi%range_elem; apply Hlo in Hi; lia).
  rewrite Z.bits_0. cbn [orb]. f_equal.
  destruct (Z.ltb_spec j n) as [Hl|Hl].
  - destruct (Hsur j) as (i & Hi & Hj'); [lia|]. apply existsb_exists. exists i.
    split; [by apply range_elem|]. by apply Z.eqb_eq.
  - apply not_true_iff_false. intros (i & Hi%range_elem & Heq%Z.eqb_eq)%existsb_exists.
    apply Hlo in Hi. lia.
Qed.

(** ** The relation between a write and a read *)

Definition wf (e : BitStreamEncoder) : Prop :=
  0 <= bit_position e < 8 /\ 0 <= current_byte e /\
  forall j, Z.testbit (current_byte e) j = true ->
    exists i, 0 <= i < bit_position e /\ j = bit_index_in_byte (bit_order e) i.

(** [bs] is a stream that continues what [e] has written. *)
Definition extends (e : BitStreamEncoder) (bs : bytes) : Prop :=
  exists tail, bs = buffer e ++ tail /\
    (0 < bit_position e -> exists b tail', tail = b :: tail' /\
       forall i, 0 <= i < bit_position e ->
         Z.testbit (b2z b) (bit_index_in_byte (bit_order e) i) =
         Z.testbit (current_byte e) (bit_index_in_byte (bit_order e) i)).

(** The decoder at the position of the encoder. *)
Definition dec_at (e : BitStreamEncoder) (bs : bytes) : BitStreamDecoder :=
  mkDecoder bs (zlen (buffer e)) (bit_position e) (bit_order e).

Definition reads {A} (e e' : BitStreamEncoder) (rd : Read A) (v : A) : Prop :=
  wf e' /\ bit_order e' = bit_order e /\
  forall bs, extends e' bs -> extends e bs /\ rd (dec_at e bs) = Ok (v, dec_at e' bs).

Lemma reads_ret {A} e (v : A) : wf e -> reads e e (fun d => Ok (v, d)) v.
Proof. intros Hwf. split_and!; [done|done|]. by intros bs. Qed.

Lemma reads_bind {A B} e e1 e2 (rd : Read A) v (k : A -> Read B) w :
  reads e e1 rd v -> reads e1 e2 (k v) w ->
  reads e e2 (fun d => let? '(x, d) := rd d in k x d) w.
Proof.
  intros (_ & Ho1 & H1) (Hwf & Ho2 & H2). split_and!; [done|congruence|].
  intros bs (Hx & Hk)%H2. apply H1 in Hx as [Hx Hr]. split; [done|].
  rewrite Hr. cbn [result_bind]. done.
Qed.

Lemma reads_ext {A} e e' (rd rd' : Read A) v :
  (forall bs, rd (dec_at e bs) = rd' (dec_at e bs)) -> reads e e' rd' v -> reads e e' rd v.
Proof.
  intros Hext (Hwf & Ho & H). split_and!; [done|done|]. intros bs Hbs.
  destruct (H bs Hbs) as [Hx Hr]. by rewrite Hext.
Qed.

Lemma reads_map {A B} e e' (rd : Read A) v (f : A -> B) :
  reads e e' rd v -> reads e e' (fun d => let? '(x, d) := rd d in Ok (f x, d)) (f v).
Proof. intros H. eapply reads_bind; [exact H|]. apply reads_ret, H. Qed.

Lemma reads_wf {A} e e' (rd : Read A) v : reads e e' rd v -> wf e'.
Proof. by intros []. Qed.

Lemma wf_new order : wf (encoder_new order).
Proof. split_and!; [simpl; lia..|]. intros j. cbn. by rewrite Z.bits_0. Qed.

Lemma bit_index_range order i : 0 <= i < 8 -> 0 <= bit_index_in_byte order i < 8.
Proof. destruct order; simpl; lia. Qed.

Lemma bit_index_inj order i j :
  bit_index_in_byte order i = bit_index_in_byte order j -> i = j.
Proof. destruct order; simpl; lia. Qed.

Lemma current_byte_range e : wf e -> 0 <= current_byte e < 256.
Proof.
  intros (Hp & Hc & Hb). split; [done|].
  destruct (Z.eq_dec (current_byte e) 0) as [->|Hne]; [lia|].
  apply (Z.log2_lt_pow2 _ 8); [lia|].
  destruct (Hb (Z.log2 (current_byte e))) as (i & Hi & ->); [apply Z.bit_log2; lia|].
  pose proof (bit_index_range (bit_order e) i). lia.
Qed.

Lemma extends_finish e : wf e -> extends e (finish e).
Proof.
  intros Hwf. pose proof (current_byte_range e Hwf) as Hc. unfold finish, extends.
  destruct (Z.ltb_spec 0 (bit_position e)) as [Hp|Hp].
  - exists [z2b (current_byte e)]. split; [done|]. intros _. do 2 eexists. split; [done|].
    intros i _. by rewrite b2z_z2b, Z.mod_small by lia.
  - exists []. rewrite app_nil_r. split; [done|]. lia.
Qed.

(** ** Single bits *)

Lemma byte_at_app e b tail :
  byte_at (mkDecoder (buffer e ++ b :: tail) (zlen (buffer e)) (bit_position e) (bit_order e))
    (zlen (buffer e)) = b2z b.
Proof.
  unfold byte_at, zlen. cbn [d_bytes]. rewrite Nat2Z.id, app_nth2 by lia.
  by rewrite Nat.sub_diag.
Qed.

Definition set_bit (e : BitStreamEncoder) (bit : Z) : Z :=
  if bit =? 0 then current_byte e
  else Z.lor (current_byte e) (Z.shiftl 1 (bit_index_in_byte (bit_order e) (bit_position e))).

Lemma testbit_shiftl_1 i j : 0 <= i -> Z.testbit (Z.shiftl 1 i) j = (j =? i).
Proof.
  intros Hi. rewrite Z.shiftl_1_l. destruct (Z.eqb_spec j i) as [->|Hne].
  - by apply Z.pow2_bits_true.
  - apply Z.pow2_bits_false. congruence.
Qed.

Lemma set_bit_testbit e bit j :
  wf e -> Z.testbit (set_bit e bit) j =
    if j =? bit_index_in_byte (bit_order e) (bit_position e) then negb (bit =? 0)
    else Z.testbit (current_byte e) j.
Proof.
  intros (Hp & Hc & Hb). unfold set_bit.
  pose proof (bit_index_range (bit_order e) (bit_position e) Hp) as Hr.
  assert (Z.testbit (current_byte e) (bit_index_in_byte (bit_order e) (bit_position e)) = false) as Hf.
  { apply not_true_iff_false. intros (i & Hi & Heq)%Hb. apply bit_index_inj in Heq. lia. }
  destruct (Z.eqb_spec j (bit_index_in_byte (bit_order e) (bit_position e))) as [->|Hne].
  - destruct (bit =? 0); [done|]. rewrite Z.lor_spec, testbit_shiftl_1 by lia.
    by rewrite Z.eqb_refl, orb_true_r.
  - destruct (bit =? 0); [done|]. rewrite Z.lor_spec, testbit_shiftl_1 by lia.
    rewrite (proj2 (Z.eqb_neq _ _) Hne). by rewrite orb_false_r.
Qed.

Lemma write_single_bit_eq e bit :
  write_single_bit e bit =
    flush_if_full (mkEncoder (buffer e) (set_bit e bit) (bit_position e + 1) (bit_order e)).
Proof. done. Qed.

Lemma bit_order_write_single_bit e bit : bit_order (write_single_bit e bit) = bit_order e.
Proof. rewrite write_single_bit_eq. unfold flush_if_full. by destruct (_ =? 8). Qed.

Lemma set_bit_nonneg e bit : wf e -> 0 <= set_bit e bit.
Proof.
  intros (Hp & Hc & _). unfold set_bit. destruct (bit =? 0); [done|].
  apply Z.lor_nonneg. split; [done|]. apply Z.shiftl_nonneg. lia.
Qed.

Lemma set_bit_low e bit j :
  wf e -> Z.testbit (set_bit e bit) j = true ->
  exists i, 0 <= i < bit_position e + 1 /\ j = bit_index_in_byte (bit_order e) i.
Proof.
  intros Hwf. rewrite set_bit_testbit by done. pose proof Hwf as (Hp & Hc & Hb).
  destruct (Z.eqb_spec j (bit_index_in_byte (bit_order e) (bit_position e))) as [->|Hne].
  - intros _. exists (bit_position e). split; [lia|done].
  - intros (i & Hi & ->)%Hb. exists i. split; [lia|done].
Qed.

Lemma set_bit_range e bit : wf e -> 0 <= set_bit e bit < 256.
Proof.
  intros Hwf. pose proof (set_bit_nonneg e bit Hwf) as H0. split; [done|].
  destruct (Z.eq_dec (set_bit e bit) 0) as [->|Hne]; [lia|].
  apply (Z.log2_lt_pow2 _ 8); [lia|].
  destruct (set_bit_low e bit (Z.log2 (set_bit e bit)) Hwf) as (i & Hi & ->);
    [apply Z.bit_log2; lia|].
  destruct Hwf as (Hp & _). pose proof (bit_index_range (bit_order e) i). lia.
Qed.

Lemma wf_write_single_bit e bit : wf e -> wf (write_single_bit e bit).
Proof.
  intros Hwf. rewrite write_single_bit_eq. unfold flush_if_full. cbn [bit_position].
  destruct (Z.eqb_spec (bit_position e + 1) 8) as [|Hne].
  - split_and!; [simpl; lia..|]. intros j. cbn. by rewrite Z.bits_0.
  - destruct Hwf as (Hp & Hrest) eqn:E. split_and!; cbn; [lia|lia| |].
    + by apply set_bit_nonneg.
    + intros j. by apply set_bit_low.
Qed.

(** A stream that continues the write of a bit holds it at the position. *)
Lemma extends_write_single_bit e bit bs :
  wf e -> extends (write_single_bit e bit) bs ->
  exists b tail, bs = buffer e ++ b :: tail /\
    forall i, 0 <= i <= bit_position e ->
      Z.testbit (b2z b) (bit_index_in_byte (bit_order e) i) =
      Z.testbit (set_bit e bit) (bit_index_in_byte (bit_order e) i).
Proof.
  intros Hwf. pose proof (set_bit_range e bit Hwf) as Hr.
  rewrite write_single_bit_eq. unfold flush_if_full, extends. cbn [bit_position].
  destruct (Z.eqb_spec (bit_position e + 1) 8) as [Heq|Hne]; cbn [flush_byte buffer current_byte
    bit_position bit_order].
  - intros (tail & -> & _). exists (z2b (set_bit e bit)), tail. rewrite <- app_assoc. split; [done|].
    intros i Hi. by rewrite b2z_z2b, Z.mod_small.
  - intros (tail & -> & (b & tail' & -> & Hb)); [destruct Hwf; lia|]. exists b, tail'.
    split; [done|]. intros i Hi. apply Hb. lia.
Qed.

Lemma reads_single_bit e bit :
  wf e -> reads e (write_single_bit e bit) read_single_bit (if bit =? 0 then 0 else 1).
Proof.
  intros Hwf. split_and!; [by apply wf_write_single_bit|apply bit_order_write_single_bit|].
  intros bs (b & tail & -> & Hb)%extends_write_single_bit; [|done]. pose proof Hwf as (Hp & _).
  split.
  - exists (b :: tail). split; [done|]. intros _. do 2 eexists. split; [done|]. intros i Hi.
    rewrite Hb, set_bit_testbit by (done || lia).
    destruct (Z.eqb_spec (bit_index_in_byte (bit_order e) i)
      (bit_index_in_byte (bit_order e) (bit_position e))) as [Heq%bit_index_inj|]; [lia|done].
  - unfold read_single_bit, dec_at at 1 2. cbn [byte_offset d_bytes bytes_len].
    unfold bytes_len. cbn [d_bytes]. rewrite (proj2 (Z.leb_gt _ _)).
    2:{ rewrite zlen_app, zlen_cons. pose proof (zlen_nonneg tail). lia. }
    f_equal. f_equal.
    + unfold dec_at. cbn [byte_offset bit_offset d_bit_order]. rewrite byte_at_app.
      rewrite land_1 by (apply bit_index_range; done).
      rewrite Hb, set_bit_testbit, Z.eqb_refl by (done || lia). by destruct (bit =? 0).
    + rewrite write_single_bit_eq. unfold advance_if_full, set_offset, dec_at, flush_if_full.
      cbn [byte_offset bit_offset d_bit_order d_bytes bit_position].
      destruct (Z.eqb_spec (bit_position e + 1) 8) as [Heq|Hne]; cbn; [|done].
      by rewrite zlen_app.
Qed.

(** ** Loops over bits *)

Lemma reads_bits_loop index bit is_ acc e :
  wf e -> (forall i, In i is_ -> bit i = 0 \/ bit i = 1) ->
  reads e (fold_left (fun e i => write_single_bit e (bit i)) is_ e)
    (read_bits_loop index is_ acc) (gather index bit is_ acc).
Proof.
  revert e acc. induction is_ as [|i l IH]; intros e acc Hwf Hb; cbn [fold_left gather].
  { by apply reads_ret. }
  cbn [read_bits_loop].
  assert (bit i = (if bit i =? 0 then 0 else 1)) as Hbi.
  { destruct (Hb i) as [->| ->]; [by left|done..]. }
  eapply (reads_bind e _ _ read_single_bit _
    (fun b d => read_bits_loop index l (Z.lor acc (Z.shiftl b (index i))) d)).
  { by apply reads_single_bit. }
  rewrite Hbi at 2. unfold gather. rewrite <- Hbi. apply IH; [by apply wf_write_single_bit|].
  intros j Hj. apply Hb. by right.
Qed.

Lemma bit_of_01 v i : bit_of v i = 0 \/ bit_of v i = 1.
Proof.
  unfold bit_of. replace (Z.land (Z.shiftr v i) 1) with (Z.shiftr v i mod 2 ^ 1)
    by (symmetry; apply (Z.land_ones _ 1); lia).
  pose proof (Z.mod_pos_bound (Z.shiftr v i) (2 ^ 1)). lia.
Qed.

Lemma write_bits_loop_eq e value n :
  write_bits_loop e value n =
  fold_left (fun e' i => write_single_bit e' (bit_of value (value_bit_index (bit_order e) n i)))
    (range n) e.
Proof.
  unfold write_bits_loop. generalize (range n) as l. intros l.
  assert (forall l e', bit_order e' = bit_order e ->
    fold_left (fun e i => write_single_bit e
        (Z.land (Z.shiftr value (value_bit_index (bit_order e) n i)) 1)) l e' =
    fold_left (fun e' i => write_single_bit e' (bit_of value (value_bit_index (bit_order e) n i))) l e')
    as H; [|by apply H].
  clear l. induction l as [|i l IH]; intros e' Ho; [done|]. cbn [fold_left]. rewrite Ho.
  unfold bit_of at 2. apply IH. by rewrite bit_order_write_single_bit.
Qed.

Lemma value_bit_index_perm order n :
  (forall i, 0 <= i < n -> 0 <= value_bit_index order n i < n) /\
  (forall j, 0 <= j < n -> exists i, 0 <= i < n /\ value_bit_index order n i = j).
Proof.
  split; destruct order; cbn; intros x Hx; try lia.
  - exists (n - 1 - x). lia.
  - exists x. lia.
Qed.

Lemma reads_write_bits_loop e value n :
  wf e -> 0 <= n ->
  reads e (write_bits_loop e value n)
    (fun d => read_bits_loop (value_bit_index (d_bit_order d) n) (range n) 0 d) (value mod 2 ^ n).
Proof.
  intros Hwf Hn. rewrite write_bits_loop_eq.
  destruct (value_bit_index_perm (bit_order e) n) as [Hlo Hsur].
  rewrite <- (gather_range (value_bit_index (bit_order e) n) value n Hn Hlo Hsur).
  apply (reads_ext _ _ _ (read_bits_loop (value_bit_index (bit_order e) n) (range n) 0)); [done|].
  apply (reads_bits_loop _ (fun i => bit_of value (value_bit_index (bit_order e) n i))); [done|].
  intros i _. apply bit_of_01.
Qed.

(** ** The fast paths of [write_bits] and [read_bits] *)

Lemma testbit_land_ones z n j :
  0 <= n -> 0 <= j -> Z.testbit (Z.land z (Z.shiftl 1 n - 1)) j = (j <? n) && Z.testbit z j.
Proof.
  intros Hn Hj. replace (Z.shiftl 1 n - 1) with (Z.ones n) by (rewrite Z.ones_equiv, Z.shiftl_1_l; lia).
  rewrite Z.land_spec, Z.testbit_ones_nonneg by lia. by rewrite andb_comm.
Qed.

Lemma shiftl_1_sub_1 n : 0 <= n <= 8 -> (Z.shiftl 1 n - 1) mod 256 = Z.shiftl 1 n - 1.
Proof.
  intros Hn. rewrite Z.shiftl_1_l. apply Z.mod_small.
  pose proof (Z.pow_le_mono_r 2 n 8). pose proof (Z.pow_pos_nonneg 2 n). lia.
Qed.

(** The current byte after the first [k] bits of an [n]-bit value. *)
Definition partial_byte (cur pos value n k : Z) : Z :=
  Z.lor cur (Z.shiftl (Z.shiftr (value mod 2 ^ n) (n - k)) (8 - pos - k)).

Lemma partial_byte_testbit cur pos value n k j :
  0 <= pos -> 0 <= k <= n -> pos + n <= 8 -> 0 <= j ->
  Z.testbit (partial_byte cur pos value n k) j =
  Z.testbit cur j ||
    ((8 - pos - k <=? j) && (j <? 8 - pos) && Z.testbit value (j - (8 - pos - n))).
Proof.
  intros Hp Hk Hn Hj. unfold partial_byte. rewrite Z.lor_spec, Z.shiftl_spec by lia. f_equal.
  destruct (Z.leb_spec (8 - pos - k) j) as [Hle|Hlt]; cbn [andb].
  2:{ apply Z.testbit_neg_r. lia. }
  rewrite Z.shiftr_spec, testbit_mod_pow2 by lia. f_equal.
  - destruct (Z.ltb_spec (j - (8 - pos - k) + (n - k)) n), (Z.ltb_spec j (8 - pos)); lia || done.
  - f_equal. lia.
Qed.

Lemma write_bits_partial e value n k :
  wf e -> bit_order e = MsbFirst -> 0 <= k <= n -> bit_position e + n <= 8 ->
  fold_left (fun e' i => write_single_bit e' (bit_of value (n - 1 - i))) (range k) e =
  flush_if_full (mkEncoder (buffer e) (partial_byte (current_byte e) (bit_position e) value n k)
    (bit_position e + k) MsbFirst).
Proof.
  intros Hwf Ho Hk Hn. pose proof Hwf as (Hp & Hc & Hb).
  assert (0 <= k) as Hk0 by lia. revert k Hk0 Hk. apply (natlike_ind (fun k => 0 <= k <= n -> _)).
  - intros Hk. change (range 0) with (@nil Z). cbn [fold_left]. unfold flush_if_full. cbn [bit_position].
    rewrite (proj2 (Z.eqb_neq _ _)) by lia. destruct e as [buf cur pos ord]. cbn in *. subst ord.
    f_equal; [|lia]. unfold partial_byte.
    pose proof (Z.pow_pos_nonneg 2 n). pose proof (Z.mod_pos_bound value (2 ^ n)).
    rewrite Z.sub_0_r, (Z.shiftr_div_pow2 _ n), Z.div_small by lia.
    by rewrite Z.shiftl_0_l, Z.lor_0_r.
  - intros k Hk0 IH Hk. unfold Z.succ in *. rewrite range_S, fold_left_app, IH by lia.
    cbn [fold_left]. unfold flush_if_full at 1. cbn [bit_position].
    rewrite (proj2 (Z.eqb_neq _ _)) by lia.
    rewrite write_single_bit_eq. unfold set_bit. cbn [buffer current_byte bit_position bit_order].
    f_equal. f_equal; [|lia]. apply Z.bits_inj'. intros j Hj.
    rewrite partial_byte_testbit by lia. unfold bit_of. rewrite land_1 by lia.
    assert (forall x, Z.testbit (if Z.b2z (Z.testbit value (n - 1 - k)) =? 0
        then partial_byte (current_byte e) (bit_position e) value n k
        else Z.lor (partial_byte (current_byte e) (bit_position e) value n k) x) j =
      Z.testbit (partial_byte (current_byte e) (bit_position e) value n k) j ||
      (Z.testbit value (n - 1 - k) && Z.testbit x j)) as ->.
    { intros x. destruct (Z.testbit value (n - 1 - k)); cbn; [by rewrite Z.lor_spec|by rewrite orb_false_r]. }
    rewrite partial_byte_testbit by lia. cbn [bit_index_in_byte].
    rewrite testbit_shiftl_1 by lia.
    destruct (Z.eqb_spec j (7 - (bit_position e + k))) as [->|Hne].
    + replace (7 - (bit_position e + k) - (8 - bit_position e - n)) with (n - 1 - k) by lia.
      rewrite (proj2 (Z.leb_gt _ _)) by lia. rewrite (proj2 (Z.leb_le _ _)) by lia.
      rewrite (proj2 (Z.ltb_lt _ _)) by lia. cbn [andb]. by rewrite orb_false_r, andb_true_r.
    + rewrite andb_false_r, orb_false_r. f_equal. f_equal. f_equal.
      destruct (Z.leb_spec (8 - bit_position e - k) j), (Z.leb_spec (8 - bit_position e - (k + 1)) j);
        lia || done.
Qed.

Lemma land_mod_256 z n : 0 <= n <= 8 -> Z.land (z mod 256) (Z.shiftl 1 n - 1) = z mod 2 ^ n.
Proof.
  intros Hn. apply Z.bits_inj'. intros j Hj. rewrite testbit_land_ones, testbit_mod_pow2 by lia.
  change 256 with (2 ^ 8). rewrite testbit_mod_pow2 by lia.
  destruct (Z.ltb_spec j n); [|done]. by rewrite (proj2 (Z.ltb_lt j 8)) by lia.
Qed.

Lemma write_bits_mask value n :
  0 <= n <= 64 -> Z.land value (if n =? 64 then u64_max else Z.shiftl 1 n - 1) = value mod 2 ^ n.
Proof.
  intros Hn. replace (if n =? 64 then u64_max else Z.shiftl 1 n - 1) with (Z.ones n).
  { apply Z.land_ones. lia. }
  rewrite Z.ones_equiv. destruct (Z.eqb_spec n 64) as [->|]; [done|]. rewrite Z.shiftl_1_l. lia.
Qed.

Lemma write_bits_is_loop e value n :
  wf e -> 1 <= n <= 64 -> write_bits e value n = write_bits_loop e (value mod 2 ^ n) n.
Proof.
  intros Hwf Hn. unfold write_bits. rewrite (proj2 (Z.eqb_neq n 0)) by lia.
  rewrite (proj2 (Z.ltb_ge 64 n)) by lia. cbn [orb]. rewrite write_bits_mask by lia.
  destruct (bool_decide (bit_order e = MsbFirst)) eqn:Ho; cbn [andb]; [|done].
  apply bool_decide_eq_true_1 in Ho.
  destruct (Z.leb_spec n 8) as [H8|]; cbn [andb]; [|done].
  destruct (Z.leb_spec n (8 - bit_position e)) as [Hfit|]; [|done].
  rewrite write_bits_loop_eq, Ho. cbn [value_bit_index].
  rewrite (write_bits_partial e _ n n) by (done || lia). f_equal. f_equal.
  unfold partial_byte. rewrite Z.sub_diag, Z.shiftr_0_r, Z.mod_mod by lia.
  rewrite shiftl_1_sub_1, land_mod_256 by lia. by rewrite Z.mod_mod by lia.
Qed.

(** The bit of the stream at an absolute position, MSB first. *)
Definition stream_bit (d : BitStreamDecoder) (p : Z) : Z :=
  bit_of (byte_at d (p / 8)) (7 - p mod 8).

(** The decoder at an absolute bit position. *)
Definition at_bit (d : BitStreamDecoder) (p : Z) : BitStreamDecoder := set_offset d (p / 8) (p mod 8).

Definition bit_pos (d : BitStreamDecoder) : Z := 8 * byte_offset d + bit_offset d.

Lemma at_bit_pos d p : 0 <= p -> bit_pos (at_bit d p) = p.
Proof. intros. unfold bit_pos, at_bit. cbn. pose proof (Z.div_mod p 8). lia. Qed.

Lemma div_mod_8 b o : 0 <= o < 8 -> (8 * b + o) / 8 = b /\ (8 * b + o) mod 8 = o.
Proof.
  intros Ho. split; symmetry; [apply (Z.div_unique _ _ _ o)|apply (Z.mod_unique _ _ b)]; lia.
Qed.

Lemma at_bit_id d : 0 <= byte_offset d -> 0 <= bit_offset d < 8 -> at_bit d (bit_pos d) = d.
Proof.
  intros H1 H2. destruct d as [bs bo off ord]. unfold at_bit, bit_pos, set_offset. cbn in *.
  destruct (div_mod_8 bo off H2) as [-> ->]. done.
Qed.

Lemma advance_at_bit d bo off :
  0 <= bo -> 0 <= off <= 8 -> advance_if_full (set_offset d bo off) = at_bit d (8 * bo + off).
Proof.
  intros H1 H2. unfold advance_if_full, at_bit, set_offset. cbn.
  destruct (Z.eqb_spec off 8) as [->|].
  - replace (8 * bo + 8) with ((bo + 1) * 8) by lia. rewrite Z.div_mul, Z.mod_mul by lia. done.
  - destruct (div_mod_8 bo off) as [-> ->]; [lia|done].
Qed.

Lemma read_single_bit_at d p :
  d_bit_order d = MsbFirst -> 0 <= p ->
  read_single_bit (at_bit d p) =
    if 8 * bytes_len d <=? p then Err UnexpectedEof else Ok (stream_bit d p, at_bit d (p + 1)).
Proof.
  intros Ho Hp. unfold read_single_bit. change (bytes_len (at_bit d p)) with (bytes_len d).
  change (d_bit_order (at_bit d p)) with (d_bit_order d). rewrite Ho.
  change (byte_offset (at_bit d p)) with (p / 8). change (bit_offset (at_bit d p)) with (p mod 8).
  pose proof (Z.div_mod p 8 ltac:(lia)). pose proof (Z.mod_pos_bound p 8 ltac:(lia)).
  pose proof (Z.div_pos p 8 ltac:(lia) ltac:(lia)).
  replace (bytes_len d <=? p / 8) with (8 * bytes_len d <=? p)
    by (destruct (Z.leb_spec (8 * bytes_len d) p), (Z.leb_spec (bytes_len d) (p / 8)); lia || done).
  destruct (8 * bytes_len d <=? p); [done|].
  change (set_offset (at_bit d p) (p / 8) (p mod 8 + 1)) with (set_offset d (p / 8) (p mod 8 + 1)).
  rewrite advance_at_bit by lia. do 3 f_equal. lia.
Qed.

Definition irange (k n : nat) : list Z := map Z.of_nat (seq k n).

Lemma read_bits_loop_stream index n k acc d p :
  d_bit_order d = MsbFirst -> 0 <= p ->
  read_bits_loop index (irange k n) acc (at_bit d p) =
    if 8 * bytes_len d <? p + Z.of_nat n then
      (if (n =? 0)%nat then Ok (acc, at_bit d p) else Err UnexpectedEof)
    else Ok (gather index (fun i => stream_bit d (p + i - Z.of_nat k)) (irange k n) acc,
             at_bit d (p + Z.of_nat n)).
Proof.
  intros Ho. revert k acc p. induction n as [|n IH]; intros k acc p Hp.
  { cbn. rewrite Z.add_0_r. by destruct (_ <? _). }
  cbn [irange seq map read_bits_loop]. rewrite read_single_bit_at by done.
  destruct (Z.leb_spec (8 * bytes_len d) p) as [Hle|Hlt].
  { cbn [result_bind]. rewrite (proj2 (Z.ltb_lt _ _)) by lia. done. }
  cbn [result_bind]. fold (irange (S k) n). rewrite IH by lia.
  replace (p + 1 + Z.of_nat n) with (p + Z.of_nat (S n)) by lia.
  destruct (Z.ltb_spec (8 * bytes_len d) (p + Z.of_nat (S n))) as [Hs|Hs].
  - destruct n; [lia|done].
  - do 2 f_equal. unfold gather at 2. cbn [fold_left].
    replace (p + Z.of_nat k - Z.of_nat k) with p by lia. apply gather_ext.
    intros i _. f_equal. lia.
Qed.

Lemma stream_bit_at d bo off i :
  0 <= off + i < 8 -> stream_bit d (8 * bo + off + i) = bit_of (byte_at d bo) (7 - (off + i)).
Proof.
  intros Hi. unfold stream_bit. rewrite <- Z.add_assoc.
  by destruct (div_mod_8 bo (off + i) Hi) as [-> ->].
Qed.

Lemma bit_of_testbit v i : 0 <= i -> bit_of v i = Z.b2z (Z.testbit v i).
Proof. apply land_1. Qed.

(** A gathered run of stream bits is the value that has them. *)
Lemma gather_stream d p n v :
  0 <= n -> 0 <= v < 2 ^ n ->
  (forall i, 0 <= i < n -> stream_bit d (p + i) = bit_of v (n - 1 - i)) ->
  gather (value_bit_index MsbFirst n) (fun i => stream_bit d (p + i - Z.of_nat 0)) (range n) 0 = v.
Proof.
  intros Hn Hv Hb. destruct (value_bit_index_perm MsbFirst n) as [Hlo Hsur].
  rewrite <- (Z.mod_small v (2 ^ n)) by done. rewrite <- (gather_range _ v n Hn Hlo Hsur).
  apply gather_ext. intros i Hi%range_elem. cbn [value_bit_index]. rewrite <- Hb by done.
  f_equal. simpl. lia.
Qed.

Lemma one_byte_bits B off n :
  0 <= off -> 1 <= n -> off + n <= 8 ->
  let v := Z.land (Z.shiftr B (8 - off - n)) (Z.shiftl 1 n - 1) in
  0 <= v < 2 ^ n /\ forall i, 0 <= i < n -> bit_of B (7 - (off + i)) = bit_of v (n - 1 - i).
Proof.
  intros H0 H1 H2. cbn zeta. split.
  - replace (Z.shiftl 1 n - 1) with (Z.ones n) by (rewrite Z.ones_equiv, Z.shiftl_1_l; lia).
    rewrite Z.land_ones by lia. apply Z.mod_pos_bound. apply Z.pow_pos_nonneg; lia.
  - intros i Hi. rewrite !bit_of_testbit, testbit_land_ones, Z.shiftr_spec by lia.
    rewrite (proj2 (Z.ltb_lt _ _)) by lia. cbn [andb]. do 2 f_equal. lia.
Qed.

Lemma two_byte_bits B1 B2 off n :
  0 <= off < 8 -> n <= 8 -> 8 < off + n ->
  let k1 := 8 - off in
  let k2 := n - k1 in
  let v := Z.lor (Z.shiftl (Z.land B1 (Z.shiftl 1 k1 - 1)) k2)
             (Z.land (Z.shiftr B2 (8 - k2)) (Z.shiftl 1 k2 - 1)) in
  0 <= v < 2 ^ n /\
  (forall i, 0 <= i < k1 -> bit_of B1 (7 - (off + i)) = bit_of v (n - 1 - i)) /\
  (forall i, k1 <= i < n -> bit_of B2 (7 - (i - k1)) = bit_of v (n - 1 - i)).
Proof.
  intros H0 H1 H2. cbn zeta. set (v := Z.lor _ _).
  assert (forall j, 0 <= j -> Z.testbit v j =
    ((n - (8 - off) <=? j) && (j <? n) && Z.testbit B1 (j - (n - (8 - off))))
    || ((j <? n - (8 - off)) && Z.testbit B2 (j + (8 - (n - (8 - off)))))) as Hv.
  { intros j Hj. subst v. rewrite Z.lor_spec, Z.shiftl_spec by lia.
    rewrite (testbit_land_ones (Z.shiftr _ _)), Z.shiftr_spec by lia. f_equal. destruct (Z.leb_spec (n - (8 - off)) j); cbn [andb].
    - rewrite testbit_land_ones by lia. f_equal.
      destruct (Z.ltb_spec (j - (n - (8 - off))) (8 - off)), (Z.ltb_spec j n); lia || done.
    - apply Z.testbit_neg_r. lia. }
  split_and!.
  - apply Z.bits_iff_nonneg_ex. exists n. intros j Hj. rewrite Hv by lia.
    destruct (Z.leb_spec (n - (8 - off)) j), (Z.ltb_spec j n), (Z.ltb_spec j (n - (8 - off))); done || lia.
  - assert (v = v mod 2 ^ n) as ->; [|apply Z.mod_pos_bound, Z.pow_pos_nonneg; lia].
    apply Z.bits_inj'. intros j Hj. rewrite testbit_mod_pow2, Hv by lia.
    destruct (Z.ltb_spec j n), (Z.ltb_spec j (n - (8 - off))), (Z.leb_spec (n - (8 - off)) j);
      done || lia.
  - intros i Hi. rewrite !bit_of_testbit, Hv by lia. rewrite (proj2 (Z.leb_le _ _)) by lia.
    rewrite (proj2 (Z.ltb_lt _ _)) by lia. rewrite (proj2 (Z.ltb_ge _ _)) by lia. cbn [andb].
    rewrite orb_false_r. do 2 f_equal. lia.
  - intros i Hi. rewrite !bit_of_testbit, Hv by lia. rewrite (proj2 (Z.leb_gt _ _)) by lia.
    rewrite (proj2 (Z.ltb_lt (n - 1 - i) (n - (8 - off)))) by lia. cbn [andb orb]. do 2 f_equal. lia.
Qed.

Lemma read_bits_is_loop d n :
  0 <= byte_offset d -> 0 <= bit_offset d < 8 -> 1 <= n <= 64 ->
  read_bits n d = read_bits_loop (value_bit_index (d_bit_order d) n) (range n) 0 d.
Proof.
  intros Hbo Hoff Hn. unfold read_bits. rewrite (proj2 (Z.eqb_neq n 0)) by lia.
  rewrite (proj2 (Z.ltb_ge 64 n)) by lia. cbn [orb].
  destruct (bool_decide (d_bit_order d = MsbFirst)) eqn:Ho; cbn [andb]; [|done].
  apply bool_decide_eq_true_1 in Ho. destruct (Z.leb_spec n 8) as [H8|]; [|done].
  replace (read_bits_loop (value_bit_index (d_bit_order d) n) (range n) 0 d) with
    (read_bits_loop (value_bit_index MsbFirst n) (irange 0 (Z.to_nat n)) 0 (at_bit d (bit_pos d)))
    by (by rewrite at_bit_id, Ho).
  rewrite read_bits_loop_stream by (done || (unfold bit_pos; lia)).
  change (irange 0 (Z.to_nat n)) with (range n). rewrite (proj2 (Nat.eqb_neq _ _)) by lia.
  unfold bit_pos. rewrite Z2Nat.id by lia.
  destruct (Z.leb_spec n (8 - bit_offset d)) as [Hfit|Hcross].
  - destruct (Z.leb_spec (bytes_len d) (byte_offset d)) as [He|He].
    { by rewrite (proj2 (Z.ltb_lt _ _)) by lia. }
    rewrite (proj2 (Z.ltb_ge _ _)) by lia. rewrite advance_at_bit, shiftl_1_sub_1 by lia.
    destruct (one_byte_bits (byte_at d (byte_offset d)) (bit_offset d) n) as [Hv Hb]; [lia..|].
    rewrite (gather_stream _ _ n _ ltac:(lia) Hv).
    { do 3 f_equal. lia. }
    intros i Hi. rewrite stream_bit_at by lia. by apply Hb.
  - destruct (Z.leb_spec (bytes_len d) (byte_offset d)) as [He|He].
    { by rewrite (proj2 (Z.ltb_lt _ _)) by lia. }
    destruct (Z.leb_spec (bytes_len d) (byte_offset d + 1)) as [He'|He'].
    { by rewrite (proj2 (Z.ltb_lt _ _)) by lia. }
    rewrite (proj2 (Z.ltb_ge _ _)) by lia. rewrite advance_at_bit by lia.
    destruct (two_byte_bits (byte_at d (byte_offset d)) (byte_at d (byte_offset d + 1))
      (bit_offset d) n) as (Hv & Hb1 & Hb2); [lia..|].
    rewrite (gather_stream _ _ n _ ltac:(lia) Hv).
    { do 3 f_equal. lia. }
    intros i Hi. destruct (Z.ltb_spec i (8 - bit_offset d)) as [Hlt|Hge].
    + rewrite stream_bit_at by lia. apply Hb1. lia.
    + replace (8 * byte_offset d + bit_offset d + i) with
        (8 * (byte_offset d + 1) + 0 + (i - (8 - bit_offset d))) by lia.
      rewrite stream_bit_at by lia. apply (Hb2 i). lia.
Qed.

Lemma reads_write_bits e value n :
  wf e -> 1 <= n <= 64 -> reads e (write_bits e value n) (read_bits n) (value mod 2 ^ n).
Proof.
  intros Hwf Hn. rewrite write_bits_is_loop by done.
  pose proof (reads_write_bits_loop e (value mod 2 ^ n) n Hwf ltac:(lia)) as H.
  rewrite Z.mod_mod in H by (apply Z.pow_nonzero; lia).
  eapply reads_ext; [|exact H]. intros bs. destruct Hwf as (Hp & _).
  apply read_bits_is_loop; [apply zlen_nonneg|done..].
Qed.

(** ** Whole bytes *)

Lemma reads_extend {A} e l (rd : Read A) v :
  wf e -> bit_position e = 0 ->
  (forall tail, rd (dec_at e (buffer e ++ l ++ tail)) = Ok (v, dec_at (extend e l) (buffer e ++ l ++ tail))) ->
  reads e (extend e l) rd v.
Proof.
  intros Hwf Hp Hrd. destruct Hwf as (Hpos & Hwf). split_and!; [split; [done|exact Hwf]|done|].
  intros bs (tail & -> & _). cbn [extend buffer]. rewrite <- app_assoc. split; [|apply Hrd].
  exists (l ++ tail). split; [done|]. lia.
Qed.

Lemma reads_aligned_byte (e : BitStreamEncoder) (rd : Read Z) v :
  wf e -> bit_position e = 0 ->
  (forall d, bit_offset d = 0 -> rd d = read_byte d) ->
  reads e (extend e [z2b v]) rd (as_u8 v).
Proof.
  intros Hwf Hp Hrd. apply reads_extend; [done..|]. intros tail.
  rewrite Hrd by done. unfold read_byte, bytes_len, dec_at. cbn [d_bytes byte_offset app].
  rewrite (proj2 (Z.leb_gt _ _)).
  2:{ rewrite !zlen_app, zlen_cons. pose proof (zlen_nonneg tail). lia. }
  rewrite byte_at_app, b2z_z2b. do 2 f_equal. unfold set_offset. cbn. f_equal.
  rewrite zlen_app. done.
Qed.

Lemma reads_aligned_int e (n : nat) endianness v :
  wf e -> bit_position e = 0 ->
  reads e (extend e (to_bytes n endianness v)) (read_aligned (Z.of_nat n) endianness)
    (v mod 256 ^ Z.of_nat n).
Proof.
  intros Hwf Hp. assert (length (to_bytes n endianness v) = n) as Hl.
  { destruct endianness; [apply length_be_bytes|apply length_le_bytes]. }
  assert (zlen (to_bytes n endianness v) = Z.of_nat n) as Hz by (unfold zlen; lia).
  apply reads_extend; [done..|]. intros tail.
  unfold read_aligned, bytes_len, dec_at. cbn [d_bytes byte_offset].
  rewrite !zlen_app, Hz. rewrite (proj2 (Z.ltb_ge _ _)) by (pose proof (zlen_nonneg tail); lia).
  unfold zlen at 1. rewrite !Nat2Z.id, drop_app_length, take_app_length' by done. do 2 f_equal.
  - destruct endianness; [apply from_be_be_bytes|apply from_le_le_bytes].
  - unfold set_offset. cbn. by rewrite zlen_app, Hz.
Qed.

Lemma reads_uint8 e v : wf e -> reads e (write_uint8 e v) read_uint8 (as_u8 v).
Proof.
  intros Hwf. unfold write_uint8. destruct (Z.eqb_spec (bit_position e) 0) as [Hp|Hp].
  - apply reads_aligned_byte; [done..|]. intros d Hd. unfold read_uint8, read_byte. by rewrite Hd.
  - pose proof (reads_bits_loop (fun i => i) (fun i => bit_of v i) (range 8) 0 e Hwf) as H.
    rewrite (gather_range (fun i => i)) in H; [|lia|lia|intros j Hj; exists j; split; lia].
    eapply reads_ext; [|apply H; intros; apply bit_of_01].
    intros bs. unfold read_uint8, dec_at. cbn [bit_offset]. by rewrite (proj2 (Z.eqb_neq _ _)).
Qed.

Lemma wf_write_uint8 e v : wf e -> wf (write_uint8 e v).
Proof. intros. by eapply reads_wf, reads_uint8. Qed.

Lemma reads_byte e v : wf e -> bit_position e = 0 -> reads e (write_byte e v) read_byte (as_u8 v).
Proof. intros. by apply reads_aligned_byte. Qed.

(** The value of bytes read one by one is the value of the integer. *)
Lemma split_at v w k : 0 <= k -> 0 <= w -> k <= w ->
  Z.lor (Z.shiftl (Z.shiftr v k mod 2 ^ (w - k)) k) (v mod 2 ^ k) = v mod 2 ^ w.
Proof.
  intros Hk Hw Hkw. apply Z.bits_inj'. intros j Hj. rewrite Z.lor_spec, Z.shiftl_spec by lia.
  rewrite (testbit_mod_pow2 v k), (testbit_mod_pow2 v w) by lia. destruct (Z.ltb_spec j k) as [Hlt|Hge].
  - rewrite (Z.testbit_neg_r _ (j - k)) by lia. rewrite (proj2 (Z.ltb_lt j w)) by lia. done.
  - rewrite testbit_mod_pow2, Z.shiftr_spec by lia. cbn [andb]. rewrite orb_false_r. f_equal.
    + destruct (Z.ltb_spec (j - k) (w - k)), (Z.ltb_spec j w); done || lia.
    + f_equal. lia.
Qed.

Lemma bytes4 v :
  Z.lor (Z.lor (Z.lor (Z.shiftl (as_u8 (as_u8 (Z.shiftr v 24))) 24)
    (Z.shiftl (as_u8 (as_u8 (Z.shiftr v 16))) 16))
    (Z.shiftl (as_u8 (as_u8 (Z.shiftr v 8))) 8)) (as_u8 (as_u8 v)) = v mod 2 ^ 32.
Proof.
  unfold as_u8. rewrite !Z.mod_mod by lia.
  rewrite <- (split_at v 32 8) by lia. change (32 - 8) with 24.
  rewrite <- (split_at (Z.shiftr v 8) 24 8) by lia. change (24 - 8) with 16.
  rewrite <- (split_at (Z.shiftr (Z.shiftr v 8) 8) 16 8) by lia. change (16 - 8) with 8.
  rewrite !Z.shiftl_lor, !Z.shiftl_shiftl, !Z.shiftr_shiftr by lia. done.
Qed.

Lemma bytes2 v :
  Z.lor (Z.shiftl (as_u8 (as_u8 (Z.shiftr v 8))) 8) (as_u8 (as_u8 v)) = v mod 2 ^ 16.
Proof. unfold as_u8. rewrite !Z.mod_mod by lia. by rewrite <- (split_at v 16 8). Qed.

(** Two reads in a row, and a function of their values. *)
Lemma reads_seq2 {A B} e e1 e2 (rd1 rd2 : Read A) v1 v2 (f : A -> A -> B) :
  reads e e1 rd1 v1 -> reads e1 e2 rd2 v2 ->
  reads e e2 (fun d => let? '(x, d) := rd1 d in let? '(y, d) := rd2 d in Ok (f x y, d)) (f v1 v2).
Proof.
  intros H1 H2. eapply reads_bind; [exact H1|]. eapply reads_bind; [exact H2|].
  eapply reads_ret, reads_wf, H2.
Qed.

(** The read at [dec_at e bs] of the goal, as a function of the decoder. *)
Ltac beta_reads :=
  match goal with
  | |- ?t = _ ?d => let f := eval pattern d in t in
      lazymatch f with ?g _ => exact (eq_refl (g d)) end
  end.

Lemma reads_uint16 e v endianness :
  wf e -> reads e (write_uint16 e v endianness) (read_uint16 endianness) (v mod 2 ^ 16).
Proof.
  intros Hwf. unfold write_uint16. destruct (Z.eqb_spec (bit_position e) 0) as [Hp|Hp].
  - eapply reads_ext; [|exact (reads_aligned_int e 2 endianness v Hwf Hp)].
    intros bs. unfold read_uint16, dec_at. cbn [bit_offset]. by rewrite Hp.
  - rewrite <- bytes2. destruct endianness; (eapply reads_ext;
      [intros bs; unfold read_uint16; change (bit_offset (dec_at e bs)) with (bit_position e);
       rewrite (proj2 (Z.eqb_neq _ _) Hp); beta_reads|]).
    + eapply (reads_seq2 _ _ _ _ _ _ _ (fun h l => Z.lor (Z.shiftl h 8) l));
        eauto using reads_uint8, reads_wf.
    + eapply (reads_seq2 _ _ _ _ _ _ _ (fun l h => Z.lor (Z.shiftl h 8) l));
        eauto using reads_uint8, reads_wf.
Qed.

Lemma reads_uint32 e v endianness :
  wf e -> reads e (write_uint32 e v endianness) (read_uint32 endianness) (v mod 2 ^ 32).
Proof.
  intros Hwf. unfold write_uint32. destruct (Z.eqb_spec (bit_position e) 0) as [Hp|Hp].
  - eapply reads_ext; [|exact (reads_aligned_int e 4 endianness v Hwf Hp)].
    intros bs. unfold read_uint32, dec_at. cbn [bit_offset]. by rewrite Hp.
  - rewrite <- bytes4.
    eapply reads_ext;
      [intros bs; unfold read_uint32; change (bit_offset (dec_at e bs)) with (bit_position e);
       rewrite (proj2 (Z.eqb_neq _ _) Hp); beta_reads|].
    destruct endianness; cbn zeta;
      (do 4 (eapply reads_bind; [apply reads_uint8; auto using wf_write_uint8|]; cbv beta);
       apply reads_ret; auto 6 using wf_write_uint8).
Qed.

Lemma reads_uint64 e v endianness :
  wf e -> reads e (write_uint64 e v endianness) (read_uint64 endianness) (v mod 2 ^ 64).
Proof.
  intros Hwf. unfold write_uint64. destruct (Z.eqb_spec (bit_position e) 0) as [Hp|Hp].
  - eapply reads_ext; [|exact (reads_aligned_int e 8 endianness v Hwf Hp)].
    intros bs. unfold read_uint64, dec_at. cbn [bit_offset]. by rewrite Hp.
  - replace (v mod 2 ^ 64) with
      (Z.lor (Z.shiftl (as_u32 (Z.shiftr v 32) mod 2 ^ 32) 32) (as_u32 v mod 2 ^ 32))
      by (unfold as_u32; rewrite !Z.mod_mod by lia; apply (split_at v 64 32); lia).
    destruct endianness; (eapply reads_ext;
      [intros bs; unfold read_uint64; change (bit_offset (dec_at e bs)) with (bit_position e);
       rewrite (proj2 (Z.eqb_neq _ _) Hp); beta_reads|]).
    + eapply (reads_seq2 _ _ _ _ _ _ _ (fun h l => Z.lor (Z.shiftl h 32) l));
        eauto using reads_uint32, reads_wf.
    + eapply (reads_seq2 _ _ _ _ _ _ _ (fun l h => Z.lor (Z.shiftl h 32) l));
        eauto using reads_uint32, reads_wf.
Qed.

Lemma as_signed_mod w v : 0 < w -> - 2 ^ (w - 1) <= v < 2 ^ (w - 1) -> as_signed w (v mod 2 ^ w) = v.
Proof.
  intros Hw Hv. unfold as_signed. rewrite Zplus_mod_idemp_l.
  assert (2 ^ w = 2 * 2 ^ (w - 1)) as Hp.
  { rewrite <- Z.pow_succ_r by lia. f_equal. lia. }
  rewrite Z.mod_small by lia. lia.
Qed.
