(* ===== verification/Codec.v ===== *)
(** * The language of the generated codecs

    [crates/proto/src/generated*.rs] are straight-line programs over the bit-stream
    runtime: an encoder is a sequence of writes, a decoder a sequence of reads.
    [Encode] and [Read] are these sequences, with [>>] for [;] (and its [?]) and
    [let!] for [let x = ...?;].

    [carries enc rd v]: on a byte-aligned stream [enc] appends some bytes, the same
    ones whatever came before, and [rd] reads exactly these bytes back as [v],
    whatever follows.  The lemmas on each step compose to the codecs of messages. *)

From stdpp Require Import pretty.
From S2P Require Import Prelude Bytes Utf8 BitStream BitStreamFacts.

(** ** Encoders *)

Abbreviation Encode := (BitStreamEncoder -> result BinSchemaError BitStreamEncoder).

Definition then_encode (a b : Encode) : Encode := fun e => let? e := a e in b e.

Declare Scope codec_scope.
Delimit Scope codec_scope with codec.
Open Scope codec_scope.
Infix ">>" := then_encode (at level 60, right associativity) : codec_scope.

(** [Ok(())]. *)
Definition ok_unit : Encode := fun e => Ok e.

Definition put (w : BitStreamEncoder -> Z -> BitStreamEncoder) (v : Z) : Encode :=
  fun e => Ok (w e v).

(** [for b in bytes { encoder.write(b) }]. *)
Definition put_bytes (w : BitStreamEncoder -> Z -> BitStreamEncoder) (l : bytes) : Encode :=
  fun e => Ok (fold_left (fun e b => w e (b2z b)) l e).

(** [for item in list { item.encode_into(encoder)?; }]. *)
Fixpoint for_each {A} (enc : A -> Encode) (l : list A) : Encode := fun e =>
  match l with
  | [] => Ok e
  | x :: l => let? e := enc x e in for_each enc l e
  end.

(** The big-endian writes with an explicit endianness, and the writes that cast. *)
Definition uint16_be (e : BitStreamEncoder) (v : Z) : BitStreamEncoder := write_uint16 e v BigEndian.
Definition uint32_be (e : BitStreamEncoder) (v : Z) : BitStreamEncoder := write_uint32 e v BigEndian.
Definition uint64_be (e : BitStreamEncoder) (v : Z) : BitStreamEncoder := write_uint64 e v BigEndian.
Definition int32_be (e : BitStreamEncoder) (v : Z) : BitStreamEncoder := write_int32 e v BigEndian.
Definition int64_be (e : BitStreamEncoder) (v : Z) : BitStreamEncoder := write_int64 e v BigEndian.
Definition float64_be (e : BitStreamEncoder) (bits : Z) : BitStreamEncoder := write_float64 e bits BigEndian.

(** [value as u8], [as u16], [as u32], [as u64] of a length or a signed field. *)
Definition cast_u8 (v : Z) : Z := v mod 2 ^ 8.
Definition cast_u16 (v : Z) : Z := v mod 2 ^ 16.
Definition cast_u32 (v : Z) : Z := v mod 2 ^ 32.
Definition cast_u64 (v : Z) : Z := v mod 2 ^ 64.

(** [s.chars().map(|c| c as u8).collect()]. *)
Definition char_bytes (s : bytes) : bytes := map z2b (chars s).

(** [bytes.iter().map(|&b| b as char).collect::<String>()]. *)
Definition ascii_string (l : bytes) : bytes := collect (map b2z l).

(** [T::encode]. *)
Definition encode_with {A} (encode_into : A -> Encode) (x : A) : result BinSchemaError bytes :=
  let? e := encode_into x (encoder_new MsbFirst) in Ok (finish e).

(** ** Decoders *)

Definition ret {A} (v : A) : Read A := fun d => Ok (v, d).
Definition fail {A} (err : BinSchemaError) : Read A := fun _ => Err err.
Definition bind_read {A B} (rd : Read A) (k : A -> Read B) : Read B :=
  fun d => let? '(x, d) := rd d in k x d.

Notation "'let!' x ':=' r 'in' k" := (bind_read r (fun x => k))
  (at level 10, x name, r at level 100, k at level 200) : codec_scope.

(** [if got != expected { return Err(InvalidVariant(format!("expected .., got .."))) }]. *)
Definition expect (expected got : Z) : Read unit :=
  if got =? expected then ret tt
  else fail (InvalidVariant ("expected " +:+ pretty expected +:+ ", got " +:+ pretty got)).

(** [String::from_utf8(bytes).map_err(|_| InvalidUtf8)?]. *)
Definition from_utf8 (l : bytes) : Read bytes :=
  if valid_utf8 l then ret l else fail InvalidUtf8.

(** [for _ in 0..length { let item = ..?; v.push(item); }]. *)
Fixpoint read_items {A} (n : nat) (rd : Read A) : Read (list A) :=
  match n with
  | O => ret []
  | S n => let! item := rd in let! items := read_items n rd in ret (item :: items)
  end.

Definition read_vec {A} (length_ : Z) (rd : Read A) : Read (list A) := read_items (Z.to_nat length_) rd.

(** One arm of a union: [if let Ok(v) = V::decode_with_decoder(decoder) { return Ok(..) }]
    then [decoder.seek(start_pos)?].  A failed arm leaves the bytes alone and [seek]
    sets the offsets, so the position the arm stopped at does not matter. *)
Definition try_variant {A B} (start_pos : Z) (dec : Read A) (inj : A -> B) (next : Read B) : Read B :=
  fun d =>
    match dec d with
    | Ok (v, d') => Ok (inj v, d')
    | Err _ => let? d := seek d start_pos in next d
    end.

(** The last arm, and the error of the union. *)
Definition last_variant {A B} (dec : Read A) (inj : A -> B) : Read B :=
  fun d =>
    match dec d with
    | Ok (v, d') => Ok (inj v, d')
    | Err _ => Err (InvalidVariant "no variant matched the input bytes")
    end.

(** [T::decode]. *)
Definition decode_with {A} (rd : Read A) (l : bytes) : result BinSchemaError A :=
  let? '(v, _) := rd (decoder_new l MsbFirst) in Ok v.

(** ** What a codec carries *)

Definition produces (enc : Encode) (l : bytes) : Prop :=
  forall e, bit_position e = 0 -> enc e = Ok (extend e l).

Definition consumes {A} (rd : Read A) (l : bytes) (v : A) : Prop :=
  forall pre rest ord,
    rd (mkDecoder (pre ++ l ++ rest) (zlen pre) 0 ord)
    = Ok (v, mkDecoder (pre ++ l ++ rest) (zlen pre + zlen l) 0 ord).

Definition carries {A} (enc : Encode) (rd : Read A) (v : A) : Prop :=
  exists l, produces enc l /\ consumes rd l v.

Lemma extend_nil e : extend e [] = e.
Proof. unfold extend. rewrite app_nil_r. by destruct e. Qed.

Lemma extend_app e l1 l2 : extend (extend e l1) l2 = extend e (l1 ++ l2).
Proof. unfold extend. cbn. by rewrite app_assoc. Qed.

Lemma produces_seq a b l1 l2 : produces a l1 -> produces b l2 -> produces (a >> b) (l1 ++ l2).
Proof.
  intros Ha Hb e He. unfold then_encode. rewrite Ha by done. cbn [result_bind].
  rewrite Hb by done. by rewrite extend_app.
Qed.

Lemma consumes_bind {A B} (rd : Read A) (k : A -> Read B) l1 l2 v w :
  consumes rd l1 v -> consumes (k v) l2 w -> consumes (bind_read rd k) (l1 ++ l2) w.
Proof.
  intros H1 H2 pre rest ord. unfold bind_read. rewrite <- (app_assoc l1), (H1 pre). cbn [result_bind].
  pose proof (H2 (pre ++ l1) rest ord) as H. rewrite zlen_app, <- !app_assoc in H.
  rewrite H. rewrite zlen_app. do 3 f_equal. lia.
Qed.

Lemma carries_step {A B} enc1 enc2 (rd : Read A) (k : A -> Read B) v w :
  carries enc1 rd v -> carries enc2 (k v) w -> carries (enc1 >> enc2) (bind_read rd k) w.
Proof.
  intros (l1 & P1 & C1) (l2 & P2 & C2). exists (l1 ++ l2).
  split; [by apply produces_seq|by eapply consumes_bind].
Qed.

(** A read that only looks at a value. *)
Lemma carries_pure {A B} enc (rd : Read A) (k : A -> Read B) v w :
  rd = ret v -> carries enc (k v) w -> carries enc (bind_read rd k) w.
Proof.
  intros -> (l & P & C). exists l. split; [done|]. intros pre rest ord. unfold bind_read, ret. apply C.
Qed.

Lemma carries_ok {A} (v w : A) : v = w -> carries ok_unit (ret v) w.
Proof.
  intros ->. exists []. split; [intros e _; by rewrite extend_nil|]. intros pre rest ord.
  unfold ret. do 3 f_equal. rewrite zlen_nil. lia.
Qed.

(** ** Fixed-width integers *)

Lemma consumes_byte b : consumes read_byte [b] (b2z b).
Proof.
  intros pre rest ord. unfold read_byte, bytes_len. cbn [d_bytes byte_offset].
  rewrite (proj2 (Z.leb_gt _ _)).
  2:{ rewrite !zlen_app, zlen_cons. pose proof (zlen_nonneg rest). pose proof (zlen_nonneg (@nil u8)). lia. }
  unfold byte_at, set_offset. cbn [d_bytes bit_offset d_bit_order app]. unfold zlen at 1.
  rewrite Nat2Z.id, app_nth2 by lia. by rewrite Nat.sub_diag.
Qed.

Lemma consumes_uint8 b : consumes read_uint8 [b] (b2z b).
Proof. intros pre rest ord. exact (consumes_byte b pre rest ord). Qed.

Lemma consumes_aligned (n : nat) endianness v :
  0 <= v < 256 ^ Z.of_nat n ->
  consumes (read_aligned (Z.of_nat n) endianness) (to_bytes n endianness v) v.
Proof.
  intros Hv pre rest ord. assert (length (to_bytes n endianness v) = n) as Hl.
  { destruct endianness; [apply length_be_bytes|apply length_le_bytes]. }
  assert (zlen (to_bytes n endianness v) = Z.of_nat n) as Hz by (unfold zlen; lia).
  unfold read_aligned, bytes_len. cbn [d_bytes byte_offset]. rewrite !zlen_app, Hz.
  rewrite (proj2 (Z.ltb_ge _ _)) by (pose proof (zlen_nonneg rest); lia).
  unfold zlen at 1. rewrite !Nat2Z.id, drop_app_length, take_app_length' by done. do 2 f_equal.
  destruct endianness; cbn [from_bytes to_bytes].
  - by rewrite from_be_be_bytes_id.
  - rewrite from_le_le_bytes. by apply Z.mod_small.
Qed.

Lemma produces_put w v l :
  (forall e, bit_position e = 0 -> w e v = extend e l) -> produces (put w v) l.
Proof. intros H e He. unfold put. by rewrite H. Qed.

Section Primitives.
  Context (v : Z).

Lemma z2b_range : 0 <= v < 256 -> b2z (z2b v) = v.
Proof. intros. rewrite b2z_z2b. by apply Z.mod_small. Qed.

Lemma aligned_uint8 e : bit_position e = 0 -> write_uint8 e v = extend e [z2b v].
Proof. intros He. unfold write_uint8. by rewrite He. Qed.

Lemma carries_byte : 0 <= v < 2 ^ 8 -> carries (put write_byte v) read_byte v.
Proof.
  intros Hv. exists [z2b v]. split; [by apply produces_put|]. rewrite <- (z2b_range Hv) at 2.
  apply consumes_byte.
Qed.

Lemma carries_uint8_byte : 0 <= v < 2 ^ 8 -> carries (put write_uint8 v) read_byte v.
Proof.
  intros Hv. exists [z2b v]. split; [by apply produces_put, aligned_uint8|].
  rewrite <- (z2b_range Hv) at 2. apply consumes_byte.
Qed.

Lemma carries_uint8 : 0 <= v < 2 ^ 8 -> carries (put write_uint8 v) read_uint8 v.
Proof.
  intros Hv. exists [z2b v]. split; [by apply produces_put, aligned_uint8|].
  rewrite <- (z2b_range Hv) at 2. apply consumes_uint8.
Qed.

Lemma carries_u16 : 0 <= v < 2 ^ 16 -> carries (put write_u16_be v) read_u16_be v.
Proof.
  intros Hv. exists (be_bytes 2 v). split; [by apply produces_put|].
  by apply (consumes_aligned 2 BigEndian).
Qed.

Lemma carries_u32 : 0 <= v < 2 ^ 32 -> carries (put write_u32_be v) read_u32_be v.
Proof.
  intros Hv. exists (be_bytes 4 v). split; [by apply produces_put|].
  by apply (consumes_aligned 4 BigEndian).
Qed.

Lemma carries_u64 : 0 <= v < 2 ^ 64 -> carries (put write_u64_be v) read_u64_be v.
Proof.
  intros Hv. exists (be_bytes 8 v). split; [by apply produces_put|].
  by apply (consumes_aligned 8 BigEndian).
Qed.

Lemma carries_uint16 : 0 <= v < 2 ^ 16 -> carries (put uint16_be v) read_u16_be v.
Proof.
  intros Hv. destruct (carries_u16 Hv) as (l & Hp & Hc). exists l. split; [|done].
  intros e He. rewrite <- (Hp e He). unfold put, uint16_be, write_uint16. by rewrite He.
Qed.

Lemma carries_uint32 : 0 <= v < 2 ^ 32 -> carries (put uint32_be v) read_u32_be v.
Proof.
  intros Hv. destruct (carries_u32 Hv) as (l & Hp & Hc). exists l. split; [|done].
  intros e He. rewrite <- (Hp e He). unfold put, uint32_be, write_uint32. by rewrite He.
Qed.

Lemma carries_uint64 : 0 <= v < 2 ^ 64 -> carries (put uint64_be v) read_u64_be v.
Proof.
  intros Hv. destruct (carries_u64 Hv) as (l & Hp & Hc). exists l. split; [|done].
  intros e He. rewrite <- (Hp e He). unfold put, uint64_be, write_uint64. by rewrite He.
Qed.

Lemma carries_float64 : 0 <= v < 2 ^ 64 -> carries (put float64_be v) read_u64_be v.
Proof. apply carries_uint64. Qed.
End Primitives.

(** A signed integer travels as its two's complement. *)
Lemma carries_map {A B} enc (rd : Read A) (f : A -> B) v :
  carries enc rd v -> carries enc (let! x := rd in ret (f x)) (f v).
Proof.
  intros (l & P & C). exists l. split; [done|]. intros pre rest ord. unfold bind_read. by rewrite C.
Qed.

Lemma carries_i32 v :
  - 2 ^ 31 <= v < 2 ^ 31 ->
  carries (put int32_be v) (let! x := read_u32_be in ret (as_signed 32 x)) v /\
  carries (put write_u32_be (cast_u32 v)) (let! x := read_u32_be in ret (as_signed 32 x)) v.
Proof.
  intros Hv. pose proof (Z.mod_pos_bound v (2 ^ 32) ltac:(lia)).
  split; rewrite <- (as_signed_mod 32 v) at 2 by (done || lia);
    apply (carries_map _ read_u32_be (as_signed 32) (v mod 2 ^ 32));
    [by apply (carries_uint32 (v mod 2 ^ 32))|by apply (carries_u32 (v mod 2 ^ 32))].
Qed.

Lemma carries_i64 v :
  - 2 ^ 63 <= v < 2 ^ 63 ->
  carries (put int64_be v) (let! x := read_u64_be in ret (as_signed 64 x)) v /\
  carries (put write_u64_be (cast_u64 v)) (let! x := read_u64_be in ret (as_signed 64 x)) v.
Proof.
  intros Hv. pose proof (Z.mod_pos_bound v (2 ^ 64) ltac:(lia)).
  split; rewrite <- (as_signed_mod 64 v) at 2 by (done || lia);
    apply (carries_map _ read_u64_be (as_signed 64) (v mod 2 ^ 64));
    [by apply (carries_uint64 (v mod 2 ^ 64))|by apply (carries_u64 (v mod 2 ^ 64))].
Qed.

(** ** Byte strings and lists *)

Lemma produces_put_bytes w l :
  (forall e v, bit_position e = 0 -> w e v = extend e [z2b v]) -> produces (put_bytes w l) l.
Proof.
  intros Hw. induction l as [|b l IH]; intros e He; unfold put_bytes in *; cbn [fold_left].
  { by rewrite extend_nil. }
  rewrite Hw, z2b_b2z by done. rewrite (IH (extend e [b])) by done. by rewrite extend_app.
Qed.

Lemma consumes_bytes_vec n l : n = zlen l -> consumes (read_bytes_vec n) l l.
Proof.
  intros -> pre rest ord. unfold read_bytes_vec. cbn [bit_offset Z.eqb negb].
  unfold remaining_bytes, sat_sub, bytes_len. cbn [d_bytes byte_offset].
  rewrite (proj2 (Z.ltb_ge _ _)).
  2:{ rewrite !zlen_app. pose proof (zlen_nonneg rest). pose proof (zlen_nonneg l). lia. }
  unfold zlen at 1 2. rewrite !Nat2Z.id, drop_app_length, take_app_length. done.
Qed.

Lemma carries_bytes n l : n = zlen l -> carries (put_bytes write_byte l) (read_bytes_vec n) l.
Proof. intros. exists l. split; [by apply produces_put_bytes|by apply consumes_bytes_vec]. Qed.

Lemma carries_bytes_uint8 n l : n = zlen l -> carries (put_bytes write_uint8 l) (read_bytes_vec n) l.
Proof.
  intros. exists l. split; [|by apply consumes_bytes_vec].
  apply produces_put_bytes. intros. by apply aligned_uint8.
Qed.

Lemma carries_vec {A} (enc : A -> Encode) (rd : Read A) n l :
  n = zlen l -> (forall x, In x l -> carries (enc x) rd x) -> carries (for_each enc l) (read_vec n rd) l.
Proof.
  intros -> H. unfold read_vec, zlen. rewrite Nat2Z.id. induction l as [|x l IH].
  { exact (carries_ok [] [] eq_refl). }
  destruct (H x) as (l1 & P1 & C1); [by left|].
  destruct IH as (l2 & P2 & C2); [intros; apply H; by right|].
  exists (l1 ++ l2). split.
  - intros e He. cbn [for_each]. rewrite P1 by done. cbn [result_bind].
    rewrite P2 by done. by rewrite extend_app.
  - cbn [length read_items]. eapply consumes_bind; [exact C1|].
    rewrite <- (app_nil_r l2). eapply consumes_bind; [exact C2|].
    intros pre rest ord. unfold ret. change (zlen (@nil u8)) with 0. by rewrite Z.add_0_r.
Qed.

(** ** Strings *)

Lemma from_utf8_valid s : valid_utf8 s = true -> from_utf8 s = ret s.
Proof. intros H. unfold from_utf8. by rewrite H. Qed.

(** The characters of an ASCII (or Latin-1) field survive the narrowing. *)
Lemma ascii_string_char_bytes s :
  valid_utf8 s = true -> forallb (fun c => (0 <=? c) && (c <? 256)) (chars s) = true ->
  ascii_string (char_bytes s) = s.
Proof.
  intros Hv Hc. unfold ascii_string, char_bytes. rewrite map_map.
  rewrite <- (collect_chars s Hv) at 2. f_equal. rewrite <- (map_id (chars s)) at 2.
  apply map_ext_in. intros c Hin. rewrite forallb_forall in Hc. specialize (Hc c Hin).
  rewrite andb_true_iff, Z.leb_le, Z.ltb_lt in Hc. rewrite b2z_z2b. by apply Z.mod_small.
Qed.

Lemma expect_self v : expect v v = ret tt.
Proof. unfold expect. by rewrite Z.eqb_refl. Qed.

(** ** Unions *)

(** The decoder of an arm refuses an input that starts with another tag. *)
Definition rejects {A} (rd : Read A) (tag : Z) : Prop :=
  forall pre b rest ord, b2z b <> tag ->
    exists err, rd (mkDecoder (pre ++ b :: rest) (zlen pre) 0 ord) = Err err.

Lemma rejects_tag {A} tag (k : Z -> Read A) :
  rejects (let! t := read_byte in let! u := expect tag t in k t) tag.
Proof.
  intros pre b rest ord Hb. unfold bind_read at 1.
  change (b :: rest) with ([b] ++ rest). rewrite (consumes_byte b pre rest ord).
  cbn [result_bind]. unfold bind_read, expect. rewrite (proj2 (Z.eqb_neq _ _)) by done. by eexists.
Qed.

(** A codec whose bytes start with [tag]. *)
Definition carries_tag {A} (tag : Z) (enc : Encode) (rd : Read A) (v : A) : Prop :=
  exists b l, b2z b = tag /\ produces enc (b :: l) /\ consumes rd (b :: l) v.

Lemma carries_tag_step {A} tag (w : BitStreamEncoder -> Z -> BitStreamEncoder) enc (k : Z -> Read A) v :
  0 <= tag < 2 ^ 8 -> (forall e, bit_position e = 0 -> w e tag = extend e [z2b tag]) ->
  carries enc (k tag) v -> carries_tag tag (put w tag >> enc) (bind_read read_byte k) v.
Proof.
  intros Ht Hw (l & P & C). exists (z2b tag), l. split; [by apply z2b_range|]. split.
  - apply (produces_seq _ _ [z2b tag] l); [by apply produces_put|done].
  - apply (consumes_bind _ _ [z2b tag] l tag); [|done]. rewrite <- (z2b_range tag Ht) at 2.
    apply consumes_byte.
Qed.

Lemma seek_back pre rest ord :
  seek (mkDecoder (pre ++ rest) (zlen pre) 0 ord) (zlen pre) = Ok (mkDecoder (pre ++ rest) (zlen pre) 0 ord).
Proof.
  unfold seek, bytes_len. cbn [d_bytes]. rewrite (proj2 (Z.ltb_ge _ _)); [done|].
  rewrite zlen_app. pose proof (zlen_nonneg rest). lia.
Qed.

Lemma try_skip {A B} tag (dec : Read A) (inj : A -> B) next pre b rest ord :
  rejects dec tag -> b2z b <> tag ->
  let d := mkDecoder (pre ++ b :: rest) (zlen pre) 0 ord in
  try_variant (zlen pre) dec inj next d = next d.
Proof.
  intros Hr Hb. cbn zeta. unfold try_variant. destruct (Hr pre b rest ord Hb) as [err ->].
  by rewrite seek_back.
Qed.

Lemma try_hit {A B} (dec : Read A) (inj : A -> B) start next d v d' :
  dec d = Ok (v, d') -> try_variant start dec inj next d = Ok (inj v, d').
Proof. intros H. unfold try_variant. by rewrite H. Qed.

Lemma last_hit {A B} (dec : Read A) (inj : A -> B) d v d' :
  dec d = Ok (v, d') -> last_variant dec inj d = Ok (inj v, d').
Proof. intros H. unfold last_variant. by rewrite H. Qed.

(** ** Whole messages *)

Lemma carries_roundtrip {A} (encode_into : A -> Encode) (rd : Read A) v :
  carries (encode_into v) rd v ->
  exists l, encode_with encode_into v = Ok l /\ decode_with rd l = Ok v.
Proof.
  intros (l & P & C). exists l. unfold encode_with, decode_with.
  rewrite (P (encoder_new MsbFirst)) by done. split; [done|].
  pose proof (C [] [] MsbFirst) as H. rewrite app_nil_r in H. cbn [app] in H. unfold decoder_new.
  change (zlen (@nil u8)) with 0 in H. by rewrite H.
Qed.

(** ** The values a field can represent, and automation *)

Definition u_ok (w v : Z) : bool := (0 <=? v) && (v <? 2 ^ w).
Definition i_ok (w v : Z) : bool := (- 2 ^ (w - 1) <=? v) && (v <? 2 ^ (w - 1)).
Definition const_ok (c v : Z) : bool := v =? c.
(** A length that fits its prefix of [w] bits. *)
Definition len_ok {A} (w : Z) (l : list A) : bool := zlen l <? 2 ^ w.
Definition fixed_ok (n : Z) (l : bytes) : bool := zlen l =? n.
Definition utf8_ok (w : Z) (s : bytes) : bool := valid_utf8 s && len_ok w s.
(** A field written one byte per character: characters up to U+00FF. *)
Definition ascii_ok (w : Z) (s : bytes) : bool :=
  valid_utf8 s && forallb (fun c => (0 <=? c) && (c <? 256)) (chars s) && len_ok w (chars s).
Definition vec_ok {A} (w : Z) (p : A -> bool) (l : list A) : bool := len_ok w l && forallb p l.
Definition opt_ok (n : Z) (o : option bytes) : bool :=
  match o with Some l => fixed_ok n l | None => true end.

Lemma u_ok_spec w v : u_ok w v = true -> 0 <= v < 2 ^ w.
Proof. unfold u_ok. by rewrite andb_true_iff, Z.leb_le, Z.ltb_lt. Qed.

Lemma i_ok_spec w v : i_ok w v = true -> - 2 ^ (w - 1) <= v < 2 ^ (w - 1).
Proof. unfold i_ok. by rewrite andb_true_iff, Z.leb_le, Z.ltb_lt. Qed.

Lemma const_ok_spec c v : const_ok c v = true -> v = c.
Proof. apply Z.eqb_eq. Qed.

Lemma fixed_ok_spec n l : fixed_ok n l = true -> n = zlen l.
Proof. intros H%Z.eqb_eq. done. Qed.

Lemma len_ok_spec {A} w (l : list A) : len_ok w l = true -> 0 <= zlen l < 2 ^ w.
Proof. intros H%Z.ltb_lt. pose proof (zlen_nonneg l). lia. Qed.

Lemma utf8_valid w s : utf8_ok w s = true -> valid_utf8 s = true.
Proof. by intros [? _]%andb_true_iff. Qed.
Lemma utf8_len w s : utf8_ok w s = true -> len_ok w s = true.
Proof. by intros [_ ?]%andb_true_iff. Qed.
Lemma ascii_len w s : ascii_ok w s = true -> len_ok w (chars s) = true.
Proof. by intros [_ ?]%andb_true_iff. Qed.
Lemma ascii_back w s : ascii_ok w s = true -> ascii_string (char_bytes s) = s.
Proof. intros [[Hv Hc]%andb_true_iff _]%andb_true_iff. by apply ascii_string_char_bytes. Qed.
Lemma vec_len {A} w p (l : list A) : vec_ok w p l = true -> len_ok w l = true.
Proof. by intros [? _]%andb_true_iff. Qed.

Lemma zlen_char_bytes s : zlen (chars s) = zlen (char_bytes s).
Proof. unfold char_bytes. by rewrite zlen_map. Qed.

Lemma cast_len {A} w (l : list A) : len_ok w l = true -> zlen l mod 2 ^ w = zlen l.
Proof. intros ?%len_ok_spec. by apply Z.mod_small. Qed.

Section Lengths.
  Context {A : Type} (l : list A).

Lemma carries_len8 : len_ok 8 l = true -> carries (put write_byte (cast_u8 (zlen l))) read_byte (zlen l).
Proof. intros H. unfold cast_u8. rewrite cast_len by done. by apply carries_byte, len_ok_spec. Qed.
Lemma carries_len16 : len_ok 16 l = true -> carries (put write_u16_be (cast_u16 (zlen l))) read_u16_be (zlen l).
Proof. intros H. unfold cast_u16. rewrite cast_len by done. by apply carries_u16, len_ok_spec. Qed.
Lemma carries_len32 : len_ok 32 l = true -> carries (put write_u32_be (cast_u32 (zlen l))) read_u32_be (zlen l).
Proof. intros H. unfold cast_u32. rewrite cast_len by done. by apply carries_u32, len_ok_spec. Qed.
Lemma carries_len8' : len_ok 8 l = true -> carries (put write_uint8 (cast_u8 (zlen l))) read_byte (zlen l).
Proof. intros H. unfold cast_u8. rewrite cast_len by done. by apply carries_uint8_byte, len_ok_spec. Qed.
Lemma carries_len16' : len_ok 16 l = true -> carries (put uint16_be (cast_u16 (zlen l))) read_u16_be (zlen l).
Proof. intros H. unfold cast_u16. rewrite cast_len by done. by apply carries_uint16, len_ok_spec. Qed.
Lemma carries_len32' : len_ok 32 l = true -> carries (put uint32_be (cast_u32 (zlen l))) read_u32_be (zlen l).
Proof. intros H. unfold cast_u32. rewrite cast_len by done. by apply carries_uint32, len_ok_spec. Qed.
End Lengths.

Section Fields.
  Context (v : Z).

Lemma field_byte : u_ok 8 v = true -> carries (put write_byte v) read_byte v.
Proof. intros. by apply carries_byte, u_ok_spec. Qed.
Lemma field_u16 : u_ok 16 v = true -> carries (put write_u16_be v) read_u16_be v.
Proof. intros. by apply carries_u16, u_ok_spec. Qed.
Lemma field_u32 : u_ok 32 v = true -> carries (put write_u32_be v) read_u32_be v.
Proof. intros. by apply carries_u32, u_ok_spec. Qed.
Lemma field_u64 : u_ok 64 v = true -> carries (put write_u64_be v) read_u64_be v.
Proof. intros. by apply carries_u64, u_ok_spec. Qed.
Lemma field_uint8 : u_ok 8 v = true -> carries (put write_uint8 v) read_byte v.
Proof. intros. by apply carries_uint8_byte, u_ok_spec. Qed.
Lemma field_uint16 : u_ok 16 v = true -> carries (put uint16_be v) read_u16_be v.
Proof. intros. by apply carries_uint16, u_ok_spec. Qed.
Lemma field_uint32 : u_ok 32 v = true -> carries (put uint32_be v) read_u32_be v.
Proof. intros. by apply carries_uint32, u_ok_spec. Qed.
Lemma field_uint64 : u_ok 64 v = true -> carries (put uint64_be v) read_u64_be v.
Proof. intros. by apply carries_uint64, u_ok_spec. Qed.
Lemma field_float64 : u_ok 64 v = true -> carries (put float64_be v) read_u64_be v.
Proof. intros. by apply carries_float64, u_ok_spec. Qed.
Lemma field_i32 : i_ok 32 v = true ->
  carries (put write_u32_be (cast_u32 v)) (let! x := read_u32_be in ret (as_signed 32 x)) v.
Proof. intros. by apply carries_i32, (i_ok_spec 32). Qed.
Lemma field_int32 : i_ok 32 v = true ->
  carries (put int32_be v) (let! x := read_u32_be in ret (as_signed 32 x)) v.
Proof. intros. by apply carries_i32, (i_ok_spec 32). Qed.
Lemma field_i64 : i_ok 64 v = true ->
  carries (put write_u64_be (cast_u64 v)) (let! x := read_u64_be in ret (as_signed 64 x)) v.
Proof. intros. by apply carries_i64, (i_ok_spec 64). Qed.
Lemma field_int64 : i_ok 64 v = true ->
  carries (put int64_be v) (let! x := read_u64_be in ret (as_signed 64 x)) v.
Proof. intros. by apply carries_i64, (i_ok_spec 64). Qed.
End Fields.

Section ByteFields.
  Context (l : bytes).

Lemma field_bytes : carries (put_bytes write_byte l) (read_bytes_vec (zlen l)) l.
Proof. by apply carries_bytes. Qed.
Lemma field_bytes' : carries (put_bytes write_uint8 l) (read_bytes_vec (zlen l)) l.
Proof. by apply carries_bytes_uint8. Qed.
Lemma field_fixed n : fixed_ok n l = true -> carries (put_bytes write_byte l) (read_bytes_vec n) l.
Proof. intros. by apply carries_bytes, fixed_ok_spec. Qed.
Lemma field_fixed' n : fixed_ok n l = true -> carries (put_bytes write_uint8 l) (read_bytes_vec n) l.
Proof. intros. by apply carries_bytes_uint8, fixed_ok_spec. Qed.
Lemma field_chars : carries (put_bytes write_byte (char_bytes l)) (read_bytes_vec (zlen (chars l))) (char_bytes l).
Proof. apply carries_bytes, zlen_char_bytes. Qed.
Lemma field_chars' : carries (put_bytes write_uint8 (char_bytes l)) (read_bytes_vec (zlen (chars l))) (char_bytes l).
Proof. apply carries_bytes_uint8, zlen_char_bytes. Qed.
End ByteFields.

Lemma field_vec {A} w p (enc : A -> Encode) (rd : Read A) (l : list A) :
  vec_ok w p l = true -> (forall x, p x = true -> carries (enc x) rd x) ->
  carries (for_each enc l) (read_vec (zlen l) rd) l.
Proof.
  intros [_ Hp]%andb_true_iff H. apply carries_vec; [done|]. intros x Hx. apply H.
  rewrite forallb_forall in Hp. by apply Hp.
Qed.

(** A string inside a list: its length, its bytes, and the check of its encoding. *)
Lemma field_string enc_len enc_bytes (rd_len : Read Z) (s : bytes) :
  valid_utf8 s = true -> carries enc_len rd_len (zlen s) ->
  carries enc_bytes (read_bytes_vec (zlen s)) s ->
  carries (enc_len >> enc_bytes)
    (let! str_len := rd_len in let! str_bytes := read_bytes_vec str_len in from_utf8 str_bytes) s.
Proof.
  intros Hv H1 (l & P & C). eapply carries_step; [exact H1|]. exists l. split; [done|].
  intros pre rest ord. unfold bind_read. rewrite C. cbn [result_bind]. by rewrite from_utf8_valid.
Qed.

Lemma field_strings w w' (enc_len enc_bytes : bytes -> Encode) (rd_len : Read Z) (l : list bytes) :
  vec_ok w (utf8_ok w') l = true ->
  (forall s, len_ok w' s = true -> carries (enc_len s) rd_len (zlen s)) ->
  (forall s, carries (enc_bytes s) (read_bytes_vec (zlen s)) s) ->
  carries (for_each (fun item => enc_len item >> enc_bytes item) l)
    (read_vec (zlen l)
      (let! str_len := rd_len in let! str_bytes := read_bytes_vec str_len in from_utf8 str_bytes)) l.
Proof.
  intros Hl H1 H2. eapply field_vec; [exact Hl|]. cbv beta. intros s Hs.
  apply field_string; [by eapply utf8_valid|apply H1; by eapply utf8_len|apply H2].
Qed.

(** An optional fixed-size field and what follows it. *)
Lemma field_opt {B} n o enc (k : option bytes -> Read B) w :
  opt_ok n o = true -> carries enc (k o) w ->
  carries
    (match o with
     | Some v => put write_uint8 1 >> put_bytes write_byte v
     | None => put write_uint8 0
     end >> enc)
    (let! has := read_uint8 in
     let! x := (if negb (has =? 0) then let! v := read_bytes_vec n in ret (Some v) else ret None) in k x) w.
Proof.
  intros Ho H. destruct o as [v|].
  - destruct (carries_uint8 1 ltac:(lia)) as (l1 & P1 & C1).
    destruct (field_fixed v n Ho) as (l2 & P2 & C2). destruct H as (l3 & P3 & C3).
    exists (l1 ++ l2 ++ l3). split.
    + rewrite app_assoc. apply produces_seq; [by apply produces_seq|done].
    + eapply consumes_bind; [exact C1|]. cbn [Z.eqb negb]. eapply consumes_bind; [|exact C3].
      rewrite <- (app_nil_r l2). eapply consumes_bind; [exact C2|].
      intros pre rest ord. unfold ret. change (zlen (@nil u8)) with 0. by rewrite Z.add_0_r.
  - eapply carries_step; [apply carries_uint8; lia|]. cbn [Z.eqb negb].
    by apply (carries_pure _ (ret None) k None).
Qed.

Create HintDb codec discriminated.
#[export] Hint Constants Opaque : codec.
#[export] Hint Resolve carries_len8 carries_len16 carries_len32 carries_len8' carries_len16' carries_len32'
  field_byte field_u16 field_u32 field_u64 field_uint8 field_uint16 field_uint32 field_uint64 field_float64
  field_i32 field_int32 field_i64 field_int64 field_bytes field_bytes' field_fixed field_fixed'
  field_chars field_chars' field_vec field_string utf8_valid utf8_len ascii_len vec_len : codec.
#[export] Hint Extern 1 (u_ok _ _ = true) => reflexivity : codec.

Ltac split_wf :=
  repeat match goal with
  | H : (_ && _) = true |- _ => apply andb_true_iff in H as [? ?]
  | H : const_ok _ _ = true |- _ => apply const_ok_spec in H; subst
  end.

(** One statement of the encoder against one of the decoder. *)
Ltac codec_step :=
  lazymatch goal with
  | |- carries _ (bind_read (from_utf8 _) _) _ =>
      eapply carries_pure; [apply from_utf8_valid; solve [eauto with codec]|]; cbv beta
  | |- carries _ (bind_read (expect _ _) _) _ => eapply carries_pure; [apply expect_self|]; cbv beta
  | |- carries (match _ with Some _ => _ | None => _ end >> _) _ _ =>
      eapply field_opt; [eassumption|]; cbv beta
  | |- carries (for_each (fun _ => _ >> _) _ >> _) _ _ =>
      eapply carries_step;
      [eapply field_strings; [eassumption|intros; solve [eauto with codec]..]|]; cbv beta
  | |- carries (_ >> _) (bind_read _ _) _ => eapply carries_step; [solve [eauto with codec]|]; cbv beta
  | |- carries ok_unit (ret _) _ => apply carries_ok;
      repeat match goal with
      | H : ascii_ok _ ?s = true |- context [ascii_string (char_bytes ?s)] => rewrite (ascii_back _ _ H)
      end; reflexivity
  end.

Ltac codec := cbv zeta; intros; split_wf; repeat codec_step.

(** The first statement of an arm writes its tag. *)
Ltac codec_arm :=
  cbv zeta; intros; split_wf;
  apply carries_tag_step; [lia|intros; by apply aligned_uint8|]; cbv beta; repeat codec_step.

(** An arm of a union: the arms before it refuse its tag. *)
Ltac skip r := rewrite (try_skip _ _ _ _ _ _ _ _ r) by lia.
Ltac union arm skips :=
  let b := fresh "b" in let l := fresh "l" in let Hb := fresh "Hb" in
  let P := fresh "P" in let C := fresh "C" in
  destruct arm as (b & l & Hb & P & C); exists (b :: l); split; [exact P|];
  intros pre rest ord; cbv zeta; cbn [position byte_offset app]; skips;
  first [apply try_hit|apply last_hit]; apply (C pre rest ord).
