(* ===== verification/Wire.v ===== *)
(** * The ingest protocol: frames and batch payloads

    [crates/proto/src/generated.rs]: one module per Rust type, with its fields in order,
    [encode_into], [decode_with_decoder] and the conversions between the input and
    output forms, each statement in its place.  A [u8..u64], [i32] or [i64] is a [Z],
    an [f64] its bits, a [String] or [Vec<u8>] its bytes.  [wf] says which values the
    wire can represent: every length fits its prefix, fixed-size fields have their
    size, strings are well formed.  [carried]: such a value is read back as it was
    written, whatever surrounds it in the stream. *)

From stdpp Require Import pretty.
From S2P Require Import Prelude Bytes Utf8 BitStream Codec.

Module LabelPair.
Record t := mk {
  key : bytes;
  value : bytes;
}.

Definition encode_into (self : t) : Encode :=
  put write_byte (cast_u8 (zlen (key self))) >>
  put_bytes write_byte (key self) >>
  put write_u16_be (cast_u16 (zlen (value self))) >>
  put_bytes write_byte (value self) >>
  ok_unit.

Definition encode (self : t) : result BinSchemaError bytes := encode_with encode_into self.

Definition decode_with_decoder : Read t :=
  let! length := read_byte in
  let! bytes := read_bytes_vec length in
  let! key := from_utf8 bytes in
  let! length := read_u16_be in
  let! bytes := read_bytes_vec length in
  let! value := from_utf8 bytes in
  ret (mk key value).

Definition decode (l : bytes) : result BinSchemaError t := decode_with decode_with_decoder l.

(** The messages the wire can represent. *)
Definition wf (self : t) : bool :=
  utf8_ok 8 (key self)
  && utf8_ok 16 (value self).

Lemma LabelPair_carried (self : t) : wf self = true -> carries (encode_into self)
  decode_with_decoder self.
Proof. destruct self. unfold encode_into, decode_with_decoder, wf. cbn [key value]. codec. Qed.
End LabelPair.
#[export] Hint Resolve LabelPair.LabelPair_carried : codec.

Module HelloInput.
Record t := mk {
  protocol_version : Z;
  agent_id : bytes;
  agent_version : bytes;
  hostname : bytes;
  signals : Z;
  capabilities : Z;
  resource_attrs : list LabelPair.t;
}.

Definition encode_into (self : t) : Encode :=
  put write_byte 1 >>
  put write_u16_be (protocol_version self) >>
  put_bytes write_byte (agent_id self) >>
  put write_byte (cast_u8 (zlen (chars (agent_version self)))) >>
  put_bytes write_byte (char_bytes (agent_version self)) >>
  put write_byte (cast_u8 (zlen (hostname self))) >>
  put_bytes write_byte (hostname self) >>
  put write_byte (signals self) >>
  put write_u32_be (capabilities self) >>
  put write_u16_be (cast_u16 (zlen (resource_attrs self))) >>
  for_each LabelPair.encode_into (resource_attrs self) >>
  ok_unit.

Definition encode (self : t) : result BinSchemaError bytes := encode_with encode_into self.

End HelloInput.

Module HelloOutput.
Record t := mk {
  tag : Z;
  protocol_version : Z;
  agent_id : bytes;
  agent_version : bytes;
  hostname : bytes;
  signals : Z;
  capabilities : Z;
  resource_attrs : list LabelPair.t;
}.

Definition to_input (o : t) : HelloInput.t :=
   HelloInput.mk (protocol_version o) (agent_id o) (agent_version o) (hostname o) (signals o)
    (capabilities o) (resource_attrs o).

Definition from_input (i : HelloInput.t) : t :=
   mk 1 (HelloInput.protocol_version i) (HelloInput.agent_id i) (HelloInput.agent_version i)
    (HelloInput.hostname i) (HelloInput.signals i) (HelloInput.capabilities i)
    (HelloInput.resource_attrs i).

Definition encode_into (self : t) : Encode := HelloInput.encode_into (to_input self).
Definition encode (self : t) : result BinSchemaError bytes := HelloInput.encode (to_input self).

Definition decode_with_decoder : Read t :=
  let! tag := read_byte in
  let! ok := expect 1 tag in
  let! protocol_version := read_u16_be in
  let! agent_id := read_bytes_vec 16 in
  let! length := read_byte in
  let! bytes := read_bytes_vec length in
  let agent_version := ascii_string bytes in
  let! length := read_byte in
  let! bytes := read_bytes_vec length in
  let! hostname := from_utf8 bytes in
  let! signals := read_byte in
  let! capabilities := read_u32_be in
  let! length := read_u16_be in
  let! resource_attrs := read_vec length LabelPair.decode_with_decoder in
  ret (mk tag protocol_version agent_id agent_version hostname signals capabilities resource_attrs).

Definition decode (l : bytes) : result BinSchemaError t := decode_with decode_with_decoder l.

(** The messages the wire can represent. *)
Definition wf (self : t) : bool :=
  const_ok 1 (tag self)
  && u_ok 16 (protocol_version self)
  && fixed_ok 16 (agent_id self)
  && ascii_ok 8 (agent_version self)
  && utf8_ok 8 (hostname self)
  && u_ok 8 (signals self)
  && u_ok 32 (capabilities self)
  && vec_ok 16 LabelPair.wf (resource_attrs self).

Lemma HelloOutput_carried (self : t) : wf self = true -> carries (encode_into self)
  decode_with_decoder self.
Proof. destruct self. unfold encode_into, HelloInput.encode_into, to_input, decode_with_decoder, wf.
  cbn [tag protocol_version agent_id agent_version hostname signals capabilities resource_attrs
  HelloInput.protocol_version HelloInput.agent_id HelloInput.agent_version HelloInput.hostname
  HelloInput.signals HelloInput.capabilities HelloInput.resource_attrs]. codec. Qed.

Lemma HelloOutput_refuses : rejects decode_with_decoder 1.
Proof. apply rejects_tag. Qed.
End HelloOutput.
#[export] Hint Resolve HelloOutput.HelloOutput_carried : codec.

Module HelloAckInput.
Record t := mk {
  protocol_version : Z;
  writer_id : bytes;
  session_id : Z;
  capabilities : Z;
  suggested_batch_bytes : Z;
  max_batch_bytes : Z;
  max_inflight_batches : Z;
}.

Definition encode_into (self : t) : Encode :=
  put write_byte 2 >>
  put write_u16_be (protocol_version self) >>
  put write_byte (cast_u8 (zlen (chars (writer_id self)))) >>
  put_bytes write_byte (char_bytes (writer_id self)) >>
  put write_u64_be (session_id self) >>
  put write_u32_be (capabilities self) >>
  put write_u32_be (suggested_batch_bytes self) >>
  put write_u32_be (max_batch_bytes self) >>
  put write_u16_be (max_inflight_batches self) >>
  ok_unit.

Definition encode (self : t) : result BinSchemaError bytes := encode_with encode_into self.

End HelloAckInput.

Module HelloAckOutput.
Record t := mk {
  tag : Z;
  protocol_version : Z;
  writer_id : bytes;
  session_id : Z;
  capabilities : Z;
  suggested_batch_bytes : Z;
  max_batch_bytes : Z;
  max_inflight_batches : Z;
}.

Definition to_input (o : t) : HelloAckInput.t :=
   HelloAckInput.mk (protocol_version o) (writer_id o) (session_id o) (capabilities o)
    (suggested_batch_bytes o) (max_batch_bytes o) (max_inflight_batches o).

Definition from_input (i : HelloAckInput.t) : t :=
   mk 2 (HelloAckInput.protocol_version i) (HelloAckInput.writer_id i) (HelloAckInput.session_id i)
    (HelloAckInput.capabilities i) (HelloAckInput.suggested_batch_bytes i)
    (HelloAckInput.max_batch_bytes i) (HelloAckInput.max_inflight_batches i).

Definition encode_into (self : t) : Encode := HelloAckInput.encode_into (to_input self).
Definition encode (self : t) : result BinSchemaError bytes := HelloAckInput.encode (to_input self).

Definition decode_with_decoder : Read t :=
  let! tag := read_byte in
  let! ok := expect 2 tag in
  let! protocol_version := read_u16_be in
  let! length := read_byte in
  let! bytes := read_bytes_vec length in
  let writer_id := ascii_string bytes in
  let! session_id := read_u64_be in
  let! capabilities := read_u32_be in
  let! suggested_batch_bytes := read_u32_be in
  let! max_batch_bytes := read_u32_be in
  let! max_inflight_batches := read_u16_be in
   ret (mk tag protocol_version writer_id session_id capabilities suggested_batch_bytes
    max_batch_bytes max_inflight_batches).

Definition decode (l : bytes) : result BinSchemaError t := decode_with decode_with_decoder l.

(** The messages the wire can represent. *)
Definition wf (self : t) : bool :=
  const_ok 2 (tag self)
  && u_ok 16 (protocol_version self)
  && ascii_ok 8 (writer_id self)
  && u_ok 64 (session_id self)
  && u_ok 32 (capabilities self)
  && u_ok 32 (suggested_batch_bytes self)
  && u_ok 32 (max_batch_bytes self)
  && u_ok 16 (max_inflight_batches self).

Lemma HelloAckOutput_carried (self : t) : wf self = true -> carries (encode_into self)
  decode_with_decoder self.
Proof. destruct self. unfold encode_into, HelloAckInput.encode_into, to_input, decode_with_decoder,
  wf. cbn [tag protocol_version writer_id session_id capabilities suggested_batch_bytes
  max_batch_bytes max_inflight_batches HelloAckInput.protocol_version HelloAckInput.writer_id
  HelloAckInput.session_id HelloAckInput.capabilities HelloAckInput.suggested_batch_bytes
  HelloAckInput.max_batch_bytes HelloAckInput.max_inflight_batches]. codec. Qed.

Lemma HelloAckOutput_refuses : rejects decode_with_decoder 2.
Proof. apply rejects_tag. Qed.
End HelloAckOutput.
#[export] Hint Resolve HelloAckOutput.HelloAckOutput_carried : codec.

Module BatchInput.
Record t := mk {
  session_id : Z;
  batch_id : Z;
  signal : Z;
  ts_min_unix_nano : Z;
  ts_max_unix_nano : Z;
  record_count : Z;
  compression : Z;
  uncompressed_size : Z;
  payload : bytes;
}.

Definition encode_into (self : t) : Encode :=
  put write_byte 16 >>
  put write_u64_be (session_id self) >>
  put write_u64_be (batch_id self) >>
  put write_byte (signal self) >>
  put write_u64_be (ts_min_unix_nano self) >>
  put write_u64_be (ts_max_unix_nano self) >>
  put write_u32_be (record_count self) >>
  put write_byte (compression self) >>
  put write_u32_be (uncompressed_size self) >>
  put write_u32_be (cast_u32 (zlen (payload self))) >>
  put_bytes write_byte (payload self) >>
  ok_unit.

Definition encode (self : t) : result BinSchemaError bytes := encode_with encode_into self.

End BatchInput.

Module BatchOutput.
Record t := mk {
  tag : Z;
  session_id : Z;
  batch_id : Z;
  signal : Z;
  ts_min_unix_nano : Z;
  ts_max_unix_nano : Z;
  record_count : Z;
  compression : Z;
  uncompressed_size : Z;
  payload : bytes;
}.

Definition to_input (o : t) : BatchInput.t :=
   BatchInput.mk (session_id o) (batch_id o) (signal o) (ts_min_unix_nano o) (ts_max_unix_nano o)
    (record_count o) (compression o) (uncompressed_size o) (payload o).

Definition from_input (i : BatchInput.t) : t :=
   mk 16 (BatchInput.session_id i) (BatchInput.batch_id i) (BatchInput.signal i)
    (BatchInput.ts_min_unix_nano i) (BatchInput.ts_max_unix_nano i) (BatchInput.record_count i)
    (BatchInput.compression i) (BatchInput.uncompressed_size i) (BatchInput.payload i).

Definition encode_into (self : t) : Encode := BatchInput.encode_into (to_input self).
Definition encode (self : t) : result BinSchemaError bytes := BatchInput.encode (to_input self).

Definition decode_with_decoder : Read t :=
  let! tag := read_byte in
  let! ok := expect 16 tag in
  let! session_id := read_u64_be in
  let! batch_id := read_u64_be in
  let! signal := read_byte in
  let! ts_min_unix_nano := read_u64_be in
  let! ts_max_unix_nano := read_u64_be in
  let! record_count := read_u32_be in
  let! compression := read_byte in
  let! uncompressed_size := read_u32_be in
  let! length := read_u32_be in
  let! payload := read_bytes_vec length in
   ret (mk tag session_id batch_id signal ts_min_unix_nano ts_max_unix_nano record_count compression
    uncompressed_size payload).

Definition decode (l : bytes) : result BinSchemaError t := decode_with decode_with_decoder l.

(** The messages the wire can represent. *)
Definition wf (self : t) : bool :=
  const_ok 16 (tag self)
  && u_ok 64 (session_id self)
  && u_ok 64 (batch_id self)
  && u_ok 8 (signal self)
  && u_ok 64 (ts_min_unix_nano self)
  && u_ok 64 (ts_max_unix_nano self)
  && u_ok 32 (record_count self)
  && u_ok 8 (compression self)
  && u_ok 32 (uncompressed_size self)
  && len_ok 32 (payload self).

Lemma BatchOutput_carried (self : t) : wf self = true -> carries (encode_into self)
  decode_with_decoder self.
Proof. destruct self. unfold encode_into, BatchInput.encode_into, to_input, decode_with_decoder, wf.
  cbn [tag session_id batch_id signal ts_min_unix_nano ts_max_unix_nano record_count compression
  uncompressed_size payload BatchInput.session_id BatchInput.batch_id BatchInput.signal
  BatchInput.ts_min_unix_nano BatchInput.ts_max_unix_nano BatchInput.record_count
  BatchInput.compression BatchInput.uncompressed_size BatchInput.payload]. codec. Qed.

Lemma BatchOutput_refuses : rejects decode_with_decoder 16.
Proof. apply rejects_tag. Qed.
End BatchOutput.
#[export] Hint Resolve BatchOutput.BatchOutput_carried : codec.

Module BatchAckInput.
Record t := mk {
  session_id : Z;
  batch_id : Z;
  status : Z;
  retry_after_ms : Z;
  reason_code : Z;
  message : bytes;
}.

Definition encode_into (self : t) : Encode :=
  put write_byte 17 >>
  put write_u64_be (session_id self) >>
  put write_u64_be (batch_id self) >>
  put write_byte (status self) >>
  put write_u32_be (retry_after_ms self) >>
  put write_u16_be (reason_code self) >>
  put write_u16_be (cast_u16 (zlen (message self))) >>
  put_bytes write_byte (message self) >>
  ok_unit.

Definition encode (self : t) : result BinSchemaError bytes := encode_with encode_into self.

End BatchAckInput.

Module BatchAckOutput.
Record t := mk {
  tag : Z;
  session_id : Z;
  batch_id : Z;
  status : Z;
  retry_after_ms : Z;
  reason_code : Z;
  message : bytes;
}.

Definition to_input (o : t) : BatchAckInput.t :=
  BatchAckInput.mk (session_id o) (batch_id o) (status o) (retry_after_ms o) (reason_code o) (message o).

Definition from_input (i : BatchAckInput.t) : t :=
   mk 17 (BatchAckInput.session_id i) (BatchAckInput.batch_id i) (BatchAckInput.status i)
    (BatchAckInput.retry_after_ms i) (BatchAckInput.reason_code i) (BatchAckInput.message i).

Definition encode_into (self : t) : Encode := BatchAckInput.encode_into (to_input self).
Definition encode (self : t) : result BinSchemaError bytes := BatchAckInput.encode (to_input self).

Definition decode_with_decoder : Read t :=
  let! tag := read_byte in
  let! ok := expect 17 tag in
  let! session_id := read_u64_be in
  let! batch_id := read_u64_be in
  let! status := read_byte in
  let! retry_after_ms := read_u32_be in
  let! reason_code := read_u16_be in
  let! length := read_u16_be in
  let! bytes := read_bytes_vec length in
  let! message := from_utf8 bytes in
  ret (mk tag session_id batch_id status retry_after_ms reason_code message).

Definition decode (l : bytes) : result BinSchemaError t := decode_with decode_with_decoder l.

(** The messages the wire can represent. *)
Definition wf (self : t) : bool :=
  const_ok 17 (tag self)
  && u_ok 64 (session_id self)
  && u_ok 64 (batch_id self)
  && u_ok 8 (status self)
  && u_ok 32 (retry_after_ms self)
  && u_ok 16 (reason_code self)
  && utf8_ok 16 (message self).

Lemma BatchAckOutput_carried (self : t) : wf self = true -> carries (encode_into self)
  decode_with_decoder self.
Proof. destruct self. unfold encode_into, BatchAckInput.encode_into, to_input, decode_with_decoder,
  wf. cbn [tag session_id batch_id status retry_after_ms reason_code message
  BatchAckInput.session_id BatchAckInput.batch_id BatchAckInput.status BatchAckInput.retry_after_ms
  BatchAckInput.reason_code BatchAckInput.message]. codec. Qed.

Lemma BatchAckOutput_refuses : rejects decode_with_decoder 17.
Proof. apply rejects_tag. Qed.
End BatchAckOutput.
#[export] Hint Resolve BatchAckOutput.BatchAckOutput_carried : codec.

Module FlowControlInput.
Record t := mk {
  session_id : Z;
  signal : Z;
  max_bytes_per_sec : Z;
  max_batches_inflight : Z;
  valid_for_ms : Z;
}.

Definition encode_into (self : t) : Encode :=
  put write_byte 32 >>
  put write_u64_be (session_id self) >>
  put write_byte (signal self) >>
  put write_u32_be (max_bytes_per_sec self) >>
  put write_u16_be (max_batches_inflight self) >>
  put write_u32_be (valid_for_ms self) >>
  ok_unit.

Definition encode (self : t) : result BinSchemaError bytes := encode_with encode_into self.

End FlowControlInput.

Module FlowControlOutput.
Record t := mk {
  tag : Z;
  session_id : Z;
  signal : Z;
  max_bytes_per_sec : Z;
  max_batches_inflight : Z;
  valid_for_ms : Z;
}.

Definition to_input (o : t) : FlowControlInput.t :=
   FlowControlInput.mk (session_id o) (signal o) (max_bytes_per_sec o) (max_batches_inflight o)
    (valid_for_ms o).

Definition from_input (i : FlowControlInput.t) : t :=
   mk 32 (FlowControlInput.session_id i) (FlowControlInput.signal i)
    (FlowControlInput.max_bytes_per_sec i) (FlowControlInput.max_batches_inflight i)
    (FlowControlInput.valid_for_ms i).

Definition encode_into (self : t) : Encode := FlowControlInput.encode_into (to_input self).
Definition encode (self : t) : result BinSchemaError bytes := FlowControlInput.encode (to_input self).

Definition decode_with_decoder : Read t :=
  let! tag := read_byte in
  let! ok := expect 32 tag in
  let! session_id := read_u64_be in
  let! signal := read_byte in
  let! max_bytes_per_sec := read_u32_be in
  let! max_batches_inflight := read_u16_be in
  let! valid_for_ms := read_u32_be in
  ret (mk tag session_id signal max_bytes_per_sec max_batches_inflight valid_for_ms).

Definition decode (l : bytes) : result BinSchemaError t := decode_with decode_with_decoder l.

(** The messages the wire can represent. *)
Definition wf (self : t) : bool :=
  const_ok 32 (tag self)
  && u_ok 64 (session_id self)
  && u_ok 8 (signal self)
  && u_ok 32 (max_bytes_per_sec self)
  && u_ok 16 (max_batches_inflight self)
  && u_ok 32 (valid_for_ms self).

Lemma FlowControlOutput_carried (self : t) : wf self = true -> carries (encode_into self)
  decode_with_decoder self.
Proof. destruct self. unfold encode_into, FlowControlInput.encode_into, to_input,
  decode_with_decoder, wf. cbn [tag session_id signal max_bytes_per_sec max_batches_inflight
  valid_for_ms FlowControlInput.session_id FlowControlInput.signal
  FlowControlInput.max_bytes_per_sec FlowControlInput.max_batches_inflight
  FlowControlInput.valid_for_ms]. codec. Qed.

Lemma FlowControlOutput_refuses : rejects decode_with_decoder 32.
Proof. apply rejects_tag. Qed.
End FlowControlOutput.
#[export] Hint Resolve FlowControlOutput.FlowControlOutput_carried : codec.

Module AgentStatusInput.
Record t := mk {
  session_id : Z;
  sequence : Z;
  snapshot_json : bytes;
}.

Definition encode_into (self : t) : Encode :=
  put write_byte 33 >>
  put write_u64_be (session_id self) >>
  put write_u64_be (sequence self) >>
  put write_u32_be (cast_u32 (zlen (snapshot_json self))) >>
  put_bytes write_byte (snapshot_json self) >>
  ok_unit.

Definition encode (self : t) : result BinSchemaError bytes := encode_with encode_into self.

End AgentStatusInput.

Module AgentStatusOutput.
Record t := mk {
  tag : Z;
  session_id : Z;
  sequence : Z;
  snapshot_json : bytes;
}.

Definition to_input (o : t) : AgentStatusInput.t :=
  AgentStatusInput.mk (session_id o) (sequence o) (snapshot_json o).

Definition from_input (i : AgentStatusInput.t) : t :=
  mk 33 (AgentStatusInput.session_id i) (AgentStatusInput.sequence i) (AgentStatusInput.snapshot_json i).

Definition encode_into (self : t) : Encode := AgentStatusInput.encode_into (to_input self).
Definition encode (self : t) : result BinSchemaError bytes := AgentStatusInput.encode (to_input self).

Definition decode_with_decoder : Read t :=
  let! tag := read_byte in
  let! ok := expect 33 tag in
  let! session_id := read_u64_be in
  let! sequence := read_u64_be in
  let! length := read_u32_be in
  let! bytes := read_bytes_vec length in
  let! snapshot_json := from_utf8 bytes in
  ret (mk tag session_id sequence snapshot_json).

Definition decode (l : bytes) : result BinSchemaError t := decode_with decode_with_decoder l.

(** The messages the wire can represent. *)
Definition wf (self : t) : bool :=
  const_ok 33 (tag self)
  && u_ok 64 (session_id self)
  && u_ok 64 (sequence self)
  && utf8_ok 32 (snapshot_json self).

Lemma AgentStatusOutput_carried (self : t) : wf self = true -> carries (encode_into self)
  decode_with_decoder self.
Proof. destruct self. unfold encode_into, AgentStatusInput.encode_into, to_input,
  decode_with_decoder, wf. cbn [tag session_id sequence snapshot_json AgentStatusInput.session_id
  AgentStatusInput.sequence AgentStatusInput.snapshot_json]. codec. Qed.

Lemma AgentStatusOutput_refuses : rejects decode_with_decoder 33.
Proof. apply rejects_tag. Qed.
End AgentStatusOutput.
#[export] Hint Resolve AgentStatusOutput.AgentStatusOutput_carried : codec.

Module PingInput.
Record t := mk {
  nonce : Z;
}.

Definition encode_into (self : t) : Encode :=
  put write_byte 48 >>
  put write_u64_be (nonce self) >>
  ok_unit.

Definition encode (self : t) : result BinSchemaError bytes := encode_with encode_into self.

End PingInput.

Module PingOutput.
Record t := mk {
  tag : Z;
  nonce : Z;
}.

Definition to_input (o : t) : PingInput.t :=
  PingInput.mk (nonce o).

Definition from_input (i : PingInput.t) : t :=
  mk 48 (PingInput.nonce i).

Definition encode_into (self : t) : Encode := PingInput.encode_into (to_input self).
Definition encode (self : t) : result BinSchemaError bytes := PingInput.encode (to_input self).

Definition decode_with_decoder : Read t :=
  let! tag := read_byte in
  let! ok := expect 48 tag in
  let! nonce := read_u64_be in
  ret (mk tag nonce).

Definition decode (l : bytes) : result BinSchemaError t := decode_with decode_with_decoder l.

(** The messages the wire can represent. *)
Definition wf (self : t) : bool :=
  const_ok 48 (tag self)
  && u_ok 64 (nonce self).

Lemma PingOutput_carried (self : t) : wf self = true -> carries (encode_into self)
  decode_with_decoder self.
Proof. destruct self. unfold encode_into, PingInput.encode_into, to_input, decode_with_decoder, wf.
  cbn [tag nonce PingInput.nonce]. codec. Qed.

Lemma PingOutput_refuses : rejects decode_with_decoder 48.
Proof. apply rejects_tag. Qed.
End PingOutput.
#[export] Hint Resolve PingOutput.PingOutput_carried : codec.

Module PongInput.
Record t := mk {
  nonce : Z;
}.

Definition encode_into (self : t) : Encode :=
  put write_byte 49 >>
  put write_u64_be (nonce self) >>
  ok_unit.

Definition encode (self : t) : result BinSchemaError bytes := encode_with encode_into self.

End PongInput.

Module PongOutput.
Record t := mk {
  tag : Z;
  nonce : Z;
}.

Definition to_input (o : t) : PongInput.t :=
  PongInput.mk (nonce o).

Definition from_input (i : PongInput.t) : t :=
  mk 49 (PongInput.nonce i).

Definition encode_into (self : t) : Encode := PongInput.encode_into (to_input self).
Definition encode (self : t) : result BinSchemaError bytes := PongInput.encode (to_input self).

Definition decode_with_decoder : Read t :=
  let! tag := read_byte in
  let! ok := expect 49 tag in
  let! nonce := read_u64_be in
  ret (mk tag nonce).

Definition decode (l : bytes) : result BinSchemaError t := decode_with decode_with_decoder l.

(** The messages the wire can represent. *)
Definition wf (self : t) : bool :=
  const_ok 49 (tag self)
  && u_ok 64 (nonce self).

Lemma PongOutput_carried (self : t) : wf self = true -> carries (encode_into self)
  decode_with_decoder self.
Proof. destruct self. unfold encode_into, PongInput.encode_into, to_input, decode_with_decoder, wf.
  cbn [tag nonce PongInput.nonce]. codec. Qed.

Lemma PongOutput_refuses : rejects decode_with_decoder 49.
Proof. apply rejects_tag. Qed.
End PongOutput.
#[export] Hint Resolve PongOutput.PongOutput_carried : codec.

Module GoodbyeInput.
Record t := mk {
  reason_code : Z;
  message : bytes;
}.

Definition encode_into (self : t) : Encode :=
  put write_byte 64 >>
  put write_u16_be (reason_code self) >>
  put write_u16_be (cast_u16 (zlen (message self))) >>
  put_bytes write_byte (message self) >>
  ok_unit.

Definition encode (self : t) : result BinSchemaError bytes := encode_with encode_into self.

End GoodbyeInput.

Module GoodbyeOutput.
Record t := mk {
  tag : Z;
  reason_code : Z;
  message : bytes;
}.

Definition to_input (o : t) : GoodbyeInput.t :=
  GoodbyeInput.mk (reason_code o) (message o).

Definition from_input (i : GoodbyeInput.t) : t :=
  mk 64 (GoodbyeInput.reason_code i) (GoodbyeInput.message i).

Definition encode_into (self : t) : Encode := GoodbyeInput.encode_into (to_input self).
Definition encode (self : t) : result BinSchemaError bytes := GoodbyeInput.encode (to_input self).

Definition decode_with_decoder : Read t :=
  let! tag := read_byte in
  let! ok := expect 64 tag in
  let! reason_code := read_u16_be in
  let! length := read_u16_be in
  let! bytes := read_bytes_vec length in
  let! message := from_utf8 bytes in
  ret (mk tag reason_code message).

Definition decode (l : bytes) : result BinSchemaError t := decode_with decode_with_decoder l.

(** The messages the wire can represent. *)
Definition wf (self : t) : bool :=
  const_ok 64 (tag self)
  && u_ok 16 (reason_code self)
  && utf8_ok 16 (message self).

Lemma GoodbyeOutput_carried (self : t) : wf self = true -> carries (encode_into self)
  decode_with_decoder self.
Proof. destruct self. unfold encode_into, GoodbyeInput.encode_into, to_input, decode_with_decoder,
  wf. cbn [tag reason_code message GoodbyeInput.reason_code GoodbyeInput.message]. codec. Qed.

Lemma GoodbyeOutput_refuses : rejects decode_with_decoder 64.
Proof. apply rejects_tag. Qed.
End GoodbyeOutput.
#[export] Hint Resolve GoodbyeOutput.GoodbyeOutput_carried : codec.

Module ErrorInput.
Record t := mk {
  code : Z;
  message : bytes;
}.

Definition encode_into (self : t) : Encode :=
  put write_byte 240 >>
  put write_u16_be (code self) >>
  put write_u16_be (cast_u16 (zlen (message self))) >>
  put_bytes write_byte (message self) >>
  ok_unit.

Definition encode (self : t) : result BinSchemaError bytes := encode_with encode_into self.

End ErrorInput.

Module ErrorOutput.
Record t := mk {
  tag : Z;
  code : Z;
  message : bytes;
}.

Definition to_input (o : t) : ErrorInput.t :=
  ErrorInput.mk (code o) (message o).

Definition from_input (i : ErrorInput.t) : t :=
  mk 240 (ErrorInput.code i) (ErrorInput.message i).

Definition encode_into (self : t) : Encode := ErrorInput.encode_into (to_input self).
Definition encode (self : t) : result BinSchemaError bytes := ErrorInput.encode (to_input self).

Definition decode_with_decoder : Read t :=
  let! tag := read_byte in
  let! ok := expect 240 tag in
  let! code := read_u16_be in
  let! length := read_u16_be in
  let! bytes := read_bytes_vec length in
  let! message := from_utf8 bytes in
  ret (mk tag code message).

Definition decode (l : bytes) : result BinSchemaError t := decode_with decode_with_decoder l.

(** The messages the wire can represent. *)
Definition wf (self : t) : bool :=
  const_ok 240 (tag self)
  && u_ok 16 (code self)
  && utf8_ok 16 (message self).

Lemma ErrorOutput_carried (self : t) : wf self = true -> carries (encode_into self)
  decode_with_decoder self.
Proof. destruct self. unfold encode_into, ErrorInput.encode_into, to_input, decode_with_decoder, wf.
  cbn [tag code message ErrorInput.code ErrorInput.message]. codec. Qed.

Lemma ErrorOutput_refuses : rejects decode_with_decoder 240.
Proof. apply rejects_tag. Qed.
End ErrorOutput.
#[export] Hint Resolve ErrorOutput.ErrorOutput_carried : codec.

Module MatcherSpec.
Record t := mk {
  spec : bytes;
}.

Definition encode_into (self : t) : Encode :=
  put write_u16_be (cast_u16 (zlen (spec self))) >>
  put_bytes write_byte (spec self) >>
  ok_unit.

Definition encode (self : t) : result BinSchemaError bytes := encode_with encode_into self.

Definition decode_with_decoder : Read t :=
  let! length := read_u16_be in
  let! bytes := read_bytes_vec length in
  let! spec := from_utf8 bytes in
  ret (mk spec).

Definition decode (l : bytes) : result BinSchemaError t := decode_with decode_with_decoder l.

(** The messages the wire can represent. *)
Definition wf (self : t) : bool :=
  utf8_ok 16 (spec self).

Lemma MatcherSpec_carried (self : t) : wf self = true -> carries (encode_into self)
  decode_with_decoder self.
Proof. destruct self. unfold encode_into, decode_with_decoder, wf. cbn [spec]. codec. Qed.
End MatcherSpec.
#[export] Hint Resolve MatcherSpec.MatcherSpec_carried : codec.

Module SubscribeInput.
Record t := mk {
  signal : Z;
  matchers : list MatcherSpec.t;
}.

Definition encode_into (self : t) : Encode :=
  put write_byte 80 >>
  put write_byte (signal self) >>
  put write_u16_be (cast_u16 (zlen (matchers self))) >>
  for_each MatcherSpec.encode_into (matchers self) >>
  ok_unit.

Definition encode (self : t) : result BinSchemaError bytes := encode_with encode_into self.

End SubscribeInput.

Module SubscribeOutput.
Record t := mk {
  tag : Z;
  signal : Z;
  matchers : list MatcherSpec.t;
}.

Definition to_input (o : t) : SubscribeInput.t :=
  SubscribeInput.mk (signal o) (matchers o).

Definition from_input (i : SubscribeInput.t) : t :=
  mk 80 (SubscribeInput.signal i) (SubscribeInput.matchers i).

Definition encode_into (self : t) : Encode := SubscribeInput.encode_into (to_input self).
Definition encode (self : t) : result BinSchemaError bytes := SubscribeInput.encode (to_input self).

Definition decode_with_decoder : Read t :=
  let! tag := read_byte in
  let! ok := expect 80 tag in
  let! signal := read_byte in
  let! length := read_u16_be in
  let! matchers := read_vec length MatcherSpec.decode_with_decoder in
  ret (mk tag signal matchers).

Definition decode (l : bytes) : result BinSchemaError t := decode_with decode_with_decoder l.

(** The messages the wire can represent. *)
Definition wf (self : t) : bool :=
  const_ok 80 (tag self)
  && u_ok 8 (signal self)
  && vec_ok 16 MatcherSpec.wf (matchers self).

Lemma SubscribeOutput_carried (self : t) : wf self = true -> carries (encode_into self)
  decode_with_decoder self.
Proof. destruct self. unfold encode_into, SubscribeInput.encode_into, to_input, decode_with_decoder,
  wf. cbn [tag signal matchers SubscribeInput.signal SubscribeInput.matchers]. codec. Qed.

Lemma SubscribeOutput_refuses : rejects decode_with_decoder 80.
Proof. apply rejects_tag. Qed.
End SubscribeOutput.
#[export] Hint Resolve SubscribeOutput.SubscribeOutput_carried : codec.

Module TailRecordInput.
Record t := mk {
  signal : Z;
  ts_unix_nano : Z;
  severity : Z;
  labels : list LabelPair.t;
  body : bytes;
  attributes : list LabelPair.t;
}.

Definition encode_into (self : t) : Encode :=
  put write_byte 81 >>
  put write_byte (signal self) >>
  put write_u64_be (ts_unix_nano self) >>
  put write_byte (severity self) >>
  put write_u16_be (cast_u16 (zlen (labels self))) >>
  for_each LabelPair.encode_into (labels self) >>
  put write_u32_be (cast_u32 (zlen (body self))) >>
  put_bytes write_byte (body self) >>
  put write_u16_be (cast_u16 (zlen (attributes self))) >>
  for_each LabelPair.encode_into (attributes self) >>
  ok_unit.

Definition encode (self : t) : result BinSchemaError bytes := encode_with encode_into self.

End TailRecordInput.

Module TailRecordOutput.
Record t := mk {
  tag : Z;
  signal : Z;
  ts_unix_nano : Z;
  severity : Z;
  labels : list LabelPair.t;
  body : bytes;
  attributes : list LabelPair.t;
}.

Definition to_input (o : t) : TailRecordInput.t :=
  TailRecordInput.mk (signal o) (ts_unix_nano o) (severity o) (labels o) (body o) (attributes o).

Definition from_input (i : TailRecordInput.t) : t :=
   mk 81 (TailRecordInput.signal i) (TailRecordInput.ts_unix_nano i) (TailRecordInput.severity i)
    (TailRecordInput.labels i) (TailRecordInput.body i) (TailRecordInput.attributes i).

Definition encode_into (self : t) : Encode := TailRecordInput.encode_into (to_input self).
Definition encode (self : t) : result BinSchemaError bytes := TailRecordInput.encode (to_input self).

Definition decode_with_decoder : Read t :=
  let! tag := read_byte in
  let! ok := expect 81 tag in
  let! signal := read_byte in
  let! ts_unix_nano := read_u64_be in
  let! severity := read_byte in
  let! length := read_u16_be in
  let! labels := read_vec length LabelPair.decode_with_decoder in
  let! length := read_u32_be in
  let! bytes := read_bytes_vec length in
  let! body := from_utf8 bytes in
  let! length := read_u16_be in
  let! attributes := read_vec length LabelPair.decode_with_decoder in
  ret (mk tag signal ts_unix_nano severity labels body attributes).

Definition decode (l : bytes) : result BinSchemaError t := decode_with decode_with_decoder l.

(** The messages the wire can represent. *)
Definition wf (self : t) : bool :=
  const_ok 81 (tag self)
  && u_ok 8 (signal self)
  && u_ok 64 (ts_unix_nano self)
  && u_ok 8 (severity self)
  && vec_ok 16 LabelPair.wf (labels self)
  && utf8_ok 32 (body self)
  && vec_ok 16 LabelPair.wf (attributes self).

Lemma TailRecordOutput_carried (self : t) : wf self = true -> carries (encode_into self)
  decode_with_decoder self.
Proof. destruct self. unfold encode_into, TailRecordInput.encode_into, to_input,
  decode_with_decoder, wf. cbn [tag signal ts_unix_nano severity labels body attributes
  TailRecordInput.signal TailRecordInput.ts_unix_nano TailRecordInput.severity
  TailRecordInput.labels TailRecordInput.body TailRecordInput.attributes]. codec. Qed.

Lemma TailRecordOutput_refuses : rejects decode_with_decoder 81.
Proof. apply rejects_tag. Qed.
End TailRecordOutput.
#[export] Hint Resolve TailRecordOutput.TailRecordOutput_carried : codec.

Module TailSampleInput.
Record t := mk {
  signal : Z;
  ts_unix_nano : Z;
  metric_type : Z;
  series_fingerprint : Z;
  value : Z;
  labels : list LabelPair.t;
}.

Definition encode_into (self : t) : Encode :=
  put write_byte 84 >>
  put write_byte (signal self) >>
  put write_u64_be (ts_unix_nano self) >>
  put write_byte (metric_type self) >>
  put write_u64_be (series_fingerprint self) >>
  put write_u64_be (value self) >>
  put write_u16_be (cast_u16 (zlen (labels self))) >>
  for_each LabelPair.encode_into (labels self) >>
  ok_unit.

Definition encode (self : t) : result BinSchemaError bytes := encode_with encode_into self.

End TailSampleInput.

Module TailSampleOutput.
Record t := mk {
  tag : Z;
  signal : Z;
  ts_unix_nano : Z;
  metric_type : Z;
  series_fingerprint : Z;
  value : Z;
  labels : list LabelPair.t;
}.

Definition to_input (o : t) : TailSampleInput.t :=
   TailSampleInput.mk (signal o) (ts_unix_nano o) (metric_type o) (series_fingerprint o) (value o)
    (labels o).

Definition from_input (i : TailSampleInput.t) : t :=
   mk 84 (TailSampleInput.signal i) (TailSampleInput.ts_unix_nano i) (TailSampleInput.metric_type i)
    (TailSampleInput.series_fingerprint i) (TailSampleInput.value i) (TailSampleInput.labels i).

Definition encode_into (self : t) : Encode := TailSampleInput.encode_into (to_input self).
Definition encode (self : t) : result BinSchemaError bytes := TailSampleInput.encode (to_input self).

Definition decode_with_decoder : Read t :=
  let! tag := read_byte in
  let! ok := expect 84 tag in
  let! signal := read_byte in
  let! ts_unix_nano := read_u64_be in
  let! metric_type := read_byte in
  let! series_fingerprint := read_u64_be in
  let! value := read_u64_be in
  let! length := read_u16_be in
  let! labels := read_vec length LabelPair.decode_with_decoder in
  ret (mk tag signal ts_unix_nano metric_type series_fingerprint value labels).

Definition decode (l : bytes) : result BinSchemaError t := decode_with decode_with_decoder l.

(** The messages the wire can represent. *)
Definition wf (self : t) : bool :=
  const_ok 84 (tag self)
  && u_ok 8 (signal self)
  && u_ok 64 (ts_unix_nano self)
  && u_ok 8 (metric_type self)
  && u_ok 64 (series_fingerprint self)
  && u_ok 64 (value self)
  && vec_ok 16 LabelPair.wf (labels self).

Lemma TailSampleOutput_carried (self : t) : wf self = true -> carries (encode_into self)
  decode_with_decoder self.
Proof. destruct self. unfold encode_into, TailSampleInput.encode_into, to_input,
  decode_with_decoder, wf. cbn [tag signal ts_unix_nano metric_type series_fingerprint value labels
  TailSampleInput.signal TailSampleInput.ts_unix_nano TailSampleInput.metric_type
  TailSampleInput.series_fingerprint TailSampleInput.value TailSampleInput.labels]. codec. Qed.

Lemma TailSampleOutput_refuses : rejects decode_with_decoder 84.
Proof. apply rejects_tag. Qed.
End TailSampleOutput.
#[export] Hint Resolve TailSampleOutput.TailSampleOutput_carried : codec.

Module MetricDescriptorV2.
Record t := mk {
  id : Z;
  name : bytes;
  description : bytes;
  unit : bytes;
  metric_kind : Z;
  temporality : Z;
  monotonic : Z;
  resource_attrs : list LabelPair.t;
  scope_name : bytes;
  scope_version : bytes;
  scope_attrs : list LabelPair.t;
}.

Definition encode_into (self : t) : Encode :=
  put write_u32_be (id self) >>
  put write_u16_be (cast_u16 (zlen (name self))) >>
  put_bytes write_byte (name self) >>
  put write_u16_be (cast_u16 (zlen (description self))) >>
  put_bytes write_byte (description self) >>
  put write_u16_be (cast_u16 (zlen (unit self))) >>
  put_bytes write_byte (unit self) >>
  put write_byte (metric_kind self) >>
  put write_byte (temporality self) >>
  put write_byte (monotonic self) >>
  put write_u16_be (cast_u16 (zlen (resource_attrs self))) >>
  for_each LabelPair.encode_into (resource_attrs self) >>
  put write_byte (cast_u8 (zlen (scope_name self))) >>
  put_bytes write_byte (scope_name self) >>
  put write_byte (cast_u8 (zlen (scope_version self))) >>
  put_bytes write_byte (scope_version self) >>
  put write_u16_be (cast_u16 (zlen (scope_attrs self))) >>
  for_each LabelPair.encode_into (scope_attrs self) >>
  ok_unit.

Definition encode (self : t) : result BinSchemaError bytes := encode_with encode_into self.

Definition decode_with_decoder : Read t :=
  let! id := read_u32_be in
  let! length := read_u16_be in
  let! bytes := read_bytes_vec length in
  let! name := from_utf8 bytes in
  let! length := read_u16_be in
  let! bytes := read_bytes_vec length in
  let! description := from_utf8 bytes in
  let! length := read_u16_be in
  let! bytes := read_bytes_vec length in
  let! unit := from_utf8 bytes in
  let! metric_kind := read_byte in
  let! temporality := read_byte in
  let! monotonic := read_byte in
  let! length := read_u16_be in
  let! resource_attrs := read_vec length LabelPair.decode_with_decoder in
  let! length := read_byte in
  let! bytes := read_bytes_vec length in
  let! scope_name := from_utf8 bytes in
  let! length := read_byte in
  let! bytes := read_bytes_vec length in
  let! scope_version := from_utf8 bytes in
  let! length := read_u16_be in
  let! scope_attrs := read_vec length LabelPair.decode_with_decoder in
   ret (mk id name description unit metric_kind temporality monotonic resource_attrs scope_name
    scope_version scope_attrs).

Definition decode (l : bytes) : result BinSchemaError t := decode_with decode_with_decoder l.

(** The messages the wire can represent. *)
Definition wf (self : t) : bool :=
  u_ok 32 (id self)
  && utf8_ok 16 (name self)
  && utf8_ok 16 (description self)
  && utf8_ok 16 (unit self)
  && u_ok 8 (metric_kind self)
  && u_ok 8 (temporality self)
  && u_ok 8 (monotonic self)
  && vec_ok 16 LabelPair.wf (resource_attrs self)
  && utf8_ok 8 (scope_name self)
  && utf8_ok 8 (scope_version self)
  && vec_ok 16 LabelPair.wf (scope_attrs self).

Lemma MetricDescriptorV2_carried (self : t) : wf self = true -> carries (encode_into self)
  decode_with_decoder self.
Proof. destruct self. unfold encode_into, decode_with_decoder, wf. cbn [id name description unit
  metric_kind temporality monotonic resource_attrs scope_name scope_version scope_attrs]. codec.
  Qed.
End MetricDescriptorV2.
#[export] Hint Resolve MetricDescriptorV2.MetricDescriptorV2_carried : codec.

Module IntegerValueV2Input.
Record t := mk {
  value : Z;
}.

Definition encode_into (self : t) : Encode :=
  put write_byte 1 >>
  put write_u64_be (cast_u64 (value self)) >>
  ok_unit.

Definition encode (self : t) : result BinSchemaError bytes := encode_with encode_into self.

End IntegerValueV2Input.

Module IntegerValueV2Output.
Record t := mk {
  tag : Z;
  value : Z;
}.

Definition to_input (o : t) : IntegerValueV2Input.t :=
  IntegerValueV2Input.mk (value o).

Definition from_input (i : IntegerValueV2Input.t) : t :=
  mk 1 (IntegerValueV2Input.value i).

Definition encode_into (self : t) : Encode := IntegerValueV2Input.encode_into (to_input self).
Definition encode (self : t) : result BinSchemaError bytes := IntegerValueV2Input.encode (to_input self).

Definition decode_with_decoder : Read t :=
  let! tag := read_byte in
  let! ok := expect 1 tag in
  let! value := (let! x := read_u64_be in ret (as_signed 64 x)) in
  ret (mk tag value).

Definition decode (l : bytes) : result BinSchemaError t := decode_with decode_with_decoder l.

(** The messages the wire can represent. *)
Definition wf (self : t) : bool :=
  const_ok 1 (tag self)
  && i_ok 64 (value self).

Lemma IntegerValueV2Output_carried (self : t) : wf self = true -> carries (encode_into self)
  decode_with_decoder self.
Proof. destruct self. unfold encode_into, IntegerValueV2Input.encode_into, to_input,
  decode_with_decoder, wf. cbn [tag value IntegerValueV2Input.value]. codec. Qed.

Lemma IntegerValueV2Output_refuses : rejects decode_with_decoder 1.
Proof. apply rejects_tag. Qed.
End IntegerValueV2Output.
#[export] Hint Resolve IntegerValueV2Output.IntegerValueV2Output_carried : codec.

Module DoubleValueV2Input.
Record t := mk {
  value : Z;
}.

Definition encode_into (self : t) : Encode :=
  put write_byte 2 >>
  put write_u64_be (value self) >>
  ok_unit.

Definition encode (self : t) : result BinSchemaError bytes := encode_with encode_into self.

End DoubleValueV2Input.

Module DoubleValueV2Output.
Record t := mk {
  tag : Z;
  value : Z;
}.

Definition to_input (o : t) : DoubleValueV2Input.t :=
  DoubleValueV2Input.mk (value o).

Definition from_input (i : DoubleValueV2Input.t) : t :=
  mk 2 (DoubleValueV2Input.value i).

Definition encode_into (self : t) : Encode := DoubleValueV2Input.encode_into (to_input self).
Definition encode (self : t) : result BinSchemaError bytes := DoubleValueV2Input.encode (to_input self).

Definition decode_with_decoder : Read t :=
  let! tag := read_byte in
  let! ok := expect 2 tag in
  let! value := read_u64_be in
  ret (mk tag value).

Definition decode (l : bytes) : result BinSchemaError t := decode_with decode_with_decoder l.

(** The messages the wire can represent. *)
Definition wf (self : t) : bool :=
  const_ok 2 (tag self)
  && u_ok 64 (value self).

Lemma DoubleValueV2Output_carried (self : t) : wf self = true -> carries (encode_into self)
  decode_with_decoder self.
Proof. destruct self. unfold encode_into, DoubleValueV2Input.encode_into, to_input,
  decode_with_decoder, wf. cbn [tag value DoubleValueV2Input.value]. codec. Qed.

Lemma DoubleValueV2Output_refuses : rejects decode_with_decoder 2.
Proof. apply rejects_tag. Qed.
End DoubleValueV2Output.
#[export] Hint Resolve DoubleValueV2Output.DoubleValueV2Output_carried : codec.

Module MetricNumberV2Value.
Inductive t :=
| IntegerValueV2 (v : IntegerValueV2Output.t)
| DoubleValueV2 (v : DoubleValueV2Output.t).

Definition encode_into (self : t) : Encode :=
  match self with
  | IntegerValueV2 v =>
      put write_uint8 1 >>
      put int64_be (IntegerValueV2Output.value v) >>
      ok_unit
  | DoubleValueV2 v =>
      put write_uint8 2 >>
      put float64_be (DoubleValueV2Output.value v) >>
      ok_unit
  end.

Definition encode (self : t) : result BinSchemaError bytes := encode_with encode_into self.

Definition type_name (self : t) : string :=
  match self with
  | IntegerValueV2 _ => "IntegerValueV2"
  | DoubleValueV2 _ => "DoubleValueV2"
  end.

Definition decode_with_decoder : Read t := fun d =>
  let start_pos := position d in
  (try_variant start_pos IntegerValueV2Output.decode_with_decoder IntegerValueV2
  (last_variant DoubleValueV2Output.decode_with_decoder DoubleValueV2)) d.

Definition decode (l : bytes) : result BinSchemaError t := decode_with decode_with_decoder l.

Definition wf (self : t) : bool :=
  match self with
  | IntegerValueV2 v => IntegerValueV2Output.wf v
  | DoubleValueV2 v => DoubleValueV2Output.wf v
  end.

Lemma MetricNumberV2Value_arm_IntegerValueV2 (v : IntegerValueV2Output.t) :
   IntegerValueV2Output.wf v = true -> carries_tag 1 (encode_into (IntegerValueV2 v))
    IntegerValueV2Output.decode_with_decoder v.
Proof. destruct v. unfold encode_into, IntegerValueV2Output.decode_with_decoder,
  IntegerValueV2Output.wf. cbn [IntegerValueV2Output.tag IntegerValueV2Output.value]. codec_arm.
  Qed.

Lemma MetricNumberV2Value_arm_DoubleValueV2 (v : DoubleValueV2Output.t) :
   DoubleValueV2Output.wf v = true -> carries_tag 2 (encode_into (DoubleValueV2 v))
    DoubleValueV2Output.decode_with_decoder v.
Proof. destruct v. unfold encode_into, DoubleValueV2Output.decode_with_decoder,
  DoubleValueV2Output.wf. cbn [DoubleValueV2Output.tag DoubleValueV2Output.value]. codec_arm. Qed.

Lemma MetricNumberV2Value_carried (self : t) : wf self = true -> carries (encode_into self)
  decode_with_decoder self.
Proof.
  destruct self as [v|v]; unfold wf, decode_with_decoder; intros H.
  - union (MetricNumberV2Value_arm_IntegerValueV2 v H) ltac:(idtac).
   - union (MetricNumberV2Value_arm_DoubleValueV2 v H) ltac:(skip
    IntegerValueV2Output.IntegerValueV2Output_refuses).
Qed.
End MetricNumberV2Value.
#[export] Hint Resolve MetricNumberV2Value.MetricNumberV2Value_carried : codec.

Module MetricNumberV2.
Record t := mk {
  value : MetricNumberV2Value.t;
}.

Definition encode_into (self : t) : Encode :=
  MetricNumberV2Value.encode_into (value self) >>
  ok_unit.

Definition encode (self : t) : result BinSchemaError bytes := encode_with encode_into self.

Definition decode_with_decoder : Read t :=
  let! value := MetricNumberV2Value.decode_with_decoder in
  ret (mk value).

Definition decode (l : bytes) : result BinSchemaError t := decode_with decode_with_decoder l.

(** The messages the wire can represent. *)
Definition wf (self : t) : bool :=
  MetricNumberV2Value.wf (value self).

Lemma MetricNumberV2_carried (self : t) : wf self = true -> carries (encode_into self)
  decode_with_decoder self.
Proof. destruct self. unfold encode_into, decode_with_decoder, wf. cbn [value]. codec. Qed.
End MetricNumberV2.
#[export] Hint Resolve MetricNumberV2.MetricNumberV2_carried : codec.

Module MetricExemplarV2.
Record t := mk {
  ts_unix_nano : Z;
  number : MetricNumberV2.t;
  filtered_attrs : list LabelPair.t;
  trace_id : bytes;
  span_id : bytes;
}.

Definition encode_into (self : t) : Encode :=
  put write_u64_be (ts_unix_nano self) >>
  MetricNumberV2.encode_into (number self) >>
  put write_u16_be (cast_u16 (zlen (filtered_attrs self))) >>
  for_each LabelPair.encode_into (filtered_attrs self) >>
  put_bytes write_byte (trace_id self) >>
  put_bytes write_byte (span_id self) >>
  ok_unit.

Definition encode (self : t) : result BinSchemaError bytes := encode_with encode_into self.

Definition decode_with_decoder : Read t :=
  let! ts_unix_nano := read_u64_be in
  let! number := MetricNumberV2.decode_with_decoder in
  let! length := read_u16_be in
  let! filtered_attrs := read_vec length LabelPair.decode_with_decoder in
  let! trace_id := read_bytes_vec 16 in
  let! span_id := read_bytes_vec 8 in
  ret (mk ts_unix_nano number filtered_attrs trace_id span_id).

Definition decode (l : bytes) : result BinSchemaError t := decode_with decode_with_decoder l.

(** The messages the wire can represent. *)
Definition wf (self : t) : bool :=
  u_ok 64 (ts_unix_nano self)
  && MetricNumberV2.wf (number self)
  && vec_ok 16 LabelPair.wf (filtered_attrs self)
  && fixed_ok 16 (trace_id self)
  && fixed_ok 8 (span_id self).

Lemma MetricExemplarV2_carried (self : t) : wf self = true -> carries (encode_into self)
  decode_with_decoder self.
Proof. destruct self. unfold encode_into, decode_with_decoder, wf. cbn [ts_unix_nano number
  filtered_attrs trace_id span_id]. codec. Qed.
End MetricExemplarV2.
#[export] Hint Resolve MetricExemplarV2.MetricExemplarV2_carried : codec.

Module ScalarPointV2Input.
Record t := mk {
  descriptor_id : Z;
  start_unix_nano : Z;
  ts_unix_nano : Z;
  flags : Z;
  attributes : list LabelPair.t;
  exemplars : list MetricExemplarV2.t;
  number : MetricNumberV2.t;
}.

Definition encode_into (self : t) : Encode :=
  put write_byte 1 >>
  put write_u32_be (descriptor_id self) >>
  put write_u64_be (start_unix_nano self) >>
  put write_u64_be (ts_unix_nano self) >>
  put write_u32_be (flags self) >>
  put write_u16_be (cast_u16 (zlen (attributes self))) >>
  for_each LabelPair.encode_into (attributes self) >>
  put write_u16_be (cast_u16 (zlen (exemplars self))) >>
  for_each MetricExemplarV2.encode_into (exemplars self) >>
  MetricNumberV2.encode_into (number self) >>
  ok_unit.

Definition encode (self : t) : result BinSchemaError bytes := encode_with encode_into self.

End ScalarPointV2Input.

Module ScalarPointV2Output.
Record t := mk {
  tag : Z;
  descriptor_id : Z;
  start_unix_nano : Z;
  ts_unix_nano : Z;
  flags : Z;
  attributes : list LabelPair.t;
  exemplars : list MetricExemplarV2.t;
  number : MetricNumberV2.t;
}.

Definition to_input (o : t) : ScalarPointV2Input.t :=
   ScalarPointV2Input.mk (descriptor_id o) (start_unix_nano o) (ts_unix_nano o) (flags o)
    (attributes o) (exemplars o) (number o).

Definition from_input (i : ScalarPointV2Input.t) : t :=
   mk 1 (ScalarPointV2Input.descriptor_id i) (ScalarPointV2Input.start_unix_nano i)
    (ScalarPointV2Input.ts_unix_nano i) (ScalarPointV2Input.flags i) (ScalarPointV2Input.attributes
    i) (ScalarPointV2Input.exemplars i) (ScalarPointV2Input.number i).

Definition encode_into (self : t) : Encode := ScalarPointV2Input.encode_into (to_input self).
Definition encode (self : t) : result BinSchemaError bytes := ScalarPointV2Input.encode (to_input self).

Definition decode_with_decoder : Read t :=
  let! tag := read_byte in
  let! ok := expect 1 tag in
  let! descriptor_id := read_u32_be in
  let! start_unix_nano := read_u64_be in
  let! ts_unix_nano := read_u64_be in
  let! flags := read_u32_be in
  let! length := read_u16_be in
  let! attributes := read_vec length LabelPair.decode_with_decoder in
  let! length := read_u16_be in
  let! exemplars := read_vec length MetricExemplarV2.decode_with_decoder in
  let! number := MetricNumberV2.decode_with_decoder in
  ret (mk tag descriptor_id start_unix_nano ts_unix_nano flags attributes exemplars number).

Definition decode (l : bytes) : result BinSchemaError t := decode_with decode_with_decoder l.

(** The messages the wire can represent. *)
Definition wf (self : t) : bool :=
  const_ok 1 (tag self)
  && u_ok 32 (descriptor_id self)
  && u_ok 64 (start_unix_nano self)
  && u_ok 64 (ts_unix_nano self)
  && u_ok 32 (flags self)
  && vec_ok 16 LabelPair.wf (attributes self)
  && vec_ok 16 MetricExemplarV2.wf (exemplars self)
  && MetricNumberV2.wf (number self).

Lemma ScalarPointV2Output_carried (self : t) : wf self = true -> carries (encode_into self)
  decode_with_decoder self.
Proof. destruct self. unfold encode_into, ScalarPointV2Input.encode_into, to_input,
  decode_with_decoder, wf. cbn [tag descriptor_id start_unix_nano ts_unix_nano flags attributes
  exemplars number ScalarPointV2Input.descriptor_id ScalarPointV2Input.start_unix_nano
  ScalarPointV2Input.ts_unix_nano ScalarPointV2Input.flags ScalarPointV2Input.attributes
  ScalarPointV2Input.exemplars ScalarPointV2Input.number]. codec. Qed.

Lemma ScalarPointV2Output_refuses : rejects decode_with_decoder 1.
Proof. apply rejects_tag. Qed.
End ScalarPointV2Output.
#[export] Hint Resolve ScalarPointV2Output.ScalarPointV2Output_carried : codec.

Module HistogramPointV2Input.
Record t := mk {
  descriptor_id : Z;
  start_unix_nano : Z;
  ts_unix_nano : Z;
  flags : Z;
  attributes : list LabelPair.t;
  exemplars : list MetricExemplarV2.t;
  count : Z;
  has_sum : Z;
  sum : Z;
  has_min : Z;
  min : Z;
  has_max : Z;
  max : Z;
  explicit_bounds : list Z;
  bucket_counts : list Z;
}.

Definition encode_into (self : t) : Encode :=
  put write_byte 2 >>
  put write_u32_be (descriptor_id self) >>
  put write_u64_be (start_unix_nano self) >>
  put write_u64_be (ts_unix_nano self) >>
  put write_u32_be (flags self) >>
  put write_u16_be (cast_u16 (zlen (attributes self))) >>
  for_each LabelPair.encode_into (attributes self) >>
  put write_u16_be (cast_u16 (zlen (exemplars self))) >>
  for_each MetricExemplarV2.encode_into (exemplars self) >>
  put write_u64_be (count self) >>
  put write_byte (has_sum self) >>
  put write_u64_be (sum self) >>
  put write_byte (has_min self) >>
  put write_u64_be (min self) >>
  put write_byte (has_max self) >>
  put write_u64_be (max self) >>
  put write_u32_be (cast_u32 (zlen (explicit_bounds self))) >>
  for_each (put write_u64_be) (explicit_bounds self) >>
  put write_u32_be (cast_u32 (zlen (bucket_counts self))) >>
  for_each (put write_u64_be) (bucket_counts self) >>
  ok_unit.

Definition encode (self : t) : result BinSchemaError bytes := encode_with encode_into self.

End HistogramPointV2Input.

Module HistogramPointV2Output.
Record t := mk {
  tag : Z;
  descriptor_id : Z;
  start_unix_nano : Z;
  ts_unix_nano : Z;
  flags : Z;
  attributes : list LabelPair.t;
  exemplars : list MetricExemplarV2.t;
  count : Z;
  has_sum : Z;
  sum : Z;
  has_min : Z;
  min : Z;
  has_max : Z;
  max : Z;
  explicit_bounds : list Z;
  bucket_counts : list Z;
}.

Definition to_input (o : t) : HistogramPointV2Input.t :=
   HistogramPointV2Input.mk (descriptor_id o) (start_unix_nano o) (ts_unix_nano o) (flags o)
    (attributes o) (exemplars o) (count o) (has_sum o) (sum o) (has_min o) (min o) (has_max o) (max
    o) (explicit_bounds o) (bucket_counts o).

Definition from_input (i : HistogramPointV2Input.t) : t :=
   mk 2 (HistogramPointV2Input.descriptor_id i) (HistogramPointV2Input.start_unix_nano i)
    (HistogramPointV2Input.ts_unix_nano i) (HistogramPointV2Input.flags i)
    (HistogramPointV2Input.attributes i) (HistogramPointV2Input.exemplars i)
    (HistogramPointV2Input.count i) (HistogramPointV2Input.has_sum i) (HistogramPointV2Input.sum i)
    (HistogramPointV2Input.has_min i) (HistogramPointV2Input.min i) (HistogramPointV2Input.has_max
    i) (HistogramPointV2Input.max i) (HistogramPointV2Input.explicit_bounds i)
    (HistogramPointV2Input.bucket_counts i).

Definition encode_into (self : t) : Encode := HistogramPointV2Input.encode_into (to_input self).
Definition encode (self : t) : result BinSchemaError bytes := HistogramPointV2Input.encode (to_input
  self).

Definition decode_with_decoder : Read t :=
  let! tag := read_byte in
  let! ok := expect 2 tag in
  let! descriptor_id := read_u32_be in
  let! start_unix_nano := read_u64_be in
  let! ts_unix_nano := read_u64_be in
  let! flags := read_u32_be in
  let! length := read_u16_be in
  let! attributes := read_vec length LabelPair.decode_with_decoder in
  let! length := read_u16_be in
  let! exemplars := read_vec length MetricExemplarV2.decode_with_decoder in
  let! count := read_u64_be in
  let! has_sum := read_byte in
  let! sum := read_u64_be in
  let! has_min := read_byte in
  let! min := read_u64_be in
  let! has_max := read_byte in
  let! max := read_u64_be in
  let! length := read_u32_be in
  let! explicit_bounds := read_vec length read_u64_be in
  let! length := read_u32_be in
  let! bucket_counts := read_vec length read_u64_be in
   ret (mk tag descriptor_id start_unix_nano ts_unix_nano flags attributes exemplars count has_sum
    sum has_min min has_max max explicit_bounds bucket_counts).

Definition decode (l : bytes) : result BinSchemaError t := decode_with decode_with_decoder l.

(** The messages the wire can represent. *)
Definition wf (self : t) : bool :=
  const_ok 2 (tag self)
  && u_ok 32 (descriptor_id self)
  && u_ok 64 (start_unix_nano self)
  && u_ok 64 (ts_unix_nano self)
  && u_ok 32 (flags self)
  && vec_ok 16 LabelPair.wf (attributes self)
  && vec_ok 16 MetricExemplarV2.wf (exemplars self)
  && u_ok 64 (count self)
  && u_ok 8 (has_sum self)
  && u_ok 64 (sum self)
  && u_ok 8 (has_min self)
  && u_ok 64 (min self)
  && u_ok 8 (has_max self)
  && u_ok 64 (max self)
  && vec_ok 32 (u_ok 64) (explicit_bounds self)
  && vec_ok 32 (u_ok 64) (bucket_counts self).

Lemma HistogramPointV2Output_carried (self : t) : wf self = true -> carries (encode_into self)
  decode_with_decoder self.
Proof. destruct self. unfold encode_into, HistogramPointV2Input.encode_into, to_input,
  decode_with_decoder, wf. cbn [tag descriptor_id start_unix_nano ts_unix_nano flags attributes
  exemplars count has_sum sum has_min min has_max max explicit_bounds bucket_counts
  HistogramPointV2Input.descriptor_id HistogramPointV2Input.start_unix_nano
  HistogramPointV2Input.ts_unix_nano HistogramPointV2Input.flags HistogramPointV2Input.attributes
  HistogramPointV2Input.exemplars HistogramPointV2Input.count HistogramPointV2Input.has_sum
  HistogramPointV2Input.sum HistogramPointV2Input.has_min HistogramPointV2Input.min
  HistogramPointV2Input.has_max HistogramPointV2Input.max HistogramPointV2Input.explicit_bounds
  HistogramPointV2Input.bucket_counts]. codec. Qed.

Lemma HistogramPointV2Output_refuses : rejects decode_with_decoder 2.
Proof. apply rejects_tag. Qed.
End HistogramPointV2Output.
#[export] Hint Resolve HistogramPointV2Output.HistogramPointV2Output_carried : codec.

Module IntegerCountV2Input.
Record t := mk {
  value : Z;
}.

Definition encode_into (self : t) : Encode :=
  put write_byte 1 >>
  put write_u64_be (value self) >>
  ok_unit.

Definition encode (self : t) : result BinSchemaError bytes := encode_with encode_into self.

End IntegerCountV2Input.

Module IntegerCountV2Output.
Record t := mk {
  tag : Z;
  value : Z;
}.

Definition to_input (o : t) : IntegerCountV2Input.t :=
  IntegerCountV2Input.mk (value o).

Definition from_input (i : IntegerCountV2Input.t) : t :=
  mk 1 (IntegerCountV2Input.value i).

Definition encode_into (self : t) : Encode := IntegerCountV2Input.encode_into (to_input self).
Definition encode (self : t) : result BinSchemaError bytes := IntegerCountV2Input.encode (to_input self).

Definition decode_with_decoder : Read t :=
  let! tag := read_byte in
  let! ok := expect 1 tag in
  let! value := read_u64_be in
  ret (mk tag value).

Definition decode (l : bytes) : result BinSchemaError t := decode_with decode_with_decoder l.

(** The messages the wire can represent. *)
Definition wf (self : t) : bool :=
  const_ok 1 (tag self)
  && u_ok 64 (value self).

Lemma IntegerCountV2Output_carried (self : t) : wf self = true -> carries (encode_into self)
  decode_with_decoder self.
Proof. destruct self. unfold encode_into, IntegerCountV2Input.encode_into, to_input,
  decode_with_decoder, wf. cbn [tag value IntegerCountV2Input.value]. codec. Qed.

Lemma IntegerCountV2Output_refuses : rejects decode_with_decoder 1.
Proof. apply rejects_tag. Qed.
End IntegerCountV2Output.
#[export] Hint Resolve IntegerCountV2Output.IntegerCountV2Output_carried : codec.

Module FloatCountV2Input.
Record t := mk {
  value : Z;
}.

Definition encode_into (self : t) : Encode :=
  put write_byte 2 >>
  put write_u64_be (value self) >>
  ok_unit.

Definition encode (self : t) : result BinSchemaError bytes := encode_with encode_into self.

End FloatCountV2Input.

Module FloatCountV2Output.
Record t := mk {
  tag : Z;
  value : Z;
}.

Definition to_input (o : t) : FloatCountV2Input.t :=
  FloatCountV2Input.mk (value o).

Definition from_input (i : FloatCountV2Input.t) : t :=
  mk 2 (FloatCountV2Input.value i).

Definition encode_into (self : t) : Encode := FloatCountV2Input.encode_into (to_input self).
Definition encode (self : t) : result BinSchemaError bytes := FloatCountV2Input.encode (to_input self).

Definition decode_with_decoder : Read t :=
  let! tag := read_byte in
  let! ok := expect 2 tag in
  let! value := read_u64_be in
  ret (mk tag value).

Definition decode (l : bytes) : result BinSchemaError t := decode_with decode_with_decoder l.

(** The messages the wire can represent. *)
Definition wf (self : t) : bool :=
  const_ok 2 (tag self)
  && u_ok 64 (value self).

Lemma FloatCountV2Output_carried (self : t) : wf self = true -> carries (encode_into self)
  decode_with_decoder self.
Proof. destruct self. unfold encode_into, FloatCountV2Input.encode_into, to_input,
  decode_with_decoder, wf. cbn [tag value FloatCountV2Input.value]. codec. Qed.

Lemma FloatCountV2Output_refuses : rejects decode_with_decoder 2.
Proof. apply rejects_tag. Qed.
End FloatCountV2Output.
#[export] Hint Resolve FloatCountV2Output.FloatCountV2Output_carried : codec.

Module MetricCountV2Value.
Inductive t :=
| IntegerCountV2 (v : IntegerCountV2Output.t)
| FloatCountV2 (v : FloatCountV2Output.t).

Definition encode_into (self : t) : Encode :=
  match self with
  | IntegerCountV2 v =>
      put write_uint8 1 >>
      put uint64_be (IntegerCountV2Output.value v) >>
      ok_unit
  | FloatCountV2 v =>
      put write_uint8 2 >>
      put float64_be (FloatCountV2Output.value v) >>
      ok_unit
  end.

Definition encode (self : t) : result BinSchemaError bytes := encode_with encode_into self.

Definition type_name (self : t) : string :=
  match self with
  | IntegerCountV2 _ => "IntegerCountV2"
  | FloatCountV2 _ => "FloatCountV2"
  end.

Definition decode_with_decoder : Read t := fun d =>
  let start_pos := position d in
  (try_variant start_pos IntegerCountV2Output.decode_with_decoder IntegerCountV2
  (last_variant FloatCountV2Output.decode_with_decoder FloatCountV2)) d.

Definition decode (l : bytes) : result BinSchemaError t := decode_with decode_with_decoder l.

Definition wf (self : t) : bool :=
  match self with
  | IntegerCountV2 v => IntegerCountV2Output.wf v
  | FloatCountV2 v => FloatCountV2Output.wf v
  end.

Lemma MetricCountV2Value_arm_IntegerCountV2 (v : IntegerCountV2Output.t) :
   IntegerCountV2Output.wf v = true -> carries_tag 1 (encode_into (IntegerCountV2 v))
    IntegerCountV2Output.decode_with_decoder v.
Proof. destruct v. unfold encode_into, IntegerCountV2Output.decode_with_decoder,
  IntegerCountV2Output.wf. cbn [IntegerCountV2Output.tag IntegerCountV2Output.value]. codec_arm.
  Qed.

Lemma MetricCountV2Value_arm_FloatCountV2 (v : FloatCountV2Output.t) :
   FloatCountV2Output.wf v = true -> carries_tag 2 (encode_into (FloatCountV2 v))
    FloatCountV2Output.decode_with_decoder v.
Proof. destruct v. unfold encode_into, FloatCountV2Output.decode_with_decoder,
  FloatCountV2Output.wf. cbn [FloatCountV2Output.tag FloatCountV2Output.value]. codec_arm. Qed.

Lemma MetricCountV2Value_carried (self : t) : wf self = true -> carries (encode_into self)
  decode_with_decoder self.
Proof.
  destruct self as [v|v]; unfold wf, decode_with_decoder; intros H.
  - union (MetricCountV2Value_arm_IntegerCountV2 v H) ltac:(idtac).
   - union (MetricCountV2Value_arm_FloatCountV2 v H) ltac:(skip
    IntegerCountV2Output.IntegerCountV2Output_refuses).
Qed.
End MetricCountV2Value.
#[export] Hint Resolve MetricCountV2Value.MetricCountV2Value_carried : codec.

Module MetricCountV2.
Record t := mk {
  value : MetricCountV2Value.t;
}.

Definition encode_into (self : t) : Encode :=
  MetricCountV2Value.encode_into (value self) >>
  ok_unit.

Definition encode (self : t) : result BinSchemaError bytes := encode_with encode_into self.

Definition decode_with_decoder : Read t :=
  let! value := MetricCountV2Value.decode_with_decoder in
  ret (mk value).

Definition decode (l : bytes) : result BinSchemaError t := decode_with decode_with_decoder l.

(** The messages the wire can represent. *)
Definition wf (self : t) : bool :=
  MetricCountV2Value.wf (value self).

Lemma MetricCountV2_carried (self : t) : wf self = true -> carries (encode_into self)
  decode_with_decoder self.
Proof. destruct self. unfold encode_into, decode_with_decoder, wf. cbn [value]. codec. Qed.
End MetricCountV2.
#[export] Hint Resolve MetricCountV2.MetricCountV2_carried : codec.

Module SparseBucketsV2.
Record t := mk {
  offset : Z;
  deltas : list Z;
  counts : list MetricCountV2.t;
}.

Definition encode_into (self : t) : Encode :=
  put write_u32_be (cast_u32 (offset self)) >>
  put write_u32_be (cast_u32 (zlen (deltas self))) >>
  for_each (fun item => put write_u32_be (cast_u32 item)) (deltas self) >>
  put write_u32_be (cast_u32 (zlen (counts self))) >>
  for_each MetricCountV2.encode_into (counts self) >>
  ok_unit.

Definition encode (self : t) : result BinSchemaError bytes := encode_with encode_into self.

Definition decode_with_decoder : Read t :=
  let! offset := (let! x := read_u32_be in ret (as_signed 32 x)) in
  let! length := read_u32_be in
  let! deltas := read_vec length (let! x := read_u32_be in ret (as_signed 32 x)) in
  let! length := read_u32_be in
  let! counts := read_vec length MetricCountV2.decode_with_decoder in
  ret (mk offset deltas counts).

Definition decode (l : bytes) : result BinSchemaError t := decode_with decode_with_decoder l.

(** The messages the wire can represent. *)
Definition wf (self : t) : bool :=
  i_ok 32 (offset self)
  && vec_ok 32 (i_ok 32) (deltas self)
  && vec_ok 32 MetricCountV2.wf (counts self).

Lemma SparseBucketsV2_carried (self : t) : wf self = true -> carries (encode_into self)
  decode_with_decoder self.
Proof. destruct self. unfold encode_into, decode_with_decoder, wf. cbn [offset deltas counts].
  codec. Qed.
End SparseBucketsV2.
#[export] Hint Resolve SparseBucketsV2.SparseBucketsV2_carried : codec.

Module ExponentialHistogramPointV2Input.
Record t := mk {
  descriptor_id : Z;
  start_unix_nano : Z;
  ts_unix_nano : Z;
  flags : Z;
  attributes : list LabelPair.t;
  exemplars : list MetricExemplarV2.t;
  count : MetricCountV2.t;
  has_sum : Z;
  sum : Z;
  has_min : Z;
  min : Z;
  has_max : Z;
  max : Z;
  scale : Z;
  zero_threshold : Z;
  zero_count : MetricCountV2.t;
  positive : SparseBucketsV2.t;
  negative : SparseBucketsV2.t;
  custom_bounds : list Z;
  reset_hint : Z;
}.

Definition encode_into (self : t) : Encode :=
  put write_byte 3 >>
  put write_u32_be (descriptor_id self) >>
  put write_u64_be (start_unix_nano self) >>
  put write_u64_be (ts_unix_nano self) >>
  put write_u32_be (flags self) >>
  put write_u16_be (cast_u16 (zlen (attributes self))) >>
  for_each LabelPair.encode_into (attributes self) >>
  put write_u16_be (cast_u16 (zlen (exemplars self))) >>
  for_each MetricExemplarV2.encode_into (exemplars self) >>
  MetricCountV2.encode_into (count self) >>
  put write_byte (has_sum self) >>
  put write_u64_be (sum self) >>
  put write_byte (has_min self) >>
  put write_u64_be (min self) >>
  put write_byte (has_max self) >>
  put write_u64_be (max self) >>
  put write_u32_be (cast_u32 (scale self)) >>
  put write_u64_be (zero_threshold self) >>
  MetricCountV2.encode_into (zero_count self) >>
  SparseBucketsV2.encode_into (positive self) >>
  SparseBucketsV2.encode_into (negative self) >>
  put write_u32_be (cast_u32 (zlen (custom_bounds self))) >>
  for_each (put write_u64_be) (custom_bounds self) >>
  put write_byte (reset_hint self) >>
  ok_unit.

Definition encode (self : t) : result BinSchemaError bytes := encode_with encode_into self.

End ExponentialHistogramPointV2Input.

Module ExponentialHistogramPointV2Output.
Record t := mk {
  tag : Z;
  descriptor_id : Z;
  start_unix_nano : Z;
  ts_unix_nano : Z;
  flags : Z;
  attributes : list LabelPair.t;
  exemplars : list MetricExemplarV2.t;
  count : MetricCountV2.t;
  has_sum : Z;
  sum : Z;
  has_min : Z;
  min : Z;
  has_max : Z;
  max : Z;
  scale : Z;
  zero_threshold : Z;
  zero_count : MetricCountV2.t;
  positive : SparseBucketsV2.t;
  negative : SparseBucketsV2.t;
  custom_bounds : list Z;
  reset_hint : Z;
}.

Definition to_input (o : t) : ExponentialHistogramPointV2Input.t :=
   ExponentialHistogramPointV2Input.mk (descriptor_id o) (start_unix_nano o) (ts_unix_nano o) (flags
    o) (attributes o) (exemplars o) (count o) (has_sum o) (sum o) (has_min o) (min o) (has_max o)
    (max o) (scale o) (zero_threshold o) (zero_count o) (positive o) (negative o) (custom_bounds o)
    (reset_hint o).

Definition from_input (i : ExponentialHistogramPointV2Input.t) : t :=
   mk 3 (ExponentialHistogramPointV2Input.descriptor_id i)
    (ExponentialHistogramPointV2Input.start_unix_nano i)
    (ExponentialHistogramPointV2Input.ts_unix_nano i) (ExponentialHistogramPointV2Input.flags i)
    (ExponentialHistogramPointV2Input.attributes i) (ExponentialHistogramPointV2Input.exemplars i)
    (ExponentialHistogramPointV2Input.count i) (ExponentialHistogramPointV2Input.has_sum i)
    (ExponentialHistogramPointV2Input.sum i) (ExponentialHistogramPointV2Input.has_min i)
    (ExponentialHistogramPointV2Input.min i) (ExponentialHistogramPointV2Input.has_max i)
    (ExponentialHistogramPointV2Input.max i) (ExponentialHistogramPointV2Input.scale i)
    (ExponentialHistogramPointV2Input.zero_threshold i) (ExponentialHistogramPointV2Input.zero_count
    i) (ExponentialHistogramPointV2Input.positive i) (ExponentialHistogramPointV2Input.negative i)
    (ExponentialHistogramPointV2Input.custom_bounds i) (ExponentialHistogramPointV2Input.reset_hint
    i).

Definition encode_into (self : t) : Encode := ExponentialHistogramPointV2Input.encode_into (to_input
  self).
Definition encode (self : t) : result BinSchemaError bytes :=
  ExponentialHistogramPointV2Input.encode (to_input self).

Definition decode_with_decoder : Read t :=
  let! tag := read_byte in
  let! ok := expect 3 tag in
  let! descriptor_id := read_u32_be in
  let! start_unix_nano := read_u64_be in
  let! ts_unix_nano := read_u64_be in
  let! flags := read_u32_be in
  let! length := read_u16_be in
  let! attributes := read_vec length LabelPair.decode_with_decoder in
  let! length := read_u16_be in
  let! exemplars := read_vec length MetricExemplarV2.decode_with_decoder in
  let! count := MetricCountV2.decode_with_decoder in
  let! has_sum := read_byte in
  let! sum := read_u64_be in
  let! has_min := read_byte in
  let! min := read_u64_be in
  let! has_max := read_byte in
  let! max := read_u64_be in
  let! scale := (let! x := read_u32_be in ret (as_signed 32 x)) in
  let! zero_threshold := read_u64_be in
  let! zero_count := MetricCountV2.decode_with_decoder in
  let! positive := SparseBucketsV2.decode_with_decoder in
  let! negative := SparseBucketsV2.decode_with_decoder in
  let! length := read_u32_be in
  let! custom_bounds := read_vec length read_u64_be in
  let! reset_hint := read_byte in
   ret (mk tag descriptor_id start_unix_nano ts_unix_nano flags attributes exemplars count has_sum
    sum has_min min has_max max scale zero_threshold zero_count positive negative custom_bounds
    reset_hint).

Definition decode (l : bytes) : result BinSchemaError t := decode_with decode_with_decoder l.

(** The messages the wire can represent. *)
Definition wf (self : t) : bool :=
  const_ok 3 (tag self)
  && u_ok 32 (descriptor_id self)
  && u_ok 64 (start_unix_nano self)
  && u_ok 64 (ts_unix_nano self)
  && u_ok 32 (flags self)
  && vec_ok 16 LabelPair.wf (attributes self)
  && vec_ok 16 MetricExemplarV2.wf (exemplars self)
  && MetricCountV2.wf (count self)
  && u_ok 8 (has_sum self)
  && u_ok 64 (sum self)
  && u_ok 8 (has_min self)
  && u_ok 64 (min self)
  && u_ok 8 (has_max self)
  && u_ok 64 (max self)
  && i_ok 32 (scale self)
  && u_ok 64 (zero_threshold self)
  && MetricCountV2.wf (zero_count self)
  && SparseBucketsV2.wf (positive self)
  && SparseBucketsV2.wf (negative self)
  && vec_ok 32 (u_ok 64) (custom_bounds self)
  && u_ok 8 (reset_hint self).

Lemma ExponentialHistogramPointV2Output_carried (self : t) : wf self = true -> carries (encode_into
  self) decode_with_decoder self.
Proof. destruct self. unfold encode_into, ExponentialHistogramPointV2Input.encode_into, to_input,
  decode_with_decoder, wf. cbn [tag descriptor_id start_unix_nano ts_unix_nano flags attributes
  exemplars count has_sum sum has_min min has_max max scale zero_threshold zero_count positive
  negative custom_bounds reset_hint ExponentialHistogramPointV2Input.descriptor_id
  ExponentialHistogramPointV2Input.start_unix_nano ExponentialHistogramPointV2Input.ts_unix_nano
  ExponentialHistogramPointV2Input.flags ExponentialHistogramPointV2Input.attributes
  ExponentialHistogramPointV2Input.exemplars ExponentialHistogramPointV2Input.count
  ExponentialHistogramPointV2Input.has_sum ExponentialHistogramPointV2Input.sum
  ExponentialHistogramPointV2Input.has_min ExponentialHistogramPointV2Input.min
  ExponentialHistogramPointV2Input.has_max ExponentialHistogramPointV2Input.max
  ExponentialHistogramPointV2Input.scale ExponentialHistogramPointV2Input.zero_threshold
  ExponentialHistogramPointV2Input.zero_count ExponentialHistogramPointV2Input.positive
  ExponentialHistogramPointV2Input.negative ExponentialHistogramPointV2Input.custom_bounds
  ExponentialHistogramPointV2Input.reset_hint]. codec. Qed.

Lemma ExponentialHistogramPointV2Output_refuses : rejects decode_with_decoder 3.
Proof. apply rejects_tag. Qed.
End ExponentialHistogramPointV2Output.
#[export] Hint Resolve ExponentialHistogramPointV2Output.ExponentialHistogramPointV2Output_carried :
  codec.

Module QuantileValueV2.
Record t := mk {
  quantile : Z;
  value : Z;
}.

Definition encode_into (self : t) : Encode :=
  put write_u64_be (quantile self) >>
  put write_u64_be (value self) >>
  ok_unit.

Definition encode (self : t) : result BinSchemaError bytes := encode_with encode_into self.

Definition decode_with_decoder : Read t :=
  let! quantile := read_u64_be in
  let! value := read_u64_be in
  ret (mk quantile value).

Definition decode (l : bytes) : result BinSchemaError t := decode_with decode_with_decoder l.

(** The messages the wire can represent. *)
Definition wf (self : t) : bool :=
  u_ok 64 (quantile self)
  && u_ok 64 (value self).

Lemma QuantileValueV2_carried (self : t) : wf self = true -> carries (encode_into self)
  decode_with_decoder self.
Proof. destruct self. unfold encode_into, decode_with_decoder, wf. cbn [quantile value]. codec. Qed.
End QuantileValueV2.
#[export] Hint Resolve QuantileValueV2.QuantileValueV2_carried : codec.

Module SummaryPointV2Input.
Record t := mk {
  descriptor_id : Z;
  start_unix_nano : Z;
  ts_unix_nano : Z;
  flags : Z;
  attributes : list LabelPair.t;
  exemplars : list MetricExemplarV2.t;
  count : Z;
  sum : Z;
  quantiles : list QuantileValueV2.t;
}.

Definition encode_into (self : t) : Encode :=
  put write_byte 4 >>
  put write_u32_be (descriptor_id self) >>
  put write_u64_be (start_unix_nano self) >>
  put write_u64_be (ts_unix_nano self) >>
  put write_u32_be (flags self) >>
  put write_u16_be (cast_u16 (zlen (attributes self))) >>
  for_each LabelPair.encode_into (attributes self) >>
  put write_u16_be (cast_u16 (zlen (exemplars self))) >>
  for_each MetricExemplarV2.encode_into (exemplars self) >>
  put write_u64_be (count self) >>
  put write_u64_be (sum self) >>
  put write_u16_be (cast_u16 (zlen (quantiles self))) >>
  for_each QuantileValueV2.encode_into (quantiles self) >>
  ok_unit.

Definition encode (self : t) : result BinSchemaError bytes := encode_with encode_into self.

End SummaryPointV2Input.

Module SummaryPointV2Output.
Record t := mk {
  tag : Z;
  descriptor_id : Z;
  start_unix_nano : Z;
  ts_unix_nano : Z;
  flags : Z;
  attributes : list LabelPair.t;
  exemplars : list MetricExemplarV2.t;
  count : Z;
  sum : Z;
  quantiles : list QuantileValueV2.t;
}.

Definition to_input (o : t) : SummaryPointV2Input.t :=
   SummaryPointV2Input.mk (descriptor_id o) (start_unix_nano o) (ts_unix_nano o) (flags o)
    (attributes o) (exemplars o) (count o) (sum o) (quantiles o).

Definition from_input (i : SummaryPointV2Input.t) : t :=
   mk 4 (SummaryPointV2Input.descriptor_id i) (SummaryPointV2Input.start_unix_nano i)
    (SummaryPointV2Input.ts_unix_nano i) (SummaryPointV2Input.flags i)
    (SummaryPointV2Input.attributes i) (SummaryPointV2Input.exemplars i) (SummaryPointV2Input.count
    i) (SummaryPointV2Input.sum i) (SummaryPointV2Input.quantiles i).

Definition encode_into (self : t) : Encode := SummaryPointV2Input.encode_into (to_input self).
Definition encode (self : t) : result BinSchemaError bytes := SummaryPointV2Input.encode (to_input self).

Definition decode_with_decoder : Read t :=
  let! tag := read_byte in
  let! ok := expect 4 tag in
  let! descriptor_id := read_u32_be in
  let! start_unix_nano := read_u64_be in
  let! ts_unix_nano := read_u64_be in
  let! flags := read_u32_be in
  let! length := read_u16_be in
  let! attributes := read_vec length LabelPair.decode_with_decoder in
  let! length := read_u16_be in
  let! exemplars := read_vec length MetricExemplarV2.decode_with_decoder in
  let! count := read_u64_be in
  let! sum := read_u64_be in
  let! length := read_u16_be in
  let! quantiles := read_vec length QuantileValueV2.decode_with_decoder in
  ret (mk tag descriptor_id start_unix_nano ts_unix_nano flags attributes exemplars count sum quantiles).

Definition decode (l : bytes) : result BinSchemaError t := decode_with decode_with_decoder l.

(** The messages the wire can represent. *)
Definition wf (self : t) : bool :=
  const_ok 4 (tag self)
  && u_ok 32 (descriptor_id self)
  && u_ok 64 (start_unix_nano self)
  && u_ok 64 (ts_unix_nano self)
  && u_ok 32 (flags self)
  && vec_ok 16 LabelPair.wf (attributes self)
  && vec_ok 16 MetricExemplarV2.wf (exemplars self)
  && u_ok 64 (count self)
  && u_ok 64 (sum self)
  && vec_ok 16 QuantileValueV2.wf (quantiles self).

Lemma SummaryPointV2Output_carried (self : t) : wf self = true -> carries (encode_into self)
  decode_with_decoder self.
Proof. destruct self. unfold encode_into, SummaryPointV2Input.encode_into, to_input,
  decode_with_decoder, wf. cbn [tag descriptor_id start_unix_nano ts_unix_nano flags attributes
  exemplars count sum quantiles SummaryPointV2Input.descriptor_id
  SummaryPointV2Input.start_unix_nano SummaryPointV2Input.ts_unix_nano SummaryPointV2Input.flags
  SummaryPointV2Input.attributes SummaryPointV2Input.exemplars SummaryPointV2Input.count
  SummaryPointV2Input.sum SummaryPointV2Input.quantiles]. codec. Qed.

Lemma SummaryPointV2Output_refuses : rejects decode_with_decoder 4.
Proof. apply rejects_tag. Qed.
End SummaryPointV2Output.
#[export] Hint Resolve SummaryPointV2Output.SummaryPointV2Output_carried : codec.

Module MetricPointV2Value.
Inductive t :=
| ScalarPointV2 (v : ScalarPointV2Output.t)
| HistogramPointV2 (v : HistogramPointV2Output.t)
| ExponentialHistogramPointV2 (v : ExponentialHistogramPointV2Output.t)
| SummaryPointV2 (v : SummaryPointV2Output.t).

Definition encode_into (self : t) : Encode :=
  match self with
  | ScalarPointV2 v =>
      put write_uint8 1 >>
      put uint32_be (ScalarPointV2Output.descriptor_id v) >>
      put uint64_be (ScalarPointV2Output.start_unix_nano v) >>
      put uint64_be (ScalarPointV2Output.ts_unix_nano v) >>
      put uint32_be (ScalarPointV2Output.flags v) >>
      put uint16_be (cast_u16 (zlen (ScalarPointV2Output.attributes v))) >>
      for_each LabelPair.encode_into (ScalarPointV2Output.attributes v) >>
      put uint16_be (cast_u16 (zlen (ScalarPointV2Output.exemplars v))) >>
      for_each MetricExemplarV2.encode_into (ScalarPointV2Output.exemplars v) >>
      MetricNumberV2.encode_into (ScalarPointV2Output.number v) >>
      ok_unit
  | HistogramPointV2 v =>
      put write_uint8 2 >>
      put uint32_be (HistogramPointV2Output.descriptor_id v) >>
      put uint64_be (HistogramPointV2Output.start_unix_nano v) >>
      put uint64_be (HistogramPointV2Output.ts_unix_nano v) >>
      put uint32_be (HistogramPointV2Output.flags v) >>
      put uint16_be (cast_u16 (zlen (HistogramPointV2Output.attributes v))) >>
      for_each LabelPair.encode_into (HistogramPointV2Output.attributes v) >>
      put uint16_be (cast_u16 (zlen (HistogramPointV2Output.exemplars v))) >>
      for_each MetricExemplarV2.encode_into (HistogramPointV2Output.exemplars v) >>
      put uint64_be (HistogramPointV2Output.count v) >>
      put write_uint8 (HistogramPointV2Output.has_sum v) >>
      put float64_be (HistogramPointV2Output.sum v) >>
      put write_uint8 (HistogramPointV2Output.has_min v) >>
      put float64_be (HistogramPointV2Output.min v) >>
      put write_uint8 (HistogramPointV2Output.has_max v) >>
      put float64_be (HistogramPointV2Output.max v) >>
      put uint32_be (cast_u32 (zlen (HistogramPointV2Output.explicit_bounds v))) >>
      for_each (put float64_be) (HistogramPointV2Output.explicit_bounds v) >>
      put uint32_be (cast_u32 (zlen (HistogramPointV2Output.bucket_counts v))) >>
      for_each (put uint64_be) (HistogramPointV2Output.bucket_counts v) >>
      ok_unit
  | ExponentialHistogramPointV2 v =>
      put write_uint8 3 >>
      put uint32_be (ExponentialHistogramPointV2Output.descriptor_id v) >>
      put uint64_be (ExponentialHistogramPointV2Output.start_unix_nano v) >>
      put uint64_be (ExponentialHistogramPointV2Output.ts_unix_nano v) >>
      put uint32_be (ExponentialHistogramPointV2Output.flags v) >>
      put uint16_be (cast_u16 (zlen (ExponentialHistogramPointV2Output.attributes v))) >>
      for_each LabelPair.encode_into (ExponentialHistogramPointV2Output.attributes v) >>
      put uint16_be (cast_u16 (zlen (ExponentialHistogramPointV2Output.exemplars v))) >>
      for_each MetricExemplarV2.encode_into (ExponentialHistogramPointV2Output.exemplars v) >>
      MetricCountV2.encode_into (ExponentialHistogramPointV2Output.count v) >>
      put write_uint8 (ExponentialHistogramPointV2Output.has_sum v) >>
      put float64_be (ExponentialHistogramPointV2Output.sum v) >>
      put write_uint8 (ExponentialHistogramPointV2Output.has_min v) >>
      put float64_be (ExponentialHistogramPointV2Output.min v) >>
      put write_uint8 (ExponentialHistogramPointV2Output.has_max v) >>
      put float64_be (ExponentialHistogramPointV2Output.max v) >>
      put int32_be (ExponentialHistogramPointV2Output.scale v) >>
      put float64_be (ExponentialHistogramPointV2Output.zero_threshold v) >>
      MetricCountV2.encode_into (ExponentialHistogramPointV2Output.zero_count v) >>
      SparseBucketsV2.encode_into (ExponentialHistogramPointV2Output.positive v) >>
      SparseBucketsV2.encode_into (ExponentialHistogramPointV2Output.negative v) >>
      put uint32_be (cast_u32 (zlen (ExponentialHistogramPointV2Output.custom_bounds v))) >>
      for_each (put float64_be) (ExponentialHistogramPointV2Output.custom_bounds v) >>
      put write_uint8 (ExponentialHistogramPointV2Output.reset_hint v) >>
      ok_unit
  | SummaryPointV2 v =>
      put write_uint8 4 >>
      put uint32_be (SummaryPointV2Output.descriptor_id v) >>
      put uint64_be (SummaryPointV2Output.start_unix_nano v) >>
      put uint64_be (SummaryPointV2Output.ts_unix_nano v) >>
      put uint32_be (SummaryPointV2Output.flags v) >>
      put uint16_be (cast_u16 (zlen (SummaryPointV2Output.attributes v))) >>
      for_each LabelPair.encode_into (SummaryPointV2Output.attributes v) >>
      put uint16_be (cast_u16 (zlen (SummaryPointV2Output.exemplars v))) >>
      for_each MetricExemplarV2.encode_into (SummaryPointV2Output.exemplars v) >>
      put uint64_be (SummaryPointV2Output.count v) >>
      put float64_be (SummaryPointV2Output.sum v) >>
      put uint16_be (cast_u16 (zlen (SummaryPointV2Output.quantiles v))) >>
      for_each QuantileValueV2.encode_into (SummaryPointV2Output.quantiles v) >>
      ok_unit
  end.

Definition encode (self : t) : result BinSchemaError bytes := encode_with encode_into self.

Definition type_name (self : t) : string :=
  match self with
  | ScalarPointV2 _ => "ScalarPointV2"
  | HistogramPointV2 _ => "HistogramPointV2"
  | ExponentialHistogramPointV2 _ => "ExponentialHistogramPointV2"
  | SummaryPointV2 _ => "SummaryPointV2"
  end.

Definition decode_with_decoder : Read t := fun d =>
  let start_pos := position d in
  (try_variant start_pos ScalarPointV2Output.decode_with_decoder ScalarPointV2
  (try_variant start_pos HistogramPointV2Output.decode_with_decoder HistogramPointV2
   (try_variant start_pos ExponentialHistogramPointV2Output.decode_with_decoder
    ExponentialHistogramPointV2
  (last_variant SummaryPointV2Output.decode_with_decoder SummaryPointV2)))) d.

Definition decode (l : bytes) : result BinSchemaError t := decode_with decode_with_decoder l.

Definition wf (self : t) : bool :=
  match self with
  | ScalarPointV2 v => ScalarPointV2Output.wf v
  | HistogramPointV2 v => HistogramPointV2Output.wf v
  | ExponentialHistogramPointV2 v => ExponentialHistogramPointV2Output.wf v
  | SummaryPointV2 v => SummaryPointV2Output.wf v
  end.

Lemma MetricPointV2Value_arm_ScalarPointV2 (v : ScalarPointV2Output.t) :
   ScalarPointV2Output.wf v = true -> carries_tag 1 (encode_into (ScalarPointV2 v))
    ScalarPointV2Output.decode_with_decoder v.
Proof. destruct v. unfold encode_into, ScalarPointV2Output.decode_with_decoder,
  ScalarPointV2Output.wf. cbn [ScalarPointV2Output.tag ScalarPointV2Output.descriptor_id
  ScalarPointV2Output.start_unix_nano ScalarPointV2Output.ts_unix_nano ScalarPointV2Output.flags
  ScalarPointV2Output.attributes ScalarPointV2Output.exemplars ScalarPointV2Output.number].
  codec_arm. Qed.

Lemma MetricPointV2Value_arm_HistogramPointV2 (v : HistogramPointV2Output.t) :
   HistogramPointV2Output.wf v = true -> carries_tag 2 (encode_into (HistogramPointV2 v))
    HistogramPointV2Output.decode_with_decoder v.
Proof. destruct v. unfold encode_into, HistogramPointV2Output.decode_with_decoder,
  HistogramPointV2Output.wf. cbn [HistogramPointV2Output.tag HistogramPointV2Output.descriptor_id
  HistogramPointV2Output.start_unix_nano HistogramPointV2Output.ts_unix_nano
  HistogramPointV2Output.flags HistogramPointV2Output.attributes HistogramPointV2Output.exemplars
  HistogramPointV2Output.count HistogramPointV2Output.has_sum HistogramPointV2Output.sum
  HistogramPointV2Output.has_min HistogramPointV2Output.min HistogramPointV2Output.has_max
  HistogramPointV2Output.max HistogramPointV2Output.explicit_bounds
  HistogramPointV2Output.bucket_counts]. codec_arm. Qed.

Lemma MetricPointV2Value_arm_ExponentialHistogramPointV2 (v : ExponentialHistogramPointV2Output.t) :
   ExponentialHistogramPointV2Output.wf v = true -> carries_tag 3 (encode_into
    (ExponentialHistogramPointV2 v)) ExponentialHistogramPointV2Output.decode_with_decoder v.
Proof. destruct v. unfold encode_into, ExponentialHistogramPointV2Output.decode_with_decoder,
  ExponentialHistogramPointV2Output.wf. cbn [ExponentialHistogramPointV2Output.tag
  ExponentialHistogramPointV2Output.descriptor_id ExponentialHistogramPointV2Output.start_unix_nano
  ExponentialHistogramPointV2Output.ts_unix_nano ExponentialHistogramPointV2Output.flags
  ExponentialHistogramPointV2Output.attributes ExponentialHistogramPointV2Output.exemplars
  ExponentialHistogramPointV2Output.count ExponentialHistogramPointV2Output.has_sum
  ExponentialHistogramPointV2Output.sum ExponentialHistogramPointV2Output.has_min
  ExponentialHistogramPointV2Output.min ExponentialHistogramPointV2Output.has_max
  ExponentialHistogramPointV2Output.max ExponentialHistogramPointV2Output.scale
  ExponentialHistogramPointV2Output.zero_threshold ExponentialHistogramPointV2Output.zero_count
  ExponentialHistogramPointV2Output.positive ExponentialHistogramPointV2Output.negative
  ExponentialHistogramPointV2Output.custom_bounds ExponentialHistogramPointV2Output.reset_hint].
  codec_arm. Qed.

Lemma MetricPointV2Value_arm_SummaryPointV2 (v : SummaryPointV2Output.t) :
   SummaryPointV2Output.wf v = true -> carries_tag 4 (encode_into (SummaryPointV2 v))
    SummaryPointV2Output.decode_with_decoder v.
Proof. destruct v. unfold encode_into, SummaryPointV2Output.decode_with_decoder,
  SummaryPointV2Output.wf. cbn [SummaryPointV2Output.tag SummaryPointV2Output.descriptor_id
  SummaryPointV2Output.start_unix_nano SummaryPointV2Output.ts_unix_nano SummaryPointV2Output.flags
  SummaryPointV2Output.attributes SummaryPointV2Output.exemplars SummaryPointV2Output.count
  SummaryPointV2Output.sum SummaryPointV2Output.quantiles]. codec_arm. Qed.

Lemma MetricPointV2Value_carried (self : t) : wf self = true -> carries (encode_into self)
  decode_with_decoder self.
Proof.
  destruct self as [v|v|v|v]; unfold wf, decode_with_decoder; intros H.
  - union (MetricPointV2Value_arm_ScalarPointV2 v H) ltac:(idtac).
   - union (MetricPointV2Value_arm_HistogramPointV2 v H) ltac:(skip
    ScalarPointV2Output.ScalarPointV2Output_refuses).
   - union (MetricPointV2Value_arm_ExponentialHistogramPointV2 v H) ltac:(skip
    ScalarPointV2Output.ScalarPointV2Output_refuses; skip
    HistogramPointV2Output.HistogramPointV2Output_refuses).
   - union (MetricPointV2Value_arm_SummaryPointV2 v H) ltac:(skip
    ScalarPointV2Output.ScalarPointV2Output_refuses; skip
    HistogramPointV2Output.HistogramPointV2Output_refuses; skip
    ExponentialHistogramPointV2Output.ExponentialHistogramPointV2Output_refuses).
Qed.
End MetricPointV2Value.
#[export] Hint Resolve MetricPointV2Value.MetricPointV2Value_carried : codec.

Module MetricPointV2.
Record t := mk {
  value : MetricPointV2Value.t;
}.

Definition encode_into (self : t) : Encode :=
  MetricPointV2Value.encode_into (value self) >>
  ok_unit.

Definition encode (self : t) : result BinSchemaError bytes := encode_with encode_into self.

Definition decode_with_decoder : Read t :=
  let! value := MetricPointV2Value.decode_with_decoder in
  ret (mk value).

Definition decode (l : bytes) : result BinSchemaError t := decode_with decode_with_decoder l.

(** The messages the wire can represent. *)
Definition wf (self : t) : bool :=
  MetricPointV2Value.wf (value self).

Lemma MetricPointV2_carried (self : t) : wf self = true -> carries (encode_into self)
  decode_with_decoder self.
Proof. destruct self. unfold encode_into, decode_with_decoder, wf. cbn [value]. codec. Qed.
End MetricPointV2.
#[export] Hint Resolve MetricPointV2.MetricPointV2_carried : codec.

Module TailMetricPointV2Input.
Record t := mk {
  signal : Z;
  series_fingerprint : Z;
  labels : list LabelPair.t;
  descriptor : MetricDescriptorV2.t;
  point : MetricPointV2.t;
}.

Definition encode_into (self : t) : Encode :=
  put write_byte 85 >>
  put write_byte (signal self) >>
  put write_u64_be (series_fingerprint self) >>
  put write_u16_be (cast_u16 (zlen (labels self))) >>
  for_each LabelPair.encode_into (labels self) >>
  MetricDescriptorV2.encode_into (descriptor self) >>
  MetricPointV2.encode_into (point self) >>
  ok_unit.

Definition encode (self : t) : result BinSchemaError bytes := encode_with encode_into self.

End TailMetricPointV2Input.

Module TailMetricPointV2Output.
Record t := mk {
  tag : Z;
  signal : Z;
  series_fingerprint : Z;
  labels : list LabelPair.t;
  descriptor : MetricDescriptorV2.t;
  point : MetricPointV2.t;
}.

Definition to_input (o : t) : TailMetricPointV2Input.t :=
  TailMetricPointV2Input.mk (signal o) (series_fingerprint o) (labels o) (descriptor o) (point o).

Definition from_input (i : TailMetricPointV2Input.t) : t :=
   mk 85 (TailMetricPointV2Input.signal i) (TailMetricPointV2Input.series_fingerprint i)
    (TailMetricPointV2Input.labels i) (TailMetricPointV2Input.descriptor i)
    (TailMetricPointV2Input.point i).

Definition encode_into (self : t) : Encode := TailMetricPointV2Input.encode_into (to_input self).
Definition encode (self : t) : result BinSchemaError bytes := TailMetricPointV2Input.encode
  (to_input self).

Definition decode_with_decoder : Read t :=
  let! tag := read_byte in
  let! ok := expect 85 tag in
  let! signal := read_byte in
  let! series_fingerprint := read_u64_be in
  let! length := read_u16_be in
  let! labels := read_vec length LabelPair.decode_with_decoder in
  let! descriptor := MetricDescriptorV2.decode_with_decoder in
  let! point := MetricPointV2.decode_with_decoder in
  ret (mk tag signal series_fingerprint labels descriptor point).

Definition decode (l : bytes) : result BinSchemaError t := decode_with decode_with_decoder l.

(** The messages the wire can represent. *)
Definition wf (self : t) : bool :=
  const_ok 85 (tag self)
  && u_ok 8 (signal self)
  && u_ok 64 (series_fingerprint self)
  && vec_ok 16 LabelPair.wf (labels self)
  && MetricDescriptorV2.wf (descriptor self)
  && MetricPointV2.wf (point self).

Lemma TailMetricPointV2Output_carried (self : t) : wf self = true -> carries (encode_into self)
  decode_with_decoder self.
Proof. destruct self. unfold encode_into, TailMetricPointV2Input.encode_into, to_input,
  decode_with_decoder, wf. cbn [tag signal series_fingerprint labels descriptor point
  TailMetricPointV2Input.signal TailMetricPointV2Input.series_fingerprint
  TailMetricPointV2Input.labels TailMetricPointV2Input.descriptor TailMetricPointV2Input.point].
  codec. Qed.

Lemma TailMetricPointV2Output_refuses : rejects decode_with_decoder 85.
Proof. apply rejects_tag. Qed.
End TailMetricPointV2Output.
#[export] Hint Resolve TailMetricPointV2Output.TailMetricPointV2Output_carried : codec.

Module LiveQueryInput.
Record t := mk {
  signal : Z;
  matchers : list MatcherSpec.t;
  ts_min_unix_nano : Z;
  ts_max_unix_nano : Z;
  body_contains : bytes;
}.

Definition encode_into (self : t) : Encode :=
  put write_byte 82 >>
  put write_byte (signal self) >>
  put write_u16_be (cast_u16 (zlen (matchers self))) >>
  for_each MatcherSpec.encode_into (matchers self) >>
  put write_u64_be (ts_min_unix_nano self) >>
  put write_u64_be (ts_max_unix_nano self) >>
  put write_u32_be (cast_u32 (zlen (body_contains self))) >>
  put_bytes write_byte (body_contains self) >>
  ok_unit.

Definition encode (self : t) : result BinSchemaError bytes := encode_with encode_into self.

End LiveQueryInput.

Module LiveQueryOutput.
Record t := mk {
  tag : Z;
  signal : Z;
  matchers : list MatcherSpec.t;
  ts_min_unix_nano : Z;
  ts_max_unix_nano : Z;
  body_contains : bytes;
}.

Definition to_input (o : t) : LiveQueryInput.t :=
  LiveQueryInput.mk (signal o) (matchers o) (ts_min_unix_nano o) (ts_max_unix_nano o) (body_contains o).

Definition from_input (i : LiveQueryInput.t) : t :=
   mk 82 (LiveQueryInput.signal i) (LiveQueryInput.matchers i) (LiveQueryInput.ts_min_unix_nano i)
    (LiveQueryInput.ts_max_unix_nano i) (LiveQueryInput.body_contains i).

Definition encode_into (self : t) : Encode := LiveQueryInput.encode_into (to_input self).
Definition encode (self : t) : result BinSchemaError bytes := LiveQueryInput.encode (to_input self).

Definition decode_with_decoder : Read t :=
  let! tag := read_byte in
  let! ok := expect 82 tag in
  let! signal := read_byte in
  let! length := read_u16_be in
  let! matchers := read_vec length MatcherSpec.decode_with_decoder in
  let! ts_min_unix_nano := read_u64_be in
  let! ts_max_unix_nano := read_u64_be in
  let! length := read_u32_be in
  let! bytes := read_bytes_vec length in
  let! body_contains := from_utf8 bytes in
  ret (mk tag signal matchers ts_min_unix_nano ts_max_unix_nano body_contains).

Definition decode (l : bytes) : result BinSchemaError t := decode_with decode_with_decoder l.

(** The messages the wire can represent. *)
Definition wf (self : t) : bool :=
  const_ok 82 (tag self)
  && u_ok 8 (signal self)
  && vec_ok 16 MatcherSpec.wf (matchers self)
  && u_ok 64 (ts_min_unix_nano self)
  && u_ok 64 (ts_max_unix_nano self)
  && utf8_ok 32 (body_contains self).

Lemma LiveQueryOutput_carried (self : t) : wf self = true -> carries (encode_into self)
  decode_with_decoder self.
Proof. destruct self. unfold encode_into, LiveQueryInput.encode_into, to_input, decode_with_decoder,
  wf. cbn [tag signal matchers ts_min_unix_nano ts_max_unix_nano body_contains LiveQueryInput.signal
  LiveQueryInput.matchers LiveQueryInput.ts_min_unix_nano LiveQueryInput.ts_max_unix_nano
  LiveQueryInput.body_contains]. codec. Qed.

Lemma LiveQueryOutput_refuses : rejects decode_with_decoder 82.
Proof. apply rejects_tag. Qed.
End LiveQueryOutput.
#[export] Hint Resolve LiveQueryOutput.LiveQueryOutput_carried : codec.

Module LiveRecord.
Record t := mk {
  wal_shard : Z;
  wal_seg : Z;
  ts_unix_nano : Z;
  severity : Z;
  labels : list LabelPair.t;
  body : bytes;
  attributes : list LabelPair.t;
}.

Definition encode_into (self : t) : Encode :=
  put write_u32_be (wal_shard self) >>
  put write_u64_be (wal_seg self) >>
  put write_u64_be (ts_unix_nano self) >>
  put write_byte (severity self) >>
  put write_u16_be (cast_u16 (zlen (labels self))) >>
  for_each LabelPair.encode_into (labels self) >>
  put write_u32_be (cast_u32 (zlen (body self))) >>
  put_bytes write_byte (body self) >>
  put write_u16_be (cast_u16 (zlen (attributes self))) >>
  for_each LabelPair.encode_into (attributes self) >>
  ok_unit.

Definition encode (self : t) : result BinSchemaError bytes := encode_with encode_into self.

Definition decode_with_decoder : Read t :=
  let! wal_shard := read_u32_be in
  let! wal_seg := read_u64_be in
  let! ts_unix_nano := read_u64_be in
  let! severity := read_byte in
  let! length := read_u16_be in
  let! labels := read_vec length LabelPair.decode_with_decoder in
  let! length := read_u32_be in
  let! bytes := read_bytes_vec length in
  let! body := from_utf8 bytes in
  let! length := read_u16_be in
  let! attributes := read_vec length LabelPair.decode_with_decoder in
  ret (mk wal_shard wal_seg ts_unix_nano severity labels body attributes).

Definition decode (l : bytes) : result BinSchemaError t := decode_with decode_with_decoder l.

(** The messages the wire can represent. *)
Definition wf (self : t) : bool :=
  u_ok 32 (wal_shard self)
  && u_ok 64 (wal_seg self)
  && u_ok 64 (ts_unix_nano self)
  && u_ok 8 (severity self)
  && vec_ok 16 LabelPair.wf (labels self)
  && utf8_ok 32 (body self)
  && vec_ok 16 LabelPair.wf (attributes self).

Lemma LiveRecord_carried (self : t) : wf self = true -> carries (encode_into self)
  decode_with_decoder self.
Proof. destruct self. unfold encode_into, decode_with_decoder, wf. cbn [wal_shard wal_seg
  ts_unix_nano severity labels body attributes]. codec. Qed.
End LiveRecord.
#[export] Hint Resolve LiveRecord.LiveRecord_carried : codec.

Module LiveBatchInput.
Record t := mk {
  writer_uuid : bytes;
  records : list LiveRecord.t;
}.

Definition encode_into (self : t) : Encode :=
  put write_byte 83 >>
  put_bytes write_byte (writer_uuid self) >>
  put write_u32_be (cast_u32 (zlen (records self))) >>
  for_each LiveRecord.encode_into (records self) >>
  ok_unit.

Definition encode (self : t) : result BinSchemaError bytes := encode_with encode_into self.

End LiveBatchInput.

Module LiveBatchOutput.
Record t := mk {
  tag : Z;
  writer_uuid : bytes;
  records : list LiveRecord.t;
}.

Definition to_input (o : t) : LiveBatchInput.t :=
  LiveBatchInput.mk (writer_uuid o) (records o).

Definition from_input (i : LiveBatchInput.t) : t :=
  mk 83 (LiveBatchInput.writer_uuid i) (LiveBatchInput.records i).

Definition encode_into (self : t) : Encode := LiveBatchInput.encode_into (to_input self).
Definition encode (self : t) : result BinSchemaError bytes := LiveBatchInput.encode (to_input self).

Definition decode_with_decoder : Read t :=
  let! tag := read_byte in
  let! ok := expect 83 tag in
  let! writer_uuid := read_bytes_vec 16 in
  let! length := read_u32_be in
  let! records := read_vec length LiveRecord.decode_with_decoder in
  ret (mk tag writer_uuid records).

Definition decode (l : bytes) : result BinSchemaError t := decode_with decode_with_decoder l.

(** The messages the wire can represent. *)
Definition wf (self : t) : bool :=
  const_ok 83 (tag self)
  && fixed_ok 16 (writer_uuid self)
  && vec_ok 32 LiveRecord.wf (records self).

Lemma LiveBatchOutput_carried (self : t) : wf self = true -> carries (encode_into self)
  decode_with_decoder self.
Proof. destruct self. unfold encode_into, LiveBatchInput.encode_into, to_input, decode_with_decoder,
  wf. cbn [tag writer_uuid records LiveBatchInput.writer_uuid LiveBatchInput.records]. codec. Qed.

Lemma LiveBatchOutput_refuses : rejects decode_with_decoder 83.
Proof. apply rejects_tag. Qed.
End LiveBatchOutput.
#[export] Hint Resolve LiveBatchOutput.LiveBatchOutput_carried : codec.

Module FrameMsg.
Inductive t :=
| Hello (v : HelloOutput.t)
| HelloAck (v : HelloAckOutput.t)
| Batch (v : BatchOutput.t)
| BatchAck (v : BatchAckOutput.t)
| FlowControl (v : FlowControlOutput.t)
| AgentStatus (v : AgentStatusOutput.t)
| Ping (v : PingOutput.t)
| Pong (v : PongOutput.t)
| Goodbye (v : GoodbyeOutput.t)
| Subscribe (v : SubscribeOutput.t)
| TailRecord (v : TailRecordOutput.t)
| LiveQuery (v : LiveQueryOutput.t)
| LiveBatch (v : LiveBatchOutput.t)
| TailSample (v : TailSampleOutput.t)
| TailMetricPointV2 (v : TailMetricPointV2Output.t)
| Error (v : ErrorOutput.t).

Definition encode_into (self : t) : Encode :=
  match self with
  | Hello v =>
      put write_uint8 1 >>
      put uint16_be (HelloOutput.protocol_version v) >>
      put_bytes write_uint8 (HelloOutput.agent_id v) >>
      put write_uint8 (cast_u8 (zlen (chars (HelloOutput.agent_version v)))) >>
      put_bytes write_uint8 (char_bytes (HelloOutput.agent_version v)) >>
      put write_uint8 (cast_u8 (zlen (HelloOutput.hostname v))) >>
      put_bytes write_uint8 (HelloOutput.hostname v) >>
      put write_uint8 (HelloOutput.signals v) >>
      put uint32_be (HelloOutput.capabilities v) >>
      put uint16_be (cast_u16 (zlen (HelloOutput.resource_attrs v))) >>
      for_each LabelPair.encode_into (HelloOutput.resource_attrs v) >>
      ok_unit
  | HelloAck v =>
      put write_uint8 2 >>
      put uint16_be (HelloAckOutput.protocol_version v) >>
      put write_uint8 (cast_u8 (zlen (chars (HelloAckOutput.writer_id v)))) >>
      put_bytes write_uint8 (char_bytes (HelloAckOutput.writer_id v)) >>
      put uint64_be (HelloAckOutput.session_id v) >>
      put uint32_be (HelloAckOutput.capabilities v) >>
      put uint32_be (HelloAckOutput.suggested_batch_bytes v) >>
      put uint32_be (HelloAckOutput.max_batch_bytes v) >>
      put uint16_be (HelloAckOutput.max_inflight_batches v) >>
      ok_unit
  | Batch v =>
      put write_uint8 16 >>
      put uint64_be (BatchOutput.session_id v) >>
      put uint64_be (BatchOutput.batch_id v) >>
      put write_uint8 (BatchOutput.signal v) >>
      put uint64_be (BatchOutput.ts_min_unix_nano v) >>
      put uint64_be (BatchOutput.ts_max_unix_nano v) >>
      put uint32_be (BatchOutput.record_count v) >>
      put write_uint8 (BatchOutput.compression v) >>
      put uint32_be (BatchOutput.uncompressed_size v) >>
      put uint32_be (cast_u32 (zlen (BatchOutput.payload v))) >>
      put_bytes write_uint8 (BatchOutput.payload v) >>
      ok_unit
  | BatchAck v =>
      put write_uint8 17 >>
      put uint64_be (BatchAckOutput.session_id v) >>
      put uint64_be (BatchAckOutput.batch_id v) >>
      put write_uint8 (BatchAckOutput.status v) >>
      put uint32_be (BatchAckOutput.retry_after_ms v) >>
      put uint16_be (BatchAckOutput.reason_code v) >>
      put uint16_be (cast_u16 (zlen (BatchAckOutput.message v))) >>
      put_bytes write_uint8 (BatchAckOutput.message v) >>
      ok_unit
  | FlowControl v =>
      put write_uint8 32 >>
      put uint64_be (FlowControlOutput.session_id v) >>
      put write_uint8 (FlowControlOutput.signal v) >>
      put uint32_be (FlowControlOutput.max_bytes_per_sec v) >>
      put uint16_be (FlowControlOutput.max_batches_inflight v) >>
      put uint32_be (FlowControlOutput.valid_for_ms v) >>
      ok_unit
  | AgentStatus v =>
      put write_uint8 33 >>
      put uint64_be (AgentStatusOutput.session_id v) >>
      put uint64_be (AgentStatusOutput.sequence v) >>
      put uint32_be (cast_u32 (zlen (AgentStatusOutput.snapshot_json v))) >>
      put_bytes write_uint8 (AgentStatusOutput.snapshot_json v) >>
      ok_unit
  | Ping v =>
      put write_uint8 48 >>
      put uint64_be (PingOutput.nonce v) >>
      ok_unit
  | Pong v =>
      put write_uint8 49 >>
      put uint64_be (PongOutput.nonce v) >>
      ok_unit
  | Goodbye v =>
      put write_uint8 64 >>
      put uint16_be (GoodbyeOutput.reason_code v) >>
      put uint16_be (cast_u16 (zlen (GoodbyeOutput.message v))) >>
      put_bytes write_uint8 (GoodbyeOutput.message v) >>
      ok_unit
  | Subscribe v =>
      put write_uint8 80 >>
      put write_uint8 (SubscribeOutput.signal v) >>
      put uint16_be (cast_u16 (zlen (SubscribeOutput.matchers v))) >>
      for_each MatcherSpec.encode_into (SubscribeOutput.matchers v) >>
      ok_unit
  | TailRecord v =>
      put write_uint8 81 >>
      put write_uint8 (TailRecordOutput.signal v) >>
      put uint64_be (TailRecordOutput.ts_unix_nano v) >>
      put write_uint8 (TailRecordOutput.severity v) >>
      put uint16_be (cast_u16 (zlen (TailRecordOutput.labels v))) >>
      for_each LabelPair.encode_into (TailRecordOutput.labels v) >>
      put uint32_be (cast_u32 (zlen (TailRecordOutput.body v))) >>
      put_bytes write_uint8 (TailRecordOutput.body v) >>
      put uint16_be (cast_u16 (zlen (TailRecordOutput.attributes v))) >>
      for_each LabelPair.encode_into (TailRecordOutput.attributes v) >>
      ok_unit
  | LiveQuery v =>
      put write_uint8 82 >>
      put write_uint8 (LiveQueryOutput.signal v) >>
      put uint16_be (cast_u16 (zlen (LiveQueryOutput.matchers v))) >>
      for_each MatcherSpec.encode_into (LiveQueryOutput.matchers v) >>
      put uint64_be (LiveQueryOutput.ts_min_unix_nano v) >>
      put uint64_be (LiveQueryOutput.ts_max_unix_nano v) >>
      put uint32_be (cast_u32 (zlen (LiveQueryOutput.body_contains v))) >>
      put_bytes write_uint8 (LiveQueryOutput.body_contains v) >>
      ok_unit
  | LiveBatch v =>
      put write_uint8 83 >>
      put_bytes write_uint8 (LiveBatchOutput.writer_uuid v) >>
      put uint32_be (cast_u32 (zlen (LiveBatchOutput.records v))) >>
      for_each LiveRecord.encode_into (LiveBatchOutput.records v) >>
      ok_unit
  | TailSample v =>
      put write_uint8 84 >>
      put write_uint8 (TailSampleOutput.signal v) >>
      put uint64_be (TailSampleOutput.ts_unix_nano v) >>
      put write_uint8 (TailSampleOutput.metric_type v) >>
      put uint64_be (TailSampleOutput.series_fingerprint v) >>
      put float64_be (TailSampleOutput.value v) >>
      put uint16_be (cast_u16 (zlen (TailSampleOutput.labels v))) >>
      for_each LabelPair.encode_into (TailSampleOutput.labels v) >>
      ok_unit
  | TailMetricPointV2 v =>
      put write_uint8 85 >>
      put write_uint8 (TailMetricPointV2Output.signal v) >>
      put uint64_be (TailMetricPointV2Output.series_fingerprint v) >>
      put uint16_be (cast_u16 (zlen (TailMetricPointV2Output.labels v))) >>
      for_each LabelPair.encode_into (TailMetricPointV2Output.labels v) >>
      MetricDescriptorV2.encode_into (TailMetricPointV2Output.descriptor v) >>
      MetricPointV2.encode_into (TailMetricPointV2Output.point v) >>
      ok_unit
  | Error v =>
      put write_uint8 240 >>
      put uint16_be (ErrorOutput.code v) >>
      put uint16_be (cast_u16 (zlen (ErrorOutput.message v))) >>
      put_bytes write_uint8 (ErrorOutput.message v) >>
      ok_unit
  end.

Definition encode (self : t) : result BinSchemaError bytes := encode_with encode_into self.

Definition type_name (self : t) : string :=
  match self with
  | Hello _ => "Hello"
  | HelloAck _ => "HelloAck"
  | Batch _ => "Batch"
  | BatchAck _ => "BatchAck"
  | FlowControl _ => "FlowControl"
  | AgentStatus _ => "AgentStatus"
  | Ping _ => "Ping"
  | Pong _ => "Pong"
  | Goodbye _ => "Goodbye"
  | Subscribe _ => "Subscribe"
  | TailRecord _ => "TailRecord"
  | LiveQuery _ => "LiveQuery"
  | LiveBatch _ => "LiveBatch"
  | TailSample _ => "TailSample"
  | TailMetricPointV2 _ => "TailMetricPointV2"
  | Error _ => "Error"
  end.

Definition decode_with_decoder : Read t := fun d =>
  let start_pos := position d in
  (try_variant start_pos HelloOutput.decode_with_decoder Hello
  (try_variant start_pos HelloAckOutput.decode_with_decoder HelloAck
  (try_variant start_pos BatchOutput.decode_with_decoder Batch
  (try_variant start_pos BatchAckOutput.decode_with_decoder BatchAck
  (try_variant start_pos FlowControlOutput.decode_with_decoder FlowControl
  (try_variant start_pos AgentStatusOutput.decode_with_decoder AgentStatus
  (try_variant start_pos PingOutput.decode_with_decoder Ping
  (try_variant start_pos PongOutput.decode_with_decoder Pong
  (try_variant start_pos GoodbyeOutput.decode_with_decoder Goodbye
  (try_variant start_pos SubscribeOutput.decode_with_decoder Subscribe
  (try_variant start_pos TailRecordOutput.decode_with_decoder TailRecord
  (try_variant start_pos LiveQueryOutput.decode_with_decoder LiveQuery
  (try_variant start_pos LiveBatchOutput.decode_with_decoder LiveBatch
  (try_variant start_pos TailSampleOutput.decode_with_decoder TailSample
  (try_variant start_pos TailMetricPointV2Output.decode_with_decoder TailMetricPointV2
  (last_variant ErrorOutput.decode_with_decoder Error)))))))))))))))) d.

Definition decode (l : bytes) : result BinSchemaError t := decode_with decode_with_decoder l.

Definition wf (self : t) : bool :=
  match self with
  | Hello v => HelloOutput.wf v
  | HelloAck v => HelloAckOutput.wf v
  | Batch v => BatchOutput.wf v
  | BatchAck v => BatchAckOutput.wf v
  | FlowControl v => FlowControlOutput.wf v
  | AgentStatus v => AgentStatusOutput.wf v
  | Ping v => PingOutput.wf v
  | Pong v => PongOutput.wf v
  | Goodbye v => GoodbyeOutput.wf v
  | Subscribe v => SubscribeOutput.wf v
  | TailRecord v => TailRecordOutput.wf v
  | LiveQuery v => LiveQueryOutput.wf v
  | LiveBatch v => LiveBatchOutput.wf v
  | TailSample v => TailSampleOutput.wf v
  | TailMetricPointV2 v => TailMetricPointV2Output.wf v
  | Error v => ErrorOutput.wf v
  end.

Lemma FrameMsg_arm_Hello (v : HelloOutput.t) :
  HelloOutput.wf v = true -> carries_tag 1 (encode_into (Hello v)) HelloOutput.decode_with_decoder v.
Proof. destruct v. unfold encode_into, HelloOutput.decode_with_decoder, HelloOutput.wf. cbn
  [HelloOutput.tag HelloOutput.protocol_version HelloOutput.agent_id HelloOutput.agent_version
  HelloOutput.hostname HelloOutput.signals HelloOutput.capabilities HelloOutput.resource_attrs].
  codec_arm. Qed.

Lemma FrameMsg_arm_HelloAck (v : HelloAckOutput.t) :
   HelloAckOutput.wf v = true -> carries_tag 2 (encode_into (HelloAck v))
    HelloAckOutput.decode_with_decoder v.
Proof. destruct v. unfold encode_into, HelloAckOutput.decode_with_decoder, HelloAckOutput.wf. cbn
  [HelloAckOutput.tag HelloAckOutput.protocol_version HelloAckOutput.writer_id
  HelloAckOutput.session_id HelloAckOutput.capabilities HelloAckOutput.suggested_batch_bytes
  HelloAckOutput.max_batch_bytes HelloAckOutput.max_inflight_batches]. codec_arm. Qed.

Lemma FrameMsg_arm_Batch (v : BatchOutput.t) :
  BatchOutput.wf v = true -> carries_tag 16 (encode_into (Batch v)) BatchOutput.decode_with_decoder v.
Proof. destruct v. unfold encode_into, BatchOutput.decode_with_decoder, BatchOutput.wf. cbn
  [BatchOutput.tag BatchOutput.session_id BatchOutput.batch_id BatchOutput.signal
  BatchOutput.ts_min_unix_nano BatchOutput.ts_max_unix_nano BatchOutput.record_count
  BatchOutput.compression BatchOutput.uncompressed_size BatchOutput.payload]. codec_arm. Qed.

Lemma FrameMsg_arm_BatchAck (v : BatchAckOutput.t) :
   BatchAckOutput.wf v = true -> carries_tag 17 (encode_into (BatchAck v))
    BatchAckOutput.decode_with_decoder v.
Proof. destruct v. unfold encode_into, BatchAckOutput.decode_with_decoder, BatchAckOutput.wf. cbn
  [BatchAckOutput.tag BatchAckOutput.session_id BatchAckOutput.batch_id BatchAckOutput.status
  BatchAckOutput.retry_after_ms BatchAckOutput.reason_code BatchAckOutput.message]. codec_arm. Qed.

Lemma FrameMsg_arm_FlowControl (v : FlowControlOutput.t) :
   FlowControlOutput.wf v = true -> carries_tag 32 (encode_into (FlowControl v))
    FlowControlOutput.decode_with_decoder v.
Proof. destruct v. unfold encode_into, FlowControlOutput.decode_with_decoder, FlowControlOutput.wf.
  cbn [FlowControlOutput.tag FlowControlOutput.session_id FlowControlOutput.signal
  FlowControlOutput.max_bytes_per_sec FlowControlOutput.max_batches_inflight
  FlowControlOutput.valid_for_ms]. codec_arm. Qed.

Lemma FrameMsg_arm_AgentStatus (v : AgentStatusOutput.t) :
   AgentStatusOutput.wf v = true -> carries_tag 33 (encode_into (AgentStatus v))
    AgentStatusOutput.decode_with_decoder v.
Proof. destruct v. unfold encode_into, AgentStatusOutput.decode_with_decoder, AgentStatusOutput.wf.
  cbn [AgentStatusOutput.tag AgentStatusOutput.session_id AgentStatusOutput.sequence
  AgentStatusOutput.snapshot_json]. codec_arm. Qed.

Lemma FrameMsg_arm_Ping (v : PingOutput.t) :
  PingOutput.wf v = true -> carries_tag 48 (encode_into (Ping v)) PingOutput.decode_with_decoder v.
Proof. destruct v. unfold encode_into, PingOutput.decode_with_decoder, PingOutput.wf. cbn
  [PingOutput.tag PingOutput.nonce]. codec_arm. Qed.

Lemma FrameMsg_arm_Pong (v : PongOutput.t) :
  PongOutput.wf v = true -> carries_tag 49 (encode_into (Pong v)) PongOutput.decode_with_decoder v.
Proof. destruct v. unfold encode_into, PongOutput.decode_with_decoder, PongOutput.wf. cbn
  [PongOutput.tag PongOutput.nonce]. codec_arm. Qed.

Lemma FrameMsg_arm_Goodbye (v : GoodbyeOutput.t) :
   GoodbyeOutput.wf v = true -> carries_tag 64 (encode_into (Goodbye v))
    GoodbyeOutput.decode_with_decoder v.
Proof. destruct v. unfold encode_into, GoodbyeOutput.decode_with_decoder, GoodbyeOutput.wf. cbn
  [GoodbyeOutput.tag GoodbyeOutput.reason_code GoodbyeOutput.message]. codec_arm. Qed.

Lemma FrameMsg_arm_Subscribe (v : SubscribeOutput.t) :
   SubscribeOutput.wf v = true -> carries_tag 80 (encode_into (Subscribe v))
    SubscribeOutput.decode_with_decoder v.
Proof. destruct v. unfold encode_into, SubscribeOutput.decode_with_decoder, SubscribeOutput.wf. cbn
  [SubscribeOutput.tag SubscribeOutput.signal SubscribeOutput.matchers]. codec_arm. Qed.

Lemma FrameMsg_arm_TailRecord (v : TailRecordOutput.t) :
   TailRecordOutput.wf v = true -> carries_tag 81 (encode_into (TailRecord v))
    TailRecordOutput.decode_with_decoder v.
Proof. destruct v. unfold encode_into, TailRecordOutput.decode_with_decoder, TailRecordOutput.wf.
  cbn [TailRecordOutput.tag TailRecordOutput.signal TailRecordOutput.ts_unix_nano
  TailRecordOutput.severity TailRecordOutput.labels TailRecordOutput.body
  TailRecordOutput.attributes]. codec_arm. Qed.

Lemma FrameMsg_arm_LiveQuery (v : LiveQueryOutput.t) :
   LiveQueryOutput.wf v = true -> carries_tag 82 (encode_into (LiveQuery v))
    LiveQueryOutput.decode_with_decoder v.
Proof. destruct v. unfold encode_into, LiveQueryOutput.decode_with_decoder, LiveQueryOutput.wf. cbn
  [LiveQueryOutput.tag LiveQueryOutput.signal LiveQueryOutput.matchers
  LiveQueryOutput.ts_min_unix_nano LiveQueryOutput.ts_max_unix_nano LiveQueryOutput.body_contains].
  codec_arm. Qed.

Lemma FrameMsg_arm_LiveBatch (v : LiveBatchOutput.t) :
   LiveBatchOutput.wf v = true -> carries_tag 83 (encode_into (LiveBatch v))
    LiveBatchOutput.decode_with_decoder v.
Proof. destruct v. unfold encode_into, LiveBatchOutput.decode_with_decoder, LiveBatchOutput.wf. cbn
  [LiveBatchOutput.tag LiveBatchOutput.writer_uuid LiveBatchOutput.records]. codec_arm. Qed.

Lemma FrameMsg_arm_TailSample (v : TailSampleOutput.t) :
   TailSampleOutput.wf v = true -> carries_tag 84 (encode_into (TailSample v))
    TailSampleOutput.decode_with_decoder v.
Proof. destruct v. unfold encode_into, TailSampleOutput.decode_with_decoder, TailSampleOutput.wf.
  cbn [TailSampleOutput.tag TailSampleOutput.signal TailSampleOutput.ts_unix_nano
  TailSampleOutput.metric_type TailSampleOutput.series_fingerprint TailSampleOutput.value
  TailSampleOutput.labels]. codec_arm. Qed.

Lemma FrameMsg_arm_TailMetricPointV2 (v : TailMetricPointV2Output.t) :
   TailMetricPointV2Output.wf v = true -> carries_tag 85 (encode_into (TailMetricPointV2 v))
    TailMetricPointV2Output.decode_with_decoder v.
Proof. destruct v. unfold encode_into, TailMetricPointV2Output.decode_with_decoder,
  TailMetricPointV2Output.wf. cbn [TailMetricPointV2Output.tag TailMetricPointV2Output.signal
  TailMetricPointV2Output.series_fingerprint TailMetricPointV2Output.labels
  TailMetricPointV2Output.descriptor TailMetricPointV2Output.point]. codec_arm. Qed.

Lemma FrameMsg_arm_Error (v : ErrorOutput.t) :
  ErrorOutput.wf v = true -> carries_tag 240 (encode_into (Error v)) ErrorOutput.decode_with_decoder v.
Proof. destruct v. unfold encode_into, ErrorOutput.decode_with_decoder, ErrorOutput.wf. cbn
  [ErrorOutput.tag ErrorOutput.code ErrorOutput.message]. codec_arm. Qed.

Lemma FrameMsg_carried (self : t) : wf self = true -> carries (encode_into self) decode_with_decoder
  self.
Proof.
  destruct self as [v|v|v|v|v|v|v|v|v|v|v|v|v|v|v|v]; unfold wf, decode_with_decoder; intros H.
  - union (FrameMsg_arm_Hello v H) ltac:(idtac).
  - union (FrameMsg_arm_HelloAck v H) ltac:(skip HelloOutput.HelloOutput_refuses).
   - union (FrameMsg_arm_Batch v H) ltac:(skip HelloOutput.HelloOutput_refuses; skip
    HelloAckOutput.HelloAckOutput_refuses).
   - union (FrameMsg_arm_BatchAck v H) ltac:(skip HelloOutput.HelloOutput_refuses; skip
    HelloAckOutput.HelloAckOutput_refuses; skip BatchOutput.BatchOutput_refuses).
   - union (FrameMsg_arm_FlowControl v H) ltac:(skip HelloOutput.HelloOutput_refuses; skip
    HelloAckOutput.HelloAckOutput_refuses; skip BatchOutput.BatchOutput_refuses; skip
    BatchAckOutput.BatchAckOutput_refuses).
   - union (FrameMsg_arm_AgentStatus v H) ltac:(skip HelloOutput.HelloOutput_refuses; skip
    HelloAckOutput.HelloAckOutput_refuses; skip BatchOutput.BatchOutput_refuses; skip
    BatchAckOutput.BatchAckOutput_refuses; skip FlowControlOutput.FlowControlOutput_refuses).
   - union (FrameMsg_arm_Ping v H) ltac:(skip HelloOutput.HelloOutput_refuses; skip
    HelloAckOutput.HelloAckOutput_refuses; skip BatchOutput.BatchOutput_refuses; skip
    BatchAckOutput.BatchAckOutput_refuses; skip FlowControlOutput.FlowControlOutput_refuses; skip
    AgentStatusOutput.AgentStatusOutput_refuses).
   - union (FrameMsg_arm_Pong v H) ltac:(skip HelloOutput.HelloOutput_refuses; skip
    HelloAckOutput.HelloAckOutput_refuses; skip BatchOutput.BatchOutput_refuses; skip
    BatchAckOutput.BatchAckOutput_refuses; skip FlowControlOutput.FlowControlOutput_refuses; skip
    AgentStatusOutput.AgentStatusOutput_refuses; skip PingOutput.PingOutput_refuses).
   - union (FrameMsg_arm_Goodbye v H) ltac:(skip HelloOutput.HelloOutput_refuses; skip
    HelloAckOutput.HelloAckOutput_refuses; skip BatchOutput.BatchOutput_refuses; skip
    BatchAckOutput.BatchAckOutput_refuses; skip FlowControlOutput.FlowControlOutput_refuses; skip
    AgentStatusOutput.AgentStatusOutput_refuses; skip PingOutput.PingOutput_refuses; skip
    PongOutput.PongOutput_refuses).
   - union (FrameMsg_arm_Subscribe v H) ltac:(skip HelloOutput.HelloOutput_refuses; skip
    HelloAckOutput.HelloAckOutput_refuses; skip BatchOutput.BatchOutput_refuses; skip
    BatchAckOutput.BatchAckOutput_refuses; skip FlowControlOutput.FlowControlOutput_refuses; skip
    AgentStatusOutput.AgentStatusOutput_refuses; skip PingOutput.PingOutput_refuses; skip
    PongOutput.PongOutput_refuses; skip GoodbyeOutput.GoodbyeOutput_refuses).
   - union (FrameMsg_arm_TailRecord v H) ltac:(skip HelloOutput.HelloOutput_refuses; skip
    HelloAckOutput.HelloAckOutput_refuses; skip BatchOutput.BatchOutput_refuses; skip
    BatchAckOutput.BatchAckOutput_refuses; skip FlowControlOutput.FlowControlOutput_refuses; skip
    AgentStatusOutput.AgentStatusOutput_refuses; skip PingOutput.PingOutput_refuses; skip
    PongOutput.PongOutput_refuses; skip GoodbyeOutput.GoodbyeOutput_refuses; skip
    SubscribeOutput.SubscribeOutput_refuses).
   - union (FrameMsg_arm_LiveQuery v H) ltac:(skip HelloOutput.HelloOutput_refuses; skip
    HelloAckOutput.HelloAckOutput_refuses; skip BatchOutput.BatchOutput_refuses; skip
    BatchAckOutput.BatchAckOutput_refuses; skip FlowControlOutput.FlowControlOutput_refuses; skip
    AgentStatusOutput.AgentStatusOutput_refuses; skip PingOutput.PingOutput_refuses; skip
    PongOutput.PongOutput_refuses; skip GoodbyeOutput.GoodbyeOutput_refuses; skip
    SubscribeOutput.SubscribeOutput_refuses; skip TailRecordOutput.TailRecordOutput_refuses).
   - union (FrameMsg_arm_LiveBatch v H) ltac:(skip HelloOutput.HelloOutput_refuses; skip
    HelloAckOutput.HelloAckOutput_refuses; skip BatchOutput.BatchOutput_refuses; skip
    BatchAckOutput.BatchAckOutput_refuses; skip FlowControlOutput.FlowControlOutput_refuses; skip
    AgentStatusOutput.AgentStatusOutput_refuses; skip PingOutput.PingOutput_refuses; skip
    PongOutput.PongOutput_refuses; skip GoodbyeOutput.GoodbyeOutput_refuses; skip
    SubscribeOutput.SubscribeOutput_refuses; skip TailRecordOutput.TailRecordOutput_refuses; skip
    LiveQueryOutput.LiveQueryOutput_refuses).
   - union (FrameMsg_arm_TailSample v H) ltac:(skip HelloOutput.HelloOutput_refuses; skip
    HelloAckOutput.HelloAckOutput_refuses; skip BatchOutput.BatchOutput_refuses; skip
    BatchAckOutput.BatchAckOutput_refuses; skip FlowControlOutput.FlowControlOutput_refuses; skip
    AgentStatusOutput.AgentStatusOutput_refuses; skip PingOutput.PingOutput_refuses; skip
    PongOutput.PongOutput_refuses; skip GoodbyeOutput.GoodbyeOutput_refuses; skip
    SubscribeOutput.SubscribeOutput_refuses; skip TailRecordOutput.TailRecordOutput_refuses; skip
    LiveQueryOutput.LiveQueryOutput_refuses; skip LiveBatchOutput.LiveBatchOutput_refuses).
   - union (FrameMsg_arm_TailMetricPointV2 v H) ltac:(skip HelloOutput.HelloOutput_refuses; skip
    HelloAckOutput.HelloAckOutput_refuses; skip BatchOutput.BatchOutput_refuses; skip
    BatchAckOutput.BatchAckOutput_refuses; skip FlowControlOutput.FlowControlOutput_refuses; skip
    AgentStatusOutput.AgentStatusOutput_refuses; skip PingOutput.PingOutput_refuses; skip
    PongOutput.PongOutput_refuses; skip GoodbyeOutput.GoodbyeOutput_refuses; skip
    SubscribeOutput.SubscribeOutput_refuses; skip TailRecordOutput.TailRecordOutput_refuses; skip
    LiveQueryOutput.LiveQueryOutput_refuses; skip LiveBatchOutput.LiveBatchOutput_refuses; skip
    TailSampleOutput.TailSampleOutput_refuses).
   - union (FrameMsg_arm_Error v H) ltac:(skip HelloOutput.HelloOutput_refuses; skip
    HelloAckOutput.HelloAckOutput_refuses; skip BatchOutput.BatchOutput_refuses; skip
    BatchAckOutput.BatchAckOutput_refuses; skip FlowControlOutput.FlowControlOutput_refuses; skip
    AgentStatusOutput.AgentStatusOutput_refuses; skip PingOutput.PingOutput_refuses; skip
    PongOutput.PongOutput_refuses; skip GoodbyeOutput.GoodbyeOutput_refuses; skip
    SubscribeOutput.SubscribeOutput_refuses; skip TailRecordOutput.TailRecordOutput_refuses; skip
    LiveQueryOutput.LiveQueryOutput_refuses; skip LiveBatchOutput.LiveBatchOutput_refuses; skip
    TailSampleOutput.TailSampleOutput_refuses; skip
    TailMetricPointV2Output.TailMetricPointV2Output_refuses).
Qed.
End FrameMsg.
#[export] Hint Resolve FrameMsg.FrameMsg_carried : codec.

Module Frame.
Record t := mk {
  msg : FrameMsg.t;
}.

Definition encode_into (self : t) : Encode :=
  FrameMsg.encode_into (msg self) >>
  ok_unit.

Definition encode (self : t) : result BinSchemaError bytes := encode_with encode_into self.

Definition decode_with_decoder : Read t :=
  let! msg := FrameMsg.decode_with_decoder in
  ret (mk msg).

Definition decode (l : bytes) : result BinSchemaError t := decode_with decode_with_decoder l.

(** The messages the wire can represent. *)
Definition wf (self : t) : bool :=
  FrameMsg.wf (msg self).

Lemma Frame_carried (self : t) : wf self = true -> carries (encode_into self) decode_with_decoder self.
Proof. destruct self. unfold encode_into, decode_with_decoder, wf. cbn [msg]. codec. Qed.
End Frame.
#[export] Hint Resolve Frame.Frame_carried : codec.

Module SeriesDictEntry.
Record t := mk {
  fingerprint : Z;
  metric_type : Z;
  labels : list LabelPair.t;
}.

Definition encode_into (self : t) : Encode :=
  put write_u64_be (fingerprint self) >>
  put write_byte (metric_type self) >>
  put write_u16_be (cast_u16 (zlen (labels self))) >>
  for_each LabelPair.encode_into (labels self) >>
  ok_unit.

Definition encode (self : t) : result BinSchemaError bytes := encode_with encode_into self.

Definition decode_with_decoder : Read t :=
  let! fingerprint := read_u64_be in
  let! metric_type := read_byte in
  let! length := read_u16_be in
  let! labels := read_vec length LabelPair.decode_with_decoder in
  ret (mk fingerprint metric_type labels).

Definition decode (l : bytes) : result BinSchemaError t := decode_with decode_with_decoder l.

(** The messages the wire can represent. *)
Definition wf (self : t) : bool :=
  u_ok 64 (fingerprint self)
  && u_ok 8 (metric_type self)
  && vec_ok 16 LabelPair.wf (labels self).

Lemma SeriesDictEntry_carried (self : t) : wf self = true -> carries (encode_into self)
  decode_with_decoder self.
Proof. destruct self. unfold encode_into, decode_with_decoder, wf. cbn [fingerprint metric_type
  labels]. codec. Qed.
End SeriesDictEntry.
#[export] Hint Resolve SeriesDictEntry.SeriesDictEntry_carried : codec.

Module MetricSample.
Record t := mk {
  fingerprint : Z;
  ts_unix_nano : Z;
  value : Z;
}.

Definition encode_into (self : t) : Encode :=
  put write_u64_be (fingerprint self) >>
  put write_u64_be (ts_unix_nano self) >>
  put write_u64_be (value self) >>
  ok_unit.

Definition encode (self : t) : result BinSchemaError bytes := encode_with encode_into self.

Definition decode_with_decoder : Read t :=
  let! fingerprint := read_u64_be in
  let! ts_unix_nano := read_u64_be in
  let! value := read_u64_be in
  ret (mk fingerprint ts_unix_nano value).

Definition decode (l : bytes) : result BinSchemaError t := decode_with decode_with_decoder l.

(** The messages the wire can represent. *)
Definition wf (self : t) : bool :=
  u_ok 64 (fingerprint self)
  && u_ok 64 (ts_unix_nano self)
  && u_ok 64 (value self).

Lemma MetricSample_carried (self : t) : wf self = true -> carries (encode_into self)
  decode_with_decoder self.
Proof. destruct self. unfold encode_into, decode_with_decoder, wf. cbn [fingerprint ts_unix_nano
  value]. codec. Qed.
End MetricSample.
#[export] Hint Resolve MetricSample.MetricSample_carried : codec.

Module MetricsBatch.
Record t := mk {
  series : list SeriesDictEntry.t;
  samples : list MetricSample.t;
}.

Definition encode_into (self : t) : Encode :=
  put write_u32_be (cast_u32 (zlen (series self))) >>
  for_each SeriesDictEntry.encode_into (series self) >>
  put write_u32_be (cast_u32 (zlen (samples self))) >>
  for_each MetricSample.encode_into (samples self) >>
  ok_unit.

Definition encode (self : t) : result BinSchemaError bytes := encode_with encode_into self.

Definition decode_with_decoder : Read t :=
  let! length := read_u32_be in
  let! series := read_vec length SeriesDictEntry.decode_with_decoder in
  let! length := read_u32_be in
  let! samples := read_vec length MetricSample.decode_with_decoder in
  ret (mk series samples).

Definition decode (l : bytes) : result BinSchemaError t := decode_with decode_with_decoder l.

(** The messages the wire can represent. *)
Definition wf (self : t) : bool :=
  vec_ok 32 SeriesDictEntry.wf (series self)
  && vec_ok 32 MetricSample.wf (samples self).

Lemma MetricsBatch_carried (self : t) : wf self = true -> carries (encode_into self)
  decode_with_decoder self.
Proof. destruct self. unfold encode_into, decode_with_decoder, wf. cbn [series samples]. codec. Qed.
End MetricsBatch.
#[export] Hint Resolve MetricsBatch.MetricsBatch_carried : codec.

Module LogEntry.
Record t := mk {
  ts_unix_nano : Z;
  severity : Z;
  body : bytes;
  attributes : list LabelPair.t;
}.

Definition encode_into (self : t) : Encode :=
  put write_u64_be (ts_unix_nano self) >>
  put write_byte (severity self) >>
  put write_u32_be (cast_u32 (zlen (body self))) >>
  put_bytes write_byte (body self) >>
  put write_u16_be (cast_u16 (zlen (attributes self))) >>
  for_each LabelPair.encode_into (attributes self) >>
  ok_unit.

Definition encode (self : t) : result BinSchemaError bytes := encode_with encode_into self.

Definition decode_with_decoder : Read t :=
  let! ts_unix_nano := read_u64_be in
  let! severity := read_byte in
  let! length := read_u32_be in
  let! bytes := read_bytes_vec length in
  let! body := from_utf8 bytes in
  let! length := read_u16_be in
  let! attributes := read_vec length LabelPair.decode_with_decoder in
  ret (mk ts_unix_nano severity body attributes).

Definition decode (l : bytes) : result BinSchemaError t := decode_with decode_with_decoder l.

(** The messages the wire can represent. *)
Definition wf (self : t) : bool :=
  u_ok 64 (ts_unix_nano self)
  && u_ok 8 (severity self)
  && utf8_ok 32 (body self)
  && vec_ok 16 LabelPair.wf (attributes self).

Lemma LogEntry_carried (self : t) : wf self = true -> carries (encode_into self) decode_with_decoder
  self.
Proof. destruct self. unfold encode_into, decode_with_decoder, wf. cbn [ts_unix_nano severity body
  attributes]. codec. Qed.
End LogEntry.
#[export] Hint Resolve LogEntry.LogEntry_carried : codec.

Module LogStream.
Record t := mk {
  fingerprint : Z;
  labels : list LabelPair.t;
  entries : list LogEntry.t;
}.

Definition encode_into (self : t) : Encode :=
  put write_u64_be (fingerprint self) >>
  put write_u16_be (cast_u16 (zlen (labels self))) >>
  for_each LabelPair.encode_into (labels self) >>
  put write_u32_be (cast_u32 (zlen (entries self))) >>
  for_each LogEntry.encode_into (entries self) >>
  ok_unit.

Definition encode (self : t) : result BinSchemaError bytes := encode_with encode_into self.

Definition decode_with_decoder : Read t :=
  let! fingerprint := read_u64_be in
  let! length := read_u16_be in
  let! labels := read_vec length LabelPair.decode_with_decoder in
  let! length := read_u32_be in
  let! entries := read_vec length LogEntry.decode_with_decoder in
  ret (mk fingerprint labels entries).

Definition decode (l : bytes) : result BinSchemaError t := decode_with decode_with_decoder l.

(** The messages the wire can represent. *)
Definition wf (self : t) : bool :=
  u_ok 64 (fingerprint self)
  && vec_ok 16 LabelPair.wf (labels self)
  && vec_ok 32 LogEntry.wf (entries self).

Lemma LogStream_carried (self : t) : wf self = true -> carries (encode_into self)
  decode_with_decoder self.
Proof. destruct self. unfold encode_into, decode_with_decoder, wf. cbn [fingerprint labels entries].
  codec. Qed.
End LogStream.
#[export] Hint Resolve LogStream.LogStream_carried : codec.

Module LogsBatch.
Record t := mk {
  streams : list LogStream.t;
}.

Definition encode_into (self : t) : Encode :=
  put write_u32_be (cast_u32 (zlen (streams self))) >>
  for_each LogStream.encode_into (streams self) >>
  ok_unit.

Definition encode (self : t) : result BinSchemaError bytes := encode_with encode_into self.

Definition decode_with_decoder : Read t :=
  let! length := read_u32_be in
  let! streams := read_vec length LogStream.decode_with_decoder in
  ret (mk streams).

Definition decode (l : bytes) : result BinSchemaError t := decode_with decode_with_decoder l.

(** The messages the wire can represent. *)
Definition wf (self : t) : bool :=
  vec_ok 32 LogStream.wf (streams self).

Lemma LogsBatch_carried (self : t) : wf self = true -> carries (encode_into self)
  decode_with_decoder self.
Proof. destruct self. unfold encode_into, decode_with_decoder, wf. cbn [streams]. codec. Qed.
End LogsBatch.
#[export] Hint Resolve LogsBatch.LogsBatch_carried : codec.

Module OpaqueLogRecordV2.
Record t := mk {
  value : bytes;
}.

Definition encode_into (self : t) : Encode :=
  put write_u32_be (cast_u32 (zlen (value self))) >>
  put_bytes write_byte (value self) >>
  ok_unit.

Definition encode (self : t) : result BinSchemaError bytes := encode_with encode_into self.

Definition decode_with_decoder : Read t :=
  let! length := read_u32_be in
  let! value := read_bytes_vec length in
  ret (mk value).

Definition decode (l : bytes) : result BinSchemaError t := decode_with decode_with_decoder l.

(** The messages the wire can represent. *)
Definition wf (self : t) : bool :=
  len_ok 32 (value self).

Lemma OpaqueLogRecordV2_carried (self : t) : wf self = true -> carries (encode_into self)
  decode_with_decoder self.
Proof. destruct self. unfold encode_into, decode_with_decoder, wf. cbn [value]. codec. Qed.
End OpaqueLogRecordV2.
#[export] Hint Resolve OpaqueLogRecordV2.OpaqueLogRecordV2_carried : codec.

Module LogsBatchV2Input.
Record t := mk {
  records : list OpaqueLogRecordV2.t;
}.

Definition encode_into (self : t) : Encode :=
  put write_u32_be 1397502464 >>
  put write_u16_be 1 >>
  put write_u32_be (cast_u32 (zlen (records self))) >>
  for_each OpaqueLogRecordV2.encode_into (records self) >>
  ok_unit.

Definition encode (self : t) : result BinSchemaError bytes := encode_with encode_into self.

End LogsBatchV2Input.

Module LogsBatchV2Output.
Record t := mk {
  magic : Z;
  raw_version : Z;
  records : list OpaqueLogRecordV2.t;
}.

Definition to_input (o : t) : LogsBatchV2Input.t :=
  LogsBatchV2Input.mk (records o).

Definition from_input (i : LogsBatchV2Input.t) : t :=
  mk 1397502464 1 (LogsBatchV2Input.records i).

Definition encode_into (self : t) : Encode := LogsBatchV2Input.encode_into (to_input self).
Definition encode (self : t) : result BinSchemaError bytes := LogsBatchV2Input.encode (to_input self).

Definition decode_with_decoder : Read t :=
  let! magic := read_u32_be in
  let! ok := expect 1397502464 magic in
  let! raw_version := read_u16_be in
  let! ok := expect 1 raw_version in
  let! length := read_u32_be in
  let! records := read_vec length OpaqueLogRecordV2.decode_with_decoder in
  ret (mk magic raw_version records).

Definition decode (l : bytes) : result BinSchemaError t := decode_with decode_with_decoder l.

(** The messages the wire can represent. *)
Definition wf (self : t) : bool :=
  const_ok 1397502464 (magic self)
  && const_ok 1 (raw_version self)
  && vec_ok 32 OpaqueLogRecordV2.wf (records self).

Lemma LogsBatchV2Output_carried (self : t) : wf self = true -> carries (encode_into self)
  decode_with_decoder self.
Proof. destruct self. unfold encode_into, LogsBatchV2Input.encode_into, to_input,
  decode_with_decoder, wf. cbn [magic raw_version records LogsBatchV2Input.records]. codec. Qed.
End LogsBatchV2Output.
#[export] Hint Resolve LogsBatchV2Output.LogsBatchV2Output_carried : codec.

Module ResourceEntry.
Record t := mk {
  labels : list LabelPair.t;
}.

Definition encode_into (self : t) : Encode :=
  put write_u16_be (cast_u16 (zlen (labels self))) >>
  for_each LabelPair.encode_into (labels self) >>
  ok_unit.

Definition encode (self : t) : result BinSchemaError bytes := encode_with encode_into self.

Definition decode_with_decoder : Read t :=
  let! length := read_u16_be in
  let! labels := read_vec length LabelPair.decode_with_decoder in
  ret (mk labels).

Definition decode (l : bytes) : result BinSchemaError t := decode_with decode_with_decoder l.

(** The messages the wire can represent. *)
Definition wf (self : t) : bool :=
  vec_ok 16 LabelPair.wf (labels self).

Lemma ResourceEntry_carried (self : t) : wf self = true -> carries (encode_into self)
  decode_with_decoder self.
Proof. destruct self. unfold encode_into, decode_with_decoder, wf. cbn [labels]. codec. Qed.
End ResourceEntry.
#[export] Hint Resolve ResourceEntry.ResourceEntry_carried : codec.

Module ScopeEntry.
Record t := mk {
  name : bytes;
  version : bytes;
}.

Definition encode_into (self : t) : Encode :=
  put write_byte (cast_u8 (zlen (name self))) >>
  put_bytes write_byte (name self) >>
  put write_byte (cast_u8 (zlen (chars (version self)))) >>
  put_bytes write_byte (char_bytes (version self)) >>
  ok_unit.

Definition encode (self : t) : result BinSchemaError bytes := encode_with encode_into self.

Definition decode_with_decoder : Read t :=
  let! length := read_byte in
  let! bytes := read_bytes_vec length in
  let! name := from_utf8 bytes in
  let! length := read_byte in
  let! bytes := read_bytes_vec length in
  let version := ascii_string bytes in
  ret (mk name version).

Definition decode (l : bytes) : result BinSchemaError t := decode_with decode_with_decoder l.

(** The messages the wire can represent. *)
Definition wf (self : t) : bool :=
  utf8_ok 8 (name self)
  && ascii_ok 8 (version self).

Lemma ScopeEntry_carried (self : t) : wf self = true -> carries (encode_into self)
  decode_with_decoder self.
Proof. destruct self. unfold encode_into, decode_with_decoder, wf. cbn [name version]. codec. Qed.
End ScopeEntry.
#[export] Hint Resolve ScopeEntry.ScopeEntry_carried : codec.

Module SpanEvent.
Record t := mk {
  ts_unix_nano : Z;
  name : bytes;
  attributes : list LabelPair.t;
}.

Definition encode_into (self : t) : Encode :=
  put write_u64_be (ts_unix_nano self) >>
  put write_u16_be (cast_u16 (zlen (name self))) >>
  put_bytes write_byte (name self) >>
  put write_byte (cast_u8 (zlen (attributes self))) >>
  for_each LabelPair.encode_into (attributes self) >>
  ok_unit.

Definition encode (self : t) : result BinSchemaError bytes := encode_with encode_into self.

Definition decode_with_decoder : Read t :=
  let! ts_unix_nano := read_u64_be in
  let! length := read_u16_be in
  let! bytes := read_bytes_vec length in
  let! name := from_utf8 bytes in
  let! length := read_byte in
  let! attributes := read_vec length LabelPair.decode_with_decoder in
  ret (mk ts_unix_nano name attributes).

Definition decode (l : bytes) : result BinSchemaError t := decode_with decode_with_decoder l.

(** The messages the wire can represent. *)
Definition wf (self : t) : bool :=
  u_ok 64 (ts_unix_nano self)
  && utf8_ok 16 (name self)
  && vec_ok 8 LabelPair.wf (attributes self).

Lemma SpanEvent_carried (self : t) : wf self = true -> carries (encode_into self)
  decode_with_decoder self.
Proof. destruct self. unfold encode_into, decode_with_decoder, wf. cbn [ts_unix_nano name
  attributes]. codec. Qed.
End SpanEvent.
#[export] Hint Resolve SpanEvent.SpanEvent_carried : codec.

Module SpanLink.
Record t := mk {
  trace_id : bytes;
  span_id : bytes;
  attributes : list LabelPair.t;
}.

Definition encode_into (self : t) : Encode :=
  put_bytes write_byte (trace_id self) >>
  put_bytes write_byte (span_id self) >>
  put write_byte (cast_u8 (zlen (attributes self))) >>
  for_each LabelPair.encode_into (attributes self) >>
  ok_unit.

Definition encode (self : t) : result BinSchemaError bytes := encode_with encode_into self.

Definition decode_with_decoder : Read t :=
  let! trace_id := read_bytes_vec 16 in
  let! span_id := read_bytes_vec 8 in
  let! length := read_byte in
  let! attributes := read_vec length LabelPair.decode_with_decoder in
  ret (mk trace_id span_id attributes).

Definition decode (l : bytes) : result BinSchemaError t := decode_with decode_with_decoder l.

(** The messages the wire can represent. *)
Definition wf (self : t) : bool :=
  fixed_ok 16 (trace_id self)
  && fixed_ok 8 (span_id self)
  && vec_ok 8 LabelPair.wf (attributes self).

Lemma SpanLink_carried (self : t) : wf self = true -> carries (encode_into self) decode_with_decoder
  self.
Proof. destruct self. unfold encode_into, decode_with_decoder, wf. cbn [trace_id span_id
  attributes]. codec. Qed.
End SpanLink.
#[export] Hint Resolve SpanLink.SpanLink_carried : codec.

Module Span.
Record t := mk {
  resource_idx : Z;
  scope_idx : Z;
  trace_id : bytes;
  span_id : bytes;
  parent_span_id : option bytes;
  name : bytes;
  kind : Z;
  start_unix_nano : Z;
  end_unix_nano : Z;
  status_code : Z;
  status_message : bytes;
  attributes : list LabelPair.t;
  events : list SpanEvent.t;
  links : list SpanLink.t;
}.

Definition encode_into (self : t) : Encode :=
  put write_u16_be (resource_idx self) >>
  put write_u16_be (scope_idx self) >>
  put_bytes write_byte (trace_id self) >>
  put_bytes write_byte (span_id self) >>
  match parent_span_id self with
   | Some v => put write_uint8 1 >> put_bytes write_byte v
   | None => put write_uint8 0
   end >>
  put write_u16_be (cast_u16 (zlen (name self))) >>
  put_bytes write_byte (name self) >>
  put write_byte (kind self) >>
  put write_u64_be (start_unix_nano self) >>
  put write_u64_be (end_unix_nano self) >>
  put write_byte (status_code self) >>
  put write_u16_be (cast_u16 (zlen (status_message self))) >>
  put_bytes write_byte (status_message self) >>
  put write_u16_be (cast_u16 (zlen (attributes self))) >>
  for_each LabelPair.encode_into (attributes self) >>
  put write_u16_be (cast_u16 (zlen (events self))) >>
  for_each SpanEvent.encode_into (events self) >>
  put write_byte (cast_u8 (zlen (links self))) >>
  for_each SpanLink.encode_into (links self) >>
  ok_unit.

Definition encode (self : t) : result BinSchemaError bytes := encode_with encode_into self.

Definition decode_with_decoder : Read t :=
  let! resource_idx := read_u16_be in
  let! scope_idx := read_u16_be in
  let! trace_id := read_bytes_vec 16 in
  let! span_id := read_bytes_vec 8 in
  let! has := read_uint8 in
  let has_value := negb (has =? 0) in
  let! parent_span_id := (if has_value then let! v := read_bytes_vec 8 in ret (Some v) else ret None) in
  let! length := read_u16_be in
  let! bytes := read_bytes_vec length in
  let! name := from_utf8 bytes in
  let! kind := read_byte in
  let! start_unix_nano := read_u64_be in
  let! end_unix_nano := read_u64_be in
  let! status_code := read_byte in
  let! length := read_u16_be in
  let! bytes := read_bytes_vec length in
  let! status_message := from_utf8 bytes in
  let! length := read_u16_be in
  let! attributes := read_vec length LabelPair.decode_with_decoder in
  let! length := read_u16_be in
  let! events := read_vec length SpanEvent.decode_with_decoder in
  let! length := read_byte in
  let! links := read_vec length SpanLink.decode_with_decoder in
   ret (mk resource_idx scope_idx trace_id span_id parent_span_id name kind start_unix_nano
    end_unix_nano status_code status_message attributes events links).

Definition decode (l : bytes) : result BinSchemaError t := decode_with decode_with_decoder l.

(** The messages the wire can represent. *)
Definition wf (self : t) : bool :=
  u_ok 16 (resource_idx self)
  && u_ok 16 (scope_idx self)
  && fixed_ok 16 (trace_id self)
  && fixed_ok 8 (span_id self)
  && opt_ok 8 (parent_span_id self)
  && utf8_ok 16 (name self)
  && u_ok 8 (kind self)
  && u_ok 64 (start_unix_nano self)
  && u_ok 64 (end_unix_nano self)
  && u_ok 8 (status_code self)
  && utf8_ok 16 (status_message self)
  && vec_ok 16 LabelPair.wf (attributes self)
  && vec_ok 16 SpanEvent.wf (events self)
  && vec_ok 8 SpanLink.wf (links self).

Lemma Span_carried (self : t) : wf self = true -> carries (encode_into self) decode_with_decoder self.
Proof. destruct self. unfold encode_into, decode_with_decoder, wf. cbn [resource_idx scope_idx
  trace_id span_id parent_span_id name kind start_unix_nano end_unix_nano status_code status_message
  attributes events links]. codec. Qed.
End Span.
#[export] Hint Resolve Span.Span_carried : codec.

Module TracesBatch.
Record t := mk {
  resources : list ResourceEntry.t;
  scopes : list ScopeEntry.t;
  spans : list Span.t;
}.

Definition encode_into (self : t) : Encode :=
  put write_u16_be (cast_u16 (zlen (resources self))) >>
  for_each ResourceEntry.encode_into (resources self) >>
  put write_u16_be (cast_u16 (zlen (scopes self))) >>
  for_each ScopeEntry.encode_into (scopes self) >>
  put write_u32_be (cast_u32 (zlen (spans self))) >>
  for_each Span.encode_into (spans self) >>
  ok_unit.

Definition encode (self : t) : result BinSchemaError bytes := encode_with encode_into self.

Definition decode_with_decoder : Read t :=
  let! length := read_u16_be in
  let! resources := read_vec length ResourceEntry.decode_with_decoder in
  let! length := read_u16_be in
  let! scopes := read_vec length ScopeEntry.decode_with_decoder in
  let! length := read_u32_be in
  let! spans := read_vec length Span.decode_with_decoder in
  ret (mk resources scopes spans).

Definition decode (l : bytes) : result BinSchemaError t := decode_with decode_with_decoder l.

(** The messages the wire can represent. *)
Definition wf (self : t) : bool :=
  vec_ok 16 ResourceEntry.wf (resources self)
  && vec_ok 16 ScopeEntry.wf (scopes self)
  && vec_ok 32 Span.wf (spans self).

Lemma TracesBatch_carried (self : t) : wf self = true -> carries (encode_into self)
  decode_with_decoder self.
Proof. destruct self. unfold encode_into, decode_with_decoder, wf. cbn [resources scopes spans].
  codec. Qed.
End TracesBatch.
#[export] Hint Resolve TracesBatch.TracesBatch_carried : codec.

Module ProfileBlob.
Record t := mk {
  ts_unix_nano : Z;
  duration_nano : Z;
  labels : list LabelPair.t;
  format : Z;
  data : bytes;
}.

Definition encode_into (self : t) : Encode :=
  put write_u64_be (ts_unix_nano self) >>
  put write_u64_be (duration_nano self) >>
  put write_u16_be (cast_u16 (zlen (labels self))) >>
  for_each LabelPair.encode_into (labels self) >>
  put write_byte (format self) >>
  put write_u32_be (cast_u32 (zlen (data self))) >>
  put_bytes write_byte (data self) >>
  ok_unit.

Definition encode (self : t) : result BinSchemaError bytes := encode_with encode_into self.

Definition decode_with_decoder : Read t :=
  let! ts_unix_nano := read_u64_be in
  let! duration_nano := read_u64_be in
  let! length := read_u16_be in
  let! labels := read_vec length LabelPair.decode_with_decoder in
  let! format := read_byte in
  let! length := read_u32_be in
  let! data := read_bytes_vec length in
  ret (mk ts_unix_nano duration_nano labels format data).

Definition decode (l : bytes) : result BinSchemaError t := decode_with decode_with_decoder l.

(** The messages the wire can represent. *)
Definition wf (self : t) : bool :=
  u_ok 64 (ts_unix_nano self)
  && u_ok 64 (duration_nano self)
  && vec_ok 16 LabelPair.wf (labels self)
  && u_ok 8 (format self)
  && len_ok 32 (data self).

Lemma ProfileBlob_carried (self : t) : wf self = true -> carries (encode_into self)
  decode_with_decoder self.
Proof. destruct self. unfold encode_into, decode_with_decoder, wf. cbn [ts_unix_nano duration_nano
  labels format data]. codec. Qed.
End ProfileBlob.
#[export] Hint Resolve ProfileBlob.ProfileBlob_carried : codec.

Module ProfilesBatch.
Record t := mk {
  samples : list ProfileBlob.t;
}.

Definition encode_into (self : t) : Encode :=
  put write_u32_be (cast_u32 (zlen (samples self))) >>
  for_each ProfileBlob.encode_into (samples self) >>
  ok_unit.

Definition encode (self : t) : result BinSchemaError bytes := encode_with encode_into self.

Definition decode_with_decoder : Read t :=
  let! length := read_u32_be in
  let! samples := read_vec length ProfileBlob.decode_with_decoder in
  ret (mk samples).

Definition decode (l : bytes) : result BinSchemaError t := decode_with decode_with_decoder l.

(** The messages the wire can represent. *)
Definition wf (self : t) : bool :=
  vec_ok 32 ProfileBlob.wf (samples self).

Lemma ProfilesBatch_carried (self : t) : wf self = true -> carries (encode_into self)
  decode_with_decoder self.
Proof. destruct self. unfold encode_into, decode_with_decoder, wf. cbn [samples]. codec. Qed.
End ProfilesBatch.
#[export] Hint Resolve ProfilesBatch.ProfilesBatch_carried : codec.

Module DummyRecord.
Record t := mk {
  ts_unix_nano : Z;
  key : bytes;
  value : bytes;
}.

Definition encode_into (self : t) : Encode :=
  put write_u64_be (ts_unix_nano self) >>
  put write_u16_be (cast_u16 (zlen (key self))) >>
  put_bytes write_byte (key self) >>
  put write_u32_be (cast_u32 (zlen (value self))) >>
  put_bytes write_byte (value self) >>
  ok_unit.

Definition encode (self : t) : result BinSchemaError bytes := encode_with encode_into self.

Definition decode_with_decoder : Read t :=
  let! ts_unix_nano := read_u64_be in
  let! length := read_u16_be in
  let! bytes := read_bytes_vec length in
  let! key := from_utf8 bytes in
  let! length := read_u32_be in
  let! value := read_bytes_vec length in
  ret (mk ts_unix_nano key value).

Definition decode (l : bytes) : result BinSchemaError t := decode_with decode_with_decoder l.

(** The messages the wire can represent. *)
Definition wf (self : t) : bool :=
  u_ok 64 (ts_unix_nano self)
  && utf8_ok 16 (key self)
  && len_ok 32 (value self).

Lemma DummyRecord_carried (self : t) : wf self = true -> carries (encode_into self)
  decode_with_decoder self.
Proof. destruct self. unfold encode_into, decode_with_decoder, wf. cbn [ts_unix_nano key value].
  codec. Qed.
End DummyRecord.
#[export] Hint Resolve DummyRecord.DummyRecord_carried : codec.

Module DummyBatch.
Record t := mk {
  records : list DummyRecord.t;
}.

Definition encode_into (self : t) : Encode :=
  put write_u32_be (cast_u32 (zlen (records self))) >>
  for_each DummyRecord.encode_into (records self) >>
  ok_unit.

Definition encode (self : t) : result BinSchemaError bytes := encode_with encode_into self.

Definition decode_with_decoder : Read t :=
  let! length := read_u32_be in
  let! records := read_vec length DummyRecord.decode_with_decoder in
  ret (mk records).

Definition decode (l : bytes) : result BinSchemaError t := decode_with decode_with_decoder l.

(** The messages the wire can represent. *)
Definition wf (self : t) : bool :=
  vec_ok 32 DummyRecord.wf (records self).

Lemma DummyBatch_carried (self : t) : wf self = true -> carries (encode_into self)
  decode_with_decoder self.
Proof. destruct self. unfold encode_into, decode_with_decoder, wf. cbn [records]. codec. Qed.
End DummyBatch.
#[export] Hint Resolve DummyBatch.DummyBatch_carried : codec.

Module MetricsBatchV2Input.
Record t := mk {
  descriptors : list MetricDescriptorV2.t;
  points : list MetricPointV2.t;
}.

Definition encode_into (self : t) : Encode :=
  put write_u32_be 1397568000 >>
  put write_u32_be (cast_u32 (zlen (descriptors self))) >>
  for_each MetricDescriptorV2.encode_into (descriptors self) >>
  put write_u32_be (cast_u32 (zlen (points self))) >>
  for_each MetricPointV2.encode_into (points self) >>
  ok_unit.

Definition encode (self : t) : result BinSchemaError bytes := encode_with encode_into self.

End MetricsBatchV2Input.

Module MetricsBatchV2Output.
Record t := mk {
  magic : Z;
  descriptors : list MetricDescriptorV2.t;
  points : list MetricPointV2.t;
}.

Definition to_input (o : t) : MetricsBatchV2Input.t :=
  MetricsBatchV2Input.mk (descriptors o) (points o).

Definition from_input (i : MetricsBatchV2Input.t) : t :=
  mk 1397568000 (MetricsBatchV2Input.descriptors i) (MetricsBatchV2Input.points i).

Definition encode_into (self : t) : Encode := MetricsBatchV2Input.encode_into (to_input self).
Definition encode (self : t) : result BinSchemaError bytes := MetricsBatchV2Input.encode (to_input self).

Definition decode_with_decoder : Read t :=
  let! magic := read_u32_be in
  let! ok := expect 1397568000 magic in
  let! length := read_u32_be in
  let! descriptors := read_vec length MetricDescriptorV2.decode_with_decoder in
  let! length := read_u32_be in
  let! points := read_vec length MetricPointV2.decode_with_decoder in
  ret (mk magic descriptors points).

Definition decode (l : bytes) : result BinSchemaError t := decode_with decode_with_decoder l.

(** The messages the wire can represent. *)
Definition wf (self : t) : bool :=
  const_ok 1397568000 (magic self)
  && vec_ok 32 MetricDescriptorV2.wf (descriptors self)
  && vec_ok 32 MetricPointV2.wf (points self).

Lemma MetricsBatchV2Output_carried (self : t) : wf self = true -> carries (encode_into self)
  decode_with_decoder self.
Proof. destruct self. unfold encode_into, MetricsBatchV2Input.encode_into, to_input,
  decode_with_decoder, wf. cbn [magic descriptors points MetricsBatchV2Input.descriptors
  MetricsBatchV2Input.points]. codec. Qed.
End MetricsBatchV2Output.
#[export] Hint Resolve MetricsBatchV2Output.MetricsBatchV2Output_carried : codec.
