(* ===== verification/WireQuery.v ===== *)
(** * The query protocol

    [crates/proto/src/generated_query.rs]: one module per Rust type, with its fields in order,
    [encode_into], [decode_with_decoder] and the conversions between the input and
    output forms, each statement in its place.  A [u8..u64], [i32] or [i64] is a [Z],
    an [f64] its bits, a [String] or [Vec<u8>] its bytes.  [wf] says which values the
    wire can represent: every length fits its prefix, fixed-size fields have their
    size, strings are well formed.  [carried]: such a value is read back as it was
    written, whatever surrounds it in the stream. *)

From stdpp Require Import pretty.
From S2P Require Import Prelude Bytes Utf8 BitStream Codec.

Module Matcher.
Record t := mk {
  name : bytes;
  value : bytes;
}.

Definition encode_into (self : t) : Encode :=
  put write_u16_be (cast_u16 (zlen (name self))) >>
  put_bytes write_byte (name self) >>
  put write_u16_be (cast_u16 (zlen (value self))) >>
  put_bytes write_byte (value self) >>
  ok_unit.

Definition encode (self : t) : result BinSchemaError bytes := encode_with encode_into self.

Definition decode_with_decoder : Read t :=
  let! length := read_u16_be in
  let! bytes := read_bytes_vec length in
  let! name := from_utf8 bytes in
  let! length := read_u16_be in
  let! bytes := read_bytes_vec length in
  let! value := from_utf8 bytes in
  ret (mk name value).

Definition decode (l : bytes) : result BinSchemaError t := decode_with decode_with_decoder l.

(** The messages the wire can represent. *)
Definition wf (self : t) : bool :=
  utf8_ok 16 (name self)
  && utf8_ok 16 (value self).

Lemma Matcher_carried (self : t) : wf self = true -> carries (encode_into self) decode_with_decoder self.
Proof. destruct self. unfold encode_into, decode_with_decoder, wf. cbn [name value]. codec. Qed.
End Matcher.
#[export] Hint Resolve Matcher.Matcher_carried : codec.

Module QueryRequestInput.
Record t := mk {
  signal : Z;
  matchers : list Matcher.t;
  ts_min_present : Z;
  ts_min : Z;
  ts_max_present : Z;
  ts_max : Z;
  sql : bytes;
  limit : Z;
  request_id : bytes;
  trace_id : bytes;
  body_contains : bytes;
  live : Z;
  with_labels : Z;
  capabilities : Z;
}.

Definition encode_into (self : t) : Encode :=
  put write_byte 1 >>
  put write_byte (signal self) >>
  put write_u16_be (cast_u16 (zlen (matchers self))) >>
  for_each Matcher.encode_into (matchers self) >>
  put write_byte (ts_min_present self) >>
  put write_u64_be (ts_min self) >>
  put write_byte (ts_max_present self) >>
  put write_u64_be (ts_max self) >>
  put write_u32_be (cast_u32 (zlen (sql self))) >>
  put_bytes write_byte (sql self) >>
  put write_u64_be (limit self) >>
  put write_u16_be (cast_u16 (zlen (chars (request_id self)))) >>
  put_bytes write_byte (char_bytes (request_id self)) >>
  put write_u16_be (cast_u16 (zlen (trace_id self))) >>
  put_bytes write_byte (trace_id self) >>
  put write_u32_be (cast_u32 (zlen (body_contains self))) >>
  put_bytes write_byte (body_contains self) >>
  put write_byte (live self) >>
  put write_byte (with_labels self) >>
  put write_u32_be (capabilities self) >>
  ok_unit.

Definition encode (self : t) : result BinSchemaError bytes := encode_with encode_into self.

End QueryRequestInput.

Module QueryRequestOutput.
Record t := mk {
  tag : Z;
  signal : Z;
  matchers : list Matcher.t;
  ts_min_present : Z;
  ts_min : Z;
  ts_max_present : Z;
  ts_max : Z;
  sql : bytes;
  limit : Z;
  request_id : bytes;
  trace_id : bytes;
  body_contains : bytes;
  live : Z;
  with_labels : Z;
  capabilities : Z;
}.

Definition to_input (o : t) : QueryRequestInput.t :=
   QueryRequestInput.mk (signal o) (matchers o) (ts_min_present o) (ts_min o) (ts_max_present o)
    (ts_max o) (sql o) (limit o) (request_id o) (trace_id o) (body_contains o) (live o) (with_labels
    o) (capabilities o).

Definition from_input (i : QueryRequestInput.t) : t :=
   mk 1 (QueryRequestInput.signal i) (QueryRequestInput.matchers i)
    (QueryRequestInput.ts_min_present i) (QueryRequestInput.ts_min i)
    (QueryRequestInput.ts_max_present i) (QueryRequestInput.ts_max i) (QueryRequestInput.sql i)
    (QueryRequestInput.limit i) (QueryRequestInput.request_id i) (QueryRequestInput.trace_id i)
    (QueryRequestInput.body_contains i) (QueryRequestInput.live i) (QueryRequestInput.with_labels i)
    (QueryRequestInput.capabilities i).

Definition encode_into (self : t) : Encode := QueryRequestInput.encode_into (to_input self).
Definition encode (self : t) : result BinSchemaError bytes := QueryRequestInput.encode (to_input self).

Definition decode_with_decoder : Read t :=
  let! tag := read_byte in
  let! ok := expect 1 tag in
  let! signal := read_byte in
  let! length := read_u16_be in
  let! matchers := read_vec length Matcher.decode_with_decoder in
  let! ts_min_present := read_byte in
  let! ts_min := read_u64_be in
  let! ts_max_present := read_byte in
  let! ts_max := read_u64_be in
  let! length := read_u32_be in
  let! bytes := read_bytes_vec length in
  let! sql := from_utf8 bytes in
  let! limit := read_u64_be in
  let! length := read_u16_be in
  let! bytes := read_bytes_vec length in
  let request_id := ascii_string bytes in
  let! length := read_u16_be in
  let! trace_id := read_bytes_vec length in
  let! length := read_u32_be in
  let! bytes := read_bytes_vec length in
  let! body_contains := from_utf8 bytes in
  let! live := read_byte in
  let! with_labels := read_byte in
  let! capabilities := read_u32_be in
   ret (mk tag signal matchers ts_min_present ts_min ts_max_present ts_max sql limit request_id
    trace_id body_contains live with_labels capabilities).

Definition decode (l : bytes) : result BinSchemaError t := decode_with decode_with_decoder l.

(** The messages the wire can represent. *)
Definition wf (self : t) : bool :=
  const_ok 1 (tag self)
  && u_ok 8 (signal self)
  && vec_ok 16 Matcher.wf (matchers self)
  && u_ok 8 (ts_min_present self)
  && u_ok 64 (ts_min self)
  && u_ok 8 (ts_max_present self)
  && u_ok 64 (ts_max self)
  && utf8_ok 32 (sql self)
  && u_ok 64 (limit self)
  && ascii_ok 16 (request_id self)
  && len_ok 16 (trace_id self)
  && utf8_ok 32 (body_contains self)
  && u_ok 8 (live self)
  && u_ok 8 (with_labels self)
  && u_ok 32 (capabilities self).

Lemma QueryRequestOutput_carried (self : t) : wf self = true -> carries (encode_into self)
  decode_with_decoder self.
Proof. destruct self. unfold encode_into, QueryRequestInput.encode_into, to_input,
  decode_with_decoder, wf. cbn [tag signal matchers ts_min_present ts_min ts_max_present ts_max sql
  limit request_id trace_id body_contains live with_labels capabilities QueryRequestInput.signal
  QueryRequestInput.matchers QueryRequestInput.ts_min_present QueryRequestInput.ts_min
  QueryRequestInput.ts_max_present QueryRequestInput.ts_max QueryRequestInput.sql
  QueryRequestInput.limit QueryRequestInput.request_id QueryRequestInput.trace_id
  QueryRequestInput.body_contains QueryRequestInput.live QueryRequestInput.with_labels
  QueryRequestInput.capabilities]. codec. Qed.

Lemma QueryRequestOutput_refuses : rejects decode_with_decoder 1.
Proof. apply rejects_tag. Qed.
End QueryRequestOutput.
#[export] Hint Resolve QueryRequestOutput.QueryRequestOutput_carried : codec.

Module LabelNamesRequestInput.
Record t := mk {
  signal : Z;
  ts_min_present : Z;
  ts_min : Z;
  ts_max_present : Z;
  ts_max : Z;
  capabilities : Z;
}.

Definition encode_into (self : t) : Encode :=
  put write_byte 2 >>
  put write_byte (signal self) >>
  put write_byte (ts_min_present self) >>
  put write_u64_be (ts_min self) >>
  put write_byte (ts_max_present self) >>
  put write_u64_be (ts_max self) >>
  put write_u32_be (capabilities self) >>
  ok_unit.

Definition encode (self : t) : result BinSchemaError bytes := encode_with encode_into self.

End LabelNamesRequestInput.

Module LabelNamesRequestOutput.
Record t := mk {
  tag : Z;
  signal : Z;
  ts_min_present : Z;
  ts_min : Z;
  ts_max_present : Z;
  ts_max : Z;
  capabilities : Z;
}.

Definition to_input (o : t) : LabelNamesRequestInput.t :=
   LabelNamesRequestInput.mk (signal o) (ts_min_present o) (ts_min o) (ts_max_present o) (ts_max o)
    (capabilities o).

Definition from_input (i : LabelNamesRequestInput.t) : t :=
   mk 2 (LabelNamesRequestInput.signal i) (LabelNamesRequestInput.ts_min_present i)
    (LabelNamesRequestInput.ts_min i) (LabelNamesRequestInput.ts_max_present i)
    (LabelNamesRequestInput.ts_max i) (LabelNamesRequestInput.capabilities i).

Definition encode_into (self : t) : Encode := LabelNamesRequestInput.encode_into (to_input self).
Definition encode (self : t) : result BinSchemaError bytes := LabelNamesRequestInput.encode
  (to_input self).

Definition decode_with_decoder : Read t :=
  let! tag := read_byte in
  let! ok := expect 2 tag in
  let! signal := read_byte in
  let! ts_min_present := read_byte in
  let! ts_min := read_u64_be in
  let! ts_max_present := read_byte in
  let! ts_max := read_u64_be in
  let! capabilities := read_u32_be in
  ret (mk tag signal ts_min_present ts_min ts_max_present ts_max capabilities).

Definition decode (l : bytes) : result BinSchemaError t := decode_with decode_with_decoder l.

(** The messages the wire can represent. *)
Definition wf (self : t) : bool :=
  const_ok 2 (tag self)
  && u_ok 8 (signal self)
  && u_ok 8 (ts_min_present self)
  && u_ok 64 (ts_min self)
  && u_ok 8 (ts_max_present self)
  && u_ok 64 (ts_max self)
  && u_ok 32 (capabilities self).

Lemma LabelNamesRequestOutput_carried (self : t) : wf self = true -> carries (encode_into self)
  decode_with_decoder self.
Proof. destruct self. unfold encode_into, LabelNamesRequestInput.encode_into, to_input,
  decode_with_decoder, wf. cbn [tag signal ts_min_present ts_min ts_max_present ts_max capabilities
  LabelNamesRequestInput.signal LabelNamesRequestInput.ts_min_present LabelNamesRequestInput.ts_min
  LabelNamesRequestInput.ts_max_present LabelNamesRequestInput.ts_max
  LabelNamesRequestInput.capabilities]. codec. Qed.

Lemma LabelNamesRequestOutput_refuses : rejects decode_with_decoder 2.
Proof. apply rejects_tag. Qed.
End LabelNamesRequestOutput.
#[export] Hint Resolve LabelNamesRequestOutput.LabelNamesRequestOutput_carried : codec.

Module LabelValuesRequestInput.
Record t := mk {
  signal : Z;
  label_name : bytes;
  ts_min_present : Z;
  ts_min : Z;
  ts_max_present : Z;
  ts_max : Z;
  capabilities : Z;
}.

Definition encode_into (self : t) : Encode :=
  put write_byte 3 >>
  put write_byte (signal self) >>
  put write_u16_be (cast_u16 (zlen (label_name self))) >>
  put_bytes write_byte (label_name self) >>
  put write_byte (ts_min_present self) >>
  put write_u64_be (ts_min self) >>
  put write_byte (ts_max_present self) >>
  put write_u64_be (ts_max self) >>
  put write_u32_be (capabilities self) >>
  ok_unit.

Definition encode (self : t) : result BinSchemaError bytes := encode_with encode_into self.

End LabelValuesRequestInput.

Module LabelValuesRequestOutput.
Record t := mk {
  tag : Z;
  signal : Z;
  label_name : bytes;
  ts_min_present : Z;
  ts_min : Z;
  ts_max_present : Z;
  ts_max : Z;
  capabilities : Z;
}.

Definition to_input (o : t) : LabelValuesRequestInput.t :=
   LabelValuesRequestInput.mk (signal o) (label_name o) (ts_min_present o) (ts_min o)
    (ts_max_present o) (ts_max o) (capabilities o).

Definition from_input (i : LabelValuesRequestInput.t) : t :=
   mk 3 (LabelValuesRequestInput.signal i) (LabelValuesRequestInput.label_name i)
    (LabelValuesRequestInput.ts_min_present i) (LabelValuesRequestInput.ts_min i)
    (LabelValuesRequestInput.ts_max_present i) (LabelValuesRequestInput.ts_max i)
    (LabelValuesRequestInput.capabilities i).

Definition encode_into (self : t) : Encode := LabelValuesRequestInput.encode_into (to_input self).
Definition encode (self : t) : result BinSchemaError bytes := LabelValuesRequestInput.encode
  (to_input self).

Definition decode_with_decoder : Read t :=
  let! tag := read_byte in
  let! ok := expect 3 tag in
  let! signal := read_byte in
  let! length := read_u16_be in
  let! bytes := read_bytes_vec length in
  let! label_name := from_utf8 bytes in
  let! ts_min_present := read_byte in
  let! ts_min := read_u64_be in
  let! ts_max_present := read_byte in
  let! ts_max := read_u64_be in
  let! capabilities := read_u32_be in
  ret (mk tag signal label_name ts_min_present ts_min ts_max_present ts_max capabilities).

Definition decode (l : bytes) : result BinSchemaError t := decode_with decode_with_decoder l.

(** The messages the wire can represent. *)
Definition wf (self : t) : bool :=
  const_ok 3 (tag self)
  && u_ok 8 (signal self)
  && utf8_ok 16 (label_name self)
  && u_ok 8 (ts_min_present self)
  && u_ok 64 (ts_min self)
  && u_ok 8 (ts_max_present self)
  && u_ok 64 (ts_max self)
  && u_ok 32 (capabilities self).

Lemma LabelValuesRequestOutput_carried (self : t) : wf self = true -> carries (encode_into self)
  decode_with_decoder self.
Proof. destruct self. unfold encode_into, LabelValuesRequestInput.encode_into, to_input,
  decode_with_decoder, wf. cbn [tag signal label_name ts_min_present ts_min ts_max_present ts_max
  capabilities LabelValuesRequestInput.signal LabelValuesRequestInput.label_name
  LabelValuesRequestInput.ts_min_present LabelValuesRequestInput.ts_min
  LabelValuesRequestInput.ts_max_present LabelValuesRequestInput.ts_max
  LabelValuesRequestInput.capabilities]. codec. Qed.

Lemma LabelValuesRequestOutput_refuses : rejects decode_with_decoder 3.
Proof. apply rejects_tag. Qed.
End LabelValuesRequestOutput.
#[export] Hint Resolve LabelValuesRequestOutput.LabelValuesRequestOutput_carried : codec.

Module LabelNamesResponseInput.
Record t := mk {
  names : list bytes;
}.

Definition encode_into (self : t) : Encode :=
  put write_byte 32 >>
  put write_u32_be (cast_u32 (zlen (names self))) >>
   for_each (fun item => put write_u16_be (cast_u16 (zlen item)) >> put_bytes write_byte item)
    (names self) >>
  ok_unit.

Definition encode (self : t) : result BinSchemaError bytes := encode_with encode_into self.

End LabelNamesResponseInput.

Module LabelNamesResponseOutput.
Record t := mk {
  tag : Z;
  names : list bytes;
}.

Definition to_input (o : t) : LabelNamesResponseInput.t :=
  LabelNamesResponseInput.mk (names o).

Definition from_input (i : LabelNamesResponseInput.t) : t :=
  mk 32 (LabelNamesResponseInput.names i).

Definition encode_into (self : t) : Encode := LabelNamesResponseInput.encode_into (to_input self).
Definition encode (self : t) : result BinSchemaError bytes := LabelNamesResponseInput.encode
  (to_input self).

Definition decode_with_decoder : Read t :=
  let! tag := read_byte in
  let! ok := expect 32 tag in
  let! length := read_u32_be in
   let! names := read_vec length (let! str_len := read_u16_be in let! str_bytes := read_bytes_vec
    str_len in from_utf8 str_bytes) in
  ret (mk tag names).

Definition decode (l : bytes) : result BinSchemaError t := decode_with decode_with_decoder l.

(** The messages the wire can represent. *)
Definition wf (self : t) : bool :=
  const_ok 32 (tag self)
  && vec_ok 32 (utf8_ok 16) (names self).

Lemma LabelNamesResponseOutput_carried (self : t) : wf self = true -> carries (encode_into self)
  decode_with_decoder self.
Proof. destruct self. unfold encode_into, LabelNamesResponseInput.encode_into, to_input,
  decode_with_decoder, wf. cbn [tag names LabelNamesResponseInput.names]. codec. Qed.

Lemma LabelNamesResponseOutput_refuses : rejects decode_with_decoder 32.
Proof. apply rejects_tag. Qed.
End LabelNamesResponseOutput.
#[export] Hint Resolve LabelNamesResponseOutput.LabelNamesResponseOutput_carried : codec.

Module LabelValuesResponseInput.
Record t := mk {
  values : list bytes;
}.

Definition encode_into (self : t) : Encode :=
  put write_byte 33 >>
  put write_u32_be (cast_u32 (zlen (values self))) >>
   for_each (fun item => put write_u16_be (cast_u16 (zlen item)) >> put_bytes write_byte item)
    (values self) >>
  ok_unit.

Definition encode (self : t) : result BinSchemaError bytes := encode_with encode_into self.

End LabelValuesResponseInput.

Module LabelValuesResponseOutput.
Record t := mk {
  tag : Z;
  values : list bytes;
}.

Definition to_input (o : t) : LabelValuesResponseInput.t :=
  LabelValuesResponseInput.mk (values o).

Definition from_input (i : LabelValuesResponseInput.t) : t :=
  mk 33 (LabelValuesResponseInput.values i).

Definition encode_into (self : t) : Encode := LabelValuesResponseInput.encode_into (to_input self).
Definition encode (self : t) : result BinSchemaError bytes := LabelValuesResponseInput.encode
  (to_input self).

Definition decode_with_decoder : Read t :=
  let! tag := read_byte in
  let! ok := expect 33 tag in
  let! length := read_u32_be in
   let! values := read_vec length (let! str_len := read_u16_be in let! str_bytes := read_bytes_vec
    str_len in from_utf8 str_bytes) in
  ret (mk tag values).

Definition decode (l : bytes) : result BinSchemaError t := decode_with decode_with_decoder l.

(** The messages the wire can represent. *)
Definition wf (self : t) : bool :=
  const_ok 33 (tag self)
  && vec_ok 32 (utf8_ok 16) (values self).

Lemma LabelValuesResponseOutput_carried (self : t) : wf self = true -> carries (encode_into self)
  decode_with_decoder self.
Proof. destruct self. unfold encode_into, LabelValuesResponseInput.encode_into, to_input,
  decode_with_decoder, wf. cbn [tag values LabelValuesResponseInput.values]. codec. Qed.

Lemma LabelValuesResponseOutput_refuses : rejects decode_with_decoder 33.
Proof. apply rejects_tag. Qed.
End LabelValuesResponseOutput.
#[export] Hint Resolve LabelValuesResponseOutput.LabelValuesResponseOutput_carried : codec.

Module FleetStatusRequestInput.
Record t := mk {
}.

Definition encode_into (self : t) : Encode :=
  put write_byte 4 >>
  ok_unit.

Definition encode (self : t) : result BinSchemaError bytes := encode_with encode_into self.

End FleetStatusRequestInput.

Module FleetStatusRequestOutput.
Record t := mk {
  tag : Z;
}.

Definition to_input (o : t) : FleetStatusRequestInput.t :=
  FleetStatusRequestInput.mk .

Definition from_input (i : FleetStatusRequestInput.t) : t :=
  mk 4.

Definition encode_into (self : t) : Encode := FleetStatusRequestInput.encode_into (to_input self).
Definition encode (self : t) : result BinSchemaError bytes := FleetStatusRequestInput.encode
  (to_input self).

Definition decode_with_decoder : Read t :=
  let! tag := read_byte in
  let! ok := expect 4 tag in
  ret (mk tag).

Definition decode (l : bytes) : result BinSchemaError t := decode_with decode_with_decoder l.

(** The messages the wire can represent. *)
Definition wf (self : t) : bool :=
  const_ok 4 (tag self).

Lemma FleetStatusRequestOutput_carried (self : t) : wf self = true -> carries (encode_into self)
  decode_with_decoder self.
Proof. destruct self. unfold encode_into, FleetStatusRequestInput.encode_into, to_input,
  decode_with_decoder, wf. cbn [tag ]. codec. Qed.

Lemma FleetStatusRequestOutput_refuses : rejects decode_with_decoder 4.
Proof. apply rejects_tag. Qed.
End FleetStatusRequestOutput.
#[export] Hint Resolve FleetStatusRequestOutput.FleetStatusRequestOutput_carried : codec.

Module FleetStatusResponseInput.
Record t := mk {
  instances_json : list bytes;
}.

Definition encode_into (self : t) : Encode :=
  put write_byte 34 >>
  put write_u32_be (cast_u32 (zlen (instances_json self))) >>
   for_each (fun item => put write_u32_be (cast_u32 (zlen item)) >> put_bytes write_byte item)
    (instances_json self) >>
  ok_unit.

Definition encode (self : t) : result BinSchemaError bytes := encode_with encode_into self.

End FleetStatusResponseInput.

Module FleetStatusResponseOutput.
Record t := mk {
  tag : Z;
  instances_json : list bytes;
}.

Definition to_input (o : t) : FleetStatusResponseInput.t :=
  FleetStatusResponseInput.mk (instances_json o).

Definition from_input (i : FleetStatusResponseInput.t) : t :=
  mk 34 (FleetStatusResponseInput.instances_json i).

Definition encode_into (self : t) : Encode := FleetStatusResponseInput.encode_into (to_input self).
Definition encode (self : t) : result BinSchemaError bytes := FleetStatusResponseInput.encode
  (to_input self).

Definition decode_with_decoder : Read t :=
  let! tag := read_byte in
  let! ok := expect 34 tag in
  let! length := read_u32_be in
   let! instances_json := read_vec length (let! str_len := read_u32_be in let! str_bytes :=
    read_bytes_vec str_len in from_utf8 str_bytes) in
  ret (mk tag instances_json).

Definition decode (l : bytes) : result BinSchemaError t := decode_with decode_with_decoder l.

(** The messages the wire can represent. *)
Definition wf (self : t) : bool :=
  const_ok 34 (tag self)
  && vec_ok 32 (utf8_ok 32) (instances_json self).

Lemma FleetStatusResponseOutput_carried (self : t) : wf self = true -> carries (encode_into self)
  decode_with_decoder self.
Proof. destruct self. unfold encode_into, FleetStatusResponseInput.encode_into, to_input,
  decode_with_decoder, wf. cbn [tag instances_json FleetStatusResponseInput.instances_json]. codec.
  Qed.

Lemma FleetStatusResponseOutput_refuses : rejects decode_with_decoder 34.
Proof. apply rejects_tag. Qed.
End FleetStatusResponseOutput.
#[export] Hint Resolve FleetStatusResponseOutput.FleetStatusResponseOutput_carried : codec.

Module IssueListRequestInput.
Record t := mk {
  limit : Z;
}.

Definition encode_into (self : t) : Encode :=
  put write_byte 5 >>
  put write_u32_be (limit self) >>
  ok_unit.

Definition encode (self : t) : result BinSchemaError bytes := encode_with encode_into self.

End IssueListRequestInput.

Module IssueListRequestOutput.
Record t := mk {
  tag : Z;
  limit : Z;
}.

Definition to_input (o : t) : IssueListRequestInput.t :=
  IssueListRequestInput.mk (limit o).

Definition from_input (i : IssueListRequestInput.t) : t :=
  mk 5 (IssueListRequestInput.limit i).

Definition encode_into (self : t) : Encode := IssueListRequestInput.encode_into (to_input self).
Definition encode (self : t) : result BinSchemaError bytes := IssueListRequestInput.encode (to_input
  self).

Definition decode_with_decoder : Read t :=
  let! tag := read_byte in
  let! ok := expect 5 tag in
  let! limit := read_u32_be in
  ret (mk tag limit).

Definition decode (l : bytes) : result BinSchemaError t := decode_with decode_with_decoder l.

(** The messages the wire can represent. *)
Definition wf (self : t) : bool :=
  const_ok 5 (tag self)
  && u_ok 32 (limit self).

Lemma IssueListRequestOutput_carried (self : t) : wf self = true -> carries (encode_into self)
  decode_with_decoder self.
Proof. destruct self. unfold encode_into, IssueListRequestInput.encode_into, to_input,
  decode_with_decoder, wf. cbn [tag limit IssueListRequestInput.limit]. codec. Qed.

Lemma IssueListRequestOutput_refuses : rejects decode_with_decoder 5.
Proof. apply rejects_tag. Qed.
End IssueListRequestOutput.
#[export] Hint Resolve IssueListRequestOutput.IssueListRequestOutput_carried : codec.

Module IssueListResponseInput.
Record t := mk {
  issues_json : list bytes;
}.

Definition encode_into (self : t) : Encode :=
  put write_byte 35 >>
  put write_u32_be (cast_u32 (zlen (issues_json self))) >>
   for_each (fun item => put write_u32_be (cast_u32 (zlen item)) >> put_bytes write_byte item)
    (issues_json self) >>
  ok_unit.

Definition encode (self : t) : result BinSchemaError bytes := encode_with encode_into self.

End IssueListResponseInput.

Module IssueListResponseOutput.
Record t := mk {
  tag : Z;
  issues_json : list bytes;
}.

Definition to_input (o : t) : IssueListResponseInput.t :=
  IssueListResponseInput.mk (issues_json o).

Definition from_input (i : IssueListResponseInput.t) : t :=
  mk 35 (IssueListResponseInput.issues_json i).

Definition encode_into (self : t) : Encode := IssueListResponseInput.encode_into (to_input self).
Definition encode (self : t) : result BinSchemaError bytes := IssueListResponseInput.encode
  (to_input self).

Definition decode_with_decoder : Read t :=
  let! tag := read_byte in
  let! ok := expect 35 tag in
  let! length := read_u32_be in
   let! issues_json := read_vec length (let! str_len := read_u32_be in let! str_bytes :=
    read_bytes_vec str_len in from_utf8 str_bytes) in
  ret (mk tag issues_json).

Definition decode (l : bytes) : result BinSchemaError t := decode_with decode_with_decoder l.

(** The messages the wire can represent. *)
Definition wf (self : t) : bool :=
  const_ok 35 (tag self)
  && vec_ok 32 (utf8_ok 32) (issues_json self).

Lemma IssueListResponseOutput_carried (self : t) : wf self = true -> carries (encode_into self)
  decode_with_decoder self.
Proof. destruct self. unfold encode_into, IssueListResponseInput.encode_into, to_input,
  decode_with_decoder, wf. cbn [tag issues_json IssueListResponseInput.issues_json]. codec. Qed.

Lemma IssueListResponseOutput_refuses : rejects decode_with_decoder 35.
Proof. apply rejects_tag. Qed.
End IssueListResponseOutput.
#[export] Hint Resolve IssueListResponseOutput.IssueListResponseOutput_carried : codec.

Module IssueOccurrencesRequestInput.
Record t := mk {
  issue_id : bytes;
  limit : Z;
}.

Definition encode_into (self : t) : Encode :=
  put write_byte 6 >>
  put write_u16_be (cast_u16 (zlen (issue_id self))) >>
  put_bytes write_byte (issue_id self) >>
  put write_u32_be (limit self) >>
  ok_unit.

Definition encode (self : t) : result BinSchemaError bytes := encode_with encode_into self.

End IssueOccurrencesRequestInput.

Module IssueOccurrencesRequestOutput.
Record t := mk {
  tag : Z;
  issue_id : bytes;
  limit : Z;
}.

Definition to_input (o : t) : IssueOccurrencesRequestInput.t :=
  IssueOccurrencesRequestInput.mk (issue_id o) (limit o).

Definition from_input (i : IssueOccurrencesRequestInput.t) : t :=
  mk 6 (IssueOccurrencesRequestInput.issue_id i) (IssueOccurrencesRequestInput.limit i).

Definition encode_into (self : t) : Encode := IssueOccurrencesRequestInput.encode_into (to_input self).
Definition encode (self : t) : result BinSchemaError bytes := IssueOccurrencesRequestInput.encode
  (to_input self).

Definition decode_with_decoder : Read t :=
  let! tag := read_byte in
  let! ok := expect 6 tag in
  let! length := read_u16_be in
  let! issue_id := read_bytes_vec length in
  let! limit := read_u32_be in
  ret (mk tag issue_id limit).

Definition decode (l : bytes) : result BinSchemaError t := decode_with decode_with_decoder l.

(** The messages the wire can represent. *)
Definition wf (self : t) : bool :=
  const_ok 6 (tag self)
  && len_ok 16 (issue_id self)
  && u_ok 32 (limit self).

Lemma IssueOccurrencesRequestOutput_carried (self : t) : wf self = true -> carries (encode_into
  self) decode_with_decoder self.
Proof. destruct self. unfold encode_into, IssueOccurrencesRequestInput.encode_into, to_input,
  decode_with_decoder, wf. cbn [tag issue_id limit IssueOccurrencesRequestInput.issue_id
  IssueOccurrencesRequestInput.limit]. codec. Qed.

Lemma IssueOccurrencesRequestOutput_refuses : rejects decode_with_decoder 6.
Proof. apply rejects_tag. Qed.
End IssueOccurrencesRequestOutput.
#[export] Hint Resolve IssueOccurrencesRequestOutput.IssueOccurrencesRequestOutput_carried : codec.

Module IssueOccurrencesResponseInput.
Record t := mk {
  issue_json : bytes;
  occurrences_json : list bytes;
}.

Definition encode_into (self : t) : Encode :=
  put write_byte 36 >>
  put write_u32_be (cast_u32 (zlen (issue_json self))) >>
  put_bytes write_byte (issue_json self) >>
  put write_u32_be (cast_u32 (zlen (occurrences_json self))) >>
   for_each (fun item => put write_u32_be (cast_u32 (zlen item)) >> put_bytes write_byte item)
    (occurrences_json self) >>
  ok_unit.

Definition encode (self : t) : result BinSchemaError bytes := encode_with encode_into self.

End IssueOccurrencesResponseInput.

Module IssueOccurrencesResponseOutput.
Record t := mk {
  tag : Z;
  issue_json : bytes;
  occurrences_json : list bytes;
}.

Definition to_input (o : t) : IssueOccurrencesResponseInput.t :=
  IssueOccurrencesResponseInput.mk (issue_json o) (occurrences_json o).

Definition from_input (i : IssueOccurrencesResponseInput.t) : t :=
  mk 36 (IssueOccurrencesResponseInput.issue_json i) (IssueOccurrencesResponseInput.occurrences_json i).

Definition encode_into (self : t) : Encode := IssueOccurrencesResponseInput.encode_into (to_input self).
Definition encode (self : t) : result BinSchemaError bytes := IssueOccurrencesResponseInput.encode
  (to_input self).

Definition decode_with_decoder : Read t :=
  let! tag := read_byte in
  let! ok := expect 36 tag in
  let! length := read_u32_be in
  let! bytes := read_bytes_vec length in
  let! issue_json := from_utf8 bytes in
  let! length := read_u32_be in
   let! occurrences_json := read_vec length (let! str_len := read_u32_be in let! str_bytes :=
    read_bytes_vec str_len in from_utf8 str_bytes) in
  ret (mk tag issue_json occurrences_json).

Definition decode (l : bytes) : result BinSchemaError t := decode_with decode_with_decoder l.

(** The messages the wire can represent. *)
Definition wf (self : t) : bool :=
  const_ok 36 (tag self)
  && utf8_ok 32 (issue_json self)
  && vec_ok 32 (utf8_ok 32) (occurrences_json self).

Lemma IssueOccurrencesResponseOutput_carried (self : t) : wf self = true -> carries (encode_into
  self) decode_with_decoder self.
Proof. destruct self. unfold encode_into, IssueOccurrencesResponseInput.encode_into, to_input,
  decode_with_decoder, wf. cbn [tag issue_json occurrences_json
  IssueOccurrencesResponseInput.issue_json IssueOccurrencesResponseInput.occurrences_json]. codec.
  Qed.

Lemma IssueOccurrencesResponseOutput_refuses : rejects decode_with_decoder 36.
Proof. apply rejects_tag. Qed.
End IssueOccurrencesResponseOutput.
#[export] Hint Resolve IssueOccurrencesResponseOutput.IssueOccurrencesResponseOutput_carried : codec.

Module SchemaMsgInput.
Record t := mk {
  ipc_bytes : bytes;
}.

Definition encode_into (self : t) : Encode :=
  put write_byte 16 >>
  put write_u32_be (cast_u32 (zlen (ipc_bytes self))) >>
  put_bytes write_byte (ipc_bytes self) >>
  ok_unit.

Definition encode (self : t) : result BinSchemaError bytes := encode_with encode_into self.

End SchemaMsgInput.

Module SchemaMsgOutput.
Record t := mk {
  tag : Z;
  ipc_bytes : bytes;
}.

Definition to_input (o : t) : SchemaMsgInput.t :=
  SchemaMsgInput.mk (ipc_bytes o).

Definition from_input (i : SchemaMsgInput.t) : t :=
  mk 16 (SchemaMsgInput.ipc_bytes i).

Definition encode_into (self : t) : Encode := SchemaMsgInput.encode_into (to_input self).
Definition encode (self : t) : result BinSchemaError bytes := SchemaMsgInput.encode (to_input self).

Definition decode_with_decoder : Read t :=
  let! tag := read_byte in
  let! ok := expect 16 tag in
  let! length := read_u32_be in
  let! ipc_bytes := read_bytes_vec length in
  ret (mk tag ipc_bytes).

Definition decode (l : bytes) : result BinSchemaError t := decode_with decode_with_decoder l.

(** The messages the wire can represent. *)
Definition wf (self : t) : bool :=
  const_ok 16 (tag self)
  && len_ok 32 (ipc_bytes self).

Lemma SchemaMsgOutput_carried (self : t) : wf self = true -> carries (encode_into self)
  decode_with_decoder self.
Proof. destruct self. unfold encode_into, SchemaMsgInput.encode_into, to_input, decode_with_decoder,
  wf. cbn [tag ipc_bytes SchemaMsgInput.ipc_bytes]. codec. Qed.

Lemma SchemaMsgOutput_refuses : rejects decode_with_decoder 16.
Proof. apply rejects_tag. Qed.
End SchemaMsgOutput.
#[export] Hint Resolve SchemaMsgOutput.SchemaMsgOutput_carried : codec.

Module BatchMsgInput.
Record t := mk {
  ipc_bytes : bytes;
}.

Definition encode_into (self : t) : Encode :=
  put write_byte 17 >>
  put write_u32_be (cast_u32 (zlen (ipc_bytes self))) >>
  put_bytes write_byte (ipc_bytes self) >>
  ok_unit.

Definition encode (self : t) : result BinSchemaError bytes := encode_with encode_into self.

End BatchMsgInput.

Module BatchMsgOutput.
Record t := mk {
  tag : Z;
  ipc_bytes : bytes;
}.

Definition to_input (o : t) : BatchMsgInput.t :=
  BatchMsgInput.mk (ipc_bytes o).

Definition from_input (i : BatchMsgInput.t) : t :=
  mk 17 (BatchMsgInput.ipc_bytes i).

Definition encode_into (self : t) : Encode := BatchMsgInput.encode_into (to_input self).
Definition encode (self : t) : result BinSchemaError bytes := BatchMsgInput.encode (to_input self).

Definition decode_with_decoder : Read t :=
  let! tag := read_byte in
  let! ok := expect 17 tag in
  let! length := read_u32_be in
  let! ipc_bytes := read_bytes_vec length in
  ret (mk tag ipc_bytes).

Definition decode (l : bytes) : result BinSchemaError t := decode_with decode_with_decoder l.

(** The messages the wire can represent. *)
Definition wf (self : t) : bool :=
  const_ok 17 (tag self)
  && len_ok 32 (ipc_bytes self).

Lemma BatchMsgOutput_carried (self : t) : wf self = true -> carries (encode_into self)
  decode_with_decoder self.
Proof. destruct self. unfold encode_into, BatchMsgInput.encode_into, to_input, decode_with_decoder,
  wf. cbn [tag ipc_bytes BatchMsgInput.ipc_bytes]. codec. Qed.

Lemma BatchMsgOutput_refuses : rejects decode_with_decoder 17.
Proof. apply rejects_tag. Qed.
End BatchMsgOutput.
#[export] Hint Resolve BatchMsgOutput.BatchMsgOutput_carried : codec.

Module ResponseSupersededInput.
Record t := mk {
  superseded_attempt : Z;
  next_attempt : Z;
  reason : Z;
}.

Definition encode_into (self : t) : Encode :=
  put write_byte 18 >>
  put write_u32_be (superseded_attempt self) >>
  put write_u32_be (next_attempt self) >>
  put write_byte (reason self) >>
  ok_unit.

Definition encode (self : t) : result BinSchemaError bytes := encode_with encode_into self.

End ResponseSupersededInput.

Module ResponseSupersededOutput.
Record t := mk {
  tag : Z;
  superseded_attempt : Z;
  next_attempt : Z;
  reason : Z;
}.

Definition to_input (o : t) : ResponseSupersededInput.t :=
  ResponseSupersededInput.mk (superseded_attempt o) (next_attempt o) (reason o).

Definition from_input (i : ResponseSupersededInput.t) : t :=
   mk 18 (ResponseSupersededInput.superseded_attempt i) (ResponseSupersededInput.next_attempt i)
    (ResponseSupersededInput.reason i).

Definition encode_into (self : t) : Encode := ResponseSupersededInput.encode_into (to_input self).
Definition encode (self : t) : result BinSchemaError bytes := ResponseSupersededInput.encode
  (to_input self).

Definition decode_with_decoder : Read t :=
  let! tag := read_byte in
  let! ok := expect 18 tag in
  let! superseded_attempt := read_u32_be in
  let! next_attempt := read_u32_be in
  let! reason := read_byte in
  ret (mk tag superseded_attempt next_attempt reason).

Definition decode (l : bytes) : result BinSchemaError t := decode_with decode_with_decoder l.

(** The messages the wire can represent. *)
Definition wf (self : t) : bool :=
  const_ok 18 (tag self)
  && u_ok 32 (superseded_attempt self)
  && u_ok 32 (next_attempt self)
  && u_ok 8 (reason self).

Lemma ResponseSupersededOutput_carried (self : t) : wf self = true -> carries (encode_into self)
  decode_with_decoder self.
Proof. destruct self. unfold encode_into, ResponseSupersededInput.encode_into, to_input,
  decode_with_decoder, wf. cbn [tag superseded_attempt next_attempt reason
  ResponseSupersededInput.superseded_attempt ResponseSupersededInput.next_attempt
  ResponseSupersededInput.reason]. codec. Qed.

Lemma ResponseSupersededOutput_refuses : rejects decode_with_decoder 18.
Proof. apply rejects_tag. Qed.
End ResponseSupersededOutput.
#[export] Hint Resolve ResponseSupersededOutput.ResponseSupersededOutput_carried : codec.

Module LiveNodeTiming.
Record t := mk {
  addr : bytes;
  elapsed_us : Z;
  rows : Z;
  ok : Z;
}.

Definition encode_into (self : t) : Encode :=
  put write_u16_be (cast_u16 (zlen (chars (addr self)))) >>
  put_bytes write_byte (char_bytes (addr self)) >>
  put write_u64_be (elapsed_us self) >>
  put write_u64_be (rows self) >>
  put write_byte (ok self) >>
  ok_unit.

Definition encode (self : t) : result BinSchemaError bytes := encode_with encode_into self.

Definition decode_with_decoder : Read t :=
  let! length := read_u16_be in
  let! bytes := read_bytes_vec length in
  let addr := ascii_string bytes in
  let! elapsed_us := read_u64_be in
  let! rows := read_u64_be in
  let! ok := read_byte in
  ret (mk addr elapsed_us rows ok).

Definition decode (l : bytes) : result BinSchemaError t := decode_with decode_with_decoder l.

(** The messages the wire can represent. *)
Definition wf (self : t) : bool :=
  ascii_ok 16 (addr self)
  && u_ok 64 (elapsed_us self)
  && u_ok 64 (rows self)
  && u_ok 8 (ok self).

Lemma LiveNodeTiming_carried (self : t) : wf self = true -> carries (encode_into self)
  decode_with_decoder self.
Proof. destruct self. unfold encode_into, decode_with_decoder, wf. cbn [addr elapsed_us rows ok].
  codec. Qed.
End LiveNodeTiming.
#[export] Hint Resolve LiveNodeTiming.LiveNodeTiming_carried : codec.

Module QueryStatsInput.
Record t := mk {
  server_total_us : Z;
  admission_wait_us : Z;
  catalog_us : Z;
  cache_lookup_us : Z;
  live_fetch_us : Z;
  register_us : Z;
  plan_us : Z;
  execute_us : Z;
  serialize_us : Z;
  write_us : Z;
  postings_fetch_us : Z;
  bloom_fetch_us : Z;
  df_opening_us : Z;
  df_scanning_us : Z;
  df_compute_us : Z;
  cache_hit : Z;
  attempts : Z;
  blocks_considered : Z;
  blocks_scanned : Z;
  bytes_scanned : Z;
  node_id : bytes;
  live_nodes : list LiveNodeTiming.t;
}.

Definition encode_into (self : t) : Encode :=
  put write_byte 30 >>
  put write_u64_be (server_total_us self) >>
  put write_u64_be (admission_wait_us self) >>
  put write_u64_be (catalog_us self) >>
  put write_u64_be (cache_lookup_us self) >>
  put write_u64_be (live_fetch_us self) >>
  put write_u64_be (register_us self) >>
  put write_u64_be (plan_us self) >>
  put write_u64_be (execute_us self) >>
  put write_u64_be (serialize_us self) >>
  put write_u64_be (write_us self) >>
  put write_u64_be (postings_fetch_us self) >>
  put write_u64_be (bloom_fetch_us self) >>
  put write_u64_be (df_opening_us self) >>
  put write_u64_be (df_scanning_us self) >>
  put write_u64_be (df_compute_us self) >>
  put write_byte (cache_hit self) >>
  put write_u32_be (attempts self) >>
  put write_u32_be (blocks_considered self) >>
  put write_u32_be (blocks_scanned self) >>
  put write_u64_be (bytes_scanned self) >>
  put write_u16_be (cast_u16 (zlen (chars (node_id self)))) >>
  put_bytes write_byte (char_bytes (node_id self)) >>
  put write_u16_be (cast_u16 (zlen (live_nodes self))) >>
  for_each LiveNodeTiming.encode_into (live_nodes self) >>
  ok_unit.

Definition encode (self : t) : result BinSchemaError bytes := encode_with encode_into self.

End QueryStatsInput.

Module QueryStatsOutput.
Record t := mk {
  tag : Z;
  server_total_us : Z;
  admission_wait_us : Z;
  catalog_us : Z;
  cache_lookup_us : Z;
  live_fetch_us : Z;
  register_us : Z;
  plan_us : Z;
  execute_us : Z;
  serialize_us : Z;
  write_us : Z;
  postings_fetch_us : Z;
  bloom_fetch_us : Z;
  df_opening_us : Z;
  df_scanning_us : Z;
  df_compute_us : Z;
  cache_hit : Z;
  attempts : Z;
  blocks_considered : Z;
  blocks_scanned : Z;
  bytes_scanned : Z;
  node_id : bytes;
  live_nodes : list LiveNodeTiming.t;
}.

Definition to_input (o : t) : QueryStatsInput.t :=
   QueryStatsInput.mk (server_total_us o) (admission_wait_us o) (catalog_us o) (cache_lookup_us o)
    (live_fetch_us o) (register_us o) (plan_us o) (execute_us o) (serialize_us o) (write_us o)
    (postings_fetch_us o) (bloom_fetch_us o) (df_opening_us o) (df_scanning_us o) (df_compute_us o)
    (cache_hit o) (attempts o) (blocks_considered o) (blocks_scanned o) (bytes_scanned o) (node_id
    o) (live_nodes o).

Definition from_input (i : QueryStatsInput.t) : t :=
   mk 30 (QueryStatsInput.server_total_us i) (QueryStatsInput.admission_wait_us i)
    (QueryStatsInput.catalog_us i) (QueryStatsInput.cache_lookup_us i)
    (QueryStatsInput.live_fetch_us i) (QueryStatsInput.register_us i) (QueryStatsInput.plan_us i)
    (QueryStatsInput.execute_us i) (QueryStatsInput.serialize_us i) (QueryStatsInput.write_us i)
    (QueryStatsInput.postings_fetch_us i) (QueryStatsInput.bloom_fetch_us i)
    (QueryStatsInput.df_opening_us i) (QueryStatsInput.df_scanning_us i)
    (QueryStatsInput.df_compute_us i) (QueryStatsInput.cache_hit i) (QueryStatsInput.attempts i)
    (QueryStatsInput.blocks_considered i) (QueryStatsInput.blocks_scanned i)
    (QueryStatsInput.bytes_scanned i) (QueryStatsInput.node_id i) (QueryStatsInput.live_nodes i).

Definition encode_into (self : t) : Encode := QueryStatsInput.encode_into (to_input self).
Definition encode (self : t) : result BinSchemaError bytes := QueryStatsInput.encode (to_input self).

Definition decode_with_decoder : Read t :=
  let! tag := read_byte in
  let! ok := expect 30 tag in
  let! server_total_us := read_u64_be in
  let! admission_wait_us := read_u64_be in
  let! catalog_us := read_u64_be in
  let! cache_lookup_us := read_u64_be in
  let! live_fetch_us := read_u64_be in
  let! register_us := read_u64_be in
  let! plan_us := read_u64_be in
  let! execute_us := read_u64_be in
  let! serialize_us := read_u64_be in
  let! write_us := read_u64_be in
  let! postings_fetch_us := read_u64_be in
  let! bloom_fetch_us := read_u64_be in
  let! df_opening_us := read_u64_be in
  let! df_scanning_us := read_u64_be in
  let! df_compute_us := read_u64_be in
  let! cache_hit := read_byte in
  let! attempts := read_u32_be in
  let! blocks_considered := read_u32_be in
  let! blocks_scanned := read_u32_be in
  let! bytes_scanned := read_u64_be in
  let! length := read_u16_be in
  let! bytes := read_bytes_vec length in
  let node_id := ascii_string bytes in
  let! length := read_u16_be in
  let! live_nodes := read_vec length LiveNodeTiming.decode_with_decoder in
   ret (mk tag server_total_us admission_wait_us catalog_us cache_lookup_us live_fetch_us
    register_us plan_us execute_us serialize_us write_us postings_fetch_us bloom_fetch_us
    df_opening_us df_scanning_us df_compute_us cache_hit attempts blocks_considered blocks_scanned
    bytes_scanned node_id live_nodes).

Definition decode (l : bytes) : result BinSchemaError t := decode_with decode_with_decoder l.

(** The messages the wire can represent. *)
Definition wf (self : t) : bool :=
  const_ok 30 (tag self)
  && u_ok 64 (server_total_us self)
  && u_ok 64 (admission_wait_us self)
  && u_ok 64 (catalog_us self)
  && u_ok 64 (cache_lookup_us self)
  && u_ok 64 (live_fetch_us self)
  && u_ok 64 (register_us self)
  && u_ok 64 (plan_us self)
  && u_ok 64 (execute_us self)
  && u_ok 64 (serialize_us self)
  && u_ok 64 (write_us self)
  && u_ok 64 (postings_fetch_us self)
  && u_ok 64 (bloom_fetch_us self)
  && u_ok 64 (df_opening_us self)
  && u_ok 64 (df_scanning_us self)
  && u_ok 64 (df_compute_us self)
  && u_ok 8 (cache_hit self)
  && u_ok 32 (attempts self)
  && u_ok 32 (blocks_considered self)
  && u_ok 32 (blocks_scanned self)
  && u_ok 64 (bytes_scanned self)
  && ascii_ok 16 (node_id self)
  && vec_ok 16 LiveNodeTiming.wf (live_nodes self).

Lemma QueryStatsOutput_carried (self : t) : wf self = true -> carries (encode_into self)
  decode_with_decoder self.
Proof. destruct self. unfold encode_into, QueryStatsInput.encode_into, to_input,
  decode_with_decoder, wf. cbn [tag server_total_us admission_wait_us catalog_us cache_lookup_us
  live_fetch_us register_us plan_us execute_us serialize_us write_us postings_fetch_us
  bloom_fetch_us df_opening_us df_scanning_us df_compute_us cache_hit attempts blocks_considered
  blocks_scanned bytes_scanned node_id live_nodes QueryStatsInput.server_total_us
  QueryStatsInput.admission_wait_us QueryStatsInput.catalog_us QueryStatsInput.cache_lookup_us
  QueryStatsInput.live_fetch_us QueryStatsInput.register_us QueryStatsInput.plan_us
  QueryStatsInput.execute_us QueryStatsInput.serialize_us QueryStatsInput.write_us
  QueryStatsInput.postings_fetch_us QueryStatsInput.bloom_fetch_us QueryStatsInput.df_opening_us
  QueryStatsInput.df_scanning_us QueryStatsInput.df_compute_us QueryStatsInput.cache_hit
  QueryStatsInput.attempts QueryStatsInput.blocks_considered QueryStatsInput.blocks_scanned
  QueryStatsInput.bytes_scanned QueryStatsInput.node_id QueryStatsInput.live_nodes]. codec. Qed.

Lemma QueryStatsOutput_refuses : rejects decode_with_decoder 30.
Proof. apply rejects_tag. Qed.
End QueryStatsOutput.
#[export] Hint Resolve QueryStatsOutput.QueryStatsOutput_carried : codec.

Module EndOfStreamInput.
Record t := mk {
  total_rows : Z;
}.

Definition encode_into (self : t) : Encode :=
  put write_byte 31 >>
  put write_u64_be (total_rows self) >>
  ok_unit.

Definition encode (self : t) : result BinSchemaError bytes := encode_with encode_into self.

End EndOfStreamInput.

Module EndOfStreamOutput.
Record t := mk {
  tag : Z;
  total_rows : Z;
}.

Definition to_input (o : t) : EndOfStreamInput.t :=
  EndOfStreamInput.mk (total_rows o).

Definition from_input (i : EndOfStreamInput.t) : t :=
  mk 31 (EndOfStreamInput.total_rows i).

Definition encode_into (self : t) : Encode := EndOfStreamInput.encode_into (to_input self).
Definition encode (self : t) : result BinSchemaError bytes := EndOfStreamInput.encode (to_input self).

Definition decode_with_decoder : Read t :=
  let! tag := read_byte in
  let! ok := expect 31 tag in
  let! total_rows := read_u64_be in
  ret (mk tag total_rows).

Definition decode (l : bytes) : result BinSchemaError t := decode_with decode_with_decoder l.

(** The messages the wire can represent. *)
Definition wf (self : t) : bool :=
  const_ok 31 (tag self)
  && u_ok 64 (total_rows self).

Lemma EndOfStreamOutput_carried (self : t) : wf self = true -> carries (encode_into self)
  decode_with_decoder self.
Proof. destruct self. unfold encode_into, EndOfStreamInput.encode_into, to_input,
  decode_with_decoder, wf. cbn [tag total_rows EndOfStreamInput.total_rows]. codec. Qed.

Lemma EndOfStreamOutput_refuses : rejects decode_with_decoder 31.
Proof. apply rejects_tag. Qed.
End EndOfStreamOutput.
#[export] Hint Resolve EndOfStreamOutput.EndOfStreamOutput_carried : codec.

Module StreamErrorInput.
Record t := mk {
  code : Z;
  message : bytes;
}.

Definition encode_into (self : t) : Encode :=
  put write_byte 240 >>
  put write_u16_be (code self) >>
  put write_u16_be (cast_u16 (zlen (message self))) >>
  put_bytes write_byte (message self) >>
  ok_unit.

Definition encode (self : t) : result BinSchemaError bytes := encode_with encode_into self.

End StreamErrorInput.

Module StreamErrorOutput.
Record t := mk {
  tag : Z;
  code : Z;
  message : bytes;
}.

Definition to_input (o : t) : StreamErrorInput.t :=
  StreamErrorInput.mk (code o) (message o).

Definition from_input (i : StreamErrorInput.t) : t :=
  mk 240 (StreamErrorInput.code i) (StreamErrorInput.message i).

Definition encode_into (self : t) : Encode := StreamErrorInput.encode_into (to_input self).
Definition encode (self : t) : result BinSchemaError bytes := StreamErrorInput.encode (to_input self).

Definition decode_with_decoder : Read t :=
  let! tag := read_byte in
  let! ok := expect 240 tag in
  let! code := read_u16_be in
  let! length := read_u16_be in
  let! bytes := read_bytes_vec length in
  let! message := from_utf8 bytes in
  ret (mk tag code message).

Definition decode (l : bytes) : result BinSchemaError t := decode_with decode_with_decoder l.

(** The messages the wire can represent. *)
Definition wf (self : t) : bool :=
  const_ok 240 (tag self)
  && u_ok 16 (code self)
  && utf8_ok 16 (message self).

Lemma StreamErrorOutput_carried (self : t) : wf self = true -> carries (encode_into self)
  decode_with_decoder self.
Proof. destruct self. unfold encode_into, StreamErrorInput.encode_into, to_input,
  decode_with_decoder, wf. cbn [tag code message StreamErrorInput.code StreamErrorInput.message].
  codec. Qed.

Lemma StreamErrorOutput_refuses : rejects decode_with_decoder 240.
Proof. apply rejects_tag. Qed.
End StreamErrorOutput.
#[export] Hint Resolve StreamErrorOutput.StreamErrorOutput_carried : codec.

Module QueryFrameMsg.
Inductive t :=
| QueryRequest (v : QueryRequestOutput.t)
| LabelNamesRequest (v : LabelNamesRequestOutput.t)
| LabelValuesRequest (v : LabelValuesRequestOutput.t)
| FleetStatusRequest (v : FleetStatusRequestOutput.t)
| IssueListRequest (v : IssueListRequestOutput.t)
| IssueOccurrencesRequest (v : IssueOccurrencesRequestOutput.t)
| SchemaMsg (v : SchemaMsgOutput.t)
| BatchMsg (v : BatchMsgOutput.t)
| ResponseSuperseded (v : ResponseSupersededOutput.t)
| QueryStats (v : QueryStatsOutput.t)
| EndOfStream (v : EndOfStreamOutput.t)
| LabelNamesResponse (v : LabelNamesResponseOutput.t)
| LabelValuesResponse (v : LabelValuesResponseOutput.t)
| FleetStatusResponse (v : FleetStatusResponseOutput.t)
| IssueListResponse (v : IssueListResponseOutput.t)
| IssueOccurrencesResponse (v : IssueOccurrencesResponseOutput.t)
| StreamError (v : StreamErrorOutput.t).

Definition encode_into (self : t) : Encode :=
  match self with
  | QueryRequest v =>
      put write_uint8 1 >>
      put write_uint8 (QueryRequestOutput.signal v) >>
      put uint16_be (cast_u16 (zlen (QueryRequestOutput.matchers v))) >>
      for_each Matcher.encode_into (QueryRequestOutput.matchers v) >>
      put write_uint8 (QueryRequestOutput.ts_min_present v) >>
      put uint64_be (QueryRequestOutput.ts_min v) >>
      put write_uint8 (QueryRequestOutput.ts_max_present v) >>
      put uint64_be (QueryRequestOutput.ts_max v) >>
      put uint32_be (cast_u32 (zlen (QueryRequestOutput.sql v))) >>
      put_bytes write_uint8 (QueryRequestOutput.sql v) >>
      put uint64_be (QueryRequestOutput.limit v) >>
      put uint16_be (cast_u16 (zlen (chars (QueryRequestOutput.request_id v)))) >>
      put_bytes write_uint8 (char_bytes (QueryRequestOutput.request_id v)) >>
      put uint16_be (cast_u16 (zlen (QueryRequestOutput.trace_id v))) >>
      put_bytes write_uint8 (QueryRequestOutput.trace_id v) >>
      put uint32_be (cast_u32 (zlen (QueryRequestOutput.body_contains v))) >>
      put_bytes write_uint8 (QueryRequestOutput.body_contains v) >>
      put write_uint8 (QueryRequestOutput.live v) >>
      put write_uint8 (QueryRequestOutput.with_labels v) >>
      put uint32_be (QueryRequestOutput.capabilities v) >>
      ok_unit
  | LabelNamesRequest v =>
      put write_uint8 2 >>
      put write_uint8 (LabelNamesRequestOutput.signal v) >>
      put write_uint8 (LabelNamesRequestOutput.ts_min_present v) >>
      put uint64_be (LabelNamesRequestOutput.ts_min v) >>
      put write_uint8 (LabelNamesRequestOutput.ts_max_present v) >>
      put uint64_be (LabelNamesRequestOutput.ts_max v) >>
      put uint32_be (LabelNamesRequestOutput.capabilities v) >>
      ok_unit
  | LabelValuesRequest v =>
      put write_uint8 3 >>
      put write_uint8 (LabelValuesRequestOutput.signal v) >>
      put uint16_be (cast_u16 (zlen (LabelValuesRequestOutput.label_name v))) >>
      put_bytes write_uint8 (LabelValuesRequestOutput.label_name v) >>
      put write_uint8 (LabelValuesRequestOutput.ts_min_present v) >>
      put uint64_be (LabelValuesRequestOutput.ts_min v) >>
      put write_uint8 (LabelValuesRequestOutput.ts_max_present v) >>
      put uint64_be (LabelValuesRequestOutput.ts_max v) >>
      put uint32_be (LabelValuesRequestOutput.capabilities v) >>
      ok_unit
  | FleetStatusRequest v =>
      put write_uint8 4 >>
      ok_unit
  | IssueListRequest v =>
      put write_uint8 5 >>
      put uint32_be (IssueListRequestOutput.limit v) >>
      ok_unit
  | IssueOccurrencesRequest v =>
      put write_uint8 6 >>
      put uint16_be (cast_u16 (zlen (IssueOccurrencesRequestOutput.issue_id v))) >>
      put_bytes write_uint8 (IssueOccurrencesRequestOutput.issue_id v) >>
      put uint32_be (IssueOccurrencesRequestOutput.limit v) >>
      ok_unit
  | SchemaMsg v =>
      put write_uint8 16 >>
      put uint32_be (cast_u32 (zlen (SchemaMsgOutput.ipc_bytes v))) >>
      put_bytes write_uint8 (SchemaMsgOutput.ipc_bytes v) >>
      ok_unit
  | BatchMsg v =>
      put write_uint8 17 >>
      put uint32_be (cast_u32 (zlen (BatchMsgOutput.ipc_bytes v))) >>
      put_bytes write_uint8 (BatchMsgOutput.ipc_bytes v) >>
      ok_unit
  | ResponseSuperseded v =>
      put write_uint8 18 >>
      put uint32_be (ResponseSupersededOutput.superseded_attempt v) >>
      put uint32_be (ResponseSupersededOutput.next_attempt v) >>
      put write_uint8 (ResponseSupersededOutput.reason v) >>
      ok_unit
  | QueryStats v =>
      put write_uint8 30 >>
      put uint64_be (QueryStatsOutput.server_total_us v) >>
      put uint64_be (QueryStatsOutput.admission_wait_us v) >>
      put uint64_be (QueryStatsOutput.catalog_us v) >>
      put uint64_be (QueryStatsOutput.cache_lookup_us v) >>
      put uint64_be (QueryStatsOutput.live_fetch_us v) >>
      put uint64_be (QueryStatsOutput.register_us v) >>
      put uint64_be (QueryStatsOutput.plan_us v) >>
      put uint64_be (QueryStatsOutput.execute_us v) >>
      put uint64_be (QueryStatsOutput.serialize_us v) >>
      put uint64_be (QueryStatsOutput.write_us v) >>
      put uint64_be (QueryStatsOutput.postings_fetch_us v) >>
      put uint64_be (QueryStatsOutput.bloom_fetch_us v) >>
      put uint64_be (QueryStatsOutput.df_opening_us v) >>
      put uint64_be (QueryStatsOutput.df_scanning_us v) >>
      put uint64_be (QueryStatsOutput.df_compute_us v) >>
      put write_uint8 (QueryStatsOutput.cache_hit v) >>
      put uint32_be (QueryStatsOutput.attempts v) >>
      put uint32_be (QueryStatsOutput.blocks_considered v) >>
      put uint32_be (QueryStatsOutput.blocks_scanned v) >>
      put uint64_be (QueryStatsOutput.bytes_scanned v) >>
      put uint16_be (cast_u16 (zlen (chars (QueryStatsOutput.node_id v)))) >>
      put_bytes write_uint8 (char_bytes (QueryStatsOutput.node_id v)) >>
      put uint16_be (cast_u16 (zlen (QueryStatsOutput.live_nodes v))) >>
      for_each LiveNodeTiming.encode_into (QueryStatsOutput.live_nodes v) >>
      ok_unit
  | EndOfStream v =>
      put write_uint8 31 >>
      put uint64_be (EndOfStreamOutput.total_rows v) >>
      ok_unit
  | LabelNamesResponse v =>
      put write_uint8 32 >>
      put uint32_be (cast_u32 (zlen (LabelNamesResponseOutput.names v))) >>
       for_each (fun item => put uint16_be (cast_u16 (zlen item)) >> put_bytes write_uint8 item)
        (LabelNamesResponseOutput.names v) >>
      ok_unit
  | LabelValuesResponse v =>
      put write_uint8 33 >>
      put uint32_be (cast_u32 (zlen (LabelValuesResponseOutput.values v))) >>
       for_each (fun item => put uint16_be (cast_u16 (zlen item)) >> put_bytes write_uint8 item)
        (LabelValuesResponseOutput.values v) >>
      ok_unit
  | FleetStatusResponse v =>
      put write_uint8 34 >>
      put uint32_be (cast_u32 (zlen (FleetStatusResponseOutput.instances_json v))) >>
       for_each (fun item => put uint32_be (cast_u32 (zlen item)) >> put_bytes write_uint8 item)
        (FleetStatusResponseOutput.instances_json v) >>
      ok_unit
  | IssueListResponse v =>
      put write_uint8 35 >>
      put uint32_be (cast_u32 (zlen (IssueListResponseOutput.issues_json v))) >>
       for_each (fun item => put uint32_be (cast_u32 (zlen item)) >> put_bytes write_uint8 item)
        (IssueListResponseOutput.issues_json v) >>
      ok_unit
  | IssueOccurrencesResponse v =>
      put write_uint8 36 >>
      put uint32_be (cast_u32 (zlen (IssueOccurrencesResponseOutput.issue_json v))) >>
      put_bytes write_uint8 (IssueOccurrencesResponseOutput.issue_json v) >>
      put uint32_be (cast_u32 (zlen (IssueOccurrencesResponseOutput.occurrences_json v))) >>
       for_each (fun item => put uint32_be (cast_u32 (zlen item)) >> put_bytes write_uint8 item)
        (IssueOccurrencesResponseOutput.occurrences_json v) >>
      ok_unit
  | StreamError v =>
      put write_uint8 240 >>
      put uint16_be (StreamErrorOutput.code v) >>
      put uint16_be (cast_u16 (zlen (StreamErrorOutput.message v))) >>
      put_bytes write_uint8 (StreamErrorOutput.message v) >>
      ok_unit
  end.

Definition encode (self : t) : result BinSchemaError bytes := encode_with encode_into self.

Definition type_name (self : t) : string :=
  match self with
  | QueryRequest _ => "QueryRequest"
  | LabelNamesRequest _ => "LabelNamesRequest"
  | LabelValuesRequest _ => "LabelValuesRequest"
  | FleetStatusRequest _ => "FleetStatusRequest"
  | IssueListRequest _ => "IssueListRequest"
  | IssueOccurrencesRequest _ => "IssueOccurrencesRequest"
  | SchemaMsg _ => "SchemaMsg"
  | BatchMsg _ => "BatchMsg"
  | ResponseSuperseded _ => "ResponseSuperseded"
  | QueryStats _ => "QueryStats"
  | EndOfStream _ => "EndOfStream"
  | LabelNamesResponse _ => "LabelNamesResponse"
  | LabelValuesResponse _ => "LabelValuesResponse"
  | FleetStatusResponse _ => "FleetStatusResponse"
  | IssueListResponse _ => "IssueListResponse"
  | IssueOccurrencesResponse _ => "IssueOccurrencesResponse"
  | StreamError _ => "StreamError"
  end.

Definition decode_with_decoder : Read t := fun d =>
  let start_pos := position d in
  (try_variant start_pos QueryRequestOutput.decode_with_decoder QueryRequest
  (try_variant start_pos LabelNamesRequestOutput.decode_with_decoder LabelNamesRequest
  (try_variant start_pos LabelValuesRequestOutput.decode_with_decoder LabelValuesRequest
  (try_variant start_pos FleetStatusRequestOutput.decode_with_decoder FleetStatusRequest
  (try_variant start_pos IssueListRequestOutput.decode_with_decoder IssueListRequest
  (try_variant start_pos IssueOccurrencesRequestOutput.decode_with_decoder IssueOccurrencesRequest
  (try_variant start_pos SchemaMsgOutput.decode_with_decoder SchemaMsg
  (try_variant start_pos BatchMsgOutput.decode_with_decoder BatchMsg
  (try_variant start_pos ResponseSupersededOutput.decode_with_decoder ResponseSuperseded
  (try_variant start_pos QueryStatsOutput.decode_with_decoder QueryStats
  (try_variant start_pos EndOfStreamOutput.decode_with_decoder EndOfStream
  (try_variant start_pos LabelNamesResponseOutput.decode_with_decoder LabelNamesResponse
  (try_variant start_pos LabelValuesResponseOutput.decode_with_decoder LabelValuesResponse
  (try_variant start_pos FleetStatusResponseOutput.decode_with_decoder FleetStatusResponse
  (try_variant start_pos IssueListResponseOutput.decode_with_decoder IssueListResponse
  (try_variant start_pos IssueOccurrencesResponseOutput.decode_with_decoder IssueOccurrencesResponse
  (last_variant StreamErrorOutput.decode_with_decoder StreamError))))))))))))))))) d.

Definition decode (l : bytes) : result BinSchemaError t := decode_with decode_with_decoder l.

Definition wf (self : t) : bool :=
  match self with
  | QueryRequest v => QueryRequestOutput.wf v
  | LabelNamesRequest v => LabelNamesRequestOutput.wf v
  | LabelValuesRequest v => LabelValuesRequestOutput.wf v
  | FleetStatusRequest v => FleetStatusRequestOutput.wf v
  | IssueListRequest v => IssueListRequestOutput.wf v
  | IssueOccurrencesRequest v => IssueOccurrencesRequestOutput.wf v
  | SchemaMsg v => SchemaMsgOutput.wf v
  | BatchMsg v => BatchMsgOutput.wf v
  | ResponseSuperseded v => ResponseSupersededOutput.wf v
  | QueryStats v => QueryStatsOutput.wf v
  | EndOfStream v => EndOfStreamOutput.wf v
  | LabelNamesResponse v => LabelNamesResponseOutput.wf v
  | LabelValuesResponse v => LabelValuesResponseOutput.wf v
  | FleetStatusResponse v => FleetStatusResponseOutput.wf v
  | IssueListResponse v => IssueListResponseOutput.wf v
  | IssueOccurrencesResponse v => IssueOccurrencesResponseOutput.wf v
  | StreamError v => StreamErrorOutput.wf v
  end.

Lemma QueryFrameMsg_arm_QueryRequest (v : QueryRequestOutput.t) :
   QueryRequestOutput.wf v = true -> carries_tag 1 (encode_into (QueryRequest v))
    QueryRequestOutput.decode_with_decoder v.
Proof. destruct v. unfold encode_into, QueryRequestOutput.decode_with_decoder,
  QueryRequestOutput.wf. cbn [QueryRequestOutput.tag QueryRequestOutput.signal
  QueryRequestOutput.matchers QueryRequestOutput.ts_min_present QueryRequestOutput.ts_min
  QueryRequestOutput.ts_max_present QueryRequestOutput.ts_max QueryRequestOutput.sql
  QueryRequestOutput.limit QueryRequestOutput.request_id QueryRequestOutput.trace_id
  QueryRequestOutput.body_contains QueryRequestOutput.live QueryRequestOutput.with_labels
  QueryRequestOutput.capabilities]. codec_arm. Qed.

Lemma QueryFrameMsg_arm_LabelNamesRequest (v : LabelNamesRequestOutput.t) :
   LabelNamesRequestOutput.wf v = true -> carries_tag 2 (encode_into (LabelNamesRequest v))
    LabelNamesRequestOutput.decode_with_decoder v.
Proof. destruct v. unfold encode_into, LabelNamesRequestOutput.decode_with_decoder,
  LabelNamesRequestOutput.wf. cbn [LabelNamesRequestOutput.tag LabelNamesRequestOutput.signal
  LabelNamesRequestOutput.ts_min_present LabelNamesRequestOutput.ts_min
  LabelNamesRequestOutput.ts_max_present LabelNamesRequestOutput.ts_max
  LabelNamesRequestOutput.capabilities]. codec_arm. Qed.

Lemma QueryFrameMsg_arm_LabelValuesRequest (v : LabelValuesRequestOutput.t) :
   LabelValuesRequestOutput.wf v = true -> carries_tag 3 (encode_into (LabelValuesRequest v))
    LabelValuesRequestOutput.decode_with_decoder v.
Proof. destruct v. unfold encode_into, LabelValuesRequestOutput.decode_with_decoder,
  LabelValuesRequestOutput.wf. cbn [LabelValuesRequestOutput.tag LabelValuesRequestOutput.signal
  LabelValuesRequestOutput.label_name LabelValuesRequestOutput.ts_min_present
  LabelValuesRequestOutput.ts_min LabelValuesRequestOutput.ts_max_present
  LabelValuesRequestOutput.ts_max LabelValuesRequestOutput.capabilities]. codec_arm. Qed.

Lemma QueryFrameMsg_arm_FleetStatusRequest (v : FleetStatusRequestOutput.t) :
   FleetStatusRequestOutput.wf v = true -> carries_tag 4 (encode_into (FleetStatusRequest v))
    FleetStatusRequestOutput.decode_with_decoder v.
Proof. destruct v. unfold encode_into, FleetStatusRequestOutput.decode_with_decoder,
  FleetStatusRequestOutput.wf. cbn [FleetStatusRequestOutput.tag]. codec_arm. Qed.

Lemma QueryFrameMsg_arm_IssueListRequest (v : IssueListRequestOutput.t) :
   IssueListRequestOutput.wf v = true -> carries_tag 5 (encode_into (IssueListRequest v))
    IssueListRequestOutput.decode_with_decoder v.
Proof. destruct v. unfold encode_into, IssueListRequestOutput.decode_with_decoder,
  IssueListRequestOutput.wf. cbn [IssueListRequestOutput.tag IssueListRequestOutput.limit].
  codec_arm. Qed.

Lemma QueryFrameMsg_arm_IssueOccurrencesRequest (v : IssueOccurrencesRequestOutput.t) :
   IssueOccurrencesRequestOutput.wf v = true -> carries_tag 6 (encode_into (IssueOccurrencesRequest
    v)) IssueOccurrencesRequestOutput.decode_with_decoder v.
Proof. destruct v. unfold encode_into, IssueOccurrencesRequestOutput.decode_with_decoder,
  IssueOccurrencesRequestOutput.wf. cbn [IssueOccurrencesRequestOutput.tag
  IssueOccurrencesRequestOutput.issue_id IssueOccurrencesRequestOutput.limit]. codec_arm. Qed.

Lemma QueryFrameMsg_arm_SchemaMsg (v : SchemaMsgOutput.t) :
   SchemaMsgOutput.wf v = true -> carries_tag 16 (encode_into (SchemaMsg v))
    SchemaMsgOutput.decode_with_decoder v.
Proof. destruct v. unfold encode_into, SchemaMsgOutput.decode_with_decoder, SchemaMsgOutput.wf. cbn
  [SchemaMsgOutput.tag SchemaMsgOutput.ipc_bytes]. codec_arm. Qed.

Lemma QueryFrameMsg_arm_BatchMsg (v : BatchMsgOutput.t) :
   BatchMsgOutput.wf v = true -> carries_tag 17 (encode_into (BatchMsg v))
    BatchMsgOutput.decode_with_decoder v.
Proof. destruct v. unfold encode_into, BatchMsgOutput.decode_with_decoder, BatchMsgOutput.wf. cbn
  [BatchMsgOutput.tag BatchMsgOutput.ipc_bytes]. codec_arm. Qed.

Lemma QueryFrameMsg_arm_ResponseSuperseded (v : ResponseSupersededOutput.t) :
   ResponseSupersededOutput.wf v = true -> carries_tag 18 (encode_into (ResponseSuperseded v))
    ResponseSupersededOutput.decode_with_decoder v.
Proof. destruct v. unfold encode_into, ResponseSupersededOutput.decode_with_decoder,
  ResponseSupersededOutput.wf. cbn [ResponseSupersededOutput.tag
  ResponseSupersededOutput.superseded_attempt ResponseSupersededOutput.next_attempt
  ResponseSupersededOutput.reason]. codec_arm. Qed.

Lemma QueryFrameMsg_arm_QueryStats (v : QueryStatsOutput.t) :
   QueryStatsOutput.wf v = true -> carries_tag 30 (encode_into (QueryStats v))
    QueryStatsOutput.decode_with_decoder v.
Proof. destruct v. unfold encode_into, QueryStatsOutput.decode_with_decoder, QueryStatsOutput.wf.
  cbn [QueryStatsOutput.tag QueryStatsOutput.server_total_us QueryStatsOutput.admission_wait_us
  QueryStatsOutput.catalog_us QueryStatsOutput.cache_lookup_us QueryStatsOutput.live_fetch_us
  QueryStatsOutput.register_us QueryStatsOutput.plan_us QueryStatsOutput.execute_us
  QueryStatsOutput.serialize_us QueryStatsOutput.write_us QueryStatsOutput.postings_fetch_us
  QueryStatsOutput.bloom_fetch_us QueryStatsOutput.df_opening_us QueryStatsOutput.df_scanning_us
  QueryStatsOutput.df_compute_us QueryStatsOutput.cache_hit QueryStatsOutput.attempts
  QueryStatsOutput.blocks_considered QueryStatsOutput.blocks_scanned QueryStatsOutput.bytes_scanned
  QueryStatsOutput.node_id QueryStatsOutput.live_nodes]. codec_arm. Qed.

Lemma QueryFrameMsg_arm_EndOfStream (v : EndOfStreamOutput.t) :
   EndOfStreamOutput.wf v = true -> carries_tag 31 (encode_into (EndOfStream v))
    EndOfStreamOutput.decode_with_decoder v.
Proof. destruct v. unfold encode_into, EndOfStreamOutput.decode_with_decoder, EndOfStreamOutput.wf.
  cbn [EndOfStreamOutput.tag EndOfStreamOutput.total_rows]. codec_arm. Qed.

Lemma QueryFrameMsg_arm_LabelNamesResponse (v : LabelNamesResponseOutput.t) :
   LabelNamesResponseOutput.wf v = true -> carries_tag 32 (encode_into (LabelNamesResponse v))
    LabelNamesResponseOutput.decode_with_decoder v.
Proof. destruct v. unfold encode_into, LabelNamesResponseOutput.decode_with_decoder,
  LabelNamesResponseOutput.wf. cbn [LabelNamesResponseOutput.tag LabelNamesResponseOutput.names].
  codec_arm. Qed.

Lemma QueryFrameMsg_arm_LabelValuesResponse (v : LabelValuesResponseOutput.t) :
   LabelValuesResponseOutput.wf v = true -> carries_tag 33 (encode_into (LabelValuesResponse v))
    LabelValuesResponseOutput.decode_with_decoder v.
Proof. destruct v. unfold encode_into, LabelValuesResponseOutput.decode_with_decoder,
  LabelValuesResponseOutput.wf. cbn [LabelValuesResponseOutput.tag
  LabelValuesResponseOutput.values]. codec_arm. Qed.

Lemma QueryFrameMsg_arm_FleetStatusResponse (v : FleetStatusResponseOutput.t) :
   FleetStatusResponseOutput.wf v = true -> carries_tag 34 (encode_into (FleetStatusResponse v))
    FleetStatusResponseOutput.decode_with_decoder v.
Proof. destruct v. unfold encode_into, FleetStatusResponseOutput.decode_with_decoder,
  FleetStatusResponseOutput.wf. cbn [FleetStatusResponseOutput.tag
  FleetStatusResponseOutput.instances_json]. codec_arm. Qed.

Lemma QueryFrameMsg_arm_IssueListResponse (v : IssueListResponseOutput.t) :
   IssueListResponseOutput.wf v = true -> carries_tag 35 (encode_into (IssueListResponse v))
    IssueListResponseOutput.decode_with_decoder v.
Proof. destruct v. unfold encode_into, IssueListResponseOutput.decode_with_decoder,
  IssueListResponseOutput.wf. cbn [IssueListResponseOutput.tag IssueListResponseOutput.issues_json].
  codec_arm. Qed.

Lemma QueryFrameMsg_arm_IssueOccurrencesResponse (v : IssueOccurrencesResponseOutput.t) :
   IssueOccurrencesResponseOutput.wf v = true -> carries_tag 36 (encode_into
    (IssueOccurrencesResponse v)) IssueOccurrencesResponseOutput.decode_with_decoder v.
Proof. destruct v. unfold encode_into, IssueOccurrencesResponseOutput.decode_with_decoder,
  IssueOccurrencesResponseOutput.wf. cbn [IssueOccurrencesResponseOutput.tag
  IssueOccurrencesResponseOutput.issue_json IssueOccurrencesResponseOutput.occurrences_json].
  codec_arm. Qed.

Lemma QueryFrameMsg_arm_StreamError (v : StreamErrorOutput.t) :
   StreamErrorOutput.wf v = true -> carries_tag 240 (encode_into (StreamError v))
    StreamErrorOutput.decode_with_decoder v.
Proof. destruct v. unfold encode_into, StreamErrorOutput.decode_with_decoder, StreamErrorOutput.wf.
  cbn [StreamErrorOutput.tag StreamErrorOutput.code StreamErrorOutput.message]. codec_arm. Qed.

Lemma QueryFrameMsg_carried (self : t) : wf self = true -> carries (encode_into self)
  decode_with_decoder self.
Proof.
  destruct self as [v|v|v|v|v|v|v|v|v|v|v|v|v|v|v|v|v]; unfold wf, decode_with_decoder; intros H.
  - union (QueryFrameMsg_arm_QueryRequest v H) ltac:(idtac).
   - union (QueryFrameMsg_arm_LabelNamesRequest v H) ltac:(skip
    QueryRequestOutput.QueryRequestOutput_refuses).
   - union (QueryFrameMsg_arm_LabelValuesRequest v H) ltac:(skip
    QueryRequestOutput.QueryRequestOutput_refuses; skip
    LabelNamesRequestOutput.LabelNamesRequestOutput_refuses).
   - union (QueryFrameMsg_arm_FleetStatusRequest v H) ltac:(skip
    QueryRequestOutput.QueryRequestOutput_refuses; skip
    LabelNamesRequestOutput.LabelNamesRequestOutput_refuses; skip
    LabelValuesRequestOutput.LabelValuesRequestOutput_refuses).
   - union (QueryFrameMsg_arm_IssueListRequest v H) ltac:(skip
    QueryRequestOutput.QueryRequestOutput_refuses; skip
    LabelNamesRequestOutput.LabelNamesRequestOutput_refuses; skip
    LabelValuesRequestOutput.LabelValuesRequestOutput_refuses; skip
    FleetStatusRequestOutput.FleetStatusRequestOutput_refuses).
   - union (QueryFrameMsg_arm_IssueOccurrencesRequest v H) ltac:(skip
    QueryRequestOutput.QueryRequestOutput_refuses; skip
    LabelNamesRequestOutput.LabelNamesRequestOutput_refuses; skip
    LabelValuesRequestOutput.LabelValuesRequestOutput_refuses; skip
    FleetStatusRequestOutput.FleetStatusRequestOutput_refuses; skip
    IssueListRequestOutput.IssueListRequestOutput_refuses).
   - union (QueryFrameMsg_arm_SchemaMsg v H) ltac:(skip
    QueryRequestOutput.QueryRequestOutput_refuses; skip
    LabelNamesRequestOutput.LabelNamesRequestOutput_refuses; skip
    LabelValuesRequestOutput.LabelValuesRequestOutput_refuses; skip
    FleetStatusRequestOutput.FleetStatusRequestOutput_refuses; skip
    IssueListRequestOutput.IssueListRequestOutput_refuses; skip
    IssueOccurrencesRequestOutput.IssueOccurrencesRequestOutput_refuses).
   - union (QueryFrameMsg_arm_BatchMsg v H) ltac:(skip
    QueryRequestOutput.QueryRequestOutput_refuses; skip
    LabelNamesRequestOutput.LabelNamesRequestOutput_refuses; skip
    LabelValuesRequestOutput.LabelValuesRequestOutput_refuses; skip
    FleetStatusRequestOutput.FleetStatusRequestOutput_refuses; skip
    IssueListRequestOutput.IssueListRequestOutput_refuses; skip
    IssueOccurrencesRequestOutput.IssueOccurrencesRequestOutput_refuses; skip
    SchemaMsgOutput.SchemaMsgOutput_refuses).
   - union (QueryFrameMsg_arm_ResponseSuperseded v H) ltac:(skip
    QueryRequestOutput.QueryRequestOutput_refuses; skip
    LabelNamesRequestOutput.LabelNamesRequestOutput_refuses; skip
    LabelValuesRequestOutput.LabelValuesRequestOutput_refuses; skip
    FleetStatusRequestOutput.FleetStatusRequestOutput_refuses; skip
    IssueListRequestOutput.IssueListRequestOutput_refuses; skip
    IssueOccurrencesRequestOutput.IssueOccurrencesRequestOutput_refuses; skip
    SchemaMsgOutput.SchemaMsgOutput_refuses; skip BatchMsgOutput.BatchMsgOutput_refuses).
   - union (QueryFrameMsg_arm_QueryStats v H) ltac:(skip
    QueryRequestOutput.QueryRequestOutput_refuses; skip
    LabelNamesRequestOutput.LabelNamesRequestOutput_refuses; skip
    LabelValuesRequestOutput.LabelValuesRequestOutput_refuses; skip
    FleetStatusRequestOutput.FleetStatusRequestOutput_refuses; skip
    IssueListRequestOutput.IssueListRequestOutput_refuses; skip
    IssueOccurrencesRequestOutput.IssueOccurrencesRequestOutput_refuses; skip
    SchemaMsgOutput.SchemaMsgOutput_refuses; skip BatchMsgOutput.BatchMsgOutput_refuses; skip
    ResponseSupersededOutput.ResponseSupersededOutput_refuses).
   - union (QueryFrameMsg_arm_EndOfStream v H) ltac:(skip
    QueryRequestOutput.QueryRequestOutput_refuses; skip
    LabelNamesRequestOutput.LabelNamesRequestOutput_refuses; skip
    LabelValuesRequestOutput.LabelValuesRequestOutput_refuses; skip
    FleetStatusRequestOutput.FleetStatusRequestOutput_refuses; skip
    IssueListRequestOutput.IssueListRequestOutput_refuses; skip
    IssueOccurrencesRequestOutput.IssueOccurrencesRequestOutput_refuses; skip
    SchemaMsgOutput.SchemaMsgOutput_refuses; skip BatchMsgOutput.BatchMsgOutput_refuses; skip
    ResponseSupersededOutput.ResponseSupersededOutput_refuses; skip
    QueryStatsOutput.QueryStatsOutput_refuses).
   - union (QueryFrameMsg_arm_LabelNamesResponse v H) ltac:(skip
    QueryRequestOutput.QueryRequestOutput_refuses; skip
    LabelNamesRequestOutput.LabelNamesRequestOutput_refuses; skip
    LabelValuesRequestOutput.LabelValuesRequestOutput_refuses; skip
    FleetStatusRequestOutput.FleetStatusRequestOutput_refuses; skip
    IssueListRequestOutput.IssueListRequestOutput_refuses; skip
    IssueOccurrencesRequestOutput.IssueOccurrencesRequestOutput_refuses; skip
    SchemaMsgOutput.SchemaMsgOutput_refuses; skip BatchMsgOutput.BatchMsgOutput_refuses; skip
    ResponseSupersededOutput.ResponseSupersededOutput_refuses; skip
    QueryStatsOutput.QueryStatsOutput_refuses; skip EndOfStreamOutput.EndOfStreamOutput_refuses).
   - union (QueryFrameMsg_arm_LabelValuesResponse v H) ltac:(skip
    QueryRequestOutput.QueryRequestOutput_refuses; skip
    LabelNamesRequestOutput.LabelNamesRequestOutput_refuses; skip
    LabelValuesRequestOutput.LabelValuesRequestOutput_refuses; skip
    FleetStatusRequestOutput.FleetStatusRequestOutput_refuses; skip
    IssueListRequestOutput.IssueListRequestOutput_refuses; skip
    IssueOccurrencesRequestOutput.IssueOccurrencesRequestOutput_refuses; skip
    SchemaMsgOutput.SchemaMsgOutput_refuses; skip BatchMsgOutput.BatchMsgOutput_refuses; skip
    ResponseSupersededOutput.ResponseSupersededOutput_refuses; skip
    QueryStatsOutput.QueryStatsOutput_refuses; skip EndOfStreamOutput.EndOfStreamOutput_refuses;
    skip LabelNamesResponseOutput.LabelNamesResponseOutput_refuses).
   - union (QueryFrameMsg_arm_FleetStatusResponse v H) ltac:(skip
    QueryRequestOutput.QueryRequestOutput_refuses; skip
    LabelNamesRequestOutput.LabelNamesRequestOutput_refuses; skip
    LabelValuesRequestOutput.LabelValuesRequestOutput_refuses; skip
    FleetStatusRequestOutput.FleetStatusRequestOutput_refuses; skip
    IssueListRequestOutput.IssueListRequestOutput_refuses; skip
    IssueOccurrencesRequestOutput.IssueOccurrencesRequestOutput_refuses; skip
    SchemaMsgOutput.SchemaMsgOutput_refuses; skip BatchMsgOutput.BatchMsgOutput_refuses; skip
    ResponseSupersededOutput.ResponseSupersededOutput_refuses; skip
    QueryStatsOutput.QueryStatsOutput_refuses; skip EndOfStreamOutput.EndOfStreamOutput_refuses;
    skip LabelNamesResponseOutput.LabelNamesResponseOutput_refuses; skip
    LabelValuesResponseOutput.LabelValuesResponseOutput_refuses).
   - union (QueryFrameMsg_arm_IssueListResponse v H) ltac:(skip
    QueryRequestOutput.QueryRequestOutput_refuses; skip
    LabelNamesRequestOutput.LabelNamesRequestOutput_refuses; skip
    LabelValuesRequestOutput.LabelValuesRequestOutput_refuses; skip
    FleetStatusRequestOutput.FleetStatusRequestOutput_refuses; skip
    IssueListRequestOutput.IssueListRequestOutput_refuses; skip
    IssueOccurrencesRequestOutput.IssueOccurrencesRequestOutput_refuses; skip
    SchemaMsgOutput.SchemaMsgOutput_refuses; skip BatchMsgOutput.BatchMsgOutput_refuses; skip
    ResponseSupersededOutput.ResponseSupersededOutput_refuses; skip
    QueryStatsOutput.QueryStatsOutput_refuses; skip EndOfStreamOutput.EndOfStreamOutput_refuses;
    skip LabelNamesResponseOutput.LabelNamesResponseOutput_refuses; skip
    LabelValuesResponseOutput.LabelValuesResponseOutput_refuses; skip
    FleetStatusResponseOutput.FleetStatusResponseOutput_refuses).
   - union (QueryFrameMsg_arm_IssueOccurrencesResponse v H) ltac:(skip
    QueryRequestOutput.QueryRequestOutput_refuses; skip
    LabelNamesRequestOutput.LabelNamesRequestOutput_refuses; skip
    LabelValuesRequestOutput.LabelValuesRequestOutput_refuses; skip
    FleetStatusRequestOutput.FleetStatusRequestOutput_refuses; skip
    IssueListRequestOutput.IssueListRequestOutput_refuses; skip
    IssueOccurrencesRequestOutput.IssueOccurrencesRequestOutput_refuses; skip
    SchemaMsgOutput.SchemaMsgOutput_refuses; skip BatchMsgOutput.BatchMsgOutput_refuses; skip
    ResponseSupersededOutput.ResponseSupersededOutput_refuses; skip
    QueryStatsOutput.QueryStatsOutput_refuses; skip EndOfStreamOutput.EndOfStreamOutput_refuses;
    skip LabelNamesResponseOutput.LabelNamesResponseOutput_refuses; skip
    LabelValuesResponseOutput.LabelValuesResponseOutput_refuses; skip
    FleetStatusResponseOutput.FleetStatusResponseOutput_refuses; skip
    IssueListResponseOutput.IssueListResponseOutput_refuses).
   - union (QueryFrameMsg_arm_StreamError v H) ltac:(skip
    QueryRequestOutput.QueryRequestOutput_refuses; skip
    LabelNamesRequestOutput.LabelNamesRequestOutput_refuses; skip
    LabelValuesRequestOutput.LabelValuesRequestOutput_refuses; skip
    FleetStatusRequestOutput.FleetStatusRequestOutput_refuses; skip
    IssueListRequestOutput.IssueListRequestOutput_refuses; skip
    IssueOccurrencesRequestOutput.IssueOccurrencesRequestOutput_refuses; skip
    SchemaMsgOutput.SchemaMsgOutput_refuses; skip BatchMsgOutput.BatchMsgOutput_refuses; skip
    ResponseSupersededOutput.ResponseSupersededOutput_refuses; skip
    QueryStatsOutput.QueryStatsOutput_refuses; skip EndOfStreamOutput.EndOfStreamOutput_refuses;
    skip LabelNamesResponseOutput.LabelNamesResponseOutput_refuses; skip
    LabelValuesResponseOutput.LabelValuesResponseOutput_refuses; skip
    FleetStatusResponseOutput.FleetStatusResponseOutput_refuses; skip
    IssueListResponseOutput.IssueListResponseOutput_refuses; skip
    IssueOccurrencesResponseOutput.IssueOccurrencesResponseOutput_refuses).
Qed.
End QueryFrameMsg.
#[export] Hint Resolve QueryFrameMsg.QueryFrameMsg_carried : codec.

Module QueryFrame.
Record t := mk {
  msg : QueryFrameMsg.t;
}.

Definition encode_into (self : t) : Encode :=
  QueryFrameMsg.encode_into (msg self) >>
  ok_unit.

Definition encode (self : t) : result BinSchemaError bytes := encode_with encode_into self.

Definition decode_with_decoder : Read t :=
  let! msg := QueryFrameMsg.decode_with_decoder in
  ret (mk msg).

Definition decode (l : bytes) : result BinSchemaError t := decode_with decode_with_decoder l.

(** The messages the wire can represent. *)
Definition wf (self : t) : bool :=
  QueryFrameMsg.wf (msg self).

Lemma QueryFrame_carried (self : t) : wf self = true -> carries (encode_into self)
  decode_with_decoder self.
Proof. destruct self. unfold encode_into, decode_with_decoder, wf. cbn [msg]. codec. Qed.
End QueryFrame.
#[export] Hint Resolve QueryFrame.QueryFrame_carried : codec.
