(* ===== verification/WireWorker.v ===== *)
(** * The protocol between query coordinator and workers

    [crates/proto/src/generated_query_worker.rs]: one module per Rust type, with its fields in order,
    [encode_into], [decode_with_decoder] and the conversions between the input and
    output forms, each statement in its place.  A [u8..u64], [i32] or [i64] is a [Z],
    an [f64] its bits, a [String] or [Vec<u8>] its bytes.  [wf] says which values the
    wire can represent: every length fits its prefix, fixed-size fields have their
    size, strings are well formed.  [carried]: such a value is read back as it was
    written, whatever surrounds it in the stream. *)

From stdpp Require Import pretty.
From S2P Require Import Prelude Bytes Utf8 BitStream Codec.

Module WorkerClientHelloInput.
Record t := mk {
  protocol_version : Z;
  coordinator_id : bytes;
  expected_worker_id : bytes;
  deployment : bytes;
  timestamp_unix_ms : Z;
  nonce : bytes;
  key_id : bytes;
  mac : bytes;
}.

Definition encode_into (self : t) : Encode :=
  put write_byte 1 >>
  put write_u16_be (protocol_version self) >>
  put_bytes write_byte (coordinator_id self) >>
  put_bytes write_byte (expected_worker_id self) >>
  put write_u16_be (cast_u16 (zlen (deployment self))) >>
  put_bytes write_byte (deployment self) >>
  put write_u64_be (timestamp_unix_ms self) >>
  put_bytes write_byte (nonce self) >>
  put write_byte (cast_u8 (zlen (chars (key_id self)))) >>
  put_bytes write_byte (char_bytes (key_id self)) >>
  put_bytes write_byte (mac self) >>
  ok_unit.

Definition encode (self : t) : result BinSchemaError bytes := encode_with encode_into self.

End WorkerClientHelloInput.

Module WorkerClientHelloOutput.
Record t := mk {
  tag : Z;
  protocol_version : Z;
  coordinator_id : bytes;
  expected_worker_id : bytes;
  deployment : bytes;
  timestamp_unix_ms : Z;
  nonce : bytes;
  key_id : bytes;
  mac : bytes;
}.

Definition to_input (o : t) : WorkerClientHelloInput.t :=
   WorkerClientHelloInput.mk (protocol_version o) (coordinator_id o) (expected_worker_id o)
    (deployment o) (timestamp_unix_ms o) (nonce o) (key_id o) (mac o).

Definition from_input (i : WorkerClientHelloInput.t) : t :=
   mk 1 (WorkerClientHelloInput.protocol_version i) (WorkerClientHelloInput.coordinator_id i)
    (WorkerClientHelloInput.expected_worker_id i) (WorkerClientHelloInput.deployment i)
    (WorkerClientHelloInput.timestamp_unix_ms i) (WorkerClientHelloInput.nonce i)
    (WorkerClientHelloInput.key_id i) (WorkerClientHelloInput.mac i).

Definition encode_into (self : t) : Encode := WorkerClientHelloInput.encode_into (to_input self).
Definition encode (self : t) : result BinSchemaError bytes := WorkerClientHelloInput.encode
  (to_input self).

Definition decode_with_decoder : Read t :=
  let! tag := read_byte in
  let! ok := expect 1 tag in
  let! protocol_version := read_u16_be in
  let! coordinator_id := read_bytes_vec 16 in
  let! expected_worker_id := read_bytes_vec 16 in
  let! length := read_u16_be in
  let! bytes := read_bytes_vec length in
  let! deployment := from_utf8 bytes in
  let! timestamp_unix_ms := read_u64_be in
  let! nonce := read_bytes_vec 32 in
  let! length := read_byte in
  let! bytes := read_bytes_vec length in
  let key_id := ascii_string bytes in
  let! mac := read_bytes_vec 32 in
   ret (mk tag protocol_version coordinator_id expected_worker_id deployment timestamp_unix_ms nonce
    key_id mac).

Definition decode (l : bytes) : result BinSchemaError t := decode_with decode_with_decoder l.

(** The messages the wire can represent. *)
Definition wf (self : t) : bool :=
  const_ok 1 (tag self)
  && u_ok 16 (protocol_version self)
  && fixed_ok 16 (coordinator_id self)
  && fixed_ok 16 (expected_worker_id self)
  && utf8_ok 16 (deployment self)
  && u_ok 64 (timestamp_unix_ms self)
  && fixed_ok 32 (nonce self)
  && ascii_ok 8 (key_id self)
  && fixed_ok 32 (mac self).

Lemma WorkerClientHelloOutput_carried (self : t) : wf self = true -> carries (encode_into self)
  decode_with_decoder self.
Proof. destruct self. unfold encode_into, WorkerClientHelloInput.encode_into, to_input,
  decode_with_decoder, wf. cbn [tag protocol_version coordinator_id expected_worker_id deployment
  timestamp_unix_ms nonce key_id mac WorkerClientHelloInput.protocol_version
  WorkerClientHelloInput.coordinator_id WorkerClientHelloInput.expected_worker_id
  WorkerClientHelloInput.deployment WorkerClientHelloInput.timestamp_unix_ms
  WorkerClientHelloInput.nonce WorkerClientHelloInput.key_id WorkerClientHelloInput.mac]. codec.
  Qed.

Lemma WorkerClientHelloOutput_refuses : rejects decode_with_decoder 1.
Proof. apply rejects_tag. Qed.
End WorkerClientHelloOutput.
#[export] Hint Resolve WorkerClientHelloOutput.WorkerClientHelloOutput_carried : codec.

Module WorkerServerHelloInput.
Record t := mk {
  protocol_version : Z;
  worker_id : bytes;
  coordinator_nonce : bytes;
  worker_nonce : bytes;
  timestamp_unix_ms : Z;
  key_id : bytes;
  mac : bytes;
}.

Definition encode_into (self : t) : Encode :=
  put write_byte 2 >>
  put write_u16_be (protocol_version self) >>
  put_bytes write_byte (worker_id self) >>
  put_bytes write_byte (coordinator_nonce self) >>
  put_bytes write_byte (worker_nonce self) >>
  put write_u64_be (timestamp_unix_ms self) >>
  put write_byte (cast_u8 (zlen (chars (key_id self)))) >>
  put_bytes write_byte (char_bytes (key_id self)) >>
  put_bytes write_byte (mac self) >>
  ok_unit.

Definition encode (self : t) : result BinSchemaError bytes := encode_with encode_into self.

End WorkerServerHelloInput.

Module WorkerServerHelloOutput.
Record t := mk {
  tag : Z;
  protocol_version : Z;
  worker_id : bytes;
  coordinator_nonce : bytes;
  worker_nonce : bytes;
  timestamp_unix_ms : Z;
  key_id : bytes;
  mac : bytes;
}.

Definition to_input (o : t) : WorkerServerHelloInput.t :=
   WorkerServerHelloInput.mk (protocol_version o) (worker_id o) (coordinator_nonce o) (worker_nonce
    o) (timestamp_unix_ms o) (key_id o) (mac o).

Definition from_input (i : WorkerServerHelloInput.t) : t :=
   mk 2 (WorkerServerHelloInput.protocol_version i) (WorkerServerHelloInput.worker_id i)
    (WorkerServerHelloInput.coordinator_nonce i) (WorkerServerHelloInput.worker_nonce i)
    (WorkerServerHelloInput.timestamp_unix_ms i) (WorkerServerHelloInput.key_id i)
    (WorkerServerHelloInput.mac i).

Definition encode_into (self : t) : Encode := WorkerServerHelloInput.encode_into (to_input self).
Definition encode (self : t) : result BinSchemaError bytes := WorkerServerHelloInput.encode
  (to_input self).

Definition decode_with_decoder : Read t :=
  let! tag := read_byte in
  let! ok := expect 2 tag in
  let! protocol_version := read_u16_be in
  let! worker_id := read_bytes_vec 16 in
  let! coordinator_nonce := read_bytes_vec 32 in
  let! worker_nonce := read_bytes_vec 32 in
  let! timestamp_unix_ms := read_u64_be in
  let! length := read_byte in
  let! bytes := read_bytes_vec length in
  let key_id := ascii_string bytes in
  let! mac := read_bytes_vec 32 in
  ret (mk tag protocol_version worker_id coordinator_nonce worker_nonce timestamp_unix_ms key_id mac).

Definition decode (l : bytes) : result BinSchemaError t := decode_with decode_with_decoder l.

(** The messages the wire can represent. *)
Definition wf (self : t) : bool :=
  const_ok 2 (tag self)
  && u_ok 16 (protocol_version self)
  && fixed_ok 16 (worker_id self)
  && fixed_ok 32 (coordinator_nonce self)
  && fixed_ok 32 (worker_nonce self)
  && u_ok 64 (timestamp_unix_ms self)
  && ascii_ok 8 (key_id self)
  && fixed_ok 32 (mac self).

Lemma WorkerServerHelloOutput_carried (self : t) : wf self = true -> carries (encode_into self)
  decode_with_decoder self.
Proof. destruct self. unfold encode_into, WorkerServerHelloInput.encode_into, to_input,
  decode_with_decoder, wf. cbn [tag protocol_version worker_id coordinator_nonce worker_nonce
  timestamp_unix_ms key_id mac WorkerServerHelloInput.protocol_version
  WorkerServerHelloInput.worker_id WorkerServerHelloInput.coordinator_nonce
  WorkerServerHelloInput.worker_nonce WorkerServerHelloInput.timestamp_unix_ms
  WorkerServerHelloInput.key_id WorkerServerHelloInput.mac]. codec. Qed.

Lemma WorkerServerHelloOutput_refuses : rejects decode_with_decoder 2.
Proof. apply rejects_tag. Qed.
End WorkerServerHelloOutput.
#[export] Hint Resolve WorkerServerHelloOutput.WorkerServerHelloOutput_carried : codec.

Module WorkerAuthenticatedInput.
Record t := mk {
  sequence : Z;
  payload : bytes;
  mac : bytes;
}.

Definition encode_into (self : t) : Encode :=
  put write_byte 3 >>
  put write_u64_be (sequence self) >>
  put write_u32_be (cast_u32 (zlen (payload self))) >>
  put_bytes write_byte (payload self) >>
  put_bytes write_byte (mac self) >>
  ok_unit.

Definition encode (self : t) : result BinSchemaError bytes := encode_with encode_into self.

End WorkerAuthenticatedInput.

Module WorkerAuthenticatedOutput.
Record t := mk {
  tag : Z;
  sequence : Z;
  payload : bytes;
  mac : bytes;
}.

Definition to_input (o : t) : WorkerAuthenticatedInput.t :=
  WorkerAuthenticatedInput.mk (sequence o) (payload o) (mac o).

Definition from_input (i : WorkerAuthenticatedInput.t) : t :=
   mk 3 (WorkerAuthenticatedInput.sequence i) (WorkerAuthenticatedInput.payload i)
    (WorkerAuthenticatedInput.mac i).

Definition encode_into (self : t) : Encode := WorkerAuthenticatedInput.encode_into (to_input self).
Definition encode (self : t) : result BinSchemaError bytes := WorkerAuthenticatedInput.encode
  (to_input self).

Definition decode_with_decoder : Read t :=
  let! tag := read_byte in
  let! ok := expect 3 tag in
  let! sequence := read_u64_be in
  let! length := read_u32_be in
  let! payload := read_bytes_vec length in
  let! mac := read_bytes_vec 32 in
  ret (mk tag sequence payload mac).

Definition decode (l : bytes) : result BinSchemaError t := decode_with decode_with_decoder l.

(** The messages the wire can represent. *)
Definition wf (self : t) : bool :=
  const_ok 3 (tag self)
  && u_ok 64 (sequence self)
  && len_ok 32 (payload self)
  && fixed_ok 32 (mac self).

Lemma WorkerAuthenticatedOutput_carried (self : t) : wf self = true -> carries (encode_into self)
  decode_with_decoder self.
Proof. destruct self. unfold encode_into, WorkerAuthenticatedInput.encode_into, to_input,
  decode_with_decoder, wf. cbn [tag sequence payload mac WorkerAuthenticatedInput.sequence
  WorkerAuthenticatedInput.payload WorkerAuthenticatedInput.mac]. codec. Qed.

Lemma WorkerAuthenticatedOutput_refuses : rejects decode_with_decoder 3.
Proof. apply rejects_tag. Qed.
End WorkerAuthenticatedOutput.
#[export] Hint Resolve WorkerAuthenticatedOutput.WorkerAuthenticatedOutput_carried : codec.

Module WorkerBlockOffer.
Record t := mk {
  uuid : bytes;
  estimated_scan_bytes : Z;
}.

Definition encode_into (self : t) : Encode :=
  put_bytes write_byte (uuid self) >>
  put write_u64_be (estimated_scan_bytes self) >>
  ok_unit.

Definition encode (self : t) : result BinSchemaError bytes := encode_with encode_into self.

Definition decode_with_decoder : Read t :=
  let! uuid := read_bytes_vec 16 in
  let! estimated_scan_bytes := read_u64_be in
  ret (mk uuid estimated_scan_bytes).

Definition decode (l : bytes) : result BinSchemaError t := decode_with decode_with_decoder l.

(** The messages the wire can represent. *)
Definition wf (self : t) : bool :=
  fixed_ok 16 (uuid self)
  && u_ok 64 (estimated_scan_bytes self).

Lemma WorkerBlockOffer_carried (self : t) : wf self = true -> carries (encode_into self)
  decode_with_decoder self.
Proof. destruct self. unfold encode_into, decode_with_decoder, wf. cbn [uuid estimated_scan_bytes].
  codec. Qed.
End WorkerBlockOffer.
#[export] Hint Resolve WorkerBlockOffer.WorkerBlockOffer_carried : codec.

Module WorkerBidRequestInput.
Record t := mk {
  coordinator_id : bytes;
  query_attempt : Z;
  offer_id : bytes;
  deadline_unix_ms : Z;
  signal : Z;
  required_columns : list bytes;
  requires_postings : Z;
  requires_bloom : Z;
  blocks : list WorkerBlockOffer.t;
  operation : Z;
  estimated_output_bytes : Z;
  memory_units : Z;
  block_set_digest : bytes;
}.

Definition encode_into (self : t) : Encode :=
  put write_byte 16 >>
  put_bytes write_byte (coordinator_id self) >>
  put write_u32_be (query_attempt self) >>
  put_bytes write_byte (offer_id self) >>
  put write_u64_be (deadline_unix_ms self) >>
  put write_byte (signal self) >>
  put write_u16_be (cast_u16 (zlen (required_columns self))) >>
   for_each (fun item => put write_byte (cast_u8 (zlen item)) >> put_bytes write_byte item)
    (required_columns self) >>
  put write_byte (requires_postings self) >>
  put write_byte (requires_bloom self) >>
  put write_u16_be (cast_u16 (zlen (blocks self))) >>
  for_each WorkerBlockOffer.encode_into (blocks self) >>
  put write_byte (operation self) >>
  put write_u64_be (estimated_output_bytes self) >>
  put write_u32_be (memory_units self) >>
  put_bytes write_byte (block_set_digest self) >>
  ok_unit.

Definition encode (self : t) : result BinSchemaError bytes := encode_with encode_into self.

End WorkerBidRequestInput.

Module WorkerBidRequestOutput.
Record t := mk {
  tag : Z;
  coordinator_id : bytes;
  query_attempt : Z;
  offer_id : bytes;
  deadline_unix_ms : Z;
  signal : Z;
  required_columns : list bytes;
  requires_postings : Z;
  requires_bloom : Z;
  blocks : list WorkerBlockOffer.t;
  operation : Z;
  estimated_output_bytes : Z;
  memory_units : Z;
  block_set_digest : bytes;
}.

Definition to_input (o : t) : WorkerBidRequestInput.t :=
   WorkerBidRequestInput.mk (coordinator_id o) (query_attempt o) (offer_id o) (deadline_unix_ms o)
    (signal o) (required_columns o) (requires_postings o) (requires_bloom o) (blocks o) (operation
    o) (estimated_output_bytes o) (memory_units o) (block_set_digest o).

Definition from_input (i : WorkerBidRequestInput.t) : t :=
   mk 16 (WorkerBidRequestInput.coordinator_id i) (WorkerBidRequestInput.query_attempt i)
    (WorkerBidRequestInput.offer_id i) (WorkerBidRequestInput.deadline_unix_ms i)
    (WorkerBidRequestInput.signal i) (WorkerBidRequestInput.required_columns i)
    (WorkerBidRequestInput.requires_postings i) (WorkerBidRequestInput.requires_bloom i)
    (WorkerBidRequestInput.blocks i) (WorkerBidRequestInput.operation i)
    (WorkerBidRequestInput.estimated_output_bytes i) (WorkerBidRequestInput.memory_units i)
    (WorkerBidRequestInput.block_set_digest i).

Definition encode_into (self : t) : Encode := WorkerBidRequestInput.encode_into (to_input self).
Definition encode (self : t) : result BinSchemaError bytes := WorkerBidRequestInput.encode (to_input
  self).

Definition decode_with_decoder : Read t :=
  let! tag := read_byte in
  let! ok := expect 16 tag in
  let! coordinator_id := read_bytes_vec 16 in
  let! query_attempt := read_u32_be in
  let! offer_id := read_bytes_vec 16 in
  let! deadline_unix_ms := read_u64_be in
  let! signal := read_byte in
  let! length := read_u16_be in
   let! required_columns := read_vec length (let! str_len := read_byte in let! str_bytes :=
    read_bytes_vec str_len in from_utf8 str_bytes) in
  let! requires_postings := read_byte in
  let! requires_bloom := read_byte in
  let! length := read_u16_be in
  let! blocks := read_vec length WorkerBlockOffer.decode_with_decoder in
  let! operation := read_byte in
  let! estimated_output_bytes := read_u64_be in
  let! memory_units := read_u32_be in
  let! block_set_digest := read_bytes_vec 32 in
   ret (mk tag coordinator_id query_attempt offer_id deadline_unix_ms signal required_columns
    requires_postings requires_bloom blocks operation estimated_output_bytes memory_units
    block_set_digest).

Definition decode (l : bytes) : result BinSchemaError t := decode_with decode_with_decoder l.

(** The messages the wire can represent. *)
Definition wf (self : t) : bool :=
  const_ok 16 (tag self)
  && fixed_ok 16 (coordinator_id self)
  && u_ok 32 (query_attempt self)
  && fixed_ok 16 (offer_id self)
  && u_ok 64 (deadline_unix_ms self)
  && u_ok 8 (signal self)
  && vec_ok 16 (utf8_ok 8) (required_columns self)
  && u_ok 8 (requires_postings self)
  && u_ok 8 (requires_bloom self)
  && vec_ok 16 WorkerBlockOffer.wf (blocks self)
  && u_ok 8 (operation self)
  && u_ok 64 (estimated_output_bytes self)
  && u_ok 32 (memory_units self)
  && fixed_ok 32 (block_set_digest self).

Lemma WorkerBidRequestOutput_carried (self : t) : wf self = true -> carries (encode_into self)
  decode_with_decoder self.
Proof. destruct self. unfold encode_into, WorkerBidRequestInput.encode_into, to_input,
  decode_with_decoder, wf. cbn [tag coordinator_id query_attempt offer_id deadline_unix_ms signal
  required_columns requires_postings requires_bloom blocks operation estimated_output_bytes
  memory_units block_set_digest WorkerBidRequestInput.coordinator_id
  WorkerBidRequestInput.query_attempt WorkerBidRequestInput.offer_id
  WorkerBidRequestInput.deadline_unix_ms WorkerBidRequestInput.signal
  WorkerBidRequestInput.required_columns WorkerBidRequestInput.requires_postings
  WorkerBidRequestInput.requires_bloom WorkerBidRequestInput.blocks WorkerBidRequestInput.operation
  WorkerBidRequestInput.estimated_output_bytes WorkerBidRequestInput.memory_units
  WorkerBidRequestInput.block_set_digest]. codec. Qed.

Lemma WorkerBidRequestOutput_refuses : rejects decode_with_decoder 16.
Proof. apply rejects_tag. Qed.
End WorkerBidRequestOutput.
#[export] Hint Resolve WorkerBidRequestOutput.WorkerBidRequestOutput_carried : codec.

Module WorkerBlockLocality.
Record t := mk {
  uuid : bytes;
  locality : Z;
}.

Definition encode_into (self : t) : Encode :=
  put_bytes write_byte (uuid self) >>
  put write_byte (locality self) >>
  ok_unit.

Definition encode (self : t) : result BinSchemaError bytes := encode_with encode_into self.

Definition decode_with_decoder : Read t :=
  let! uuid := read_bytes_vec 16 in
  let! locality := read_byte in
  ret (mk uuid locality).

Definition decode (l : bytes) : result BinSchemaError t := decode_with decode_with_decoder l.

(** The messages the wire can represent. *)
Definition wf (self : t) : bool :=
  fixed_ok 16 (uuid self)
  && u_ok 8 (locality self).

Lemma WorkerBlockLocality_carried (self : t) : wf self = true -> carries (encode_into self)
  decode_with_decoder self.
Proof. destruct self. unfold encode_into, decode_with_decoder, wf. cbn [uuid locality]. codec. Qed.
End WorkerBlockLocality.
#[export] Hint Resolve WorkerBlockLocality.WorkerBlockLocality_carried : codec.

Module WorkerBidResponseInput.
Record t := mk {
  offer_id : bytes;
  worker_id : bytes;
  locality_generation : Z;
  locality : list WorkerBlockLocality.t;
  reservation_token : bytes;
  reservation_expires_unix_ms : Z;
  estimated_start_delay_ms : Z;
  available_fragment_slots : Z;
  memory_pressure_per_mille : Z;
}.

Definition encode_into (self : t) : Encode :=
  put write_byte 17 >>
  put_bytes write_byte (offer_id self) >>
  put_bytes write_byte (worker_id self) >>
  put write_u64_be (locality_generation self) >>
  put write_u16_be (cast_u16 (zlen (locality self))) >>
  for_each WorkerBlockLocality.encode_into (locality self) >>
  put_bytes write_byte (reservation_token self) >>
  put write_u64_be (reservation_expires_unix_ms self) >>
  put write_u32_be (estimated_start_delay_ms self) >>
  put write_u16_be (available_fragment_slots self) >>
  put write_u16_be (memory_pressure_per_mille self) >>
  ok_unit.

Definition encode (self : t) : result BinSchemaError bytes := encode_with encode_into self.

End WorkerBidResponseInput.

Module WorkerBidResponseOutput.
Record t := mk {
  tag : Z;
  offer_id : bytes;
  worker_id : bytes;
  locality_generation : Z;
  locality : list WorkerBlockLocality.t;
  reservation_token : bytes;
  reservation_expires_unix_ms : Z;
  estimated_start_delay_ms : Z;
  available_fragment_slots : Z;
  memory_pressure_per_mille : Z;
}.

Definition to_input (o : t) : WorkerBidResponseInput.t :=
   WorkerBidResponseInput.mk (offer_id o) (worker_id o) (locality_generation o) (locality o)
    (reservation_token o) (reservation_expires_unix_ms o) (estimated_start_delay_ms o)
    (available_fragment_slots o) (memory_pressure_per_mille o).

Definition from_input (i : WorkerBidResponseInput.t) : t :=
   mk 17 (WorkerBidResponseInput.offer_id i) (WorkerBidResponseInput.worker_id i)
    (WorkerBidResponseInput.locality_generation i) (WorkerBidResponseInput.locality i)
    (WorkerBidResponseInput.reservation_token i) (WorkerBidResponseInput.reservation_expires_unix_ms
    i) (WorkerBidResponseInput.estimated_start_delay_ms i)
    (WorkerBidResponseInput.available_fragment_slots i)
    (WorkerBidResponseInput.memory_pressure_per_mille i).

Definition encode_into (self : t) : Encode := WorkerBidResponseInput.encode_into (to_input self).
Definition encode (self : t) : result BinSchemaError bytes := WorkerBidResponseInput.encode
  (to_input self).

Definition decode_with_decoder : Read t :=
  let! tag := read_byte in
  let! ok := expect 17 tag in
  let! offer_id := read_bytes_vec 16 in
  let! worker_id := read_bytes_vec 16 in
  let! locality_generation := read_u64_be in
  let! length := read_u16_be in
  let! locality := read_vec length WorkerBlockLocality.decode_with_decoder in
  let! reservation_token := read_bytes_vec 32 in
  let! reservation_expires_unix_ms := read_u64_be in
  let! estimated_start_delay_ms := read_u32_be in
  let! available_fragment_slots := read_u16_be in
  let! memory_pressure_per_mille := read_u16_be in
   ret (mk tag offer_id worker_id locality_generation locality reservation_token
    reservation_expires_unix_ms estimated_start_delay_ms available_fragment_slots
    memory_pressure_per_mille).

Definition decode (l : bytes) : result BinSchemaError t := decode_with decode_with_decoder l.

(** The messages the wire can represent. *)
Definition wf (self : t) : bool :=
  const_ok 17 (tag self)
  && fixed_ok 16 (offer_id self)
  && fixed_ok 16 (worker_id self)
  && u_ok 64 (locality_generation self)
  && vec_ok 16 WorkerBlockLocality.wf (locality self)
  && fixed_ok 32 (reservation_token self)
  && u_ok 64 (reservation_expires_unix_ms self)
  && u_ok 32 (estimated_start_delay_ms self)
  && u_ok 16 (available_fragment_slots self)
  && u_ok 16 (memory_pressure_per_mille self).

Lemma WorkerBidResponseOutput_carried (self : t) : wf self = true -> carries (encode_into self)
  decode_with_decoder self.
Proof. destruct self. unfold encode_into, WorkerBidResponseInput.encode_into, to_input,
  decode_with_decoder, wf. cbn [tag offer_id worker_id locality_generation locality
  reservation_token reservation_expires_unix_ms estimated_start_delay_ms available_fragment_slots
  memory_pressure_per_mille WorkerBidResponseInput.offer_id WorkerBidResponseInput.worker_id
  WorkerBidResponseInput.locality_generation WorkerBidResponseInput.locality
  WorkerBidResponseInput.reservation_token WorkerBidResponseInput.reservation_expires_unix_ms
  WorkerBidResponseInput.estimated_start_delay_ms WorkerBidResponseInput.available_fragment_slots
  WorkerBidResponseInput.memory_pressure_per_mille]. codec. Qed.

Lemma WorkerBidResponseOutput_refuses : rejects decode_with_decoder 17.
Proof. apply rejects_tag. Qed.
End WorkerBidResponseOutput.
#[export] Hint Resolve WorkerBidResponseOutput.WorkerBidResponseOutput_carried : codec.

Module WorkerBidDeclineInput.
Record t := mk {
  offer_id : bytes;
  reason : Z;
  message : bytes;
}.

Definition encode_into (self : t) : Encode :=
  put write_byte 18 >>
  put_bytes write_byte (offer_id self) >>
  put write_u16_be (reason self) >>
  put write_u16_be (cast_u16 (zlen (message self))) >>
  put_bytes write_byte (message self) >>
  ok_unit.

Definition encode (self : t) : result BinSchemaError bytes := encode_with encode_into self.

End WorkerBidDeclineInput.

Module WorkerBidDeclineOutput.
Record t := mk {
  tag : Z;
  offer_id : bytes;
  reason : Z;
  message : bytes;
}.

Definition to_input (o : t) : WorkerBidDeclineInput.t :=
  WorkerBidDeclineInput.mk (offer_id o) (reason o) (message o).

Definition from_input (i : WorkerBidDeclineInput.t) : t :=
   mk 18 (WorkerBidDeclineInput.offer_id i) (WorkerBidDeclineInput.reason i)
    (WorkerBidDeclineInput.message i).

Definition encode_into (self : t) : Encode := WorkerBidDeclineInput.encode_into (to_input self).
Definition encode (self : t) : result BinSchemaError bytes := WorkerBidDeclineInput.encode (to_input
  self).

Definition decode_with_decoder : Read t :=
  let! tag := read_byte in
  let! ok := expect 18 tag in
  let! offer_id := read_bytes_vec 16 in
  let! reason := read_u16_be in
  let! length := read_u16_be in
  let! bytes := read_bytes_vec length in
  let! message := from_utf8 bytes in
  ret (mk tag offer_id reason message).

Definition decode (l : bytes) : result BinSchemaError t := decode_with decode_with_decoder l.

(** The messages the wire can represent. *)
Definition wf (self : t) : bool :=
  const_ok 18 (tag self)
  && fixed_ok 16 (offer_id self)
  && u_ok 16 (reason self)
  && utf8_ok 16 (message self).

Lemma WorkerBidDeclineOutput_carried (self : t) : wf self = true -> carries (encode_into self)
  decode_with_decoder self.
Proof. destruct self. unfold encode_into, WorkerBidDeclineInput.encode_into, to_input,
  decode_with_decoder, wf. cbn [tag offer_id reason message WorkerBidDeclineInput.offer_id
  WorkerBidDeclineInput.reason WorkerBidDeclineInput.message]. codec. Qed.

Lemma WorkerBidDeclineOutput_refuses : rejects decode_with_decoder 18.
Proof. apply rejects_tag. Qed.
End WorkerBidDeclineOutput.
#[export] Hint Resolve WorkerBidDeclineOutput.WorkerBidDeclineOutput_carried : codec.

Module WorkerReleaseInput.
Record t := mk {
  coordinator_id : bytes;
  reservation_token : bytes;
}.

Definition encode_into (self : t) : Encode :=
  put write_byte 32 >>
  put_bytes write_byte (coordinator_id self) >>
  put_bytes write_byte (reservation_token self) >>
  ok_unit.

Definition encode (self : t) : result BinSchemaError bytes := encode_with encode_into self.

End WorkerReleaseInput.

Module WorkerReleaseOutput.
Record t := mk {
  tag : Z;
  coordinator_id : bytes;
  reservation_token : bytes;
}.

Definition to_input (o : t) : WorkerReleaseInput.t :=
  WorkerReleaseInput.mk (coordinator_id o) (reservation_token o).

Definition from_input (i : WorkerReleaseInput.t) : t :=
  mk 32 (WorkerReleaseInput.coordinator_id i) (WorkerReleaseInput.reservation_token i).

Definition encode_into (self : t) : Encode := WorkerReleaseInput.encode_into (to_input self).
Definition encode (self : t) : result BinSchemaError bytes := WorkerReleaseInput.encode (to_input self).

Definition decode_with_decoder : Read t :=
  let! tag := read_byte in
  let! ok := expect 32 tag in
  let! coordinator_id := read_bytes_vec 16 in
  let! reservation_token := read_bytes_vec 32 in
  ret (mk tag coordinator_id reservation_token).

Definition decode (l : bytes) : result BinSchemaError t := decode_with decode_with_decoder l.

(** The messages the wire can represent. *)
Definition wf (self : t) : bool :=
  const_ok 32 (tag self)
  && fixed_ok 16 (coordinator_id self)
  && fixed_ok 32 (reservation_token self).

Lemma WorkerReleaseOutput_carried (self : t) : wf self = true -> carries (encode_into self)
  decode_with_decoder self.
Proof. destruct self. unfold encode_into, WorkerReleaseInput.encode_into, to_input,
  decode_with_decoder, wf. cbn [tag coordinator_id reservation_token
  WorkerReleaseInput.coordinator_id WorkerReleaseInput.reservation_token]. codec. Qed.

Lemma WorkerReleaseOutput_refuses : rejects decode_with_decoder 32.
Proof. apply rejects_tag. Qed.
End WorkerReleaseOutput.
#[export] Hint Resolve WorkerReleaseOutput.WorkerReleaseOutput_carried : codec.

Module WorkerReleaseAckInput.
Record t := mk {
  reservation_token : bytes;
  released : Z;
}.

Definition encode_into (self : t) : Encode :=
  put write_byte 33 >>
  put_bytes write_byte (reservation_token self) >>
  put write_byte (released self) >>
  ok_unit.

Definition encode (self : t) : result BinSchemaError bytes := encode_with encode_into self.

End WorkerReleaseAckInput.

Module WorkerReleaseAckOutput.
Record t := mk {
  tag : Z;
  reservation_token : bytes;
  released : Z;
}.

Definition to_input (o : t) : WorkerReleaseAckInput.t :=
  WorkerReleaseAckInput.mk (reservation_token o) (released o).

Definition from_input (i : WorkerReleaseAckInput.t) : t :=
  mk 33 (WorkerReleaseAckInput.reservation_token i) (WorkerReleaseAckInput.released i).

Definition encode_into (self : t) : Encode := WorkerReleaseAckInput.encode_into (to_input self).
Definition encode (self : t) : result BinSchemaError bytes := WorkerReleaseAckInput.encode (to_input
  self).

Definition decode_with_decoder : Read t :=
  let! tag := read_byte in
  let! ok := expect 33 tag in
  let! reservation_token := read_bytes_vec 32 in
  let! released := read_byte in
  ret (mk tag reservation_token released).

Definition decode (l : bytes) : result BinSchemaError t := decode_with decode_with_decoder l.

(** The messages the wire can represent. *)
Definition wf (self : t) : bool :=
  const_ok 33 (tag self)
  && fixed_ok 32 (reservation_token self)
  && u_ok 8 (released self).

Lemma WorkerReleaseAckOutput_carried (self : t) : wf self = true -> carries (encode_into self)
  decode_with_decoder self.
Proof. destruct self. unfold encode_into, WorkerReleaseAckInput.encode_into, to_input,
  decode_with_decoder, wf. cbn [tag reservation_token released
  WorkerReleaseAckInput.reservation_token WorkerReleaseAckInput.released]. codec. Qed.

Lemma WorkerReleaseAckOutput_refuses : rejects decode_with_decoder 33.
Proof. apply rejects_tag. Qed.
End WorkerReleaseAckOutput.
#[export] Hint Resolve WorkerReleaseAckOutput.WorkerReleaseAckOutput_carried : codec.

Module WorkerCancelInput.
Record t := mk {
  coordinator_id : bytes;
  query_attempt : Z;
  fragment_id : bytes;
  fragment_attempt : Z;
}.

Definition encode_into (self : t) : Encode :=
  put write_byte 48 >>
  put_bytes write_byte (coordinator_id self) >>
  put write_u32_be (query_attempt self) >>
  put_bytes write_byte (fragment_id self) >>
  put write_u32_be (fragment_attempt self) >>
  ok_unit.

Definition encode (self : t) : result BinSchemaError bytes := encode_with encode_into self.

End WorkerCancelInput.

Module WorkerCancelOutput.
Record t := mk {
  tag : Z;
  coordinator_id : bytes;
  query_attempt : Z;
  fragment_id : bytes;
  fragment_attempt : Z;
}.

Definition to_input (o : t) : WorkerCancelInput.t :=
  WorkerCancelInput.mk (coordinator_id o) (query_attempt o) (fragment_id o) (fragment_attempt o).

Definition from_input (i : WorkerCancelInput.t) : t :=
   mk 48 (WorkerCancelInput.coordinator_id i) (WorkerCancelInput.query_attempt i)
    (WorkerCancelInput.fragment_id i) (WorkerCancelInput.fragment_attempt i).

Definition encode_into (self : t) : Encode := WorkerCancelInput.encode_into (to_input self).
Definition encode (self : t) : result BinSchemaError bytes := WorkerCancelInput.encode (to_input self).

Definition decode_with_decoder : Read t :=
  let! tag := read_byte in
  let! ok := expect 48 tag in
  let! coordinator_id := read_bytes_vec 16 in
  let! query_attempt := read_u32_be in
  let! fragment_id := read_bytes_vec 16 in
  let! fragment_attempt := read_u32_be in
  ret (mk tag coordinator_id query_attempt fragment_id fragment_attempt).

Definition decode (l : bytes) : result BinSchemaError t := decode_with decode_with_decoder l.

(** The messages the wire can represent. *)
Definition wf (self : t) : bool :=
  const_ok 48 (tag self)
  && fixed_ok 16 (coordinator_id self)
  && u_ok 32 (query_attempt self)
  && fixed_ok 16 (fragment_id self)
  && u_ok 32 (fragment_attempt self).

Lemma WorkerCancelOutput_carried (self : t) : wf self = true -> carries (encode_into self)
  decode_with_decoder self.
Proof. destruct self. unfold encode_into, WorkerCancelInput.encode_into, to_input,
  decode_with_decoder, wf. cbn [tag coordinator_id query_attempt fragment_id fragment_attempt
  WorkerCancelInput.coordinator_id WorkerCancelInput.query_attempt WorkerCancelInput.fragment_id
  WorkerCancelInput.fragment_attempt]. codec. Qed.

Lemma WorkerCancelOutput_refuses : rejects decode_with_decoder 48.
Proof. apply rejects_tag. Qed.
End WorkerCancelOutput.
#[export] Hint Resolve WorkerCancelOutput.WorkerCancelOutput_carried : codec.

Module WorkerCancelAckInput.
Record t := mk {
  fragment_id : bytes;
  fragment_attempt : Z;
  cancelled : Z;
}.

Definition encode_into (self : t) : Encode :=
  put write_byte 49 >>
  put_bytes write_byte (fragment_id self) >>
  put write_u32_be (fragment_attempt self) >>
  put write_byte (cancelled self) >>
  ok_unit.

Definition encode (self : t) : result BinSchemaError bytes := encode_with encode_into self.

End WorkerCancelAckInput.

Module WorkerCancelAckOutput.
Record t := mk {
  tag : Z;
  fragment_id : bytes;
  fragment_attempt : Z;
  cancelled : Z;
}.

Definition to_input (o : t) : WorkerCancelAckInput.t :=
  WorkerCancelAckInput.mk (fragment_id o) (fragment_attempt o) (cancelled o).

Definition from_input (i : WorkerCancelAckInput.t) : t :=
   mk 49 (WorkerCancelAckInput.fragment_id i) (WorkerCancelAckInput.fragment_attempt i)
    (WorkerCancelAckInput.cancelled i).

Definition encode_into (self : t) : Encode := WorkerCancelAckInput.encode_into (to_input self).
Definition encode (self : t) : result BinSchemaError bytes := WorkerCancelAckInput.encode (to_input
  self).

Definition decode_with_decoder : Read t :=
  let! tag := read_byte in
  let! ok := expect 49 tag in
  let! fragment_id := read_bytes_vec 16 in
  let! fragment_attempt := read_u32_be in
  let! cancelled := read_byte in
  ret (mk tag fragment_id fragment_attempt cancelled).

Definition decode (l : bytes) : result BinSchemaError t := decode_with decode_with_decoder l.

(** The messages the wire can represent. *)
Definition wf (self : t) : bool :=
  const_ok 49 (tag self)
  && fixed_ok 16 (fragment_id self)
  && u_ok 32 (fragment_attempt self)
  && u_ok 8 (cancelled self).

Lemma WorkerCancelAckOutput_carried (self : t) : wf self = true -> carries (encode_into self)
  decode_with_decoder self.
Proof. destruct self. unfold encode_into, WorkerCancelAckInput.encode_into, to_input,
  decode_with_decoder, wf. cbn [tag fragment_id fragment_attempt cancelled
  WorkerCancelAckInput.fragment_id WorkerCancelAckInput.fragment_attempt
  WorkerCancelAckInput.cancelled]. codec. Qed.

Lemma WorkerCancelAckOutput_refuses : rejects decode_with_decoder 49.
Proof. apply rejects_tag. Qed.
End WorkerCancelAckOutput.
#[export] Hint Resolve WorkerCancelAckOutput.WorkerCancelAckOutput_carried : codec.

Module WorkerErrorInput.
Record t := mk {
  code : Z;
  message : bytes;
}.

Definition encode_into (self : t) : Encode :=
  put write_byte 240 >>
  put write_u16_be (code self) >>
  put write_u16_be (cast_u16 (zlen (message self))) >>
  put_bytes write_byte (message self) >>
  ok_unit.

Definition encode (self : t) : result BinSchemaError bytes := encode_with encode_into self.

End WorkerErrorInput.

Module WorkerErrorOutput.
Record t := mk {
  tag : Z;
  code : Z;
  message : bytes;
}.

Definition to_input (o : t) : WorkerErrorInput.t :=
  WorkerErrorInput.mk (code o) (message o).

Definition from_input (i : WorkerErrorInput.t) : t :=
  mk 240 (WorkerErrorInput.code i) (WorkerErrorInput.message i).

Definition encode_into (self : t) : Encode := WorkerErrorInput.encode_into (to_input self).
Definition encode (self : t) : result BinSchemaError bytes := WorkerErrorInput.encode (to_input self).

Definition decode_with_decoder : Read t :=
  let! tag := read_byte in
  let! ok := expect 240 tag in
  let! code := read_u16_be in
  let! length := read_u16_be in
  let! bytes := read_bytes_vec length in
  let! message := from_utf8 bytes in
  ret (mk tag code message).

Definition decode (l : bytes) : result BinSchemaError t := decode_with decode_with_decoder l.

(** The messages the wire can represent. *)
Definition wf (self : t) : bool :=
  const_ok 240 (tag self)
  && u_ok 16 (code self)
  && utf8_ok 16 (message self).

Lemma WorkerErrorOutput_carried (self : t) : wf self = true -> carries (encode_into self)
  decode_with_decoder self.
Proof. destruct self. unfold encode_into, WorkerErrorInput.encode_into, to_input,
  decode_with_decoder, wf. cbn [tag code message WorkerErrorInput.code WorkerErrorInput.message].
  codec. Qed.

Lemma WorkerErrorOutput_refuses : rejects decode_with_decoder 240.
Proof. apply rejects_tag. Qed.
End WorkerErrorOutput.
#[export] Hint Resolve WorkerErrorOutput.WorkerErrorOutput_carried : codec.

Module QueryWorkerFrameMsg.
Inductive t :=
| WorkerClientHello (v : WorkerClientHelloOutput.t)
| WorkerServerHello (v : WorkerServerHelloOutput.t)
| WorkerAuthenticated (v : WorkerAuthenticatedOutput.t)
| WorkerBidRequest (v : WorkerBidRequestOutput.t)
| WorkerBidResponse (v : WorkerBidResponseOutput.t)
| WorkerBidDecline (v : WorkerBidDeclineOutput.t)
| WorkerRelease (v : WorkerReleaseOutput.t)
| WorkerReleaseAck (v : WorkerReleaseAckOutput.t)
| WorkerCancel (v : WorkerCancelOutput.t)
| WorkerCancelAck (v : WorkerCancelAckOutput.t)
| WorkerError (v : WorkerErrorOutput.t).

Definition encode_into (self : t) : Encode :=
  match self with
  | WorkerClientHello v =>
      put write_uint8 1 >>
      put uint16_be (WorkerClientHelloOutput.protocol_version v) >>
      put_bytes write_uint8 (WorkerClientHelloOutput.coordinator_id v) >>
      put_bytes write_uint8 (WorkerClientHelloOutput.expected_worker_id v) >>
      put uint16_be (cast_u16 (zlen (WorkerClientHelloOutput.deployment v))) >>
      put_bytes write_uint8 (WorkerClientHelloOutput.deployment v) >>
      put uint64_be (WorkerClientHelloOutput.timestamp_unix_ms v) >>
      put_bytes write_uint8 (WorkerClientHelloOutput.nonce v) >>
      put write_uint8 (cast_u8 (zlen (chars (WorkerClientHelloOutput.key_id v)))) >>
      put_bytes write_uint8 (char_bytes (WorkerClientHelloOutput.key_id v)) >>
      put_bytes write_uint8 (WorkerClientHelloOutput.mac v) >>
      ok_unit
  | WorkerServerHello v =>
      put write_uint8 2 >>
      put uint16_be (WorkerServerHelloOutput.protocol_version v) >>
      put_bytes write_uint8 (WorkerServerHelloOutput.worker_id v) >>
      put_bytes write_uint8 (WorkerServerHelloOutput.coordinator_nonce v) >>
      put_bytes write_uint8 (WorkerServerHelloOutput.worker_nonce v) >>
      put uint64_be (WorkerServerHelloOutput.timestamp_unix_ms v) >>
      put write_uint8 (cast_u8 (zlen (chars (WorkerServerHelloOutput.key_id v)))) >>
      put_bytes write_uint8 (char_bytes (WorkerServerHelloOutput.key_id v)) >>
      put_bytes write_uint8 (WorkerServerHelloOutput.mac v) >>
      ok_unit
  | WorkerAuthenticated v =>
      put write_uint8 3 >>
      put uint64_be (WorkerAuthenticatedOutput.sequence v) >>
      put uint32_be (cast_u32 (zlen (WorkerAuthenticatedOutput.payload v))) >>
      put_bytes write_uint8 (WorkerAuthenticatedOutput.payload v) >>
      put_bytes write_uint8 (WorkerAuthenticatedOutput.mac v) >>
      ok_unit
  | WorkerBidRequest v =>
      put write_uint8 16 >>
      put_bytes write_uint8 (WorkerBidRequestOutput.coordinator_id v) >>
      put uint32_be (WorkerBidRequestOutput.query_attempt v) >>
      put_bytes write_uint8 (WorkerBidRequestOutput.offer_id v) >>
      put uint64_be (WorkerBidRequestOutput.deadline_unix_ms v) >>
      put write_uint8 (WorkerBidRequestOutput.signal v) >>
      put uint16_be (cast_u16 (zlen (WorkerBidRequestOutput.required_columns v))) >>
       for_each (fun item => put write_uint8 (cast_u8 (zlen item)) >> put_bytes write_uint8 item)
        (WorkerBidRequestOutput.required_columns v) >>
      put write_uint8 (WorkerBidRequestOutput.requires_postings v) >>
      put write_uint8 (WorkerBidRequestOutput.requires_bloom v) >>
      put uint16_be (cast_u16 (zlen (WorkerBidRequestOutput.blocks v))) >>
      for_each WorkerBlockOffer.encode_into (WorkerBidRequestOutput.blocks v) >>
      put write_uint8 (WorkerBidRequestOutput.operation v) >>
      put uint64_be (WorkerBidRequestOutput.estimated_output_bytes v) >>
      put uint32_be (WorkerBidRequestOutput.memory_units v) >>
      put_bytes write_uint8 (WorkerBidRequestOutput.block_set_digest v) >>
      ok_unit
  | WorkerBidResponse v =>
      put write_uint8 17 >>
      put_bytes write_uint8 (WorkerBidResponseOutput.offer_id v) >>
      put_bytes write_uint8 (WorkerBidResponseOutput.worker_id v) >>
      put uint64_be (WorkerBidResponseOutput.locality_generation v) >>
      put uint16_be (cast_u16 (zlen (WorkerBidResponseOutput.locality v))) >>
      for_each WorkerBlockLocality.encode_into (WorkerBidResponseOutput.locality v) >>
      put_bytes write_uint8 (WorkerBidResponseOutput.reservation_token v) >>
      put uint64_be (WorkerBidResponseOutput.reservation_expires_unix_ms v) >>
      put uint32_be (WorkerBidResponseOutput.estimated_start_delay_ms v) >>
      put uint16_be (WorkerBidResponseOutput.available_fragment_slots v) >>
      put uint16_be (WorkerBidResponseOutput.memory_pressure_per_mille v) >>
      ok_unit
  | WorkerBidDecline v =>
      put write_uint8 18 >>
      put_bytes write_uint8 (WorkerBidDeclineOutput.offer_id v) >>
      put uint16_be (WorkerBidDeclineOutput.reason v) >>
      put uint16_be (cast_u16 (zlen (WorkerBidDeclineOutput.message v))) >>
      put_bytes write_uint8 (WorkerBidDeclineOutput.message v) >>
      ok_unit
  | WorkerRelease v =>
      put write_uint8 32 >>
      put_bytes write_uint8 (WorkerReleaseOutput.coordinator_id v) >>
      put_bytes write_uint8 (WorkerReleaseOutput.reservation_token v) >>
      ok_unit
  | WorkerReleaseAck v =>
      put write_uint8 33 >>
      put_bytes write_uint8 (WorkerReleaseAckOutput.reservation_token v) >>
      put write_uint8 (WorkerReleaseAckOutput.released v) >>
      ok_unit
  | WorkerCancel v =>
      put write_uint8 48 >>
      put_bytes write_uint8 (WorkerCancelOutput.coordinator_id v) >>
      put uint32_be (WorkerCancelOutput.query_attempt v) >>
      put_bytes write_uint8 (WorkerCancelOutput.fragment_id v) >>
      put uint32_be (WorkerCancelOutput.fragment_attempt v) >>
      ok_unit
  | WorkerCancelAck v =>
      put write_uint8 49 >>
      put_bytes write_uint8 (WorkerCancelAckOutput.fragment_id v) >>
      put uint32_be (WorkerCancelAckOutput.fragment_attempt v) >>
      put write_uint8 (WorkerCancelAckOutput.cancelled v) >>
      ok_unit
  | WorkerError v =>
      put write_uint8 240 >>
      put uint16_be (WorkerErrorOutput.code v) >>
      put uint16_be (cast_u16 (zlen (WorkerErrorOutput.message v))) >>
      put_bytes write_uint8 (WorkerErrorOutput.message v) >>
      ok_unit
  end.

Definition encode (self : t) : result BinSchemaError bytes := encode_with encode_into self.

Definition type_name (self : t) : string :=
  match self with
  | WorkerClientHello _ => "WorkerClientHello"
  | WorkerServerHello _ => "WorkerServerHello"
  | WorkerAuthenticated _ => "WorkerAuthenticated"
  | WorkerBidRequest _ => "WorkerBidRequest"
  | WorkerBidResponse _ => "WorkerBidResponse"
  | WorkerBidDecline _ => "WorkerBidDecline"
  | WorkerRelease _ => "WorkerRelease"
  | WorkerReleaseAck _ => "WorkerReleaseAck"
  | WorkerCancel _ => "WorkerCancel"
  | WorkerCancelAck _ => "WorkerCancelAck"
  | WorkerError _ => "WorkerError"
  end.

Definition decode_with_decoder : Read t := fun d =>
  let start_pos := position d in
  (try_variant start_pos WorkerClientHelloOutput.decode_with_decoder WorkerClientHello
  (try_variant start_pos WorkerServerHelloOutput.decode_with_decoder WorkerServerHello
  (try_variant start_pos WorkerAuthenticatedOutput.decode_with_decoder WorkerAuthenticated
  (try_variant start_pos WorkerBidRequestOutput.decode_with_decoder WorkerBidRequest
  (try_variant start_pos WorkerBidResponseOutput.decode_with_decoder WorkerBidResponse
  (try_variant start_pos WorkerBidDeclineOutput.decode_with_decoder WorkerBidDecline
  (try_variant start_pos WorkerReleaseOutput.decode_with_decoder WorkerRelease
  (try_variant start_pos WorkerReleaseAckOutput.decode_with_decoder WorkerReleaseAck
  (try_variant start_pos WorkerCancelOutput.decode_with_decoder WorkerCancel
  (try_variant start_pos WorkerCancelAckOutput.decode_with_decoder WorkerCancelAck
  (last_variant WorkerErrorOutput.decode_with_decoder WorkerError))))))))))) d.

Definition decode (l : bytes) : result BinSchemaError t := decode_with decode_with_decoder l.

Definition wf (self : t) : bool :=
  match self with
  | WorkerClientHello v => WorkerClientHelloOutput.wf v
  | WorkerServerHello v => WorkerServerHelloOutput.wf v
  | WorkerAuthenticated v => WorkerAuthenticatedOutput.wf v
  | WorkerBidRequest v => WorkerBidRequestOutput.wf v
  | WorkerBidResponse v => WorkerBidResponseOutput.wf v
  | WorkerBidDecline v => WorkerBidDeclineOutput.wf v
  | WorkerRelease v => WorkerReleaseOutput.wf v
  | WorkerReleaseAck v => WorkerReleaseAckOutput.wf v
  | WorkerCancel v => WorkerCancelOutput.wf v
  | WorkerCancelAck v => WorkerCancelAckOutput.wf v
  | WorkerError v => WorkerErrorOutput.wf v
  end.

Lemma QueryWorkerFrameMsg_arm_WorkerClientHello (v : WorkerClientHelloOutput.t) :
   WorkerClientHelloOutput.wf v = true -> carries_tag 1 (encode_into (WorkerClientHello v))
    WorkerClientHelloOutput.decode_with_decoder v.
Proof. destruct v. unfold encode_into, WorkerClientHelloOutput.decode_with_decoder,
  WorkerClientHelloOutput.wf. cbn [WorkerClientHelloOutput.tag
  WorkerClientHelloOutput.protocol_version WorkerClientHelloOutput.coordinator_id
  WorkerClientHelloOutput.expected_worker_id WorkerClientHelloOutput.deployment
  WorkerClientHelloOutput.timestamp_unix_ms WorkerClientHelloOutput.nonce
  WorkerClientHelloOutput.key_id WorkerClientHelloOutput.mac]. codec_arm. Qed.

Lemma QueryWorkerFrameMsg_arm_WorkerServerHello (v : WorkerServerHelloOutput.t) :
   WorkerServerHelloOutput.wf v = true -> carries_tag 2 (encode_into (WorkerServerHello v))
    WorkerServerHelloOutput.decode_with_decoder v.
Proof. destruct v. unfold encode_into, WorkerServerHelloOutput.decode_with_decoder,
  WorkerServerHelloOutput.wf. cbn [WorkerServerHelloOutput.tag
  WorkerServerHelloOutput.protocol_version WorkerServerHelloOutput.worker_id
  WorkerServerHelloOutput.coordinator_nonce WorkerServerHelloOutput.worker_nonce
  WorkerServerHelloOutput.timestamp_unix_ms WorkerServerHelloOutput.key_id
  WorkerServerHelloOutput.mac]. codec_arm. Qed.

Lemma QueryWorkerFrameMsg_arm_WorkerAuthenticated (v : WorkerAuthenticatedOutput.t) :
   WorkerAuthenticatedOutput.wf v = true -> carries_tag 3 (encode_into (WorkerAuthenticated v))
    WorkerAuthenticatedOutput.decode_with_decoder v.
Proof. destruct v. unfold encode_into, WorkerAuthenticatedOutput.decode_with_decoder,
  WorkerAuthenticatedOutput.wf. cbn [WorkerAuthenticatedOutput.tag
  WorkerAuthenticatedOutput.sequence WorkerAuthenticatedOutput.payload
  WorkerAuthenticatedOutput.mac]. codec_arm. Qed.

Lemma QueryWorkerFrameMsg_arm_WorkerBidRequest (v : WorkerBidRequestOutput.t) :
   WorkerBidRequestOutput.wf v = true -> carries_tag 16 (encode_into (WorkerBidRequest v))
    WorkerBidRequestOutput.decode_with_decoder v.
Proof. destruct v. unfold encode_into, WorkerBidRequestOutput.decode_with_decoder,
  WorkerBidRequestOutput.wf. cbn [WorkerBidRequestOutput.tag WorkerBidRequestOutput.coordinator_id
  WorkerBidRequestOutput.query_attempt WorkerBidRequestOutput.offer_id
  WorkerBidRequestOutput.deadline_unix_ms WorkerBidRequestOutput.signal
  WorkerBidRequestOutput.required_columns WorkerBidRequestOutput.requires_postings
  WorkerBidRequestOutput.requires_bloom WorkerBidRequestOutput.blocks
  WorkerBidRequestOutput.operation WorkerBidRequestOutput.estimated_output_bytes
  WorkerBidRequestOutput.memory_units WorkerBidRequestOutput.block_set_digest]. codec_arm. Qed.

Lemma QueryWorkerFrameMsg_arm_WorkerBidResponse (v : WorkerBidResponseOutput.t) :
   WorkerBidResponseOutput.wf v = true -> carries_tag 17 (encode_into (WorkerBidResponse v))
    WorkerBidResponseOutput.decode_with_decoder v.
Proof. destruct v. unfold encode_into, WorkerBidResponseOutput.decode_with_decoder,
  WorkerBidResponseOutput.wf. cbn [WorkerBidResponseOutput.tag WorkerBidResponseOutput.offer_id
  WorkerBidResponseOutput.worker_id WorkerBidResponseOutput.locality_generation
  WorkerBidResponseOutput.locality WorkerBidResponseOutput.reservation_token
  WorkerBidResponseOutput.reservation_expires_unix_ms
  WorkerBidResponseOutput.estimated_start_delay_ms WorkerBidResponseOutput.available_fragment_slots
  WorkerBidResponseOutput.memory_pressure_per_mille]. codec_arm. Qed.

Lemma QueryWorkerFrameMsg_arm_WorkerBidDecline (v : WorkerBidDeclineOutput.t) :
   WorkerBidDeclineOutput.wf v = true -> carries_tag 18 (encode_into (WorkerBidDecline v))
    WorkerBidDeclineOutput.decode_with_decoder v.
Proof. destruct v. unfold encode_into, WorkerBidDeclineOutput.decode_with_decoder,
  WorkerBidDeclineOutput.wf. cbn [WorkerBidDeclineOutput.tag WorkerBidDeclineOutput.offer_id
  WorkerBidDeclineOutput.reason WorkerBidDeclineOutput.message]. codec_arm. Qed.

Lemma QueryWorkerFrameMsg_arm_WorkerRelease (v : WorkerReleaseOutput.t) :
   WorkerReleaseOutput.wf v = true -> carries_tag 32 (encode_into (WorkerRelease v))
    WorkerReleaseOutput.decode_with_decoder v.
Proof. destruct v. unfold encode_into, WorkerReleaseOutput.decode_with_decoder,
  WorkerReleaseOutput.wf. cbn [WorkerReleaseOutput.tag WorkerReleaseOutput.coordinator_id
  WorkerReleaseOutput.reservation_token]. codec_arm. Qed.

Lemma QueryWorkerFrameMsg_arm_WorkerReleaseAck (v : WorkerReleaseAckOutput.t) :
   WorkerReleaseAckOutput.wf v = true -> carries_tag 33 (encode_into (WorkerReleaseAck v))
    WorkerReleaseAckOutput.decode_with_decoder v.
Proof. destruct v. unfold encode_into, WorkerReleaseAckOutput.decode_with_decoder,
  WorkerReleaseAckOutput.wf. cbn [WorkerReleaseAckOutput.tag
  WorkerReleaseAckOutput.reservation_token WorkerReleaseAckOutput.released]. codec_arm. Qed.

Lemma QueryWorkerFrameMsg_arm_WorkerCancel (v : WorkerCancelOutput.t) :
   WorkerCancelOutput.wf v = true -> carries_tag 48 (encode_into (WorkerCancel v))
    WorkerCancelOutput.decode_with_decoder v.
Proof. destruct v. unfold encode_into, WorkerCancelOutput.decode_with_decoder,
  WorkerCancelOutput.wf. cbn [WorkerCancelOutput.tag WorkerCancelOutput.coordinator_id
  WorkerCancelOutput.query_attempt WorkerCancelOutput.fragment_id
  WorkerCancelOutput.fragment_attempt]. codec_arm. Qed.

Lemma QueryWorkerFrameMsg_arm_WorkerCancelAck (v : WorkerCancelAckOutput.t) :
   WorkerCancelAckOutput.wf v = true -> carries_tag 49 (encode_into (WorkerCancelAck v))
    WorkerCancelAckOutput.decode_with_decoder v.
Proof. destruct v. unfold encode_into, WorkerCancelAckOutput.decode_with_decoder,
  WorkerCancelAckOutput.wf. cbn [WorkerCancelAckOutput.tag WorkerCancelAckOutput.fragment_id
  WorkerCancelAckOutput.fragment_attempt WorkerCancelAckOutput.cancelled]. codec_arm. Qed.

Lemma QueryWorkerFrameMsg_arm_WorkerError (v : WorkerErrorOutput.t) :
   WorkerErrorOutput.wf v = true -> carries_tag 240 (encode_into (WorkerError v))
    WorkerErrorOutput.decode_with_decoder v.
Proof. destruct v. unfold encode_into, WorkerErrorOutput.decode_with_decoder, WorkerErrorOutput.wf.
  cbn [WorkerErrorOutput.tag WorkerErrorOutput.code WorkerErrorOutput.message]. codec_arm. Qed.

Lemma QueryWorkerFrameMsg_carried (self : t) : wf self = true -> carries (encode_into self)
  decode_with_decoder self.
Proof.
  destruct self as [v|v|v|v|v|v|v|v|v|v|v]; unfold wf, decode_with_decoder; intros H.
  - union (QueryWorkerFrameMsg_arm_WorkerClientHello v H) ltac:(idtac).
   - union (QueryWorkerFrameMsg_arm_WorkerServerHello v H) ltac:(skip
    WorkerClientHelloOutput.WorkerClientHelloOutput_refuses).
   - union (QueryWorkerFrameMsg_arm_WorkerAuthenticated v H) ltac:(skip
    WorkerClientHelloOutput.WorkerClientHelloOutput_refuses; skip
    WorkerServerHelloOutput.WorkerServerHelloOutput_refuses).
   - union (QueryWorkerFrameMsg_arm_WorkerBidRequest v H) ltac:(skip
    WorkerClientHelloOutput.WorkerClientHelloOutput_refuses; skip
    WorkerServerHelloOutput.WorkerServerHelloOutput_refuses; skip
    WorkerAuthenticatedOutput.WorkerAuthenticatedOutput_refuses).
   - union (QueryWorkerFrameMsg_arm_WorkerBidResponse v H) ltac:(skip
    WorkerClientHelloOutput.WorkerClientHelloOutput_refuses; skip
    WorkerServerHelloOutput.WorkerServerHelloOutput_refuses; skip
    WorkerAuthenticatedOutput.WorkerAuthenticatedOutput_refuses; skip
    WorkerBidRequestOutput.WorkerBidRequestOutput_refuses).
   - union (QueryWorkerFrameMsg_arm_WorkerBidDecline v H) ltac:(skip
    WorkerClientHelloOutput.WorkerClientHelloOutput_refuses; skip
    WorkerServerHelloOutput.WorkerServerHelloOutput_refuses; skip
    WorkerAuthenticatedOutput.WorkerAuthenticatedOutput_refuses; skip
    WorkerBidRequestOutput.WorkerBidRequestOutput_refuses; skip
    WorkerBidResponseOutput.WorkerBidResponseOutput_refuses).
   - union (QueryWorkerFrameMsg_arm_WorkerRelease v H) ltac:(skip
    WorkerClientHelloOutput.WorkerClientHelloOutput_refuses; skip
    WorkerServerHelloOutput.WorkerServerHelloOutput_refuses; skip
    WorkerAuthenticatedOutput.WorkerAuthenticatedOutput_refuses; skip
    WorkerBidRequestOutput.WorkerBidRequestOutput_refuses; skip
    WorkerBidResponseOutput.WorkerBidResponseOutput_refuses; skip
    WorkerBidDeclineOutput.WorkerBidDeclineOutput_refuses).
   - union (QueryWorkerFrameMsg_arm_WorkerReleaseAck v H) ltac:(skip
    WorkerClientHelloOutput.WorkerClientHelloOutput_refuses; skip
    WorkerServerHelloOutput.WorkerServerHelloOutput_refuses; skip
    WorkerAuthenticatedOutput.WorkerAuthenticatedOutput_refuses; skip
    WorkerBidRequestOutput.WorkerBidRequestOutput_refuses; skip
    WorkerBidResponseOutput.WorkerBidResponseOutput_refuses; skip
    WorkerBidDeclineOutput.WorkerBidDeclineOutput_refuses; skip
    WorkerReleaseOutput.WorkerReleaseOutput_refuses).
   - union (QueryWorkerFrameMsg_arm_WorkerCancel v H) ltac:(skip
    WorkerClientHelloOutput.WorkerClientHelloOutput_refuses; skip
    WorkerServerHelloOutput.WorkerServerHelloOutput_refuses; skip
    WorkerAuthenticatedOutput.WorkerAuthenticatedOutput_refuses; skip
    WorkerBidRequestOutput.WorkerBidRequestOutput_refuses; skip
    WorkerBidResponseOutput.WorkerBidResponseOutput_refuses; skip
    WorkerBidDeclineOutput.WorkerBidDeclineOutput_refuses; skip
    WorkerReleaseOutput.WorkerReleaseOutput_refuses; skip
    WorkerReleaseAckOutput.WorkerReleaseAckOutput_refuses).
   - union (QueryWorkerFrameMsg_arm_WorkerCancelAck v H) ltac:(skip
    WorkerClientHelloOutput.WorkerClientHelloOutput_refuses; skip
    WorkerServerHelloOutput.WorkerServerHelloOutput_refuses; skip
    WorkerAuthenticatedOutput.WorkerAuthenticatedOutput_refuses; skip
    WorkerBidRequestOutput.WorkerBidRequestOutput_refuses; skip
    WorkerBidResponseOutput.WorkerBidResponseOutput_refuses; skip
    WorkerBidDeclineOutput.WorkerBidDeclineOutput_refuses; skip
    WorkerReleaseOutput.WorkerReleaseOutput_refuses; skip
    WorkerReleaseAckOutput.WorkerReleaseAckOutput_refuses; skip
    WorkerCancelOutput.WorkerCancelOutput_refuses).
   - union (QueryWorkerFrameMsg_arm_WorkerError v H) ltac:(skip
    WorkerClientHelloOutput.WorkerClientHelloOutput_refuses; skip
    WorkerServerHelloOutput.WorkerServerHelloOutput_refuses; skip
    WorkerAuthenticatedOutput.WorkerAuthenticatedOutput_refuses; skip
    WorkerBidRequestOutput.WorkerBidRequestOutput_refuses; skip
    WorkerBidResponseOutput.WorkerBidResponseOutput_refuses; skip
    WorkerBidDeclineOutput.WorkerBidDeclineOutput_refuses; skip
    WorkerReleaseOutput.WorkerReleaseOutput_refuses; skip
    WorkerReleaseAckOutput.WorkerReleaseAckOutput_refuses; skip
    WorkerCancelOutput.WorkerCancelOutput_refuses; skip
    WorkerCancelAckOutput.WorkerCancelAckOutput_refuses).
Qed.
End QueryWorkerFrameMsg.
#[export] Hint Resolve QueryWorkerFrameMsg.QueryWorkerFrameMsg_carried : codec.

Module QueryWorkerFrame.
Record t := mk {
  msg : QueryWorkerFrameMsg.t;
}.

Definition encode_into (self : t) : Encode :=
  QueryWorkerFrameMsg.encode_into (msg self) >>
  ok_unit.

Definition encode (self : t) : result BinSchemaError bytes := encode_with encode_into self.

Definition decode_with_decoder : Read t :=
  let! msg := QueryWorkerFrameMsg.decode_with_decoder in
  ret (mk msg).

Definition decode (l : bytes) : result BinSchemaError t := decode_with decode_with_decoder l.

(** The messages the wire can represent. *)
Definition wf (self : t) : bool :=
  QueryWorkerFrameMsg.wf (msg self).

Lemma QueryWorkerFrame_carried (self : t) : wf self = true -> carries (encode_into self)
  decode_with_decoder self.
Proof. destruct self. unfold encode_into, decode_with_decoder, wf. cbn [msg]. codec. Qed.
End QueryWorkerFrame.
#[export] Hint Resolve QueryWorkerFrame.QueryWorkerFrame_carried : codec.
