(* ===== verification/Proto.v ===== *)
(** * The wire protocol: framing, payloads, fingerprints

    [crates/proto/src/framing.rs], [payload.rs] and [fingerprint.rs].  A reader
    is the list of bytes it will still deliver, a writer the bytes written so
    far.  Parameters: the generated encoders ([Framed]), the zstd decoder and
    the 64-bit hash. *)

From S2P Require Import Prelude Order Bytes.

Definition MAX_FRAME_BYTES : Z := 32 * 1024 * 1024.

Section Framing.
  (** [BinSchemaError]. *)
  Context {E : Type}.

Inductive FrameError :=
| UnexpectedEof
| TooLarge (got max : Z)
| DecodeError (e : E)
| EncodeError (e : E).

(** The encode/decode pair of a generated top-level type. *)
Class Framed (T : Type) := {
  encode : T -> result E bytes;
  decode : bytes -> result E T;
}.

(** A message whose encoding decodes back to it: the generated encoders cast lengths
    and characters, so this is a condition on the message, not a law of the trait. *)
Definition faithful {T} `{Framed T} (x : T) : Prop := forall b, encode x = Ok b -> decode b = Ok x.

Definition read_u32 (r : bytes) : result FrameError (Z * bytes) :=
  if zlen r <? 4 then Err UnexpectedEof else Ok (from_be (take 4 r), drop 4 r).

Definition read_exact (n : Z) (r : bytes) : result FrameError (bytes * bytes) :=
  if zlen r <? n then Err UnexpectedEof else Ok (take (Z.to_nat n) r, drop (Z.to_nat n) r).

Definition read_frame_with_limit {T} `{Framed T} (r : bytes) (maximum_bytes : Z)
    : result FrameError (T * bytes) :=
  let maximum_bytes := Z.min maximum_bytes MAX_FRAME_BYTES in
  let? '(len, r) := read_u32 r in
  if maximum_bytes <? len then Err (TooLarge len maximum_bytes)
  else
    let? '(buf, r) := read_exact len r in
    let? x := map_err DecodeError (decode buf) in
    Ok (x, r).

Definition read_frame {T} `{Framed T} (r : bytes) : result FrameError (T * bytes) :=
  read_frame_with_limit r MAX_FRAME_BYTES.

Definition write_frame {T} `{Framed T} (w : bytes) (frame : T) : result FrameError bytes :=
  let? body := map_err EncodeError (encode frame) in
  if MAX_FRAME_BYTES <? zlen body then Err (TooLarge (zlen body) MAX_FRAME_BYTES)
  else Ok (w ++ be_bytes 4 (zlen body mod 2 ^ 32) ++ body).

Fixpoint write_frames {T} `{Framed T} (w : bytes) (fs : list T) : result FrameError bytes :=
  match fs with
  | [] => Ok w
  | f :: fs => let? w := write_frame w f in write_frames w fs
  end.

Fixpoint read_frames {T} `{Framed T} (n : nat) (r : bytes) : result FrameError (list T * bytes) :=
  match n with
  | O => Ok ([], r)
  | S n =>
      let? '(x, r) := read_frame r in
      let? '(xs, r) := read_frames n r in
      Ok (x :: xs, r)
  end.

Lemma write_frame_Ok {T} `{Framed T} w (f : T) w' :
  write_frame w f = Ok w' <->
  exists body, encode f = Ok body /\ zlen body <= MAX_FRAME_BYTES /\
    w' = w ++ be_bytes 4 (zlen body) ++ body.
Proof.
  unfold write_frame. destruct (encode f) as [body|e]; cbn [map_err result_bind];
    [|split; [done|naive_solver]].
  destruct (Z.ltb_spec MAX_FRAME_BYTES (zlen body)) as [|Hle].
  - split; [done|]. intros (b & [= <-] & ? & _). lia.
  - pose proof (zlen_nonneg body). rewrite Z.mod_small by (unfold MAX_FRAME_BYTES in *; lia).
    split; [intros [= <-]; eauto|]. by intros (b & [= <-] & _ & ->).
Qed.

(** What a frame read consumes. *)
Lemma read_frame_with_limit_frame {T} `{Framed T} (f : T) body rest limit :
  faithful f -> encode f = Ok body -> zlen body <= MAX_FRAME_BYTES -> zlen body <= limit ->
  read_frame_with_limit (be_bytes 4 (zlen body) ++ body ++ rest) limit = Ok (f, rest).
Proof.
  intros Hf He Hm Hl. unfold read_frame_with_limit, read_u32, read_exact.
  pose proof (zlen_nonneg body). pose proof (zlen_nonneg rest).
  rewrite (proj2 (Z.ltb_ge _ _)).
  2:{ rewrite !zlen_app, zlen_be_bytes. lia. }
  cbn [result_bind]. rewrite take_be_bytes, drop_be_bytes.
  rewrite from_be_be_bytes_id by (unfold MAX_FRAME_BYTES in *; lia).
  rewrite (proj2 (Z.ltb_ge _ _)) by lia.
  rewrite (proj2 (Z.ltb_ge _ _)) by (rewrite zlen_app; lia). cbn [result_bind].
  unfold zlen. rewrite Nat2Z.id, take_app_length, drop_app_length.
  by rewrite (Hf body He).
Qed.

Lemma write_frames_Ok {T} `{Framed T} w (fs : list T) w' :
  Forall faithful fs -> write_frames w fs = Ok w' ->
  exists stream, w' = w ++ stream /\
    forall rest, read_frames (length fs) (stream ++ rest) = Ok (fs, rest).
Proof.
  intros Hfs. revert w. induction Hfs as [|f fs Hf Hfs IH]; intros w; cbn [write_frames].
  { intros [= <-]. exists []. by rewrite app_nil_r. }
  destruct (write_frame w f) as [w1|] eqn:E1; cbn [result_bind]; [|done].
  apply write_frame_Ok in E1 as (body & He & Hm & ->).
  intros (stream & -> & Hr)%IH. exists ((be_bytes 4 (zlen body) ++ body) ++ stream).
  split; [by rewrite <- !app_assoc|]. intros rest. cbn [length read_frames]. unfold read_frame.
  rewrite <- !app_assoc, (read_frame_with_limit_frame f body _ _ Hf He Hm) by lia.
  cbn [result_bind]. by rewrite Hr.
Qed.

(** Frames are written as long as each encodes within the ceiling. *)
Lemma write_frames_total {T} `{Framed T} w (fs : list T) :
  Forall (fun f => exists body, encode f = Ok body /\ zlen body <= MAX_FRAME_BYTES) fs ->
  exists w', write_frames w fs = Ok w'.
Proof.
  intros Hf. revert w. induction Hf as [|f fs (body & He & Hm) _ IH]; intros w; cbn [write_frames]; [eauto|].
  rewrite (proj2 (write_frame_Ok w f _)) by eauto. cbn [result_bind]. apply IH.
Qed.

(** Frames round trip: a sequence of messages, each with an encoding no longer than
    [MAX_FRAME_BYTES] that decodes back to it, can be written on a connection, and reading
    as many frames gives the same messages back in order and leaves exactly what follows
    them. *)
Lemma frames_read_back {T} `{Framed T} (fs : list T) (rest : bytes) :
  Forall (fun f => exists body, encode f = Ok body /\ zlen body <= MAX_FRAME_BYTES /\ decode body = Ok f) fs ->
  exists w, write_frames [] fs = Ok w /\ read_frames (length fs) (w ++ rest) = Ok (fs, rest).
Proof.
  intros Hfs. destruct (write_frames_total [] fs) as [w Hw].
  { eapply Forall_impl; [exact Hfs|]. naive_solver. }
  exists w. split; [done|]. apply write_frames_Ok in Hw as (stream & -> & Hr); [apply Hr|].
  eapply Forall_impl; [exact Hfs|]. intros f (body & He & _ & Hd) b Hb. congruence.
Qed.

(** A frame reader never reserves more than its limit: a success consumed four
    bytes of prefix and a body no longer than the limit and the global ceiling;
    an announced length above that is refused on the prefix alone, before any
    body byte is looked at. *)
Theorem read_frame_bounded {T} `{Framed T} (r : bytes) (limit : Z) :
  let m := Z.min limit MAX_FRAME_BYTES in
  (forall (x : T) r', read_frame_with_limit r limit = Ok (x, r') ->
     exists body, r = take 4 r ++ body ++ r' /\ zlen body = from_be (take 4 r) /\ zlen body <= m /\
       decode body = Ok x) /\
  (forall body, 4 <= zlen r -> m < from_be (take 4 r) ->
     read_frame_with_limit (T := T) (take 4 r ++ body) limit =
       Err (TooLarge (from_be (take 4 r)) m)).
Proof.
  cbv zeta. split.
  - intros x r'. unfold read_frame_with_limit, read_u32, read_exact. case_match eqn:H4; [done|].
    apply Z.ltb_ge in H4. cbn [result_bind]. case_match eqn:Hm; [done|]. apply Z.ltb_ge in Hm.
    case_match eqn:Hx; [done|]. apply Z.ltb_ge in Hx. cbn [result_bind].
    destruct (decode _) as [y|] eqn:Hd; cbn [map_err result_bind]; [|done]. intros [= <- <-].
    pose proof (from_be_range (take 4 r)).
    exists (take (Z.to_nat (from_be (take 4 r))) (drop 4 r)). split_and!; try done.
    + by rewrite take_drop, take_drop.
    + unfold zlen in *. rewrite length_take. lia.
    + unfold zlen in *. rewrite length_take. lia.
  - intros body H4 Hm. unfold read_frame_with_limit, read_u32.
    assert (length (take 4 r) = 4%nat) as Hl by (rewrite length_take; unfold zlen in H4; lia).
    rewrite (proj2 (Z.ltb_ge _ _)).
    2:{ rewrite zlen_app. unfold zlen. rewrite Hl. lia. }
    cbn [result_bind]. rewrite take_app_le, take_take by lia. cbn [Nat.min].
    by rewrite (proj2 (Z.ltb_lt _ _)).
Qed.
End Framing.

(** ** Batch payloads *)

Definition COMPRESSION_NONE : Z := 0.
Definition COMPRESSION_ZSTD : Z := 1.

Section Payload.
  Context {Z_Err : Type}.
  (** [zstd::stream::read::Decoder::new]: it fails, or gives a reader that
      delivers some bytes and then ends, with an error or without. *)
  Context (zstd_decoder : bytes -> result Z_Err (bytes * option Z_Err)).

Inductive PayloadDecodeError :=
| PayloadTooLarge (max_bytes : Z)
| SizeMismatch (declared actual : Z)
| UnknownCompression (c : Z)
| Zstd (e : Z_Err).

(** [decoder.take(limit).read_to_end(&mut out)]. *)
Definition read_to_end_limited (stream : bytes * option Z_Err) (limit : Z)
    : result Z_Err bytes :=
  let '(content, ending) := stream in
  if limit <=? zlen content then Ok (take (Z.to_nat limit) content)
  else match ending with Some e => Err e | None => Ok content end.

Definition decode_batch_payload (payload : bytes) (compression declared_size max_bytes : Z)
    : result PayloadDecodeError bytes :=
  let declared := declared_size in
  if max_bytes <? declared then Err (PayloadTooLarge max_bytes)
  else
    let? decoded :=
      (if compression =? COMPRESSION_NONE then
         if max_bytes <? zlen payload then Err (PayloadTooLarge max_bytes) else Ok payload
       else if compression =? COMPRESSION_ZSTD then
         let? decoder := map_err Zstd (zstd_decoder payload) in
         let? out := map_err Zstd (read_to_end_limited decoder (wrapping_add max_bytes 1)) in
         if max_bytes <? zlen out then Err (PayloadTooLarge max_bytes) else Ok out
       else Err (UnknownCompression compression)) in
    if negb (zlen decoded =? declared) then Err (SizeMismatch declared (zlen decoded))
    else Ok decoded.

(** A decoded payload is trustworthy: on success its length is exactly the
    declared one and within the bound, and it is the payload itself or the
    complete output of a decompression that ended without an error, never a
    truncation; a payload whose true expansion exceeds the bound is refused
    whatever size was declared. *)
Theorem payload_decode_bounded payload compression declared max_bytes :
  0 <= max_bytes < u64_max ->
  (forall out, decode_batch_payload payload compression declared max_bytes = Ok out ->
     zlen out = declared /\ declared <= max_bytes /\
     ((compression = COMPRESSION_NONE /\ out = payload) \/
      (compression = COMPRESSION_ZSTD /\ zstd_decoder payload = Ok (out, None)))) /\
  (forall content ending, compression = COMPRESSION_ZSTD ->
     zstd_decoder payload = Ok (content, ending) -> max_bytes < zlen content ->
     decode_batch_payload payload compression declared max_bytes =
       Err (PayloadTooLarge max_bytes)).
Proof.
  intros Hm. assert (wrapping_add max_bytes 1 = max_bytes + 1) as Hw
    by (unfold wrapping_add; apply wrap64_id; ints).
  unfold decode_batch_payload, COMPRESSION_NONE, COMPRESSION_ZSTD. rewrite Hw. split.
  - intros out. case_match eqn:Hd; [done|]. apply Z.ltb_ge in Hd.
    destruct (Z.eqb_spec compression 0) as [->|].
    { case_match; cbn [result_bind]; [done|]. destruct (Z.eqb_spec (zlen payload) declared); [|done].
      intros [= <-]. auto. }
    destruct (Z.eqb_spec compression 1) as [->|]; [|done].
    destruct (zstd_decoder payload) as [[content ending]|]; cbn [map_err result_bind]; [|done].
    unfold read_to_end_limited. destruct (Z.leb_spec (max_bytes + 1) (zlen content)) as [Hle|].
    { cbn [map_err result_bind]. rewrite (proj2 (Z.ltb_lt max_bytes _)); [done|].
      unfold zlen in *. rewrite length_take. lia. }
    destruct ending; cbn [map_err result_bind]; [done|].
    case_match; cbn [result_bind]; [done|]. destruct (Z.eqb_spec (zlen content) declared); [|done].
    intros [= <-]. auto.
  - intros content ending -> Hz Hlen. case_match; [done|]. cbn [Z.eqb Pos.eqb].
    rewrite Hz. cbn [map_err result_bind]. unfold read_to_end_limited.
    rewrite (proj2 (Z.leb_le _ _)) by lia. cbn [map_err result_bind].
    rewrite (proj2 (Z.ltb_lt max_bytes _)); [done|].
    unfold zlen in *. rewrite length_take. lia.
Qed.
End Payload.

(** ** Series fingerprints *)

Record LabelPair := mkLabel { key : string; value : string }.

Section Fingerprint.
  (** [XxHash64::with_seed(0)] fed with the bytes, then [finish]. *)
  Context (xxhash64 : bytes -> Z).

Definition fingerprint (labels : list LabelPair) : Z :=
  let pairs := stable_sort (fun a b =>
      match then_with (cmp (key a) (key b)) (cmp (value a) (value b)) with
      | Gt => false | _ => true
      end) labels in
  xxhash64 (concat (map (fun p => str (key p) ++ [z2b 0] ++ str (value p) ++ [z2b 0]) pairs)).

(** A series fingerprint identifies the set of labels, not their order: it is
    the same for every permutation of the labels. *)
Theorem fingerprint_order_independent labels labels' :
  Permutation labels labels' -> fingerprint labels = fingerprint labels'.
Proof.
  intros HP. unfold fingerprint. do 3 f_equal.
  change (sort_by_key (fun p => (key p, value p)) labels =
          sort_by_key (fun p => (key p, value p)) labels').
  apply sort_by_key_unique; [|done]. intros [] [] _ _ [= -> ->]. done.
Qed.
End Fingerprint.

(** ** Witnesses *)

(** A decoder that expands each byte to two. *)
Definition demo_zstd (p : bytes) : result unit (bytes * option unit) :=
  Ok (concat (map (fun b => [b; b]) p), None).

Lemma payload_decode_bounded_witness :
  decode_batch_payload demo_zstd (str "abcdef") 1 4 10 = Err (PayloadTooLarge 10).
Proof.
  apply (payload_decode_bounded demo_zstd (str "abcdef") 1 4 10
           ltac:(vm_compute; split; [discriminate|reflexivity])
        ) with (content := concat (map (fun b => [b; b]) (str "abcdef"))) (ending := None).
  - reflexivity.
  - reflexivity.
  - vm_compute. reflexivity.
Defined.

Lemma fingerprint_order_independent_witness :
  fingerprint from_be [mkLabel "host" "h1"; mkLabel "job" "scry"] =
  fingerprint from_be [mkLabel "job" "scry"; mkLabel "host" "h1"].
Proof.
  apply (fingerprint_order_independent from_be). apply Permutation_swap.
Defined.
