(* ===== verification/WireFrames.v ===== *)
(** * Frames on a connection

    [crates/proto/src/framing.rs] over the three generated protocols: the instances of
    [Framed], and the constructors of [crates/proto/src/build.rs].  The generated codecs
    give the messages that come back through the framing. *)

From S2P Require Import Prelude Bytes Utf8 BitStream Codec Proto Wire WireQuery WireWorker.

(** ** [impl Framed] *)

#[export] Instance Frame_Framed : Framed (E := BinSchemaError) Frame.t := {|
  encode := Frame.encode;
  decode := Frame.decode;
|}.

#[export] Instance QueryFrame_Framed : Framed (E := BinSchemaError) QueryFrame.t := {|
  encode := QueryFrame.encode;
  decode := QueryFrame.decode;
|}.

#[export] Instance QueryWorkerFrame_Framed : Framed (E := BinSchemaError) QueryWorkerFrame.t := {|
  encode := QueryWorkerFrame.encode;
  decode := QueryWorkerFrame.decode;
|}.

(** ** The constructors of [build.rs] *)

Record HelloArgs := mkHelloArgs {
  h_protocol_version : Z; h_agent_id : bytes; h_agent_version : bytes; h_hostname : bytes;
  h_signals : Z; h_capabilities : Z; h_resource_attrs : list LabelPair.t;
}.

Definition hello (a : HelloArgs) : Frame.t :=
  Frame.mk (FrameMsg.Hello (HelloOutput.from_input
    (HelloInput.mk (h_protocol_version a) (h_agent_id a) (h_agent_version a) (h_hostname a)
      (h_signals a) (h_capabilities a) (h_resource_attrs a)))).

Record HelloAckArgs := mkHelloAckArgs {
  ha_protocol_version : Z; ha_writer_id : bytes; ha_session_id : Z; ha_capabilities : Z;
  ha_suggested_batch_bytes : Z; ha_max_batch_bytes : Z; ha_max_inflight_batches : Z;
}.

Definition hello_ack (a : HelloAckArgs) : Frame.t :=
  Frame.mk (FrameMsg.HelloAck (HelloAckOutput.from_input
    (HelloAckInput.mk (ha_protocol_version a) (ha_writer_id a) (ha_session_id a) (ha_capabilities a)
      (ha_suggested_batch_bytes a) (ha_max_batch_bytes a) (ha_max_inflight_batches a)))).

Record AgentStatusArgs := mkAgentStatusArgs {
  as_session_id : Z; as_sequence : Z; as_snapshot_json : bytes;
}.

Definition agent_status (a : AgentStatusArgs) : Frame.t :=
  Frame.mk (FrameMsg.AgentStatus (AgentStatusOutput.from_input
    (AgentStatusInput.mk (as_session_id a) (as_sequence a) (as_snapshot_json a)))).

Record BatchArgs := mkBatchArgs {
  b_session_id : Z; b_batch_id : Z; b_signal : Z; b_ts_min_unix_nano : Z; b_ts_max_unix_nano : Z;
  b_record_count : Z; b_compression : Z; b_uncompressed_size : Z; b_payload : bytes;
}.

Definition batch (a : BatchArgs) : Frame.t :=
  Frame.mk (FrameMsg.Batch (BatchOutput.from_input
    (BatchInput.mk (b_session_id a) (b_batch_id a) (b_signal a) (b_ts_min_unix_nano a)
      (b_ts_max_unix_nano a) (b_record_count a) (b_compression a) (b_uncompressed_size a)
      (b_payload a)))).

Definition batch_ack (session_id batch_id status retry_after_ms reason_code : Z) (message : bytes) : Frame.t :=
  Frame.mk (FrameMsg.BatchAck (BatchAckOutput.from_input
    (BatchAckInput.mk session_id batch_id status retry_after_ms reason_code message))).

Definition flow_control (session_id signal max_bytes_per_sec max_batches_inflight valid_for_ms : Z) : Frame.t :=
  Frame.mk (FrameMsg.FlowControl (FlowControlOutput.from_input
    (FlowControlInput.mk session_id signal max_bytes_per_sec max_batches_inflight valid_for_ms))).

Definition ping (nonce : Z) : Frame.t :=
  Frame.mk (FrameMsg.Ping (PingOutput.from_input (PingInput.mk nonce))).

Definition pong (nonce : Z) : Frame.t :=
  Frame.mk (FrameMsg.Pong (PongOutput.from_input (PongInput.mk nonce))).

Definition goodbye (reason_code : Z) (message : bytes) : Frame.t :=
  Frame.mk (FrameMsg.Goodbye (GoodbyeOutput.from_input (GoodbyeInput.mk reason_code message))).

Definition error (code : Z) (message : bytes) : Frame.t :=
  Frame.mk (FrameMsg.Error (ErrorOutput.from_input (ErrorInput.mk code message))).

Definition subscribe (signal : Z) (matchers : list bytes) : Frame.t :=
  Frame.mk (FrameMsg.Subscribe (SubscribeOutput.from_input
    (SubscribeInput.mk signal (map MatcherSpec.mk matchers)))).

Record TailRecordArgs := mkTailRecordArgs {
  tr_signal : Z; tr_ts_unix_nano : Z; tr_severity : Z; tr_labels : list LabelPair.t; tr_body : bytes;
  tr_attributes : list LabelPair.t;
}.

Definition tail_record (a : TailRecordArgs) : Frame.t :=
  Frame.mk (FrameMsg.TailRecord (TailRecordOutput.from_input
    (TailRecordInput.mk (tr_signal a) (tr_ts_unix_nano a) (tr_severity a) (tr_labels a) (tr_body a)
      (tr_attributes a)))).

Record TailSampleArgs := mkTailSampleArgs {
  ts_signal : Z; ts_ts_unix_nano : Z; ts_metric_type : Z; ts_series_fingerprint : Z; ts_value : Z;
  ts_labels : list LabelPair.t;
}.

Definition tail_metric_point_v2 (signal series_fingerprint : Z) (labels : list LabelPair.t)
    (descriptor : MetricDescriptorV2.t) (point : MetricPointV2.t) : Frame.t :=
  Frame.mk (FrameMsg.TailMetricPointV2 (TailMetricPointV2Output.from_input
    (TailMetricPointV2Input.mk signal series_fingerprint labels descriptor point))).

Definition tail_sample (a : TailSampleArgs) : Frame.t :=
  Frame.mk (FrameMsg.TailSample (TailSampleOutput.from_input
    (TailSampleInput.mk (ts_signal a) (ts_ts_unix_nano a) (ts_metric_type a) (ts_series_fingerprint a)
      (ts_value a) (ts_labels a)))).

Record LiveQueryArgs := mkLiveQueryArgs {
  lq_signal : Z; lq_matchers : list bytes; lq_ts_min_unix_nano : Z; lq_ts_max_unix_nano : Z;
  lq_body_contains : bytes;
}.

Definition live_query (a : LiveQueryArgs) : Frame.t :=
  Frame.mk (FrameMsg.LiveQuery (LiveQueryOutput.from_input
    (LiveQueryInput.mk (lq_signal a) (map MatcherSpec.mk (lq_matchers a)) (lq_ts_min_unix_nano a)
      (lq_ts_max_unix_nano a) (lq_body_contains a)))).

Definition live_batch (writer_uuid : bytes) (records : list LiveRecord.t) : Frame.t :=
  Frame.mk (FrameMsg.LiveBatch (LiveBatchOutput.from_input (LiveBatchInput.mk writer_uuid records))).

(** ** Streams of frames *)

(** The body of a frame is within the ceiling of the framing. *)
Definition small {T} `{Framed BinSchemaError T} (f : T) : bool :=
  match encode f with Ok body => zlen body <=? MAX_FRAME_BYTES | Err _ => false end.

Lemma stream_read_back {T} `{Framed BinSchemaError T} (wf : T -> bool) (fs : list T) (rest : bytes) :
  (forall f, wf f = true -> exists l, encode f = Ok l /\ decode l = Ok f) ->
  forallb wf fs = true -> forallb small fs = true ->
  exists w, write_frames [] fs = Ok w /\ read_frames (length fs) (w ++ rest) = Ok (fs, rest).
Proof.
  intros Hwf Hf Hs. apply frames_read_back, List.Forall_forall. intros f Hin.
  rewrite forallb_forall in Hf, Hs. destruct (Hwf f (Hf f Hin)) as (l & He & Hd). specialize (Hs f Hin).
  unfold small in Hs. rewrite He in Hs. exists l. split_and!; [done| |done]. by apply Z.leb_le.
Qed.


(** The payload of every batch a frame can carry, and every nested record of it, is
    decoded to the value that was encoded. *)
Theorem payloads_roundtrip :
  (forall b, LogsBatch.wf b = true -> exists l, LogsBatch.encode b = Ok l /\ LogsBatch.decode l = Ok b) /\
  (forall b, MetricsBatch.wf b = true -> exists l, MetricsBatch.encode b = Ok l /\ MetricsBatch.decode l = Ok b) /\
  (forall b, TracesBatch.wf b = true -> exists l, TracesBatch.encode b = Ok l /\ TracesBatch.decode l = Ok b) /\
  (forall b, ProfilesBatch.wf b = true -> exists l, ProfilesBatch.encode b = Ok l /\ ProfilesBatch.decode l = Ok b) /\
  (forall b, LogsBatchV2Output.wf b = true ->
     exists l, LogsBatchV2Output.encode b = Ok l /\ LogsBatchV2Output.decode l = Ok b) /\
  (forall b, MetricsBatchV2Output.wf b = true ->
     exists l, MetricsBatchV2Output.encode b = Ok l /\ MetricsBatchV2Output.decode l = Ok b).
Proof.
  split_and!; intros b Hb.
  - apply carries_roundtrip, LogsBatch.LogsBatch_carried, Hb.
  - apply carries_roundtrip, MetricsBatch.MetricsBatch_carried, Hb.
  - apply carries_roundtrip, TracesBatch.TracesBatch_carried, Hb.
  - apply carries_roundtrip, ProfilesBatch.ProfilesBatch_carried, Hb.
  - apply (carries_roundtrip LogsBatchV2Output.encode_into), LogsBatchV2Output.LogsBatchV2Output_carried, Hb.
  - apply (carries_roundtrip MetricsBatchV2Output.encode_into),
      MetricsBatchV2Output.MetricsBatchV2Output_carried, Hb.
Qed.

(** ** Errors of a union *)

(** On inputs of [n] bytes the read succeeds or reports that no variant matched. *)
Definition only_variant_error {A} (n : Z) (rd : Read A) : Prop :=
  forall d, bytes_len d = n -> byte_offset d <= n ->
    (exists x, rd d = Ok x) \/ rd d = Err (InvalidVariant "no variant matched the input bytes").

Lemma only_variant_last {A B} n (dec : Read A) (inj : A -> B) : only_variant_error n (last_variant dec inj).
Proof. intros d _ _. unfold last_variant. destruct (dec d) as [[v d']|]; [left; by eexists|by right]. Qed.

Lemma only_variant_try {A B} n start (dec : Read A) (inj : A -> B) next :
  start <= n -> only_variant_error n next -> only_variant_error n (try_variant start dec inj next).
Proof.
  intros Hs Hn d Hd _. unfold try_variant. destruct (dec d) as [[v d']|]; [left; by eexists|].
  unfold seek. rewrite Hd, (proj2 (Z.ltb_ge n start)) by done. by apply Hn.
Qed.

Lemma only_variant_decode {A} (rd : Read A) l :
  only_variant_error (zlen l) rd ->
  (exists x, decode_with rd l = Ok x) \/
  decode_with rd l = Err (InvalidVariant "no variant matched the input bytes").
Proof.
  intros H. unfold decode_with. destruct (H (decoder_new l MsbFirst) eq_refl (zlen_nonneg l)) as [[[v d] ->]| ->];
    [left; by eexists|by right].
Qed.

Lemma only_variant_map {A B} n (rd : Read A) (f : A -> B) :
  only_variant_error n rd -> only_variant_error n (let! x := rd in ret (f x)).
Proof.
  intros H d Hd Ho. unfold bind_read. destruct (H d Hd Ho) as [[[v d'] ->]| ->];
    [left; by eexists|by right].
Qed.

Lemma only_variant_use {A} n (rd : Read A) d :
  bytes_len d = n -> byte_offset d <= n -> only_variant_error n rd ->
  (exists x, rd d = Ok x) \/ rd d = Err (InvalidVariant "no variant matched the input bytes").
Proof. intros Hd Ho H. by apply H. Qed.

Ltac only_variant d Hd Ho :=
  apply (only_variant_use _ _ d Hd Ho); repeat (apply only_variant_try; [exact Ho|]); apply only_variant_last.

(** A frame that does not decode is always reported as "no variant matched",
    whatever is wrong with it: the arms of the union swallow the error of the arm
    whose tag matched, so a truncated message is never reported as incomplete data,
    the code the runtime documents as the signal to wait for more. *)
Theorem frame_errors_are_invalid_variant (l : bytes) :
  ((exists f, Frame.decode l = Ok f) \/
   Frame.decode l = Err (InvalidVariant "no variant matched the input bytes")) /\
  ((exists f, QueryFrame.decode l = Ok f) \/
   QueryFrame.decode l = Err (InvalidVariant "no variant matched the input bytes")) /\
  ((exists f, QueryWorkerFrame.decode l = Ok f) \/
   QueryWorkerFrame.decode l = Err (InvalidVariant "no variant matched the input bytes")).
Proof.
  split_and!; apply only_variant_decode, only_variant_map; intros d Hd Ho.
  - unfold FrameMsg.decode_with_decoder. cbv zeta. only_variant d Hd Ho.
  - unfold QueryFrameMsg.decode_with_decoder. cbv zeta. only_variant d Hd Ho.
  - unfold QueryWorkerFrameMsg.decode_with_decoder. cbv zeta. only_variant d Hd Ho.
Qed.

(** ** Witnesses *)

Definition demo_frames : list Frame.t :=
  [hello (mkHelloArgs 2 (replicate 16 x07) (str "1.2.0") (str "node-1") 3 1
     [LabelPair.mk (str "cluster") (str "eu")]);
   batch (mkBatchArgs 7 1 1 10 20 1 0 3 (str "abc")); batch_ack 7 1 0 0 0 []; ping 9; pong 9;
   subscribe 1 [str "job=scry"]; live_query (mkLiveQueryArgs 1 [str "a=b"] 0 0 (str "boom"));
   live_batch (replicate 16 x01) []; goodbye 0 (str "bye"); error 3 (str "no")].


Definition demo_logs : LogsBatch.t :=
  LogsBatch.mk [LogStream.mk 5 [LabelPair.mk (str "app") (str "scry")]
    [LogEntry.mk 1 9 (str "hello") []]].

Lemma payloads_roundtrip_witness : exists l, LogsBatch.encode demo_logs = Ok l /\ LogsBatch.decode l = Ok demo_logs.
Proof. apply (proj1 payloads_roundtrip). vm_compute. reflexivity. Defined.

(** A batch cut short reports no missing data. *)
Example truncated_batch :
  exists l, Frame.encode (ping 9) = Ok l /\
    Frame.decode (take 5 l) = Err (InvalidVariant "no variant matched the input bytes").
Proof. eexists. split; [vm_compute; reflexivity|vm_compute; reflexivity]. Qed.

(** A host name of 256 bytes is written with a length of zero: the frame encodes, and
    the peer cannot read it. *)
Definition long_hello : Frame.t :=
  hello (mkHelloArgs 2 (replicate 16 x07) (str "1.2.0") (replicate 256 x61) 3 1 []).

(** The encoders cast lengths without a check: a message whose field is too long
    for its prefix encodes without an error, and its bytes are not a message. *)
Theorem overlong_field_corrupts_frame :
  Frame.wf long_hello = false /\
  exists l, Frame.encode long_hello = Ok l /\
    Frame.decode l = Err (InvalidVariant "no variant matched the input bytes").
Proof. split; [vm_compute; reflexivity|]. eexists. split; [vm_compute; reflexivity|vm_compute; reflexivity]. Qed.
