(* ===== verification/ResultCache.v ===== *)
(** * The query result cache: a byte-budgeted LRU

    [crates/query/src/result_cache.rs].  The linked hash map of the hashlink
    crate is an interface: a type with the operations the cache calls, whose
    laws say what they do to the list of entries, head least recently used. *)

From S2P Require Import Prelude Bytes.

(** ** The linked hash map *)

Definition al_get {K V} `{EqDecision K} (k : K) (l : list (K * V)) : option V :=
  snd <$> List.find (fun p => bool_decide (fst p = k)) l.

Definition al_remove {K V} `{EqDecision K} (k : K) (l : list (K * V)) : list (K * V) :=
  List.filter (fun p => negb (bool_decide (fst p = k))) l.

Class LinkedHashMap (K V : Type) `{EqDecision K} (M : Type) := {
  lh_list : M -> list (K * V);
  lh_new : M;
  lh_get : K -> M -> option V;
  lh_to_back : K -> M -> M;
  lh_remove : K -> M -> M * option V;
  lh_insert : K -> V -> M -> M;
  lh_pop_front : M -> M * option (K * V);
  lh_len : M -> Z;
  lh_new_list : lh_list lh_new = [];
  lh_get_list k m : lh_get k m = al_get k (lh_list m);
  lh_to_back_list k v m : al_get k (lh_list m) = Some v ->
    lh_list (lh_to_back k m) = al_remove k (lh_list m) ++ [(k, v)];
  lh_remove_list k m : lh_list (fst (lh_remove k m)) = al_remove k (lh_list m) /\
    snd (lh_remove k m) = al_get k (lh_list m);
  lh_insert_list k v m : al_get k (lh_list m) = None ->
    lh_list (lh_insert k v m) = lh_list m ++ [(k, v)];
  lh_pop_front_list m :
    match lh_list m with
    | [] => lh_pop_front m = (m, None)
    | e :: l => lh_list (fst (lh_pop_front m)) = l /\ snd (lh_pop_front m) = Some e
    end;
  lh_len_list m : lh_len m = zlen (lh_list m);
}.

(** ** The cache *)

Definition ENTRY_OVERHEAD_BYTES : Z := 64.

Record Entry := mkEntry { e_bytes : bytes; weight : Z; e_rows : Z }.
Record CachedResponse := mkResponse { r_bytes : bytes; r_rows : Z }.
Record ReleaseReport := mkReport { released_entries : Z; released_bytes : Z }.

Record QueryResultCacheStats := mkStats {
  s_hits : Z; s_misses : Z; s_inserts : Z; s_evictions : Z;
  s_bytes_in : Z; s_entries : Z; s_budget_bytes : Z;
}.

Definition stats_delta (self prior : QueryResultCacheStats) : QueryResultCacheStats :=
  mkStats (sat_sub (s_hits self) (s_hits prior)) (sat_sub (s_misses self) (s_misses prior))
    (sat_sub (s_inserts self) (s_inserts prior)) (sat_sub (s_evictions self) (s_evictions prior))
    (s_bytes_in self) (s_entries self) (s_budget_bytes self).

(** The state behind the mutex, the budget and the counters. *)
Record QueryResultCache (M : Type) := mkCache {
  map_ : M;
  bytes_in : Z;
  budget_bytes : Z;
  hits : Z;
  misses : Z;
  inserts : Z;
  evictions : Z;
}.
Arguments mkCache {M} _ _ _ _ _ _ _.
Arguments map_ {M} _.
Arguments bytes_in {M} _.
Arguments budget_bytes {M} _.
Arguments hits {M} _.
Arguments misses {M} _.
Arguments inserts {M} _.
Arguments evictions {M} _.

Section Cache.
  Context {M : Type} `{!LinkedHashMap Z Entry M}.
  Implicit Types c : QueryResultCache M.

Definition with_budget_bytes (budget : Z) : QueryResultCache M := mkCache lh_new 0 budget 0 0 0 0.

Definition enabled c : bool := 0 <? budget_bytes c.

Definition stats c : QueryResultCacheStats :=
  mkStats (hits c) (misses c) (inserts c) (evictions c) (bytes_in c) (lh_len (map_ c))
    (budget_bytes c).

Definition get c (key : Z) : QueryResultCache M * option CachedResponse :=
  if negb (enabled c) then (c, None)
  else
    match lh_get key (map_ c) with
    | Some entry =>
        (mkCache (lh_to_back key (map_ c)) (bytes_in c) (budget_bytes c)
           (wrapping_add (hits c) 1) (misses c) (inserts c) (evictions c),
         Some (mkResponse (e_bytes entry) (e_rows entry)))
    | None =>
        (mkCache (map_ c) (bytes_in c) (budget_bytes c) (hits c)
           (wrapping_add (misses c) 1) (inserts c) (evictions c), None)
    end.

(** [while bytes_in > budget && map.len() > 1]; [fuel] bounds the pops. *)
Fixpoint evict_to_budget (fuel : nat) c : QueryResultCache M :=
  match fuel with
  | O => c
  | S fuel =>
      if (budget_bytes c <? bytes_in c) && (1 <? lh_len (map_ c))
      then
        match lh_pop_front (map_ c) with
        | (m, Some (_, victim)) =>
            evict_to_budget fuel
              (mkCache m (sat_sub (bytes_in c) (weight victim)) (budget_bytes c)
                 (hits c) (misses c) (inserts c) (wrapping_add (evictions c) 1))
        | (_, None) => c
        end
      else c
  end.

Definition insert c (key : Z) (bytes : bytes) (rows : Z) : QueryResultCache M :=
  if negb (enabled c) then c
  else
    let entry_weight := sat_add (zlen bytes) ENTRY_OVERHEAD_BYTES in
    if budget_bytes c <? entry_weight then c
    else
      let '(m, old) := lh_remove key (map_ c) in
      let b := match old with
               | Some o => sat_sub (bytes_in c) (weight o)
               | None => bytes_in c
               end in
      let m := lh_insert key (mkEntry bytes entry_weight rows) m in
      evict_to_budget (Z.to_nat (lh_len m))
        (mkCache m (sat_add b entry_weight) (budget_bytes c) (hits c) (misses c)
           (wrapping_add (inserts c) 1) (evictions c)).

Definition try_clear c : QueryResultCache M * ReleaseReport :=
  (mkCache lh_new 0 (budget_bytes c) (hits c) (misses c) (inserts c) (evictions c),
   mkReport (lh_len (map_ c)) (bytes_in c)).

(** ** The operations of a client *)

Inductive Op :=
| OpGet (key : Z)
| OpInsert (key : Z) (bytes : bytes) (rows : Z)
| OpClear.

Definition step c (op : Op) : QueryResultCache M :=
  match op with
  | OpGet k => fst (get c k)
  | OpInsert k b r => insert c k b r
  | OpClear => fst (try_clear c)
  end.

End Cache.

(** ** Association lists *)

Section AssocList.
  Context {K V : Type} `{EqDecision K}.
  Implicit Types (k : K) (l : list (K * V)).

Lemma al_get_cons k k' v l :
  al_get k ((k', v) :: l) = if bool_decide (k' = k) then Some v else al_get k l.
Proof. unfold al_get. simpl. by case_bool_decide. Qed.

Lemma al_get_app k l1 l2 :
  al_get k (l1 ++ l2) = match al_get k l1 with Some v => Some v | None => al_get k l2 end.
Proof.
  induction l1 as [|[k' v] l1 IH]; [done|]. cbn [app]. rewrite !al_get_cons.
  by case_bool_decide.
Qed.

Lemma al_get_None k l : al_get k l = None <-> ~ In k (map fst l).
Proof.
  induction l as [|[k' v] l IH]; [cbn; tauto|]. rewrite al_get_cons. cbn [map In fst].
  case_bool_decide as Hk; [|rewrite IH; tauto]. subst. split; [done|]. tauto.
Qed.

Lemma al_get_In k v l : al_get k l = Some v -> (k, v) ∈ l.
Proof.
  unfold al_get. intros ([k' v'] & Hf & ->)%fmap_Some.
  apply List.find_some in Hf as [Hf <-%bool_decide_eq_true]. by apply list_elem_of_In.
Qed.

Lemma al_remove_not_In k l : ~ In k (map fst (al_remove k l)).
Proof.
  intros ([k' v] & <- & [_ Hin]%List.filter_In)%in_map_iff. simpl in Hin.
  by rewrite bool_decide_eq_true_2 in Hin.
Qed.

Lemma al_get_remove_eq k l : al_get k (al_remove k l) = None.
Proof. apply al_get_None, al_remove_not_In. Qed.

Lemma al_get_remove_ne k k' l : k <> k' -> al_get k' (al_remove k l) = al_get k' l.
Proof.
  intros Hne. induction l as [|[j v] l IH]; [done|]. unfold al_remove in *. cbn [List.filter fst].
  rewrite al_get_cons. case_bool_decide as Hj; simpl.
  - subst j. rewrite bool_decide_eq_false_2 by done. exact IH.
  - rewrite al_get_cons. by case_bool_decide.
Qed.

Lemma al_remove_absent k l : al_get k l = None -> al_remove k l = l.
Proof.
  rewrite al_get_None. unfold al_remove. induction l as [|[k' v] l IH]; [done|].
  cbn [map In fst List.filter]. intros Hn. rewrite bool_decide_eq_false_2 by tauto. simpl.
  rewrite IH by tauto. done.
Qed.

Lemma al_remove_keys_NoDup k l : NoDup (map fst l) -> NoDup (map fst (al_remove k l)).
Proof.
  unfold al_remove. induction l as [|[k' v] l IH]; [done|]. cbn [map List.filter fst].
  rewrite NoDup_cons. intros [Hn Hl]. case_bool_decide; simpl; [by apply IH|].
  apply NoDup_cons. split; [|by apply IH]. intros Hin. apply Hn.
  apply list_elem_of_In, in_map_iff in Hin as (p & <- & [Hp _]%List.filter_In).
  by apply list_elem_of_In, in_map.
Qed.
End AssocList.

(** ** Accounting *)

Definition total_weight (l : list (Z * Entry)) : Z := fold_right (fun p n => weight (snd p) + n) 0 l.

Lemma total_weight_app l1 l2 : total_weight (l1 ++ l2) = total_weight l1 + total_weight l2.
Proof. induction l1; simpl; lia. Qed.

Lemma total_weight_remove k l :
  NoDup (map fst l) ->
  total_weight l = total_weight (al_remove k l) +
    match al_get k l with Some e => weight e | None => 0 end.
Proof.
  induction l as [|[k' e] l IH]; [done|]. cbn [map fst]. rewrite NoDup_cons. intros [Hn Hl].
  rewrite al_get_cons. unfold al_remove. cbn [List.filter fst]. fold (al_remove k l).
  case_bool_decide as Hk; simpl.
  - subst k'. rewrite al_remove_absent; [lia|]. apply al_get_None. by rewrite <- list_elem_of_In.
  - rewrite (IH Hl). lia.
Qed.

Section CacheFacts.
  Context {M : Type} `{!LinkedHashMap Z Entry M}.
  Implicit Types c : QueryResultCache M.

(** Each entry is accounted with its length and the fixed overhead, and fits. *)
Definition entry_ok c (e : Entry) : Prop :=
  weight e = sat_add (zlen (e_bytes e)) ENTRY_OVERHEAD_BYTES /\ 0 <= weight e <= budget_bytes c.

Record cache_inv c : Prop := {
  ci_keys : NoDup (map fst (lh_list (map_ c)));
  ci_bytes : bytes_in c = total_weight (lh_list (map_ c));
  ci_budget : bytes_in c <= budget_bytes c;
  ci_entries : Forall (fun p => entry_ok c (snd p)) (lh_list (map_ c));
}.

Lemma total_weight_nonneg c l :
  Forall (fun p : Z * Entry => entry_ok c (snd p)) l -> 0 <= total_weight l.
Proof.
  induction 1 as [|p l [_ Hp] _ IH]; simpl; lia.
Qed.

(** The eviction loop drops the shortest prefix that fits the budget. *)
Lemma evict_to_budget_spec fuel c k e init :
  lh_list (map_ c) = init ++ [(k, e)] -> (length init <= fuel)%nat ->
  bytes_in c = total_weight (init ++ [(k, e)]) ->
  Forall (fun p => entry_ok c (snd p)) (init ++ [(k, e)]) ->
  exists n, (n <= length init)%nat /\
    lh_list (map_ (evict_to_budget fuel c)) = drop n init ++ [(k, e)] /\
    bytes_in (evict_to_budget fuel c) = total_weight (drop n init ++ [(k, e)]) /\
    budget_bytes (evict_to_budget fuel c) = budget_bytes c /\
    bytes_in (evict_to_budget fuel c) <= budget_bytes c /\
    forall m, (m < n)%nat -> budget_bytes c < total_weight (drop m init ++ [(k, e)]).
Proof.
  revert c init. induction fuel as [|fuel IH]; intros c init Hl Hf Hb HF.
  - destruct init; [|simpl in Hf; lia]. exists 0%nat. simpl. split_and!; try done; [|lia].
    apply Forall_cons in HF as [[_ Hw] _]. simpl in *. lia.
  - cbn [evict_to_budget]. rewrite lh_len_list, Hl.
    destruct (Z.ltb_spec (budget_bytes c) (bytes_in c)) as [Hgt|Hle]; cbn [andb].
    2:{ exists 0%nat. rewrite drop_0. split_and!; try done; lia. }
    destruct init as [|[k0 e0] init].
    { apply Forall_cons in HF as [[_ Hw] _]. simpl in *. lia. }
    rewrite (proj2 (Z.ltb_lt 1 _)).
    2:{ rewrite zlen_app. cbn [app]. rewrite !zlen_cons, zlen_nil. pose proof (zlen_nonneg init). lia. }
    pose proof (lh_pop_front_list (map_ c)) as Hp. rewrite Hl in Hp. cbn [app] in Hp.
    destruct Hp as [Hm Hv]. destruct (lh_pop_front (map_ c)) as [m v]. cbn [fst snd] in *. subst v.
    apply Forall_cons in HF as [[_ Hw0] HF]. cbn [snd] in Hw0.
    set (c' := mkCache _ _ _ _ _ _ _).
    assert (0 <= total_weight (init ++ [(k, e)])) as Hnn by (by eapply total_weight_nonneg).
    destruct (IH c' init) as (n & Hn & Hn1 & Hn2 & Hn3 & Hn4 & Hn5); [done|simpl in Hf; lia| |done|].
    { cbn [bytes_in c' ]. rewrite Hb. cbn [app total_weight fold_right snd].
      fold (total_weight (init ++ [(k, e)])). unfold sat_sub. lia. }
    exists (S n). cbn [drop length]. split_and!; try done; [lia|].
    intros [|i] Hi; [cbn [drop]; lia|]. apply Hn5. lia.
Qed.

(** One successful insertion, as a function of the list of entries. *)
Lemma insert_list c key bytes rows :
  cache_inv c -> 0 < budget_bytes c ->
  sat_add (zlen bytes) ENTRY_OVERHEAD_BYTES <= budget_bytes c -> 2 * budget_bytes c <= u64_max ->
  let e := mkEntry bytes (sat_add (zlen bytes) ENTRY_OVERHEAD_BYTES) rows in
  let others := al_remove key (lh_list (map_ c)) in
  exists n, (n <= length others)%nat /\
    lh_list (map_ (insert c key bytes rows)) = drop n others ++ [(key, e)] /\
    bytes_in (insert c key bytes rows) = total_weight (drop n others ++ [(key, e)]) /\
    budget_bytes (insert c key bytes rows) = budget_bytes c /\
    bytes_in (insert c key bytes rows) <= budget_bytes c /\
    forall m, (m < n)%nat -> budget_bytes c < total_weight (drop m others ++ [(key, e)]).
Proof.
  intros [Hk Hb Hbud HF] Hen Hw Hmax. cbv zeta. unfold insert, enabled.
  rewrite (proj2 (Z.ltb_lt 0 _) Hen). cbn [negb]. rewrite (proj2 (Z.ltb_ge _ _)) by lia.
  destruct (lh_remove_list key (map_ c)) as [Hr1 Hr2].
  destruct (lh_remove key (map_ c)) as [m old]. cbn [fst snd] in *. subst old.
  set (e := mkEntry bytes _ rows). set (others := al_remove key (lh_list (map_ c))) in *.
  assert (lh_list (lh_insert key e m) = others ++ [(key, e)]) as Hi.
  { rewrite lh_insert_list; rewrite Hr1; [done|]. apply al_get_remove_eq. }
  assert (Forall (fun p => entry_ok c (snd p)) (others ++ [(key, e)])) as HFo.
  { apply Forall_app. split.
    - apply Forall_forall. intros p Hp. rewrite Forall_forall in HF. apply HF.
      apply list_elem_of_In in Hp. apply List.filter_In in Hp as [Hp _]. by apply list_elem_of_In.
    - constructor; [|constructor]. unfold entry_ok, e. cbn [snd e_bytes weight].
      pose proof (zlen_nonneg bytes). unfold sat_add, ENTRY_OVERHEAD_BYTES in *.
      unfold u64_max in *. lia. }
  pose proof (total_weight_remove key (lh_list (map_ c)) Hk) as Htw. fold others in Htw.
  assert (0 <= total_weight others) as Hno.
  { apply Forall_app in HFo as [HFo _]. by eapply total_weight_nonneg. }
  set (c' := mkCache _ _ _ _ _ _ _).
  destruct (evict_to_budget_spec (Z.to_nat (lh_len (lh_insert key e m))) c' key e others)
    as (n & Hn); [done| | |done|by exists n].
  - rewrite lh_len_list, Hi, zlen_app. unfold zlen. simpl. lia.
  - cbn [bytes_in c']. rewrite total_weight_app. cbn [total_weight fold_right snd].
    change (weight e) with (sat_add (zlen bytes) ENTRY_OVERHEAD_BYTES).
    set (w := sat_add (zlen bytes) ENTRY_OVERHEAD_BYTES) in *.
    assert (0 <= w) by (subst w; pose proof (zlen_nonneg bytes); unfold sat_add, ENTRY_OVERHEAD_BYTES, u64_max; lia).
    destruct (al_get key (lh_list (map_ c))) as [o|] eqn:Ho; unfold sat_sub, sat_add; [|lia].
    rewrite Forall_forall in HF. apply al_get_In, HF in Ho as [_ Ho]. cbn [snd] in Ho. lia.
Qed.
End CacheFacts.

Section CacheRuns.
  Context {M : Type} `{!LinkedHashMap Z Entry M}.
  Implicit Types c : QueryResultCache M.

Lemma drop_NoDup_app {A} n (l k : list A) : NoDup (l ++ k) -> NoDup (drop n l ++ k).
Proof.
  intros Hn. rewrite <- (take_drop n l), <- app_assoc in Hn. by apply NoDup_app in Hn as (_ & _ & ?).
Qed.

Lemma insert_inv c key bytes rows :
  2 * budget_bytes c <= u64_max -> cache_inv c -> cache_inv (insert c key bytes rows).
Proof.
  intros Hmax Hi. destruct (enabled c) eqn:He; [|unfold insert; by rewrite He].
  destruct (Z.ltb_spec (budget_bytes c) (sat_add (zlen bytes) ENTRY_OVERHEAD_BYTES)) as [Hlt|Hle].
  { unfold insert. rewrite He. cbn [negb]. by rewrite (proj2 (Z.ltb_lt _ _) Hlt). }
  apply Z.ltb_lt in He.
  destruct (insert_list c key bytes rows Hi He Hle Hmax) as (n & Hn & Hl & Hb & Hbud & Hle' & _).
  destruct Hi as [Hk _ _ HF]. constructor; try congruence.
  - rewrite Hl, map_app, <- skipn_map. apply drop_NoDup_app. apply NoDup_app. split_and!.
    + by apply al_remove_keys_NoDup.
    + intros x Hx ->%list_elem_of_singleton. apply list_elem_of_In in Hx.
      by apply al_remove_not_In in Hx.
    + apply NoDup_singleton.
  - rewrite Hl. apply Forall_app. split.
    + apply Forall_drop, Forall_forall. intros p Hp. rewrite Forall_forall in HF.
      unfold entry_ok. rewrite Hbud. apply HF. apply list_elem_of_In in Hp.
      apply List.filter_In in Hp as [Hp _]. by apply list_elem_of_In.
    + constructor; [|constructor]. unfold entry_ok. rewrite Hbud. cbn [snd e_bytes weight].
      pose proof (zlen_nonneg bytes). unfold sat_add, ENTRY_OVERHEAD_BYTES in *.
      unfold u64_max in *. lia.
Qed.

Lemma get_inv c key : cache_inv c -> cache_inv (fst (get c key)).
Proof.
  intros Hi. pose proof Hi as [Hk Hb Hbud HF]. unfold get. destruct (enabled c); cbn [negb fst]; [|done].
  destruct (lh_get key (map_ c)) as [e|] eqn:Hg; cbn [fst]; [|by constructor].
  rewrite lh_get_list in Hg. pose proof (lh_to_back_list key e (map_ c) Hg) as Hl.
  pose proof (total_weight_remove key (lh_list (map_ c)) Hk) as Ht. rewrite Hg in Ht.
  constructor; cbn [map_ bytes_in budget_bytes]; rewrite ?Hl.
  - rewrite map_app. apply NoDup_app. split_and!.
    + by apply al_remove_keys_NoDup.
    + intros x Hx ->%list_elem_of_singleton. apply list_elem_of_In in Hx.
      by apply al_remove_not_In in Hx.
    + apply NoDup_singleton.
  - rewrite Hb, Ht, total_weight_app. cbn [total_weight fold_right snd]. lia.
  - done.
  - apply Forall_app. rewrite Forall_forall in HF. split.
    + apply Forall_forall. intros p Hp. apply (HF p). apply list_elem_of_In in Hp.
      apply List.filter_In in Hp as [Hp _]. by apply list_elem_of_In.
    + constructor; [|constructor]. cbn [snd].
      by apply (HF (key, e)), al_get_In.
Qed.

Lemma step_budget c op : budget_bytes (step c op) = budget_bytes c.
Proof.
  destruct op as [k|k b r|]; cbn [step]; [| |done].
  - unfold get. by repeat case_match.
  - unfold insert. case_match; [done|]. case_match; [done|]. destruct (lh_remove k (map_ c)).
    set (c' := mkCache _ _ _ _ _ _ _). change (budget_bytes c) with (budget_bytes c').
    generalize (Z.to_nat (lh_len (lh_insert k (mkEntry b (sat_add (zlen b) ENTRY_OVERHEAD_BYTES) r) m))).
    intros fuel. clearbody c'. clear -c'. revert c'.
    induction fuel as [|fuel IH]; intros c'; cbn [evict_to_budget]; [done|].
    case_match; [|done]. destruct (lh_pop_front (map_ c')) as [m' [[k' v]|]]; [|done]. by rewrite IH.
Qed.

Lemma step_inv c op : 2 * budget_bytes c <= u64_max -> cache_inv c -> cache_inv (step c op).
Proof.
  intros Hm Hi. destruct op as [k|k b r|]; cbn [step].
  - by apply get_inv.
  - by apply insert_inv.
  - constructor; cbn [fst try_clear map_ bytes_in budget_bytes]; rewrite ?lh_new_list;
      try constructor; try done.
    pose proof (total_weight_nonneg c _ (ci_entries c Hi)). destruct Hi. lia.
Qed.

(** The cache never exceeds its budget: after any sequence of lookups,
    insertions and clears, [bytes_in] is exactly the weight of the entries held
    (length plus 64 bytes each), at most the budget, and no key is held twice. *)
Theorem cache_within_budget (budget : Z) (ops : list Op) :
  0 <= budget -> 2 * budget <= u64_max ->
  cache_inv (fold_left step ops (with_budget_bytes budget : QueryResultCache M)).
Proof.
  intros H0 Hb.
  assert (budget_bytes (fold_left step ops (with_budget_bytes budget : QueryResultCache M)) = budget /\
    cache_inv (fold_left step ops (with_budget_bytes budget : QueryResultCache M))) as [_ ?]; [|done].
  induction ops as [|op ops [IHb IH]] using rev_ind.
  - split; [done|]. constructor; cbn; rewrite ?lh_new_list; try constructor; done.
  - rewrite fold_left_app. cbn [fold_left]. rewrite step_budget. split; [done|].
    apply step_inv; [lia|done].
Qed.

(** Lookup and least-recently-used eviction: inserting a response that fits
    makes it retrievable, byte for byte, as the most recently used entry; the
    other entries keep their order and lose only the shortest prefix of the
    least recently used ones that makes room; a hit returns the stored response
    and moves it to the back without touching the rest. *)
Theorem cache_lru_insert_get c (key : Z) (bytes : bytes) (rows : Z) :
  cache_inv c -> 0 < budget_bytes c -> 2 * budget_bytes c <= u64_max ->
  sat_add (zlen bytes) ENTRY_OVERHEAD_BYTES <= budget_bytes c ->
  let c' := insert c key bytes rows in
  let others := al_remove key (lh_list (map_ c)) in
  snd (get c' key) = Some (mkResponse bytes rows) /\
  (exists n e, lh_list (map_ c') = drop n others ++ [(key, e)] /\ e_bytes e = bytes /\
     forall m, (m < n)%nat -> budget_bytes c < total_weight (drop m others ++ [(key, e)])) /\
  (forall k r, snd (get c k) = Some r ->
     exists e, al_get k (lh_list (map_ c)) = Some e /\ r = mkResponse (e_bytes e) (e_rows e) /\
       lh_list (map_ (fst (get c k))) = al_remove k (lh_list (map_ c)) ++ [(k, e)]).
Proof.
  intros Hi H0 Hmax Hw. cbv zeta.
  destruct (insert_list c key bytes rows Hi H0 Hw Hmax) as (n & Hn & Hl & Hb & Hbud & Hle & Hmin).
  split_and!.
  - unfold get, enabled. rewrite Hbud, (proj2 (Z.ltb_lt 0 _) H0). cbn [negb].
    rewrite lh_get_list, Hl, al_get_app.
    replace (al_get key (drop n (al_remove key (lh_list (map_ c))))) with (@None Entry).
    + rewrite al_get_cons, bool_decide_eq_true_2 by done. done.
    + symmetry. apply al_get_None. rewrite <- skipn_map. intros Hin.
      apply (al_remove_not_In key (lh_list (map_ c))).
      rewrite <- (take_drop n (map fst (al_remove key (lh_list (map_ c))))).
      apply in_or_app. by right.
  - eexists n, _. split; [exact Hl|]. split; [done|exact Hmin].
  - intros k r. unfold get, enabled. rewrite (proj2 (Z.ltb_lt 0 _) H0). cbn [negb].
    destruct (lh_get k (map_ c)) as [e|] eqn:Hg; cbn [fst snd]; [|done]. intros [= <-].
    rewrite lh_get_list in Hg. exists e. split; [done|]. split; [done|]. by apply lh_to_back_list.
Qed.
End CacheRuns.

(** ** Witnesses *)

(** Association lists are a linked hash map. *)
#[export] Instance assoc_linked_map : LinkedHashMap Z Entry (list (Z * Entry)).
Proof.
  refine {|
    lh_list := fun m => m;
    lh_new := [];
    lh_get := al_get;
    lh_to_back := fun k m =>
      match al_get k m with Some v => al_remove k m ++ [(k, v)] | None => m end;
    lh_remove := fun k m => (al_remove k m, al_get k m);
    lh_insert := fun k v m => al_remove k m ++ [(k, v)];
    lh_pop_front := fun m => match m with [] => (m, None) | e :: m' => (m', Some e) end;
    lh_len := zlen;
  |}; try reflexivity.
  - intros k v m ->. reflexivity.
  - intros k m. split; reflexivity.
  - intros k v m Hk. by rewrite al_remove_absent.
  - intros [|e m]; [reflexivity|split; reflexivity].
Defined.

Definition demo_cache : QueryResultCache (list (Z * Entry)) := with_budget_bytes 150.

Lemma cache_within_budget_witness :
  cache_inv (fold_left step [OpInsert 1 (str "aaaa") 2; OpInsert 2 (str "bb") 1; OpGet 1;
                             OpInsert 3 (str "c") 9] demo_cache).
Proof.
  apply (cache_within_budget 150
           [OpInsert 1 (str "aaaa") 2; OpInsert 2 (str "bb") 1; OpGet 1; OpInsert 3 (str "c") 9]).
  - lia.
  - vm_compute. discriminate.
Defined.

Lemma cache_lru_insert_get_witness :
  snd (get (insert demo_cache 7 (str "body") 3) 7) = Some (mkResponse (str "body") 3).
Proof.
  apply (cache_lru_insert_get demo_cache 7 (str "body") 3).
  - constructor; cbn; try constructor; lia.
  - reflexivity.
  - vm_compute. discriminate.
  - vm_compute. discriminate.
Defined.
