(* ===== verification/BufPool.v ===== *)
(** * The buffer pool of the object-store reader

    [crates/objstore/src/pool.rs].  A buffer is its capacity and its contents;
    the capacity the allocator really gives for a request is a parameter, at
    least the requested one, as documented for [Vec::with_capacity].  The
    counters are [usize]s. *)

From S2P Require Import Prelude Bytes.

Record Buf := mkBuf { cap : Z; contents : bytes }.

Record BufPoolConfig := mkPoolConfig {
  initial_capacity : Z;
  cfg_max_capacity : Z;
  cfg_max_retained_bytes : Z;
  warmup_count : Z;
  warmup_size : Z;
  cfg_autoscale_headroom : Z;
}.

Definition BufPoolConfig_default : BufPoolConfig :=
  mkPoolConfig 16 128 (256 * 1024 * 1024) 0 (10 * 1024 * 1024) 4.

Record FreeBuffers := mkFree { buffers : list Buf; free_bytes : Z }.

(** [Inner]: the free list, the current count cap, the fixed ceilings and the
    counters. *)
Record BufPool := mkPool {
  free : FreeBuffers;
  capacity : Z;
  max_capacity : Z;
  max_retained_bytes : Z;
  autoscale_headroom : Z;
  allocs : Z;
  reuses : Z;
  misses : Z;
  in_flight : Z;
  peak_in_flight : Z;
  grows : Z;
}.

Record PoolReleaseReport := mkPoolReport { report_entries : Z; report_bytes : Z }.

(** [Vec::swap_remove]: the last element takes the place of the removed one. *)
Definition swap_remove {A} (i : nat) (l : list A) : list A :=
  match List.last (map Some l) None with
  | Some x => take (length l - 1) (<[i := x]> l)
  | None => l
  end.

(** [iter().rposition(p)]. *)
Fixpoint rposition {A} (p : A -> bool) (l : list A) : option nat :=
  match l with
  | [] => None
  | x :: l =>
      match rposition p l with
      | Some i => Some (S i)
      | None => if p x then Some O else None
      end
  end.

(** [iter().enumerate().map(|(i, v)| (i, v.capacity())).min_by_key(|&(_, c)| c)]:
    the first minimum. *)
Fixpoint min_by_cap (i : nat) (l : list Buf) : option (nat * Z) :=
  match l with
  | [] => None
  | b :: l =>
      match min_by_cap (S i) l with
      | Some (j, c) => if c <? cap b then Some (j, c) else Some (i, cap b)
      | None => Some (i, cap b)
      end
  end.

Section Pool.
  (** The capacity of [Vec::with_capacity(n)]. *)
  Context (alloc_cap : Z -> Z).

(** The warm-up loop: [n] iterations left. *)
Fixpoint warmup (n : nat) (size max_bytes : Z) (f : FreeBuffers) : FreeBuffers :=
  match n with
  | O => f
  | S n =>
      if max_bytes <? sat_add (free_bytes f) size then f
      else if max_bytes <? sat_add (free_bytes f) (alloc_cap size) then f
      else warmup n size max_bytes
             (mkFree (buffers f ++ [mkBuf (alloc_cap size) []])
                (sat_add (free_bytes f) (alloc_cap size)))
  end.

Definition with_config (cfg : BufPoolConfig) : BufPool :=
  let initial := Z.max (initial_capacity cfg) 1 in
  let max := Z.max (cfg_max_capacity cfg) initial in
  let f :=
    if (0 <? warmup_count cfg) && (0 <? warmup_size cfg)
    then warmup (Z.to_nat (Z.min (warmup_count cfg) max)) (warmup_size cfg)
           (cfg_max_retained_bytes cfg) (mkFree [] 0)
    else mkFree [] 0 in
  let capacity := Z.min (Z.max initial (zlen (buffers f))) max in
  mkPool f capacity max (cfg_max_retained_bytes cfg) (cfg_autoscale_headroom cfg) 0 0 0 0 0 0.

Definition with_capacity (n : Z) : BufPool :=
  with_config (mkPoolConfig n n usize_max 0 0 0).

Definition try_clear_idle (p : BufPool) : BufPool * PoolReleaseReport :=
  (mkPool (mkFree [] 0) (capacity p) (max_capacity p) (max_retained_bytes p)
     (autoscale_headroom p) (allocs p) (reuses p) (misses p) (in_flight p)
     (peak_in_flight p) (grows p),
   mkPoolReport (zlen (buffers (free p))) (free_bytes (free p))).

(** In-flight bookkeeping and autoscale. *)
Definition checkout_scale (p : BufPool) : BufPool :=
  let new_in_flight := wrapping_add (in_flight p) 1 in
  let peak := Z.max (peak_in_flight p) new_in_flight in
  let '(cap', grows') :=
    if 0 <? autoscale_headroom p then
      if (capacity p <? new_in_flight) && (capacity p <? max_capacity p) then
        let target := Z.min (wrapping_add (capacity p) (autoscale_headroom p)) (max_capacity p) in
        if capacity p <? target then (target, wrapping_add (grows p) 1) else (capacity p, grows p)
      else (capacity p, grows p)
    else (capacity p, grows p) in
  mkPool (free p) cap' (max_capacity p) (max_retained_bytes p) (autoscale_headroom p)
    (allocs p) (reuses p) (misses p) new_in_flight peak grows'.

Definition checkout (p : BufPool) (min_cap : Z) : BufPool * Buf :=
  let p := checkout_scale p in
  match rposition (fun v => min_cap <=? cap v) (buffers (free p)) with
  | Some idx =>
      let buf := nth idx (buffers (free p)) (mkBuf 0 []) in
      (mkPool (mkFree (swap_remove idx (buffers (free p)))
                 (sat_sub (free_bytes (free p)) (cap buf)))
         (capacity p) (max_capacity p) (max_retained_bytes p) (autoscale_headroom p)
         (allocs p) (wrapping_add (reuses p) 1) (misses p) (in_flight p)
         (peak_in_flight p) (grows p), buf)
  | None =>
      (mkPool (free p) (capacity p) (max_capacity p) (max_retained_bytes p)
         (autoscale_headroom p) (wrapping_add (allocs p) 1) (reuses p) (misses p)
         (in_flight p) (peak_in_flight p) (grows p), mkBuf (alloc_cap min_cap) [])
  end.

(** The eviction loop of [checkin]: the free list to add to, or [None] when the
    returning buffer is dropped, with the evictions made so far. *)
Fixpoint checkin_evict (fuel : nat) (count_cap max_bytes returning_cap : Z) (f : FreeBuffers)
    : FreeBuffers * bool :=
  if (count_cap <=? zlen (buffers f)) || (max_bytes <? sat_add (free_bytes f) returning_cap)
  then
    match min_by_cap 0 (buffers f) with
    | None => (f, false)
    | Some (min_idx, min_cap) =>
        if returning_cap <=? min_cap then (f, false)
        else
          match fuel with
          | O => (f, false)
          | S fuel =>
              checkin_evict fuel count_cap max_bytes returning_cap
                (mkFree (swap_remove min_idx (buffers f)) (sat_sub (free_bytes f) min_cap))
          end
    end
  else (f, true).

Definition checkin (p : BufPool) (buf : Buf) : BufPool :=
  let in_flight' := wrap64 (in_flight p - 1) in
  let buf := mkBuf (cap buf) [] in
  let missed f := mkPool f (capacity p) (max_capacity p) (max_retained_bytes p)
      (autoscale_headroom p) (allocs p) (reuses p) (wrapping_add (misses p) 1) in_flight'
      (peak_in_flight p) (grows p) in
  if max_retained_bytes p <? cap buf then missed (free p)
  else
    match checkin_evict (length (buffers (free p))) (capacity p) (max_retained_bytes p) (cap buf)
            (free p) with
    | (f, false) => missed f
    | (f, true) =>
        mkPool (mkFree (buffers f ++ [buf]) (sat_add (free_bytes f) (cap buf)))
          (capacity p) (max_capacity p) (max_retained_bytes p) (autoscale_headroom p)
          (allocs p) (reuses p) (misses p) in_flight' (peak_in_flight p) (grows p)
    end.

End Pool.

(** ** List operations *)

Lemma swap_remove_perm {A} i (l : list A) d :
  (i < length l)%nat -> Permutation l (nth i l d :: swap_remove i l).
Proof.
  intros Hi. unfold swap_remove. destruct l as [|y init _] using rev_ind; [simpl in Hi; lia|].
  rewrite map_app. cbn [map]. rewrite List.last_last. rewrite length_app in *. cbn [length] in *.
  replace (length init + 1 - 1)%nat with (length init) by lia.
  destruct (decide (i = length init)) as [->|Hne].
  - rewrite List.nth_middle. rewrite insert_app_r_alt by lia.
    rewrite Nat.sub_diag. cbn [insert list_insert]. rewrite take_app_length.
    by rewrite <- Permutation_cons_append.
  - assert (i < length init)%nat as Hlt by lia.
    rewrite List.app_nth1, insert_app_l by lia.
    rewrite <- (length_insert init i y) at 1. rewrite take_app_length.
    rewrite insert_take_drop by lia.
    rewrite <- (take_drop i init) at 1. rewrite (drop_S init (nth i init d) i).
    2:{ destruct (nth_lookup_or_length init i d); [done|lia]. }
    rewrite <- Permutation_cons_append. rewrite <- !Permutation_middle. apply Permutation_swap.
Qed.

Lemma rposition_Some {A} (p : A -> bool) l i d :
  rposition p l = Some i -> (i < length l)%nat /\ p (nth i l d) = true.
Proof.
  revert i. induction l as [|x l IH]; intros i; cbn [rposition]; [done|].
  destruct (rposition p l) as [j|].
  - intros [= <-]. destruct (IH j eq_refl). simpl. split; [lia|done].
  - destruct (p x) eqn:Hp; [|done]. intros [= <-]. simpl. split; [lia|done].
Qed.

Lemma min_by_cap_Some i l j c :
  min_by_cap i l = Some (j, c) ->
  (i <= j < i + length l)%nat /\ cap (nth (j - i) l (mkBuf 0 [])) = c.
Proof.
  revert i j c. induction l as [|b l IH]; intros i j c; cbn [min_by_cap]; [done|].
  destruct (min_by_cap (S i) l) as [[j' c']|] eqn:E.
  - destruct (IH (S i) j' c' E) as [Hj Hc]. case_match; intros [= <- <-].
    + cbn [length]. split; [lia|]. replace (j' - i)%nat with (S (j' - S i)) by lia. exact Hc.
    + cbn [length]. split; [lia|]. by rewrite Nat.sub_diag.
  - intros [= <- <-]. cbn [length]. split; [lia|]. by rewrite Nat.sub_diag.
Qed.

Lemma min_by_cap_None i l : min_by_cap i l = None -> l = [].
Proof. destruct l; [done|]. cbn [min_by_cap]. repeat case_match; done. Qed.

(** ** The invariant *)

Definition total_cap (l : list Buf) : Z := fold_right (fun b n => cap b + n) 0 l.

Lemma total_cap_cons b l : total_cap (b :: l) = cap b + total_cap l.
Proof. reflexivity. Qed.

Lemma total_cap_perm l k : Permutation l k -> total_cap l = total_cap k.
Proof. induction 1; simpl; lia. Qed.

Lemma total_cap_app l k : total_cap (l ++ k) = total_cap l + total_cap k.
Proof. induction l; simpl; lia. Qed.

Definition idle (b : Buf) : Prop := 0 <= cap b /\ contents b = [].

(** The accounting of a free list. *)
Definition free_ok (f : FreeBuffers) : Prop :=
  free_bytes f = total_cap (buffers f) /\ Forall idle (buffers f).

Lemma total_cap_nonneg l : Forall idle l -> 0 <= total_cap l.
Proof. induction 1 as [|b l [? _] _ IH]; simpl; lia. Qed.

Lemma free_ok_remove f i :
  free_ok f -> (i < length (buffers f))%nat ->
  let b := nth i (buffers f) (mkBuf 0 []) in
  free_ok (mkFree (swap_remove i (buffers f)) (sat_sub (free_bytes f) (cap b))) /\
  idle b /\ length (buffers f) = S (length (swap_remove i (buffers f))).
Proof.
  intros [Hb HF] Hi. cbv zeta. pose proof (swap_remove_perm i (buffers f) (mkBuf 0 []) Hi) as HP.
  rewrite HP in HF. apply Forall_cons in HF as [Hid HF]. split_and!; try done.
  - split; cbn [free_bytes buffers]; [|done].
    rewrite Hb, (total_cap_perm _ _ HP), total_cap_cons. pose proof (total_cap_nonneg _ HF).
    unfold sat_sub. lia.
  - by apply Permutation_length in HP.
Qed.

Record pool_inv (p : BufPool) : Prop := {
  pi_free : free_ok (free p);
  pi_bytes : free_bytes (free p) <= max_retained_bytes p;
  pi_count : zlen (buffers (free p)) <= capacity p;
  pi_capacity : 1 <= capacity p <= max_capacity p;
  pi_limits : max_retained_bytes p < u64_max /\ 0 <= autoscale_headroom p /\
    max_capacity p + autoscale_headroom p <= u64_max;
}.

Lemma checkin_evict_spec fuel cc mb rc f :
  free_ok f -> (length (buffers f) <= fuel)%nat -> 0 <= rc <= mb -> 1 <= cc -> mb < u64_max ->
  let '(f', ok) := checkin_evict fuel cc mb rc f in
  free_ok f' /\ free_bytes f' <= free_bytes f /\ zlen (buffers f') <= zlen (buffers f) /\
  (ok = true -> zlen (buffers f') < cc /\ free_bytes f' + rc <= mb).
Proof.
  revert f. induction fuel as [|fuel IH]; intros f Hok Hf Hrc Hcc Hmb; cbn [checkin_evict].
  all: destruct ((cc <=? zlen (buffers f)) || (mb <? sat_add (free_bytes f) rc)) eqn:Hc.
  all: try (apply orb_false_iff in Hc as [Hc1 Hc2]; split_and!; try done; try lia;
    intros _; pose proof Hok as [Hb HF]; pose proof (total_cap_nonneg _ HF);
    unfold sat_add in Hc2; lia).
  all: destruct (min_by_cap 0 (buffers f)) as [[j c]|] eqn:Hm; [|split_and!; done || lia].
  all: destruct (rc <=? c); [split_and!; done || lia|].
  - split_and!; done || lia.
  - apply min_by_cap_Some in Hm as [Hj Hcj]. rewrite Nat.sub_0_r in Hcj.
    destruct (free_ok_remove f j Hok ltac:(lia)) as (Hok' & [Hid _] & Hlen). rewrite Hcj in Hok', Hid.
    specialize (IH _ Hok'). cbn [buffers free_bytes] in IH.
    destruct (checkin_evict fuel cc mb rc _) as [f' ok].
    destruct IH as (H1 & H2 & H3 & H4); try done; [lia|]. split_and!; try done.
    + destruct Hok as [Hb HF]. pose proof (total_cap_nonneg _ HF). unfold sat_sub in H2. lia.
    + unfold zlen in *. lia.
Qed.

Section PoolFacts.
  Context (alloc_cap : Z -> Z) (alloc_cap_ge : forall n, 0 <= n -> n <= alloc_cap n).

Lemma warmup_spec n size mb f :
  0 <= size -> mb < u64_max -> free_ok f -> free_bytes f <= mb ->
  let f' := warmup alloc_cap n size mb f in
  free_ok f' /\ free_bytes f' <= mb /\ zlen (buffers f') <= zlen (buffers f) + Z.of_nat n.
Proof.
  intros Hs Hmb. cbv zeta. revert f. induction n as [|n IH]; intros f Hok Hb; cbn [warmup].
  { split_and!; done || lia. }
  case_match; [split_and!; done || lia|]. case_match eqn:H2; [split_and!; done || lia|].
  apply Z.ltb_ge in H2. pose proof (alloc_cap_ge size Hs) as Ha.
  pose proof Hok as [Hfb HF]. pose proof (total_cap_nonneg _ HF).
  destruct (IH (mkFree (buffers f ++ [mkBuf (alloc_cap size) []]) (sat_add (free_bytes f) (alloc_cap size))))
    as (I1 & I2 & I3).
  - split; cbn [free_bytes buffers].
    + rewrite total_cap_app. cbn [total_cap fold_right cap]. unfold sat_add in *. lia.
    + apply Forall_app. split; [done|]. constructor; [|constructor]. split; cbn [cap contents]; [lia|done].
  - cbn [free_bytes]. done.
  - split_and!; [done|done|]. cbn [buffers] in I3. rewrite zlen_app, zlen_cons, zlen_nil in I3. lia.
Qed.

Lemma with_config_inv cfg :
  0 <= cfg_max_retained_bytes cfg < u64_max -> 0 <= warmup_size cfg ->
  0 <= cfg_autoscale_headroom cfg ->
  Z.max (cfg_max_capacity cfg) (Z.max (initial_capacity cfg) 1) + cfg_autoscale_headroom cfg <= u64_max ->
  pool_inv (with_config alloc_cap cfg).
Proof.
  intros Hm Hs Hh Hc. unfold with_config.
  set (f := if _ && _ then _ else _).
  set (mx := Z.max (cfg_max_capacity cfg) (Z.max (initial_capacity cfg) 1)) in *.
  assert (free_ok f /\ free_bytes f <= cfg_max_retained_bytes cfg /\ zlen (buffers f) <= mx)
    as (H1 & H2 & H3).
  { subst f. case_match; [|split_and!; [split; [done|apply Forall_nil_2]|cbn [free_bytes]; lia|cbn [buffers]; rewrite zlen_nil; lia]].
    destruct (warmup_spec (Z.to_nat (Z.min (warmup_count cfg) mx)) (warmup_size cfg)
      (cfg_max_retained_bytes cfg) (mkFree [] 0)) as (W1 & W2 & W3);
      [lia|lia|split; [done|apply Forall_nil_2]|cbn [free_bytes]; lia|].
    split_and!; [done|done|]. change (zlen (buffers (mkFree [] 0))) with 0 in W3. lia. }
  constructor; cbn [free capacity max_capacity max_retained_bytes autoscale_headroom]; try done; lia.
Qed.

Lemma checkout_scale_inv p :
  pool_inv p ->
  pool_inv (checkout_scale p) /\ free (checkout_scale p) = free p /\
  max_retained_bytes (checkout_scale p) = max_retained_bytes p.
Proof.
  intros [Hf Hb Hc Hcap Hl]. unfold checkout_scale.
  set (r := if 0 <? autoscale_headroom p then _ else _).
  assert (capacity p <= fst r <= max_capacity p) as Hr.
  { subst r. assert (wrapping_add (capacity p) (autoscale_headroom p) =
      capacity p + autoscale_headroom p) as Hw by (apply wrap64_id; ints).
    rewrite Hw. repeat case_match; cbn [fst]; lia. }
  destruct r as [cap' g']. cbn [fst] in Hr. split_and!; try done.
  constructor; cbn [free capacity max_capacity max_retained_bytes autoscale_headroom]; try done; lia.
Qed.

Lemma checkout_inv p min_cap :
  0 <= min_cap -> pool_inv p ->
  let '(p', b) := checkout alloc_cap p min_cap in
  pool_inv p' /\ min_cap <= cap b /\ contents b = [].
Proof.
  intros Hmin Hi. unfold checkout. destruct (checkout_scale_inv p Hi) as (Hi' & Hfr & _).
  set (q := checkout_scale p) in *. destruct Hi' as [Hf Hb Hc Hcap Hl].
  destruct (rposition _ (buffers (free q))) as [i|] eqn:Hr.
  - destruct (rposition_Some _ _ _ (mkBuf 0 []) Hr) as [Hlt Hge]. apply Z.leb_le in Hge.
    destruct (free_ok_remove (free q) i Hf Hlt) as (Hok & [Hid1 Hid2] & Hlen).
    split_and!; try done. pose proof Hf as [Hfb HF]. pose proof (total_cap_nonneg _ HF).
    constructor; cbn [free capacity max_capacity max_retained_bytes autoscale_headroom]; try done.
    + cbn [free_bytes]. unfold sat_sub. lia.
    + unfold zlen in *. cbn [buffers]. lia.
  - split_and!; [by constructor|by apply alloc_cap_ge|done].
Qed.

Lemma checkin_inv p b : 0 <= cap b -> pool_inv p -> pool_inv (checkin p b).
Proof.
  intros Hcb [Hf Hb Hc Hcap Hl]. unfold checkin. cbn [cap].
  destruct (Z.ltb_spec (max_retained_bytes p) (cap b)) as [|Hle]; [by constructor|].
  pose proof (checkin_evict_spec (length (buffers (free p))) (capacity p) (max_retained_bytes p) (cap b)
    (free p) Hf (le_n _)) as He.
  destruct (checkin_evict _ _ _ _ _) as [f ok].
  destruct He as (H1 & H2 & H3 & H4); [lia..|]. destruct ok.
  - destruct (H4 eq_refl) as [H5 H6]. pose proof H1 as [Hfb HF]. pose proof (total_cap_nonneg _ HF).
    constructor; cbn [free capacity max_capacity max_retained_bytes autoscale_headroom]; try done.
    + split; cbn [free_bytes buffers].
      * rewrite total_cap_app. cbn [total_cap fold_right cap]. unfold sat_add. lia.
      * apply Forall_app. split; [done|]. constructor; [by split|constructor].
    + cbn [free_bytes]. unfold sat_add. lia.
    + cbn [buffers]. rewrite zlen_app, zlen_cons, zlen_nil. lia.
  - constructor; cbn [free capacity max_capacity max_retained_bytes autoscale_headroom]; try done; lia.
Qed.

(** What a client can do with the pool: check buffers out, return any buffer,
    drop the idle ones. *)
Inductive pool_step (p : BufPool) : BufPool -> Prop :=
| step_checkout min_cap : 0 <= min_cap -> pool_step p (fst (checkout alloc_cap p min_cap))
| step_checkin b : 0 <= cap b -> pool_step p (checkin p b)
| step_clear : pool_step p (fst (try_clear_idle p)).

Inductive pool_reachable (cfg : BufPoolConfig) : BufPool -> Prop :=
| reach_new : pool_reachable cfg (with_config alloc_cap cfg)
| reach_step p q : pool_reachable cfg p -> pool_step p q -> pool_reachable cfg q.

Lemma pool_step_inv p q : pool_inv p -> pool_step p q -> pool_inv q.
Proof.
  intros Hi [min_cap Hm|b Hb|].
  - pose proof (checkout_inv p min_cap Hm Hi) as Hc. by destruct (checkout alloc_cap p min_cap) as [p' b], Hc.
  - by apply checkin_inv.
  - destruct Hi as [[Hfb HF] Hb Hc Hcap Hl]. pose proof (total_cap_nonneg _ HF).
    constructor; cbn [fst try_clear_idle free capacity max_capacity max_retained_bytes
      autoscale_headroom free_bytes buffers]; try done;
      [lia|]. pose proof (zlen_nonneg (buffers (free p))). rewrite zlen_nil. lia.
Qed.

(** The pool keeps its resident bound: in every state reachable from any
    configuration by checkouts, returns of arbitrary buffers and clears, the
    byte counter is exactly the sum of the idle capacities, at most
    [max_retained_bytes]; the number of idle buffers is at most the current
    capacity, which autoscaling never takes past [max_capacity]; idle buffers
    are empty; and a checkout always yields an empty buffer of at least the
    requested capacity. *)
Theorem pool_retention_bounded (cfg : BufPoolConfig) (p : BufPool) :
  0 <= cfg_max_retained_bytes cfg < u64_max -> 0 <= warmup_size cfg ->
  0 <= cfg_autoscale_headroom cfg ->
  Z.max (cfg_max_capacity cfg) (Z.max (initial_capacity cfg) 1) + cfg_autoscale_headroom cfg
    <= u64_max ->
  pool_reachable cfg p ->
  pool_inv p /\
  forall min_cap, 0 <= min_cap ->
    min_cap <= cap (snd (checkout alloc_cap p min_cap)) /\
    contents (snd (checkout alloc_cap p min_cap)) = [].
Proof.
  intros Hm Hs Hh Hc Hr. assert (pool_inv p) as Hi.
  { induction Hr as [|p q Hr IH Hstep]; [by apply with_config_inv|by apply (pool_step_inv p q)]. }
  split; [done|]. intros min_cap Hmin. pose proof (checkout_inv p min_cap Hmin Hi) as Hco.
  by destruct (checkout alloc_cap p min_cap) as [p' b], Hco.
Qed.
End PoolFacts.

(** ** Witness *)

Definition demo_alloc (n : Z) : Z := 8 * div_ceil n 8.

Definition demo_pool_config : BufPoolConfig := mkPoolConfig 2 4 100 2 30 1.

Lemma pool_retention_bounded_witness :
  pool_inv (checkin (with_config demo_alloc demo_pool_config) (mkBuf 50 (str "data"))).
Proof.
  apply (pool_retention_bounded demo_alloc) with (cfg := demo_pool_config).
  - intros n Hn. unfold demo_alloc. pose proof (div_ceil_spec n 8). lia.
  - vm_compute. split; [discriminate|reflexivity].
  - vm_compute. discriminate.
  - vm_compute. discriminate.
  - vm_compute. discriminate.
  - eapply reach_step; [apply reach_new|]. apply step_checkin. vm_compute. discriminate.
Defined.
