(* ===== verification/LiveRing.v ===== *)
(** * The live ring: recent log records for merged queries

    [crates/server/src/live_ring.rs], the bounded ring [LiveRing].  The reading
    of the clock is an argument of [push_stamped]. *)

From S2P Require Import Prelude Bytes Proto.

Record LiveLogRecord := mkRecord {
  wal_shard : Z;
  wal_seg : Z;
  ts_unix_nano : Z;
  severity : Z;
  labels : list LabelPair;
  body : bytes;
  attributes : list LabelPair;
}.

Definition pairs_bytes (l : list LabelPair) : Z :=
  fold_right (fun p n => zlen (str (key p)) + zlen (str (value p)) + n) 0 l.

Definition heap_bytes (r : LiveLogRecord) : Z :=
  zlen (body r) + pairs_bytes (labels r) + pairs_bytes (attributes r) + 48.

Record LiveRing := mkRing {
  window_nanos : Z;
  max_bytes : Z;
  records : list LiveLogRecord;
  ring_bytes : Z;
}.

(** [window] is the number of nanoseconds of the [Duration]. *)
Definition ring_new (window max : Z) : LiveRing := mkRing (wrap64 window) (Z.max max 1) [] 0.

Definition stamp (shard seg : Z) (r : LiveLogRecord) : LiveLogRecord :=
  mkRecord shard seg (ts_unix_nano r) (severity r) (labels r) (body r) (attributes r).

(** [while let Some(front)]: drop records older than the cutoff from the front. *)
Fixpoint evict_age (cutoff : Z) (rs : list LiveLogRecord) (bytes : Z)
    : list LiveLogRecord * Z :=
  match rs with
  | front :: rs' =>
      if ts_unix_nano front <? cutoff
      then evict_age cutoff rs' (sat_sub bytes (heap_bytes front))
      else (rs, bytes)
  | [] => ([], bytes)
  end.

(** [while inner.bytes > self.max_bytes]. *)
Fixpoint evict_bytes (max : Z) (rs : list LiveLogRecord) (bytes : Z)
    : list LiveLogRecord * Z :=
  if max <? bytes then
    match rs with
    | front :: rs' => evict_bytes max rs' (sat_sub bytes (heap_bytes front))
    | [] => ([], bytes)
    end
  else (rs, bytes).

Definition push_stamped (ring : LiveRing) (now : Z) (batch : list LiveLogRecord)
    (shard seg : Z) : LiveRing :=
  match batch with
  | [] => ring
  | _ =>
      let batch := map (stamp shard seg) batch in
      let cutoff := sat_sub now (window_nanos ring) in
      let bytes := fold_left (fun b r => wrapping_add b (heap_bytes r)) batch (ring_bytes ring) in
      let '(rs, bytes) := evict_age cutoff (records ring ++ batch) bytes in
      let '(rs, bytes) := evict_bytes (max_bytes ring) rs bytes in
      mkRing (window_nanos ring) (max_bytes ring) rs bytes
  end.

Definition collect (ring : LiveRing) (keep : LiveLogRecord -> bool) : list LiveLogRecord :=
  List.filter keep (records ring).

Definition ring_len (ring : LiveRing) : Z := zlen (records ring).

(** ** Accounting *)

Definition total_heap (rs : list LiveLogRecord) : Z := fold_right (fun r n => heap_bytes r + n) 0 rs.

Lemma pairs_bytes_nonneg l : 0 <= pairs_bytes l.
Proof.
  induction l as [|p l IH]; simpl; [lia|].
  pose proof (zlen_nonneg (str (key p))). pose proof (zlen_nonneg (str (value p))). lia.
Qed.

Lemma heap_bytes_pos r : 0 < heap_bytes r.
Proof.
  unfold heap_bytes. pose proof (zlen_nonneg (body r)). pose proof (pairs_bytes_nonneg (labels r)).
  pose proof (pairs_bytes_nonneg (attributes r)). lia.
Qed.

Lemma total_heap_cons r rs : total_heap (r :: rs) = heap_bytes r + total_heap rs.
Proof. reflexivity. Qed.

Lemma total_heap_nonneg rs : 0 <= total_heap rs.
Proof. induction rs as [|r rs IH]; rewrite ?total_heap_cons; [done|]. pose proof (heap_bytes_pos r). lia. Qed.

Lemma total_heap_app l k : total_heap (l ++ k) = total_heap l + total_heap k.
Proof. induction l; cbn [app]; rewrite ?total_heap_cons; [done|]. lia. Qed.

Lemma bytes_add batch b :
  0 <= b -> b + total_heap batch <= u64_max ->
  fold_left (fun b r => wrapping_add b (heap_bytes r)) batch b = b + total_heap batch.
Proof.
  revert b. induction batch as [|r batch IH]; intros b Hb Hle; cbn [fold_left].
  { change (total_heap []) with 0. lia. }
  rewrite total_heap_cons in *. pose proof (heap_bytes_pos r). pose proof (total_heap_nonneg batch).
  unfold wrapping_add. rewrite wrap64_id by ints. rewrite IH; lia.
Qed.

Lemma evict_age_spec cutoff rs :
  exists n, (n <= length rs)%nat /\ evict_age cutoff rs (total_heap rs) = (drop n rs, total_heap (drop n rs)) /\
    Forall (fun r => ts_unix_nano r < cutoff) (take n rs) /\
    match drop n rs with [] => True | r :: _ => cutoff <= ts_unix_nano r end.
Proof.
  induction rs as [|r rs (n & Hn & IH & HF & Hh)]; cbn [evict_age].
  { exists 0%nat. by repeat split; try constructor. }
  destruct (Z.ltb_spec (ts_unix_nano r) cutoff).
  - exists (S n). rewrite total_heap_cons. unfold sat_sub. pose proof (total_heap_nonneg rs).
    replace (Z.max _ 0) with (total_heap rs) by lia. cbn [drop take length].
    split_and!; [lia|done|by constructor|done].
  - exists 0%nat. split_and!; [lia|done|constructor|done].
Qed.

Lemma evict_bytes_spec max rs :
  0 <= max ->
  exists n, (n <= length rs)%nat /\ evict_bytes max rs (total_heap rs) = (drop n rs, total_heap (drop n rs)) /\
    total_heap (drop n rs) <= max /\
    forall m, (m < n)%nat -> max < total_heap (drop m rs).
Proof.
  intros Hm. induction rs as [|r rs (n & Hn & IH & Hle & Hmin)]; cbn [evict_bytes].
  { exists 0%nat. change (total_heap []) with 0. rewrite (proj2 (Z.ltb_ge _ _)) by done.
    split_and!; [done|done|done|lia]. }
  destruct (Z.ltb_spec max (total_heap (r :: rs))) as [Hlt|Hge].
  - exists (S n). rewrite total_heap_cons in *. unfold sat_sub. pose proof (total_heap_nonneg rs).
    replace (Z.max _ 0) with (total_heap rs) by lia. cbn [drop length].
    split_and!; [lia|done|done|]. intros [|m] ?; cbn [drop]; [by rewrite total_heap_cons|apply Hmin; lia].
  - exists 0%nat. split_and!; [lia|done|done|lia].
Qed.

(** ** The property *)

Definition ring_ok (ring : LiveRing) : Prop :=
  ring_bytes ring = total_heap (records ring) /\ ring_bytes ring <= max_bytes ring /\ 0 < max_bytes ring.

(** The live ring is bounded and loses only its oldest records: a new ring is
    empty; pushing a batch stamps every record of it with its shard and WAL
    segment, keeps the insertion order, and drops a prefix: first what is older
    than the window, then only as much as the byte cap requires (one record
    less would exceed it); the byte counter stays exact and within the cap. *)
Theorem ring_push_bounded (ring : LiveRing) (now shard seg : Z) (batch : list LiveLogRecord) :
  ring_ok ring -> max_bytes ring + total_heap batch <= u64_max ->
  let ring' := push_stamped ring now batch shard seg in
  let all := records ring ++ map (stamp shard seg) batch in
  ring_ok ring' /\ max_bytes ring' = max_bytes ring /\ window_nanos ring' = window_nanos ring /\
  exists n m, records ring' = drop m (drop n all) /\
    Forall (fun r => ts_unix_nano r < sat_sub now (window_nanos ring)) (take n all) /\
    (forall j, (j < m)%nat -> max_bytes ring < total_heap (drop j (drop n all))).
Proof.
  intros (Hb & Hle & Hm) Hfit. cbv zeta. unfold push_stamped.
  assert (total_heap (map (stamp shard seg) batch) = total_heap batch) as Hst.
  { induction batch as [|r batch IH]; [done|]. cbn [map]. rewrite !total_heap_cons in *.
    pose proof (heap_bytes_pos r). rewrite IH by lia. done. }
  destruct batch as [|r batch'] eqn:Eb.
  { split_and!; [done|done|done|]. exists 0%nat, 0%nat. cbn [map]. rewrite app_nil_r.
    split_and!; [done|constructor|lia]. }
  rewrite <- Eb in *. clear Eb r batch'.
  pose proof (total_heap_nonneg (records ring)).
  rewrite bytes_add by (rewrite ?Hst; lia). rewrite Hb, <- total_heap_app.
  set (all := records ring ++ map (stamp shard seg) batch).
  destruct (evict_age_spec (sat_sub now (window_nanos ring)) all) as (n & Hn & -> & HF & _).
  destruct (evict_bytes_spec (max_bytes ring) (drop n all)) as (m & Hm' & -> & Hcap & Hmin); [lia|].
  split_and!; [done|done|done|]. by exists n, m.
Qed.

(** ** Witness *)

Definition demo_record (ts : Z) : LiveLogRecord :=
  mkRecord 0 0 ts 9 [mkLabel "app" "api"] (str "timeout") [].

Lemma ring_push_bounded_witness :
  ring_ok (push_stamped (ring_new 1000 100) 5000 [demo_record 100; demo_record 4800; demo_record 4900] 2 7).
Proof.
  apply (ring_push_bounded (ring_new 1000 100) 5000 2 7
           [demo_record 100; demo_record 4800; demo_record 4900]).
  - vm_compute. repeat split; discriminate.
  - vm_compute. discriminate.
Defined.
