(* ===== verification/MemoryGuard.v ===== *)
(** * Process memory admission

    [crates/server/src/memory_guard.rs]: the cgroup memory guard.  What the
    guard observes (the probe, the reclaimer, the clock, whether the
    coordinator lock is poisoned) is an environment: a state with operations
    that may change it.  The events of a call are recorded in a trace. *)

From Stdlib Require Import Sorting.Sorted.
From S2P Require Import Prelude.

(** [CgroupMemorySnapshot] of crates/resources. *)
Record CgroupMemorySnapshot := mkSnapshot {
  limit_bytes : Z;
  current_bytes : Z;
  reclaimable_clean_file_bytes : Z;
  committed_bytes : Z;
}.

Record MemoryReclaimReport := mkReclaimReport {
  released_entries : Z;
  released_bytes : Z;
  allocator_error : option string;
}.

Inductive MemoryAdmissionDecision :=
| Admitted_ | AdmittedAfterConcurrentReclaim | AdmittedAfterReclaim
| RejectedRateLimited | RejectedAfterReclaim | ProbeUnavailable.

Record MemoryAdmissionOutcome := mkOutcome {
  decision : MemoryAdmissionDecision;
  initial : option CgroupMemorySnapshot;
  pre_reclaim : option CgroupMemorySnapshot;
  post_reclaim : option CgroupMemorySnapshot;
  reclaim_report : option MemoryReclaimReport;
  reclaim_error : option string;
}.

(** The error a check returns: the probe failed, the lock is poisoned, or a
    pressured snapshot with its message. *)
Inductive GuardError :=
| ProbeError (e : string)
| LockPoisoned
| Pressure (s : CgroupMemorySnapshot) (message : string).

Definition PROCESS_MEMORY_PRESSURE_MESSAGE : string :=
  "Process memory safety pressure remains after reclamation.".
Definition PROCESS_MEMORY_RUNTIME_PRESSURE_MESSAGE : string := "Process memory safety pressure.".
Definition RATE_LIMITED_MESSAGE : string :=
  "Process memory safety pressure; global reclamation is rate-limited.".

(** What the guard does to its environment. *)
Inductive Event :=
| EvProbe (r : result string CgroupMemorySnapshot)
| EvReclaim (at_ : Z).

Class MemoryEnv (W : Type) := {
  probe_snapshot : W -> W * result string CgroupMemorySnapshot;
  reclaim : W -> W * result string MemoryReclaimReport;
  instant_now : W -> W * Z;
  lock_poisoned : W -> bool;
}.

Record CgroupMemoryGuard := mkGuard {
  reserve_bytes : Z;
  reclaim_interval : Z;
  last_attempt : option Z;
  last_outcome : option MemoryAdmissionOutcome;
}.

Definition threshold (g : CgroupMemoryGuard) (s : CgroupMemorySnapshot) : Z :=
  sat_sub (limit_bytes s) (Z.min (reserve_bytes g) (limit_bytes s)).

Definition pressured (g : CgroupMemoryGuard) (s : CgroupMemorySnapshot) : bool :=
  threshold g s <=? committed_bytes s.

Section Guard.
  Context {W : Type} `{MemoryEnv W}.

(** The state a call threads: the environment, the guard and the trace. *)
Definition probe (w : W) (tr : list Event)
    : W * list Event * result GuardError CgroupMemorySnapshot :=
  let '(w, r) := probe_snapshot w in
  (w, tr ++ [EvProbe r], map_err ProbeError r).

Definition finish_admission (g : CgroupMemoryGuard) (w : W) (tr : list Event)
    (result_ : result GuardError unit) (outcome : MemoryAdmissionOutcome)
    : CgroupMemoryGuard * W * list Event * (result GuardError unit * MemoryAdmissionOutcome) :=
  (mkGuard (reserve_bytes g) (reclaim_interval g) (last_attempt g) (Some outcome), w, tr,
   (result_, outcome)).

Definition admit_ (g : CgroupMemoryGuard) (w : W)
    : CgroupMemoryGuard * W * list Event * (result GuardError unit * MemoryAdmissionOutcome) :=
  let '(w, tr, r) := probe w [] in
  match r with
  | Err e => finish_admission g w tr (Err e) (mkOutcome ProbeUnavailable None None None None None)
  | Ok initial =>
      if negb (pressured g initial)
      then finish_admission g w tr (Ok tt) (mkOutcome Admitted_ (Some initial) None None None None)
      else if lock_poisoned w
      then finish_admission g w tr (Err LockPoisoned)
             (mkOutcome ProbeUnavailable (Some initial) None None None None)
      else
        let '(w, tr, r) := probe w tr in
        match r with
        | Err e => finish_admission g w tr (Err e)
                     (mkOutcome ProbeUnavailable (Some initial) None None None None)
        | Ok pre =>
            if negb (pressured g pre)
            then finish_admission g w tr (Ok tt)
                   (mkOutcome AdmittedAfterConcurrentReclaim (Some initial) (Some pre)
                      None None None)
            else
              let '(w, now) := instant_now w in
              if match last_attempt g with
                 | Some last => sat_sub now last <? reclaim_interval g
                 | None => false
                 end
              then finish_admission g w tr (Err (Pressure pre RATE_LIMITED_MESSAGE))
                     (mkOutcome RejectedRateLimited (Some initial) (Some pre) None None None)
              else
                let g := mkGuard (reserve_bytes g) (reclaim_interval g) (Some now)
                           (last_outcome g) in
                let '(w, rr) := reclaim w in
                let tr := tr ++ [EvReclaim now] in
                let '(report, rerr) :=
                  match rr with Ok rep => (Some rep, None) | Err e => (None, Some e) end in
                let '(w, tr, r) := probe w tr in
                match r with
                | Err e => finish_admission g w tr (Err e)
                             (mkOutcome ProbeUnavailable (Some initial) (Some pre) None report rerr)
                | Ok post =>
                    let admitted := negb (pressured g post) in
                    finish_admission g w tr
                      (if admitted then Ok tt
                       else Err (Pressure post PROCESS_MEMORY_PRESSURE_MESSAGE))
                      (mkOutcome (if admitted then AdmittedAfterReclaim else RejectedAfterReclaim)
                         (Some initial) (Some pre) (Some post) report rerr)
                end
        end
  end.

Definition check_with_snapshot (g : CgroupMemoryGuard) (w : W)
    : W * list Event * (result GuardError unit * option CgroupMemorySnapshot) :=
  let '(w, tr, r) := probe w [] in
  match r with
  | Err e => (w, tr, (Err e, None))
  | Ok s =>
      if pressured g s
      then (w, tr, (Err (Pressure s PROCESS_MEMORY_RUNTIME_PRESSURE_MESSAGE), Some s))
      else (w, tr, (Ok tt, Some s))
  end.

(** A sequence of admissions, with the events of all of them. *)
Fixpoint admissions (n : nat) (g : CgroupMemoryGuard) (w : W)
    : CgroupMemoryGuard * W * list Event :=
  match n with
  | O => (g, w, [])
  | S n =>
      let '(g, w, tr, _) := admit_ g w in
      let '(g, w, tr') := admissions n g w in
      (g, w, tr ++ tr')
  end.

(** ** One admission *)

Definition reclaims (tr : list Event) : list Z :=
  omap (fun e => match e with EvReclaim t => Some t | EvProbe _ => None end) tr.

Definition is_admitted (d : MemoryAdmissionDecision) : bool :=
  match d with Admitted_ | AdmittedAfterConcurrentReclaim | AdmittedAfterReclaim => true | _ => false end.

(** The rate limit allows an attempt at [now]. *)
Definition may_reclaim (g : CgroupMemoryGuard) (now : Z) : Prop :=
  match last_attempt g with Some last => reclaim_interval g <= sat_sub now last | None => True end.

(** The decision after a reclaim is that of the last probe, whatever the reclaim
    returned. *)
Definition follows (g : CgroupMemoryGuard) (r : result string CgroupMemorySnapshot)
    (res : result GuardError unit) (out : MemoryAdmissionOutcome) : Prop :=
  match r with
  | Ok s => post_reclaim out = Some s /\
      (if pressured g s then res = Err (Pressure s PROCESS_MEMORY_PRESSURE_MESSAGE) else res = Ok tt)
  | Err e => post_reclaim out = None /\ res = Err (ProbeError e)
  end.

Lemma admit_spec g w :
  let '(g', w', tr, (res, out)) := admit_ g w in
  (res = Ok tt <-> is_admitted (decision out) = true) /\
  (res = Ok tt -> exists tr0 s, tr = tr0 ++ [EvProbe (Ok s)] /\ pressured g s = false) /\
  ((reclaims tr = [] /\ last_attempt g' = last_attempt g) \/
   exists now, reclaims tr = [now] /\ last_attempt g' = Some now /\ may_reclaim g now /\
     exists s1 s2 r, pressured g s1 = true /\ pressured g s2 = true /\
       tr = [EvProbe (Ok s1); EvProbe (Ok s2); EvReclaim now; EvProbe r] /\ follows g r res out) /\
  last_outcome g' = Some out /\ reclaim_interval g' = reclaim_interval g /\
  reserve_bytes g' = reserve_bytes g.
Proof.
  unfold admit_, probe, finish_admission. destruct (probe_snapshot w) as [w1 [s1|e]]; cbn.
  2:{ split_and!; try done. by left. }
  destruct (pressured g s1) eqn:H1; cbn.
  2:{ split_and!; try done; [|by left]. intros _. by exists [], s1. }
  destruct (lock_poisoned w1); cbn; [split_and!; try done; by left|].
  destruct (probe_snapshot w1) as [w2 [s2|e]]; cbn.
  2:{ split_and!; try done. by left. }
  destruct (pressured g s2) eqn:H2; cbn.
  2:{ split_and!; try done; [|by left]. intros _. by exists [EvProbe (Ok s1)], s2. }
  destruct (instant_now w2) as [w3 now].
  destruct (match last_attempt g with Some last => sat_sub now last <? reclaim_interval g | None => false end)
    eqn:Hl; cbn; [split_and!; try done; by left|].
  assert (may_reclaim g now) as Hmay.
  { unfold may_reclaim. destruct (last_attempt g); [by apply Z.ltb_ge in Hl|done]. }
  destruct (reclaim w3) as [w4 rr]. destruct rr as [rep|re].
  all: cbn; destruct (probe_snapshot w4) as [w5 [s3|e]]; cbn.
  all: try (assert (pressured (mkGuard (reserve_bytes g) (reclaim_interval g) (Some now) (last_outcome g)) s3
    = pressured g s3) as -> by done; destruct (pressured g s3) eqn:H3; cbn).
  all: split_and!; try done; try (right; exists now; split_and!; [done..|]; do 3 eexists; split_and!; [exact H1|exact H2|done|];
    cbn; rewrite ?H3; by split).
  all: intros _; exists [EvProbe (Ok s1); EvProbe (Ok s2); EvReclaim now], s3; done.
Qed.

(** [t] keeps the interval after the last attempt [o]. *)
Definition after (interval : Z) (o : option Z) (t : Z) : Prop :=
  match o with Some last => last + interval <= t | None => True end.

Lemma reclaims_app tr tr' : reclaims (tr ++ tr') = reclaims tr ++ reclaims tr'.
Proof. unfold reclaims. apply omap_app. Qed.

Lemma admissions_spaced n g w :
  0 < reclaim_interval g ->
  let '(_, _, tr) := admissions n g w in
  StronglySorted (fun a b => a + reclaim_interval g <= b) (reclaims tr) /\
  Forall (after (reclaim_interval g) (last_attempt g)) (reclaims tr).
Proof.
  revert g w. induction n as [|n IH]; intros g w Hi; cbn [admissions]; [split; constructor|].
  pose proof (admit_spec g w) as Ha. destruct (admit_ g w) as [[[g1 w1] tr1] [res out]].
  destruct Ha as (_ & _ & Hr & _ & Hint & _).
  specialize (IH g1 w1 ltac:(lia)). rewrite Hint in IH.
  destruct (admissions n g1 w1) as [[g2 w2] tr2]. destruct IH as [HS HF]. rewrite reclaims_app.
  destruct Hr as [[-> Hla]|(now & -> & Hla & Hmay & _)]; rewrite Hla in HF; [done|]. cbn [app].
  assert (after (reclaim_interval g) (last_attempt g) now) as Hnow.
  { unfold may_reclaim in Hmay. unfold after. destruct (last_attempt g); [|done].
    unfold sat_sub in Hmay. lia. }
  split; [constructor; [done|exact HF]|]. constructor; [done|].
  eapply List.Forall_impl; [|exact HF]. intros t Ht. unfold after in *.
  destruct (last_attempt g); [lia|done].
Qed.

(** C33. Admission is safe and reclamation is rate limited: a query is admitted
    only when the last thing the call did was a probe whose committed memory is
    below the limit less the reserve.  A call that reclaims does exactly this: two
    probes under pressure, one reclaim, one more probe, whether the reclaim reported
    success or failure; and that last probe decides: the query is admitted if and only
    if it is below the threshold, otherwise the call returns the pressure it saw or the
    probe's error.  Over any sequence of admissions the reclaims are at least one
    interval apart; the runtime check never reclaims. *)
Theorem memory_guard_safe (g : CgroupMemoryGuard) (w : W) (n : nat) :
  0 < reclaim_interval g ->
  (let '(g', _, tr, (res, out)) := admit_ g w in
   last_outcome g' = Some out /\
   (res = Ok tt -> exists tr0 s, tr = tr0 ++ [EvProbe (Ok s)] /\
      committed_bytes s < sat_sub (limit_bytes s) (Z.min (reserve_bytes g) (limit_bytes s))) /\
   (reclaims tr = [] \/ exists now s1 s2 r,
      tr = [EvProbe (Ok s1); EvProbe (Ok s2); EvReclaim now; EvProbe r] /\
      threshold g s1 <= committed_bytes s1 /\ threshold g s2 <= committed_bytes s2 /\
      match r with
      | Ok s => post_reclaim out = Some s /\
          (if committed_bytes s <? threshold g s then res = Ok tt
           else res = Err (Pressure s PROCESS_MEMORY_PRESSURE_MESSAGE))
      | Err e => post_reclaim out = None /\ res = Err (ProbeError e)
      end)) /\
  (let '(_, _, tr) := admissions n g w in
   StronglySorted (fun a b => a + reclaim_interval g <= b) (reclaims tr)) /\
  (let '(_, tr, (res, s)) := check_with_snapshot g w in
   reclaims tr = [] /\ (res = Ok tt -> exists x, s = Some x /\ pressured g x = false)).
Proof.
  intros Hi. split_and!.
  - pose proof (admit_spec g w) as Ha. destruct (admit_ g w) as [[[g' w'] tr] [res out]].
    destruct Ha as (_ & Hok & Hr & Hlo & _). split_and!; [done| |].
    + intros (tr0 & s & Ht & Hp)%Hok. exists tr0, s. split; [done|]. by apply Z.leb_gt in Hp.
    + destruct Hr as [[? _]|(now & _ & _ & _ & s1 & s2 & r & H1 & H2 & Htr & Hf)]; [by left|right].
      apply Z.leb_le in H1, H2. exists now, s1, s2, r. split_and!; [done..|].
      destruct r as [s|e]; [|exact Hf]. destruct Hf as [Hp Hf]. split; [done|].
      rewrite Z.ltb_antisym. unfold pressured in Hf. by destruct (threshold g s <=? committed_bytes s).
  - pose proof (admissions_spaced n g w Hi) as Hs. by destruct (admissions n g w) as [[g' w'] tr], Hs.
  - unfold check_with_snapshot, probe. destruct (probe_snapshot w) as [w1 [s|e]]; cbn; [|done].
    destruct (pressured g s) eqn:Hp; cbn; [done|]. split; [done|]. eauto.
Qed.
End Guard.

(** ** Witness *)

(** Pressure that one reclaim relieves; a clock that advances at every reading. *)
Definition demo_env : Type := Z * Z.

#[export] Instance demo_env_ops : MemoryEnv demo_env := {|
  probe_snapshot := fun w => (w, Ok (mkSnapshot 1000 900 0 (fst w)));
  reclaim := fun w => ((fst w - 400, snd w), Ok (mkReclaimReport 3 400 None));
  instant_now := fun w => ((fst w, snd w + 10), snd w + 10);
  lock_poisoned := fun _ => false;
|}.

Lemma memory_guard_safe_witness :
  let tr := snd (admissions 3 (mkGuard 200 30 None None) ((900, 0) : demo_env)) in
  reclaims tr = [10] /\ StronglySorted (fun a b => a + 30 <= b) (reclaims tr).
Proof.
  cbv zeta. split; [vm_compute; reflexivity|].
  pose proof (memory_guard_safe (mkGuard 200 30 None None) ((900, 0) : demo_env) 3
                ltac:(vm_compute; reflexivity)) as (_ & Hs & _).
  revert Hs. generalize (admissions 3 (mkGuard 200 30 None None) ((900, 0) : demo_env)).
  intros [[g w] tr] Hs. exact Hs.
Defined.
