(* ===== verification/Redaction.v ===== *)
(** * Sensitive keys

    [crates/proto/src/redaction.rs], the policy: which structured keys hold
    sensitive data.  A key is its bytes. *)

From S2P Require Import Prelude Bytes.

Definition is_ascii_digit (b : u8) : bool := (48 <=? b2z b) && (b2z b <=? 57).
Definition is_ascii_upper (b : u8) : bool := (65 <=? b2z b) && (b2z b <=? 90).
Definition is_ascii_lower (b : u8) : bool := (97 <=? b2z b) && (b2z b <=? 122).
Definition is_ascii_alphanumeric (b : u8) : bool :=
  is_ascii_digit b || is_ascii_upper b || is_ascii_lower b.

Definition to_ascii_lowercase (b : u8) : u8 :=
  if is_ascii_upper b then z2b (b2z b + 32) else b.

(** [eq]: [left.eq_ignore_ascii_case(right)]. *)
Definition eq_ci (left right : bytes) : bool :=
  bool_decide (map to_ascii_lowercase left = map to_ascii_lowercase right).

(** The bytes up to the first one that fails [p], and the rest. *)
Fixpoint span (p : u8 -> bool) (l : bytes) : bytes * bytes :=
  match l with
  | [] => ([], [])
  | b :: l' => if p b then let '(x, y) := span p l' in (b :: x, y) else ([], l)
  end.

(** [Segments::next]: the next maximal alphanumeric run and what follows. *)
Definition segments_next (rest : bytes) : option (bytes * bytes) :=
  let rest := snd (span (fun b => negb (is_ascii_alphanumeric b)) rest) in
  match rest with
  | [] => None
  | _ => Some (span is_ascii_alphanumeric rest)
  end.

Definition single (segment : bytes) : bool :=
  eq_ci segment (str "authorization") || eq_ci segment (str "cookie")
  || eq_ci segment (str "password") || eq_ci segment (str "passphrase").

Definition pair (p segment : bytes) : bool :=
  (eq_ci p (str "proxy") && eq_ci segment (str "authorization"))
  || (eq_ci p (str "set") && eq_ci segment (str "cookie"))
  || (eq_ci p (str "api") && eq_ci segment (str "key"))
  || (eq_ci p (str "access") && eq_ci segment (str "token"))
  || (eq_ci p (str "refresh") && eq_ci segment (str "token"))
  || (eq_ci p (str "id") && eq_ci segment (str "token"))
  || (eq_ci p (str "client") && eq_ci segment (str "secret"))
  || (eq_ci p (str "private") && eq_ci segment (str "key")).

(** [while let Some(segment) = segments.next()]. *)
Fixpoint sensitive_loop (fuel : nat) (rest : bytes) (previous : option bytes) : bool :=
  match fuel with
  | O => false
  | S fuel =>
      match segments_next rest with
      | None => false
      | Some (segment, rest) =>
          let is_pair := match previous with Some p => pair p segment | None => false end in
          let is_final := match segments_next rest with None => true | Some _ => false end in
          if is_final && (single segment || is_pair || eq_ci segment (str "token")
                          || eq_ci segment (str "secret"))
          then true
          else sensitive_loop fuel rest (Some segment)
      end
  end.

Definition is_sensitive_key (key : bytes) : bool := sensitive_loop (S (length key)) key None.

(** ** The segments of a key *)

Lemma span_app p l : fst (span p l) ++ snd (span p l) = l.
Proof. induction l as [|b l IH]; simpl; [done|]. case_match; [|done]. destruct (span p l). simpl in *. by rewrite IH. Qed.

Lemma span_length p l : (length (snd (span p l)) <= length l)%nat.
Proof. rewrite <- (span_app p l) at 2. rewrite length_app. lia. Qed.

Lemma span_head p l : match snd (span p l) with [] => True | b :: _ => p b = false end.
Proof.
  induction l as [|b l IH]; simpl; [done|]. destruct (p b) eqn:Hb; [|done]. by destruct (span p l).
Qed.

Lemma segments_next_shorter rest s rest' :
  segments_next rest = Some (s, rest') -> s <> [] /\ (length rest' < length rest)%nat.
Proof.
  unfold segments_next. pose proof (span_length (fun b => negb (is_ascii_alphanumeric b)) rest) as Hl.
  pose proof (span_head (fun b => negb (is_ascii_alphanumeric b)) rest) as Hh.
  destruct (snd (span _ rest)) as [|b l]; [done|]. apply negb_false_iff in Hh.
  intros [= Hs]. revert Hs. simpl. rewrite Hh.
  pose proof (span_length is_ascii_alphanumeric l) as Hl2.
  destruct (span is_ascii_alphanumeric l) as [x y]. intros [= <- <-]. simpl in *. split; [done|lia].
Qed.

Fixpoint segments (fuel : nat) (rest : bytes) : list bytes :=
  match fuel with
  | O => []
  | S fuel =>
      match segments_next rest with
      | None => []
      | Some (s, rest) => s :: segments fuel rest
      end
  end.

Lemma segments_fuel n m rest :
  (length rest < n)%nat -> (length rest < m)%nat -> segments n rest = segments m rest.
Proof.
  revert m rest. induction n as [|n IH]; intros [|m] rest Hn Hm; try lia. simpl.
  destruct (segments_next rest) as [[s rest']|] eqn:E; [|done].
  apply segments_next_shorter in E as [_ Hlt]. f_equal. apply IH; lia.
Qed.

(** All the segments of a key, in order. *)
Definition key_segments (key : bytes) : list bytes := segments (S (length key)) key.

Definition opt_pair (previous : option bytes) (s : bytes) : bool :=
  match previous with Some p => pair p s | None => false end.

(** The last segment decides, with the one before it. *)
Fixpoint last_sensitive (previous : option bytes) (l : list bytes) : bool :=
  match l with
  | [] => false
  | [s] => single s || opt_pair previous s || eq_ci s (str "token") || eq_ci s (str "secret")
  | s :: l => last_sensitive (Some s) l
  end.

Lemma sensitive_loop_segments n rest prev :
  (length rest < n)%nat -> sensitive_loop n rest prev = last_sensitive prev (segments n rest).
Proof.
  revert rest prev. induction n as [|n IH]; intros rest prev Hn; [lia|]. simpl.
  destruct (segments_next rest) as [[s rest']|] eqn:E; [|done].
  apply segments_next_shorter in E as [_ Hlt].
  rewrite IH by lia. destruct n as [|n]; [lia|]. cbn [segments].
  destruct (segments_next rest') as [[s' rest'']|]; cbn [andb]; [done|].
  fold (opt_pair prev s). cbn [last_sensitive].
  by destruct (single s || opt_pair prev s || eq_ci s (str "token") || eq_ci s (str "secret")).
Qed.

Lemma last_sensitive_snoc prev l s :
  last_sensitive prev (l ++ [s]) =
  single s || opt_pair (match List.last (map Some l) None with Some p => Some p | None => prev end) s
    || eq_ci s (str "token") || eq_ci s (str "secret").
Proof.
  revert prev. induction l as [|x l IH]; intros prev; [done|]. cbn [app map].
  destruct l as [|y l].
  - done.
  - change (last_sensitive prev (x :: (y :: l) ++ [s])) with (last_sensitive (Some x) ((y :: l) ++ [s])).
    rewrite IH.
    assert (exists p, List.last (map Some (y :: l)) None = Some p) as [p Hp].
    { clear. revert y. induction l as [|z l IHl]; intros y; [by exists y|].
      destruct (IHl z) as [p Hp]. by exists p. }
    change (List.last (Some x :: map Some (y :: l)) None) with (List.last (map Some (y :: l)) None).
    by rewrite Hp.
Qed.

(** Which keys are redacted: a key is sensitive exactly when its last
    alphanumeric segment is, without regard to case, [authorization], [cookie],
    [password], [passphrase], [token] or [secret], or is [key] right after the
    segment [api] or [private]; earlier segments and the separators do not
    matter. *)
Theorem sensitive_keys_exact (key : bytes) :
  is_sensitive_key key = true <->
  exists before s, key_segments key = before ++ [s] /\
    (existsb (eq_ci s) [str "authorization"; str "cookie"; str "password"; str "passphrase";
                        str "token"; str "secret"] = true \/
     (eq_ci s (str "key") = true /\ exists init p, before = init ++ [p] /\
        (eq_ci p (str "api") = true \/ eq_ci p (str "private") = true))).
Proof.
  unfold is_sensitive_key, key_segments. rewrite sensitive_loop_segments by lia.
  set (l := segments (S (length key)) key). destruct l as [|s before _] using rev_ind.
  { split; [done|]. intros ([|] & ? & ? & _); done. }
  rewrite last_sensitive_snoc. split.
  - intros H. exists before, s. split; [done|]. cbn [existsb]. unfold single in H.
    destruct before as [|p init _] using rev_ind; cbn [map List.last] in H.
    + left. revert H. cbn [opt_pair].
      destruct (eq_ci s (str "authorization")), (eq_ci s (str "cookie")), (eq_ci s (str "password")),
        (eq_ci s (str "passphrase")), (eq_ci s (str "token")), (eq_ci s (str "secret")); done.
    + rewrite map_app in H. cbn [map] in H. rewrite List.last_last in H. cbn [opt_pair] in H.
      unfold pair in H.
      destruct (eq_ci s (str "authorization")), (eq_ci s (str "cookie")), (eq_ci s (str "password")),
        (eq_ci s (str "passphrase")), (eq_ci s (str "token")), (eq_ci s (str "secret")); try (by left).
      right. destruct (eq_ci s (str "key")).
      2:{ exfalso. revert H. rewrite !andb_false_r. done. }
      split; [done|]. exists init, p. split; [done|].
      destruct (eq_ci p (str "api")), (eq_ci p (str "private")); auto.
      revert H. rewrite !andb_false_r. done.
  - intros (before' & s' & Heq & H). apply app_inj_tail in Heq as [<- <-]. cbn [existsb] in H.
    unfold single. destruct H as [H|(Hk & init & p & -> & Hp)].
    + revert H. destruct (eq_ci s (str "authorization")), (eq_ci s (str "cookie")), (eq_ci s (str "password")),
        (eq_ci s (str "passphrase")), (eq_ci s (str "token")), (eq_ci s (str "secret")); cbn;
        rewrite ?orb_true_r; done.
    + rewrite map_app. cbn [map]. rewrite List.last_last. cbn [opt_pair]. unfold pair. rewrite Hk.
      destruct Hp as [-> | ->]; rewrite !andb_true_r, ?orb_true_r; done.
Qed.
