(* ===== verification/Occ1.v ===== *)
(** * OCC1: the canonical bytes of an error occurrence

    The encoder of [crates/errors/src/lib.rs] ([encode_occurrence] and the
    [put_*] functions) and the decoder of [crates/errors/src/occ1.rs].  A
    string is its UTF-8 bytes, an [f64] its bit pattern.  The decoder walks a
    byte slice by position; its recursion is bounded by fuel, [None] meaning
    that the fuel ran out. *)

From S2P Require Import Prelude Bytes Redaction.

(** [AnyValue] of crates/proto and [DecodedValue]. *)
Inductive AnyValue :=
| VNull
| VString (s : bytes)
| VBool (b : bool)
| VInt64 (v : Z)
| VDouble (bits : Z)
| VBytes (b : bytes)
| VArray (vs : list AnyValue)
| VMap (kvs : list (bytes * AnyValue)).

Record CanonicalLogRecord := mkLog {
  raw_version : Z;
  resource_schema_url : bytes;
  resource_dropped_attributes_count : Z;
  resource_attributes : AnyValue;
  scope_name : option bytes;
  scope_version : option bytes;
  scope_dropped_attributes_count : option Z;
  scope_attributes : option AnyValue;
  scope_schema_url : bytes;
  time_unix_nano : Z;
  observed_time_unix_nano : Z;
  received_time_unix_nano : option Z;
  severity_number : Z;
  severity_text : bytes;
  event_name : bytes;
  body : AnyValue;
  dropped_attributes_count : Z;
  attributes : AnyValue;
  trace_flags : Z;
  trace_id : option bytes;
  span_id : option bytes;
  encoded : bytes;
}.

Definition OCC_MAGIC : bytes := str "OCC1".
Definition CANONICAL_VERSION : Z := 1.
Definition SCRUB_POLICY_VERSION : Z := 1.
Definition REDACTED : bytes := str "[REDACTED]".

(** ** The encoder *)

Inductive Error :=
| NotExceptionEvent
| MissingExceptionContent
| MissingAttribute (field : string)
| AttributeType (field : string)
| EmptyAttribute (field : string)
| InvalidUuid (field : string)
| IdentityLimit
| CanonicalLimit
| LengthOverflow.

Section TryFold.
  Context {A : Type} (f : bytes -> A -> result Error bytes).

(** A [for] loop whose body may return early. *)
Fixpoint try_fold (out : bytes) (l : list A) : result Error bytes :=
  match l with
  | [] => Ok out
  | x :: l => let? out := f out x in try_fold out l
  end.
End TryFold.

Section Encoder.
  (** [limits.max_canonical_bytes]. *)
  Context (limit : Z).

Definition put (out value : bytes) : result Error bytes :=
  match checked_add (zlen out) (zlen value) with
  | None => Err LengthOverflow
  | Some new_len => if limit <? new_len then Err CanonicalLimit else Ok (out ++ value)
  end.

Definition put_u8 (out : bytes) (v : Z) := put out (be_bytes 1 v).
Definition put_u16 (out : bytes) (v : Z) := put out (be_bytes 2 v).
Definition put_u32 (out : bytes) (v : Z) := put out (be_bytes 4 v).
Definition put_i32 (out : bytes) (v : Z) := put out (be_bytes 4 (v mod 2 ^ 32)).
Definition put_u64 (out : bytes) (v : Z) := put out (be_bytes 8 v).

Definition put_bytes (out value : bytes) : result Error bytes :=
  if u32_max <? zlen value then Err LengthOverflow
  else let? out := put_u32 out (zlen value) in put out value.

Definition put_str (out value : bytes) : result Error bytes := put_bytes out value.

Definition put_option_fixed (out : bytes) (value : option bytes) : result Error bytes :=
  match value with
  | Some v => let? out := put_u8 out 1 in put out v
  | None => put_u8 out 0
  end.

Definition put_option_str (out : bytes) (value : option bytes) : result Error bytes :=
  match value with
  | Some v => let? out := put_u8 out 1 in put_str out v
  | None => put_u8 out 0
  end.

Definition put_option_u32 (out : bytes) (value : option Z) : result Error bytes :=
  match value with
  | Some v => let? out := put_u8 out 1 in put_u32 out v
  | None => put_u8 out 0
  end.

Definition put_redacted_value (out : bytes) : result Error bytes :=
  let? out := put_u32 out (1 + (4 + zlen REDACTED)) in
  let? out := put_u8 out 1 in
  put_str out REDACTED.

(** Writes a zero length, the payload, then the length in its place. *)
Fixpoint put_value (out : bytes) (value : AnyValue) : result Error bytes :=
  let start := zlen out in
  let? out := put_u32 out 0 in
  let? out :=
    match value with
    | VNull => put_u8 out 0
    | VString s => let? out := put_u8 out 1 in put_str out s
    | VBool b => let? out := put_u8 out 2 in put_u8 out (if b then 1 else 0)
    | VInt64 v => let? out := put_u8 out 3 in put out (be_bytes 8 (v mod 2 ^ 64))
    | VDouble bits => let? out := put_u8 out 4 in put out (be_bytes 8 bits)
    | VBytes b => let? out := put_u8 out 5 in put_bytes out b
    | VArray vs =>
        let? out := put_u8 out 6 in
        let? out := put_u32 out (zlen vs) in
        try_fold (fun out v => put_value out v) out vs
    | VMap kvs =>
        let? out := put_u8 out 7 in
        let? out := put_u32 out (zlen kvs) in
        try_fold (fun out kv =>
          let '(k, v) := kv in
          let? out := put_str out k in
          if is_sensitive_key k then put_redacted_value out else put_value out v) out kvs
    end in
  let payload_len := zlen out - start - 4 in
  if u32_max <? payload_len then Err LengthOverflow
  else Ok (take (Z.to_nat start) out ++ be_bytes 4 payload_len ++ drop (Z.to_nat (start + 4)) out).

Definition put_option_value (out : bytes) (value : option AnyValue) : result Error bytes :=
  match value with
  | Some v => let? out := put_u8 out 1 in put_value out v
  | None => put_u8 out 0
  end.

Definition encode_occurrence (record : CanonicalLogRecord)
    (deployment app_digest event : bytes) (out : bytes) : result Error bytes :=
  let? out := put out OCC_MAGIC in
  let? out := put_u16 out CANONICAL_VERSION in
  let? out := put_u16 out SCRUB_POLICY_VERSION in
  let? out := put out deployment in
  let? out := put out app_digest in
  let? out := put out event in
  let? out := put_str out (resource_schema_url record) in
  let? out := put_u32 out (resource_dropped_attributes_count record) in
  let? out := put_value out (resource_attributes record) in
  let? out := put_option_str out (scope_name record) in
  let? out := put_option_str out (scope_version record) in
  let? out := put_option_u32 out (scope_dropped_attributes_count record) in
  let? out := put_option_value out (scope_attributes record) in
  let? out := put_str out (scope_schema_url record) in
  let? out := put_u64 out (time_unix_nano record) in
  let? out := put_u64 out (observed_time_unix_nano record) in
  let? out := put_i32 out (severity_number record) in
  let? out := put_str out (severity_text record) in
  let? out := put_str out (event_name record) in
  let? out := put_value out (body record) in
  let? out := put_u32 out (dropped_attributes_count record) in
  let? out := put_value out (attributes record) in
  let? out := put_u32 out (trace_flags record) in
  let? out := put_option_fixed out (trace_id record) in
  put_option_fixed out (span_id record).
End Encoder.

(** ** The decoder *)

Inductive DecodeError :=
| TooShort | BadMagic | UnsupportedVersion (v : Z) | InvalidUtf8 | UnknownValueType (t : Z).

(** [str::from_utf8]: the well-formed byte sequences of Unicode, table 3-7. *)
Definition between (lo hi : Z) (b : u8) : bool := (lo <=? b2z b) && (b2z b <=? hi).

Fixpoint valid_utf8 (l : bytes) : bool :=
  match l with
  | [] => true
  | a :: l1 =>
      if between 0 0x7F a then valid_utf8 l1
      else
        match l1 with
        | [] => false
        | b :: l2 =>
            if between 0xC2 0xDF a then between 0x80 0xBF b && valid_utf8 l2
            else
              match l2 with
              | [] => false
              | c :: l3 =>
                  if between 0xE0 0xEF a then
                    between (if b2z a =? 0xE0 then 0xA0 else 0x80)
                      (if b2z a =? 0xED then 0x9F else 0xBF) b
                    && between 0x80 0xBF c && valid_utf8 l3
                  else
                    match l3 with
                    | [] => false
                    | d :: l4 =>
                        between 0xF0 0xF4 a
                        && between (if b2z a =? 0xF0 then 0x90 else 0x80)
                             (if b2z a =? 0xF4 then 0x8F else 0xBF) b
                        && between 0x80 0xBF c && between 0x80 0xBF d && valid_utf8 l4
                    end
              end
        end
  end.

Definition to_i32 (x : Z) : Z := if x <? 2 ^ 31 then x else x - 2 ^ 32.
Definition to_i64 (x : Z) : Z := if x <? 2 ^ 63 then x else x - 2 ^ 64.

Section Cursor.
  (** [Cursor { data, pos }]: the position is threaded. *)
  Context (data : bytes).

Definition remaining (pos : Z) : Z := sat_sub (zlen data) pos.

Definition c_take (pos n : Z) : result DecodeError (bytes * Z) :=
  if remaining pos <? n then Err TooShort
  else Ok (take (Z.to_nat n) (drop (Z.to_nat pos) data), pos + n).

Definition skip (pos n : Z) : result DecodeError Z :=
  let? '(_, pos) := c_take pos n in Ok pos.

Definition u16_val (pos : Z) : result DecodeError (Z * Z) :=
  let? '(b, pos) := c_take pos 2 in Ok (from_be b, pos).
Definition u32_val (pos : Z) : result DecodeError (Z * Z) :=
  let? '(b, pos) := c_take pos 4 in Ok (from_be b, pos).
Definition i32_val (pos : Z) : result DecodeError (Z * Z) :=
  let? '(b, pos) := c_take pos 4 in Ok (to_i32 (from_be b), pos).

Definition c_bytes (pos : Z) : result DecodeError (bytes * Z) :=
  let? '(len, pos) := u32_val pos in c_take pos len.

Definition c_str (pos : Z) : result DecodeError (bytes * Z) :=
  let? '(b, pos) := c_bytes pos in
  if valid_utf8 b then Ok (b, pos) else Err InvalidUtf8.

Definition skip_str (pos : Z) : result DecodeError Z :=
  let? '(len, pos) := u32_val pos in skip pos len.

Definition option_tag (pos : Z) : result DecodeError (bool * Z) :=
  let? '(b, pos) := c_take pos 1 in Ok (negb (from_be b =? 0), pos).

Definition skip_option_str (pos : Z) : result DecodeError Z :=
  let? '(some, pos) := option_tag pos in
  if some : bool then skip_str pos else Ok pos.

Definition skip_option_u32 (pos : Z) : result DecodeError Z :=
  let? '(some, pos) := option_tag pos in
  if some : bool then skip pos 4 else Ok pos.

Definition skip_value (pos : Z) : result DecodeError Z :=
  let? '(payload_len, pos) := u32_val pos in skip pos payload_len.

Definition skip_option_value (pos : Z) : result DecodeError Z :=
  let? '(some, pos) := option_tag pos in
  if some : bool then skip_value pos else Ok pos.

(** A step of the fuelled decoder after a plain one. *)
Definition then_ {A B} (r : result DecodeError A) (k : A -> option (result DecodeError B))
    : option (result DecodeError B) :=
  match r with Ok a => k a | Err e => Some (Err e) end.

(** A step after a fuelled one. *)
Definition after {A B} (r : option (result DecodeError A))
    (k : A -> option (result DecodeError B)) : option (result DecodeError B) :=
  match r with Some (Ok a) => k a | Some (Err e) => Some (Err e) | None => None end.

Fixpoint value (fuel : nat) (pos : Z) : option (result DecodeError (AnyValue * Z)) :=
  match fuel with
  | O => None
  | S fuel =>
      then_ (u32_val pos) (fun '(payload_len, pos) =>
        let end_ := pos + payload_len in
        if zlen data <? end_ then Some (Err TooShort)
        else after (decode_value_body fuel pos) (fun '(v, _) => Some (Ok (v, end_))))
  end
with decode_value_body (fuel : nat) (pos : Z) : option (result DecodeError (AnyValue * Z)) :=
  match fuel with
  | O => None
  | S fuel =>
      then_ (c_take pos 1) (fun '(b, pos) =>
        let type_tag := from_be b in
        if type_tag =? 0 then Some (Ok (VNull, pos))
        else if type_tag =? 1 then
          then_ (c_str pos) (fun '(s, pos) => Some (Ok (VString s, pos)))
        else if type_tag =? 2 then
          then_ (c_take pos 1) (fun '(b, pos) => Some (Ok (VBool (negb (from_be b =? 0)), pos)))
        else if type_tag =? 3 then
          then_ (c_take pos 8) (fun '(b, pos) => Some (Ok (VInt64 (to_i64 (from_be b)), pos)))
        else if type_tag =? 4 then
          then_ (c_take pos 8) (fun '(b, pos) => Some (Ok (VDouble (from_be b), pos)))
        else if type_tag =? 5 then
          then_ (c_bytes pos) (fun '(b, pos) => Some (Ok (VBytes b, pos)))
        else if type_tag =? 6 then
          then_ (u32_val pos) (fun '(count, pos) =>
            after (array_items fuel count pos) (fun '(vs, pos) => Some (Ok (VArray vs, pos))))
        else if type_tag =? 7 then
          then_ (u32_val pos) (fun '(count, pos) =>
            after (map_pairs fuel count pos) (fun '(kvs, pos) => Some (Ok (VMap kvs, pos))))
        else Some (Err (UnknownValueType type_tag)))
  end
with array_items (fuel : nat) (count pos : Z) : option (result DecodeError (list AnyValue * Z)) :=
  match fuel with
  | O => None
  | S fuel =>
      if count <=? 0 then Some (Ok ([], pos))
      else
        after (value fuel pos) (fun '(v, pos) =>
          after (array_items fuel (count - 1) pos) (fun '(vs, pos) => Some (Ok (v :: vs, pos))))
  end
with map_pairs (fuel : nat) (count pos : Z)
    : option (result DecodeError (list (bytes * AnyValue) * Z)) :=
  match fuel with
  | O => None
  | S fuel =>
      if count <=? 0 then Some (Ok ([], pos))
      else
        then_ (c_str pos) (fun '(k, pos) =>
          after (value fuel pos) (fun '(v, pos) =>
            after (map_pairs fuel (count - 1) pos) (fun '(kvs, pos) => Some (Ok ((k, v) :: kvs, pos)))))
  end.
End Cursor.

Record DecodedOcc1 := mkDecoded {
  canonical_version : Z;
  scrub_policy_version : Z;
  deployment_id : bytes;
  app_identity_digest : bytes;
  event_id : bytes;
  d_severity_number : Z;
  d_severity_text : bytes;
  d_event_name : bytes;
  d_body : AnyValue;
  d_attributes : list (bytes * AnyValue);
}.

(** Enough fuel for any value of [data]. *)
Definition decode_fuel (data : bytes) : nat := Z.to_nat (3 * zlen data + 3).

Definition decode (data : bytes) : option (result DecodeError DecodedOcc1) :=
  let fuel := decode_fuel data in
  then_ (c_take data 0 4) (fun '(magic, pos) =>
  if negb (bool_decide (magic = OCC_MAGIC)) then Some (Err BadMagic) else
  then_ (u16_val data pos) (fun '(version, pos) =>
  if negb (version =? 1) then Some (Err (UnsupportedVersion version)) else
  then_ (u16_val data pos) (fun '(scrub, pos) =>
  then_ (c_take data pos 16) (fun '(deployment, pos) =>
  then_ (c_take data pos 32) (fun '(app, pos) =>
  then_ (c_take data pos 16) (fun '(event, pos) =>
  then_ (skip_str data pos) (fun pos =>
  then_ (skip data pos 4) (fun pos =>
  then_ (skip_value data pos) (fun pos =>
  then_ (skip_option_str data pos) (fun pos =>
  then_ (skip_option_str data pos) (fun pos =>
  then_ (skip_option_u32 data pos) (fun pos =>
  then_ (skip_option_value data pos) (fun pos =>
  then_ (skip_str data pos) (fun pos =>
  then_ (skip data pos 8) (fun pos =>
  then_ (skip data pos 8) (fun pos =>
  then_ (i32_val data pos) (fun '(severity, pos) =>
  then_ (c_str data pos) (fun '(severity_text, pos) =>
  then_ (c_str data pos) (fun '(event_name, pos) =>
  after (value data fuel pos) (fun '(body, pos) =>
  then_ (skip data pos 4) (fun pos =>
  after (value data fuel pos) (fun '(attrs, pos) =>
  let attributes := match attrs with VMap pairs => pairs | _ => [] end in
  Some (Ok (mkDecoded version scrub deployment app event severity severity_text event_name
              body attributes)))))))))))))))))))))))).

Definition attribute (d : DecodedOcc1) (key : bytes) : option AnyValue :=
  snd <$> List.find (fun kv => bool_decide (fst kv = key)) (d_attributes d).

Definition string_attribute (d : DecodedOcc1) (key : bytes) : option bytes :=
  match attribute d key with Some (VString s) => Some s | _ => None end.

(** ** Induction on nested values *)

Section AnyValueInd.
  Context (P : AnyValue -> Prop).
  Context (HNull : P VNull) (HString : forall s, P (VString s)) (HBool : forall b, P (VBool b))
    (HInt : forall v, P (VInt64 v)) (HDouble : forall d, P (VDouble d)) (HBytes : forall b, P (VBytes b))
    (HArray : forall vs, Forall P vs -> P (VArray vs))
    (HMap : forall kvs, Forall (fun kv => P (snd kv)) kvs -> P (VMap kvs)).

Fixpoint AnyValue_nested (v : AnyValue) : P v :=
  match v with
  | VNull => HNull
  | VString s => HString s
  | VBool b => HBool b
  | VInt64 v => HInt v
  | VDouble d => HDouble d
  | VBytes b => HBytes b
  | VArray vs =>
      HArray vs ((fix go l : Forall P l :=
        match l with
        | [] => @List.Forall_nil _ _
        | x :: l => @List.Forall_cons _ _ x l (AnyValue_nested x) (go l)
        end) vs)
  | VMap kvs =>
      HMap kvs ((fix go l : Forall (fun kv => P (snd kv)) l :=
        match l with
        | [] => @List.Forall_nil _ _
        | kv :: l => @List.Forall_cons _ _ kv l (AnyValue_nested (snd kv)) (go l)
        end) kvs)
  end.
End AnyValueInd.

(** ** The layout of a value and what redaction leaves of it *)

Definition prefixed (x : bytes) : bytes := be_bytes 4 (zlen x) ++ x.

Fixpoint payload (v : AnyValue) : bytes :=
  match v with
  | VNull => be_bytes 1 0
  | VString s => be_bytes 1 1 ++ prefixed s
  | VBool b => be_bytes 1 2 ++ be_bytes 1 (if b then 1 else 0)
  | VInt64 v => be_bytes 1 3 ++ be_bytes 8 (v mod 2 ^ 64)
  | VDouble bits => be_bytes 1 4 ++ be_bytes 8 bits
  | VBytes b => be_bytes 1 5 ++ prefixed b
  | VArray vs => be_bytes 1 6 ++ be_bytes 4 (zlen vs) ++ concat (map (fun v => prefixed (payload v)) vs)
  | VMap kvs =>
      be_bytes 1 7 ++ be_bytes 4 (zlen kvs) ++
      concat (map (fun kv : bytes * AnyValue =>
        prefixed (fst kv) ++
        prefixed (if is_sensitive_key (fst kv) then be_bytes 1 1 ++ prefixed REDACTED
                  else payload (snd kv))) kvs)
  end.

Fixpoint redact (v : AnyValue) : AnyValue :=
  match v with
  | VArray vs => VArray (map redact vs)
  | VMap kvs =>
      VMap (map (fun kv : bytes * AnyValue =>
        (fst kv, if is_sensitive_key (fst kv) then VString REDACTED else redact (snd kv))) kvs)
  | v => v
  end.

Lemma zlen_prefixed x : zlen (prefixed x) = 4 + zlen x.
Proof. unfold prefixed. by rewrite zlen_app, zlen_be_bytes. Qed.

Lemma zlen_concat_item {A} (g : A -> bytes) l x :
  x ∈ l -> zlen (g x) <= zlen (concat (map g l)).
Proof.
  induction 1; cbn [map concat]; rewrite zlen_app.
  - pose proof (zlen_nonneg (concat (map g l))). lia.
  - pose proof (zlen_nonneg (g y)). lia.
Qed.

Lemma zlen_concat_count {A} (g : A -> bytes) l :
  (forall x, 1 <= zlen (g x)) -> zlen l <= zlen (concat (map g l)).
Proof.
  intros Hg. induction l as [|x l IH]; [done|]. cbn [map concat].
  rewrite zlen_app, zlen_cons. specialize (Hg x). lia.
Qed.

(** ** What the encoder writes *)

Section EncoderSpec.
  Context (limit : Z).

Lemma put_ok out x out' : put limit out x = Ok out' -> out' = out ++ x.
Proof. unfold put. repeat case_match; by intros [= <-]. Qed.

Lemma put_bytes_ok out x out' :
  put_bytes limit out x = Ok out' -> out' = out ++ prefixed x /\ zlen x <= u32_max.
Proof.
  unfold put_bytes. destruct (Z.ltb_spec u32_max (zlen x)); [done|].
  intros (o & Ho & H1)%bind_ok. apply put_ok in Ho, H1. subst. unfold prefixed.
  by rewrite app_assoc.
Qed.

Lemma put_redacted_ok out out' :
  put_redacted_value limit out = Ok out' ->
  out' = out ++ prefixed (be_bytes 1 1 ++ prefixed REDACTED).
Proof.
  unfold put_redacted_value. intros (o & Ho & H1)%bind_ok. apply bind_ok in H1 as (o2 & Ho2 & H2).
  apply put_ok in Ho, Ho2. apply put_bytes_ok in H2 as [-> _]. subst.
  by rewrite <- !app_assoc.
Qed.

Lemma try_fold_ok {A} (f : bytes -> A -> result Error bytes) g l :
  Forall (fun x => forall o o', f o x = Ok o' -> o' = o ++ g x) l ->
  forall out out', try_fold f out l = Ok out' -> out' = out ++ concat (map g l).
Proof.
  induction 1 as [|x l Hx _ IH]; intros out out'; simpl.
  - intros [= <-]. by rewrite app_nil_r.
  - intros (o & ->%Hx & ->%IH)%bind_ok. by rewrite <- app_assoc.
Qed.

(** The length written last lands in the four bytes kept for it. *)
Lemma backpatch (out p : bytes) z n :
  take (Z.to_nat (zlen out)) ((out ++ be_bytes 4 z) ++ p) ++ be_bytes 4 n ++
    drop (Z.to_nat (zlen out + 4)) ((out ++ be_bytes 4 z) ++ p) = out ++ be_bytes 4 n ++ p.
Proof.
  rewrite (drop_app_length' (out ++ be_bytes 4 z) p)
    by (rewrite length_app, length_be_bytes; unfold zlen; lia).
  by rewrite <- (app_assoc out), take_app_length' by (unfold zlen; lia).
Qed.

Lemma put_framed (k : bytes -> result Error bytes) p out out' :
  (forall o o', k o = Ok o' -> o' = o ++ p) ->
  (let start := zlen out in
   let? out := put_u32 limit out 0 in
   let? out := k out in
   let payload_len := zlen out - start - 4 in
   if u32_max <? payload_len then Err LengthOverflow
   else Ok (take (Z.to_nat start) out ++ be_bytes 4 payload_len ++ drop (Z.to_nat (start + 4)) out))
    = Ok out' ->
  out' = out ++ prefixed p /\ zlen p <= u32_max.
Proof.
  intros Hk (o & ->%put_ok & (o2 & ->%Hk & H2)%bind_ok)%bind_ok. revert H2. cbv zeta.
  rewrite backpatch, !zlen_app, zlen_be_bytes. split_tests; [done|]. intros [= <-].
  replace (zlen out + Z.of_nat 4 + zlen p - zlen out - 4) with (zlen p) in * by lia. done.
Qed.

Lemma put_value_ok v : forall out out',
  put_value limit out v = Ok out' -> out' = out ++ prefixed (payload v) /\ zlen (payload v) <= u32_max.
Proof.
  induction v as [|s|b|z|d|b|vs IH|kvs IH] using AnyValue_nested; intros out out' Hput;
    cbn [put_value] in Hput; (eapply put_framed; [|exact Hput]);
    clear Hput; intros o o'; cbn [payload].
  - apply put_ok.
  - intros (o2 & ->%put_ok & [-> _]%put_bytes_ok)%bind_ok. by rewrite <- app_assoc.
  - intros (o2 & ->%put_ok & ->%put_ok)%bind_ok. by rewrite <- app_assoc.
  - intros (o2 & ->%put_ok & ->%put_ok)%bind_ok. by rewrite <- app_assoc.
  - intros (o2 & ->%put_ok & ->%put_ok)%bind_ok. by rewrite <- app_assoc.
  - intros (o2 & ->%put_ok & [-> _]%put_bytes_ok)%bind_ok. by rewrite <- app_assoc.
  - intros (o2 & ->%put_ok & (o3 & ->%put_ok & H3)%bind_ok)%bind_ok.
    apply (try_fold_ok _ (fun v => prefixed (payload v))) in H3 as ->; [by rewrite <- !app_assoc|].
    eapply Forall_impl; [exact IH|]. intros v Hv a a' Ha. by apply Hv in Ha as [-> _].
  - intros (o2 & ->%put_ok & (o3 & ->%put_ok & H3)%bind_ok)%bind_ok.
    eapply try_fold_ok in H3 as ->; [by rewrite <- !app_assoc|].
    eapply Forall_impl; [exact IH|]. intros [k v] Hv a a' (a2 & [-> _]%put_bytes_ok & Ha)%bind_ok.
    cbn [fst snd] in *. rewrite app_assoc. destruct (is_sensitive_key k).
    + by apply put_redacted_ok in Ha.
    + by apply Hv in Ha as [-> _].
Qed.
End EncoderSpec.

(** ** What the decoder reads *)

(** The values the types of the source allow: UTF-8 strings and keys, [i64]
    integers and the 64 bits of a double. *)
Fixpoint wf_value (v : AnyValue) : bool :=
  match v with
  | VString s => valid_utf8 s
  | VInt64 v => (- 2 ^ 63 <=? v) && (v <? 2 ^ 63)
  | VDouble d => (0 <=? d) && (d <=? u64_max)
  | VArray vs => forallb wf_value vs
  | VMap kvs => forallb (fun kv : bytes * AnyValue => valid_utf8 (fst kv) && wf_value (snd kv)) kvs
  | _ => true
  end.

Section DecoderSpec.
  Context (data : bytes).

(** The cursor stands before [l], the rest of the input. *)
Definition at_ (pos : Z) (l : bytes) : Prop := exists pre, data = pre ++ l /\ pos = zlen pre.

Lemma at_skip pos x l n : at_ pos (x ++ l) -> n = zlen x -> at_ (pos + n) l.
Proof.
  intros (pre & Hd & ->) ->. exists (pre ++ x). rewrite <- app_assoc, zlen_app. done.
Qed.

Lemma at_bound pos l : at_ pos l -> pos + zlen l = zlen data.
Proof. intros (pre & Hd & ->). by rewrite Hd, zlen_app. Qed.

Lemma c_take_at pos x l n :
  at_ pos (x ++ l) -> n = zlen x -> c_take data pos n = Ok (x, pos + n).
Proof.
  intros Hat Hn. pose proof (at_bound _ _ Hat) as Hb. rewrite zlen_app in Hb.
  pose proof (zlen_nonneg l). destruct Hat as (pre & Hd & Hp).
  unfold c_take, remaining. split_tests; [unfold_ints; lia|].
  rewrite Hd, drop_app_length' by (unfold zlen in *; lia).
  by rewrite take_app_length' by (unfold zlen in *; lia).
Qed.

Lemma u32_val_at pos z l :
  at_ pos (be_bytes 4 z ++ l) -> in_u32 z -> u32_val data pos = Ok (z, pos + 4).
Proof.
  intros Hat Hz. unfold u32_val. rewrite (c_take_at pos (be_bytes 4 z) l 4) by done. cbn [result_bind].
  rewrite from_be_be_bytes_id; [done|]. unfold in_u32, u32_max in Hz. change (256 ^ Z.of_nat 4) with (2 ^ 32). lia.
Qed.

Lemma u8_at pos z l :
  at_ pos (be_bytes 1 z ++ l) -> 0 <= z < 256 ->
  c_take data pos 1 = Ok (be_bytes 1 z, pos + 1) /\ from_be (be_bytes 1 z) = z.
Proof.
  intros Hat Hz. split; [by apply (c_take_at pos _ l)|]. by apply from_be_be_bytes_id.
Qed.

Lemma len_u32 {A} (x : list A) : zlen x <= u32_max -> in_u32 (zlen x).
Proof. pose proof (zlen_nonneg x). unfold in_u32. lia. Qed.

Lemma c_bytes_at pos x l :
  at_ pos (prefixed x ++ l) -> zlen x <= u32_max -> c_bytes data pos = Ok (x, pos + zlen (prefixed x)).
Proof.
  intros Hat Hx. unfold prefixed in *. rewrite <- app_assoc in Hat. unfold c_bytes.
  rewrite (u32_val_at pos (zlen x) (x ++ l)) by auto using len_u32. cbn [result_bind].
  rewrite (c_take_at (pos + 4) x l); [|by apply (at_skip pos (be_bytes 4 (zlen x)))|done].
  f_equal. f_equal. rewrite zlen_app, zlen_be_bytes. lia.
Qed.

Lemma c_str_at pos x l :
  at_ pos (prefixed x ++ l) -> zlen x <= u32_max -> valid_utf8 x = true ->
  c_str data pos = Ok (x, pos + zlen (prefixed x)).
Proof. intros Hat Hx Hv. unfold c_str. rewrite (c_bytes_at pos x l) by done. simpl. by rewrite Hv. Qed.

Lemma skip_str_at pos x l :
  at_ pos (prefixed x ++ l) -> zlen x <= u32_max -> skip_str data pos = Ok (pos + zlen (prefixed x)).
Proof.
  intros Hat Hx. pose proof (c_bytes_at _ _ _ Hat Hx) as Hb. revert Hb. unfold c_bytes, skip_str, skip.
  destruct (u32_val data pos) as [[n p]|]; simpl; [|done].
  destruct (c_take data p n) as [[y q]|]; simpl; [|done]. by intros [= _ ->].
Qed.

Lemma skip_at pos x l n : at_ pos (x ++ l) -> n = zlen x -> skip data pos n = Ok (pos + n).
Proof. intros Hat Hn. unfold skip. by rewrite (c_take_at pos x l n). Qed.

(** A value is read back redacted, its cursor past it. *)
Definition reads_back (v : AnyValue) : Prop := forall fuel pos l,
  at_ pos (prefixed (payload v) ++ l) -> wf_value v = true -> zlen (payload v) <= u32_max ->
  zlen (prefixed (payload v)) <= Z.of_nat fuel ->
  value data fuel pos = Some (Ok (redact v, pos + zlen (prefixed (payload v)))).

Lemma array_items_at vs : Forall reads_back vs -> forall fuel pos l,
  let enc := concat (map (fun v => prefixed (payload v)) vs) in
  at_ pos (enc ++ l) -> forallb wf_value vs = true -> zlen enc <= u32_max ->
  zlen enc < Z.of_nat fuel ->
  array_items data fuel (zlen vs) pos = Some (Ok (map redact vs, pos + zlen enc)).
Proof.
  induction 1 as [|v vs Hv _ IH]; intros fuel pos l enc Hat Hwf Hmax Hfuel;
    (destruct fuel as [|fuel]; [pose proof (zlen_nonneg enc); lia|]); cbn [array_items].
  - do 3 f_equal. unfold enc. simpl. rewrite zlen_nil. lia.
  - unfold enc in *. cbn [map concat forallb] in *. apply andb_true_iff in Hwf as [Hw Hws].
    rewrite zlen_app, zlen_prefixed in Hmax, Hfuel. rewrite <- app_assoc in Hat.
    pose proof (zlen_nonneg vs). pose proof (zlen_nonneg (payload v)).
    pose proof (zlen_nonneg (concat (map (fun v => prefixed (payload v)) vs))).
    rewrite zlen_cons. split_tests; [lia|].
    rewrite (Hv fuel pos _ Hat) by (rewrite ?zlen_prefixed; done || lia). cbn [after].
    replace (1 + zlen vs - 1) with (zlen vs) by lia.
    rewrite (IH fuel _ l) by ((eapply at_skip; done) || done || lia). cbn [after].
    do 3 f_equal. rewrite zlen_app. lia.
Qed.

Definition enc_pair (kv : bytes * AnyValue) : bytes :=
  prefixed (fst kv) ++
  prefixed (if is_sensitive_key (fst kv) then be_bytes 1 1 ++ prefixed REDACTED else payload (snd kv)).

Definition redact_pair (kv : bytes * AnyValue) : bytes * AnyValue :=
  (fst kv, if is_sensitive_key (fst kv) then VString REDACTED else redact (snd kv)).

Lemma map_pairs_at kvs : reads_back (VString REDACTED) -> Forall (fun kv => reads_back (snd kv)) kvs ->
  forall fuel pos l,
  let enc := concat (map enc_pair kvs) in
  at_ pos (enc ++ l) ->
  forallb (fun kv : bytes * AnyValue => valid_utf8 (fst kv) && wf_value (snd kv)) kvs = true ->
  zlen enc <= u32_max -> zlen enc < Z.of_nat fuel ->
  map_pairs data fuel (zlen kvs) pos = Some (Ok (map redact_pair kvs, pos + zlen enc)).
Proof.
  intros Hred. induction 1 as [|[k v] kvs Hv _ IH]; intros fuel pos l enc Hat Hwf Hmax Hfuel;
    (destruct fuel as [|fuel]; [pose proof (zlen_nonneg enc); lia|]); cbn [map_pairs].
  - do 3 f_equal. unfold enc. simpl. rewrite zlen_nil. lia.
  - unfold enc in *. cbn [map concat forallb] in *. apply andb_true_iff in Hwf as [Hw Hws].
    apply andb_true_iff in Hw as [Hk Hw].
    change (enc_pair (k, v)) with (prefixed k ++
      prefixed (if is_sensitive_key k then be_bytes 1 1 ++ prefixed REDACTED else payload v)) in *.
    unfold redact_pair at 1. cbn [fst snd] in *.
    pose proof (zlen_nonneg kvs). pose proof (zlen_nonneg k).
    pose proof (zlen_nonneg (concat (map enc_pair kvs))).
    rewrite zlen_cons. split_tests; [lia|]. rewrite <- !app_assoc in Hat.
    set (w := if is_sensitive_key k then VString REDACTED else v).
    assert (reads_back w) as Hrw by (unfold w; by destruct (is_sensitive_key k)).
    assert (wf_value w = true) as Hww by (unfold w; by destruct (is_sensitive_key k)).
    assert ((if is_sensitive_key k then be_bytes 1 1 ++ prefixed REDACTED else payload v) = payload w)
      as Hp by (unfold w; by destruct (is_sensitive_key k)).
    rewrite Hp in *. rewrite !zlen_app, !zlen_prefixed in Hmax, Hfuel.
    pose proof (zlen_nonneg (payload w)).
    rewrite (c_str_at pos k _ Hat) by (done || lia). cbn [then_].
    apply at_skip with (n := zlen (prefixed k)) in Hat; [|done].
    rewrite (Hrw fuel _ _ Hat) by (rewrite ?zlen_prefixed; done || lia). cbn [after].
    replace (1 + zlen kvs - 1) with (zlen kvs) by lia.
    rewrite (IH fuel _ l) by ((eapply at_skip; done) || done || lia). cbn [after].
    do 3 f_equal; [|rewrite !zlen_app; lia]. do 2 f_equal. unfold w. by destruct (is_sensitive_key k).
Qed.

(** A value reads back as soon as its payload does. *)
Lemma value_of_body v fuel pos l :
  at_ pos (prefixed (payload v) ++ l) -> zlen (payload v) <= u32_max ->
  (forall pos', at_ pos' (payload v ++ l) ->
     decode_value_body data fuel pos' = Some (Ok (redact v, pos' + zlen (payload v)))) ->
  value data (S fuel) pos = Some (Ok (redact v, pos + zlen (prefixed (payload v)))).
Proof.
  intros Hat Hmax Hbody. pose proof (at_bound _ _ Hat) as Hb.
  rewrite zlen_app, zlen_prefixed in Hb. rewrite zlen_prefixed. pose proof (zlen_nonneg l).
  unfold prefixed in Hat. rewrite <- app_assoc in Hat. cbn [value].
  rewrite (u32_val_at pos _ _ Hat) by auto using len_u32. cbn [then_].
  split_tests; [lia|]. rewrite Hbody by (eapply at_skip; done). cbn [after].
  do 3 f_equal. lia.
Qed.

Lemma to_i64_mod v : - 2 ^ 63 <= v < 2 ^ 63 -> to_i64 (v mod 2 ^ 64) = v.
Proof.
  intros Hv. unfold to_i64.
  assert (v mod 2 ^ 64 = v \/ v mod 2 ^ 64 = v + 2 ^ 64) as Hm.
  { destruct (Z.lt_ge_cases v 0); [right|left; apply Z.mod_small; lia].
    rewrite <- (Z.mod_add v 1) by lia. apply Z.mod_small. lia. }
  destruct Hm as [-> | ->]; split_tests; lia.
Qed.

Lemma u64_at pos z l : at_ pos (be_bytes 8 z ++ l) -> in_u64 z ->
  c_take data pos 8 = Ok (be_bytes 8 z, pos + 8) /\ from_be (be_bytes 8 z) = z.
Proof.
  intros Hat Hz. split; [by apply (c_take_at pos _ l)|]. apply from_be_be_bytes_id.
  change (256 ^ Z.of_nat 8) with (2 ^ 64). unfold_ints. lia.
Qed.

Ltac tag_at Hat :=
  rewrite <- ?app_assoc in Hat; cbn [decode_value_body];
  let H := fresh in pose proof (u8_at _ _ _ Hat ltac:(lia)) as H;
  rewrite (proj1 H); cbn [then_]; cbv zeta; rewrite (proj2 H); clear H;
  apply at_skip with (n := 1) in Hat; [|done]; cbn [Z.eqb Pos.eqb].

Lemma reads_back_leaf v :
  match v with VArray _ | VMap _ => False | _ => True end -> reads_back v.
Proof.
  intros Hleaf fuel pos l Hat Hwf Hmax Hfuel. rewrite zlen_prefixed in Hfuel.
  pose proof (zlen_nonneg (payload v)).
  destruct fuel as [|[|fuel]]; [lia|lia|].
  apply (value_of_body v _ pos l); [done|done|]. clear pos Hat Hfuel. intros pos Hat.
  destruct v as [|s|b|z|d|b|vs|kvs]; try done; cbn [payload redact wf_value] in *; tag_at Hat.
  - do 3 f_equal.
  - rewrite zlen_app, zlen_prefixed in Hmax. pose proof (zlen_be_bytes 1 1).
    rewrite (c_str_at _ s l Hat) by (done || lia). cbn [then_]. do 3 f_equal. rewrite zlen_app. lia.
  - assert (0 <= (if b then 1 else 0) < 256) as Hr by (destruct b; lia).
    destruct (u8_at _ _ _ Hat Hr) as [-> Hv]. cbn [then_]. rewrite Hv. do 3 f_equal; [by destruct b|].
    rewrite zlen_app, !zlen_be_bytes. lia.
  - apply andb_true_iff in Hwf as [H1%Z.leb_le H2%Z.ltb_lt].
    pose proof (Z.mod_pos_bound z (2 ^ 64) ltac:(lia)).
    destruct (u64_at _ _ _ Hat) as [-> Hv]; [unfold_ints; lia|]. cbn [then_]. rewrite Hv.
    do 3 f_equal; [by rewrite to_i64_mod by lia|]. rewrite zlen_app, !zlen_be_bytes. lia.
  - apply andb_true_iff in Hwf as [H1%Z.leb_le H2%Z.leb_le].
    destruct (u64_at _ _ _ Hat) as [-> Hv]; [unfold_ints; lia|]. cbn [then_]. rewrite Hv.
    do 3 f_equal. rewrite zlen_app, !zlen_be_bytes. lia.
  - rewrite zlen_app, zlen_prefixed in Hmax. pose proof (zlen_be_bytes 1 5).
    rewrite (c_bytes_at _ b l Hat) by lia. cbn [then_]. do 3 f_equal. rewrite zlen_app. lia.
Qed.

Lemma value_at v : reads_back v.
Proof.
  induction v as [|s|b|z|d|b|vs IH|kvs IH] using AnyValue_nested; try by apply reads_back_leaf.
  - intros fuel pos l Hat Hwf Hmax Hfuel. rewrite zlen_prefixed in Hfuel.
    pose proof (zlen_concat_count (fun v => prefixed (payload v)) vs) as Hc.
    cbn [payload wf_value] in Hmax, Hfuel, Hwf. rewrite !zlen_app, !zlen_be_bytes in Hmax, Hfuel.
    pose proof (zlen_nonneg (concat (map (fun v => prefixed (payload v)) vs))).
    destruct fuel as [|[|fuel]]; [lia|lia|].
    apply (value_of_body (VArray vs) _ pos l); [done|cbn [payload]; rewrite !zlen_app, !zlen_be_bytes; lia|].
    clear pos Hat. intros pos Hat. cbn [payload redact] in *. tag_at Hat.
    rewrite (u32_val_at _ _ _ Hat).
    2:{ apply len_u32. etransitivity; [apply Hc|lia]. intros x. rewrite zlen_prefixed.
        pose proof (zlen_nonneg (payload x)). lia. }
    cbn [then_]. rewrite (array_items_at vs IH _ _ l) by ((by eapply at_skip) || done || lia).
    cbn [after]. do 3 f_equal. rewrite !zlen_app, !zlen_be_bytes. lia.
  - intros fuel pos l Hat Hwf Hmax Hfuel. rewrite zlen_prefixed in Hfuel.
    pose proof (zlen_concat_count enc_pair kvs) as Hc.
    cbn [payload wf_value] in Hmax, Hfuel, Hwf. rewrite !zlen_app, !zlen_be_bytes in Hmax, Hfuel.
    fold enc_pair in Hmax, Hfuel. change (concat (map _ kvs)) with (concat (map enc_pair kvs)) in Hmax, Hfuel.
    pose proof (zlen_nonneg (concat (map enc_pair kvs))).
    destruct fuel as [|[|fuel]]; [lia|lia|].
    apply (value_of_body (VMap kvs) _ pos l); [done|cbn [payload]; rewrite !zlen_app, !zlen_be_bytes; exact Hmax|].
    clear pos Hat. intros pos Hat. cbn [payload redact] in *.
    change (concat (map _ kvs)) with (concat (map enc_pair kvs)) in Hat. tag_at Hat.
    rewrite (u32_val_at _ _ _ Hat).
    2:{ apply len_u32. etransitivity; [apply Hc|lia]. intros x. unfold enc_pair.
        rewrite zlen_app, !zlen_prefixed. pose proof (zlen_nonneg (fst x)).
        match goal with |- context [zlen (if ?c then ?a else ?b)] => pose proof (zlen_nonneg (if c then a else b)) end. lia. }
    cbn [then_]. rewrite (map_pairs_at kvs (reads_back_leaf (VString REDACTED) I) IH _ _ l)
      by ((by eapply at_skip) || done || lia).
    cbn [after]. do 3 f_equal. rewrite !zlen_app, !zlen_be_bytes.
    change (concat (map _ kvs)) with (concat (map enc_pair kvs)). lia.
Qed.

(** ** Every input is decoded in bounded fuel *)

Lemma c_take_ok pos n b p : c_take data pos n = Ok (b, p) -> p = pos + n /\ n <= remaining data pos.
Proof. unfold c_take. split_tests; [done|]. by intros [= _ <-]. Qed.

Lemma u32_val_ok pos v p :
  u32_val data pos = Ok (v, p) -> p = pos + 4 /\ 4 <= remaining data pos /\ 0 <= v.
Proof.
  intros ([b q] & [-> Hr]%c_take_ok & [= <- <-])%bind_ok. pose proof (from_be_range b). lia.
Qed.

Lemma c_bytes_ok pos b p :
  c_bytes data pos = Ok (b, p) -> pos + 4 <= p /\ (0 <= pos -> p <= zlen data).
Proof.
  intros ([n q] & (-> & Hr & Hn)%u32_val_ok & [-> Hr2]%c_take_ok)%bind_ok. unfold remaining in *. ints.
Qed.

Lemma c_str_ok pos b p :
  c_str data pos = Ok (b, p) -> pos + 4 <= p /\ (0 <= pos -> p <= zlen data).
Proof.
  intros ([x q] & Hb%c_bytes_ok & Hp)%bind_ok. destruct (valid_utf8 x); [|done]. by injection Hp as <- <-.
Qed.

Lemma then_some {A B} (r : result DecodeError A) (k : A -> option (result DecodeError B)) :
  (forall a, r = Ok a -> k a <> None) -> then_ r k <> None.
Proof. destruct r; simpl; auto. Qed.

Lemma after_some {A B} (r : option (result DecodeError A)) (k : A -> option (result DecodeError B)) :
  r <> None -> (forall a, r = Some (Ok a) -> k a <> None) -> after r k <> None.
Proof. destruct r as [[a|e]|]; simpl; auto. Qed.

Lemma value_ok fuel pos v p :
  value data fuel pos = Some (Ok (v, p)) -> pos + 4 <= p <= zlen data /\ 4 <= remaining data pos.
Proof.
  destruct fuel as [|fuel]; [done|]. cbn [value].
  destruct (u32_val data pos) as [[n q]|] eqn:E; [|done]. cbn [then_].
  apply u32_val_ok in E as (-> & Hr & Hn). split_tests; [done|].
  destruct (decode_value_body data fuel (pos + 4)) as [[[w r]|]|]; cbn [after]; try done.
  intros [= _ <-]. lia.
Qed.

(** The reading of a value never runs out: each call moves the cursor on by
    four bytes or spends one of three units of fuel before it does. *)
Lemma decoder_terminates fuel :
  (forall pos, 3 * remaining data pos + 1 <= Z.of_nat fuel -> value data fuel pos <> None) /\
  (forall pos, 3 * remaining data pos + 3 <= Z.of_nat fuel -> decode_value_body data fuel pos <> None) /\
  (forall count pos, 3 * remaining data pos + 2 <= Z.of_nat fuel -> array_items data fuel count pos <> None) /\
  (forall count pos, 3 * remaining data pos + 2 <= Z.of_nat fuel -> map_pairs data fuel count pos <> None).
Proof.
  induction fuel as [|fuel (IHv & IHb & IHa & IHm)].
  { split_and!; intros; exfalso; unfold remaining in *; ints. }
  assert (forall pos p, 3 * remaining data pos + 2 <= Z.of_nat (S fuel) -> 4 <= remaining data pos ->
    pos + 4 <= p -> 3 * remaining data p + 3 <= Z.of_nat fuel) as Hstep.
  { intros. unfold remaining in *. ints. }
  split_and!.
  - intros pos Hf. cbn [value]. apply then_some. intros [n q] (-> & Hr & Hn)%u32_val_ok.
    case_match; [done|]. apply after_some; [|by intros [w r] _].
    apply IHb. unfold remaining in *. ints.
  - intros pos Hf. cbn [decode_value_body]. apply then_some. intros [b q] [-> Hr]%c_take_ok.
    repeat case_match; try done; apply then_some; intros [n q]; try done;
      intros (-> & Hr2 & Hn)%u32_val_ok; (apply after_some; [|by intros [w r] _]);
      [apply IHa|apply IHm]; unfold remaining in *; ints.
  - intros count pos Hf. cbn [array_items]. case_match; [done|].
    apply after_some; [apply IHv; lia|]. intros [v p] [Hp Hr]%value_ok.
    apply after_some; [|by intros [w r] _]. apply IHa. specialize (Hstep pos p Hf Hr). lia.
  - intros count pos Hf. cbn [map_pairs]. case_match; [done|].
    apply then_some. intros [k q] [Hq _]%c_str_ok.
    assert (remaining data q <= remaining data pos) by (unfold remaining; ints).
    apply after_some; [apply IHv; lia|]. intros [v p] [Hp Hr]%value_ok.
    apply after_some; [|by intros [w r] _]. apply IHm. specialize (Hstep q p). lia.
Qed.

(** The readers only move the cursor forward. *)
Lemma skip_ok pos n p : skip data pos n = Ok p -> p = pos + n.
Proof. by intros ([b q] & [-> _]%c_take_ok & [= <-])%bind_ok. Qed.

Lemma u16_val_ok pos v p : u16_val data pos = Ok (v, p) -> p = pos + 2.
Proof. by intros ([b q] & [-> _]%c_take_ok & [= _ <-])%bind_ok. Qed.

Lemma i32_val_ok pos v p : i32_val data pos = Ok (v, p) -> p = pos + 4.
Proof. by intros ([b q] & [-> _]%c_take_ok & [= _ <-])%bind_ok. Qed.

Lemma skip_str_ok pos p : skip_str data pos = Ok p -> pos <= p.
Proof. intros ([n q] & (-> & _ & Hn)%u32_val_ok & ->%skip_ok)%bind_ok. lia. Qed.

Lemma option_tag_ok pos b p : option_tag data pos = Ok (b, p) -> p = pos + 1.
Proof. by intros ([x q] & [-> _]%c_take_ok & [= _ <-])%bind_ok. Qed.

Lemma skip_option_str_ok pos p : skip_option_str data pos = Ok p -> pos <= p.
Proof.
  intros ([b q] & ->%option_tag_ok & H)%bind_ok. destruct b; [apply skip_str_ok in H; lia|].
  injection H as <-. lia.
Qed.

Lemma skip_option_u32_ok pos p : skip_option_u32 data pos = Ok p -> pos <= p.
Proof.
  intros ([b q] & ->%option_tag_ok & H)%bind_ok. destruct b; [apply skip_ok in H; lia|].
  injection H as <-. lia.
Qed.

Lemma skip_option_value_ok pos p : skip_option_value data pos = Ok p -> pos <= p.
Proof.
  intros ([b q] & ->%option_tag_ok & H)%bind_ok. destruct b; [apply (skip_str_ok (pos + 1) p) in H; lia|].
  injection H as <-. lia.
Qed.
End DecoderSpec.

Ltac forward :=
  match goal with
  | |- then_ _ _ <> None =>
      apply then_some;
      let H := fresh in
      (intros [? ?] H || intros ? H);
      first [ apply c_take_ok in H as [? _] | apply u16_val_ok in H | apply i32_val_ok in H
            | apply c_str_ok in H as [? _] | apply skip_ok in H
            | apply skip_str_ok in H
            | apply skip_option_str_ok in H | apply skip_option_u32_ok in H
            | apply skip_option_value_ok in H ]
  | |- (if _ then _ else _) <> None => case_match; [done|]
  end.

(** C35. The occurrence decoder returns on every byte string: the fuel of
    [decode], which bounds the depth of its calls and is linear in the length
    of the input, is always enough, whatever lengths and element counts the
    input declares. *)
Theorem occ1_decode_terminates (data : bytes) : decode data <> None.
Proof.
  unfold decode. cbv zeta.
  assert (forall pos, 0 <= pos -> value data (decode_fuel data) pos <> None) as Hv.
  { intros pos Hpos. apply decoder_terminates. unfold decode_fuel, remaining.
    pose proof (zlen_nonneg data). ints. }
  repeat forward.
  apply after_some; [apply Hv; lia|]. intros [b q] [Hq _]%value_ok.
  repeat forward. apply after_some; [apply Hv; lia|]. by intros [? ?] _.
Qed.

(** ** The layout of an occurrence *)

Definition enc_opt {A} (enc : A -> bytes) (x : option A) : bytes :=
  match x with Some a => be_bytes 1 1 ++ enc a | None => be_bytes 1 0 end.

(** What the decoder reads, up to the attributes, and what it leaves. *)
Definition occ1_head (r : CanonicalLogRecord) (deployment app event : bytes) : list bytes :=
  [OCC_MAGIC; be_bytes 2 1; be_bytes 2 1; deployment; app; event;
   prefixed (resource_schema_url r); be_bytes 4 (resource_dropped_attributes_count r);
   prefixed (payload (resource_attributes r));
   enc_opt prefixed (scope_name r); enc_opt prefixed (scope_version r);
   enc_opt (be_bytes 4) (scope_dropped_attributes_count r);
   enc_opt (fun v => prefixed (payload v)) (scope_attributes r);
   prefixed (scope_schema_url r); be_bytes 8 (time_unix_nano r); be_bytes 8 (observed_time_unix_nano r);
   be_bytes 4 (severity_number r mod 2 ^ 32); prefixed (severity_text r); prefixed (event_name r);
   prefixed (payload (body r)); be_bytes 4 (dropped_attributes_count r);
   prefixed (payload (attributes r))].

Definition occ1_tail (r : CanonicalLogRecord) : list bytes :=
  [be_bytes 4 (trace_flags r); enc_opt id (trace_id r); enc_opt id (span_id r)].

(** The strings and payloads that carry a length. *)
Definition occ1_sized (r : CanonicalLogRecord) : list bytes :=
  [resource_schema_url r; payload (resource_attributes r)] ++ option_list (scope_name r)
  ++ option_list (scope_version r) ++ option_list (payload <$> scope_attributes r)
  ++ [scope_schema_url r; severity_text r; event_name r; payload (body r); payload (attributes r)].

Definition sized (x : bytes) : Prop := zlen x <= u32_max.

Section EncoderLayout.
  Context (limit : Z).

Lemma put_option_str_ok out x out' : put_option_str limit out x = Ok out' ->
  out' = out ++ enc_opt prefixed x /\ Forall sized (option_list x).
Proof.
  destruct x as [s|]; simpl.
  - intros (o & ->%put_ok & [-> Hs]%put_bytes_ok)%bind_ok. rewrite <- app_assoc. by repeat constructor.
  - intros ->%put_ok. by repeat constructor.
Qed.

Lemma put_option_u32_ok out x out' : put_option_u32 limit out x = Ok out' ->
  out' = out ++ enc_opt (be_bytes 4) x.
Proof.
  destruct x as [s|]; simpl; [|apply put_ok].
  intros (o & ->%put_ok & ->%put_ok)%bind_ok. by rewrite <- app_assoc.
Qed.

Lemma put_option_fixed_ok out x out' : put_option_fixed limit out x = Ok out' ->
  out' = out ++ enc_opt id x.
Proof.
  destruct x as [s|]; simpl; [|apply put_ok].
  intros (o & ->%put_ok & ->%put_ok)%bind_ok. by rewrite <- app_assoc.
Qed.

Lemma put_option_value_ok out x out' : put_option_value limit out x = Ok out' ->
  out' = out ++ enc_opt (fun v => prefixed (payload v)) x /\
  Forall sized (option_list (payload <$> x)).
Proof.
  destruct x as [v|]; simpl.
  - intros (o & ->%put_ok & [-> Hs]%put_value_ok)%bind_ok. rewrite <- app_assoc. by repeat constructor.
  - intros ->%put_ok. by repeat constructor.
Qed.

Ltac wrote :=
  match goal with
  | H : result_bind _ _ = Ok _ |- _ =>
      let o := fresh "o" in let Ho := fresh "Ho" in
      apply bind_ok in H as (o & Ho & H);
      first [ apply put_value_ok in Ho as [-> ?] | apply put_bytes_ok in Ho as [-> ?]
            | apply put_option_str_ok in Ho as [-> ?] | apply put_option_value_ok in Ho as [-> ?]
            | apply put_option_u32_ok in Ho as -> | apply put_option_fixed_ok in Ho as ->
            | apply put_ok in Ho as -> ]
  end.

Lemma encode_occurrence_ok r deployment app event out out' :
  encode_occurrence limit r deployment app event out = Ok out' ->
  out' = out ++ concat (occ1_head r deployment app event) ++ concat (occ1_tail r) /\
  Forall sized (occ1_sized r).
Proof.
  unfold encode_occurrence. intros H. repeat wrote. apply put_option_fixed_ok in H as ->. split.
  - unfold occ1_head, occ1_tail. cbn [concat]. by rewrite <- !app_assoc, !app_nil_r.
  - unfold occ1_sized. rewrite !Forall_app. split_and!; try done; by repeat constructor.
Qed.
End EncoderLayout.

(** ** Reading an occurrence back *)

Section DecoderLayout.
  Context (data : bytes).

Lemma skip_option_at {A} (enc : A -> bytes) (skipper : Z -> result DecodeError Z) pos x l :
  at_ data pos (enc_opt enc x ++ l) ->
  (forall a p l, x = Some a -> at_ data p (enc a ++ l) -> skipper p = Ok (p + zlen (enc a))) ->
  (let? '(some, p) := option_tag data pos in if some : bool then skipper p else Ok p) =
    Ok (pos + zlen (enc_opt enc x)).
Proof.
  intros Hat Hsk. unfold option_tag. destruct x as [a|]; cbn [enc_opt] in *.
  - rewrite <- app_assoc in Hat. destruct (u8_at _ _ _ _ Hat) as [-> Hv]; [lia|].
    cbn [result_bind]. rewrite Hv. cbn [Z.eqb negb].
    rewrite (Hsk a (pos + 1) l) by (done || by apply (at_skip _ _ _ _ 1) in Hat).
    rewrite zlen_app, zlen_be_bytes. f_equal. lia.
  - destruct (u8_at _ _ _ _ Hat) as [-> Hv]; [lia|]. cbn [result_bind]. rewrite Hv.
    by rewrite zlen_be_bytes.
Qed.

Lemma skip_option_str_at pos x l :
  at_ data pos (enc_opt prefixed x ++ l) -> Forall sized (option_list x) ->
  skip_option_str data pos = Ok (pos + zlen (enc_opt prefixed x)).
Proof.
  intros Hat Hs. apply (skip_option_at _ _ _ _ l); [done|]. intros a p l' -> Ha.
  inversion Hs. by apply (skip_str_at _ _ _ l').
Qed.

Lemma skip_option_u32_at pos x l :
  at_ data pos (enc_opt (be_bytes 4) x ++ l) ->
  skip_option_u32 data pos = Ok (pos + zlen (enc_opt (be_bytes 4) x)).
Proof.
  intros Hat. apply (skip_option_at _ _ _ _ l); [done|]. intros a p l' -> Ha.
  rewrite zlen_be_bytes. by apply (skip_at _ _ (be_bytes 4 a) l').
Qed.

Lemma skip_option_value_at pos x l :
  at_ data pos (enc_opt (fun v => prefixed (payload v)) x ++ l) ->
  Forall sized (option_list (payload <$> x)) ->
  skip_option_value data pos = Ok (pos + zlen (enc_opt (fun v => prefixed (payload v)) x)).
Proof.
  intros Hat Hs. apply (skip_option_at _ _ _ _ l); [done|]. intros a p l' -> Ha.
  inversion Hs. by apply (skip_str_at _ _ _ l').
Qed.

Lemma u16_val_at pos z l :
  at_ data pos (be_bytes 2 z ++ l) -> 0 <= z < 2 ^ 16 -> u16_val data pos = Ok (z, pos + 2).
Proof.
  intros Hat Hz. unfold u16_val. rewrite (c_take_at _ pos (be_bytes 2 z) l 2) by done.
  cbn [result_bind]. by rewrite from_be_be_bytes_id.
Qed.

Lemma i32_val_at pos z l :
  at_ data pos (be_bytes 4 (z mod 2 ^ 32) ++ l) -> - 2 ^ 31 <= z < 2 ^ 31 ->
  i32_val data pos = Ok (z, pos + 4).
Proof.
  intros Hat Hz. unfold i32_val. rewrite (c_take_at _ pos _ l 4 Hat) by done. cbn [result_bind].
  pose proof (Z.mod_pos_bound z (2 ^ 32) ltac:(lia)).
  rewrite from_be_be_bytes_id by (change (256 ^ Z.of_nat 4) with (2 ^ 32); lia). do 2 f_equal.
  unfold to_i32. destruct (Z.lt_ge_cases z 0).
  - rewrite <- (Z.mod_add z 1), Z.mod_small by lia. split_tests; lia.
  - rewrite Z.mod_small by lia. split_tests; lia.
Qed.
End DecoderLayout.

(** The values the types of [CanonicalLogRecord] allow, in the fields read back. *)
Definition wf_record (r : CanonicalLogRecord) : bool :=
  valid_utf8 (severity_text r) && valid_utf8 (event_name r)
  && (- 2 ^ 31 <=? severity_number r) && (severity_number r <? 2 ^ 31)
  && wf_value (body r) && wf_value (attributes r).

Definition pairs_of (v : AnyValue) : list (bytes * AnyValue) :=
  match v with VMap pairs => pairs | _ => [] end.

(** The fuel of [decode] covers any value in the input. *)
Lemma value_in data pos v l :
  at_ data pos (prefixed (payload v) ++ l) -> wf_value v = true -> zlen (payload v) <= u32_max ->
  value data (decode_fuel data) pos = Some (Ok (redact v, pos + zlen (prefixed (payload v)))).
Proof.
  intros Hat Hwf Hmax. apply (value_at data v _ pos l); [done..|].
  pose proof (at_bound _ _ _ Hat) as Hb. rewrite zlen_app in Hb. unfold decode_fuel.
  pose proof (zlen_nonneg l). pose proof (zlen_nonneg data).
  destruct Hat as (pre & _ & ->). pose proof (zlen_nonneg pre). lia.
Qed.

Ltac past Hat n :=
  apply (at_skip _ _ _ _ n) in Hat; [|done || by rewrite zlen_be_bytes]; cbn [then_ after].

Lemma occ1_decodes (limit : Z) (r : CanonicalLogRecord) (deployment digest event out : bytes) :
  zlen deployment = 16 -> zlen digest = 32 -> zlen event = 16 -> wf_record r = true ->
  encode_occurrence limit r deployment digest event [] = Ok out ->
  decode out =
    Some (Ok (mkDecoded CANONICAL_VERSION SCRUB_POLICY_VERSION deployment digest event
                (severity_number r) (severity_text r) (event_name r)
                (redact (body r)) (pairs_of (redact (attributes r))))).
Proof.
  intros Hd Ha He Hwf [Hout Hs]%encode_occurrence_ok. unfold wf_record in Hwf.
  rewrite !andb_true_iff, Z.leb_le, Z.ltb_lt in Hwf. destruct Hwf as [[[[[Hst Hen] Hlo] Hhi] Hwb] Hwa].
  unfold occ1_sized in Hs. rewrite !Forall_app, !Forall_cons in Hs. unfold sized in Hs.
  destruct Hs as ((Hs1 & Hs2 & _) & Hs3 & Hs4 & Hs5 & Hs6 & Hs7 & Hs8 & Hs9 & Hs10 & _).
  assert (at_ out 0 out) as Hat by (by exists []).
  rewrite Hout in Hat at 2. cbn [app] in Hat. unfold occ1_head in Hat. cbn [concat] in Hat.
  rewrite <- !app_assoc in Hat. clear Hout. unfold decode. cbv zeta.
  rewrite (c_take_at _ _ _ _ 4 Hat) by done. past Hat 4. rewrite bool_decide_true by done. cbn [negb].
  rewrite (u16_val_at _ _ _ _ Hat) by lia. past Hat 2. cbn [Z.eqb Pos.eqb negb].
  rewrite (u16_val_at _ _ _ _ Hat) by lia. past Hat 2.
  rewrite (c_take_at _ _ _ _ 16 Hat) by done. past Hat 16.
  rewrite (c_take_at _ _ _ _ 32 Hat) by done. past Hat 32.
  rewrite (c_take_at _ _ _ _ 16 Hat) by done. past Hat 16.
  rewrite (skip_str_at _ _ _ _ Hat) by done. past Hat (zlen (prefixed (resource_schema_url r))).
  rewrite (skip_at _ _ _ _ 4 Hat) by done. past Hat 4.
  change (skip_value out) with (skip_str out).
  rewrite (skip_str_at _ _ _ _ Hat) by done. past Hat (zlen (prefixed (payload (resource_attributes r)))).
  rewrite (skip_option_str_at _ _ _ _ Hat) by done. past Hat (zlen (enc_opt prefixed (scope_name r))).
  rewrite (skip_option_str_at _ _ _ _ Hat) by done. past Hat (zlen (enc_opt prefixed (scope_version r))).
  rewrite (skip_option_u32_at _ _ _ _ Hat). past Hat (zlen (enc_opt (be_bytes 4) (scope_dropped_attributes_count r))).
  rewrite (skip_option_value_at _ _ _ _ Hat) by done.
  past Hat (zlen (enc_opt (fun v => prefixed (payload v)) (scope_attributes r))).
  rewrite (skip_str_at _ _ _ _ Hat) by done. past Hat (zlen (prefixed (scope_schema_url r))).
  rewrite (skip_at _ _ _ _ 8 Hat) by done. past Hat 8.
  rewrite (skip_at _ _ _ _ 8 Hat) by done. past Hat 8.
  rewrite (i32_val_at _ _ _ _ Hat) by lia. past Hat 4.
  rewrite (c_str_at _ _ _ _ Hat) by done. past Hat (zlen (prefixed (severity_text r))).
  rewrite (c_str_at _ _ _ _ Hat) by done. past Hat (zlen (prefixed (event_name r))).
  rewrite (value_in _ _ _ _ Hat) by done. past Hat (zlen (prefixed (payload (body r)))).
  rewrite (skip_at _ _ _ _ 4 Hat) by done. past Hat 4.
  by rewrite (value_in _ _ _ _ Hat) by done.
Qed.

(** C20. Encoding an occurrence and decoding it: whenever the encoder succeeds,
    within the byte limit and with ids of their sizes, the decoder returns the
    identity, severity, event name, body and attributes of the record, the
    values under sensitive keys at any depth replaced by the redaction marker
    and everything else unchanged. *)
Theorem occ1_roundtrip (limit : Z) (r : CanonicalLogRecord) (deployment digest event out : bytes) :
  zlen deployment = 16 -> zlen digest = 32 -> zlen event = 16 -> wf_record r = true ->
  encode_occurrence limit r deployment digest event [] = Ok out ->
  decode out =
    Some (Ok (mkDecoded CANONICAL_VERSION SCRUB_POLICY_VERSION deployment digest event
                (severity_number r) (severity_text r) (event_name r)
                (redact (body r)) (pairs_of (redact (attributes r))))).
Proof. apply occ1_decodes. Qed.

Definition demo_record : CanonicalLogRecord :=
  mkLog 1 (str "u") 0 (VMap [(str "service.name", VString (str "api"))]) (Some (str "lib")) None (Some 2)
    (Some (VArray [VNull; VBool true])) [] 7 8 None (-3) (str "ERROR") (str "exception")
    (VMap [(str "msg", VInt64 (-5)); (str "db.password", VString (str "hunter2"))]) 0
    (VMap [(str "user", VMap [(str "API-Key", VBytes [x01]); (str "n", VDouble 0)])]) 1
    (Some (be_bytes 16 5)) None [].

Lemma occ1_roundtrip_witness :
  exists out, encode_occurrence 4096 demo_record (be_bytes 16 1) (be_bytes 32 2) (be_bytes 16 3) [] = Ok out /\
    decode out =
      Some (Ok (mkDecoded 1 1 (be_bytes 16 1) (be_bytes 32 2) (be_bytes 16 3) (-3)
        (str "ERROR") (str "exception")
        (VMap [(str "msg", VInt64 (-5)); (str "db.password", VString REDACTED)])
        [(str "user", VMap [(str "API-Key", VString REDACTED); (str "n", VDouble 0)])])).
Proof.
  destruct (encode_occurrence 4096 demo_record (be_bytes 16 1) (be_bytes 32 2) (be_bytes 16 3) [])
    as [out|e] eqn:E; [|vm_compute in E; discriminate E].
  exists out. split; [reflexivity|].
  exact (occ1_roundtrip 4096 demo_record (be_bytes 16 1) (be_bytes 32 2) (be_bytes 16 3) out
    eq_refl eq_refl eq_refl ltac:(vm_compute; reflexivity) E).
Defined.

(** ** Redaction erases *)

Lemma try_fold_map {A} (f g : bytes -> A -> result Error bytes) (h : A -> A) l :
  Forall (fun x => forall out, f out x = g out (h x)) l ->
  forall out, try_fold f out l = try_fold g out (map h l).
Proof.
  induction 1 as [|x l Hx _ IH]; intros out; simpl; [done|]. rewrite Hx.
  destruct (g out (h x)); simpl; [apply IH|done].
Qed.

Lemma put_value_redact limit v : forall out, put_value limit out v = put_value limit out (redact v).
Proof.
  induction v as [|s|b|z|d|b|vs IH|kvs IH] using AnyValue_nested; try done; intros out;
    cbn [put_value redact]; cbv zeta; (destruct (put_u32 limit out 0) as [o|]; [|done]); cbn [result_bind];
    f_equal; (destruct (put_u8 limit o _) as [o2|]; [|done]); cbn [result_bind];
    rewrite zlen_map; (destruct (put_u32 limit o2 _) as [o3|]; [|done]);
    cbn [result_bind]; apply try_fold_map; [exact IH|].
  eapply Forall_impl; [exact IH|]. intros [k v] Hv o4. cbn [fst snd] in *.
  destruct (put_str limit o4 k); cbn [result_bind]; [|done]. by destruct (is_sensitive_key k).
Qed.

(** What of a record the canonical bytes may depend on: not its raw encoding,
    its grammar version, its receipt time, or a value under a sensitive key. *)
Definition canonical_content (r : CanonicalLogRecord) : CanonicalLogRecord :=
  mkLog 0 (resource_schema_url r) (resource_dropped_attributes_count r)
    (redact (resource_attributes r)) (scope_name r) (scope_version r)
    (scope_dropped_attributes_count r) (redact <$> scope_attributes r) (scope_schema_url r)
    (time_unix_nano r) (observed_time_unix_nano r) None (severity_number r) (severity_text r)
    (event_name r) (redact (body r)) (dropped_attributes_count r) (redact (attributes r))
    (trace_flags r) (trace_id r) (span_id r) [].

Lemma put_option_value_redact limit out v :
  put_option_value limit out v = put_option_value limit out (redact <$> v).
Proof. destruct v; [|done]. apply bind_cong; [done|]. intros o. apply put_value_redact. Qed.

Lemma encode_redact limit r deployment app event out :
  encode_occurrence limit r deployment app event out =
  encode_occurrence limit (canonical_content r) deployment app event out.
Proof.
  unfold encode_occurrence. repeat (apply bind_cong;
    [reflexivity || apply put_value_redact || apply put_option_value_redact|intros ?]); reflexivity.
Qed.

(** C21. Redaction erases: the canonical bytes of an occurrence depend on the
    record only through its redacted content.  Two records that differ in
    nothing but what sits under sensitive keys, at any depth of the resource,
    scope, body or log attributes, and in provenance (raw bytes, grammar
    version, receipt time), encode to the same bytes or fail alike. *)
Theorem occ1_secrets_erased (limit : Z) (r r' : CanonicalLogRecord) (deployment app event out : bytes) :
  canonical_content r = canonical_content r' ->
  encode_occurrence limit r deployment app event out =
  encode_occurrence limit r' deployment app event out.
Proof. intros Heq. by rewrite encode_redact, Heq, <- encode_redact. Qed.

Definition demo_record' : CanonicalLogRecord :=
  mkLog 2 (str "u") 0 (VMap [(str "service.name", VString (str "api"))]) (Some (str "lib")) None (Some 2)
    (Some (VArray [VNull; VBool true])) [] 7 8 (Some 9) (-3) (str "ERROR") (str "exception")
    (VMap [(str "msg", VInt64 (-5)); (str "db.password", VArray [VInt64 4])]) 0
    (VMap [(str "user", VMap [(str "API-Key", VNull); (str "n", VDouble 0)])]) 1
    (Some (be_bytes 16 5)) None [x01; x02].

Lemma occ1_secrets_erased_witness :
  demo_record <> demo_record' /\
  encode_occurrence 4096 demo_record (be_bytes 16 1) (be_bytes 32 2) (be_bytes 16 3) [] =
  encode_occurrence 4096 demo_record' (be_bytes 16 1) (be_bytes 32 2) (be_bytes 16 3) [].
Proof.
  split; [intros Heq; discriminate (f_equal body Heq)|].
  exact (occ1_secrets_erased 4096 demo_record demo_record' _ _ _ [] ltac:(vm_compute; reflexivity)).
Defined.
