(* ===== verification/Occurrence.v ===== *)
(** * Error occurrences: extraction and folding

    [crates/errors/src/lib.rs]: from an authoritative log record to an
    [Occurrence] with its identity, and the comparison of two occurrences.
    Unicode normalisation ([unicode-normalization], as the UTF-8 bytes of the
    NFC form) and SHA-256 are parameters.  A panic is [None]. *)

From S2P Require Import Prelude Bytes Text Redaction Occ1.

Record Limits := mkLimits { max_identity_bytes : Z; max_canonical_bytes : Z }.

Definition Limits_default : Limits := mkLimits (16 * 1024) (1024 * 1024).

(** ** Identifiers *)

(** One byte of the text of a UUID. *)
Definition hex_value (byte : u8) : option Z :=
  let b := b2z byte in
  if (48 <=? b) && (b <=? 57) then Some (b - 48)
  else if (97 <=? b) && (b <=? 102) then Some (b - 97 + 10)
  else None.

Definition is_hyphen (position : nat) : bool :=
  match position with 8%nat | 13%nat | 18%nat | 23%nat => true | _ => false end.

(** The loop over [bytes.iter().copied().enumerate()]. *)
Fixpoint uuid_loop (field : string) (position : nat) (l : bytes) (nibble : option Z) (index : nat)
    (out : bytes) : result Error bytes :=
  match l with
  | [] => Ok out
  | byte :: l =>
      if is_hyphen position then uuid_loop field (S position) l nibble index out
      else
        match hex_value byte with
        | None => Err (InvalidUuid field)
        | Some value =>
            match nibble with
            | Some high =>
                uuid_loop field (S position) l None (S index)
                  (<[index := z2b (Z.lor (Z.shiftl high 4) value)]> out)
            | None => uuid_loop field (S position) l (Some value) index out
            end
        end
  end.

Definition hyphen_at (l : bytes) (i : nat) : bool := bool_decide (l !! i = Some x2d).

Definition parse_uuid (value : bytes) (field : string) : result Error bytes :=
  if negb (zlen value =? 36) || negb (hyphen_at value 8) || negb (hyphen_at value 13)
     || negb (hyphen_at value 18) || negb (hyphen_at value 23)
  then Err (InvalidUuid field)
  else
    let? out := uuid_loop field 0 value None 0 (replicate 16 x00) in
    if bool_decide (out = replicate 16 x00) then Err (InvalidUuid field) else Ok out.

(** ** [str::trim] *)

(** The characters of the Unicode property [White_Space], in UTF-8. *)
Definition white_space : list bytes :=
  [[x09]; [x0a]; [x0b]; [x0c]; [x0d]; [x20]; [xc2; x85]; [xc2; xa0]; [xe1; x9a; x80];
   [xe2; x80; x80]; [xe2; x80; x81]; [xe2; x80; x82]; [xe2; x80; x83]; [xe2; x80; x84];
   [xe2; x80; x85]; [xe2; x80; x86]; [xe2; x80; x87]; [xe2; x80; x88]; [xe2; x80; x89];
   [xe2; x80; x8a]; [xe2; x80; xa8]; [xe2; x80; xa9]; [xe2; x80; xaf]; [xe2; x81; x9f];
   [xe3; x80; x80]].

Fixpoint strip_any (ps : list bytes) (l : bytes) : option bytes :=
  match ps with
  | [] => None
  | p :: ps => match strip_prefix p l with Some l' => Some l' | None => strip_any ps l end
  end.

Fixpoint trim_start (fuel : nat) (ps : list bytes) (l : bytes) : bytes :=
  match fuel with
  | O => l
  | S fuel => match strip_any ps l with Some l' => trim_start fuel ps l' | None => l end
  end.

Definition trim (l : bytes) : bytes :=
  let l := trim_start (length l) white_space l in
  rev (trim_start (length l) (map (@rev _) white_space) (rev l)).

(** ** Exception events and their attributes *)

(** [str::split] on one byte: never empty. *)
Fixpoint split_byte (c : u8) (l : bytes) : list bytes :=
  match l with
  | [] => [[]]
  | b :: l =>
      if bool_decide (b = c) then [] :: split_byte c l
      else match split_byte c l with
           | seg :: segs => (b :: seg) :: segs
           | [] => [[b]]
           end
  end.

Definition valid_event_segment (segment : bytes) : bool :=
  negb (bool_decide (segment = []))
  && forallb (fun byte => is_ascii_alphanumeric byte || bool_decide (byte = x5f)
                          || bool_decide (byte = x2d)) segment.

Definition is_exception_event_name (name : bytes) : bool :=
  if bool_decide (name = str "exception") then true
  else
    match strip_suffix (str ".exception") name with
    | None => false
    | Some prefix =>
        negb (bool_decide (prefix = [])) && forallb valid_event_segment (split_byte x2e prefix)
    end.

Definition Attributes := list (bytes * AnyValue).

Definition find_attribute (attributes : Attributes) (key : bytes) : option AnyValue :=
  head (map snd (List.filter (fun kv => bool_decide (fst kv = key)) attributes)).

Definition string_attribute (attributes : Attributes) (key : string) : result Error (option bytes) :=
  match find_attribute attributes (str key) with
  | None => Ok None
  | Some (VString value) => Ok (Some value)
  | Some _ => Err (AttributeType key)
  end.

Fixpoint has_standard_exception_content_loop (found : bool) (attributes : Attributes)
    : result Error bool :=
  match attributes with
  | [] => Ok found
  | (key, value) :: attributes =>
      if bool_decide (key = str "exception.type") || bool_decide (key = str "exception.message")
         || bool_decide (key = str "exception.stacktrace")
      then
        match value with
        | VString value =>
            has_standard_exception_content_loop
              (if bool_decide (value = []) then found else true) attributes
        | _ =>
            Err (AttributeType
              (if bool_decide (key = str "exception.type") then "exception.type"
               else if bool_decide (key = str "exception.message") then "exception.message"
               else "exception.stacktrace"))
        end
      else has_standard_exception_content_loop found attributes
  end.

Definition has_standard_exception_content (attributes : Attributes) : result Error bool :=
  has_standard_exception_content_loop false attributes.

(** ** Identity and extraction *)

Record AppIdentity := mkApp { digest : bytes; app_id : bytes }.

Record Occurrence := mkOccurrence {
  o_deployment_id : bytes;
  app : AppIdentity;
  o_event_id : bytes;
  o_trace_id : option bytes;
  o_span_id : option bytes;
  o_trace_flags : Z;
  canonical_sha256 : bytes;
  canonical : bytes;
}.

Definition APP_DOMAIN : bytes := str "scry.app.identity.v1" ++ [x00].

Section Extraction.
  Context (nfc sha256 : bytes -> bytes).

Definition normalized_utf8_len (value : bytes) : result Error Z :=
  match checked u64_max (zlen (nfc value)) with
  | Some length => Ok length
  | None => Err LengthOverflow
  end.

(** The bytes that [hash_normalized] feeds to the hasher. *)
Definition hash_normalized (hashed value : bytes) (length : Z) : result Error bytes :=
  if u32_max <? length then Err LengthOverflow
  else Ok (hashed ++ be_bytes 4 length ++ nfc value).

Definition derive_app_identity (service_namespace service_name : bytes) (limits : Limits)
    : result Error AppIdentity :=
  let namespace := trim service_namespace in
  let name := trim service_name in
  let? namespace_len := normalized_utf8_len namespace in
  let? name_len := normalized_utf8_len name in
  if name_len =? 0 then Err (EmptyAttribute "service.name")
  else if (max_identity_bytes limits <? namespace_len) || (max_identity_bytes limits <? name_len)
  then Err IdentityLimit
  else
    let? hash := hash_normalized APP_DOMAIN namespace namespace_len in
    let? hash := hash_normalized hash name name_len in
    let digest := sha256 hash in
    Ok (mkApp digest (take 16 digest)).

Definition required (field : string) (value : option bytes) : result Error bytes :=
  match value with Some v => Ok v | None => Err (MissingAttribute field) end.

(** [expect("... are a map")]. *)
Definition map_iter (v : AnyValue) : option Attributes :=
  match v with VMap kvs => Some kvs | _ => None end.

(** The result and the scratch buffer that is left. *)
Definition extract (record : CanonicalLogRecord) (deployment : bytes) (limits : Limits)
    (scratch : bytes) : option (result Error Occurrence * bytes) :=
  if negb (is_exception_event_name (event_name record)) then Some (Err NotExceptionEvent, scratch)
  else
    attributes ← map_iter (attributes record);
    resource ← map_iter (resource_attributes record);
    let identity :=
      let? event := string_attribute attributes "scry.event.id" in
      let? event_text := required "scry.event.id" event in
      let? event_id := parse_uuid event_text "scry.event.id" in
      let? name := string_attribute resource "service.name" in
      let? name := required "service.name" name in
      let? namespace := string_attribute resource "service.namespace" in
      let? app := derive_app_identity (default [] namespace) name limits in
      let? found := has_standard_exception_content attributes in
      if found : bool then Ok (event_id, app) else Err MissingExceptionContent in
    match identity with
    | Err e => Some (Err e, scratch)
    | Ok (event_id, app) =>
        match encode_occurrence (max_canonical_bytes limits) record deployment (digest app)
                event_id [] with
        | Err e => Some (Err e, [])
        | Ok canonical =>
            Some (Ok (mkOccurrence deployment app event_id (trace_id record) (span_id record)
                        (trace_flags record) (sha256 canonical) canonical), [])
        end
    end.
End Extraction.

Inductive FoldOutcome := Insert | Duplicate | Collision.

Definition fold (existing : option Occurrence) (candidate : Occurrence) : FoldOutcome :=
  match existing with
  | None => Insert
  | Some existing =>
      if negb (bool_decide (o_deployment_id existing = o_deployment_id candidate))
         || negb (bool_decide (digest (app existing) = digest (app candidate)))
         || negb (bool_decide (o_event_id existing = o_event_id candidate))
      then Insert
      else if bool_decide (canonical_sha256 existing = canonical_sha256 candidate)
              && bool_decide (canonical existing = canonical candidate)
      then Duplicate else Collision
  end.

(** ** UUIDs *)

Definition hex_digit (n : Z) : u8 := if n <? 10 then z2b (48 + n) else z2b (87 + n).

Definition hex_byte (b : u8) : bytes := [hex_digit (b2z b / 16); hex_digit (b2z b mod 16)].

Definition hex_bytes (l : bytes) : bytes := concat (map hex_byte l).

(** The lowercase hyphenated text of sixteen bytes. *)
Definition hyphenated (l : bytes) : bytes :=
  hex_bytes (take 4 l) ++ [x2d] ++ hex_bytes (take 2 (drop 4 l)) ++ [x2d]
  ++ hex_bytes (take 2 (drop 6 l)) ++ [x2d] ++ hex_bytes (take 2 (drop 8 l)) ++ [x2d]
  ++ hex_bytes (drop 10 l).

Lemma hex_value_digit n : 0 <= n < 16 -> hex_value (hex_digit n) = Some n.
Proof.
  intros Hn. unfold hex_value, hex_digit.
  destruct (Z.ltb_spec n 10); rewrite b2z_z2b, Z.mod_small by lia;
    split_tests; cbn [andb]; try lia; f_equal; lia.
Qed.

Lemma hex_value_Some b n : hex_value b = Some n -> 0 <= n < 16 /\ b = hex_digit n.
Proof.
  unfold hex_value, hex_digit. intros H.
  assert (0 <= n < 16 /\ b2z b = if n <? 10 then 48 + n else 87 + n) as [Hn Hb]
    by (revert H; split_tests; cbn [andb]; intros [=]; lia).
  split; [done|]. rewrite <- (z2b_b2z b), Hb. by destruct (n <? 10).
Qed.

Lemma byte_nibbles b : z2b (Z.lor (Z.shiftl (b2z b / 16) 4) (b2z b mod 16)) = b.
Proof. by destruct b. Qed.

Lemma nibbles_byte hi lo : 0 <= hi < 16 -> 0 <= lo < 16 ->
  hex_byte (z2b (Z.lor (Z.shiftl hi 4) lo)) = [hex_digit hi; hex_digit lo].
Proof.
  intros Hh Hl. unfold hex_byte. rewrite b2z_z2b.
  assert (forallb (fun h => forallb (fun l => Z.lor (Z.shiftl h 4) l =? h * 16 + l) (seqZ 0 16))
            (seqZ 0 16) = true) as Hall by (vm_compute; reflexivity).
  rewrite List.forallb_forall in Hall. specialize (Hall hi).
  rewrite <- list_elem_of_In, elem_of_seqZ, List.forallb_forall in Hall. specialize (Hall Hh lo).
  rewrite <- list_elem_of_In, elem_of_seqZ in Hall. apply Z.eqb_eq in Hall as ->; [|done].
  rewrite Z.mod_small by lia. do 3 f_equal; [|f_equal].
  - rewrite Z.add_comm, Z.div_add, Z.div_small by lia. done.
  - rewrite Z.add_comm, Z.mod_add, Z.mod_small by lia. done.
Qed.

Lemma hyphen_at_iff l i : hyphen_at l i = true <-> l !! i = Some x2d.
Proof. apply bool_decide_eq_true. Qed.

Lemma hex_value_high b : hex_value (hex_digit (b2z b / 16)) = Some (b2z b / 16).
Proof.
  pose proof (b2z_range b). apply hex_value_digit. split; [apply Z.div_pos; lia|].
  apply Z.div_lt_upper_bound; lia.
Qed.

Lemma hex_value_low b : hex_value (hex_digit (b2z b mod 16)) = Some (b2z b mod 16).
Proof. apply hex_value_digit, Z.mod_pos_bound. lia. Qed.

(** The loop on the text of sixteen bytes. *)
Lemma uuid_loop_hyphenated field l :
  length l = 16%nat -> uuid_loop field 0 (hyphenated l) None 0 (replicate 16 x00) = Ok l.
Proof.
  intros Hl. do 16 (destruct l as [|? l]; [done|]). destruct l; [|done].
  cbn -[hex_value hex_digit Z.lor Z.shiftl Z.div Z.modulo b2z z2b].
  rewrite !hex_value_high, !hex_value_low. by rewrite !byte_nibbles.
Qed.

Ltac nibbles :=
  repeat match goal with
  | |- context [match hex_value ?b with _ => _ end] =>
      let n := fresh "n" in let Hn := fresh "Hn" in
      destruct (hex_value b) as [n|] eqn:Hn; [apply hex_value_Some in Hn as [Hn ->]|intros [=]]
  end.

Lemma uuid_loop_Ok field value out :
  length value = 36%nat -> value !! 8%nat = Some x2d -> value !! 13%nat = Some x2d ->
  value !! 18%nat = Some x2d -> value !! 23%nat = Some x2d ->
  uuid_loop field 0 value None 0 (replicate 16 x00) = Ok out ->
  value = hyphenated out /\ length out = 16%nat.
Proof.
  intros Hl H8 H13 H18 H23. do 36 (destruct value as [|? value]; [done|]). destruct value; [|done].
  cbn in H8, H13, H18, H23. injection H8 as ->. injection H13 as ->. injection H18 as ->.
  injection H23 as ->. cbn -[hex_value hex_digit Z.lor Z.shiftl z2b]. nibbles.
  intros [= <-]. split; [|done]. cbn -[hex_byte hex_digit Z.lor Z.shiftl z2b].
  by rewrite !nibbles_byte by done.
Qed.

Lemma uuid_loop_Err field position l nibble index out e :
  uuid_loop field position l nibble index out = Err e -> e = InvalidUuid field.
Proof.
  revert position nibble index out. induction l as [|b l IH]; intros position nibble index out;
    cbn [uuid_loop]; [done|]. repeat case_match; eauto. by intros [= <-].
Qed.

Lemma uuid_exact (value : bytes) (field : string) :
  (forall out, parse_uuid value field = Ok out <->
     value = hyphenated out /\ length out = 16%nat /\ out <> replicate 16 x00) /\
  (forall e, parse_uuid value field = Err e -> e = InvalidUuid field).
Proof.
  assert (forall out, length out = 16%nat ->
    zlen (hyphenated out) = 36 /\ hyphen_at (hyphenated out) 8 = true /\
    hyphen_at (hyphenated out) 13 = true /\ hyphen_at (hyphenated out) 18 = true /\
    hyphen_at (hyphenated out) 23 = true) as Hform.
  { intros l Hl. do 16 (destruct l as [|? l]; [done|]). destruct l; [|done].
    rewrite !hyphen_at_iff. done. }
  unfold parse_uuid. split.
  - intros out. split.
    + destruct (Z.eqb_spec (zlen value) 36) as [Hl|]; [|done].
      destruct (hyphen_at value 8) eqn:H8; [apply hyphen_at_iff in H8|done].
      destruct (hyphen_at value 13) eqn:H13; [apply hyphen_at_iff in H13|done].
      destruct (hyphen_at value 18) eqn:H18; [apply hyphen_at_iff in H18|done].
      destruct (hyphen_at value 23) eqn:H23; [apply hyphen_at_iff in H23|done]. cbn [negb orb].
      intros (o & Ho & Hz)%bind_ok. apply uuid_loop_Ok in Ho; [|unfold zlen in Hl; lia|done..].
      case_bool_decide; [done|]. injection Hz as <-. tauto.
    + intros (-> & Hl & Hz). destruct (Hform out Hl) as (-> & -> & -> & -> & ->). cbn [Z.eqb Pos.eqb negb orb].
      rewrite uuid_loop_hyphenated by done. cbn [result_bind]. by rewrite bool_decide_false.
  - intros e. case_match; [by intros [= <-]|].
    destruct (uuid_loop field 0 value None 0 _) as [o|e'] eqn:Ho; cbn [result_bind].
    + case_bool_decide; by intros [= <-].
    + intros [= <-]. eapply uuid_loop_Err. exact Ho.
Qed.

(** The UUID parser accepts exactly the strict text form: it returns sixteen
    bytes if and only if the text is their lowercase hyphenated form and they
    are not all zero; anything else is refused with the name of the field. *)
Theorem uuid_parse_exact (value : bytes) (field : string) :
  (forall out, parse_uuid value field = Ok out <->
     value = hyphenated out /\ length out = 16%nat /\ out <> replicate 16 x00) /\
  (forall e, parse_uuid value field = Err e -> e = InvalidUuid field).
Proof. apply uuid_exact. Qed.

(** ** What an extracted occurrence is *)

Section ExtractionFacts.
  Context (nfc sha256 : bytes -> bytes).
  Context (sha256_len : forall x, zlen (sha256 x) = 32).

Lemma put_bound limit out x out' : put limit out x = Ok out' -> zlen out' <= limit.
Proof.
  unfold put. destruct (checked_add _ _) as [n|] eqn:E; [|done].
  apply checked_Some in E as [-> _]. destruct (Z.ltb_spec limit (zlen out + zlen x)); [done|].
  intros [= <-]. by rewrite zlen_app.
Qed.

Lemma put_option_fixed_bound limit out x out' :
  put_option_fixed limit out x = Ok out' -> zlen out' <= limit.
Proof.
  destruct x as [v|]; [|apply put_bound]. intros (o & _ & H)%bind_ok. by apply put_bound in H.
Qed.

Lemma encode_bound limit r d a e out out' :
  encode_occurrence limit r d a e out = Ok out' -> zlen out' <= limit.
Proof.
  unfold encode_occurrence. intros H.
  repeat (apply bind_ok in H as (? & _ & H)). by apply put_option_fixed_bound in H.
Qed.

Lemma derive_app_identity_Ok ns n limits a :
  derive_app_identity nfc sha256 ns n limits = Ok a ->
  zlen (digest a) = 32 /\
  digest a = sha256 (APP_DOMAIN ++ prefixed (nfc (trim ns)) ++ prefixed (nfc (trim n))) /\
  0 < zlen (nfc (trim n)) /\
  zlen (nfc (trim ns)) <= u32_max /\ zlen (nfc (trim n)) <= u32_max.
Proof.
  unfold derive_app_identity, normalized_utf8_len, hash_normalized.
  intros (l1 & H1 & (l2 & H2 & H)%bind_ok)%bind_ok.
  destruct (checked u64_max (zlen (nfc (trim ns)))) as [m1|] eqn:E1; [|done].
  destruct (checked u64_max (zlen (nfc (trim n)))) as [m2|] eqn:E2; [|done].
  apply checked_Some in E1 as [-> Hm1], E2 as [-> Hm2]. injection H1 as <-. injection H2 as <-.
  destruct (Z.eqb_spec (zlen (nfc (trim n))) 0); [done|]. case_match; [done|].
  apply bind_ok in H as (h1 & Hh1 & (h2 & Hh2 & H)%bind_ok).
  destruct (Z.ltb_spec u32_max (zlen (nfc (trim ns)))); [done|]. injection Hh1 as <-.
  destruct (Z.ltb_spec u32_max (zlen (nfc (trim n)))); [done|]. injection Hh2 as <-.
  injection H as <-. cbn [digest]. rewrite sha256_len. unfold prefixed. rewrite <- !app_assoc.
  split_and!; done || lia.
Qed.

Lemma extract_Ok record deployment limits scratch occ scratch' :
  extract nfc sha256 record deployment limits scratch = Some (Ok occ, scratch') ->
  is_exception_event_name (event_name record) = true /\ o_deployment_id occ = deployment /\
  zlen (digest (app occ)) = 32 /\ zlen (o_event_id occ) = 16 /\
  canonical_sha256 occ = sha256 (canonical occ) /\
  encode_occurrence (max_canonical_bytes limits) record deployment (digest (app occ))
    (o_event_id occ) [] = Ok (canonical occ).
Proof.
  unfold extract. destruct (is_exception_event_name _); [|done]. cbn [negb].
  destruct (map_iter (attributes record)) as [attrs|]; [|done].
  destruct (map_iter (resource_attributes record)) as [res|]; [|done]. cbn [mbind option_bind].
  match goal with |- context [match ?i with Ok _ => _ | Err _ => _ end] => destruct i as [[ev a]|] eqn:Hi end;
    [|done].
  apply bind_ok in Hi as (x1 & _ & (x2 & _ & (u & Hu & (x3 & _ & (x4 & _ & (x5 & _ &
    (a' & Ha & (f & _ & Hf)%bind_ok)%bind_ok)%bind_ok)%bind_ok)%bind_ok)%bind_ok)%bind_ok).
  destruct f; [|done]. injection Hf as <- <-.
  apply (proj1 (uuid_exact _ _)) in Hu as (_ & Hlen & _).
  apply derive_app_identity_Ok in Ha as [Hd _].
  destruct (encode_occurrence _ _ _ _ _ _) as [c|] eqn:Ec; [|done].
  intros [= <- _]. cbn. unfold zlen at 2. rewrite Hlen. done.
Qed.

(** An occurrence as the extractor produces it from a record. *)
Definition extracted (record : CanonicalLogRecord) (limits : Limits) (occ : Occurrence) : Prop :=
  wf_record record = true /\ zlen (o_deployment_id occ) = 16 /\
  exists scratch scratch',
    extract nfc sha256 record (o_deployment_id occ) limits scratch = Some (Ok occ, scratch').

Lemma extracted_decode record limits occ :
  extracted record limits occ ->
  decode (canonical occ) =
    Some (Ok (mkDecoded CANONICAL_VERSION SCRUB_POLICY_VERSION (o_deployment_id occ)
                (digest (app occ)) (o_event_id occ) (severity_number record) (severity_text record)
                (event_name record) (redact (body record)) (pairs_of (redact (attributes record))))).
Proof.
  intros (Hwf & Hd & s & s' & (_ & _ & Ha & He & _ & Henc)%extract_Ok).
  by apply (occ1_decodes (max_canonical_bytes limits)).
Qed.

(** C22. An extracted occurrence stands for its record: the record was an
    exception event, the canonical bytes stay within the configured limit, their
    digest is recorded, and decoding them gives back the deployment, application
    and event identity of the occurrence with the redacted content. *)
Theorem extract_decodes (record : CanonicalLogRecord) (deployment scratch scratch' : bytes)
    (limits : Limits) (occ : Occurrence) :
  zlen deployment = 16 -> wf_record record = true ->
  extract nfc sha256 record deployment limits scratch = Some (Ok occ, scratch') ->
  is_exception_event_name (event_name record) = true /\
  zlen (canonical occ) <= max_canonical_bytes limits /\
  canonical_sha256 occ = sha256 (canonical occ) /\ o_deployment_id occ = deployment /\
  exists d, decode (canonical occ) = Some (Ok d) /\
    deployment_id d = o_deployment_id occ /\ app_identity_digest d = digest (app occ) /\
    event_id d = o_event_id occ /\ d_event_name d = event_name record /\
    d_body d = redact (body record) /\ d_attributes d = pairs_of (redact (attributes record)).
Proof.
  intros Hd Hwf Hex. pose proof (extract_Ok _ _ _ _ _ _ Hex) as (Hn & <- & _ & _ & Hs & Henc).
  split_and!; [done|by eapply encode_bound|done|done|]. eexists. split.
  - apply (extracted_decode record limits). split_and!; eauto.
  - done.
Qed.

(** C23. Folding decides by content: two extracted occurrences are duplicates
    exactly when their canonical bytes are equal (which already makes the
    identities equal), they collide exactly when one identity carries two
    contents, and otherwise the second is inserted. *)
Theorem fold_decides (r r' : CanonicalLogRecord) (limits limits' : Limits) (a b : Occurrence) :
  extracted r limits a -> extracted r' limits' b ->
  let same_identity := o_deployment_id a = o_deployment_id b /\
    digest (app a) = digest (app b) /\ o_event_id a = o_event_id b in
  (fold (Some a) b = Duplicate <-> canonical a = canonical b) /\
  (fold (Some a) b = Collision <-> same_identity /\ canonical a <> canonical b) /\
  (fold (Some a) b = Insert <-> ~ same_identity).
Proof.
  intros Ha Hb. pose proof (extracted_decode _ _ _ Ha) as Da. pose proof (extracted_decode _ _ _ Hb) as Db.
  destruct Ha as (_ & _ & sa & sa' & (_ & _ & _ & _ & Hsa & _)%extract_Ok).
  destruct Hb as (_ & _ & sb & sb' & (_ & _ & _ & _ & Hsb & _)%extract_Ok).
  assert (canonical a = canonical b -> o_deployment_id a = o_deployment_id b /\
    digest (app a) = digest (app b) /\ o_event_id a = o_event_id b) as Hid.
  { intros Heq. rewrite Heq, Db in Da. by injection Da. }
  cbv zeta. unfold fold. rewrite Hsa, Hsb.
  destruct (decide (o_deployment_id a = o_deployment_id b)) as [H1|H1];
    [rewrite bool_decide_true by done|rewrite bool_decide_false by done; naive_solver].
  destruct (decide (digest (app a) = digest (app b))) as [H2|H2];
    [rewrite bool_decide_true by done|rewrite bool_decide_false by done; naive_solver].
  destruct (decide (o_event_id a = o_event_id b)) as [H3|H3];
    [rewrite bool_decide_true by done|rewrite bool_decide_false by done; naive_solver].
  cbn [negb orb]. destruct (decide (canonical a = canonical b)) as [Heq|Hne].
  - rewrite !bool_decide_true by congruence. naive_solver.
  - rewrite (bool_decide_false (canonical a = canonical b)) by done. rewrite andb_false_r. naive_solver.
Qed.

Lemma prefixed_inj x y l l' :
  zlen x <= u32_max -> zlen y <= u32_max -> prefixed x ++ l = prefixed y ++ l' -> x = y /\ l = l'.
Proof.
  intros Hx Hy. unfold prefixed. rewrite <- !app_assoc. intros Heq.
  pose proof (zlen_nonneg x). pose proof (zlen_nonneg y). unfold u32_max in *.
  apply app_inj_1 in Heq as [Hlen Heq]; [|by rewrite !length_be_bytes].
  apply (f_equal from_be) in Hlen.
  rewrite !from_be_be_bytes_id in Hlen by (change (256 ^ Z.of_nat 4) with (2 ^ 32); lia).
  apply app_inj_1 in Heq; [done|]. unfold zlen in Hlen. lia.
Qed.

(** What is hashed into an application identity. *)
Definition app_preimage (ns n : bytes) : bytes :=
  APP_DOMAIN ++ prefixed (nfc (trim ns)) ++ prefixed (nfc (trim n)).

(** An application is its normalised namespace and name: when SHA-256 does
    not collide on the two preimages, two derivations have the same digest if
    and only if namespace and name agree after trimming and normalisation; the
    domain tag and the length prefixes leave no other way to collide. *)
Theorem app_identity_injective (ns n ns' n' : bytes) (limits limits' : Limits) (a a' : AppIdentity) :
  (sha256 (app_preimage ns n) = sha256 (app_preimage ns' n') -> app_preimage ns n = app_preimage ns' n') ->
  derive_app_identity nfc sha256 ns n limits = Ok a ->
  derive_app_identity nfc sha256 ns' n' limits' = Ok a' ->
  digest a = digest a' <-> nfc (trim ns) = nfc (trim ns') /\ nfc (trim n) = nfc (trim n').
Proof.
  intros Hcol (_ & -> & _ & H1 & H2)%derive_app_identity_Ok (_ & -> & _ & H3 & H4)%derive_app_identity_Ok.
  split; [|by intros [-> ->]]. intros Heq%Hcol. unfold app_preimage in Heq. apply app_inv_head in Heq.
  apply prefixed_inj in Heq as [Hns Heq]; [|done..]. split; [done|].
  apply (prefixed_inj _ _ [] []); [done..|]. by rewrite !app_nil_r.
Qed.
End ExtractionFacts.

(** ** Witnesses *)

(** Stand-ins for the libraries: text that is already normalised, and a digest
    of the right size. *)
Definition demo_nfc (l : bytes) : bytes := l.
Definition demo_sha (l : bytes) : bytes := take 32 (rev l ++ replicate 32 x00).

Lemma demo_sha_len x : zlen (demo_sha x) = 32.
Proof.
  unfold demo_sha, zlen. rewrite length_take, length_app, length_replicate. lia.
Qed.

Definition demo_event : CanonicalLogRecord :=
  mkLog 1 [] 0 (VMap [(str "service.name", VString (str " api "))]) None None None None [] 7 8 None 17
    (str "ERROR") (str "db.exception") (VString (str "failed")) 0
    (VMap [(str "exception.type", VString (str "DatabaseError"));
           (str "password", VString (str "hunter2"));
           (str "scry.event.id", VString (str "018f1f8e-7b2c-7a91-8123-0123456789ab"))]) 1
    (Some (be_bytes 16 5)) (Some (be_bytes 8 6)) [].

Definition demo_deployment : bytes := be_bytes 16 77.

Definition demo_occurrence : Occurrence :=
  match extract demo_nfc demo_sha demo_event demo_deployment Limits_default [] with
  | Some (Ok occ, _) => occ
  | _ => mkOccurrence [] (mkApp [] []) [] None None 0 [] []
  end.

Lemma demo_extract :
  extract demo_nfc demo_sha demo_event demo_deployment Limits_default [] = Some (Ok demo_occurrence, []).
Proof. vm_compute. reflexivity. Qed.

Lemma demo_extracted : extracted demo_nfc demo_sha demo_event Limits_default demo_occurrence.
Proof.
  split_and!; [vm_compute; reflexivity..|]. exists [], []. vm_compute. reflexivity.
Qed.

Lemma extract_decodes_witness :
  o_event_id demo_occurrence = be_bytes 16 0x018f1f8e7b2c7a9181230123456789ab /\
  exists d, decode (canonical demo_occurrence) = Some (Ok d) /\
    Occ1.string_attribute d (str "password") = Some REDACTED.
Proof.
  split; [vm_compute; reflexivity|].
  destruct (extract_decodes demo_nfc demo_sha demo_sha_len demo_event demo_deployment [] [] Limits_default
    demo_occurrence eq_refl ltac:(vm_compute; reflexivity) demo_extract)
    as (_ & _ & _ & _ & d & Hd & _ & _ & _ & _ & _ & Hattr).
  exists d. split; [exact Hd|]. unfold Occ1.string_attribute, attribute. rewrite Hattr.
  vm_compute. reflexivity.
Defined.

Lemma fold_decides_witness : fold (Some demo_occurrence) demo_occurrence = Duplicate.
Proof.
  apply (fold_decides demo_nfc demo_sha demo_sha_len demo_event demo_event Limits_default Limits_default
    demo_occurrence demo_occurrence demo_extracted demo_extracted). reflexivity.
Defined.

Lemma app_identity_injective_witness :
  exists a a',
    derive_app_identity demo_nfc demo_sha (str "prod") (str " api") Limits_default = Ok a /\
    derive_app_identity demo_nfc demo_sha (str "prod ") (str "api") Limits_default = Ok a' /\
    digest a = digest a'.
Proof.
  destruct (derive_app_identity demo_nfc demo_sha (str "prod") (str " api") Limits_default) as [a|e] eqn:Ea;
    [|vm_compute in Ea; discriminate Ea].
  destruct (derive_app_identity demo_nfc demo_sha (str "prod ") (str "api") Limits_default) as [a'|e] eqn:Eb;
    [|vm_compute in Eb; discriminate Eb].
  exists a, a'. split; [reflexivity|]. split; [reflexivity|].
  apply (app_identity_injective demo_nfc demo_sha demo_sha_len (str "prod") (str " api") (str "prod ") (str "api")
    Limits_default Limits_default a a' ltac:(intros _; vm_compute; reflexivity) Ea Eb).
  split; vm_compute; reflexivity.
Defined.
