(* ===== verification/Grouping.v ===== *)
(** * Grouping of occurrences into issues

    [crates/errors/src/fingerprint.rs], [issue.rs] and [quarantine.rs]: from
    the canonical bytes of an occurrence to the digest of its group, the title
    of the issue and its identity.  SHA-256 and the search of the compiled
    regular expression ([Regex::find_iter], as start and end offsets) are
    parameters.  A panic of a slice is [None]. *)

From S2P Require Import Prelude Bytes Text Redaction Occ1 Occurrence.

Definition FINGERPRINT_DOMAIN_TAG : bytes := str "scry.fingerprint.v1" ++ [x00].
Definition FINGERPRINT_VERSION : Z := 2.
Definition MAX_TITLE_BYTES : Z := 512.

Inductive GroupingQuality := TypeAndMessage | TypeOnly | Fallback | MessageOnly.

(** [quality as u8]. *)
Definition quality_code (q : GroupingQuality) : Z :=
  match q with TypeAndMessage => 0 | TypeOnly => 1 | Fallback => 2 | MessageOnly => 3 end.

Definition from_u8 (v : Z) : option GroupingQuality :=
  if v =? 0 then Some TypeAndMessage
  else if v =? 1 then Some TypeOnly
  else if v =? 2 then Some Fallback
  else if v =? 3 then Some MessageOnly
  else None.

Inductive ComponentKind := ExceptionType | ExceptionMessage | Body | Severity.

Record FingerprintComponent := mkComponent {
  kind : ComponentKind;
  c_value : bytes;
  included : bool;
  reason : string;
}.

Record FingerprintResult := mkFingerprint {
  f_digest : bytes;
  version : Z;
  quality : GroupingQuality;
  title : bytes;
}.

Inductive Selection :=
| SelTypeAndMessage (ty message : bytes)
| SelTypeOnly (ty : bytes)
| SelMessageOnly (message : bytes)
| SelFallbackBody (body : bytes)
| SelFallbackSeverity (severity_text : bytes).

Definition is_empty (l : bytes) : bool := match l with [] => true | _ => false end.

Definition select (decoded : DecodedOcc1) : Selection :=
  let ty := default [] (Occ1.string_attribute decoded (str "exception.type")) in
  let message := default [] (Occ1.string_attribute decoded (str "exception.message")) in
  match is_empty ty, is_empty message with
  | false, false => SelTypeAndMessage ty message
  | false, true => SelTypeOnly ty
  | true, false => SelMessageOnly message
  | true, true =>
      match d_body decoded with
      | VString body =>
          if negb (is_empty (trim body)) then SelFallbackBody body
          else SelFallbackSeverity (d_severity_text decoded)
      | _ => SelFallbackSeverity (d_severity_text decoded)
      end
  end.

(** ** Titles *)

(** [str::is_char_boundary]: the start, the end, or a byte that is not a
    continuation byte. *)
Definition is_char_boundary (value : bytes) (i : nat) : bool :=
  if (i =? 0)%nat then true
  else match value !! i with
       | None => (i =? length value)%nat
       | Some b => negb (between 0x80 0xBF b)
       end.

Definition ellipsis : bytes := [xe2; x80; xa6].

(** [while !value.is_char_boundary(cut) { cut -= 1 }]. *)
Fixpoint title_cut_loop (value : bytes) (cut : nat) : nat :=
  match cut with
  | O => O
  | S cut' => if is_char_boundary value cut then cut else title_cut_loop value cut'
  end.

Definition title_cut (value : bytes) : nat :=
  title_cut_loop value (Z.to_nat (MAX_TITLE_BYTES - zlen ellipsis)).

Definition bounded_title (value : bytes) : bytes :=
  if zlen value <=? MAX_TITLE_BYTES then value
  else take (title_cut value) value ++ ellipsis.

Definition bounded_owned (value : bytes) : bytes :=
  if MAX_TITLE_BYTES <? zlen value then take (title_cut value) value ++ ellipsis else value.

(** ** Normalisation *)

Fixpoint contains_sub (p l : bytes) : bool :=
  match strip_prefix p l with
  | Some _ => true
  | None => match l with [] => false | _ :: l => contains_sub p l end
  end.

Definition byte_at (l : bytes) (i : nat) (b : u8) : bool := bool_decide (l !! i = Some b).

Definition classify (token : bytes) : option bytes :=
  let dots := zlen (List.filter (fun b => bool_decide (b = x2e)) token) in
  if contains_sub (str "://") token then Some (str "{url}")
  else if (zlen token =? 36) && byte_at token 8 x2d && byte_at token 13 x2d && byte_at token 18 x2d
  then Some (str "{uuid}")
  else if (10 <=? zlen token) && byte_at token 4 x2d && byte_at token 7 x2d
  then Some (str "{timestamp}")
  else if (2 <? zlen token) && byte_at token 0 x30 && (byte_at token 1 x78 || byte_at token 1 x58)
  then Some (str "{hex}")
  else if 2 <=? dots then Some (str "{ip}")
  else if existsb (fun b => bool_decide (b = x3a)) token then Some (str "{time}")
  else if dots =? 1 then Some (str "{float}")
  else if forallb is_ascii_digit token then Some (str "{int}")
  else if existsb is_ascii_digit token then Some (str "{hex}")
  else None.

(** The loop over [text.chars()]; the bytes of a character that is no white
    space are pushed one by one, which no continuation byte can disturb.  The
    fuel is the length of the text. *)
Fixpoint push_collapsed_loop (fuel : nat) (out text : bytes) (prev_space : bool) : bytes * bool :=
  match fuel with
  | O => (out, prev_space)
  | S fuel =>
      match text with
      | [] => (out, prev_space)
      | b :: text' =>
          match strip_any white_space text with
          | Some rest =>
              if prev_space then push_collapsed_loop fuel out rest true
              else push_collapsed_loop fuel (out ++ [x20]) rest true
          | None => push_collapsed_loop fuel (out ++ [b]) text' false
          end
      end
  end.

Definition push_collapsed (out text : bytes) (prev_space : bool) : bytes * bool :=
  push_collapsed_loop (length text) out text prev_space.

(** [&message[a..b]]. *)
Definition slice (message : bytes) (a b : nat) : option bytes :=
  if (a <=? b)%nat && (b <=? length message)%nat
     && is_char_boundary message a && is_char_boundary message b
  then Some (take (b - a) (drop a message)) else None.

Definition trim_end (l : bytes) : bytes :=
  rev (trim_start (length l) (map (@rev _) white_space) (rev l)).

(** The loop over the matches. *)
Fixpoint normalize_loop (message : bytes) (ms : list (nat * nat)) (result : bytes)
    (prev_space : bool) (last : nat) : option (bytes * bool * nat) :=
  match ms with
  | [] => Some (result, prev_space, last)
  | (start, end_) :: ms =>
      before ← slice message last start;
      let '(result, prev_space) := push_collapsed result before prev_space in
      token ← slice message start end_;
      let '(result, prev_space) :=
        push_collapsed result (default token (classify token)) prev_space in
      normalize_loop message ms result prev_space end_
  end.

Section Grouping.
  Context (sha256 : bytes -> bytes) (find_iter : bytes -> list (nat * nat)).

Definition normalize_message (message : bytes) : option bytes :=
  '(result, prev_space, last) ← normalize_loop message (find_iter message) [] true 0;
  rest ← slice message last (length message);
  let '(result, _) := push_collapsed result rest prev_space in
  Some (trim_end result).

(** An optional component: presence tag, length ([as u32]) and bytes. *)
Definition tagged (x : option bytes) : bytes :=
  match x with
  | Some t => be_bytes 1 1 ++ be_bytes 4 (zlen t mod 2 ^ 32) ++ t
  | None => be_bytes 1 0
  end.

Definition compute_digest (app_identity_digest : bytes) (q : GroupingQuality)
    (exception_type normalized_message : option bytes) : bytes :=
  sha256 (FINGERPRINT_DOMAIN_TAG ++ app_identity_digest ++ be_bytes 2 FINGERPRINT_VERSION
          ++ be_bytes 1 (quality_code q) ++ tagged exception_type ++ tagged normalized_message).

Definition unknown_error (severity_text : bytes) : bytes :=
  str "unknown error (" ++ severity_text ++ str ")".

Definition fingerprint_from_decoded (decoded : DecodedOcc1) (app_identity_digest : bytes)
    : option FingerprintResult :=
  let digest := compute_digest app_identity_digest in
  let finish q ty msg title := mkFingerprint (digest q ty msg) FINGERPRINT_VERSION q title in
  match select decoded with
  | SelTypeAndMessage ty message =>
      normalized ← normalize_message message;
      Some (finish TypeAndMessage (Some ty) (Some normalized) (bounded_title ty))
  | SelTypeOnly ty => Some (finish TypeOnly (Some ty) None (bounded_title ty))
  | SelMessageOnly message =>
      normalized ← normalize_message message;
      Some (finish MessageOnly None (Some normalized) (bounded_owned normalized))
  | SelFallbackBody body =>
      normalized ← normalize_message body;
      Some (finish Fallback None (Some normalized) (bounded_owned normalized))
  | SelFallbackSeverity severity_text =>
      let label := unknown_error severity_text in
      Some (finish Fallback None (Some label) (bounded_owned label))
  end.

Definition fingerprint_canonical (canonical app_identity_digest : bytes)
    : option (result DecodeError FingerprintResult) :=
  decoded ← decode canonical;
  match decoded with
  | Err e => Some (Err e)
  | Ok decoded => Ok <$> fingerprint_from_decoded decoded app_identity_digest
  end.

Definition explain_fingerprint (decoded : DecodedOcc1) : option (list FingerprintComponent) :=
  match select decoded with
  | SelTypeAndMessage ty message =>
      normalized ← normalize_message message;
      Some [mkComponent ExceptionType ty true "primary grouping component";
            mkComponent ExceptionMessage normalized true "normalized message"]
  | SelTypeOnly ty =>
      Some [mkComponent ExceptionType ty true "primary grouping component";
            mkComponent ExceptionMessage [] false "empty message excluded"]
  | SelMessageOnly message =>
      normalized ← normalize_message message;
      Some [mkComponent ExceptionType [] false "no exception type";
            mkComponent ExceptionMessage normalized true "normalized message without exception type"]
  | SelFallbackBody body =>
      normalized ← normalize_message body;
      Some [mkComponent Body normalized true
              "fallback: no exception type or message, using normalized body"]
  | SelFallbackSeverity severity_text =>
      Some [mkComponent Severity severity_text true "fallback: no exception type, message, or body"]
  end.

(** ** Issues and collisions *)

Definition ISSUE_DOMAIN_TAG : bytes := str "scry.issue.identity.v1" ++ [x00].

Definition derive_issue_id (deployment app_identity_digest : bytes) (fingerprint_version : Z)
    (fingerprint_digest : bytes) : bytes :=
  take 16 (sha256 (ISSUE_DOMAIN_TAG ++ deployment ++ app_identity_digest
                   ++ be_bytes 2 fingerprint_version ++ fingerprint_digest)).

Record CollisionMirror := mkCollision {
  m_deployment_id : bytes;
  m_app_id : bytes;
  m_event_id : bytes;
  winner_sha256 : bytes;
  winner_canonical : bytes;
  contender_sha256 : bytes;
  contender_canonical : bytes;
}.

Definition COLLISION_DOMAIN : bytes := str "scry.error.occurrence-collision.v1" ++ [x00].

(** What [hash_len_bytes] feeds to the hasher. *)
Definition hash_len_bytes (l : bytes) : bytes := be_bytes 8 (Z.min (zlen l) u64_max) ++ l.

Definition collision_id (c : CollisionMirror) : bytes :=
  sha256 (COLLISION_DOMAIN ++ m_deployment_id c ++ m_app_id c ++ m_event_id c ++ winner_sha256 c
          ++ hash_len_bytes (winner_canonical c) ++ contender_sha256 c
          ++ hash_len_bytes (contender_canonical c)).
End Grouping.

(** ** Normalised text is single-spaced *)

(** The text pushed so far: no leading space, no two spaces in a row; the flag
    says whether a further space would be dropped. *)
Inductive spaced : bool -> bytes -> Prop :=
| spaced_nil : spaced true []
| spaced_char ps out b : spaced ps out -> b <> x20 -> spaced false (out ++ [b])
| spaced_space out : spaced false out -> spaced true (out ++ [x20]).

Lemma push_collapsed_loop_spaced fuel : forall out text ps,
  spaced ps out ->
  let '(out', ps') := push_collapsed_loop fuel out text ps in spaced ps' out'.
Proof.
  induction fuel as [|fuel IH]; intros out text ps Hs; cbn [push_collapsed_loop]; [done|].
  destruct text as [|b text]; [done|]. destruct (strip_any white_space (b :: text)) eqn:E.
  - destruct ps; apply IH; [done|by constructor].
  - apply IH. eapply spaced_char; [done|]. intros ->. revert E. vm_compute. done.
Qed.

Lemma push_collapsed_spaced out text ps :
  spaced ps out -> spaced (snd (push_collapsed out text ps)) (fst (push_collapsed out text ps)).
Proof.
  intros Hs. pose proof (push_collapsed_loop_spaced (length text) out text ps Hs) as H.
  unfold push_collapsed. by destruct (push_collapsed_loop _ _ _ _).
Qed.

(** The matches of a search: in order, apart, inside the text and on character
    boundaries. *)
Fixpoint matches_ok (message : bytes) (last : nat) (ms : list (nat * nat)) : Prop :=
  match ms with
  | [] => True
  | (s, e) :: ms =>
      (last <= s <= e)%nat /\ (e <= length message)%nat /\
      is_char_boundary message s = true /\ is_char_boundary message e = true /\
      matches_ok message e ms
  end.

Lemma slice_Some message a b :
  (a <= b <= length message)%nat -> is_char_boundary message a = true ->
  is_char_boundary message b = true -> slice message a b = Some (take (b - a) (drop a message)).
Proof.
  intros Hab Ha Hb. unfold slice. rewrite Ha, Hb.
  by rewrite (proj2 (Nat.leb_le a b)), (proj2 (Nat.leb_le b (length message))) by lia.
Qed.

Lemma normalize_loop_ok message ms : forall result ps last,
  matches_ok message last ms -> (last <= length message)%nat ->
  is_char_boundary message last = true -> spaced ps result ->
  exists result' ps' last', normalize_loop message ms result ps last = Some (result', ps', last') /\
    spaced ps' result' /\ (last' <= length message)%nat /\ is_char_boundary message last' = true.
Proof.
  induction ms as [|[s e] ms IH]; intros result ps last Hok Hlast Hb Hs; cbn [normalize_loop].
  { eauto 10. }
  destruct Hok as (Hse & He & Hbs & Hbe & Hok).
  rewrite (slice_Some message last s), (slice_Some message s e) by (done || lia).
  cbn [mbind option_bind]. set (before := take (s - last) (drop last message)).
  set (tok := take (e - s) (drop s message)).
  pose proof (push_collapsed_spaced result before ps Hs) as H1.
  destruct (push_collapsed result before ps) as [r1 p1]. cbn [fst snd] in H1.
  pose proof (push_collapsed_spaced r1 (default tok (classify tok)) p1 H1) as H2.
  destruct (push_collapsed r1 _ p1) as [r2 p2]. cbn [fst snd] in H2. by apply IH.
Qed.

Lemma spaced_prefix ps l : spaced ps l -> forall a b, l = a ++ b -> exists ps', spaced ps' a.
Proof.
  induction 1 as [|ps l c Hs IH Hc|l Hs IH]; intros a b Heq.
  - symmetry in Heq. apply app_nil in Heq as [-> _]. exists true. constructor.
  - destruct b as [|z b _] using rev_ind.
    + rewrite app_nil_r in Heq. subst a. exists false. by eapply spaced_char.
    + rewrite app_assoc in Heq. apply app_inj_tail in Heq as [Heq _]. eauto.
  - destruct b as [|z b _] using rev_ind.
    + rewrite app_nil_r in Heq. subst a. exists true. by constructor.
    + rewrite app_assoc in Heq. apply app_inj_tail in Heq as [Heq _]. eauto.
Qed.

Lemma strip_any_Some ps l l' : strip_any ps l = Some l' -> exists p, In p ps /\ l = p ++ l'.
Proof.
  induction ps as [|p ps IH]; simpl; [done|]. destruct (strip_prefix p l) as [r|] eqn:E.
  - apply strip_prefix_Some in E as ->. intros [= <-]. eauto.
  - intros (q & Hq & ->)%IH. eauto.
Qed.

Lemma trim_start_spec ps fuel l :
  Forall (fun p => p <> []) ps -> (length l <= fuel)%nat ->
  exists a, l = a ++ trim_start fuel ps l /\ strip_any ps (trim_start fuel ps l) = None.
Proof.
  intros Hps. revert l. induction fuel as [|fuel IH]; intros l Hl; simpl.
  - destruct l; [|simpl in Hl; lia]. exists []. split; [done|].
    destruct (strip_any ps []) as [r|] eqn:E; [|done].
    apply strip_any_Some in E as (p & Hp & Heq). symmetry in Heq. apply app_nil in Heq as [-> _].
    rewrite Forall_forall in Hps. destruct (Hps []); [by apply list_elem_of_In|done].
  - destruct (strip_any ps l) as [r|] eqn:E; [|by exists []].
    apply strip_any_Some in E as (p & Hp & ->). rewrite length_app in Hl.
    assert (p <> []) by (rewrite Forall_forall in Hps; apply Hps; by apply list_elem_of_In).
    destruct p as [|x p]; [done|]. simpl in Hl. destruct (IH r ltac:(lia)) as (a & Ha & Hn).
    exists ((x :: p) ++ a). rewrite <- app_assoc, <- Ha. done.
Qed.

Lemma trim_end_spec l :
  exists b, l = trim_end l ++ b /\ last (trim_end l) <> Some x20.
Proof.
  unfold trim_end. destruct (trim_start_spec (map (@rev _) white_space) (length l) (rev l)) as (a & Ha & Hn).
  - by repeat constructor.
  - by rewrite length_rev.
  - exists (rev a). rewrite <- rev_app_distr, <- Ha, rev_involutive. split; [done|].
    destruct (trim_start _ _ _) as [|x t]; [done|]. cbn [rev]. rewrite last_snoc.
    intros [= ->]. revert Hn. vm_compute. done.
Qed.

Lemma spaced_words ps l : spaced ps l ->
  l !! 0%nat <> Some x20 /\ (last l = Some x20 -> ps = true) /\
  forall i, l !! i = Some x20 -> l !! S i <> Some x20.
Proof.
  induction 1 as [|ps l c Hs (H0 & Hl & Hi) Hc|l Hs (H0 & Hl & Hi)].
  - done.
  - split_and!.
    + destruct l; simpl; [congruence|done].
    + rewrite last_snoc. congruence.
    + intros i H1 H2. apply lookup_app_Some in H2 as [H2|[Hle H2]].
      * apply (Hi i); [|done]. rewrite lookup_app_l in H1; [done|]. apply lookup_lt_Some in H2. lia.
      * apply list_lookup_singleton_Some in H2 as [_ H2]. done.
  - split_and!.
    + destruct l as [|x l]; [inversion Hs; destruct out; done|]. done.
    + done.
    + intros i H1 H2. apply lookup_app_Some in H2 as [H2|[Hle H2]].
      * apply (Hi i); [|done]. rewrite lookup_app_l in H1; [done|]. apply lookup_lt_Some in H2. lia.
      * apply list_lookup_singleton_Some in H2 as [Hz _].
        rewrite lookup_app_l in H1 by lia.
        assert (last l = Some x20) as Hlast by (rewrite last_lookup; by replace (pred (length l)) with i by lia).
        by apply Hl in Hlast.
Qed.

(** Message normalisation always returns single-spaced text: whatever the
    message, if the search yields ordered, disjoint matches on character
    boundaries, no slice panics, and the result has no leading or trailing space
    and never two spaces in a row. *)
Theorem normalize_single_spaced find_iter (message : bytes) :
  matches_ok message 0 (find_iter message) ->
  exists r, normalize_message find_iter message = Some r /\
    r !! 0%nat <> Some x20 /\ last r <> Some x20 /\
    forall i, r !! i = Some x20 -> r !! S i <> Some x20.
Proof.
  intros Hok. unfold normalize_message.
  destruct (normalize_loop_ok message (find_iter message) [] true 0 Hok) as (r & ps & l & -> & Hs & Hl & Hb);
    [lia|done|constructor|]. cbn [mbind option_bind].
  rewrite slice_Some; [|lia|done|].
  2:{ unfold is_char_boundary. rewrite lookup_ge_None_2, Nat.eqb_refl by done. by case_match. }
  cbn [mbind option_bind].
  match goal with |- context [push_collapsed r ?t ps] => pose proof (push_collapsed_spaced r t ps Hs) as H1;
    destruct (push_collapsed r t ps) as [r1 p1] end.
  exists (trim_end r1). cbn [fst snd] in H1.
  destruct (trim_end_spec r1) as (b & Heq & Hlast).
  destruct (spaced_prefix _ _ H1 _ _ Heq) as (ps' & (H2 & _ & H3)%spaced_words). done.
Qed.

(** ** Titles are bounded *)

Lemma title_cut_loop_spec value cut :
  is_char_boundary value (title_cut_loop value cut) = true /\
  (title_cut_loop value cut <= cut)%nat /\
  forall c, (title_cut_loop value cut < c <= cut)%nat -> is_char_boundary value c = false.
Proof.
  induction cut as [|cut (IHb & IHl & IHn)]; cbn [title_cut_loop].
  - split_and!; [done|lia|lia].
  - destruct (is_char_boundary value (S cut)) eqn:E.
    + split_and!; [done|lia|lia].
    + split_and!; [done|lia|]. intros c Hc. destruct (decide (c = S cut)) as [->|]; [done|].
      apply IHn. lia.
Qed.

Lemma bounded_owned_title value : bounded_owned value = bounded_title value.
Proof. unfold bounded_owned, bounded_title. split_tests; done || lia. Qed.

Lemma bounded_title_spec value :
  zlen (bounded_title value) <= MAX_TITLE_BYTES /\
  (zlen value <= MAX_TITLE_BYTES -> bounded_title value = value) /\
  (MAX_TITLE_BYTES < zlen value ->
     exists c, bounded_title value = take c value ++ ellipsis /\ (c <= 509)%nat /\
       is_char_boundary value c = true /\
       forall c', (c < c' <= 509)%nat -> is_char_boundary value c' = false).
Proof.
  unfold bounded_title, title_cut, MAX_TITLE_BYTES.
  change (Z.to_nat (512 - zlen ellipsis)) with 509%nat.
  destruct (title_cut_loop_spec value 509) as (Hb & Hl & Hn).
  destruct (Z.leb_spec (zlen value) 512) as [H|H].
  - split_and!; [done|done|]. intros Hlt. exfalso. lia.
  - split_and!; [|intros Hle; exfalso; lia|eauto 6].
    rewrite zlen_app. change (zlen ellipsis) with 3. unfold zlen. rewrite length_take. lia.
Qed.

(** ** What a fingerprint identifies *)

Section GroupingFacts.
  Context (sha256 : bytes -> bytes) (find_iter : bytes -> list (nat * nat)).

(** The rule that selected the texts of an occurrence, with the texts normalised. *)
Definition normalised_selection (d : DecodedOcc1) : option Selection :=
  match select d with
  | SelTypeAndMessage ty message => n ← normalize_message find_iter message; Some (SelTypeAndMessage ty n)
  | SelMessageOnly message => n ← normalize_message find_iter message; Some (SelMessageOnly n)
  | SelFallbackBody body => n ← normalize_message find_iter body; Some (SelFallbackBody n)
  | s => Some s
  end.

(** What of a selection is hashed: the quality and two texts. *)
Definition group_key (s : Selection) : GroupingQuality * option bytes * option bytes :=
  match s with
  | SelTypeAndMessage ty n => (TypeAndMessage, Some ty, Some n)
  | SelTypeOnly ty => (TypeOnly, Some ty, None)
  | SelMessageOnly n => (MessageOnly, None, Some n)
  | SelFallbackBody n => (Fallback, None, Some n)
  | SelFallbackSeverity severity_text => (Fallback, None, Some (unknown_error severity_text))
  end.

(** The one case in which two rules hash the same: a body that reads like the label of a
    severity. *)
Definition reads_like_label (s s' : Selection) : Prop :=
  exists severity_text, s = SelFallbackBody (unknown_error severity_text) /\ s' = SelFallbackSeverity severity_text.

Lemma unknown_error_inj a b : unknown_error a = unknown_error b -> a = b.
Proof. unfold unknown_error. by intros ?%app_inv_head%app_inv_tail. Qed.

Lemma group_key_eq s s' : group_key s = group_key s' <-> s = s' \/ reads_like_label s s' \/ reads_like_label s' s.
Proof.
  split; [|intros [->|[(v & -> & ->)|(v & -> & ->)]]; done].
  intros Hk. pose proof (f_equal (fun k => snd (fst k)) Hk) as Hty. pose proof (f_equal snd Hk) as Hmsg.
  destruct s, s'; try discriminate Hk; cbn [group_key fst snd] in Hty, Hmsg;
    try apply (inj Some) in Hty; try apply (inj Some) in Hmsg; subst; auto.
  - right. left. by eexists.
  - right. right. by eexists.
  - left. f_equal. by apply unknown_error_inj.
Qed.

Definition group_preimage (app : bytes) (k : GroupingQuality * option bytes * option bytes) : bytes :=
  let '(q, ty, msg) := k in
  FINGERPRINT_DOMAIN_TAG ++ app ++ be_bytes 2 FINGERPRINT_VERSION ++ be_bytes 1 (quality_code q)
  ++ tagged ty ++ tagged msg.

(** The text a title is made of. *)
Definition title_text (k : GroupingQuality * option bytes * option bytes) : bytes :=
  match k with
  | (_, Some ty, _) => ty
  | (_, None, Some msg) => msg
  | (_, None, None) => []
  end.

Lemma fingerprint_key d app r :
  fingerprint_from_decoded sha256 find_iter d app = Some r ->
  exists s, normalised_selection d = Some s /\ f_digest r = sha256 (group_preimage app (group_key s)) /\
    quality r = fst (fst (group_key s)) /\ title r = bounded_title (title_text (group_key s)) /\
    version r = FINGERPRINT_VERSION.
Proof.
  unfold fingerprint_from_decoded, normalised_selection. cbv zeta.
  destruct (select d) as [ty m|ty|m|m|sv]; cbn [mbind option_bind];
    try (destruct (normalize_message find_iter m) as [n|]; cbn [mbind option_bind]; [|done]);
    intros [= <-]; eexists; (split; [reflexivity|]); cbn; rewrite ?bounded_owned_title; done.
Qed.

Lemma quality_code_inj q q' : quality_code q = quality_code q' -> q = q'.
Proof. by destruct q, q'. Qed.

Lemma tagged_inj x y l l' :
  (forall t, x = Some t \/ y = Some t -> zlen t <= u32_max) ->
  tagged x ++ l = tagged y ++ l' -> x = y /\ l = l'.
Proof.
  intros Hs. assert (forall t : bytes, zlen t <= u32_max -> zlen t mod 2 ^ 32 = zlen t) as Hm.
  { intros t Ht. pose proof (zlen_nonneg t). unfold u32_max in Ht. apply Z.mod_small. lia. }
  destruct x as [t|], y as [u|]; cbn [tagged];
    change (be_bytes 1 1) with [x01]; change (be_bytes 1 0) with [x00]; try done.
  - rewrite !Hm by auto. rewrite <- !app_assoc. intros Heq%app_inv_head.
    rewrite !app_assoc in Heq. apply prefixed_inj in Heq as [-> ->]; auto.
  - intros Heq%app_inv_head. done.
Qed.

Lemma group_preimage_inj app app' k k' :
  zlen app = 32 -> zlen app' = 32 ->
  (forall t, snd (fst k) = Some t \/ snd (fst k') = Some t \/ snd k = Some t \/ snd k' = Some t ->
     zlen t <= u32_max) ->
  group_preimage app k = group_preimage app' k' -> app = app' /\ k = k'.
Proof.
  intros Ha Ha' Hs. destruct k as [[q ty] msg], k' as [[q' ty'] msg']. cbn [fst snd group_preimage] in *.
  intros Heq%app_inv_head. apply app_inj_1 in Heq as [-> Heq]; [|unfold zlen in *; lia].
  apply app_inv_head in Heq. apply app_inj_1 in Heq as [Hq Heq]; [|done].
  apply (f_equal from_be) in Hq.
  rewrite !from_be_be_bytes_id in Hq by (by destruct q + by destruct q').
  apply quality_code_inj in Hq as ->. apply tagged_inj in Heq as [-> Heq]; [|naive_solver].
  rewrite <- (app_nil_r (tagged msg)), <- (app_nil_r (tagged msg')) in Heq.
  apply tagged_inj in Heq as [-> _]; [done|naive_solver].
Qed.

(** C24. A fingerprint identifies its group: when SHA-256 does not collide on the two
    preimages and the texts have 32-bit lengths, two occurrences have the same
    fingerprint if and only if their applications agree and the same rule selected the
    same exception type and normalised text, or the severity fallback of one meets the
    body fallback of the other, whose normalised body is the label of that severity.  So
    a message-only exception never meets a body fallback with the same text, but the two
    fallbacks are not told apart. *)
Theorem fingerprint_identifies_group (d d' : DecodedOcc1) (app app' : bytes) r r' s s' :
  fingerprint_from_decoded sha256 find_iter d app = Some r ->
  fingerprint_from_decoded sha256 find_iter d' app' = Some r' ->
  zlen app = 32 -> zlen app' = 32 -> normalised_selection d = Some s -> normalised_selection d' = Some s' ->
  let k := group_key s in let k' := group_key s' in
  (forall t, snd (fst k) = Some t \/ snd (fst k') = Some t \/ snd k = Some t \/ snd k' = Some t ->
     zlen t <= u32_max) ->
  (sha256 (group_preimage app k) = sha256 (group_preimage app' k') ->
   group_preimage app k = group_preimage app' k') ->
  f_digest r = f_digest r' <->
    app = app' /\ (s = s' \/ reads_like_label s s' \/ reads_like_label s' s).
Proof.
  intros (s1 & Hs1 & -> & _)%fingerprint_key (s2 & Hs2 & -> & _)%fingerprint_key Ha Ha' Hs Hs' k k' Hlen Hcol.
  rewrite Hs in Hs1. rewrite Hs' in Hs2. injection Hs1 as <-. injection Hs2 as <-. rewrite <- group_key_eq.
  split; [|by intros [-> ->]]. intros Heq%Hcol. by apply group_preimage_inj.
Qed.

(** Titles are bounded and cut on characters: the title of an issue has at
    most 512 bytes; it is the whole exception type, normalised text or label when
    that fits, and otherwise the longest prefix that leaves room for the ellipsis
    and ends on a character boundary, followed by the ellipsis. *)
Theorem title_bounded (d : DecodedOcc1) (app : bytes) r s :
  fingerprint_from_decoded sha256 find_iter d app = Some r -> normalised_selection d = Some s ->
  let k := group_key s in
  zlen (title r) <= MAX_TITLE_BYTES /\
  (zlen (title_text k) <= MAX_TITLE_BYTES -> title r = title_text k) /\
  (MAX_TITLE_BYTES < zlen (title_text k) ->
     exists c, title r = take c (title_text k) ++ ellipsis /\ (c <= 509)%nat /\
       is_char_boundary (title_text k) c = true /\
       forall c', (c < c' <= 509)%nat -> is_char_boundary (title_text k) c' = false).
Proof.
  intros (s1 & Hs1 & _ & _ & -> & _)%fingerprint_key Hs. rewrite Hs in Hs1. injection Hs1 as <-.
  apply bounded_title_spec.
Qed.

(** The explanation tells what was hashed: its included components are the
    exception type of the digest, if there is one, and the text of the digest
    (for the last fallback the severity the label is made of). *)
Theorem explanation_matches (d : DecodedOcc1) (app : bytes) r cs :
  fingerprint_from_decoded sha256 find_iter d app = Some r ->
  explain_fingerprint find_iter d = Some cs ->
  exists ty msg, f_digest r = compute_digest sha256 app (quality r) ty msg /\
    (forall v, (exists why, In (mkComponent ExceptionType v true why) cs) <-> ty = Some v) /\
    (forall kd v why, In (mkComponent kd v true why) cs -> kd <> ExceptionType ->
       msg = Some (match kd with Severity => unknown_error v | _ => v end)).
Proof.
  unfold fingerprint_from_decoded, explain_fingerprint. cbv zeta.
  destruct (select d) as [ty m|ty|m|m|sv]; cbn [mbind option_bind];
    try (destruct (normalize_message find_iter m) as [n|]; cbn [mbind option_bind]; [|done]);
    intros [= <-] [= <-]; eexists _, _; (split; [reflexivity|]); cbn [In]; split; naive_solver.
Qed.
End GroupingFacts.

(** ** Witnesses *)

Definition demo_find_iter (l : bytes) : list (nat * nat) :=
  if bool_decide (l = str " at  12345 ms ") then [(5, 10)%nat] else [].

Lemma normalize_single_spaced_witness :
  normalize_message demo_find_iter (str " at  12345 ms ") = Some (str "at {int} ms") /\
  exists r, normalize_message demo_find_iter (str " at  12345 ms ") = Some r /\ last r <> Some x20.
Proof.
  split; [vm_compute; reflexivity|].
  destruct (normalize_single_spaced demo_find_iter (str " at  12345 ms ")) as (r & Hr & _ & Hl & _).
  - vm_compute. repeat split; lia.
  - exists r. split; [exact Hr|exact Hl].
Defined.

Definition demo_decoded (message : bytes) (b : AnyValue) : DecodedOcc1 :=
  mkDecoded 1 1 (be_bytes 16 1) (be_bytes 32 2) (be_bytes 16 3) 17 (str "ERROR") (str "exception") b
    [(str "exception.message", VString message)].

Lemma fingerprint_identifies_group_witness :
  exists r r',
    fingerprint_from_decoded id demo_find_iter (demo_decoded (str "boom") VNull) (be_bytes 32 2) = Some r /\
    fingerprint_from_decoded id demo_find_iter (demo_decoded [] (VString (str "boom"))) (be_bytes 32 2)
      = Some r' /\
    f_digest r <> f_digest r'.
Proof.
  destruct (fingerprint_from_decoded id demo_find_iter (demo_decoded (str "boom") VNull) (be_bytes 32 2))
    as [r|] eqn:E; [|vm_compute in E; discriminate E].
  destruct (fingerprint_from_decoded id demo_find_iter (demo_decoded [] (VString (str "boom"))) (be_bytes 32 2))
    as [r'|] eqn:E'; [|vm_compute in E'; discriminate E'].
  exists r, r'. split; [reflexivity|]. split; [reflexivity|]. intros Heq.
  apply (fingerprint_identifies_group id demo_find_iter (demo_decoded (str "boom") VNull)
    (demo_decoded [] (VString (str "boom"))) (be_bytes 32 2) (be_bytes 32 2) r r'
    (SelMessageOnly (str "boom")) (SelFallbackBody (str "boom")) E E' eq_refl eq_refl) in Heq
    as [_ [Hk|[(v & Hk & _)|(v & Hk & Hk')]]].
  - discriminate Hk.
  - discriminate Hk.
  - discriminate Hk'.
  - vm_compute. reflexivity.
  - vm_compute. reflexivity.
  - intros t [[=]|[[=]|[[= <-]|[= <-]]]]; vm_compute; discriminate.
  - exact (fun x => x).
Defined.

(** A body that reads like the label of a severity shares the fingerprint of an
    occurrence without a body. *)
Lemma fallback_rules_meet :
  let body := demo_decoded [] (VString (str "unknown error (ERROR)")) in
  let nothing := demo_decoded [] VNull in
  normalised_selection demo_find_iter body = Some (SelFallbackBody (str "unknown error (ERROR)")) /\
  normalised_selection demo_find_iter nothing = Some (SelFallbackSeverity (str "ERROR")) /\
  f_digest <$> fingerprint_from_decoded id demo_find_iter body (be_bytes 32 2) =
  f_digest <$> fingerprint_from_decoded id demo_find_iter nothing (be_bytes 32 2).
Proof. vm_compute. split_and!; reflexivity. Qed.

Lemma title_bounded_witness :
  exists r, fingerprint_from_decoded id demo_find_iter (demo_decoded (repeat x61 600) VNull) (be_bytes 32 2) = Some r /\
    zlen (title r) = 512.
Proof.
  destruct (fingerprint_from_decoded id demo_find_iter (demo_decoded (repeat x61 600) VNull) (be_bytes 32 2))
    as [r|] eqn:E; [|vm_compute in E; discriminate E].
  exists r. split; [reflexivity|].
  destruct (title_bounded id demo_find_iter (demo_decoded (repeat x61 600) VNull) (be_bytes 32 2) r
    (SelMessageOnly (repeat x61 600)) E ltac:(vm_compute; reflexivity)) as (_ & _ & Hc).
  destruct (Hc ltac:(vm_compute; reflexivity)) as (c & -> & Hle & _ & Hmax).
  assert (c = 509%nat) as ->; [|vm_compute; reflexivity].
  destruct (Nat.eq_dec c 509%nat) as [H|H]; [exact H|]. exfalso.
  specialize (Hmax 509%nat ltac:(lia)). vm_compute in Hmax. discriminate Hmax.
Defined.

Lemma explanation_matches_witness :
  exists r cs,
    fingerprint_from_decoded id demo_find_iter (demo_decoded (str "boom") VNull) (be_bytes 32 2) = Some r /\
    explain_fingerprint demo_find_iter (demo_decoded (str "boom") VNull) = Some cs /\
    exists ty msg, f_digest r = compute_digest id (be_bytes 32 2) (quality r) ty msg.
Proof.
  destruct (fingerprint_from_decoded id demo_find_iter (demo_decoded (str "boom") VNull) (be_bytes 32 2))
    as [r|] eqn:E; [|vm_compute in E; discriminate E].
  destruct (explain_fingerprint demo_find_iter (demo_decoded (str "boom") VNull)) as [cs|] eqn:E';
    [|vm_compute in E'; discriminate E'].
  exists r, cs. split; [reflexivity|]. split; [reflexivity|].
  destruct (explanation_matches id demo_find_iter _ _ r cs E E') as (ty & msg & Hd & _).
  exists ty, msg. exact Hd.
Defined.
