(* ===== verification/ErrorsDb.v ===== *)
(** * The fold of occurrences into issues

    [crates/errors/src/sqlite.rs], with the object names and the commit marker of
    [crates/errors/src/projection.rs].  A table is a finite map by its primary key, a
    transaction that commits is a function of the tables and one that fails leaves them
    as they were.  Text and blobs are bytes; a timestamp column holds the signed integer
    that [to_sql_i64] makes of it.  The numbers of [fold_seq] and the counts stay below
    [2^63], so the casts between [i64] and [u64] do not change them. *)

From S2P Require Import Prelude Order Bytes ByteOrder Text Occ1 Occurrence Grouping.

(** ** Bytes as keys *)

#[export] Program Instance u8_countable : Countable u8 := inj_countable' b2z z2b _.
Next Obligation. intros b. apply z2b_b2z. Qed.

(** ** Constants and integers *)

Definition ERRORS_SCHEMA_VERSION : Z := 5.
Definition DEFAULT_MAX_ROWS_PER_TRANSACTION : Z := 4096.
Definition MAX_ISSUE_PAGE_ROWS : Z := 1000.
Definition CLOCK_SKEW_ALLOWANCE_NANOS : Z := 5 * 60 * 1000000000.
Definition MAX_FAILURE_REASON_BYTES : Z := 256.
Definition OCCURRENCE_PROJECTION_PREFIX : bytes := str "_scry/errors/v1/occurrences".
Definition OCCURRENCE_PROJECTION_SCHEMA_VERSION : Z := 1.

Definition to_sql_i64 (value : Z) : Z := as_i64 (Z.lxor value (2 ^ 63)).
Definition from_sql_i64 (value : Z) : Z := Z.lxor (value mod 2 ^ 64) (2 ^ 63).

Definition clamped_occurrence_time (occurred_at received_at : Z) : Z :=
  Z.min occurred_at (sat_add received_at CLOCK_SKEW_ALLOWANCE_NANOS).

(** ** Object names and the commit marker *)

Inductive ProjectionError := InvalidDate | InvalidGeneration | InvalidObjectKey.

Record ProjectionKeys := mkKeys { data_key : bytes; commit_key : bytes }.

Definition is_digit (b : u8) : bool := (48 <=? b2z b) && (b2z b <=? 57).
Definition is_lower (b : u8) : bool := (97 <=? b2z b) && (b2z b <=? 122).

(** [date[a..b].parse()], for a part that is all digits and fits its type. *)
Definition date_part (a n : nat) (date : bytes) : Z := default 0 (digits_value 0 (take n (drop a date))).

Definition days_of (year month : Z) : option Z :=
  let leap := (year mod 4 =? 0) && (negb (year mod 100 =? 0) || (year mod 400 =? 0)) in
  if bool_decide (month ∈ [1; 3; 5; 7; 8; 10; 12]) then Some 31
  else if bool_decide (month ∈ [4; 6; 9; 11]) then Some 30
  else if month =? 2 then Some (if leap then 29 else 28)
  else None.

Definition validate_date (date : bytes) : result ProjectionError unit :=
  if negb (zlen date =? 10) || negb (bool_decide (date !! 4%nat = Some x2d)) || negb (bool_decide (date !! 7%nat = Some x2d))
     || negb (forallb is_digit (take 4 date ++ take 2 (drop 5 date) ++ drop 8 date))
  then Err InvalidDate
  else
    let day := date_part 8 2 date in
    match days_of (date_part 0 4 date) (date_part 5 2 date) with
    | None => Err InvalidDate
    | Some days => if (day =? 0) || (days <? day) then Err InvalidDate else Ok tt
    end.

Definition SLASH : u8 := x2f.

Definition occurrence_keys (date uuid generation : bytes) : result ProjectionError ProjectionKeys :=
  let? _ := validate_date date in
  if (zlen generation =? 0) || (128 <? zlen generation)
     || negb (forallb (fun b => is_lower b || is_digit b || bool_decide (b = x2d) || bool_decide (b = x5f)) generation)
  then Err InvalidGeneration
  else
    let stem := OCCURRENCE_PROJECTION_PREFIX ++ [SLASH] ++ date ++ [SLASH] ++ hyphenated uuid ++ [SLASH] ++ generation in
    Ok (mkKeys (stem ++ str ".parquet") (stem ++ str ".commit.json")).

Record OccurrenceCommit := mkCommit {
  k_schema_version : Z;
  k_source_log_block_uuid : bytes;
  k_extractor_generation : bytes;
  k_data_key : bytes;
  k_data_sha256 : bytes;
  k_data_size_bytes : Z;
  k_row_count : Z;
  k_committed_at : Z;
}.

(** ** The tables *)

Inductive SqliteError :=
| CheckFailed (column : string)
| TransactionLimit (actual limit : Z)
| InvalidLength (field : string) (expected actual : Z)
| CommitConflict
| DeploymentMismatch (expected actual : bytes)
| GenerationConflict (existing requested : bytes)
| FenceLost.

Record OccurrenceRow := mkORow {
  r_deployment_id : bytes;
  r_app_id : bytes;
  r_app_identity_sha256 : bytes;
  r_event_id : bytes;
  r_occurred_at : Z;
  r_observed_at : option Z;
  r_received_at : Z;
  r_trace_id : option bytes;
  r_span_id : option bytes;
  r_trace_flags : Z;
  r_canonical_version : Z;
  r_scrub_policy_version : Z;
  r_canonical_sha256 : bytes;
  r_canonical : bytes;
  r_source_log_block_uuid : bytes;
  r_source_row_ordinal : Z;
}.

(** The primary key of [occurrences]. *)
Record Identity := mkIdentity { i_deployment_id : bytes; i_app_id : bytes; i_app_identity_sha256 : bytes; i_event_id : bytes }.

#[export] Instance Identity_eq_dec : EqDecision Identity.
Proof. solve_decision. Defined.
#[export] Program Instance Identity_countable : Countable Identity :=
  inj_countable' (fun i => (i_deployment_id i, i_app_id i, i_app_identity_sha256 i, i_event_id i))
    (fun '(d, a, s, e) => mkIdentity d a s e) _.
Next Obligation. by intros []. Qed.

(** The other columns of [occurrences]. *)
Record OccurrenceCols := mkOCols {
  o_occurred_at : Z;
  o_observed_at : option Z;
  o_received_at : Z;
  o_trace_id : option bytes;
  o_span_id : option bytes;
  o_trace_flags : Z;
  o_canonical_version : Z;
  o_scrub_policy_version : Z;
  o_canonical_sha256 : bytes;
  o_canonical : bytes;
  o_projection_key : bytes;
  o_source_log_block_uuid : bytes;
  o_source_row_ordinal : Z;
  o_fold_seq : Z;
}.

Record CommitCols := mkCCols {
  cc_source_log_block_uuid : bytes;
  cc_extractor_generation : bytes;
  cc_data_key : bytes;
  cc_data_sha256 : bytes;
  cc_data_size_bytes : Z;
  cc_row_count : Z;
  cc_committed_at : Z;
  cc_commit_json : bytes;
}.

Record CoverageCols := mkCovCols { cv_source_date : bytes; cv_projection_key : bytes; cv_covered_at : Z }.

Record CollisionCols := mkColCols {
  x_deployment_id : bytes;
  x_app_id : bytes;
  x_event_id : bytes;
  x_winner_sha256 : bytes;
  x_winner_canonical : bytes;
  x_contender_sha256 : bytes;
  x_contender_canonical : bytes;
  x_contender_projection_key : bytes;
  x_contender_source_log_block_uuid : bytes;
  x_contender_source_row_ordinal : Z;
}.

Record IssueCols := mkICols {
  n_generation : bytes;
  n_app_id : bytes;
  n_app_identity_sha256 : bytes;
  n_fingerprint_version : Z;
  n_fingerprint_digest : bytes;
  n_grouping_quality : Z;
  n_title : bytes;
  n_first_seen : Z;
  n_last_seen : Z;
  n_occurrence_count : Z;
  n_max_severity : Z;
  n_latest_event_id : bytes;
}.

Record MappingCols := mkMCols {
  g_issue_id : bytes; g_fingerprint_version : Z; g_fingerprint_digest : bytes; g_sort_at : Z }.

Record FailureCols := mkFCols { f_app_id : bytes; f_app_identity_sha256 : bytes; f_event_id : bytes; f_reason : bytes }.

(** The tables that folding writes; [source_coverage] is keyed by block and extractor
    generation. *)
Record Folded := mkFolded {
  projection_commits : gmap bytes CommitCols;
  source_coverage : gmap (bytes * bytes) CoverageCols;
  occurrences : gmap Identity OccurrenceCols;
  occurrence_collisions : gmap bytes CollisionCols;
}.

(** The tables that grouping writes, with the active generation of [metadata]; [issues]
    is keyed by deployment and issue, [occurrence_issues] by occurrence and grouping
    generation, [grouping_failures] by generation and sequence number. *)
Record Grouped := mkGrouped {
  active : option bytes;
  issues : gmap (bytes * bytes) IssueCols;
  occurrence_issues : gmap (Identity * bytes) MappingCols;
  grouping_cursors : gmap bytes Z;
  grouping_failures : gmap (bytes * Z) FailureCols;
}.

(** The database; [reconcile_cursors] is keyed by partition, [bound] is the deployment of
    [metadata]. *)
Record Db := mkDb {
  bound : option bytes;
  reconcile_cursors : gmap bytes (bytes * Z);
  folded : Folded;
  grouped : Grouped;
}.

Definition empty_folded : Folded := mkFolded ∅ ∅ ∅ ∅.
Definition empty_grouped : Grouped := mkGrouped None ∅ ∅ ∅ ∅.
Definition empty_db : Db := mkDb None ∅ empty_folded empty_grouped.

(** The handle: the tables and the settings of [ErrorsDb]. *)
Record ErrorsDb := mkErrorsDb { conn : Db; deployment_id : bytes; max_rows_per_transaction : Z }.

Definition with_conn (e : ErrorsDb) (d : Db) : ErrorsDb := mkErrorsDb d (deployment_id e) (max_rows_per_transaction e).

(** ** Folding committed occurrences *)

Record FoldReport := mkFoldReport { inserted : Z; exact_duplicates : Z; collisions : Z }.

Section Db.
  Context (sha256 : bytes -> bytes).

Definition check_length (field : string) (l : bytes) (expected : Z) : result SqliteError unit :=
  if negb (zlen l =? expected) then Err (InvalidLength field expected (zlen l)) else Ok tt.
Definition check_length_opt (field : string) (l : option bytes) (expected : Z) : result SqliteError unit :=
  match l with Some l => check_length field l expected | None => Ok tt end.

Definition validate_row (row : OccurrenceRow) (expected_deployment : bytes) : result SqliteError unit :=
  let? _ := check_length "deployment_id" (r_deployment_id row) 16 in
  let? _ := check_length "app_id" (r_app_id row) 16 in
  let? _ := check_length "app_identity_sha256" (r_app_identity_sha256 row) 32 in
  let? _ := check_length "event_id" (r_event_id row) 16 in
  let? _ := check_length "canonical_sha256" (r_canonical_sha256 row) 32 in
  let? _ := check_length "source_log_block_uuid" (r_source_log_block_uuid row) 16 in
  let? _ := check_length_opt "trace_id" (r_trace_id row) 16 in
  let? _ := check_length_opt "span_id" (r_span_id row) 8 in
  if bool_decide (r_deployment_id row = expected_deployment) then Ok tt
  else Err (DeploymentMismatch expected_deployment (r_deployment_id row)).

(** The loop over the rows, [len] of which are validated. *)
Fixpoint validate_rows (e : ErrorsDb) (len : Z) (rows : list OccurrenceRow) : result SqliteError unit :=
  match rows with
  | [] => Ok tt
  | row :: rows =>
      if len =? max_rows_per_transaction e then Err (TransactionLimit (len + 1) (max_rows_per_transaction e))
      else let? _ := validate_row row (deployment_id e) in validate_rows e (len + 1) rows
  end.

(** SQLite's [length] of a text: its characters. *)
Definition text_length (l : bytes) : Z := zlen (List.filter (fun b => negb ((0x80 <=? b2z b) && (b2z b <=? 0xBF))) l).

Definition ensure_commit (key : bytes) (commit : OccurrenceCommit) (commit_json : bytes) (t : Folded) : result SqliteError Folded :=
  match projection_commits t !! key with
  | Some existing => if bool_decide (cc_commit_json existing = commit_json) then Ok t else Err CommitConflict
  | None =>
      if negb (text_length (k_data_sha256 commit) =? 64) then Err (CheckFailed "data_sha256")
      else Ok (mkFolded
        (<[key := mkCCols (k_source_log_block_uuid commit) (k_extractor_generation commit) (k_data_key commit)
                    (k_data_sha256 commit) (to_sql_i64 (k_data_size_bytes commit)) (to_sql_i64 (k_row_count commit))
                    (to_sql_i64 (k_committed_at commit)) commit_json]> (projection_commits t))
        (source_coverage t) (occurrences t) (occurrence_collisions t))
  end.

Definition identity (row : OccurrenceRow) : Identity :=
  mkIdentity (r_deployment_id row) (r_app_id row) (r_app_identity_sha256 row) (r_event_id row).

Definition columns (key : bytes) (row : OccurrenceRow) (fold_seq : Z) : OccurrenceCols :=
  mkOCols (to_sql_i64 (r_occurred_at row)) (to_sql_i64 <$> r_observed_at row) (to_sql_i64 (r_received_at row))
    (r_trace_id row) (r_span_id row) (r_trace_flags row) (r_canonical_version row) (r_scrub_policy_version row)
    (r_canonical_sha256 row) (r_canonical row) key (r_source_log_block_uuid row)
    (to_sql_i64 (r_source_row_ordinal row)) fold_seq.

Definition mirror (row : OccurrenceRow) (winner : OccurrenceCols) : CollisionMirror :=
  mkCollision (r_deployment_id row) (r_app_id row) (r_event_id row) (o_canonical_sha256 winner) (o_canonical winner)
    (r_canonical_sha256 row) (r_canonical row).

Definition collision_columns (key : bytes) (row : OccurrenceRow) (winner : OccurrenceCols) : CollisionCols :=
  mkColCols (r_deployment_id row) (r_app_id row) (r_event_id row) (o_canonical_sha256 winner) (o_canonical winner)
    (r_canonical_sha256 row) (r_canonical row) key (r_source_log_block_uuid row) (to_sql_i64 (r_source_row_ordinal row)).

(** The tables, [next_fold_seq] and the report. *)
Definition FoldState : Type := Folded * Z * FoldReport.

Definition fold_row (key : bytes) (st : FoldState) (row : OccurrenceRow) : FoldState :=
  let '(t, next, report) := st in
  match occurrences t !! identity row with
  | Some winner =>
      if bool_decide (o_canonical_sha256 winner = r_canonical_sha256 row) && bool_decide (o_canonical winner = r_canonical row)
      then (t, next, mkFoldReport (inserted report) (exact_duplicates report + 1) (collisions report))
      else
        let id := collision_id sha256 (mirror row winner) in
        let table := occurrence_collisions t in
        let table := match table !! id with Some _ => table | None => <[id := collision_columns key row winner]> table end in
        (mkFolded (projection_commits t) (source_coverage t) (occurrences t) table, next,
         mkFoldReport (inserted report) (exact_duplicates report) (collisions report + 1))
  | None =>
      (mkFolded (projection_commits t) (source_coverage t) (<[identity row := columns key row next]> (occurrences t))
         (occurrence_collisions t), next + 1,
       mkFoldReport (inserted report + 1) (exact_duplicates report) (collisions report))
  end.

(** [COALESCE(MAX(fold_seq), 0)]. *)
Definition head_seq (t : Folded) : Z := map_fold (fun _ o acc => Z.max (o_fold_seq o) acc) 0 (occurrences t).

Definition cover (date key : bytes) (commit : OccurrenceCommit) (t : Folded) : Folded :=
  mkFolded (projection_commits t)
    (<[(k_source_log_block_uuid commit, k_extractor_generation commit) := mkCovCols date key (to_sql_i64 (k_committed_at commit))]>
       (source_coverage t))
    (occurrences t) (occurrence_collisions t).

(** [hint] is the size hint of the iterator of the rows, [fence] whether the lease still
    stands before the commit. *)
Definition fold_committed (e : ErrorsDb) (date key : bytes) (commit : OccurrenceCommit) (commit_json : bytes)
    (rows : list OccurrenceRow) (hint : Z * option Z) (fence : bool) : ErrorsDb * result SqliteError FoldReport :=
  let outcome :=
    match occurrence_keys date (k_source_log_block_uuid commit) (k_extractor_generation commit) with
    | Err _ => Err CommitConflict
    | Ok expected =>
        if negb (bool_decide (commit_key expected = key)) || negb (bool_decide (data_key expected = k_data_key commit))
        then Err CommitConflict
        else
          let limit := max_rows_per_transaction e in
          if (limit <? fst hint) || match snd hint with Some upper => limit <? upper | None => false end
          then Err (TransactionLimit (default (fst hint) (snd hint)) limit)
          else
            let? _ := validate_rows e 0 rows in
            let? t := ensure_commit key commit commit_json (folded (conn e)) in
            let '(t, _, report) := fold_left (fold_row key) rows (t, head_seq t + 1, mkFoldReport 0 0 0) in
            if fence then Ok (cover date key commit t, report) else Err FenceLost
    end in
  match outcome with
  | Ok (t, report) => (with_conn e (mkDb (bound (conn e)) (reconcile_cursors (conn e)) t (grouped (conn e))), Ok report)
  | Err err => (e, Err err)
  end.

Definition has_projection_commit (e : ErrorsDb) (key : bytes) : bool :=
  bool_decide (is_Some (projection_commits (folded (conn e)) !! key)).
Definition is_source_covered (e : ErrorsDb) (uuid generation : bytes) : bool :=
  bool_decide (is_Some (source_coverage (folded (conn e)) !! (uuid, generation))).

Definition set_reconcile_cursor (e : ErrorsDb) (partition highest_key : bytes) (updated_at : Z) : ErrorsDb :=
  let d := conn e in
  with_conn e (mkDb (bound d) (<[partition := (highest_key, to_sql_i64 updated_at)]> (reconcile_cursors d)) (folded d) (grouped d)).

Definition reconcile_cursor (e : ErrorsDb) (partition : bytes) : option (bytes * Z) :=
  '(highest_key, updated_at) ← reconcile_cursors (conn e) !! partition; Some (highest_key, from_sql_i64 updated_at).

(** ** Grouping *)

Record UngroupedOccurrence := mkUngrouped {
  u_fold_seq : Z;
  u_app_identity_sha256 : bytes;
  u_event_id : bytes;
  u_occurred_at : Z;
  u_received_at : Z;
  u_canonical : bytes;
}.

Record GroupedOccurrence := mkGroupedOcc {
  issue_id : bytes;
  fingerprint_version : Z;
  fingerprint_digest : bytes;
  grouping_quality : Z;
  title : bytes;
  severity : Z;
}.

Record GroupingReport := mkGReport {
  issues_created : Z;
  issues_updated : Z;
  occurrences_grouped : Z;
  duplicate_skipped : Z;
  failures : Z;
  scanned : Z;
  drained : bool;
}.

Definition no_report : GroupingReport := mkGReport 0 0 0 0 0 0 false.

Definition report_absorb (r page : GroupingReport) : GroupingReport :=
  mkGReport (issues_created r + issues_created page) (issues_updated r + issues_updated page)
    (occurrences_grouped r + occurrences_grouped page) (duplicate_skipped r + duplicate_skipped page)
    (failures r + failures page) (scanned r + scanned page) (drained page).

Record PendingIssue := mkPending {
  p_app_id : bytes;
  p_app_identity_sha256 : bytes;
  p_fingerprint_version : Z;
  p_fingerprint_digest : bytes;
  p_grouping_quality : Z;
  p_title : bytes;
  p_first_seen : Z;
  p_latest_sort_at : Z;
  p_latest_event_id : bytes;
  p_max_severity : Z;
  p_occurrences : Z;
}.

Definition grouping_cursor (t : Grouped) (generation : bytes) : Z := default 0 (grouping_cursors t !! generation).

(** [SQL_UNGROUPED_PAGE]; a negative [LIMIT] is none. *)
Definition ungrouped_page (t : Folded) (cursor limit : Z) : list (Identity * OccurrenceCols) :=
  let rows := sort_by_key (fun r : Identity * OccurrenceCols => o_fold_seq (snd r))
                (List.filter (fun r => cursor <? o_fold_seq (snd r)) (map_to_list (occurrences t))) in
  if as_i64 limit <? 0 then rows else take (Z.to_nat (as_i64 limit)) rows.

Definition fixed (n : Z) (l : bytes) (field : string) : result SqliteError bytes :=
  if zlen l =? n then Ok l else Err (InvalidLength field n (zlen l)).

Definition new_pending (app_id : bytes) (u : UngroupedOccurrence) (g : GroupedOccurrence) (sort_at : Z) : PendingIssue :=
  mkPending app_id (u_app_identity_sha256 u) (fingerprint_version g) (fingerprint_digest g) (grouping_quality g) (title g)
    sort_at sort_at (u_event_id u) (severity g) 1.

Definition add_pending (issue : PendingIssue) (u : UngroupedOccurrence) (g : GroupedOccurrence) (sort_at : Z) : PendingIssue :=
  let later := cmp_ltb (p_latest_sort_at issue, p_latest_event_id issue) (sort_at, u_event_id u) in
  mkPending (p_app_id issue) (p_app_identity_sha256 issue) (p_fingerprint_version issue) (p_fingerprint_digest issue)
    (p_grouping_quality issue) (p_title issue) (Z.min (p_first_seen issue) sort_at)
    (if later then sort_at else p_latest_sort_at issue) (if later then u_event_id u else p_latest_event_id issue)
    (Z.max (p_max_severity issue) (severity g)) (p_occurrences issue + 1).

(** The tables, the pending issues of the page and the report. *)
Definition PageState : Type := Grouped * gmap bytes PendingIssue * GroupingReport.

Definition sort_time (u : UngroupedOccurrence) : Z :=
  to_sql_i64 (clamped_occurrence_time (u_occurred_at u) (u_received_at u)).

Definition map_occurrence (dep generation app_id : bytes) (u : UngroupedOccurrence) (g : GroupedOccurrence) (st : PageState) : PageState :=
  let '(t, pending, r) := st in
  let sort_at := sort_time u in
  let key := (mkIdentity dep app_id (u_app_identity_sha256 u) (u_event_id u), generation) in
  match occurrence_issues t !! key with
  | Some _ =>
      (t, pending, mkGReport (issues_created r) (issues_updated r) (occurrences_grouped r) (duplicate_skipped r + 1)
                     (failures r) (scanned r) (drained r))
  | None =>
      let row := mkMCols (issue_id g) (fingerprint_version g) (fingerprint_digest g) sort_at in
      let t := mkGrouped (active t) (issues t) (<[key := row]> (occurrence_issues t)) (grouping_cursors t) (grouping_failures t) in
      let issue := match pending !! issue_id g with
                   | Some issue => add_pending issue u g sort_at
                   | None => new_pending app_id u g sort_at
                   end in
      (t, <[issue_id g := issue]> pending,
       mkGReport (issues_created r) (issues_updated r) (occurrences_grouped r + 1) (duplicate_skipped r)
         (failures r) (scanned r) (drained r))
  end.

(** [let mut cut = ..; while !reason.is_char_boundary(cut) { cut -= 1 }]. *)
Definition cut_reason (reason : bytes) : bytes :=
  take (title_cut_loop reason (Z.to_nat (Z.min (zlen reason) MAX_FAILURE_REASON_BYTES))) reason.

Definition record_failure (generation app_id : bytes) (u : UngroupedOccurrence) (reason : bytes) (t : Grouped) : Grouped :=
  match grouping_failures t !! (generation, u_fold_seq u) with
  | Some _ => t
  | None =>
      mkGrouped (active t) (issues t) (occurrence_issues t) (grouping_cursors t)
        (<[(generation, u_fold_seq u) := mkFCols app_id (u_app_identity_sha256 u) (u_event_id u) (cut_reason reason)]>
           (grouping_failures t))
  end.

Context (group : UngroupedOccurrence -> result bytes GroupedOccurrence).

Definition ungrouped (identity event_id : bytes) (o : OccurrenceCols) : UngroupedOccurrence :=
  mkUngrouped (o_fold_seq o) identity event_id (from_sql_i64 (o_occurred_at o)) (from_sql_i64 (o_received_at o)) (o_canonical o).

(** The loop over the rows of the page; also the last sequence number seen. *)
Fixpoint group_rows (dep generation : bytes) (rows : list (Identity * OccurrenceCols)) (last_seq : Z) (st : PageState)
    : result SqliteError (Z * PageState) :=
  match rows with
  | [] => Ok (last_seq, st)
  | (i, o) :: rows =>
      let? app_id := fixed 16 (i_app_id i) "occurrences.app_id" in
      let? identity := fixed 32 (i_app_identity_sha256 i) "occurrences.app_identity_sha256" in
      let? event := fixed 16 (i_event_id i) "occurrences.event_id" in
      let u := ungrouped identity event o in
      let '(t, pending, r) :=
        match group u with
        | Ok g => map_occurrence dep generation app_id u g st
        | Err reason =>
            let '(t, pending, r) := st in
            (record_failure generation app_id u reason t, pending,
             mkGReport (issues_created r) (issues_updated r) (occurrences_grouped r) (duplicate_skipped r)
               (failures r + 1) (scanned r) (drained r))
        end in
      group_rows dep generation rows (o_fold_seq o)
        (t, pending, mkGReport (issues_created r) (issues_updated r) (occurrences_grouped r) (duplicate_skipped r)
                       (failures r) (scanned r + 1) (drained r))
  end.

Definition new_issue (generation : bytes) (p : PendingIssue) : IssueCols :=
  mkICols generation (p_app_id p) (p_app_identity_sha256 p) (p_fingerprint_version p) (p_fingerprint_digest p)
    (p_grouping_quality p) (p_title p) (p_first_seen p) (p_latest_sort_at p) (p_occurrences p) (p_max_severity p)
    (p_latest_event_id p).

(** [ON CONFLICT .. DO UPDATE], where [excluded] is the new row. *)
Definition merge_issue (i : IssueCols) (p : PendingIssue) : IssueCols :=
  let later := cmp_ltb (n_last_seen i, n_latest_event_id i) (p_latest_sort_at p, p_latest_event_id p) in
  mkICols (n_generation i) (n_app_id i) (n_app_identity_sha256 i) (n_fingerprint_version i) (n_fingerprint_digest i)
    (n_grouping_quality i) (n_title i) (Z.min (n_first_seen i) (p_first_seen p)) (Z.max (n_last_seen i) (p_latest_sort_at p))
    (n_occurrence_count i + p_occurrences p) (Z.max (n_max_severity i) (p_max_severity p))
    (if later then p_latest_event_id p else n_latest_event_id i).

Definition upsert_issue (dep generation : bytes) (id : bytes) (p : PendingIssue) (t : Grouped) (r : GroupingReport)
    : result SqliteError (Grouped * GroupingReport) :=
  let put row := mkGrouped (active t) (<[(dep, id) := row]> (issues t)) (occurrence_issues t) (grouping_cursors t) (grouping_failures t) in
  let count row :=
    let created := if n_occurrence_count row =? p_occurrences p then 1 else 0 in
    mkGReport (issues_created r + created) (issues_updated r + (1 - created)) (occurrences_grouped r) (duplicate_skipped r)
      (failures r) (scanned r) (drained r) in
  match issues t !! (dep, id) with
  | None => Ok (put (new_issue generation p), count (new_issue generation p))
  | Some i =>
      if bool_decide (n_generation i = generation) then Ok (put (merge_issue i p), count (merge_issue i p))
      else Err (GenerationConflict (n_generation i) generation)
  end.

(** [pending.drain()], in the order the hash map has. *)
Fixpoint upsert_issues (dep generation : bytes) (l : list (bytes * PendingIssue)) (t : Grouped) (r : GroupingReport)
    : result SqliteError (Grouped * GroupingReport) :=
  match l with
  | [] => Ok (t, r)
  | (id, p) :: l => let? '(t, r) := upsert_issue dep generation id p t r in upsert_issues dep generation l t r
  end.

Context (drain : gmap bytes PendingIssue -> list (bytes * PendingIssue)).

Definition advance_cursor (generation : bytes) (cursor last_seq : Z) (t : Grouped) : Grouped :=
  if last_seq =? cursor then t
  else mkGrouped (active t) (issues t) (occurrence_issues t) (<[generation := last_seq]> (grouping_cursors t)) (grouping_failures t).

Definition activate (generation : bytes) (drained : bool) (t : Grouped) : Grouped :=
  if negb (bool_decide (active t = Some generation)) && (bool_decide (active t = None) || drained)
  then mkGrouped (Some generation) (issues t) (occurrence_issues t) (grouping_cursors t) (grouping_failures t)
  else t.

Definition group_page (e : ErrorsDb) (generation : bytes) (limit : Z) (fence : bool)
    : ErrorsDb * result SqliteError GroupingReport :=
  let d := conn e in
  let cursor := grouping_cursor (grouped d) generation in
  let outcome :=
    let? '(last_seq, (t, pending, r)) :=
      group_rows (deployment_id e) generation (ungrouped_page (folded d) cursor limit) cursor (grouped d, ∅, no_report) in
    let? '(t, r) := upsert_issues (deployment_id e) generation (drain pending) t r in
    let drained := (scanned r <? limit)
      || negb (existsb (fun io => last_seq <? o_fold_seq (snd io)) (map_to_list (occurrences (folded d)))) in
    let t := activate generation drained (advance_cursor generation cursor last_seq t) in
    if fence
    then Ok (t, mkGReport (issues_created r) (issues_updated r) (occurrences_grouped r) (duplicate_skipped r)
                  (failures r) (scanned r) drained)
    else Err FenceLost in
  match outcome with
  | Ok (t, r) => (with_conn e (mkDb (bound d) (reconcile_cursors d) (folded d) t), Ok r)
  | Err err => (e, Err err)
  end.
End Db.

(** ** Opening, and what readers see *)

Definition bind_deployment (d : Db) (expected : bytes) : result SqliteError Db :=
  match bound d with
  | Some actual =>
      let? _ := fixed 16 actual "metadata.deployment_id" in
      if bool_decide (actual = expected) then Ok d else Err (DeploymentMismatch expected actual)
  | None =>
      match List.filter (fun io => negb (bool_decide (i_deployment_id (fst io) = expected))) (map_to_list (occurrences (folded d))) with
      | (i, _) :: _ =>
          let? actual := fixed 16 (i_deployment_id i) "occurrences.deployment_id" in
          Err (DeploymentMismatch expected actual)
      | [] => Ok (mkDb (Some expected) (reconcile_cursors d) (folded d) (grouped d))
      end
  end.

(** [from_connection] on a database of the current schema. *)
Definition open_db (d : Db) (dep : bytes) : result SqliteError ErrorsDb :=
  let? d := bind_deployment d dep in Ok (mkErrorsDb d dep DEFAULT_MAX_ROWS_PER_TRANSACTION).

Record IssueSummary := mkSummary {
  s_issue_id : bytes;
  s_app_id : bytes;
  s_title : bytes;
  s_grouping_quality : Z;
  s_first_seen : Z;
  s_last_seen : Z;
  s_occurrence_count : Z;
  s_max_severity : Z;
  s_fingerprint_version : Z;
}.

Definition issue_from_row (id : bytes) (i : IssueCols) : IssueSummary :=
  mkSummary (hyphenated id) (hyphenated (n_app_id i)) (n_title i) (n_grouping_quality i mod 2 ^ 8)
    (from_sql_i64 (n_first_seen i)) (from_sql_i64 (n_last_seen i)) (n_occurrence_count i)
    (n_max_severity i) (n_fingerprint_version i mod 2 ^ 16).

(** [ORDER BY last_seen_unix_nano DESC, issue_id LIMIT]. *)
Definition list_issues (e : ErrorsDb) (limit : Z) : list IssueSummary :=
  match active (grouped (conn e)) with
  | None => []
  | Some generation =>
      let rows := List.filter (fun r : bytes * bytes * IssueCols =>
                     bool_decide (fst (fst r) = deployment_id e) && bool_decide (n_generation (snd r) = generation))
                    (map_to_list (issues (grouped (conn e)))) in
      let rows := sort_by_key (fun r => (- n_last_seen (snd r), snd (fst r))) rows in
      map (fun r => issue_from_row (snd (fst r)) (snd r)) (take (Z.to_nat (Z.min limit MAX_ISSUE_PAGE_ROWS)) rows)
  end.

Definition get_issue (e : ErrorsDb) (id : bytes) : option IssueSummary :=
  issue_from_row id <$> issues (grouped (conn e)) !! (deployment_id e, id).

Record OccurrenceSummary := mkOSummary { os_event_id : bytes; os_occurred_at : Z; os_trace_id : option bytes; os_span_id : option bytes }.

(** [ORDER BY sort_at_unix_nano DESC, event_id DESC LIMIT] over the join of the mapping
    with the occurrences. *)
Definition list_occurrences_for_issue (e : ErrorsDb) (id : bytes) (limit : Z) : list OccurrenceSummary :=
  let rows := omap (fun r : Identity * bytes * MappingCols =>
                let '((i, _), m) := r in
                if bool_decide (i_deployment_id i = deployment_id e) && bool_decide (g_issue_id m = id)
                then o ← occurrences (folded (conn e)) !! i; Some (i, m, o) else None)
               (map_to_list (occurrence_issues (grouped (conn e)))) in
  let rows := rev (sort_by_key (fun r : Identity * MappingCols * OccurrenceCols => (g_sort_at (snd (fst r)), i_event_id (fst (fst r)))) rows) in
  map (fun r : Identity * MappingCols * OccurrenceCols =>
         mkOSummary (hyphenated (i_event_id (fst (fst r)))) (from_sql_i64 (o_occurred_at (snd r)))
           (hex_bytes <$> o_trace_id (snd r)) (hex_bytes <$> o_span_id (snd r)))
    (take (Z.to_nat (Z.min limit MAX_ISSUE_PAGE_ROWS)) rows).

(** Cursor, head and failures of a generation. *)
Definition grouping_progress (e : ErrorsDb) (generation : bytes) : Z * Z * Z :=
  (grouping_cursor (grouped (conn e)) generation, head_seq (folded (conn e)),
   zlen (List.filter (fun r : bytes * Z * FailureCols => bool_decide (fst (fst r) = generation)) (map_to_list (grouping_failures (grouped (conn e)))))).

(** ** The grouping of the engine ([crates/errors/src/engine.rs]) *)

Section Engine.
  (** [display] prints a decoding error. *)
  Context (sha256 : bytes -> bytes) (find_iter : bytes -> list (nat * nat)) (display : DecodeError -> bytes).

(** [None] where the normalisation panics; [Grouping] shows when that is excluded. *)
Definition group_occurrence (dep : bytes) (u : UngroupedOccurrence) : option (result bytes GroupedOccurrence) :=
  decoded ← decode (u_canonical u);
  match decoded with
  | Err error => Some (Err (str "OCC1 decode failed: " ++ display error))
  | Ok decoded =>
      if negb (bool_decide (Occ1.deployment_id decoded = dep))
         || negb (bool_decide (app_identity_digest decoded = u_app_identity_sha256 u))
         || negb (bool_decide (event_id decoded = u_event_id u))
      then Some (Err (str "OCC1 identity does not match its occurrence row"))
      else
        fingerprint ← fingerprint_from_decoded sha256 find_iter decoded (u_app_identity_sha256 u);
        Some (Ok (mkGroupedOcc
          (derive_issue_id sha256 dep (u_app_identity_sha256 u) (version fingerprint) (f_digest fingerprint))
          (version fingerprint) (f_digest fingerprint) (quality_code (quality fingerprint)) (Grouping.title fingerprint)
          (d_severity_number decoded)))
  end.
End Engine.

(** The grouping phase of a pass: pages until the backlog is drained or the budget of
    rows or of time is spent.  [fence] and [out_of_time] are the lease and the clock
    at each page; [None] is out of fuel. *)
Section Backlog.
  Context (group : UngroupedOccurrence -> result bytes GroupedOccurrence) (drain : gmap bytes PendingIssue -> list (bytes * PendingIssue)).
  Context (generation : bytes) (page_rows max_rows : Z) (fence out_of_time : nat -> bool).

Fixpoint group_backlog (fuel page : nat) (e : ErrorsDb) (report : GroupingReport) : option (ErrorsDb * result SqliteError GroupingReport) :=
  match fuel with
  | O => None
  | S fuel =>
      match group_page group drain e generation page_rows (fence page) with
      | (e, Err err) => Some (e, Err err)
      | (e, Ok r) =>
          let report := report_absorb report r in
          if drained r || (max_rows <=? scanned report) || out_of_time page then Some (e, Ok report)
          else group_backlog fuel (S page) e report
      end
  end.
End Backlog.
