(* ===== verification/ErrorsDbFacts.v ===== *)
(** * Folding and grouping against an abstract log

    The database of [ErrorsDb] refines a log: the occurrences in the order in which they
    were first folded, and for every grouping generation how far into the log it has
    come.  The tables are the views of that log ([represents]), whatever the sizes of
    the pages, the lost leases and the order in which a page writes its issues. *)

From S2P Require Import Prelude Order Bytes ByteOrder Text Occ1 Occurrence Grouping ErrorsDb.
From Stdlib Require Import Sorting.Sorted.

Abbreviation Logged := (Identity * OccurrenceCols)%type.

(** ** Signed columns keep the order of the times *)

Lemma to_sql_i64_exact v : 0 <= v < 2 ^ 64 -> to_sql_i64 v = v - 2 ^ 63.
Proof.
  intros Hv. unfold to_sql_i64, as_i64.
  assert (E : Z.lxor v (2 ^ 63) = if v <? 2 ^ 63 then v + 2 ^ 63 else v - 2 ^ 63).
  { destruct (Z.ltb_spec v (2 ^ 63)).
    - assert (Z.land v (2 ^ 63) = 0) as Hl.
      { apply Z.bits_inj'. intros n Hn. rewrite Z.land_spec, Z.bits_0.
        destruct (Z.eq_dec n 63) as [->|Hne].
        - rewrite Z.testbit_eqb by lia. rewrite Z.div_small by lia. done.
        - rewrite (Z.pow2_bits_false 63 n) by lia. by rewrite andb_false_r. }
      rewrite <- (Z.add_nocarry_lxor v (2 ^ 63)) by done. done.
    - set (w := v - 2 ^ 63). replace v with (w + 2 ^ 63) by (unfold w; lia).
      assert (Z.land w (2 ^ 63) = 0) as Hl.
      { apply Z.bits_inj'. intros n Hn. rewrite Z.land_spec, Z.bits_0.
        destruct (Z.eq_dec n 63) as [->|Hne].
        - rewrite Z.testbit_eqb by lia. rewrite Z.div_small by (unfold w; lia). done.
        - rewrite (Z.pow2_bits_false 63 n) by lia. by rewrite andb_false_r. }
      rewrite (Z.add_nocarry_lxor w (2 ^ 63)) by done.
      rewrite Z.lxor_assoc, Z.lxor_nilpotent, Z.lxor_0_r. lia. }
  rewrite E. destruct (Z.ltb_spec v (2 ^ 63)).
  - replace (v + 2 ^ 63 + 2 ^ 63) with (v + 1 * 2 ^ 64) by lia. rewrite Z.mod_add, Z.mod_small by lia. lia.
  - rewrite Z.mod_small by lia. lia.
Qed.

Lemma from_to_sql_i64 v : 0 <= v < 2 ^ 64 -> from_sql_i64 (to_sql_i64 v) = v.
Proof.
  intros Hv. unfold from_sql_i64. pose proof (to_sql_i64_exact v Hv) as E. unfold to_sql_i64 in *.
  assert (as_i64 (Z.lxor v (2 ^ 63)) mod 2 ^ 64 = Z.lxor v (2 ^ 63)) as ->.
  { assert (Z.lxor v (2 ^ 63) = (as_i64 (Z.lxor v (2 ^ 63))) mod 2 ^ 64) as <-; [|done].
    unfold as_i64 in *. rewrite E.
    assert (0 <= Z.lxor v (2 ^ 63) < 2 ^ 64).
    { split; [apply Z.lxor_nonneg; lia|].
      destruct (Z.eq_dec (Z.lxor v (2 ^ 63)) 0) as [->|]; [lia|].
      apply Z.log2_lt_pow2; [|].
      - assert (0 <= Z.lxor v (2 ^ 63)) by (apply Z.lxor_nonneg; lia). lia.
      - eapply Z.le_lt_trans; [apply Z.log2_lxor; lia|].
        apply Z.max_lub_lt; [|done]. destruct (Z.eq_dec v 0) as [->|]; [done|]. apply Z.log2_lt_pow2; lia. }
    assert ((Z.lxor v (2 ^ 63) + 2 ^ 63) mod 2 ^ 64 = v) as Hm by lia.
    rewrite <- Hm at 2. rewrite Zminus_mod_idemp_l. replace (Z.lxor v (2 ^ 63) + 2 ^ 63 - 2 ^ 63) with (Z.lxor v (2 ^ 63)) by lia.
    by rewrite Z.mod_small. }
  rewrite Z.lxor_assoc, Z.lxor_nilpotent, Z.lxor_0_r. done.
Qed.

(** ** The log *)

(** Identities as [validate_row] lets them in. *)
Definition well_sized (dep : bytes) (i : Identity) : Prop :=
  i_deployment_id i = dep /\ zlen (i_app_id i) = 16 /\ zlen (i_app_identity_sha256 i) = 32 /\ zlen (i_event_id i) = 16.

(** The log of a table: one entry per identity, numbered from one. *)
Definition logged (dep : bytes) (t : gmap Identity OccurrenceCols) (log : list Logged) : Prop :=
  t = list_to_map log /\ NoDup log.*1 /\ Forall (fun io => well_sized dep io.1) log /\
  forall n io, log !! n = Some io -> o_fold_seq io.2 = Z.of_nat n + 1.

Lemma logged_lookup dep t log i o : logged dep t log -> t !! i = Some o <-> (i, o) ∈ log.
Proof. intros (-> & Hn & _ & _). symmetry. by apply elem_of_list_to_map. Qed.

Lemma logged_bound dep t log io : logged dep t log -> io ∈ log -> 1 <= o_fold_seq io.2 <= zlen log.
Proof.
  intros (_ & _ & _ & Hs) [n Hn]%list_elem_of_lookup. rewrite (Hs n io Hn).
  apply lookup_lt_Some in Hn. unfold zlen. lia.
Qed.

Lemma map_fold_max_le (t : gmap Identity OccurrenceCols) b :
  0 <= b -> (forall i o, t !! i = Some o -> o_fold_seq o <= b) ->
  map_fold (fun _ o acc => Z.max (o_fold_seq o) acc) 0 t <= b.
Proof.
  intros Hb. induction t as [|i o m Hm Hf IH] using map_first_key_ind; intros H.
  - by rewrite map_fold_empty.
  - rewrite map_fold_insert_first_key by done. apply Z.max_lub; [apply (H i); by rewrite lookup_insert_eq|].
    apply IH. intros j o' Hj. apply (H j). rewrite lookup_insert_ne; [done|]. intros ->. congruence.
Qed.

Lemma map_fold_max_ge (t : gmap Identity OccurrenceCols) i o :
  t !! i = Some o -> o_fold_seq o <= map_fold (fun _ o acc => Z.max (o_fold_seq o) acc) 0 t.
Proof.
  induction t as [|j p m Hm Hf IH] using map_first_key_ind; [by rewrite lookup_empty|].
  rewrite map_fold_insert_first_key by done. rewrite lookup_insert_Some. intros [[-> ->]|[Hne Hi]]; [lia|].
  specialize (IH Hi). lia.
Qed.

Lemma head_seq_logged dep t log : logged dep (occurrences t) log -> head_seq t = zlen log.
Proof.
  intros H. unfold head_seq. apply Z.le_antisymm.
  - apply map_fold_max_le; [apply zlen_nonneg|]. intros i o Hi. apply (logged_bound dep _ log (i, o) H).
    by apply (logged_lookup dep _ _ _ _ H).
  - destruct log as [|x log _] using rev_ind; [destruct H as [-> _]; cbn [list_to_map foldr]; by rewrite map_fold_empty|].
    destruct x as [i o]. pose proof H as (_ & _ & _ & Hs).
    specialize (Hs (length log) (i, o)). rewrite zlen_app. unfold zlen at 2. cbn [length].
    etransitivity; [|apply (map_fold_max_ge _ i o)].
    + cbn [snd] in Hs. rewrite Hs; [unfold zlen; lia|]. by apply list_lookup_middle.
    + apply (logged_lookup dep _ _ _ _ H). apply elem_of_app. right. by apply list_elem_of_singleton.
Qed.

Lemma Permutation_List_filter {A} (f : A -> bool) (l1 l2 : list A) :
  Permutation l1 l2 -> Permutation (List.filter f l1) (List.filter f l2).
Proof.
  induction 1 as [|x l1 l2 _ IH|x y l|l1 l2 l3 _ IH1 _ IH2]; cbn [List.filter].
  - done.
  - by destruct (f x); rewrite IH.
  - destruct (f x), (f y); [apply perm_swap|done..].
  - by rewrite IH1.
Qed.

(** Entries numbered from [base]. *)
Definition numbered (base : nat) (log : list Logged) : Prop :=
  forall n io, log !! n = Some io -> o_fold_seq io.2 = Z.of_nat (base + n) + 1.

Lemma numbered_cons base io log : numbered base (io :: log) -> o_fold_seq io.2 = Z.of_nat base + 1 /\ numbered (S base) log.
Proof.
  intros H. split; [rewrite (H 0%nat io eq_refl); lia|]. intros n io' Hn. rewrite (H (S n) io' Hn). lia.
Qed.

Lemma filter_numbered c base log : numbered base log ->
  List.filter (fun r : Logged => Z.of_nat c <? o_fold_seq r.2) log = drop (c - base) log.
Proof.
  revert base. induction log as [|io log IH]; intros base H; cbn [List.filter]; [by rewrite drop_nil|].
  apply numbered_cons in H as [E H]. rewrite E, (IH _ H).
  destruct (Z.ltb_spec (Z.of_nat c) (Z.of_nat base + 1)).
  - replace (c - base)%nat with 0%nat by lia. replace (c - S base)%nat with 0%nat by lia. done.
  - replace (c - base)%nat with (S (c - S base)) by lia. done.
Qed.

Lemma numbered_sorted base log : numbered base log ->
  StronglySorted (fun x y : Logged => cmp_leb (o_fold_seq x.2) (o_fold_seq y.2) = true) log.
Proof.
  revert base. induction log as [|io log IH]; intros base H; constructor.
  - apply numbered_cons in H as [_ H]. by eapply IH.
  - apply numbered_cons in H as [E H]. apply List.Forall_forall. intros x Hx%list_elem_of_In.
    apply list_elem_of_lookup in Hx as [n Hn]. rewrite E, (H n x Hn). unfold cmp_leb. cbn [cmp Z_Ord].
    destruct (Z.compare_spec (Z.of_nat base + 1) (Z.of_nat (S base + n) + 1)); try done. lia.
Qed.

Lemma numbered_drop c base log : numbered base log -> numbered (base + c) (drop c log).
Proof. intros H n io. rewrite lookup_drop. intros E. rewrite (H _ _ E). lia. Qed.

Lemma numbered_inj base log x y : numbered base log -> In x log -> In y log -> o_fold_seq x.2 = o_fold_seq y.2 -> x = y.
Proof.
  intros H [n Hn]%list_elem_of_In%list_elem_of_lookup [m Hm]%list_elem_of_In%list_elem_of_lookup E.
  rewrite (H _ _ Hn), (H _ _ Hm) in E. assert (n = m) as -> by lia. congruence.
Qed.

(** A page of the log. *)
Definition log_page (c : nat) (limit : Z) (log : list Logged) : list Logged :=
  if as_i64 limit <? 0 then drop c log else take (Z.to_nat (as_i64 limit)) (drop c log).

Lemma ungrouped_page_logged dep t log c limit : logged dep (occurrences t) log ->
  ungrouped_page t (Z.of_nat c) limit = log_page c limit log.
Proof.
  intros (Heq & Hnd & _ & Hs). assert (Hnum : numbered 0 log) by exact Hs. unfold ungrouped_page, log_page.
  assert (sort_by_key (fun r : Identity * OccurrenceCols => o_fold_seq (snd r))
            (List.filter (fun r => Z.of_nat c <? o_fold_seq (snd r)) (map_to_list (occurrences t))) = drop c log) as ->; [|done].
  assert (Hp : Permutation (List.filter (fun r => Z.of_nat c <? o_fold_seq (snd r)) (map_to_list (occurrences t))) (drop c log)).
  { rewrite Heq, <- (Nat.sub_0_r c), <- (filter_numbered c 0 log Hnum), Nat.sub_0_r. apply Permutation_List_filter.
    by apply map_to_list_to_map. }
  apply (StronglySorted_unique (fun x y : Logged => cmp_leb (o_fold_seq x.2) (o_fold_seq y.2))).
  - intros x y Hx Hy H1 H2. rewrite sort_by_key_In in Hx, Hy.
    apply (Permutation_in _ Hp) in Hx, Hy. eapply (numbered_inj _ (drop c log)); [by apply numbered_drop|done..|].
    by apply cmp_leb_antisym.
  - apply (sort_by_key_sorted (fun r : Identity * OccurrenceCols => o_fold_seq (snd r))).
  - eapply numbered_sorted, numbered_drop, Hnum.
  - by rewrite sort_by_key_perm.
Qed.

(** ** Folding appends to the log *)

Section Fold.
  Context (sha256 : bytes -> bytes) (dep : bytes).

(** A row has its place: its bytes are the occurrence's, or the collision is on record. *)
Definition kept (t : Folded) (row : OccurrenceRow) : Prop :=
  exists o, occurrences t !! identity row = Some o /\
    ((o_canonical_sha256 o = r_canonical_sha256 row /\ o_canonical o = r_canonical row) \/
     is_Some (occurrence_collisions t !! collision_id sha256 (mirror row o))).

(** Nothing that is recorded goes away. *)
Definition grows (t t' : Folded) : Prop :=
  occurrences t ⊆ occurrences t' /\ (forall id, is_Some (occurrence_collisions t !! id) -> is_Some (occurrence_collisions t' !! id)).

#[local] Instance grows_preorder : PreOrder grows.
Proof.
  split.
  - by intros t.
  - intros a b c [H1 H2] [H3 H4]. split; [by etransitivity|auto].
Qed.

Lemma kept_grows t t' row : grows t t' -> kept t row -> kept t' row.
Proof.
  intros [Ho Hc] (o & Hl & H). exists o. split; [by eapply lookup_weaken|]. destruct H as [H|H]; [by left|right; by apply Hc].
Qed.

Lemma logged_snoc t log i o : logged dep t log -> t !! i = None -> well_sized dep i -> o_fold_seq o = zlen log + 1 ->
  logged dep (<[i := o]> t) (log ++ [(i, o)]).
Proof.
  intros H Hi Hw Ho. pose proof H as (Heq & Hnd & Hf & Hs).
  assert (Hnot : i ∉ log.*1).
  { intros Hin. apply list_elem_of_fmap in Hin as ([j p] & -> & Hin). apply (logged_lookup dep t log j p H) in Hin. cbn in Hi. congruence. }
  split_and!.
  - rewrite Heq, list_to_map_app. cbn [list_to_map foldr]. rewrite <- insert_union_r; [by rewrite map_union_empty|].
    by rewrite <- Heq.
  - rewrite fmap_app. apply NoDup_app. split_and!; [done| |by apply NoDup_singleton].
    intros x Hx Hx'. cbn in Hx'. apply list_elem_of_singleton in Hx' as ->. done.
  - apply Forall_app. split; [done|]. by constructor.
  - intros n io. rewrite lookup_app_Some. intros [Hn|[Hlen Hn]]; [by apply Hs|].
    destruct (n - length log)%nat as [|k] eqn:E; [|done]. injection Hn as <-. cbn [snd]. rewrite Ho. unfold zlen. lia.
Qed.

Lemma fold_row_logs key t next r row t' next' r' log :
  logged dep (occurrences t) log -> next = zlen log + 1 -> well_sized dep (identity row) ->
  fold_row sha256 key (t, next, r) row = (t', next', r') ->
  exists added, logged dep (occurrences t') (log ++ added) /\ next' = zlen (log ++ added) + 1 /\
    grows t t' /\ kept t' row /\ projection_commits t' = projection_commits t /\ source_coverage t' = source_coverage t.
Proof.
  intros Hlog -> Hw. unfold fold_row. destruct (occurrences t !! identity row) as [o|] eqn:Ho.
  - destruct (bool_decide _ && bool_decide _) eqn:E; intros [= <- <- <-]; exists []; rewrite app_nil_r.
    + apply andb_true_iff in E as [E1%bool_decide_eq_true E2%bool_decide_eq_true].
      split_and!; try done. exists o. split; [done|by left].
    + split_and!; try done; [split; [done|]|exists o; split; [done|right]]; cbn [occurrence_collisions].
      * intros id Hid. destruct (occurrence_collisions t !! collision_id _ _) eqn:Ec; [done|].
        destruct (decide (id = collision_id sha256 (mirror row o))) as [->|]; [by rewrite lookup_insert_eq|by rewrite lookup_insert_ne].
      * destruct (occurrence_collisions t !! collision_id _ _) eqn:Ec; [by rewrite Ec|by rewrite lookup_insert_eq].
  - intros [= <- <- <-]. exists [(identity row, columns key row (zlen log + 1))]. cbn [occurrences]. split_and!; try done.
    + by apply logged_snoc.
    + rewrite zlen_app. unfold zlen at 3. cbn. lia.
    + split; [by apply insert_subseteq|done].
    + exists (columns key row (zlen log + 1)). cbn [occurrences]. rewrite lookup_insert_eq. split; [done|by left].
Qed.

Lemma fold_rows_log key rows : forall t next r t' next' r' log,
  logged dep (occurrences t) log -> next = zlen log + 1 -> Forall (fun row => well_sized dep (identity row)) rows ->
  fold_left (fold_row sha256 key) rows (t, next, r) = (t', next', r') ->
  exists added, logged dep (occurrences t') (log ++ added) /\ grows t t' /\ Forall (kept t') rows /\
    projection_commits t' = projection_commits t /\ source_coverage t' = source_coverage t.
Proof.
  induction rows as [|row rows IH]; intros t next r t' next' r' log Hlog Hn Hw; cbn [fold_left].
  - intros [= <- <- <-]. exists []. rewrite app_nil_r. by split_and!.
  - apply Forall_cons in Hw as [Hw Hws]. destruct (fold_row sha256 key (t, next, r) row) as [[t1 n1] r1] eqn:E.
    destruct (fold_row_logs _ _ _ _ _ _ _ _ _ Hlog Hn Hw E) as (a1 & H1 & Hn1 & G1 & K1 & P1 & C1).
    intros Hf. destruct (IH _ _ _ _ _ _ _ H1 Hn1 Hws Hf) as (a2 & H2 & G2 & K2 & P2 & C2).
    exists (a1 ++ a2). rewrite app_assoc. split_and!; [done|by etransitivity| |congruence|congruence].
    constructor; [by eapply kept_grows|done].
Qed.

Lemma check_length_ok field l n u : check_length field l n = Ok u -> zlen l = n.
Proof. unfold check_length. destruct (Z.eqb_spec (zlen l) n); done. Qed.

Lemma validate_row_ok row u : validate_row row dep = Ok u -> well_sized dep (identity row).
Proof.
  unfold validate_row, result_bind. repeat (case_match; try done). intros _.
  repeat match goal with H : check_length _ _ _ = Ok _ |- _ => apply check_length_ok in H end.
  match goal with H : bool_decide _ = true |- _ => apply bool_decide_eq_true in H as Hd end.
  unfold well_sized, identity. cbn. by split_and!.
Qed.

Lemma validate_rows_ok e len rows u : deployment_id e = dep -> validate_rows e len rows = Ok u ->
  Forall (fun row => well_sized dep (identity row)) rows.
Proof.
  intros Hd. revert len. induction rows as [|row rows IH]; intros len; cbn [validate_rows]; [by constructor|].
  destruct (_ =? _); [done|]. rewrite Hd. destruct (validate_row row dep) as [v|] eqn:E; [|done]. cbn [result_bind].
  intros H. constructor; [by eapply validate_row_ok|by eapply IH].
Qed.

Lemma ensure_commit_ok key commit json t t' : ensure_commit key commit json t = Ok t' ->
  occurrences t' = occurrences t /\ occurrence_collisions t' = occurrence_collisions t /\
  source_coverage t' = source_coverage t /\ projection_commits t ⊆ projection_commits t' /\
  exists c, projection_commits t' !! key = Some c /\ cc_commit_json c = json.
Proof.
  unfold ensure_commit. destruct (projection_commits t !! key) as [c|] eqn:E.
  - case_bool_decide; [|done]. intros [= <-]. split_and!; try done. by exists c.
  - destruct (negb _); [done|]. intros [= <-]. cbn. split_and!; try done; [by apply insert_subseteq|].
    eexists. by rewrite lookup_insert_eq.
Qed.

(** A fold that commits appends to the log, keeps everything and has a place for every
    row; one that fails changes nothing. *)
Lemma fold_committed_logs e date key commit json rows hint fence e' res log :
  deployment_id e = dep -> logged dep (occurrences (folded (conn e))) log ->
  fold_committed sha256 e date key commit json rows hint fence = (e', res) ->
  match res with
  | Err _ => e' = e
  | Ok _ =>
      fence = true /\ deployment_id e' = dep /\ max_rows_per_transaction e' = max_rows_per_transaction e /\
      grouped (conn e') = grouped (conn e) /\ bound (conn e') = bound (conn e) /\
      reconcile_cursors (conn e') = reconcile_cursors (conn e) /\
      (exists added, logged dep (occurrences (folded (conn e'))) (log ++ added)) /\
      grows (folded (conn e)) (folded (conn e')) /\ Forall (kept (folded (conn e'))) rows /\
      has_projection_commit e' key = true /\
      is_source_covered e' (k_source_log_block_uuid commit) (k_extractor_generation commit) = true
  end.
Proof.
  intros Hd Hlog. unfold fold_committed.
  destruct (occurrence_keys _ _ _) as [keys|]; [|by intros [= <- <-]].
  destruct (negb _ || negb _); [by intros [= <- <-]|]. cbv zeta.
  destruct ((_ <? fst hint) || _); [by intros [= <- <-]|].
  destruct (validate_rows e 0 rows) as [u|] eqn:Ev; cbn [result_bind]; [|by intros [= <- <-]].
  destruct (ensure_commit key commit json (folded (conn e))) as [t|] eqn:Ec; cbn [result_bind]; [|by intros [= <- <-]].
  apply ensure_commit_ok in Ec as (Eo & Ex & Es & Ep & c & Hc & Hj).
  destruct (fold_left _ _ _) as [[t' n'] r'] eqn:Ef. destruct fence; [|by intros [= <- <-]]. intros [= <- <-].
  rewrite <- Eo in Hlog. apply (fold_rows_log key rows _ _ _ _ _ _ log) in Ef as (added & Hl & Hg & Hk & Hp & Hs).
  - cbn [with_conn conn folded grouped bound reconcile_cursors deployment_id max_rows_per_transaction cover occurrences].
    split_and!; try done.
    + by exists added.
    + destruct Hg as [G1 G2]. split; cbn [occurrences occurrence_collisions cover]; [by rewrite <- Eo|by rewrite <- Ex].
    + unfold has_projection_commit. cbn. apply bool_decide_eq_true. rewrite Hp, Hc. done.
    + unfold is_source_covered. cbn. apply bool_decide_eq_true. by rewrite lookup_insert_eq.
  - done.
  - by rewrite (head_seq_logged dep t log Hlog).
  - by eapply validate_rows_ok.
Qed.

(** ** Folding again *)

Lemma fold_row_kept key t next r row : kept t row ->
  exists r', fold_row sha256 key (t, next, r) row = (t, next, r') /\ inserted r' = inserted r.
Proof.
  intros (o & Ho & H). unfold fold_row. rewrite Ho. destruct (bool_decide _ && bool_decide _) eqn:E; [by eexists|].
  destruct H as [[E1 E2]|[c Hc]]; [by rewrite !bool_decide_eq_true_2 in E|]. rewrite Hc. destruct t. by eexists.
Qed.

Lemma fold_rows_kept key rows : forall t next r, Forall (kept t) rows ->
  exists r', fold_left (fold_row sha256 key) rows (t, next, r) = (t, next, r') /\ inserted r' = inserted r.
Proof.
  induction rows as [|row rows IH]; intros t next r H; [by eexists|]. apply Forall_cons in H as [Hk Hks]. cbn [fold_left].
  destruct (fold_row_kept key t next r row Hk) as (r1 & -> & E1). destruct (IH t next r1 Hks) as (r2 & -> & E2).
  eexists. split; [done|congruence].
Qed.

Lemma fold_committed_again e date key commit json rows hint fence e' r log :
  deployment_id e = dep -> logged dep (occurrences (folded (conn e))) log ->
  fold_committed sha256 e date key commit json rows hint fence = (e', Ok r) ->
  exists r', fold_committed sha256 e' date key commit json rows hint true = (e', Ok r') /\ inserted r' = 0.
Proof.
  intros Hd Hlog E. pose proof (fold_committed_logs _ _ _ _ _ _ _ _ _ _ _ Hd Hlog E) as (_ & Hd' & Hm & _ & _ & _ & _ & _ & Hk & _).
  revert E. unfold fold_committed.
  destruct (occurrence_keys _ _ _) as [keys|]; [|done].
  destruct (negb _ || negb _); [done|]. cbv zeta. rewrite Hm.
  destruct ((_ <? fst hint) || _); [done|].
  assert (Hv : forall n, validate_rows e' n rows = validate_rows e n rows).
  { clear -Hd Hd' Hm. induction rows as [|row rows IH]; intros n; [done|]. cbn [validate_rows]. rewrite Hm, Hd, Hd'.
    destruct (_ =? _); [done|]. destruct (validate_row row dep); [apply IH|done]. }
  rewrite Hv. destruct (validate_rows e 0 rows) as [u|] eqn:Ev; cbn [result_bind]; [|done].
  destruct (ensure_commit key commit json (folded (conn e))) as [t|] eqn:Ec; cbn [result_bind]; [|done].
  apply ensure_commit_ok in Ec as (Eo & Ex & Es & Ep & c & Hc & Hj).
  destruct (fold_left _ _ _) as [[t' n'] r1] eqn:Ef. destruct fence; [|done]. intros [= <- <-].
  rewrite <- Eo in Hlog. apply (fold_rows_log key rows _ _ _ _ _ _ log) in Ef as (_ & _ & _ & _ & Hp & _);
    [|done|by rewrite (head_seq_logged dep t log Hlog)|exact (validate_rows_ok e 0 rows u Hd Ev)].
  cbn [conn with_conn folded bound reconcile_cursors grouped] in Hk |- *.
  unfold ensure_commit. cbn [cover projection_commits]. rewrite Hp, Hc, (bool_decide_eq_true_2 _ Hj). cbn [result_bind].
  set (t1 := cover date key commit t') in *.
  destruct (fold_rows_kept key rows t1 (head_seq t1 + 1) (mkFoldReport 0 0 0) Hk) as (r' & -> & Hi).
  exists r'. split; [|done]. replace (cover date key commit t1) with t1; [done|].
  unfold t1, cover. cbn [projection_commits source_coverage occurrences occurrence_collisions]. f_equal.
  symmetry. apply insert_insert_eq.
Qed.
End Fold.
