(* ===== verification/ErrorsIssues.v ===== *)
(** * Issues are the aggregates of the grouped log

    Grouping against the log of [ErrorsDbFacts]: a page maps the next stretch of the log,
    records what could not be fingerprinted and merges one aggregate per issue; the
    issues are at all times the aggregates of the part of the log their generation has
    passed. *)

From S2P Require Import Prelude Order Bytes ByteOrder Text Occ1 Occurrence Grouping ErrorsDb ErrorsDbFacts.

(** ** Aggregates *)

(** The application, the occurrence and what grouping made of it. *)
Abbreviation Entry := (bytes * UngroupedOccurrence * GroupedOccurrence)%type.

Definition entry_sort (x : Entry) : Z := sort_time x.1.2.
Definition entry_rank (x : Entry) : Z * bytes := (entry_sort x, u_event_id x.1.2).

Definition start (x : Entry) : PendingIssue := new_pending x.1.1 x.1.2 x.2 (entry_sort x).
Definition add (p : PendingIssue) (x : Entry) : PendingIssue := add_pending p x.1.2 x.2 (entry_sort x).
Definition step (acc : option PendingIssue) (x : Entry) : option PendingIssue :=
  Some match acc with Some p => add p x | None => start x end.
Definition summary (l : list Entry) : option PendingIssue := fold_left step l None.

Lemma fold_step_Some p l : fold_left step l (Some p) = Some (fold_left add l p).
Proof. revert p. induction l as [|x l IH]; intros p; [done|]. cbn [fold_left]. apply IH. Qed.

Lemma summary_cons x l : summary (x :: l) = Some (fold_left add l (start x)).
Proof. apply fold_step_Some. Qed.

Lemma summary_app l1 l2 : summary (l1 ++ l2) = fold_left step l2 (summary l1).
Proof. apply fold_left_app. Qed.

Lemma summary_nil l : summary l = None <-> l = [].
Proof. destruct l; [done|]. rewrite summary_cons. done. Qed.

Section Later.
  Context {A : Type} `{Ord A}.

Definition later (a b : A) : A := if cmp_ltb a b then b else a.

Lemma later_assoc a b c : later (later a b) c = later a (later b c).
Proof.
  unfold later, cmp_ltb. destruct (cmp a b) eqn:E1, (cmp b c) eqn:E2; rewrite ?E1, ?E2; try done;
    try (apply cmp_eq in E1 as ->); try (apply cmp_eq in E2 as ->); rewrite ?E1, ?E2, ?cmp_refl; try done.
  - by rewrite (cmp_lt_trans _ _ _ E1 E2).
  - apply cmp_gt_lt in E1, E2. pose proof (cmp_lt_trans _ _ _ E2 E1) as E3. apply cmp_gt_lt in E3. by rewrite E3.
Qed.

Lemma later_ge_l a b : cmp_leb a (later a b) = true.
Proof. unfold later, cmp_ltb, cmp_leb. destruct (cmp a b) eqn:E; rewrite ?E, ?cmp_refl; done. Qed.

Lemma later_ge_r a b : cmp_leb b (later a b) = true.
Proof.
  unfold later, cmp_ltb, cmp_leb. destruct (cmp a b) eqn:E; rewrite ?cmp_refl; try done.
  - apply cmp_eq in E as ->. by rewrite cmp_refl.
  - apply cmp_gt_lt in E. by rewrite E.
Qed.

Lemma later_choice a b : later a b = a \/ later a b = b.
Proof. unfold later. destruct (cmp_ltb a b); auto. Qed.
End Later.

Definition p_rank (p : PendingIssue) : Z * bytes := (p_latest_sort_at p, p_latest_event_id p).
Definition n_rank (i : IssueCols) : Z * bytes := (n_last_seen i, n_latest_event_id i).

Lemma add_rank p x : p_rank (add p x) = later (p_rank p) (entry_rank x).
Proof. unfold p_rank, add, add_pending, later, entry_rank. cbn [p_latest_sort_at p_latest_event_id]. by destruct (cmp_ltb _ _). Qed.

Lemma pair_ltb_fst (a b : Z * bytes) : cmp_ltb a b = true -> a.1 <= b.1.
Proof.
  unfold cmp_ltb. cbn [cmp prod_Ord]. unfold then_with. cbn [cmp Z_Ord].
  destruct (Z.compare_spec a.1 b.1); try done; lia.
Qed.

Lemma pair_ltb_false_fst (a b : Z * bytes) : cmp_ltb a b = false -> b.1 <= a.1.
Proof.
  unfold cmp_ltb. cbn [cmp prod_Ord]. unfold then_with. cbn [cmp Z_Ord].
  destruct (Z.compare_spec a.1 b.1); try done; lia.
Qed.

Lemma merge_rank i p : n_rank (merge_issue i p) = later (n_rank i) (p_rank p).
Proof.
  unfold n_rank at 1, later, merge_issue. cbn [n_last_seen n_latest_event_id]. fold (n_rank i) (p_rank p).
  destruct (cmp_ltb (n_rank i) (p_rank p)) eqn:E.
  - apply pair_ltb_fst in E. cbn [fst n_rank p_rank] in E. by rewrite Z.max_r.
  - apply pair_ltb_false_fst in E. cbn [fst n_rank p_rank] in E. by rewrite Z.max_l.
Qed.

Lemma IssueCols_ext i j :
  (n_generation i, n_app_id i, n_app_identity_sha256 i, n_fingerprint_version i, n_fingerprint_digest i, n_grouping_quality i, n_title i)
    = (n_generation j, n_app_id j, n_app_identity_sha256 j, n_fingerprint_version j, n_fingerprint_digest j, n_grouping_quality j, n_title j) ->
  n_rank i = n_rank j -> n_first_seen i = n_first_seen j -> n_occurrence_count i = n_occurrence_count j ->
  n_max_severity i = n_max_severity j -> i = j.
Proof. destruct i, j. unfold n_rank. cbn. intros [= -> -> -> -> -> -> ->] [= -> ->] -> -> ->. done. Qed.

(** Merging a page's aggregate is adding its entries one by one. *)
Lemma merge_start gen p x : merge_issue (new_issue gen p) (start x) = new_issue gen (add p x).
Proof.
  apply IssueCols_ext; [done| |done..].
  rewrite merge_rank. change (n_rank (new_issue gen (add p x))) with (p_rank (add p x)). by rewrite add_rank.
Qed.

Lemma merge_adds gen i q q' x : merge_issue i q = new_issue gen q' -> merge_issue i (add q x) = new_issue gen (add q' x).
Proof.
  intros E. pose proof (f_equal n_rank E) as Er. rewrite merge_rank in Er.
  apply IssueCols_ext.
  - unfold merge_issue, new_issue in *. injection E as -> -> -> -> -> -> -> _ _ _ _ _. done.
  - rewrite merge_rank, add_rank, <- later_assoc, Er.
    change (n_rank (new_issue gen (add q' x))) with (p_rank (add q' x)). by rewrite add_rank.
  - pose proof (f_equal n_first_seen E) as E'. cbn in E' |- *. lia.
  - pose proof (f_equal n_occurrence_count E) as E'. cbn in E' |- *. lia.
  - pose proof (f_equal n_max_severity E) as E'. cbn in E' |- *. lia.
Qed.

Lemma merge_summary gen p x l : merge_issue (new_issue gen p) (fold_left add l (start x)) = new_issue gen (fold_left add (x :: l) p).
Proof.
  cbn [fold_left]. induction l as [|y l IH] using rev_ind; [apply merge_start|].
  rewrite !fold_left_app. cbn [fold_left]. by apply merge_adds.
Qed.

(** ** What an aggregate says *)

Definition least (v : Z) (f : Entry -> Z) (l : list Entry) : Prop := (exists y, y ∈ l /\ v = f y) /\ forall y, y ∈ l -> v <= f y.
Definition greatest {A} `{Ord A} (v : A) (f : Entry -> A) (l : list Entry) : Prop :=
  (exists y, y ∈ l /\ v = f y) /\ forall y, y ∈ l -> cmp_leb (f y) v = true.

(** The row of an issue whose occurrences are [x :: l], in the order of the log. *)
Definition is_issue_of (gen : bytes) (x : Entry) (l : list Entry) (row : IssueCols) : Prop :=
  n_generation row = gen /\ n_app_id row = x.1.1 /\ n_app_identity_sha256 row = u_app_identity_sha256 x.1.2 /\
  n_fingerprint_version row = fingerprint_version x.2 /\ n_fingerprint_digest row = fingerprint_digest x.2 /\
  n_grouping_quality row = grouping_quality x.2 /\ n_title row = title x.2 /\
  n_occurrence_count row = zlen (x :: l) /\ least (n_first_seen row) entry_sort (x :: l) /\
  greatest (n_rank row) entry_rank (x :: l) /\ greatest (n_max_severity row) (fun y => severity y.2) (x :: l).

Lemma least_snoc v f l y : least v f l -> least (Z.min v (f y)) f (l ++ [y]).
Proof.
  intros [(z & Hz & ->) Hle]. split.
  - destruct (Z.le_ge_cases (f z) (f y)); [rewrite Z.min_l by done; exists z|rewrite Z.min_r by lia; exists y]; split; try done; set_solver.
  - intros w [Hw|Hw]%elem_of_app; [specialize (Hle w Hw); lia|]. apply list_elem_of_singleton in Hw as ->. lia.
Qed.

Lemma greatest_snoc {A} `{Ord A} (v : A) f l y : greatest v f l -> greatest (later v (f y)) f (l ++ [y]).
Proof.
  intros [(z & Hz & ->) Hle]. split.
  - destruct (later_choice (f z) (f y)) as [-> | ->]; [exists z|exists y]; split; try done; set_solver.
  - intros w [Hw|Hw]%elem_of_app.
    + eapply cmp_leb_trans; [by apply Hle|apply later_ge_l].
    + apply list_elem_of_singleton in Hw as ->. apply later_ge_r.
Qed.

Lemma greatest_max (v : Z) f l y : greatest v f l -> greatest (Z.max v (f y)) f (l ++ [y]).
Proof.
  intros Hv. replace (Z.max v (f y)) with (later v (f y)); [by apply greatest_snoc|].
  unfold later, cmp_ltb. cbn [cmp Z_Ord]. destruct (Z.compare_spec v (f y)); lia.
Qed.

Lemma single_least v f (x : Entry) : v = f x -> least v f [x].
Proof. intros ->. split; [exists x; split; [set_solver|done]|]. intros y ->%list_elem_of_singleton. done. Qed.
Lemma single_greatest {A} `{Ord A} (v : A) f (x : Entry) : v = f x -> greatest v f [x].
Proof.
  intros ->. split; [exists x; split; [set_solver|done]|]. intros y ->%list_elem_of_singleton. unfold cmp_leb. by rewrite cmp_refl.
Qed.

Lemma summary_is_issue gen x l p : summary (x :: l) = Some p -> is_issue_of gen x l (new_issue gen p).
Proof.
  rewrite summary_cons. intros [= <-]. induction l as [|y l IH] using rev_ind.
  - unfold is_issue_of. split_and!; try done; [by apply single_least|by apply single_greatest|by apply single_greatest].
  - rewrite fold_left_app. cbn [fold_left]. destruct IH as (_ & H1 & H2 & H3 & H4 & H5 & H6 & Hc & Hf & Hr & Hm).
    set (q := fold_left add l (start x)) in *. unfold is_issue_of. rewrite app_comm_cons. split_and!; try done.
    + change (n_occurrence_count (new_issue gen (add q y))) with (n_occurrence_count (new_issue gen q) + 1).
      rewrite Hc, zlen_app. unfold zlen. cbn [length]. lia.
    + by apply (least_snoc _ entry_sort).
    + change (n_rank (new_issue gen (add q y))) with (p_rank (add q y)). rewrite add_rank. by apply (greatest_snoc _ entry_rank).
    + by apply (greatest_max _ (fun y => severity y.2)).
Qed.

(** ** One page *)

Definition offered (io : Logged) : UngroupedOccurrence := ungrouped (i_app_identity_sha256 io.1) (i_event_id io.1) io.2.

Section Page.
  Context (dep gen : bytes) (group : UngroupedOccurrence -> result bytes GroupedOccurrence).

Definition entry (io : Logged) : option Entry :=
  match group (offered io) with Ok g => Some (i_app_id io.1, offered io, g) | Err _ => None end.

Definition members (id : bytes) (log : list Logged) : list Entry :=
  List.filter (fun x : Entry => bool_decide (issue_id x.2 = id)) (omap entry log).

(** The mapping row of an identity, and the failure of a sequence number. *)
Fixpoint mapped (log : list Logged) (i : Identity) : option MappingCols :=
  match log with
  | [] => None
  | io :: log =>
      if bool_decide (io.1 = i) then
        match group (offered io) with
        | Ok g => Some (mkMCols (issue_id g) (fingerprint_version g) (fingerprint_digest g) (sort_time (offered io)))
        | Err _ => None
        end
      else mapped log i
  end.

Fixpoint failed (log : list Logged) (n : Z) : option FailureCols :=
  match log with
  | [] => None
  | io :: log =>
      if o_fold_seq io.2 =? n then
        match group (offered io) with
        | Ok _ => None
        | Err reason => Some (mkFCols (i_app_id io.1) (i_app_identity_sha256 io.1) (i_event_id io.1) (cut_reason reason))
        end
      else failed log n
  end.

Lemma members_app id a b : members id (a ++ b) = members id a ++ members id b.
Proof. unfold members. by rewrite omap_app, List.filter_app. Qed.

Lemma mapped_app a b i : mapped (a ++ b) i = if bool_decide (i ∈ a.*1) then mapped a i else mapped b i.
Proof.
  induction a as [|io a IH]; [done|]. rewrite <- app_comm_cons. cbn [mapped].
  destruct (bool_decide (io.1 = i)) eqn:E.
  - apply bool_decide_eq_true in E. rewrite bool_decide_eq_true_2; [done|]. rewrite fmap_cons, <- E. set_solver.
  - apply bool_decide_eq_false in E. rewrite IH. replace (bool_decide (i ∈ (io :: a).*1)) with (bool_decide (i ∈ a.*1)); [done|].
    apply bool_decide_ext. rewrite fmap_cons. set_solver.
Qed.

Lemma mapped_notin log i : i ∉ log.*1 -> mapped log i = None.
Proof.
  induction log as [|io log IH]; [done|]. cbn [mapped]. rewrite fmap_cons, not_elem_of_cons. intros [H1 H2].
  rewrite bool_decide_eq_false_2 by congruence. by apply IH.
Qed.

Lemma failed_notin log n : (forall io, io ∈ log -> o_fold_seq io.2 <> n) -> failed log n = None.
Proof.
  induction log as [|io log IH]; [done|]. intros H. cbn [failed].
  destruct (Z.eqb_spec (o_fold_seq io.2) n) as [E|_]; [by destruct (H io); [left|]|].
  apply IH. intros io' Hio. apply H. by right.
Qed.

Lemma failed_app a b n :
  failed (a ++ b) n = if existsb (fun io => o_fold_seq io.2 =? n) a then failed a n else failed b n.
Proof.
  induction a as [|io a IH]; [done|]. rewrite <- app_comm_cons. cbn [failed existsb].
  destruct (o_fold_seq io.2 =? n); [done|]. exact IH.
Qed.

Definition last_of (base : nat) (rows : list Logged) : Z := Z.of_nat (base + length rows).

(** What one page adds to the tables. *)
Definition paged (rows : list Logged) (t t' : Grouped) : Prop :=
  active t' = active t /\ issues t' = issues t /\ grouping_cursors t' = grouping_cursors t /\
  (forall i g', occurrence_issues t' !! (i, g') =
     if bool_decide (g' = gen) && bool_decide (i ∈ rows.*1) then mapped rows i else occurrence_issues t !! (i, g')) /\
  (forall g' n, grouping_failures t' !! (g', n) =
     if bool_decide (g' = gen) && existsb (fun io => o_fold_seq io.2 =? n) rows then failed rows n else grouping_failures t !! (g', n)).

Definition fresh (rows : list Logged) (t : Grouped) : Prop :=
  (forall io, io ∈ rows -> occurrence_issues t !! (io.1, gen) = None) /\
  (forall io, io ∈ rows -> grouping_failures t !! (gen, o_fold_seq io.2) = None).

Definition page_row (io : Logged) (t : Grouped) (pending : gmap bytes PendingIssue) (r : GroupingReport) : PageState :=
  let u := offered io in
  let '(t, pending, r) :=
    match group u with
    | Ok g => map_occurrence dep gen (i_app_id io.1) u g (t, pending, r)
    | Err reason =>
        (record_failure gen (i_app_id io.1) u reason t, pending,
         mkGReport (issues_created r) (issues_updated r) (occurrences_grouped r) (duplicate_skipped r)
           (failures r + 1) (scanned r) (drained r))
    end in
  (t, pending, mkGReport (issues_created r) (issues_updated r) (occurrences_grouped r) (duplicate_skipped r)
                 (failures r) (scanned r + 1) (drained r)).

Lemma group_rows_cons io rows last t pending r : well_sized dep io.1 ->
  group_rows group dep gen (io :: rows) last (t, pending, r) =
  group_rows group dep gen rows (o_fold_seq io.2) (page_row io t pending r).
Proof.
  intros (Hd & H1 & H2 & H3). destruct io as [i o]. cbn [fst snd] in *. cbn [group_rows]. unfold fixed, page_row, offered. cbn [fst snd].
  rewrite H1, H2, H3. cbn [Z.eqb Pos.eqb result_bind]. destruct (group _); [|done].
  by destruct (map_occurrence _ _ _ _ _ _) as [[? ?] ?].
Qed.

Lemma page_row_spec io rows t pending r t1 pending1 r1 :
  well_sized dep io.1 -> fresh (io :: rows) t -> io.1 ∉ rows.*1 -> (forall io', io' ∈ rows -> o_fold_seq io'.2 <> o_fold_seq io.2) ->
  page_row io t pending r = (t1, pending1, r1) ->
  paged [io] t t1 /\ fresh rows t1 /\ scanned r1 = scanned r + 1 /\
  (forall id, pending1 !! id = fold_left step (members id [io]) (pending !! id)).
Proof.
  intros (Hd & _) [Hm Hf] Hnin Hseq. unfold page_row.
  assert (Hid : mkIdentity dep (i_app_id io.1) (u_app_identity_sha256 (offered io)) (u_event_id (offered io)) = io.1).
  { destruct io as [[d a s e] o]. cbn in *. by subst. }
  destruct (group (offered io)) as [g|reason] eqn:Eg.
  - unfold map_occurrence. rewrite Hid, (Hm io) by (by left). intros [= <- <- <-].
    split_and!; cbn [scanned]; try done.
    + split_and!; try done; cbn [occurrence_issues grouping_failures].
      * intros i g'. cbn [mapped]. rewrite fmap_cons, Eg. cbn [fmap list_fmap].
        destruct (decide ((io.1, gen) = (i, g'))) as [[= <- <-]|Hne].
        -- rewrite lookup_insert_eq. rewrite !bool_decide_eq_true_2 by set_solver. done.
        -- rewrite lookup_insert_ne by done. destruct (bool_decide (g' = gen)) eqn:E; [|done]. apply bool_decide_eq_true in E as ->.
           rewrite (bool_decide_eq_false_2 (i ∈ [io.1])); [done|]. intros ->%list_elem_of_singleton. done.
      * intros g' n. cbn [existsb failed]. rewrite Eg, orb_false_r. destruct (bool_decide (g' = gen)) eqn:E; [|done].
        apply bool_decide_eq_true in E as ->. cbn [andb]. destruct (Z.eqb_spec (o_fold_seq io.2) n) as [<-|]; [|done].
        apply Hf. by left.
    + split; cbn [occurrence_issues grouping_failures]; intros io' Hio.
      * rewrite lookup_insert_ne; [apply Hm; by right|]. intros [= E]. apply Hnin. rewrite E. by apply list_elem_of_fmap_2.
      * apply Hf. by right.
    + intros id. unfold members. cbn [omap list_omap]. unfold entry. rewrite Eg. cbn [List.filter snd].
      case_bool_decide as E.
      * subst id. rewrite lookup_insert_eq. cbn [fold_left]. unfold step. by destruct (pending !! issue_id g).
      * by rewrite lookup_insert_ne.
  - unfold record_failure. change (u_fold_seq (offered io)) with (o_fold_seq io.2). rewrite (Hf io) by (by left).
    intros [= <- <- <-]. split_and!; cbn [scanned]; try done.
    + split_and!; try done; cbn [occurrence_issues grouping_failures].
      * intros i g'. cbn [mapped]. rewrite Eg. destruct (bool_decide (g' = gen)) eqn:E; [|done]. apply bool_decide_eq_true in E as ->.
        cbn [andb]. rewrite fmap_cons. destruct (decide (i = io.1)) as [->|Hne].
        -- rewrite !bool_decide_eq_true_2 by set_solver. apply Hm. by left.
        -- rewrite (bool_decide_eq_false_2 (i ∈ _)); [done|]. cbn. intros ->%list_elem_of_singleton. done.
      * intros g' n. cbn [existsb failed]. rewrite Eg, orb_false_r. destruct (bool_decide (g' = gen)) eqn:E; cbn [andb].
        -- apply bool_decide_eq_true in E as ->. destruct (Z.eqb_spec (o_fold_seq io.2) n) as [<-|Hne].
           ++ by rewrite lookup_insert_eq.
           ++ rewrite lookup_insert_ne; [done|]. congruence.
        -- apply bool_decide_eq_false in E. rewrite lookup_insert_ne; [done|]. congruence.
    + split; cbn [occurrence_issues grouping_failures]; intros io' Hio; [apply Hm; by right|].
      rewrite lookup_insert_ne; [apply Hf; by right|]. intros [= E]. by apply (Hseq io' Hio).
    + intros id. unfold members. cbn [omap list_omap]. unfold entry. by rewrite Eg.
Qed.

Lemma paged_cons io rows t t1 t2 : io.1 ∉ rows.*1 -> (forall io', io' ∈ rows -> o_fold_seq io'.2 <> o_fold_seq io.2) ->
  paged [io] t t1 -> paged rows t1 t2 -> paged (io :: rows) t t2.
Proof.
  intros Hnin Hseq (A1 & I1 & C1 & M1 & F1) (A2 & I2 & C2 & M2 & F2). split_and!; [congruence..| |].
  - intros i g'. rewrite M2, M1, fmap_cons. destruct (bool_decide (g' = gen)); cbn [andb]; [|done]. cbn [mapped fmap list_fmap].
    destruct (decide (i = io.1)) as [->|Hne].
    + rewrite (bool_decide_eq_false_2 _ Hnin), !bool_decide_eq_true_2 by set_solver. done.
    + rewrite (bool_decide_eq_false_2 (io.1 = i)) by congruence.
      rewrite (bool_decide_eq_false_2 (i ∈ [io.1])) by (intros ->%list_elem_of_singleton; done).
      replace (bool_decide (i ∈ io.1 :: rows.*1)) with (bool_decide (i ∈ rows.*1)); [done|].
      apply bool_decide_ext. set_solver.
  - intros g' n. rewrite F2, F1. destruct (bool_decide (g' = gen)); cbn [andb]; [|done]. cbn [failed existsb].
    destruct (Z.eqb_spec (o_fold_seq io.2) n) as [<-|Hne]; cbn [orb]; [|done].
    destruct (existsb (fun io' => o_fold_seq io'.2 =? o_fold_seq io.2) rows) eqn:E; [|done].
    apply existsb_exists in E as (io' & Hin%list_elem_of_In & E%Z.eqb_eq). by apply Hseq in Hin.
Qed.

Lemma numbered_distinct base io rows : numbered base (io :: rows) -> forall io', io' ∈ rows -> o_fold_seq io'.2 <> o_fold_seq io.2.
Proof.
  intros [E H]%numbered_cons io' [n Hn]%list_elem_of_lookup. rewrite E, (H n io' Hn). lia.
Qed.

Lemma group_rows_spec rows : forall base t pending r,
  numbered base rows -> NoDup rows.*1 -> Forall (fun io => well_sized dep io.1) rows -> fresh rows t ->
  exists t' pending' r',
    group_rows group dep gen rows (Z.of_nat base) (t, pending, r) = Ok (last_of base rows, (t', pending', r')) /\
    paged rows t t' /\ scanned r' = scanned r + zlen rows /\
    (forall id, pending' !! id = fold_left step (members id rows) (pending !! id)).
Proof.
  induction rows as [|io rows IH]; intros base t pending r Hnum Hnd Hw Hfr.
  - exists t, pending, r. unfold last_of, paged. cbn [length]. rewrite Nat.add_0_r. split_and!; try done.
    + intros i g'. cbn. by rewrite andb_false_r.
    + intros g' n. cbn. by rewrite andb_false_r.
    + unfold zlen. cbn. lia.
  - apply Forall_cons in Hw as [Hw Hws]. rewrite fmap_cons in Hnd. apply NoDup_cons in Hnd as [Hnin Hnd].
    rewrite group_rows_cons by done. destruct (page_row io t pending r) as [[t1 p1] r1] eqn:E1.
    pose proof (numbered_distinct _ _ _ Hnum) as Hseq.
    destruct (page_row_spec _ _ _ _ _ _ _ _ Hw Hfr Hnin Hseq E1) as (P1 & F1 & S1 & G1).
    apply numbered_cons in Hnum as [En Hnum].
    destruct (IH (S base) t1 p1 r1 Hnum Hnd Hws F1) as (t2 & p2 & r2 & E2 & P2 & S2 & G2).
    exists t2, p2, r2. rewrite En. replace (Z.of_nat base + 1) with (Z.of_nat (S base)) by lia. rewrite E2.
    unfold last_of. cbn [length]. replace (S base + length rows)%nat with (base + S (length rows))%nat by lia.
    split_and!; [done|by eapply paged_cons| |].
    + rewrite S2, S1, zlen_cons. lia.
    + intros id. rewrite G2, G1. change (io :: rows) with ([io] ++ rows). by rewrite members_app, fold_left_app.
Qed.
End Page.

(** ** Writing the issues of a page *)

Definition upserted (gen : bytes) (old : option IssueCols) (p : PendingIssue) : IssueCols :=
  match old with Some i => merge_issue i p | None => new_issue gen p end.

Definition same_but_issues (t t' : Grouped) : Prop :=
  active t' = active t /\ occurrence_issues t' = occurrence_issues t /\ grouping_cursors t' = grouping_cursors t /\
  grouping_failures t' = grouping_failures t.

Lemma upsert_issues_spec dep gen l : forall t r t' r', NoDup l.*1 ->
  upsert_issues dep gen l t r = Ok (t', r') ->
  same_but_issues t t' /\ scanned r' = scanned r /\
  forall d id, issues t' !! (d, id) =
    match (list_to_map l : gmap bytes PendingIssue) !! id with
    | Some p => if bool_decide (d = dep) then Some (upserted gen (issues t !! (dep, id)) p) else issues t !! (d, id)
    | None => issues t !! (d, id)
    end /\
  forall p i, (list_to_map l : gmap bytes PendingIssue) !! id = Some p -> issues t !! (dep, id) = Some i -> n_generation i = gen.
Proof.
  induction l as [|[id p] l IH]; intros t r t' r' Hnd; cbn [upsert_issues].
  { intros [= <- <-]. by split_and!. }
  rewrite fmap_cons in Hnd. apply NoDup_cons in Hnd as [Hnin Hnd]. cbn [fst] in Hnin.
  destruct (upsert_issue dep gen id p t r) as [[t1 r1]|] eqn:E; [|done]. cbn [result_bind]. intros H.
  destruct (IH _ _ _ _ Hnd H) as ((A & M & C & F) & S & G).
  assert (E1 : same_but_issues t t1 /\ scanned r1 = scanned r /\ issues t1 = <[(dep, id) := upserted gen (issues t !! (dep, id)) p]> (issues t) /\
               forall i, issues t !! (dep, id) = Some i -> n_generation i = gen).
  { unfold upsert_issue in E. destruct (issues t !! (dep, id)) as [i|] eqn:Ei.
    - case_bool_decide as Hg; [|done]. injection E as <- <-. split_and!; try done. by intros i' [= <-].
    - injection E as <- <-. by split_and!. }
  destruct E1 as ((A1 & M1 & C1 & F1) & S1 & I1 & Hgen).
  split_and!; [split_and!; congruence|congruence|]. intros d id'. cbn [list_to_map foldr].
  destruct (G d id') as [G1 G2]. destruct (decide (id' = id)) as [->|Hne].
  - rewrite lookup_insert_eq. rewrite (not_elem_of_list_to_map_1 _ _ Hnin) in G1. split.
    + rewrite G1, I1. destruct (bool_decide (d = dep)) eqn:Ed.
      * apply bool_decide_eq_true in Ed as ->. by rewrite lookup_insert_eq.
      * apply bool_decide_eq_false in Ed. rewrite lookup_insert_ne; [done|congruence].
    + intros p' i [= <-]. apply Hgen.
  - rewrite lookup_insert_ne by done. split.
    + rewrite G1, I1. assert ((dep, id) <> (d, id')) by congruence. assert ((dep, id) <> (dep, id')) by congruence.
      by rewrite !lookup_insert_ne by done.
    + intros p' i Hp Hi. apply (G2 p' i Hp). rewrite I1, lookup_insert_ne; [done|congruence].
Qed.

(** ** The database refines the log *)

Section Refines.
  Context (dep : bytes) (group : bytes -> UngroupedOccurrence -> result bytes GroupedOccurrence).

Definition done (e : ErrorsDb) (gen : bytes) : nat := Z.to_nat (grouping_cursor (grouped (conn e)) gen).

(** The part of the log that a generation has passed. *)
Definition passed (e : ErrorsDb) (log : list Logged) (gen : bytes) : list Logged := take (done e gen) log.

Record represents (e : ErrorsDb) (log : list Logged) : Prop := {
  rep_deployment : deployment_id e = dep;
  rep_log : logged dep (occurrences (folded (conn e))) log;
  rep_cursor : forall gen, 0 <= grouping_cursor (grouped (conn e)) gen <= zlen log;
  rep_mapped : forall i gen, occurrence_issues (grouped (conn e)) !! (i, gen) = mapped (group gen) (passed e log gen) i;
  rep_failed : forall gen n, grouping_failures (grouped (conn e)) !! (gen, n) = failed (group gen) (passed e log gen) n;
  rep_issue : forall id gen p, summary (members (group gen) id (passed e log gen)) = Some p ->
    issues (grouped (conn e)) !! (dep, id) = Some (new_issue gen p);
  rep_issue_inv : forall d id row, issues (grouped (conn e)) !! (d, id) = Some row ->
    d = dep /\ exists p, summary (members (group (n_generation row)) id (passed e log (n_generation row))) = Some p /\
                         row = new_issue (n_generation row) p;
}.

Lemma log_page_take c limit log :
  log_page c limit log = take (length (log_page c limit log)) (drop c log).
Proof.
  unfold log_page. destruct (as_i64 limit <? 0); [by rewrite firstn_all|].
  rewrite length_take. set (n := Z.to_nat (as_i64 limit)). destruct (Nat.le_ge_cases n (length (drop c log))).
  - by rewrite Nat.min_l.
  - rewrite Nat.min_r by done. by rewrite firstn_all, take_ge.
Qed.

(** A page is all that remains, or as long as asked for. *)
Lemma log_page_drained c limit log : (c <= length log)%nat -> 0 <= limit <= u64_max ->
  zlen (log_page c limit log) < limit -> (c + length (log_page c limit log) = length log)%nat.
Proof.
  intros Hc Hl. unfold log_page. destruct (Z.ltb_spec (as_i64 limit) 0) as [Hn|Hn].
  - intros _. rewrite length_drop. lia.
  - unfold zlen. rewrite length_take, length_drop.
    assert (as_i64 limit = limit) as ->; [|lia]. unfold as_i64, u64_max in *.
    destruct (Z.le_gt_cases limit (2 ^ 63 - 1)); [rewrite Z.mod_small; lia|].
    exfalso. revert Hn. replace (limit + 2 ^ 63) with (limit - 2 ^ 63 + 1 * 2 ^ 64) by lia.
    rewrite Z.mod_add, Z.mod_small by lia. lia.
Qed.

Section Step.
  Context (e : ErrorsDb) (log : list Logged) (Hrep : represents e log) (gen : bytes) (limit : Z).
#[local] Abbreviation page := (log_page (done e gen) limit log).

Lemma done_bound g : (done e g <= length log)%nat /\ Z.of_nat (done e g) = grouping_cursor (grouped (conn e)) g.
Proof. pose proof (rep_cursor e log Hrep g) as H. unfold done, zlen in *. lia. Qed.

Lemma passed_app : passed e log gen ++ page = take (done e gen + length page) log.
Proof. unfold passed. rewrite (log_page_take (done e gen) limit log) at 1. apply take_take_drop. Qed.

Lemma page_numbered : numbered (done e gen) page.
Proof.
  rewrite log_page_take. destruct (rep_log e log Hrep) as (_ & _ & _ & Hs).
  intros n io [Hn _]%lookup_take_Some. apply (numbered_drop (done e gen) 0 log Hs n io Hn).
Qed.

Lemma passed_page_NoDup : NoDup (passed e log gen ++ page).*1.
Proof.
  rewrite passed_app. destruct (rep_log e log Hrep) as (_ & Hn & _ & _).
  eapply sublist_NoDup; [exact Hn|]. apply fmap_sublist, sublist_take.
Qed.

Lemma page_fst_fresh i : i ∈ page.*1 -> i ∉ (passed e log gen).*1.
Proof. pose proof passed_page_NoDup as H. rewrite fmap_app in H. apply NoDup_app in H as (_ & H & _). intros H1 H2. by eapply H. Qed.

Lemma passed_seq io : io ∈ passed e log gen -> o_fold_seq io.2 <= Z.of_nat (done e gen).
Proof.
  destruct (rep_log e log Hrep) as (_ & _ & _ & Hs). unfold passed. intros [n [Hn Hlt]%lookup_take_Some]%list_elem_of_lookup.
  rewrite (Hs n io Hn). lia.
Qed.

Lemma page_seq io : io ∈ page -> Z.of_nat (done e gen) < o_fold_seq io.2.
Proof. intros [n Hn]%list_elem_of_lookup. rewrite (page_numbered n io Hn). lia. Qed.

Lemma page_sized : Forall (fun io : Logged => well_sized dep io.1) page.
Proof.
  rewrite log_page_take. destruct (rep_log e log Hrep) as (_ & _ & Hf & _). by apply Forall_take, Forall_drop.
Qed.

Lemma page_fresh : fresh gen page (grouped (conn e)).
Proof.
  split; intros io Hio.
  - rewrite (rep_mapped e log Hrep). apply mapped_notin, page_fst_fresh. by apply list_elem_of_fmap_2.
  - rewrite (rep_failed e log Hrep). apply failed_notin. intros io' Hio' E. apply passed_seq in Hio'. apply page_seq in Hio. lia.
Qed.

(** The tables after the page, before the cursor moves. *)
Definition page_written (t' : Grouped) : Prop :=
  active t' = active (grouped (conn e)) /\ grouping_cursors t' = grouping_cursors (grouped (conn e)) /\
  (forall i g, occurrence_issues t' !! (i, g) =
     if bool_decide (g = gen) then mapped (group gen) (passed e log gen ++ page) i else occurrence_issues (grouped (conn e)) !! (i, g)) /\
  (forall g n, grouping_failures t' !! (g, n) =
     if bool_decide (g = gen) then failed (group gen) (passed e log gen ++ page) n else grouping_failures (grouped (conn e)) !! (g, n)) /\
  (forall d id, issues t' !! (d, id) =
     match summary (members (group gen) id page) with
     | Some p => if bool_decide (d = dep) then Some (upserted gen (issues (grouped (conn e)) !! (dep, id)) p)
                 else issues (grouped (conn e)) !! (d, id)
     | None => issues (grouped (conn e)) !! (d, id)
     end) /\
  (forall id p i, summary (members (group gen) id page) = Some p -> issues (grouped (conn e)) !! (dep, id) = Some i -> n_generation i = gen).

Context (drain : gmap bytes PendingIssue -> list (bytes * PendingIssue)).
Context (drain_all : forall m, Permutation (drain m) (map_to_list m)).

Lemma drain_map m : list_to_map (drain m) = m /\ NoDup (drain m).*1.
Proof.
  assert (NoDup (drain m).*1) as Hn by (rewrite drain_all; apply NoDup_fst_map_to_list).
  split; [|done]. rewrite <- (list_to_map_to_list m) at 2. apply list_to_map_proper; [done|apply drain_all].
Qed.

Lemma paged_mapped t1 i g : paged gen (group gen) page (grouped (conn e)) t1 ->
  occurrence_issues t1 !! (i, g) =
    if bool_decide (g = gen) then mapped (group gen) (passed e log gen ++ page) i else occurrence_issues (grouped (conn e)) !! (i, g).
Proof.
  intros (_ & _ & _ & M & _). rewrite M. destruct (bool_decide (g = gen)) eqn:E; cbn [andb]; [|done].
  apply bool_decide_eq_true in E as ->. rewrite mapped_app, (rep_mapped e log Hrep).
  destruct (bool_decide (i ∈ page.*1)) eqn:Ei.
  - apply bool_decide_eq_true in Ei. rewrite bool_decide_eq_false_2; [done|]. by apply page_fst_fresh.
  - apply bool_decide_eq_false in Ei. destruct (bool_decide (i ∈ (passed e log gen).*1)) eqn:Ep; [done|].
    apply bool_decide_eq_false in Ep. by rewrite !mapped_notin.
Qed.

Lemma paged_failed t1 g n : paged gen (group gen) page (grouped (conn e)) t1 ->
  grouping_failures t1 !! (g, n) =
    if bool_decide (g = gen) then failed (group gen) (passed e log gen ++ page) n else grouping_failures (grouped (conn e)) !! (g, n).
Proof.
  intros (_ & _ & _ & _ & F). rewrite F. destruct (bool_decide (g = gen)) eqn:E; cbn [andb]; [|done].
  apply bool_decide_eq_true in E as ->. rewrite failed_app, (rep_failed e log Hrep).
  destruct (existsb (fun io : Logged => o_fold_seq io.2 =? n) page) eqn:Ei.
  - apply existsb_exists in Ei as (io & Hin%list_elem_of_In & E%Z.eqb_eq).
    destruct (existsb _ (passed e log gen)) eqn:Ep; [|done].
    apply existsb_exists in Ep as (io' & Hin'%list_elem_of_In & E'%Z.eqb_eq). apply passed_seq in Hin'. apply page_seq in Hin. lia.
  - destruct (existsb _ (passed e log gen)) eqn:Ep; [done|].
    rewrite !failed_notin; [done|..]; intros io Hin%list_elem_of_In E.
    + rewrite <- not_true_iff_false in Ei. apply Ei. apply existsb_exists. exists io. split; [done|by apply Z.eqb_eq].
    + rewrite <- not_true_iff_false in Ep. apply Ep. apply existsb_exists. exists io. split; [done|by apply Z.eqb_eq].
Qed.

Lemma page_upserted :
  exists t1 pending r1,
    group_rows (group gen) dep gen page (grouping_cursor (grouped (conn e)) gen) (grouped (conn e), ∅, no_report)
      = Ok (last_of (done e gen) page, (t1, pending, r1)) /\
    scanned r1 = zlen page /\
    match upsert_issues dep gen (drain pending) t1 r1 with
    | Ok (t2, r2) => page_written t2 /\ scanned r2 = zlen page
    | Err _ => True
    end.
Proof.
  destruct (group_rows_spec dep gen (group gen) page (done e gen) (grouped (conn e)) ∅ no_report) as (t1 & pending & r1 & E & P & S & G).
  - apply page_numbered.
  - pose proof passed_page_NoDup as H. rewrite fmap_app in H. by apply NoDup_app in H as (_ & _ & H).
  - apply page_sized.
  - apply page_fresh.
  - rewrite (proj2 (done_bound gen)) in E. exists t1, pending, r1. split_and!; [exact E|by rewrite S|].
    destruct (upsert_issues dep gen (drain pending) t1 r1) as [[t2 r2]|] eqn:Eu; [|done].
    destruct (drain_map pending) as [Hd Hn].
    apply upsert_issues_spec in Eu as ((A & M & C & F) & S2 & I); [|done]. pose proof P as (A1 & I1 & C1 & M1 & F1).
    rewrite Hd in I. assert (G' : forall id, pending !! id = summary (members (group gen) id page)).
    { intros id. rewrite G, lookup_empty. done. }
    split; [|rewrite S2, S; done]. split_and!; [congruence|congruence| | | |].
    + intros i g. rewrite M. by apply paged_mapped.
    + intros g n. rewrite F. by apply paged_failed.
    + intros d id. destruct (I d id) as [-> _]. by rewrite G', I1.
    + intros id p i Hp Hi. destruct (I dep id) as [_ Hg]. apply (Hg p); [by rewrite G'|by rewrite I1].
Qed.

(** The handle after the page. *)
Definition after_page (t : Grouped) (drained : bool) : ErrorsDb :=
  let d := conn e in
  with_conn e (mkDb (bound d) (reconcile_cursors d) (folded d)
    (activate gen drained (advance_cursor gen (grouping_cursor (grouped d) gen) (last_of (done e gen) page) t))).

Lemma after_page_done t dr g : page_written t ->
  grouping_cursor (grouped (conn (after_page t dr))) g =
    if bool_decide (g = gen) then Z.of_nat (done e gen + length page) else grouping_cursor (grouped (conn e)) g.
Proof.
  intros (_ & C & _). unfold after_page. cbn [conn with_conn grouped].
  assert (Ha : forall t, grouping_cursors (activate gen dr t) = grouping_cursors t) by (intros t'; unfold activate; by destruct (_ && _)).
  unfold grouping_cursor at 1. rewrite Ha. unfold advance_cursor, last_of. rewrite <- (proj2 (done_bound gen)).
  destruct (Z.eqb_spec (Z.of_nat (done e gen + length page)) (Z.of_nat (done e gen))) as [E|E].
  - rewrite C. change (default 0 (grouping_cursors (grouped (conn e)) !! g)) with (grouping_cursor (grouped (conn e)) g).
    case_bool_decide; [subst g|done]. rewrite <- (proj2 (done_bound gen)). lia.
  - cbn [grouping_cursors]. rewrite C. case_bool_decide as Eg; [subst g; by rewrite lookup_insert_eq|].
    rewrite lookup_insert_ne by congruence. done.
Qed.

Lemma after_page_tables t dr :
  issues (grouped (conn (after_page t dr))) = issues t /\ occurrence_issues (grouped (conn (after_page t dr))) = occurrence_issues t /\
  grouping_failures (grouped (conn (after_page t dr))) = grouping_failures t.
Proof.
  unfold after_page, activate, advance_cursor. cbn [conn with_conn grouped]. destruct (last_of _ _ =? _), (_ && _); done.
Qed.

Lemma after_page_passed t dr g : page_written t ->
  passed (after_page t dr) log g = if bool_decide (g = gen) then passed e log gen ++ page else passed e log g.
Proof.
  intros Hw. unfold passed at 1, done at 1. rewrite after_page_done by done. case_bool_decide as E; [|done].
  rewrite Nat2Z.id. by rewrite passed_app.
Qed.

Lemma written_issue t id g p : page_written t ->
  summary (members (group g) id (if bool_decide (g = gen) then passed e log gen ++ page else passed e log g)) = Some p ->
  issues t !! (dep, id) = Some (new_issue g p).
Proof.
  intros (_ & _ & _ & _ & I & Hg). case_bool_decide as Eg.
  - subst g. rewrite members_app, summary_app, I, (bool_decide_eq_true_2 (dep = dep)) by done.
    destruct (members (group gen) id page) as [|x l] eqn:Em.
    + cbn [fold_left]. intros Hs. by apply (rep_issue e log Hrep).
    + rewrite summary_cons. destruct (summary (members (group gen) id (passed e log gen))) as [q|] eqn:Eq.
      * rewrite fold_step_Some. intros [= <-]. rewrite (rep_issue e log Hrep _ _ _ Eq). cbn [upserted]. by rewrite merge_summary.
      * cbn [fold_left]. change (step None x) with (Some (start x)). rewrite fold_step_Some. intros [= <-].
        destruct (issues (grouped (conn e)) !! (dep, id)) as [i|] eqn:Ei; [|done].
        exfalso. assert (n_generation i = gen) as Hgi by (eapply (Hg id); [by rewrite Em, summary_cons|done]).
        apply (rep_issue_inv e log Hrep) in Ei as (_ & p' & Hp' & _). rewrite Hgi in Hp'. congruence.
  - intros Hs. pose proof (rep_issue e log Hrep _ _ _ Hs) as Hi. rewrite I.
    destruct (summary (members (group gen) id page)) as [q|] eqn:Eq; [|done].
    exfalso. apply Eg. exact (Hg id q _ Eq Hi).
Qed.

Lemma written_issue_inv t d id row : page_written t -> issues t !! (d, id) = Some row ->
  d = dep /\ exists g p, summary (members (group g) id (if bool_decide (g = gen) then passed e log gen ++ page else passed e log g)) = Some p /\
    row = new_issue g p.
Proof.
  intros (_ & _ & _ & _ & I & Hg). rewrite I.
  assert (Hold : forall row, issues (grouped (conn e)) !! (d, id) = Some row -> (d = dep -> summary (members (group gen) id page) = None) ->
    d = dep /\ exists g p, summary (members (group g) id (if bool_decide (g = gen) then passed e log gen ++ page else passed e log g)) = Some p /\
      row = new_issue g p).
  { clear row. intros row Hrow Hnone. apply (rep_issue_inv e log Hrep) in Hrow as (-> & p & Hp & Hr). split; [done|].
    exists (n_generation row), p. split; [|done]. case_bool_decide as E; [|done]. rewrite <- E in Hnone |- *. 
    rewrite members_app, summary_app, Hp. specialize (Hnone eq_refl). apply summary_nil in Hnone. by rewrite Hnone. }
  destruct (summary (members (group gen) id page)) as [q|] eqn:Eq; [|intros Hrow; by apply Hold].
  case_bool_decide as Ed; [|intros Hrow; by apply Hold]. subst d. intros [= <-]. split; [done|]. exists gen.
  rewrite (bool_decide_eq_true_2 (gen = gen)) by done. rewrite members_app, summary_app.
  destruct (members (group gen) id page) as [|x l] eqn:Em; [done|]. rewrite summary_cons in Eq. injection Eq as <-.
  destruct (issues (grouped (conn e)) !! (dep, id)) as [i|] eqn:Ei; cbn [upserted].
  - assert (n_generation i = gen) as Hgi by (eapply (Hg id); [by rewrite Em, summary_cons|done]).
    apply (rep_issue_inv e log Hrep) in Ei as (_ & p & Hp & ->). cbn [n_generation new_issue] in Hgi, Hp. 
    rewrite Hgi in Hp |- *. rewrite Hp, fold_step_Some, merge_summary. by eexists.
  - destruct (summary (members (group gen) id (passed e log gen))) as [q|] eqn:E2.
    + pose proof (rep_issue e log Hrep _ _ _ E2). congruence.
    + exists (fold_left add l (start x)). cbn [fold_left]. change (step None x) with (Some (start x)). by rewrite fold_step_Some.
Qed.

Lemma after_page_represents t dr : page_written t -> represents (after_page t dr) log.
Proof.
  intros Hw. destruct (after_page_tables t dr) as (T1 & T2 & T3). pose proof Hw as (_ & _ & M & F & _). split.
  - exact (rep_deployment e log Hrep).
  - exact (rep_log e log Hrep).
  - intros g. rewrite after_page_done by done. case_bool_decide; [|apply (rep_cursor e log Hrep)].
    pose proof (f_equal length passed_app) as Hl. rewrite length_app in Hl. unfold passed in Hl. rewrite !length_take in Hl.
    pose proof (done_bound gen). unfold zlen. lia.
  - intros i g. rewrite T2, M, after_page_passed by done. case_bool_decide as E; [by subst|]. apply (rep_mapped e log Hrep).
  - intros g n. rewrite T3, F, after_page_passed by done. case_bool_decide as E; [by subst|]. apply (rep_failed e log Hrep).
  - intros id g p. rewrite T1, after_page_passed by done. by apply written_issue.
  - intros d id row. rewrite T1. intros Hrow. destruct (written_issue_inv t d id row Hw Hrow) as (-> & g & p & Hp & ->).
    split; [done|]. cbn [n_generation new_issue]. exists p. rewrite after_page_passed by done. done.
Qed.

Lemma page_end : (done e gen + length page <= length log)%nat.
Proof.
  pose proof (f_equal length passed_app) as H. rewrite length_app in H. unfold passed in H. rewrite !length_take in H.
  pose proof (done_bound gen). lia.
Qed.

(** Whether anything is left after the page. *)
Lemma backlog_left :
  existsb (fun io : Logged => last_of (done e gen) page <? o_fold_seq (snd io)) (map_to_list (occurrences (folded (conn e)))) = true
    <-> (done e gen + length page < length log)%nat.
Proof.
  pose proof (rep_log e log Hrep) as Hl. rewrite existsb_exists. split.
  - intros ([i o] & Hin%list_elem_of_In & E%Z.ltb_lt). apply elem_of_map_to_list in Hin.
    apply (logged_lookup dep _ _ _ _ Hl) in Hin. apply (logged_bound dep _ _ _ Hl) in Hin. unfold last_of, zlen in *. lia.
  - intros H. destruct (lookup_lt_is_Some_2 log (done e gen + length page) H) as [[i o] Hi]. exists (i, o). split.
    + apply list_elem_of_In, elem_of_map_to_list. apply (logged_lookup dep _ _ _ _ Hl). by eapply list_elem_of_lookup_2.
    + destruct Hl as (_ & _ & _ & Hs). apply Z.ltb_lt. rewrite (Hs _ _ Hi). unfold last_of. lia.
Qed.

Lemma group_page_refines fence e' res : 0 <= limit <= u64_max ->
  group_page (group gen) drain e gen limit fence = (e', res) ->
  match res with
  | Err _ => e' = e
  | Ok r => fence = true /\ scanned r = zlen page /\ (drained r = true <-> (done e gen + length page = length log)%nat) /\
            exists t, page_written t /\ e' = after_page t (drained r)
  end.
Proof.
  intros Hlim. unfold group_page. cbv zeta. rewrite (rep_deployment e log Hrep).
  rewrite <- (proj2 (done_bound gen)) at 1. rewrite (ungrouped_page_logged dep _ log) by apply (rep_log e log Hrep).
  destruct page_upserted as (t1 & pending & r1 & -> & Hs1 & Hu). cbn [result_bind].
  destruct (upsert_issues dep gen (drain pending) t1 r1) as [[t2 r2]|]; cbn [result_bind]; [|by intros [= <- <-]].
  destruct Hu as [Hw Hs2]. destruct fence; [|by intros [= <- <-]]. intros [= <- <-]. cbn [scanned drained].
  split_and!; [done|done| |by exists t2].
  rewrite orb_true_iff, negb_true_iff, <- not_true_iff_false, backlog_left, Z.ltb_lt, Hs2. pose proof page_end.
  split; [|lia]. intros [Hd|Hd]; [|lia]. apply log_page_drained; [apply done_bound|done|done].
Qed.
End Step.

(** ** Every run *)

Context (sha256 : bytes -> bytes).
Context (drain : gmap bytes PendingIssue -> list (bytes * PendingIssue)).

(** A fresh database, and the calls of its one writer in any order: folds of any
    commits, pages of any generation and size, cursors, and the limit on rows, each
    with the lease standing or lost. *)
Inductive reachable : ErrorsDb -> Prop :=
| reach_open e : open_db empty_db dep = Ok e -> reachable e
| reach_fold e date key commit json rows hint fence :
    reachable e -> reachable (fold_committed sha256 e date key commit json rows hint fence).1
| reach_group e gen limit fence :
    reachable e -> 0 <= limit <= u64_max -> reachable (group_page (group gen) drain e gen limit fence).1
| reach_cursor e partition key at_ : reachable e -> reachable (set_reconcile_cursor e partition key at_)
| reach_limit e n : reachable e -> reachable (mkErrorsDb (conn e) (deployment_id e) n).

Lemma represents_ext e e' log : deployment_id e' = deployment_id e -> folded (conn e') = folded (conn e) ->
  grouped (conn e') = grouped (conn e) -> represents e log -> represents e' log.
Proof.
  intros Hd Hf Hg [R1 R2 R3 R4 R5 R6 R7].
  assert (Hp : forall g, passed e' log g = passed e log g) by (intros g; unfold passed, done; by rewrite Hg).
  split; rewrite ?Hd, ?Hf, ?Hg; try done; intros; rewrite ?Hp in *; eauto.
Qed.

(** Folding leaves the grouped part of the log alone. *)
Lemma represents_fold e e' log added : deployment_id e' = deployment_id e -> grouped (conn e') = grouped (conn e) ->
  logged dep (occurrences (folded (conn e'))) (log ++ added) -> represents e log -> represents e' (log ++ added).
Proof.
  intros Hd Hg Hl Hr. pose proof Hr as [R1 R2 R3 R4 R5 R6 R7].
  assert (Hp : forall g, passed e' (log ++ added) g = passed e log g).
  { intros g. unfold passed. replace (done e' g) with (done e g) by (unfold done; by rewrite Hg).
    apply take_app_le. by apply (done_bound e log Hr g). }
  split; rewrite ?Hd, ?Hg; try done; intros; rewrite ?Hp in *; eauto.
  specialize (R3 gen). rewrite zlen_app. pose proof (zlen_nonneg added). lia.
Qed.

Lemma open_empty_represents e : open_db empty_db dep = Ok e -> represents e [].
Proof.
  unfold open_db, bind_deployment. cbn [bound empty_db folded empty_folded occurrences]. rewrite map_to_list_empty. cbn [List.filter result_bind].
  intros [= <-].
  split; cbn [deployment_id conn folded grouped empty_folded empty_grouped occurrences issues occurrence_issues grouping_failures]; try done.
  split_and!; try done; by constructor.
Qed.

Context (drain_all : forall m, Permutation (drain m) (map_to_list m)).

Lemma reachable_represents e : reachable e -> exists log, represents e log.
Proof.
  induction 1 as [e H|e date key commit json rows hint fence _ [log IH]|e gen limit fence _ [log IH] Hl|e partition key at_ _ [log IH]|e n _ [log IH]].
  - eexists. by apply open_empty_represents.
  - destruct (fold_committed sha256 e date key commit json rows hint fence) as [e' res] eqn:E. cbn [fst].
    apply (fold_committed_logs sha256 dep _ _ _ _ _ _ _ _ _ _ log) in E; [|by apply (rep_deployment e log)|by apply (rep_log e log)].
    destruct res as [r|]; [|subst; by exists log]. destruct E as (_ & Hd & _ & Hg & _ & _ & (added & Ha) & _).
    exists (log ++ added). apply (represents_fold e); try done. by rewrite Hd, (rep_deployment e log).
  - exists log. destruct (group_page (group gen) drain e gen limit fence) as [e' res] eqn:E. cbn [fst].
    apply (group_page_refines e log IH gen limit drain drain_all) in E; [|done].
    destruct res as [r|]; [|by subst]. destruct E as (_ & _ & _ & t & Hw & ->). by apply after_page_represents.
  - exists log. by apply (represents_ext e).
  - exists log. by apply (represents_ext e).
Qed.

Definition mapping (u : UngroupedOccurrence) (g : GroupedOccurrence) : MappingCols :=
  mkMCols (issue_id g) (fingerprint_version g) (fingerprint_digest g) (sort_time u).

Lemma mapped_Some gr log i m : NoDup log.*1 ->
  mapped gr log i = Some m <-> exists o g, (i, o) ∈ log /\ gr (offered (i, o)) = Ok g /\ m = mapping (offered (i, o)) g.
Proof.
  induction log as [|io log IH]; [split; [done|by intros (? & ? & ?%not_elem_of_nil & _)]|].
  rewrite fmap_cons, NoDup_cons. intros [Hnin Hnd]. cbn [mapped]. case_bool_decide as E.
  - destruct io as [i' o]. cbn [fst] in *. subst i'. split.
    + destruct (gr (offered (i, o))) as [g|] eqn:Eg; [|done]. intros [= <-]. exists o, g. split_and!; [by left|done|done].
    + intros (o' & g & Hin & Hg & ->). apply elem_of_cons in Hin as [[= ->]|Hin]; [by rewrite Hg|].
      exfalso. apply Hnin. by apply (list_elem_of_fmap_2 fst) in Hin.
  - rewrite IH by done. split; intros (o & g & Hin & Hg & Hm); exists o, g; split_and!; try done.
    + by right.
    + by apply elem_of_cons in Hin as [<-|Hin].
Qed.

Lemma failed_Some gr base log n f : numbered base log ->
  failed gr log n = Some f <-> exists i o reason, (i, o) ∈ log /\ o_fold_seq o = n /\ gr (offered (i, o)) = Err reason /\
    f = mkFCols (i_app_id i) (i_app_identity_sha256 i) (i_event_id i) (cut_reason reason).
Proof.
  revert base. induction log as [|io log IH]; intros base Hnum; [split; [done|by intros (? & ? & ? & ?%not_elem_of_nil & _)]|].
  pose proof (numbered_distinct _ _ _ Hnum) as Hseq. apply numbered_cons in Hnum as [_ Hnum]. cbn [failed].
  destruct (Z.eqb_spec (o_fold_seq io.2) n) as [E|E].
  - destruct io as [i o]. cbn [fst snd] in *. split.
    + destruct (gr (offered (i, o))) as [|reason] eqn:Eg; [done|]. intros [= <-]. exists i, o, reason. split_and!; [by left|done..].
    + intros (i' & o' & reason & Hin & Hn & Hg & ->). apply elem_of_cons in Hin as [[= -> ->]|Hin]; [by rewrite Hg|].
      exfalso. apply (Hseq _ Hin). cbn. congruence.
  - rewrite (IH (S base) Hnum). split; intros (i & o & reason & Hin & Hn & Hg & Hf); exists i, o, reason; split_and!; try done.
    + by right.
    + apply elem_of_cons in Hin as [<-|Hin]; done.
Qed.

Lemma greatest_unique {A} `{Ord A} (v w : A) f l : greatest v f l -> greatest w f l -> v = w.
Proof.
  intros [(x & Hx & ->) Hv] [(y & Hy & ->) Hw]. apply cmp_leb_antisym; [by apply Hw|by apply Hv].
Qed.

Lemma least_unique v w f l : least v f l -> least w f l -> v = w.
Proof. intros [(x & Hx & ->) Hv] [(y & Hy & ->) Hw]. specialize (Hv y Hy). specialize (Hw x Hx). lia. Qed.

Lemma is_issue_of_unique gen x l r r' : is_issue_of gen x l r -> is_issue_of gen x l r' -> r = r'.
Proof.
  intros (A1 & A2 & A3 & A4 & A5 & A6 & A7 & A8 & A9 & A10 & A11) (B1 & B2 & B3 & B4 & B5 & B6 & B7 & B8 & B9 & B10 & B11).
  apply IssueCols_ext; [congruence|by eapply greatest_unique|by eapply least_unique|congruence|by eapply greatest_unique].
Qed.

Lemma represents_issue e log d id row : represents e log ->
  issues (grouped (conn e)) !! (d, id) = Some row <->
  d = dep /\ exists gen x l, members (group gen) id (passed e log gen) = x :: l /\ is_issue_of gen x l row.
Proof.
  intros Hr. split.
  - intros (-> & p & Hp & ->)%(rep_issue_inv e log Hr). split; [done|]. cbn [n_generation new_issue] in *.
    destruct (members _ _ _) as [|x l] eqn:E; [done|]. exists (n_generation row), x, l. by split; [|apply summary_is_issue].
  - intros (-> & gen & x & l & Hm & Hi).
    assert (Hs : summary (members (group gen) id (passed e log gen)) = Some (fold_left add l (start x))) by (by rewrite Hm, summary_cons).
    rewrite (rep_issue e log Hr id gen _ Hs). f_equal. eapply is_issue_of_unique; [|exact Hi]. apply summary_is_issue. by rewrite summary_cons.
Qed.

(** C30. The issues are the aggregates of the log, after any run of folds and pages of any
    size and generation.  Every issue row is that of the occurrences its generation has
    passed and grouped under it, and there are no others: title and identity of the
    first, number, earliest and latest time, latest event and highest severity of all.
    Every passed occurrence is mapped to its issue or recorded as a failure. *)
Theorem issues_are_aggregates (e : ErrorsDb) :
  reachable e ->
  exists log, logged dep (occurrences (folded (conn e))) log /\
    (forall gen, 0 <= grouping_cursor (grouped (conn e)) gen <= zlen log) /\
    (forall d id row, issues (grouped (conn e)) !! (d, id) = Some row <->
       d = dep /\ exists gen x l, members (group gen) id (passed e log gen) = x :: l /\ is_issue_of gen x l row) /\
    (forall i gen m, occurrence_issues (grouped (conn e)) !! (i, gen) = Some m <->
       exists o g, (i, o) ∈ passed e log gen /\ group gen (offered (i, o)) = Ok g /\ m = mapping (offered (i, o)) g) /\
    (forall gen n f, grouping_failures (grouped (conn e)) !! (gen, n) = Some f <->
       exists i o reason, (i, o) ∈ passed e log gen /\ o_fold_seq o = n /\ group gen (offered (i, o)) = Err reason /\
         f = mkFCols (i_app_id i) (i_app_identity_sha256 i) (i_event_id i) (cut_reason reason)).
Proof.
  intros [log Hr]%reachable_represents. exists log. pose proof (rep_log e log Hr) as (_ & Hnd & _ & Hs).
  split_and!; [apply (rep_log e log Hr)|apply (rep_cursor e log Hr)| | |].
  - intros d id row. by apply represents_issue.
  - intros i gen m. rewrite (rep_mapped e log Hr). apply mapped_Some.
    eapply sublist_NoDup; [exact Hnd|]. apply fmap_sublist, sublist_take.
  - intros gen n f. rewrite (rep_failed e log Hr). apply (failed_Some _ 0).
    intros k io [Hk _]%lookup_take_Some. by apply Hs.
Qed.

(** Readers never see a half-built generation take over.  A page that commits leaves
    the active generation or makes its own active, and the latter only where there was
    none before or where the page has reached the end of the log: every occurrence is
    then mapped or recorded as a failure of that generation.  Its report says so. *)
Theorem generation_switch_complete (e e' : ErrorsDb) (gen : bytes) (limit : Z) (fence : bool) (r : GroupingReport) :
  reachable e -> 0 <= limit <= u64_max ->
  group_page (group gen) drain e gen limit fence = (e', Ok r) ->
  fence = true /\ folded (conn e') = folded (conn e) /\
  (drained r = true <-> grouping_cursor (grouped (conn e')) gen = head_seq (folded (conn e))) /\
  (active (grouped (conn e')) = active (grouped (conn e)) \/
   active (grouped (conn e')) = Some gen /\ (active (grouped (conn e)) = None \/ drained r = true)).
Proof.
  intros [log Hr]%reachable_represents Hl E.
  apply (group_page_refines e log Hr gen limit drain drain_all) in E as (-> & _ & Hd & t & Hw & ->); [|done].
  rewrite (after_page_done e log Hr gen limit t) by done. rewrite (bool_decide_eq_true_2 (gen = gen)) by done.
  rewrite (head_seq_logged dep _ log) by apply (rep_log e log Hr). unfold zlen. split_and!; [done..|rewrite Hd; lia|].
  destruct Hw as (Ha & _). unfold after_page, activate, advance_cursor. cbn [conn with_conn grouped].
  rewrite <- Ha. destruct (_ =? _); cbn [active]; destruct (bool_decide (active t = Some gen)); cbn [negb andb]; try (by left);
    (destruct (bool_decide (active t = None)) eqn:En; [apply bool_decide_eq_true in En; right; auto|]); destruct (drained r); cbn [orb active]; auto.
Qed.

Lemma logged_unique t log log' : logged dep t log -> logged dep t log' -> log = log'.
Proof.
  intros (E & N & _ & S) (E' & N' & _ & S').
  assert (Hp : Permutation log log').
  { apply (list_to_map_inj (M := gmap Identity)); [exact N|exact N'|]. transitivity t; [symmetry; exact E|exact E']. }
  apply (StronglySorted_unique (fun x y : Logged => cmp_leb (o_fold_seq x.2) (o_fold_seq y.2))).
  - intros x y Hx Hy H1 H2. eapply (numbered_inj 0 log); try done. by apply cmp_leb_antisym.
  - exact (numbered_sorted 0 log S).
  - exact (numbered_sorted 0 log' S').
  - done.
Qed.

(** How the pages were cut does not matter.  Two databases of the same deployment that
    hold the same occurrences and whose generations have come equally far have the same
    issues, mappings and failures, whatever pages, lost leases and orders of writing
    brought them there. *)
Theorem pages_do_not_matter (e e' : ErrorsDb) :
  reachable e -> reachable e' ->
  occurrences (folded (conn e)) = occurrences (folded (conn e')) ->
  (forall gen, grouping_cursor (grouped (conn e)) gen = grouping_cursor (grouped (conn e')) gen) ->
  issues (grouped (conn e)) = issues (grouped (conn e')) /\
  occurrence_issues (grouped (conn e)) = occurrence_issues (grouped (conn e')) /\
  grouping_failures (grouped (conn e)) = grouping_failures (grouped (conn e')).
Proof.
  intros [log Hr]%reachable_represents [log' Hr']%reachable_represents Ho Hc.
  pose proof (rep_log e log Hr) as L. pose proof (rep_log e' log' Hr') as L'. rewrite <- Ho in L'.
  rewrite (logged_unique _ _ _ L' L) in Hr'. clear log' L'.
  assert (Hp : forall g, passed e log g = passed e' log g) by (intros g; unfold passed, done; by rewrite Hc).
  split_and!; apply map_eq.
  - intros [d id]. apply option_eq. intros row. rewrite (represents_issue e log d id row Hr), (represents_issue e' log d id row Hr').
    by setoid_rewrite Hp.
  - intros [i g]. by rewrite (rep_mapped e log Hr), (rep_mapped e' log Hr'), Hp.
  - intros [g n]. by rewrite (rep_failed e log Hr), (rep_failed e' log Hr'), Hp.
Qed.

(** A fold that commits has a place for every row: its bytes are those of the
    occurrence that was there first, or the collision is on record.  What was recorded
    stays, and folding the same commit again changes nothing. *)
Theorem folding_keeps_every_row (e e' : ErrorsDb) (date key : bytes) (commit : OccurrenceCommit) (json : bytes)
    (rows : list OccurrenceRow) (hint : Z * option Z) (fence : bool) (r : FoldReport) :
  reachable e ->
  fold_committed sha256 e date key commit json rows hint fence = (e', Ok r) ->
  fence = true /\ Forall (kept sha256 (folded (conn e'))) rows /\
  occurrences (folded (conn e)) ⊆ occurrences (folded (conn e')) /\
  has_projection_commit e' key = true /\
  exists r', fold_committed sha256 e' date key commit json rows hint true = (e', Ok r') /\ inserted r' = 0.
Proof.
  intros [log Hr]%reachable_represents E. pose proof (rep_deployment e log Hr) as Hd. pose proof (rep_log e log Hr) as Hl.
  pose proof (fold_committed_logs _ _ _ _ _ _ _ _ _ _ _ _ _ Hd Hl E) as (Hf & _ & _ & _ & _ & _ & _ & [Ho _] & Hk & Hc & _).
  split_and!; try done. by eapply fold_committed_again.
Qed.

Lemma after_page_cursor e log gen limit t dr : represents e log -> page_written e log gen limit t ->
  grouping_cursor (grouped (conn (after_page e log gen limit t dr))) gen
    = grouping_cursor (grouped (conn e)) gen + zlen (log_page (done e gen) limit log).
Proof.
  intros Hr Hw. rewrite (after_page_done e log Hr gen limit t) by done. rewrite (bool_decide_eq_true_2 (gen = gen)) by done.
  rewrite <- (proj2 (done_bound e log Hr gen)). unfold zlen. lia.
Qed.

(** A page that leaves something behind is full. *)
Lemma page_full e log gen limit : represents e log -> 0 <= limit <= u64_max ->
  (done e gen + length (log_page (done e gen) limit log) <> length log)%nat -> limit <= zlen (log_page (done e gen) limit log).
Proof.
  intros Hr Hl Hne. destruct (Z.le_gt_cases limit (zlen (log_page (done e gen) limit log))); [done|].
  exfalso. apply Hne. apply log_page_drained; [apply (done_bound e log Hr gen)|done|lia].
Qed.

Lemma group_backlog_spec gen page_rows max_rows fence out_of_time : 0 < page_rows <= u64_max ->
  forall fuel page e0 report, reachable e0 -> 0 <= scanned report -> max_rows - scanned report <= Z.of_nat fuel -> scanned report < max_rows ->
    exists e' res,
      group_backlog (group gen) drain gen page_rows max_rows fence out_of_time fuel page e0 report = Some (e', res) /\
      reachable e' /\ folded (conn e') = folded (conn e0) /\
      match res with
      | Err _ => True
      | Ok r =>
          grouping_cursor (grouped (conn e')) gen = grouping_cursor (grouped (conn e0)) gen + (scanned r - scanned report) /\
          (grouping_cursor (grouped (conn e')) gen = head_seq (folded (conn e')) \/ max_rows <= scanned r \/ exists k, out_of_time k = true)
      end.
Proof.
  intros Hp.
  induction fuel as [|fuel IH]; intros page e0 report Hre0 H0 Hf Hlt; [lia|]. cbn [group_backlog].
  pose proof (reach_group _ gen page_rows (fence page) Hre0 ltac:(lia)) as Hre1.
  destruct (reachable_represents _ Hre0) as [log Hr].
  destruct (group_page (group gen) drain e0 gen page_rows (fence page)) as [e1 res] eqn:E. cbn [fst] in Hre1.
  apply (group_page_refines e0 log Hr gen page_rows drain drain_all) in E; [|lia].
  destruct res as [r|err]; [|subst e1; by eexists _, _]. destruct E as (_ & Hs & Hd & t & Hw & He).
  pose proof (after_page_cursor e0 log gen page_rows t (drained r) Hr Hw) as Hc. rewrite <- He in Hc.
  assert (Hfo : folded (conn e1) = folded (conn e0)) by (by rewrite He).
  assert (Hhead : head_seq (folded (conn e1)) = zlen log) by (rewrite Hfo; eapply head_seq_logged, (rep_log e0 log Hr)).
  set (report1 := report_absorb report r). assert (Hs1 : scanned report1 = scanned report + zlen (log_page (done e0 gen) page_rows log)).
  { unfold report1, report_absorb. cbn [scanned]. by rewrite Hs. }
  destruct (drained r) eqn:Ed; cbn [orb].
  - eexists _, _. split_and!; [done|done|done|]. split; [rewrite Hc, Hs1; lia|]. left. rewrite Hc, Hhead.
    pose proof (proj1 Hd eq_refl). pose proof (done_bound e0 log Hr gen). unfold zlen. lia.
  - destruct (Z.leb_spec max_rows (scanned report1)); cbn [orb].
    { eexists _, _. split_and!; [done|done|done|]. split; [rewrite Hc, Hs1; lia|]. by right; left. }
    destruct (out_of_time page) eqn:Et.
    { eexists _, _. split_and!; [done|done|done|]. split; [rewrite Hc, Hs1; lia|]. right; right. by exists page. }
    assert (page_rows <= zlen (log_page (done e0 gen) page_rows log)) as Hfull.
    { apply page_full; [done|lia|]. intros Hx. apply Hd in Hx. congruence. }
    destruct (IH (S page) e1 report1 Hre1) as (e' & res & E' & Hre' & Hfo' & Hres); [lia|lia|done|].
    exists e', res. split_and!; [done|done|congruence|]. destruct res as [r'|]; [|done].
    destruct Hres as [Hc' Hend]. split; [|done]. rewrite Hc', Hc, Hs1. lia.
Qed.

(** The grouping phase ends, whatever the backlog: a page either drains it or is
    full, so a budget of [max_rows] rows is spent after at most that many pages.  It
    then has drained the backlog, spent its rows or run out of time, has moved the
    cursor by exactly the rows it read, and has lost none of what was folded. *)
Theorem grouping_phase_ends (e : ErrorsDb) (gen : bytes) (page_rows max_rows : Z) (fence out_of_time : nat -> bool) :
  reachable e -> 0 < page_rows <= u64_max -> 0 < max_rows ->
  exists e' res,
    group_backlog (group gen) drain gen page_rows max_rows fence out_of_time (Z.to_nat max_rows) 0 e no_report = Some (e', res) /\
    reachable e' /\ folded (conn e') = folded (conn e) /\
    match res with
    | Err _ => True
    | Ok r =>
        grouping_cursor (grouped (conn e')) gen = grouping_cursor (grouped (conn e)) gen + scanned r /\
        (grouping_cursor (grouped (conn e')) gen = head_seq (folded (conn e')) \/ max_rows <= scanned r \/ exists k, out_of_time k = true)
    end.
Proof.
  intros Hre Hp Hm.
  destruct (group_backlog_spec gen page_rows max_rows fence out_of_time Hp (Z.to_nat max_rows) 0%nat e no_report Hre) as (e' & res & E & Hre' & Hfo & Hres); cbn [scanned no_report]; [lia..|].
  exists e', res. split_and!; try done. destruct res as [r|]; [|done]. cbn [scanned no_report] in Hres. by rewrite Z.sub_0_r in Hres.
Qed.
End Refines.

(** ** A small run *)

Definition demo_dep : bytes := be_bytes 16 77.
Definition demo_gen : bytes := str "fp-v2".
Definition demo_group (gen : bytes) (u : UngroupedOccurrence) : result bytes GroupedOccurrence :=
  match u_canonical u with
  | [] => Err (str "empty")
  | b :: _ => Ok (mkGroupedOcc (gen ++ [b]) 2 [b] 0 (str "title") (b2z b))
  end.
Definition demo_row (event time : Z) (canonical : bytes) : OccurrenceRow :=
  mkORow demo_dep (be_bytes 16 1) (be_bytes 32 2) (be_bytes 16 event) time None time None None 0 1 1 (be_bytes 32 3) canonical
    (be_bytes 16 9) event.
Definition demo_rows : list OccurrenceRow :=
  [demo_row 1 500 (str "a1"); demo_row 2 400 []; demo_row 3 700 (str "a2"); demo_row 1 500 (str "zz")].
Definition demo_keys : ProjectionKeys :=
  match occurrence_keys (str "2026-02-28") (be_bytes 16 9) (str "occurrence-v1") with Ok k => k | Err _ => mkKeys [] [] end.
Definition demo_commit : OccurrenceCommit :=
  mkCommit 1 (be_bytes 16 9) (str "occurrence-v1") (data_key demo_keys) (replicate 64 x61) 100 4 1000.
Definition demo_open : ErrorsDb :=
  match open_db empty_db demo_dep with Ok e => e | Err _ => mkErrorsDb empty_db [] 0 end.
Definition demo_fold : ErrorsDb * result SqliteError FoldReport :=
  fold_committed demo_sha demo_open (str "2026-02-28") (commit_key demo_keys) demo_commit (str "{}") demo_rows (4, Some 4) true.
Definition demo_page (e : ErrorsDb) (limit : Z) : ErrorsDb * result SqliteError GroupingReport :=
  group_page (demo_group demo_gen) map_to_list e demo_gen limit true.
Definition demo_reachable : ErrorsDb -> Prop := reachable demo_dep demo_group demo_sha map_to_list.

Lemma demo_open_reachable : demo_reachable demo_open.
Proof. by apply reach_open. Qed.
Lemma demo_fold_reachable : demo_reachable demo_fold.1.
Proof. apply reach_fold, demo_open_reachable. Qed.
Lemma demo_page_reachable e limit : demo_reachable e -> 0 <= limit <= u64_max -> demo_reachable (demo_page e limit).1.
Proof. apply reach_group. Qed.

(** The second row fails, the others make one issue; the last collides with the first. *)
Example demo_fold_report : demo_fold.2 = Ok (mkFoldReport 3 0 1).
Proof. vm_compute. reflexivity. Qed.
Example demo_page_report : (demo_page demo_fold.1 2).2 = Ok (mkGReport 1 0 1 0 1 2 false).
Proof. vm_compute. reflexivity. Qed.

Lemma small_2 : 0 <= 2 <= u64_max.
Proof. vm_compute. split; discriminate. Qed.
Lemma small_100 : 0 <= 100 <= u64_max.
Proof. vm_compute. split; discriminate. Qed.

Definition demo_end : ErrorsDb := (demo_page (demo_page demo_fold.1 2).1 2).1.

Lemma demo_end_reachable : demo_reachable demo_end.
Proof. exact (demo_page_reachable _ 2 (demo_page_reachable _ 2 demo_fold_reachable small_2) small_2). Qed.

Definition demo_issue : IssueCols :=
  mkICols demo_gen (be_bytes 16 1) (be_bytes 32 2) 2 [x61] 0 (str "title") (to_sql_i64 500) (to_sql_i64 700) 2 97 (be_bytes 16 3).

Lemma demo_issue_row : issues (grouped (conn demo_end)) !! (demo_dep, demo_gen ++ [x61]) = Some demo_issue.
Proof. vm_compute. reflexivity. Qed.

Lemma issues_are_aggregates_witness :
  exists gen x l, issues (grouped (conn demo_end)) !! (demo_dep, demo_gen ++ [x61]) = Some demo_issue /\ is_issue_of gen x l demo_issue.
Proof.
  destruct (issues_are_aggregates demo_dep demo_group demo_sha map_to_list (fun m => Permutation_refl _) demo_end demo_end_reachable)
    as (log & _ & _ & Hi & _).
  destruct (proj1 (Hi _ _ _) demo_issue_row) as (_ & gen & x & l & _ & Hrow).
  exists gen, x, l. split; [exact demo_issue_row|exact Hrow].
Defined.

Definition demo_last : ErrorsDb * result SqliteError GroupingReport := demo_page (demo_page demo_fold.1 2).1 2.
Definition demo_last_report : GroupingReport := mkGReport 0 1 1 0 0 1 true.

Lemma demo_last_is : demo_last = (demo_end, Ok demo_last_report).
Proof.
  assert (demo_last.2 = Ok demo_last_report) as E by (vm_compute; reflexivity).
  unfold demo_end. fold demo_last. destruct demo_last. cbn in E |- *. by rewrite E.
Qed.

Lemma generation_switch_complete_witness :
  grouping_cursor (grouped (conn demo_end)) demo_gen = head_seq (folded (conn (demo_page demo_fold.1 2).1)).
Proof.
  destruct (generation_switch_complete demo_dep demo_group demo_sha map_to_list (fun m => Permutation_refl _)
    (demo_page demo_fold.1 2).1 demo_end demo_gen 2 true demo_last_report
    (demo_page_reachable _ 2 demo_fold_reachable small_2) small_2 demo_last_is)
    as (_ & _ & Hd & _).
  apply Hd. reflexivity.
Defined.

Lemma demo_page_folded e limit : folded (conn (demo_page e limit).1) = folded (conn e).
Proof.
  unfold demo_page, group_page. cbv zeta. destruct (result_bind _ _) as [[? ?]|]; done.
Qed.

Lemma demo_page_cursor e limit gen : demo_reachable e -> 0 <= limit <= u64_max -> gen <> demo_gen ->
  grouping_cursor (grouped (conn (demo_page e limit).1)) gen = grouping_cursor (grouped (conn e)) gen.
Proof.
  intros [log Hr]%(reachable_represents demo_dep demo_group demo_sha map_to_list (fun m => Permutation_refl _)) Hl Hne.
  destruct (demo_page e limit) as [e' res] eqn:E.
  apply (group_page_refines demo_dep demo_group e log Hr demo_gen limit map_to_list (fun m => Permutation_refl _)) in E; [|done].
  destruct res as [r|]; [|by subst]. destruct E as (_ & _ & _ & t & Hw & ->). cbn [fst].
  rewrite (after_page_done demo_dep demo_group e log Hr demo_gen limit t) by done. by rewrite bool_decide_eq_false_2.
Qed.

Lemma pages_do_not_matter_witness :
  issues (grouped (conn demo_end)) = issues (grouped (conn (demo_page demo_fold.1 100).1)).
Proof.
  apply (pages_do_not_matter demo_dep demo_group demo_sha map_to_list (fun m => Permutation_refl _) demo_end (demo_page demo_fold.1 100).1
    demo_end_reachable (demo_page_reachable _ 100 demo_fold_reachable small_100)).
  - unfold demo_end. by rewrite !demo_page_folded.
  - intros gen. destruct (decide (gen = demo_gen)) as [->|Hne]; [vm_compute; reflexivity|].
    unfold demo_end. rewrite (demo_page_cursor _ 2 gen (demo_page_reachable _ 2 demo_fold_reachable small_2) small_2 Hne).
    rewrite (demo_page_cursor _ 2 gen demo_fold_reachable small_2 Hne). symmetry. exact (demo_page_cursor _ 100 gen demo_fold_reachable small_100 Hne).
Defined.

Lemma folding_keeps_every_row_witness :
  exists r, fold_committed demo_sha demo_fold.1 (str "2026-02-28") (commit_key demo_keys) demo_commit (str "{}") demo_rows (4, Some 4) true
    = (demo_fold.1, Ok r) /\ inserted r = 0.
Proof.
  apply (folding_keeps_every_row demo_dep demo_group demo_sha map_to_list (fun m => Permutation_refl _) demo_open demo_fold.1
    (str "2026-02-28") (commit_key demo_keys) demo_commit (str "{}") demo_rows (4, Some 4) true (mkFoldReport 3 0 1) demo_open_reachable).
  change (demo_fold = (demo_fold.1, Ok (mkFoldReport 3 0 1))). rewrite <- demo_fold_report. apply surjective_pairing.
Defined.

Lemma grouping_phase_ends_witness :
  exists e' res, group_backlog (demo_group demo_gen) map_to_list demo_gen 1 5 (fun _ => true) (fun _ => false) (Z.to_nat 5) 0 demo_fold.1 no_report
    = Some (e', res) /\ folded (conn e') = folded (conn demo_fold.1).
Proof.
  destruct (grouping_phase_ends demo_dep demo_group demo_sha map_to_list (fun m => Permutation_refl _) demo_fold.1 demo_gen 1 5
    (fun _ => true) (fun _ => false) demo_fold_reachable ltac:(vm_compute; split; [reflexivity|discriminate]) ltac:(reflexivity))
    as (e' & res & E & _ & Hf & _).
  exists e', res. split; [exact E|exact Hf].
Defined.
