(* ===== verification/AlertTemplate.v ===== *)
(** * Notification templates

    [crates/alert/src/template.rs].  A JSON document is serde_json's [Value]: the text of
    a number stays opaque, an object keeps the order of its map.  Parsing and printing
    JSON ([from_str], [to_vec]) are parameters; a panic ([expect], [unreachable!]) is
    [None]. *)

From S2P Require Import Prelude Bytes.

Inductive Value :=
| VNull
| VBool (b : bool)
| VNumber (n : string)
| VString (text : bytes)
| VArray (values : list Value)
| VObject (values : list (bytes * Value)).

Definition MAX_TEMPLATE_BYTES : Z := 32 * 1024.
Definition MAX_TEMPLATE_NODES : Z := 1024.
Definition MAX_TEMPLATE_DEPTH : Z := 16.
Definition MAX_PLACEHOLDERS : Z := 128.
Definition MAX_RENDERED_BYTES : Z := 64 * 1024.

Definition ALLOWED : list bytes :=
  map str ["event_id"; "notification_id"; "transition"; "monitor_name"; "status"; "value"; "scry_url"].

Record CompiledJsonTemplate := mkTemplate { ast : Value }.

Inductive TemplateError :=
| TJson (message : string)
| TBounds
| TUnknownPlaceholder (name : bytes)
| TInvalidPlaceholder
| TOutputTooLarge.

Record TemplateValues := mkValues {
  v_event_id : bytes;
  v_notification_id : bytes;
  v_transition : bytes;
  v_monitor_name : bytes;
  v_status : bytes;
  v_value : bytes;
  v_scry_url : bytes;
}.

(** [TemplateValues::get]; another name is [unreachable!]. *)
Definition get (v : TemplateValues) (name : bytes) : option bytes :=
  if bool_decide (name = str "event_id") then Some (v_event_id v)
  else if bool_decide (name = str "notification_id") then Some (v_notification_id v)
  else if bool_decide (name = str "transition") then Some (v_transition v)
  else if bool_decide (name = str "monitor_name") then Some (v_monitor_name v)
  else if bool_decide (name = str "status") then Some (v_status v)
  else if bool_decide (name = str "value") then Some (v_value v)
  else if bool_decide (name = str "scry_url") then Some (v_scry_url v)
  else None.

(** ** [str::find] and [str::contains] *)

Fixpoint find (p l : bytes) : option nat :=
  if bool_decide (take (length p) l = p) then Some 0%nat
  else match l with [] => None | _ :: l' => S <$> find p l' end.

Definition contains (p l : bytes) : bool := match find p l with Some _ => true | None => false end.

Definition opening : bytes := str "{{".
Definition closing : bytes := str "}}".

(** ** Compilation *)

(** [placeholders], the loop; [visit] carries its state.  Every turn shortens [rest], so
    its length is enough fuel. *)
Fixpoint placeholders_loop {S} (visit : bytes -> S -> result TemplateError S) (fuel : nat) (rest : bytes) (s : S)
    : result TemplateError S :=
  match find opening rest with
  | None => if contains closing rest then Err TInvalidPlaceholder else Ok s
  | Some start =>
      match fuel with
      | O => Err TInvalidPlaceholder
      | Datatypes.S fuel =>
          let rest := drop (start + 2) rest in
          match find closing rest with
          | None => Err TInvalidPlaceholder
          | Some end_ =>
              let name := take end_ rest in
              if bool_decide (name = []) || contains (str "{") name || contains (str "}") name then Err TInvalidPlaceholder
              else
                let? s := visit name s in
                placeholders_loop visit fuel (drop (end_ + 2) rest) s
          end
      end
  end.

Definition placeholders {S} (visit : bytes -> S -> result TemplateError S) (input : bytes) (s : S) : result TemplateError S :=
  placeholders_loop visit (length input) input s.

(** The closure of [validate_ast] that is called on every placeholder. *)
Definition visit_name (name : bytes) (count : Z) : result TemplateError Z :=
  let count := count + 1 in
  if MAX_PLACEHOLDERS <? count then Err TBounds
  else if negb (bool_decide (name ∈ ALLOWED)) then Err (TUnknownPlaceholder name)
  else Ok count.

(** [validate_ast], the loop over the stack (its top is the last element in the source,
    the head here).  The turn that would be number [MAX_TEMPLATE_NODES + 2] is never
    reached: the one before it fails. *)
Fixpoint validate_loop (fuel : nat) (stack : list (Value * Z)) (nodes count : Z) : result TemplateError unit :=
  match stack with
  | [] => Ok tt
  | (value, depth) :: stack =>
      match fuel with
      | O => Err TBounds
      | S fuel =>
          let nodes := nodes + 1 in
          if (MAX_TEMPLATE_NODES <? nodes) || (MAX_TEMPLATE_DEPTH <? depth) then Err TBounds
          else
            match value with
            | VString text =>
                let? count := placeholders visit_name text count in
                validate_loop fuel stack nodes count
            | VArray values => validate_loop fuel (rev (map (fun v => (v, depth + 1)) values) ++ stack) nodes count
            | VObject values => validate_loop fuel (rev (map (fun kv => (snd kv, depth + 1)) values) ++ stack) nodes count
            | _ => validate_loop fuel stack nodes count
            end
      end
  end.

Definition validate_ast (root : Value) : result TemplateError unit :=
  validate_loop (Z.to_nat MAX_TEMPLATE_NODES + 1) [(root, 1)] 0 0.

(** ** Rendering *)

Fixpoint render_loop (values : TemplateValues) (fuel : nat) (rest text : bytes) : option bytes :=
  match find opening rest with
  | None => Some (text ++ rest)
  | Some start =>
      match fuel with
      | O => None
      | S fuel =>
          let text := text ++ take start rest in
          let after := drop (start + 2) rest in
          end_ ← find closing after;
          v ← get values (take end_ after);
          render_loop values fuel (drop (end_ + 2) after) (text ++ v)
      end
  end.

Definition render_text (values : TemplateValues) (text : bytes) : option bytes :=
  if negb (contains opening text) then Some text else render_loop values (length text) text [].

Fixpoint render_value (values : TemplateValues) (value : Value) : option Value :=
  match value with
  | VString text => VString <$> render_text values text
  | VArray items =>
      VArray <$> (fix go items := match items with
                  | [] => Some []
                  | i :: items => i ← render_value values i; items ← go items; Some (i :: items)
                  end) items
  | VObject items =>
      VObject <$> (fix go items := match items with
                   | [] => Some []
                   | (k, i) :: items => i ← render_value values i; items ← go items; Some ((k, i) :: items)
                   end) items
  | _ => Some value
  end.

Section Json.
  Context (from_str : bytes -> result string Value) (to_vec : Value -> result string bytes).

Definition compile (source : bytes) : result TemplateError CompiledJsonTemplate :=
  if MAX_TEMPLATE_BYTES <? zlen source then Err TBounds
  else
    let? ast := map_err TJson (from_str source) in
    let? _ := validate_ast ast in
    Ok (mkTemplate ast).

Definition render (t : CompiledJsonTemplate) (values : TemplateValues) : option (result TemplateError bytes) :=
  rendered ← render_value values (ast t);
  Some (let? output := map_err TJson (to_vec rendered) in
        if MAX_RENDERED_BYTES <? zlen output then Err TOutputTooLarge else Ok output).

(** [Deserialize for CompiledJsonTemplate], after [Value::deserialize]. *)
Definition deserialize_template (ast : Value) : result TemplateError CompiledJsonTemplate :=
  let? _ := validate_ast ast in
  let? bytes := map_err TJson (to_vec ast) in
  if MAX_TEMPLATE_BYTES <? zlen bytes then Err TBounds else Ok (mkTemplate ast).
End Json.

(** ** Searching *)

Lemma find_Some p l n :
  find p l = Some n -> l = take n l ++ p ++ drop (n + length p) l /\ (n + length p <= length l)%nat.
Proof.
  revert n. induction l as [|b l IH]; intros n; cbn [find]; case_bool_decide as Hp.
  - intros [= <-]. pose proof (f_equal length Hp) as E. rewrite length_take in E. cbn [length] in *.
    cbn [take app Nat.add]. rewrite <- Hp at 1. rewrite take_drop. split; [done|lia].
  - done.
  - intros [= <-]. pose proof (f_equal length Hp) as E. rewrite length_take in E.
    cbn [take Nat.add]. change ([] ++ ?x) with x. rewrite <- Hp at 1. rewrite take_drop. split; [done|lia].
  - intros (k & Hk & ->)%fmap_Some. destruct (IH _ Hk) as [H1 H2]. cbn [take drop Nat.add length].
    rewrite <- app_comm_cons, <- H1. split; [done|lia].
Qed.

Lemma find_before p l n : (0 < length p)%nat -> find p l = Some n -> find p (take n l) = None.
Proof.
  intros Hp. revert n. induction l as [|b l IH]; intros n; cbn [find]; case_bool_decide as Ht.
  - intros [= <-]. cbn. case_bool_decide as E; [|done]. rewrite take_nil in E. subst p. cbn in Hp. lia.
  - done.
  - intros [= <-]. cbn. case_bool_decide as E; [|done]. rewrite take_nil in E. subst p. cbn in Hp. lia.
  - intros (k & Hk & ->)%fmap_Some. cbn [take]. cbn [find]. rewrite (IH _ Hk). cbn.
    case_bool_decide as E; [|done]. destruct Ht. destruct (find_Some _ _ _ Hk) as [_ Hl].
    etransitivity; [|exact E]. pose proof (f_equal length E) as El. rewrite length_take in El. cbn [length] in El.
    rewrite length_take in El. assert (b :: l = (b :: take k l) ++ drop k l) as Hbl by (rewrite <- app_comm_cons; by rewrite take_drop).
    rewrite Hbl, take_app_le; [done|]. cbn [length]. rewrite length_take. lia.
Qed.

(** ** What a text means *)

Inductive Segment := Literal (text : bytes) | Hole (name : bytes).

Definition segment_source (s : Segment) : bytes :=
  match s with Literal l => l | Hole name => opening ++ name ++ closing end.
Definition source (segments : list Segment) : bytes := concat (map segment_source segments).

Definition segment_fill (values : TemplateValues) (s : Segment) : bytes :=
  match s with Literal l => l | Hole name => default [] (get values name) end.
Definition fill (values : TemplateValues) (segments : list Segment) : bytes :=
  concat (map (segment_fill values) segments).

Definition segment_ok (s : Segment) : Prop :=
  match s with Literal l => contains opening l = false | Hole name => name ∈ ALLOWED end.

Lemma get_allowed values name : name ∈ ALLOWED -> exists v, get values name = Some v.
Proof.
  intros H. unfold get. repeat case_bool_decide; eauto. exfalso.
  revert H. unfold ALLOWED. cbn [map]. rewrite !elem_of_cons, elem_of_nil. tauto.
Qed.

(** An accepted text is a list of literals and known placeholders, and renders as such. *)
Definition text_ok (text : bytes) : Prop :=
  exists segments, source segments = text /\ Forall segment_ok segments
    /\ forall values, render_text values text = Some (fill values segments).

Lemma visit_name_ok name count count' : visit_name name count = Ok count' -> name ∈ ALLOWED.
Proof. unfold visit_name. destruct (_ <? _); [done|]. by case_bool_decide. Qed.

Lemma placeholders_loop_ok fuel : forall rest count count',
  placeholders_loop visit_name fuel rest count = Ok count' ->
  exists segments, source segments = rest /\ Forall segment_ok segments
    /\ forall values fuel' text, (length rest <= fuel')%nat ->
         render_loop values fuel' rest text = Some (text ++ fill values segments).
Proof.
  induction fuel as [|fuel IH]; intros rest count count'; cbn [placeholders_loop]; destruct (find opening rest) as [start|] eqn:Es; try done.
  1,3: destruct (contains closing rest); [done|]; intros _; exists [Literal rest]; unfold source, fill;
    cbn [map concat segment_source segment_fill]; rewrite !app_nil_r; (split; [done|]); (split; [|by intros values [|fuel'] text _; cbn [render_loop]; rewrite Es]);
    apply Forall_singleton; cbn [segment_ok]; unfold contains; by rewrite Es.
  destruct (find closing (drop (start + 2) rest)) as [end_|] eqn:Ee; [|done]. set (after := drop (start + 2) rest) in *.
  destruct (_ || _ || _); [done|]. intros (count1 & Hv & H)%bind_ok. apply visit_name_ok in Hv. apply IH in H as (segs & Hsrc & Hok & Hr).
  destruct (find_Some _ _ _ Es) as [Hrest Hlen]. destruct (find_Some _ _ _ Ee) as [Hafter Hlen2]. cbn [length] in Hlen, Hlen2.
  exists (Literal (take start rest) :: Hole (take end_ after) :: segs). split_and!.
  - unfold source. cbn [map concat segment_source]. fold (source segs). rewrite Hsrc. rewrite Hrest at 2. f_equal.
    change (start + length opening)%nat with (start + 2)%nat. fold after. rewrite Hafter at 3. by rewrite <- !app_assoc.
  - constructor; [cbn [segment_ok]; unfold contains; by rewrite (find_before opening rest start ltac:(vm_compute; lia) Es)|]. by constructor.
  - intros values fuel' text Hf. destruct fuel' as [|fuel']; [change (length opening) with 2%nat in Hlen; lia|].
    cbn [render_loop]. rewrite Es. fold after. rewrite Ee. cbn [mbind option_bind].
    destruct (get_allowed values _ Hv) as (v & Hg). rewrite Hg. cbn [mbind option_bind]. rewrite Hr.
    + f_equal. unfold fill. cbn [map concat segment_fill]. rewrite Hg. cbn [default]. by rewrite <- !app_assoc.
    + unfold after. rewrite !length_drop. change (length opening) with 2%nat in Hlen. lia.
Qed.

Lemma placeholders_text_ok text count count' : placeholders visit_name text count = Ok count' -> text_ok text.
Proof.
  intros (segs & Hsrc & Hok & Hr)%placeholders_loop_ok. destruct (contains opening text) eqn:Ec.
  - exists segs. split_and!; [done..|]. intros values. unfold render_text. rewrite Ec. cbn [negb]. by rewrite (Hr values (length text) [] ltac:(lia)).
  - exists [Literal text]. unfold source, fill. cbn [map concat segment_source segment_fill]. rewrite !app_nil_r. (split; [done|]). split; [by apply Forall_singleton|].
    intros values. unfold render_text. by rewrite Ec.
Qed.

(** ** Documents *)

Section ValueInduction.
  Context (P : Value -> Prop).
  Context (Hnull : P VNull) (Hbool : forall b, P (VBool b)) (Hnumber : forall n, P (VNumber n)) (Hstring : forall text, P (VString text)).
  Context (Harray : forall l, Forall P l -> P (VArray l)) (Hobject : forall l, Forall (fun kv => P (snd kv)) l -> P (VObject l)).

Fixpoint Value_nested_ind (v : Value) : P v :=
  match v with
  | VArray l => Harray l ((fix go l := match l return Forall P l with [] => Forall_nil_2 P | v :: l => Forall_cons_2 P v l (Value_nested_ind v) (go l) end) l)
  | VObject l => Hobject l ((fix go l := match l return Forall (fun kv => P (snd kv)) l with
                             | [] => Forall_nil_2 _
                             | kv :: l => Forall_cons_2 (fun kv => P (snd kv)) kv l (Value_nested_ind (snd kv)) (go l) end) l)
  | VNull => Hnull
  | VBool b => Hbool b
  | VNumber n => Hnumber n
  | VString text => Hstring text
  end.
End ValueInduction.

Fixpoint size (v : Value) : Z :=
  match v with
  | VArray l => 1 + fold_right (fun v acc => size v + acc) 0 l
  | VObject l => 1 + fold_right (fun kv acc => size (snd kv) + acc) 0 l
  | _ => 1
  end.

Fixpoint depth (v : Value) : Z :=
  match v with
  | VArray l => 1 + fold_right (fun v acc => Z.max (depth v) acc) 0 l
  | VObject l => 1 + fold_right (fun kv acc => Z.max (depth (snd kv)) acc) 0 l
  | _ => 1
  end.

Fixpoint texts (v : Value) : list bytes :=
  match v with
  | VString text => [text]
  | VArray l => concat (map texts l)
  | VObject l => concat (map (fun kv => texts (snd kv)) l)
  | _ => []
  end.

(** [rendered values v v']: [v'] is [v] with its texts filled in and nothing else changed. *)
Inductive rendered (values : TemplateValues) : Value -> Value -> Prop :=
| rendered_null : rendered values VNull VNull
| rendered_bool b : rendered values (VBool b) (VBool b)
| rendered_number n : rendered values (VNumber n) (VNumber n)
| rendered_string segments :
    Forall segment_ok segments -> rendered values (VString (source segments)) (VString (fill values segments))
| rendered_array l l' : Forall2 (rendered values) l l' -> rendered values (VArray l) (VArray l')
| rendered_object l l' :
    Forall2 (fun kv kv' => fst kv' = fst kv /\ rendered values (snd kv) (snd kv')) l l' -> rendered values (VObject l) (VObject l').

Lemma render_value_ok values v : Forall text_ok (texts v) -> exists v', render_value values v = Some v' /\ rendered values v v'.
Proof.
  induction v as [|b|n|text|l IH|l IH] using Value_nested_ind.
  1-3: intros _; eexists; split; [done|constructor].
  - intros H. apply Forall_singleton in H as (segs & <- & Hok & Hr). exists (VString (fill values segs)).
    split; [cbn [render_value]; by rewrite Hr|by constructor].
  - cbn [texts]. intros H. cut (exists l', (fix go items := match items with
        | [] => Some [] | i :: items => i ← render_value values i; items ← go items; Some (i :: items) end) l = Some l'
        /\ Forall2 (rendered values) l l').
    { intros (l' & E & Hf). exists (VArray l'). cbn [render_value]. rewrite E. split; [done|by constructor]. }
    induction IH as [|v l Hv _ IHl]; [by exists []; split; [|constructor]|]. cbn [map concat] in H. apply Forall_app in H as [H1 H2].
    destruct (Hv H1) as (v' & Ev & Hr). destruct (IHl H2) as (l' & El & Hf). exists (v' :: l'). rewrite Ev. cbn [mbind option_bind]. rewrite El.
    split; [done|by constructor].
  - cbn [texts]. intros H. cut (exists l', (fix go items := match items with
        | [] => Some [] | (k, i) :: items => i ← render_value values i; items ← go items; Some ((k, i) :: items) end) l = Some l'
        /\ Forall2 (fun kv kv' => fst kv' = fst kv /\ rendered values (snd kv) (snd kv')) l l').
    { intros (l' & E & Hf). exists (VObject l'). cbn [render_value]. rewrite E. split; [done|by constructor]. }
    induction IH as [|[k v] l Hv _ IHl]; [by exists []; split; [|constructor]|]. cbn [map concat snd] in *. apply Forall_app in H as [H1 H2].
    destruct (Hv H1) as (v' & Ev & Hr). destruct (IHl H2) as (l' & El & Hf). exists ((k, v') :: l'). rewrite Ev. cbn [mbind option_bind]. rewrite El.
    split; [done|by constructor].
Qed.

(** ** What the validation has seen *)

Lemma size_pos v : 1 <= size v.
Proof.
  induction v as [|b|n|text|l IH|l IH] using Value_nested_ind; cbn [size]; try lia;
    induction IH; cbn [fold_right]; lia.
Qed.

Definition stack_size (stack : list (Value * Z)) : Z := fold_right (fun vd acc => size (fst vd) + acc) 0 stack.

Lemma stack_size_app s t : stack_size (s ++ t) = stack_size s + stack_size t.
Proof. induction s as [|x s IH]; [done|]. rewrite <- app_comm_cons. cbn [stack_size fold_right]. fold (stack_size (s ++ t)) (stack_size s). lia. Qed.

Lemma stack_size_perm s t : s ≡ₚ t -> stack_size s = stack_size t.
Proof. unfold stack_size. induction 1; cbn [fold_right]; lia. Qed.

Definition entry_ok (vd : Value * Z) : Prop :=
  Forall text_ok (texts (fst vd)) /\ snd vd + depth (fst vd) <= MAX_TEMPLATE_DEPTH + 1.

(** Children on the stack, one level down, make their parent. *)
Lemma children_ok {X} (f : X -> Value) (l : list X) d stack :
  d <= MAX_TEMPLATE_DEPTH ->
  Forall entry_ok (rev (map (fun x => (f x, d + 1)) l) ++ stack) ->
  Forall text_ok (concat (map (fun x => texts (f x)) l))
  /\ d + (1 + fold_right (fun x acc => Z.max (depth (f x)) acc) 0 l) <= MAX_TEMPLATE_DEPTH + 1
  /\ Forall entry_ok stack.
Proof.
  intros Hd [H Hs]%Forall_app. split_and!; [..|done].
  all: apply Forall_rev in H; rewrite rev_involutive in H; rewrite List.Forall_map in H; clear Hs.
  - induction H as [|x l' [Hx _] _ IH]; [constructor|]. cbn [map concat]. apply Forall_app. done.
  - induction H as [|x l' [_ Hx] _ IH]; cbn [fold_right] in *; [lia|]. unfold compose in Hx. cbn [fst snd] in Hx. lia.
Qed.

Lemma children_size {X} (f : X -> Value) (l : list X) d stack :
  stack_size (rev (map (fun x => (f x, d)) l) ++ stack) = fold_right (fun x acc => size (f x) + acc) 0 l + stack_size stack.
Proof.
  rewrite stack_size_app. f_equal. rewrite (stack_size_perm _ (map (fun x => (f x, d)) l)) by (symmetry; apply Permutation_rev).
  induction l as [|x l IH]; [done|]. cbn [map stack_size fold_right fst]. by f_equal.
Qed.

Lemma validate_loop_ok fuel : forall stack nodes count,
  validate_loop fuel stack nodes count = Ok tt -> nodes <= MAX_TEMPLATE_NODES ->
  Forall entry_ok stack /\ nodes + stack_size stack <= MAX_TEMPLATE_NODES.
Proof.
  induction fuel as [|fuel IH]; intros [|[v d] stack] nodes count; cbn [validate_loop]; try done.
  1,2: cbn; split; [constructor|lia].
  destruct (Z.ltb_spec MAX_TEMPLATE_NODES (nodes + 1)) as [|Hn]; [done|]. destruct (Z.ltb_spec MAX_TEMPLATE_DEPTH d) as [|Hd]; [done|]. cbn [orb].
  cbn [stack_size fold_right fst]. fold (stack_size stack).
  assert (forall c, validate_loop fuel stack (nodes + 1) c = Ok tt -> Forall text_ok (texts v) -> size v = 1 -> depth v = 1 ->
    Forall entry_ok ((v, d) :: stack) /\ nodes + (size v + stack_size stack) <= MAX_TEMPLATE_NODES) as Hleaf.
  { intros c H Ht Hs Hdep. apply IH in H as [H1 H2]; [|lia]. split; [|lia]. constructor; [|done]. split; [done|]. cbn [fst snd]. lia. }
  destruct v as [| | |text|l|l]; intros H Hle.
  1-3: apply (Hleaf _ H); [constructor|done|done].
  - apply bind_ok in H as (c & Hp & H). apply (Hleaf _ H); [|done|done]. apply Forall_singleton. by eapply placeholders_text_ok.
  - apply IH in H as [H1 H2]; [|lia]. rewrite (children_size (fun v => v)) in H2. apply (children_ok (fun v => v)) in H1 as (Ht & Hdep & Hs); [|done].
    cbn [size]. split; [|lia]. constructor; [|done]. split; [done|]. cbn [fst snd depth]. lia.
  - apply IH in H as [H1 H2]; [|lia]. rewrite (children_size snd) in H2. apply (children_ok snd) in H1 as (Ht & Hdep & Hs); [|done].
    cbn [size]. split; [|lia]. constructor; [|done]. split; [done|]. cbn [fst snd depth]. lia.
Qed.

Lemma validate_ast_ok root :
  validate_ast root = Ok tt -> Forall text_ok (texts root) /\ size root <= MAX_TEMPLATE_NODES /\ depth root <= MAX_TEMPLATE_DEPTH.
Proof.
  unfold validate_ast. intros H. apply validate_loop_ok in H as [H1 H2]; [|vm_compute; discriminate]. apply Forall_singleton in H1 as [Ht Hd].
  cbn [fst snd stack_size fold_right] in *. split; [done|lia].
Qed.

(** A template that was compiled, or read back from a stored record, renders with any
    values: no placeholder is unknown or unclosed, so neither the [expect] nor the
    [unreachable!] of the renderer is reached.  The result is the document itself with
    every placeholder of a text replaced by its value, byte for byte, and never scanned
    again: keys, numbers and the shape of the document do not depend on the values.  The
    document has at most [MAX_TEMPLATE_NODES] nodes and [MAX_TEMPLATE_DEPTH] levels. *)
Theorem templates_render (from_str : bytes -> result string Value) (to_vec : Value -> result string bytes)
    (source : bytes) (stored : Value) (t : CompiledJsonTemplate) :
  compile from_str source = Ok t \/ deserialize_template to_vec stored = Ok t ->
  size (ast t) <= MAX_TEMPLATE_NODES /\ depth (ast t) <= MAX_TEMPLATE_DEPTH
  /\ forall values, exists v,
       rendered values (ast t) v
       /\ render to_vec t values = Some (let? output := map_err TJson (to_vec v) in
                                         if MAX_RENDERED_BYTES <? zlen output then Err TOutputTooLarge else Ok output).
Proof.
  intros H. assert (validate_ast (ast t) = Ok tt) as Hv.
  { destruct H as [H|H]; revert H; unfold compile, deserialize_template; [destruct (_ <? _); [done|]|].
    - intros (v & _ & H)%bind_ok. apply bind_ok in H as ([] & Hv & [= <-]). done.
    - intros ([] & Hv & H)%bind_ok. apply bind_ok in H as (b & _ & H). destruct (_ <? _); [done|]. injection H as H. by rewrite <- H. }
  destruct (validate_ast_ok _ Hv) as (Ht & Hs & Hd). split_and!; [done..|]. intros values.
  destruct (render_value_ok values _ Ht) as (v & Er & Hr). exists v. split; [done|]. unfold render. by rewrite Er.
Qed.

Definition demo_ast : Value :=
  VObject [(str "{{event_id}}", VString (str "alert {{monitor_name}} is {{status}}")); (str "n", VNumber "1")].
Definition demo_values : TemplateValues :=
  mkValues (str "e") (str "n") (str "t") (str "{{value}}") (str "firing") (str "1") (str "u").

Lemma templates_render_witness :
  compile (fun _ => Ok demo_ast) [] = Ok (mkTemplate demo_ast)
  /\ render_value demo_values demo_ast = Some (VObject [(str "{{event_id}}", VString (str "alert {{value}} is firing")); (str "n", VNumber "1")])
  /\ size demo_ast <= MAX_TEMPLATE_NODES.
Proof.
  split; [vm_compute; reflexivity|]. split; [vm_compute; reflexivity|].
  apply (templates_render (fun _ => Ok demo_ast) (fun _ => Ok []) [] VNull (mkTemplate demo_ast)). left. vm_compute. reflexivity.
Defined.
