(* ===== verification/AlertRecords.v ===== *)
(** * Durable alert records

    [crates/alert/src/records.rs] (heads, tombstones, receipts, transitions and the keys
    they are stored under), [target.rs] (notification targets) and [validation.rs] (what a
    rule may say).  SHA-256 and the SQL parser are parameters; of a parsed query only what
    the validation looks at is kept, and [visit_relations] lists the relations of a query. *)

From S2P Require Import Prelude Bytes Alert Text Occurrence AlertTemplate.

Definition ALERT_RECORD_SCHEMA_VERSION : Z := 1.
Definition STATE_RECORD_SCHEMA_VERSION : Z := 2.
Definition MONITOR_SCHEMA_VERSION : Z := 1.

(** ** Rules *)

Record RuleHead := mkRuleHead {
  rh_schema_version : Z;
  rh_monitor_id : Z;
  rh_revision : Z;
  rh_revision_key : bytes;
  rh_updated_at_unix_nano : Z;
  rh_deleted : bool;
  rh_tombstone_key : option bytes;
}.

Record RuleTombstone := mkRuleTombstone {
  rt_schema_version : Z;
  rt_monitor_id : Z;
  rt_revision : Z;
  rt_command_id : bytes;
  rt_deleted_at_unix_nano : Z;
}.

(** [RuleMutationKind] and [TargetMutationKind]. *)
Inductive MutationKind := Create | Update.

Record RuleMutationReceipt := mkRuleReceipt {
  rr_schema_version : Z;
  rr_command_id : bytes;
  rr_kind : MutationKind;
  rr_monitor_id : Z;
  rr_revision : Z;
  rr_request_sha256 : bytes;
}.

(** ** Notification targets *)

Definition MAX_TARGET_NAME_BYTES : Z := 256.
Definition MAX_ENDPOINT_BYTES : Z := 2048.
Definition MAX_HEADERS : Z := 32.
Definition MAX_HEADER_BYTES : Z := 1024.
Definition MAX_TIMEOUT_MILLIS : Z := 120000.
Definition SIGNATURE_HEADER : bytes := str "x-scry-signature".
Definition SIGNATURE_TIMESTAMP_HEADER : bytes := str "x-scry-signature-timestamp".

Definition RESERVED_HEADERS : list bytes :=
  map str ["host"; "content-length"; "content-type"; "connection"; "keep-alive"; "transfer-encoding"; "upgrade"; "expect";
           "proxy-authorization"; "proxy-authenticate"; "proxy-connection"; "te"; "trailer"; "cookie"; "idempotency-key"]
  ++ [SIGNATURE_HEADER; SIGNATURE_TIMESTAMP_HEADER].

(** [u8::to_ascii_lowercase], which [eq_ignore_ascii_case] compares. *)
Definition ascii_lower (b : u8) : u8 := if (65 <=? b2z b) && (b2z b <=? 90) then z2b (b2z b + 32) else b.
Definition eq_ignore_ascii_case (a b : bytes) : bool := bool_decide (map ascii_lower a = map ascii_lower b).

Definition is_reserved_header (name : bytes) : bool := existsb (fun reserved => eq_ignore_ascii_case name reserved) RESERVED_HEADERS.

Inductive BuiltInTargetFormat := GenericJson | Slack | CrossNotifier.
Inductive TargetFormat := BuiltIn (format : BuiltInTargetFormat) | CustomJson (template : CompiledJsonTemplate).

Record TargetHeader := mkHeader { th_name : bytes; th_value : bytes }.

Inductive NotificationTargetKind := GenericWebhook (url : bytes) (headers : list TargetHeader) | SlackWebhook.

Record NotificationTarget := mkTarget {
  nt_schema_version : Z;
  nt_id : Z;
  nt_revision : Z;
  nt_name : bytes;
  nt_enabled : bool;
  nt_kind : NotificationTargetKind;
  nt_format : TargetFormat;
  nt_timeout_millis : Z;
  nt_logical_secret_id : Z;
  nt_secret_generation : Z;
  nt_created_at_unix_nano : Z;
  nt_updated_at_unix_nano : Z;
}.

Record NotificationTargetProjection := mkTargetProjection {
  np_id : Z;
  np_revision : Z;
  np_name : bytes;
  np_enabled : bool;
  np_kind : NotificationTargetKind;
  np_format : TargetFormat;
  np_timeout_millis : Z;
  np_has_secret : bool;
  np_created_at_unix_nano : Z;
  np_updated_at_unix_nano : Z;
}.

Definition target_projection (t : NotificationTarget) : NotificationTargetProjection :=
  mkTargetProjection (nt_id t) (nt_revision t) (nt_name t) (nt_enabled t) (nt_kind t) (nt_format t) (nt_timeout_millis t)
    (0 <? nt_secret_generation t) (nt_created_at_unix_nano t) (nt_updated_at_unix_nano t).

Inductive TargetValidationError := TInvalidName | TInvalidTimeout | TTargetBounds | TReservedHeader (name : bytes).

Definition validate_target (t : NotificationTarget) : result TargetValidationError unit :=
  if (zlen (nt_name t) =? 0) || (MAX_TARGET_NAME_BYTES <? zlen (nt_name t)) then Err TInvalidName
  else if (nt_timeout_millis t =? 0) || (MAX_TIMEOUT_MILLIS <? nt_timeout_millis t) then Err TInvalidTimeout
  else
    match nt_kind t with
    | GenericWebhook url headers =>
        if (MAX_ENDPOINT_BYTES <? zlen url) || (MAX_HEADERS <? zlen headers)
           || existsb (fun h => MAX_HEADER_BYTES <? zlen (th_name h) + zlen (th_value h)) headers
        then Err TTargetBounds
        else
          match List.find (fun h => is_reserved_header (th_name h)) headers with
          | Some reserved => Err (TReservedHeader (th_name reserved))
          | None => Ok tt
          end
    | SlackWebhook => Ok tt
    end.

Record TargetHead := mkTargetHead {
  tg_schema_version : Z;
  tg_target_id : Z;
  tg_revision : Z;
  tg_revision_key : bytes;
  tg_updated_at_unix_nano : Z;
  tg_deleted : bool;
  tg_tombstone_key : option bytes;
}.

Record TargetTombstone := mkTargetTombstone {
  tt_schema_version : Z;
  tt_target_id : Z;
  tt_revision : Z;
  tt_command_id : bytes;
  tt_deleted_at_unix_nano : Z;
}.

Record TargetMutationReceipt := mkTargetReceipt {
  tr_schema_version : Z;
  tr_command_id : bytes;
  tr_kind : MutationKind;
  tr_target_id : Z;
  tr_revision : Z;
  tr_request_sha256 : bytes;
  tr_candidate : NotificationTarget;
}.

(** ** Alert state *)

Inductive DurableObservation := DValue (value : f64) | DNoData | DError (class : string).

Definition durable (o : Observation) : DurableObservation :=
  match o with ObsValue v => DValue v | ObsNoData => DNoData | ObsError c => DError c end.

Record NotificationIntentPlaceholder := mkIntent { ni_schema_version : Z; ni_event_id : bytes }.

Record TransitionRecord := mkTransition {
  t_schema_version : Z;
  t_deployment_id : bytes;
  t_monitor_id : Z;
  t_monitor_revision : Z;
  t_slot_id : Z;
  t_evaluated_at_unix_nano : Z;
  t_observation : DurableObservation;
  t_previous_status : option AlertStatus;
  t_resumed : bool;
  t_state : AlertState;
  t_previous_transition_key : option bytes;
  t_notification_intents : list NotificationIntentPlaceholder;
}.

Record TransitionRef := mkRef {
  ref_sequence : Z;
  ref_monitor_revision : Z;
  ref_slot_id : Z;
  ref_status : AlertStatus;
  ref_sha256 : bytes;
}.

#[export] Instance TransitionRef_eq_dec : EqDecision TransitionRef.
Proof. solve_decision. Defined.
#[export] Instance RuleHead_eq_dec : EqDecision RuleHead.
Proof. solve_decision. Defined.
#[export] Instance TargetHead_eq_dec : EqDecision TargetHead.
Proof. solve_decision. Defined.

Record StateHead := mkStateHead {
  h_schema_version : Z;
  h_deployment_id : bytes;
  h_monitor_id : Z;
  h_state : AlertState;
  h_latest_transition : TransitionRef;
  h_updated_at_unix_nano : Z;
}.

(** Lexicographic [(a, b) > (c, d)]. *)
Definition pair_gt (a b c d : Z) : bool := (c <? a) || ((a =? c) && (d <? b)).

Definition validate_head (h : StateHead) (deployment_id : bytes) (monitor_id : Z) : result string unit :=
  let t := h_latest_transition h in
  let s := h_state h in
  if negb (h_schema_version h =? STATE_RECORD_SCHEMA_VERSION) then Err "unsupported state head schema version"
  else if negb (bool_decide (h_deployment_id h = deployment_id)) || negb (h_monitor_id h =? monitor_id)
  then Err "state head ownership does not match its key"
  else if (ref_sequence t =? 0) || negb (ref_sequence t =? transition_sequence s) || negb (bool_decide (ref_status t = status s))
  then Err "state head does not match its latest transition"
  else if pair_gt (ref_monitor_revision t) (ref_slot_id t) (monitor_revision s) (last_slot_id s)
  then Err "state head is older than its latest transition"
  else Ok tt.

(** ** Keys *)

Definition uuid_text (id : Z) : bytes := hyphenated (be_bytes 16 id).

(** [{:020}] of a [u64]: its twenty decimal digits. *)
Fixpoint decimals (n : nat) (z : Z) : bytes :=
  match n with O => [] | S n => decimals n (z / 10) ++ [z2b (48 + z mod 10)] end.
Definition dec020 (z : Z) : bytes := decimals 20 z.

Definition rule_head_key (id : Z) : bytes := str "_scry/alerts/v1/rules/" ++ uuid_text id ++ str "/head.json".
Definition transition_key (id sequence monitor_revision slot_id : Z) (st : AlertStatus) : bytes :=
  str "_scry/alerts/v1/transitions/v2/" ++ uuid_text id ++ str "/" ++ dec020 sequence ++ str "-" ++ dec020 monitor_revision ++ str "-"
    ++ dec020 slot_id ++ str "-" ++ str (as_str st) ++ str ".json".
Definition state_head_key (id : Z) : bytes := str "_scry/alerts/v1/state/v2/" ++ uuid_text id ++ str "/head.json".
Definition target_head_key (id : Z) : bytes := str "_scry/alerts/v1/targets/" ++ uuid_text id ++ str "/head.json".

Definition reference_key (r : TransitionRef) (monitor_id : Z) : bytes :=
  transition_key monitor_id (ref_sequence r) (ref_monitor_revision r) (ref_slot_id r) (ref_status r).

(** [str::contains] of a text, and [strip_prefix(prefix)] with what may follow. *)
Definition is_revision_key (prefix key : bytes) : bool :=
  match strip_prefix prefix key with
  | None => false
  | Some tail =>
      (match strip_suffix (str ".json") tail with Some _ => true | None => false end)
      && negb (bool_decide (tail = str "head.json"))
      && (match strip_prefix (str "tombstones/") tail with Some _ => false | None => true end)
      && negb (contains (str "..") tail)
  end.

Definition is_rule_revision_key (id : Z) (key : bytes) : bool :=
  is_revision_key (str "_scry/alerts/v1/rules/" ++ uuid_text id ++ str "/") key.
Definition is_target_revision_key (id : Z) (key : bytes) : bool :=
  is_revision_key (str "_scry/alerts/v1/targets/" ++ uuid_text id ++ str "/") key.

Section Digests.
  Context (sha256 : bytes -> bytes).

Definition sha256_hex (l : bytes) : bytes := hex_bytes (sha256 l).

Definition rule_revision_key (id revision : Z) (command_id : bytes) : bytes :=
  str "_scry/alerts/v1/rules/" ++ uuid_text id ++ str "/revisions/" ++ dec020 revision ++ str "-" ++ sha256_hex command_id ++ str ".json".
Definition rule_tombstone_key (id : Z) (command_id : bytes) : bytes :=
  str "_scry/alerts/v1/rules/" ++ uuid_text id ++ str "/tombstones/" ++ sha256_hex command_id ++ str ".json".
Definition rule_mutation_receipt_key (command_id : bytes) : bytes :=
  str "_scry/alerts/v1/commands/" ++ sha256_hex command_id ++ str ".json".
Definition target_revision_key (id revision : Z) (command_id : bytes) : bytes :=
  str "_scry/alerts/v1/targets/" ++ uuid_text id ++ str "/revisions/" ++ dec020 revision ++ str "-" ++ sha256_hex command_id ++ str ".json".
Definition target_tombstone_key (id : Z) (command_id : bytes) : bytes :=
  str "_scry/alerts/v1/targets/" ++ uuid_text id ++ str "/tombstones/" ++ sha256_hex command_id ++ str ".json".
Definition target_mutation_receipt_key (command_id : bytes) : bytes :=
  str "_scry/alerts/v1/target-commands/" ++ sha256_hex command_id ++ str ".json".

Definition rule_head (m : Monitor) (command_id : bytes) : RuleHead :=
  mkRuleHead ALERT_RECORD_SCHEMA_VERSION (id m) (revision m) (rule_revision_key (id m) (revision m) command_id)
    (updated_at_unix_nano m) false None.
Definition target_head (t : NotificationTarget) (command_id : bytes) : TargetHead :=
  mkTargetHead ALERT_RECORD_SCHEMA_VERSION (nt_id t) (nt_revision t) (target_revision_key (nt_id t) (nt_revision t) command_id)
    (nt_updated_at_unix_nano t) false None.

Context (transition_json : TransitionRecord -> result string bytes).

(** [TransitionRecord::reference]. *)
Definition reference (r : TransitionRecord) : result string TransitionRef :=
  let? json := transition_json r in
  Ok (mkRef (transition_sequence (t_state r)) (t_monitor_revision r) (t_slot_id r) (status (t_state r)) (sha256_hex json)).

Definition verify_transition (h : StateHead) (r : TransitionRecord) : result string unit :=
  let? reference := map_err (fun _ => "transition record cannot be serialized") (reference r) in
  if negb (t_schema_version r =? STATE_RECORD_SCHEMA_VERSION)
     || negb (bool_decide (t_deployment_id r = h_deployment_id h)) || negb (t_monitor_id r =? h_monitor_id h)
     || negb (t_monitor_revision r =? monitor_revision (t_state r)) || negb (t_slot_id r =? last_slot_id (t_state r))
     || negb (bool_decide (reference = h_latest_transition h))
  then Err "state head and transition record do not match"
  else Ok tt.
End Digests.

(** ** Validation of rules *)

Definition MAX_NAME_BYTES : Z := 256.
Definition MAX_TARGET_ID_BYTES : Z := 64.
Definition MAX_SQL_BYTES : Z := 16 * 1024.
Definition MAX_MATCHERS : Z := 64.
Definition MAX_MAP_ENTRIES : Z := 64.
Definition MAX_KEY_BYTES : Z := 128.
Definition MAX_VALUE_BYTES : Z := 4 * 1024.
Definition MAX_LOOKBACK_SECONDS : Z := 31 * 24 * 60 * 60.
Definition MAX_HOLD_SECONDS : Z := 31 * 24 * 60 * 60.
Definition MIN_INTERVAL_SECONDS : Z := 10.
Definition MAX_INTERVAL_SECONDS : Z := 24 * 60 * 60.

Inductive ValidationError := Invalid (message : string) | Sql (message : string).

Definition table_name (s : Signal) : string :=
  match s with Metrics => "metrics" | Logs => "logs" | Traces => "traces" | Profiles => "profiles" end.

Definition slen (s : string) : Z := Z.of_nat (String.length s).

Definition bounded_nonempty (value : string) (maximum : Z) (message : string) : result ValidationError unit :=
  if (slen value =? 0) || (maximum <? slen value) then Err (Invalid message) else Ok tt.

Fixpoint validate_entries (keys : gset string) (values : list (string * string)) : result ValidationError unit :=
  match values with
  | [] => Ok tt
  | (key, value) :: values =>
      let? _ := bounded_nonempty key MAX_KEY_BYTES "map key is empty or too long" in
      if MAX_VALUE_BYTES <? slen value then Err (Invalid "map value is too long")
      else if bool_decide (key ∈ keys) then Err (Invalid "duplicate map key")
      else validate_entries ({[key]} ∪ keys) values
  end.

Definition validate_map (values : list (string * string)) : result ValidationError unit :=
  if MAX_MAP_ENTRIES <? zlen values then Err (Invalid "too many labels or annotations")
  else validate_entries ∅ values.

Fixpoint validate_matchers (l : list EqualityMatcher) : result ValidationError unit :=
  match l with
  | [] => Ok tt
  | m :: l =>
      let? _ := bounded_nonempty (em_name m) MAX_KEY_BYTES "matcher name is empty or too long" in
      if MAX_VALUE_BYTES <? slen (em_value m) then Err (Invalid "matcher value is too long")
      else validate_matchers l
  end.

(** The parts of a parsed statement: an identifier of a name is [None] when the part is
    not one. *)
Abbreviation ObjectName := (list (option string)).
Inductive TableFactor := Table (name : ObjectName) (args : bool) | OtherFactor.
Record TableWithJoins := mkFrom { relation : TableFactor; joins : nat }.
Inductive SetExpr := SetSelect (from : list TableWithJoins) | SetQuery (q : SqlQuery) | SetOther
with SqlQuery := mkSqlQuery (with_ : bool) (body : SetExpr).
Inductive SqlStatement := QueryStatement (q : SqlQuery) | OtherStatement.

Definition simple_name (name : ObjectName) : result ValidationError string :=
  match name with
  | [part] => match part with Some value => Ok value | None => Err (Invalid "invalid table name") end
  | _ => Err (Invalid "qualified table names are not allowed")
  end.

Definition collect_table (from : TableWithJoins) : result ValidationError string :=
  if negb (Nat.eqb (joins from) 0) then Err (Invalid "joins are not allowed in alert SQL")
  else
    match relation from with
    | OtherFactor => Err (Invalid "derived/external table factors are not allowed")
    | Table name args =>
        if args then Err (Invalid "table-valued functions are not allowed") else simple_name name
    end.

(** The table that a query pushes; a query that pushes none fails. *)
Fixpoint collect_query_tables (query : SqlQuery) : result ValidationError (list string) :=
  match query with
  | mkSqlQuery with_ body =>
      if with_ then Err (Invalid "CTEs are not allowed in alert SQL")
      else
        match body with
        | SetSelect [from] => let? t := collect_table from in Ok [t]
        | SetSelect _ => Err (Invalid "alert SQL requires exactly one FROM")
        | SetQuery inner => collect_query_tables inner
        | SetOther => Err (Invalid "set operations and non-SELECT query bodies are not allowed")
        end
  end.

Fixpoint simple_names (relations : list ObjectName) : result ValidationError (list string) :=
  match relations with
  | [] => Ok []
  | r :: relations => let? n := simple_name r in let? ns := simple_names relations in Ok (n :: ns)
  end.

Section Validation.
  Context (parse_sql : string -> result string (list SqlStatement)) (relations : SqlQuery -> list ObjectName).

Definition validate_scalar_sql (sql expected_table : string) : result ValidationError unit :=
  let? _ := bounded_nonempty sql MAX_SQL_BYTES "SQL is empty or too long" in
  let? statements := map_err Sql (parse_sql sql) in
  match statements with
  | [QueryStatement query] =>
      let? tables := collect_query_tables query in
      let? all_relations := simple_names (relations query) in
      if negb (bool_decide (tables = [expected_table])) || negb (bool_decide (all_relations = [expected_table]))
      then Err (Invalid "SQL must read exactly the selected signal table")
      else Ok tt
  | [OtherStatement] => Err (Invalid "only SELECT/query statements are allowed")
  | _ => Err (Invalid "SQL must contain exactly one statement")
  end.

Definition validate_monitor (m : Monitor) : result ValidationError unit :=
  if negb (schema_version m =? MONITOR_SCHEMA_VERSION) then Err (Invalid "unsupported monitor schema version")
  else
    let? _ := bounded_nonempty (name m) MAX_NAME_BYTES "name is empty or too long" in
    let? _ := bounded_nonempty (target_id (query m)) MAX_TARGET_ID_BYTES "target ID is empty or too long" in
    if revision m =? 0 then Err (Invalid "revision must be at least one")
    else if (every_seconds m <? MIN_INTERVAL_SECONDS) || (MAX_INTERVAL_SECONDS <? every_seconds m)
    then Err (Invalid "evaluation interval is out of bounds")
    else if every_seconds m <=? jitter_seconds m then Err (Invalid "jitter must be shorter than interval")
    else if (lookback_seconds (query m) =? 0) || (MAX_LOOKBACK_SECONDS <? lookback_seconds (query m))
    then Err (Invalid "lookback is out of bounds")
    else if (MAX_HOLD_SECONDS <? for_seconds m) || (MAX_HOLD_SECONDS <? recover_for_seconds m)
    then Err (Invalid "pending or recovery duration is out of bounds")
    else if (created_at_unix_nano m =? 0) || (updated_at_unix_nano m <? created_at_unix_nano m)
    then Err (Invalid "monitor timestamps are invalid")
    else if MAX_MATCHERS <? zlen (matchers (query m)) then Err (Invalid "too many matchers")
    else
      let? _ := validate_matchers (matchers (query m)) in
      let? _ := validate_map (labels m) in
      let? _ := validate_map (annotations m) in
      if negb (f64_is_finite (threshold (condition m))) then Err (Invalid "threshold must be finite")
      else validate_scalar_sql (sql (query m)) (table_name (signal (query m))).
End Validation.
