(* ===== verification/AlertStore.v ===== *)
(** * The durable store of alert records

    [crates/alert/src/store.rs] with [put_create] and [put_update] of
    [crates/objstore/src/conditional.rs].  An object has a body and, if the store gives
    one, a tag (its ETag or version).  What a call meets is a [Reply] of the environment:
    what other writers did before it, whether it fails, whether a failed conditional write
    took effect all the same (a retry inside the client), the tag of what it writes, and
    how a body is cut into chunks.  serde_json is a parameter, [Json]. *)

From S2P Require Import Prelude Bytes Text Alert Occurrence AlertTemplate AlertRecords.

Class Json (T : Type) := {
  to_vec : T -> result string bytes;
  from_slice : bytes -> result string T;
}.

Definition MAX_CONTROL_OBJECT_BYTES : Z := 1024 * 1024.

Record Object := mkObject { body : bytes; tag : option Z }.
Abbreviation Objects := (gmap bytes Object).

Inductive ObjectError := ONotFound | OAlreadyExists | OPrecondition | ONotModified | OGeneric (message : string).

Inductive AlertStoreError :=
| SSerialize (message : string)
| SDecode (path : bytes) (message : string)
| SObject (path : bytes) (source : ObjectError)
| SOversized (path : bytes)
| SCollision (path : bytes)
| SMissing (path : bytes)
| SConflict (path : bytes)
| SCorrupt (path : bytes) (message : string).

Definition is_transient (e : AlertStoreError) : bool := match e with SObject _ _ => true | _ => false end.

Record Versioned (T : Type) := mkVersioned { value : T; version : Z }.
Arguments mkVersioned {T} _ _.
Arguments value {T} _.
Arguments version {T} _.

Record Reply := mkReply {
  others : Objects -> Objects;
  failure : option ObjectError;
  took_effect : bool;
  new_tag : bytes -> option Z;
  body_chunks : bytes -> list bytes * option ObjectError;
}.

(** A store, the calls made so far, and the stores it went through. *)
Record World := mkWorld { objects : Objects; calls : nat; history : list Objects }.

Definition moved (w : World) (stores : list Objects) : World :=
  mkWorld (default (objects w) (last stores)) (S (calls w)) (history w ++ stores).

(** A call reads and changes the world, and returns a value or an error. *)
Abbreviation Call A := (World -> World * result AlertStoreError A) (only parsing).

Definition call_bind {A B} (c : Call A) (k : A -> Call B) : Call B :=
  fun w => match c w with (w, Ok a) => k a w | (w, Err e) => (w, Err e) end.
Definition call_ret {A} (r : result AlertStoreError A) : Call A := fun w => (w, r).

Notation "'do?' x ':=' c 'in' k" := (call_bind c (fun x => k))
  (at level 10, x name, c at level 100, k at level 200) : rust_scope.

Section Store.
  Context (environment : nat -> Reply).

Definition met (w : World) : Objects := others (environment (calls w)) (objects w).

(** A conditional write: [allowed] is its condition on the object that stands there, and
    [refused] what the store answers when it does not hold. *)
Definition put_if (allowed : option Object -> bool) (refused : ObjectError) (path payload : bytes) (w : World)
    : World * result ObjectError unit :=
  let r := environment (calls w) in
  let s := met w in
  let written := <[path := mkObject payload (new_tag r payload)]> s in
  if allowed (s !! path) then
    match failure r with
    | None => (moved w [s; written], Ok tt)
    | Some e => ((if took_effect r then moved w [s; written] else moved w [s]), Err e)
    end
  else (moved w [s], Err (default refused (failure r))).

Definition put_create : bytes -> bytes -> World -> World * result ObjectError unit :=
  put_if (fun o => match o with None => true | Some _ => false end) OAlreadyExists.

Definition put_update (path payload : bytes) (version : Z) : World -> World * result ObjectError unit :=
  put_if (fun o => match o with Some o => bool_decide (tag o = Some version) | None => false end) OPrecondition path payload.

Definition object_error (key : bytes) (source : ObjectError) : AlertStoreError :=
  match source with ONotFound => SMissing key | source => SObject key source end.

(** The body stream: cut off beyond the bound. *)
Fixpoint read_body (key : bytes) (body : bytes) (chunks : list bytes) (end_ : option ObjectError) : result AlertStoreError bytes :=
  match chunks with
  | [] => match end_ with Some e => Err (object_error key e) | None => Ok body end
  | chunk :: chunks =>
      if MAX_CONTROL_OBJECT_BYTES <? zlen body + zlen chunk then Err (SOversized key)
      else read_body key (body ++ chunk) chunks end_
  end.

(** The bytes and the tag of the same response. *)
Definition get_bounded (key : bytes) : Call (bytes * option Z) :=
  fun w =>
    let r := environment (calls w) in
    let s := met w in
    (moved w [s],
     match failure r, s !! key with
     | Some e, _ => Err (object_error key e)
     | None, None => Err (SMissing key)
     | None, Some o =>
         if MAX_CONTROL_OBJECT_BYTES <? zlen (body o) then Err (SOversized key)
         else
           let '(chunks, end_) := body_chunks r (body o) in
           let? b := read_body key [] chunks end_ in
           Ok (b, tag o)
     end).

Definition read_versioned {T} `{Json T} (key : bytes) : Call (Versioned T) :=
  do? bm := get_bounded key in
  call_ret
    match snd bm with
    | None => Err (SObject key (OGeneric "object has neither ETag nor version"))
    | Some version =>
        let? value := map_err (SDecode key) (from_slice (fst bm)) in
        Ok (mkVersioned value version)
    end.

Definition bounded_json {T} `{Json T} (key : bytes) (v : T) : result AlertStoreError bytes :=
  let? bytes := map_err SSerialize (to_vec v) in
  if MAX_CONTROL_OBJECT_BYTES <? zlen bytes then Err (SOversized key) else Ok bytes.

Definition create_identical {T} `{Json T} (key : bytes) (v : T) : Call unit :=
  do? bytes := call_ret (bounded_json key v) in
  fun w =>
    match put_create key bytes w with
    | (w, Ok _) => (w, Ok tt)
    | (w, Err (OAlreadyExists | OPrecondition)) =>
        match get_bounded key w with
        | (w, Ok (existing, _)) => (w, if bool_decide (existing = bytes) then Ok tt else Err (SCollision key))
        | (w, Err e) => (w, Err e)
        end
    | (w, Err source) => (w, Err (SObject key source))
    end.

Definition update {T} `{Json T} (key : bytes) (v : T) (version : Z) : Call unit :=
  do? bytes := call_ret (bounded_json key v) in
  fun w =>
    match put_update key bytes version w with
    | (w, Ok _) => (w, Ok tt)
    | (w, Err (OPrecondition | ONotModified | OAlreadyExists)) =>
        match get_bounded key w with
        | (w, Ok (existing, _)) => (w, if bool_decide (existing = bytes) then Ok tt else Err (SConflict key))
        | (w, Err (SMissing _)) => (w, Err (SConflict key))
        | (w, Err e) => (w, Err e)
        end
    | (w, Err source) => (w, Err (SObject key source))
    end.

Definition collision_is_conflict (e : AlertStoreError) : AlertStoreError :=
  match e with SCollision path => SConflict path | other => other end.

Definition create_head {T} `{Json T} (key : bytes) (v : T) : Call unit :=
  fun w => let '(w, r) := create_identical key v w in (w, map_err collision_is_conflict r).

(** [read_record]: an absent record is [None]. *)
Definition or_missing {T} (c : Call T) : Call (option T) :=
  fun w =>
    match c w with
    | (w, Ok v) => (w, Ok (Some v))
    | (w, Err (SMissing _)) => (w, Ok None)
    | (w, Err e) => (w, Err e)
    end.

Definition read_record {T} `{Json T} (key : bytes) : Call (option T) :=
  or_missing (do? v := read_versioned key in call_ret (Ok (value v))).

Definition create_record {T} `{Json T} (key : bytes) (v : T) : Call unit := create_identical key v.

Section Records.
  Context (sha256 : bytes -> bytes).
  Context {Jm : Json Monitor} {Jrh : Json RuleHead} {Jrt : Json RuleTombstone} {Jrr : Json RuleMutationReceipt} {Jsh : Json StateHead} {Jtr : Json TransitionRecord}.

(** ** Rules *)

(** [current.revision.checked_add(1) == Some(revision)]. *)
Definition follows (current next : Z) : bool := bool_decide (checked_add current 1 = Some next).

Definition create_rule_revision (m : Monitor) (command_id : bytes) : Call unit :=
  let head := rule_head sha256 m command_id in
  do? _ := create_identical (rh_revision_key head) m in
  let head_path := rule_head_key (id m) in
  fun w =>
    match read_versioned (T := RuleHead) head_path w with
    | (w, Ok current) =>
        if bool_decide (value current = head) then (w, Ok tt)
        else if negb (rh_deleted (value current)) && follows (rh_revision (value current)) (revision m)
        then update head_path head (version current) w
        else (w, Err (SConflict head_path))
    | (w, Err (SMissing _)) =>
        if revision m =? 1 then create_head head_path head w else (w, Err (SConflict head_path))
    | (w, Err e) => (w, Err e)
    end.

Definition read_rule_head (id : Z) : Call (Versioned RuleHead) :=
  let path := rule_head_key id in
  do? head := read_versioned path in
  call_ret
    (if negb (rh_schema_version (value head) =? ALERT_RECORD_SCHEMA_VERSION) || negb (rh_monitor_id (value head) =? id)
     then Err (SCorrupt path "rule head does not match its key")
     else Ok head).

Definition read_rule_revision (head : RuleHead) : Call (Versioned Monitor) :=
  if rh_deleted head || negb (is_rule_revision_key (rh_monitor_id head) (rh_revision_key head))
  then call_ret (Err (SCorrupt (rule_head_key (rh_monitor_id head)) "rule head does not name one of its revisions"))
  else
    do? m := read_versioned (T := Monitor) (rh_revision_key head) in
    call_ret
      (if negb (id (value m) =? rh_monitor_id head) || negb (revision (value m) =? rh_revision head)
       then Err (SCorrupt (rh_revision_key head) "rule revision does not match its head")
       else Ok m).

Definition read_rule (id : Z) : Call (Versioned Monitor) :=
  do? head := read_rule_head id in
  if rh_deleted (value head) then call_ret (Err (SMissing (rule_head_key id))) else read_rule_revision (value head).

Definition tombstone_rule (t : RuleTombstone) (expected_head : Z) : Call unit :=
  let tombstone_key := rule_tombstone_key sha256 (rt_monitor_id t) (rt_command_id t) in
  do? _ := create_identical tombstone_key t in
  update (rule_head_key (rt_monitor_id t))
    (mkRuleHead ALERT_RECORD_SCHEMA_VERSION (rt_monitor_id t) (rt_revision t) [] (rt_deleted_at_unix_nano t) true (Some tombstone_key))
    expected_head.

Definition record_rule_mutation (r : RuleMutationReceipt) : Call unit :=
  create_identical (rule_mutation_receipt_key sha256 (rr_command_id r)) r.
Definition read_rule_mutation (command_id : bytes) : Call (option RuleMutationReceipt) :=
  read_record (rule_mutation_receipt_key sha256 command_id).
Definition read_tombstone (id : Z) (command_id : bytes) : Call (option RuleTombstone) :=
  read_record (rule_tombstone_key sha256 id command_id).

(** ** Alert state *)

Definition read_state_head (id : Z) (deployment_id : bytes) : Call (option (Versioned StateHead)) :=
  let path := state_head_key id in
  do? head := or_missing (read_versioned path) in
  call_ret
    match head with
    | None => Ok None
    | Some head =>
        let? _ := map_err (SCorrupt path) (validate_head (value head) deployment_id id) in
        Ok (Some head)
    end.

Definition commit_state (head : StateHead) (transition : option TransitionRecord) (expected_head : option Z) : Call unit :=
  let path := state_head_key (h_monitor_id head) in
  do? _ := call_ret (map_err (SCorrupt path) (validate_head head (h_deployment_id head) (h_monitor_id head))) in
  do? _ := match transition with
           | None => call_ret (Ok tt)
           | Some t =>
               do? _ := call_ret (map_err (SCorrupt path) (verify_transition sha256 to_vec head t)) in
               create_identical (reference_key (h_latest_transition head) (h_monitor_id head)) t
           end in
  match expected_head with
  | Some version => update path head version
  | None => create_head path head
  end.

Definition read_latest_transition (head : StateHead) : Call (Versioned TransitionRecord) :=
  let key := reference_key (h_latest_transition head) (h_monitor_id head) in
  do? transition := read_versioned key in
  call_ret
    (let? _ := map_err (SCorrupt key) (verify_transition sha256 to_vec head (value transition)) in
     Ok transition).
End Records.

(** ** Notification targets *)

Section Targets.
  Context (sha256 : bytes -> bytes).
  Context {Jnt : Json NotificationTarget} {Jth : Json TargetHead} {Jtt : Json TargetTombstone} {Jtm : Json TargetMutationReceipt}.

Definition create_target_revision (t : NotificationTarget) (command_id : bytes) (expected_head : option Z) : Call unit :=
  let next := target_head sha256 t command_id in
  do? _ := create_identical (tg_revision_key next) t in
  let path := target_head_key (nt_id t) in
  fun w =>
    match read_versioned (T := TargetHead) path w with
    | (w, Ok current) =>
        if bool_decide (value current = next) then (w, Ok tt)
        else if negb (tg_deleted (value current)) && follows (tg_revision (value current)) (nt_revision t)
        then match expected_head with
             | Some version => update path next version w
             | None => (w, Err (SConflict path))
             end
        else (w, Err (SConflict path))
    | (w, Err (SMissing _)) =>
        match expected_head with
        | None => if nt_revision t =? 1 then create_head path next w else (w, Err (SConflict path))
        | Some _ => (w, Err (SConflict path))
        end
    | (w, Err e) => (w, Err e)
    end.

Definition read_target_head (id : Z) : Call (Versioned TargetHead) :=
  let path := target_head_key id in
  do? head := read_versioned path in
  call_ret
    (if negb (tg_schema_version (value head) =? ALERT_RECORD_SCHEMA_VERSION) || negb (tg_target_id (value head) =? id)
     then Err (SCorrupt path "target head does not match its key")
     else Ok head).

Definition read_target_revision (head : TargetHead) : Call (Versioned NotificationTarget) :=
  if tg_deleted head || negb (is_target_revision_key (tg_target_id head) (tg_revision_key head))
  then call_ret (Err (SCorrupt (target_head_key (tg_target_id head)) "target head does not name one of its revisions"))
  else
    do? t := read_versioned (T := NotificationTarget) (tg_revision_key head) in
    call_ret
      (if negb (nt_id (value t) =? tg_target_id head) || negb (nt_revision (value t) =? tg_revision head)
       then Err (SCorrupt (tg_revision_key head) "target revision does not match its head")
       else Ok t).

Definition read_target (id : Z) : Call (Versioned NotificationTarget) :=
  do? head := read_target_head id in
  if tg_deleted (value head) then call_ret (Err (SMissing (target_head_key id))) else read_target_revision (value head).

Definition tombstone_target (t : TargetTombstone) (expected_head : Z) : Call unit :=
  let tombstone_key := target_tombstone_key sha256 (tt_target_id t) (tt_command_id t) in
  do? _ := create_identical tombstone_key t in
  update (target_head_key (tt_target_id t))
    (mkTargetHead ALERT_RECORD_SCHEMA_VERSION (tt_target_id t) (tt_revision t) [] (tt_deleted_at_unix_nano t) true (Some tombstone_key))
    expected_head.

Definition read_target_tombstone (id : Z) (command_id : bytes) : Call (option TargetTombstone) :=
  read_record (target_tombstone_key sha256 id command_id).
Definition record_target_mutation (r : TargetMutationReceipt) : Call unit :=
  create_identical (target_mutation_receipt_key sha256 (tr_command_id r)) r.
Definition read_target_mutation (command_id : bytes) : Call (option TargetMutationReceipt) :=
  read_record (target_mutation_receipt_key sha256 command_id).
End Targets.
End Store.
