(* ===== verification/AlertsDb.v ===== *)
(** * The local projection of alert records

    [crates/alert/src/sqlite.rs]: [alerts.sqlite] as tables keyed by the identifiers, each
    statement as it changes or reads them.  A column holds the unsigned number that was
    bound to it; binding one above [i64::MAX] fails, as rusqlite does.  The JSON columns
    hold bytes; serde_json is the [Json] parameter. *)

From S2P Require Import Prelude Order Bytes Text Alert Occurrence AlertTemplate AlertRecords AlertStore.

Definition ALERTS_SCHEMA_VERSION : Z := 3.

Inductive AlertsDbError :=
| DbSqlite (message : string)
| DbDeploymentMismatch (expected found : bytes)
| DbDecode (message : string).

(** The table [monitors]. *)
Record MonitorRow := mkMonitorRow {
  mr_revision : Z;
  mr_deleted : bool;
  mr_enabled : bool;
  mr_every_seconds : Z;
  mr_jitter_seconds : Z;
  mr_name : string;
  mr_updated_at_unix_nano : Z;
  mr_record_json : option bytes;
  mr_local_seq : Z;
}.

#[export] Instance MonitorRow_eq_dec : EqDecision MonitorRow.
Proof. solve_decision. Defined.

(** The table [current_state]. *)
Record StateRow := mkStateRow {
  sr_monitor_revision : Z;
  sr_last_slot_id : Z;
  sr_sequence : Z;
  sr_status : Z;
  sr_stale : bool;
  sr_since_unix_nano : Z;
  sr_last_evaluated_at_unix_nano : Z;
  sr_state_json : bytes;
}.

(** The table [notification_targets]. *)
Record TargetRow := mkTargetRow {
  tr_row_revision : Z;
  tr_row_deleted : bool;
  tr_row_enabled : bool;
  tr_row_name : bytes;
  tr_row_updated_at_unix_nano : Z;
  tr_row_projection_json : option bytes;
  tr_row_local_seq : Z;
}.

Record Tables := mkTables {
  user_version : Z;
  projection_meta : option bytes;
  monitors : gmap Z MonitorRow;
  current_state : gmap Z StateRow;
  notification_targets : gmap Z TargetRow;
}.

Record AlertsDb := mkAlertsDb { conn : Tables; db_deployment_id : Z; local_seq : Z }.

Record MonitorSummary := mkSummary { ms_monitor : Monitor; ms_state : option AlertState }.

Record ScheduledState := mkScheduled { ss_monitor_revision : Z; ss_last_slot_id : Z; ss_status : AlertStatus }.

Record ScheduleEntry := mkScheduleEntry {
  se_monitor_id : Z;
  se_revision : Z;
  se_enabled : bool;
  se_every_seconds : Z;
  se_jitter_seconds : Z;
  se_state : option ScheduledState;
}.

(** [ScheduledState::covers]: [(self.0, self.1) >= (revision, slot_id)]. *)
Definition scheduled_covers (s : ScheduledState) (revision slot_id : Z) : bool :=
  (revision <? ss_monitor_revision s) || ((ss_monitor_revision s =? revision) && (slot_id <=? ss_last_slot_id s)).

Record LocalRevision := mkLocalRevision { lr_revision : Z; lr_deleted : bool }.

Definition status_code (s : AlertStatus) : Z :=
  match s with Inactive => 0 | Pending => 1 | Firing => 2 | Recovering => 3 | NoData => 4 | Error => 5 | Disabled => 6 end.

Definition status_from_code (code : Z) : option AlertStatus :=
  match code with
  | 0 => Some Inactive | 1 => Some Pending | 2 => Some Firing | 3 => Some Recovering | 4 => Some NoData | 5 => Some Error | 6 => Some Disabled
  | _ => None
  end.

(** Binding an unsigned number. *)
Definition bind_u64 (z : Z) : result AlertsDbError Z :=
  if z <=? i64_max then Ok z else Err (DbSqlite "integer out of range").

Definition with_monitors (t : Tables) (m : gmap Z MonitorRow) : Tables :=
  mkTables (user_version t) (projection_meta t) m (current_state t) (notification_targets t).
Definition with_states (t : Tables) (s : gmap Z StateRow) : Tables :=
  mkTables (user_version t) (projection_meta t) (monitors t) s (notification_targets t).
Definition with_targets (t : Tables) (n : gmap Z TargetRow) : Tables :=
  mkTables (user_version t) (projection_meta t) (monitors t) (current_state t) n.

(** ** Opening *)

(** [migrate]: an older projection is dropped, its deployment kept. *)
Definition migrate (t : Tables) : result AlertsDbError Tables :=
  if ALERTS_SCHEMA_VERSION <? user_version t then Err (DbSqlite "invalid query")
  else if user_version t =? ALERTS_SCHEMA_VERSION then Ok t
  else Ok (mkTables ALERTS_SCHEMA_VERSION (if user_version t =? 0 then None else projection_meta t) ∅ ∅ ∅).

Definition bind_deployment (t : Tables) (expected : Z) : result AlertsDbError Tables :=
  match projection_meta t with
  | Some found =>
      if negb (bool_decide (found = uuid_text expected)) then Err (DbDeploymentMismatch (uuid_text expected) found) else Ok t
  | None => Ok (mkTables (user_version t) (Some (uuid_text expected)) (monitors t) (current_state t) (notification_targets t))
  end.

(** [coalesce(max(local_seq), 0)]. *)
Definition max_seq {V} (f : V -> Z) (m : gmap Z V) : Z := map_fold (fun _ r acc => Z.max (f r) acc) 0 m.

Definition from_connection (t : Tables) (deployment_id : Z) : result AlertsDbError AlertsDb :=
  let? t := migrate t in
  let? t := bind_deployment t deployment_id in
  Ok (mkAlertsDb t deployment_id (Z.max (max_seq mr_local_seq (monitors t)) (max_seq tr_row_local_seq (notification_targets t)))).

Definition next_seq (db : AlertsDb) : AlertsDb := mkAlertsDb (conn db) (db_deployment_id db) (local_seq db + 1).
Definition projection_epoch (db : AlertsDb) : Z := local_seq db.
Definition with_conn (db : AlertsDb) (t : Tables) : AlertsDb := mkAlertsDb t (db_deployment_id db) (local_seq db).

Section Folds.
  Context {Jm : Json Monitor} {Js : Json AlertState} {Jp : Json NotificationTargetProjection}.

(** ** Rules *)

Definition fold_rule (m : Monitor) (db : AlertsDb) : AlertsDb * result AlertsDbError bool :=
  match to_vec m with
  | Err e => (db, Err (DbDecode e))
  | Ok json =>
      let db := next_seq db in
      let row :=
        let? revision := bind_u64 (revision m) in
        let? every := bind_u64 (every_seconds m) in
        let? jitter := bind_u64 (jitter_seconds m) in
        let? updated := bind_u64 (updated_at_unix_nano m) in
        let? seq := bind_u64 (local_seq db) in
        Ok (mkMonitorRow revision false (enabled m) every jitter (name m) updated (Some json) seq) in
      match row with
      | Err e => (db, Err e)
      | Ok row =>
          let changed :=
            match monitors (conn db) !! id m with
            | None => true
            | Some old => negb (mr_deleted old) && (mr_revision old <? mr_revision row)
            end in
          (if changed then with_conn db (with_monitors (conn db) (<[id m := row]> (monitors (conn db)))) else db, Ok changed)
      end
  end.

Definition tombstone_monitor (id revision deleted_at_unix_nano : Z) (db : AlertsDb) : AlertsDb * result AlertsDbError unit :=
  let db := next_seq db in
  let cols :=
    let? revision := bind_u64 revision in
    let? at_ := bind_u64 deleted_at_unix_nano in
    let? seq := bind_u64 (local_seq db) in
    Ok (revision, at_, seq) in
  match cols with
  | Err e => (db, Err e)
  | Ok (revision, at_, seq) =>
      let t := conn db in
      let rows :=
        match monitors t !! id with
        | None => <[id := mkMonitorRow revision true false 0 0 "" at_ None seq]> (monitors t)
        | Some old =>
            if mr_deleted old then monitors t
            else <[id := mkMonitorRow (Z.max (mr_revision old) revision) true false (mr_every_seconds old) (mr_jitter_seconds old)
                          (mr_name old) at_ None seq]> (monitors t)
        end in
      (with_conn db (with_states (with_monitors t rows) (delete id (current_state t))), Ok tt)
  end.

Definition forget_monitor (id : Z) (db : AlertsDb) : AlertsDb :=
  let t := conn db in
  with_conn db (with_monitors (with_states t (delete id (current_state t))) (delete id (monitors t))).

(** ** State *)

Definition fold_state (id : Z) (s : AlertState) (db : AlertsDb) : AlertsDb * result AlertsDbError bool :=
  let row :=
    let? json := map_err DbDecode (to_vec s) in
    let? revision := bind_u64 (monitor_revision s) in
    let? slot := bind_u64 (last_slot_id s) in
    let? sequence := bind_u64 (transition_sequence s) in
    let? since := bind_u64 (since_unix_nano s) in
    let? at_ := bind_u64 (last_evaluated_at_unix_nano s) in
    Ok (mkStateRow revision slot sequence (status_code (status s)) (stale s) since at_ json) in
  match row with
  | Err e => (db, Err e)
  | Ok row =>
      let t := conn db in
      let deleted := match monitors t !! id with Some m => mr_deleted m | None => false end in
      let changed :=
        negb deleted
        && match current_state t !! id with
           | None => true
           | Some old => pair_gt (sr_monitor_revision row) (sr_last_slot_id row) (sr_monitor_revision old) (sr_last_slot_id old)
           end in
      (if changed then with_conn db (with_states t (<[id := row]> (current_state t))) else db, Ok changed)
  end.

(** ** Reads *)

Definition local_monitor_revision (id : Z) (db : AlertsDb) : option LocalRevision :=
  (fun r => mkLocalRevision (mr_revision r) (mr_deleted r)) <$> monitors (conn db) !! id.

Definition decode_state (t : Tables) (id : Z) : result AlertsDbError (option AlertState) :=
  match current_state t !! id with
  | None => Ok None
  | Some r => let? s := map_err DbDecode (from_slice (sr_state_json r)) in Ok (Some s)
  end.

(** A row of [monitors m LEFT JOIN current_state s]; a live row has a record. *)
Definition summary (t : Tables) (id : Z) (r : MonitorRow) : result AlertsDbError MonitorSummary :=
  match mr_record_json r with
  | None => Err (DbSqlite "invalid column type")
  | Some json =>
      let? m := map_err DbDecode (from_slice json) in
      let? s := decode_state t id in
      Ok (mkSummary m s)
  end.

Definition get_monitor (id : Z) (db : AlertsDb) : result AlertsDbError (option MonitorSummary) :=
  match monitors (conn db) !! id with
  | Some r => if mr_deleted r then Ok None else let? s := summary (conn db) id r in Ok (Some s)
  | None => Ok None
  end.

(** [WHERE id > after AND deleted = 0 ORDER BY id LIMIT limit]. *)
Definition page {V} (deleted : V -> bool) (after : option Z) (limit : Z) (m : gmap Z V) : list (Z * V) :=
  take (Z.to_nat limit)
    (sort_by_key fst
       (List.filter (fun e => negb (deleted e.2) && match after with None => true | Some a => a <? e.1 end) (map_to_list m))).

Fixpoint collect {A B} (f : A -> result AlertsDbError B) (l : list A) : result AlertsDbError (list B) :=
  match l with
  | [] => Ok []
  | x :: l => let? y := f x in let? ys := collect f l in Ok (y :: ys)
  end.

Definition clamp (z lo hi : Z) : Z := Z.max lo (Z.min z hi).

Definition list_monitors (after : option Z) (limit : Z) (db : AlertsDb) : result AlertsDbError (list MonitorSummary) :=
  collect (fun e => summary (conn db) e.1 e.2) (page mr_deleted after (clamp limit 1 1000) (monitors (conn db))).

Definition schedule_entry (t : Tables) (e : Z * MonitorRow) : result AlertsDbError ScheduleEntry :=
  let? state :=
    match current_state t !! e.1 with
    | None => Ok None
    | Some s =>
        match status_from_code (sr_status s) with
        | None => Err (DbSqlite "integral value out of range")
        | Some st => Ok (Some (mkScheduled (sr_monitor_revision s) (sr_last_slot_id s) st))
        end
    end in
  Ok (mkScheduleEntry e.1 (mr_revision e.2) (mr_enabled e.2) (mr_every_seconds e.2) (mr_jitter_seconds e.2) state).

Definition list_schedule (after : option Z) (limit : Z) (db : AlertsDb) : result AlertsDbError (list ScheduleEntry) :=
  collect (schedule_entry (conn db)) (page mr_deleted after (clamp limit 1 10000) (monitors (conn db))).

(** ** Pruning *)

Definition unlisted_ids {V} (seq : V -> Z) (epoch : Z) (listed : Z -> bool) (m : gmap Z V) : list Z :=
  List.filter (fun i => negb (listed i)) (map fst (List.filter (fun e => seq e.2 <=? epoch) (map_to_list m))).

Definition prune_monitors (epoch : Z) (listed : gset Z) (db : AlertsDb) : AlertsDb * Z :=
  let stale := unlisted_ids mr_local_seq epoch (fun i => bool_decide (i ∈ listed)) (monitors (conn db)) in
  (fold_left (fun db i => forget_monitor i db) stale db, zlen stale).

(** ** Notification targets *)

Definition fold_notification_target (t : NotificationTarget) (db : AlertsDb) : AlertsDb * result AlertsDbError bool :=
  match to_vec (target_projection t) with
  | Err e => (db, Err (DbDecode e))
  | Ok json =>
      let db := next_seq db in
      let row :=
        let? revision := bind_u64 (nt_revision t) in
        let? updated := bind_u64 (nt_updated_at_unix_nano t) in
        let? seq := bind_u64 (local_seq db) in
        Ok (mkTargetRow revision false (nt_enabled t) (nt_name t) updated (Some json) seq) in
      match row with
      | Err e => (db, Err e)
      | Ok row =>
          let changed :=
            match notification_targets (conn db) !! nt_id t with
            | None => true
            | Some old => negb (tr_row_deleted old) && (tr_row_revision old <? tr_row_revision row)
            end in
          (if changed then with_conn db (with_targets (conn db) (<[nt_id t := row]> (notification_targets (conn db)))) else db, Ok changed)
      end
  end.

Definition tombstone_notification_target (id revision deleted_at_unix_nano : Z) (db : AlertsDb) : AlertsDb * result AlertsDbError unit :=
  let db := next_seq db in
  let cols :=
    let? revision := bind_u64 revision in
    let? at_ := bind_u64 deleted_at_unix_nano in
    let? seq := bind_u64 (local_seq db) in
    Ok (revision, at_, seq) in
  match cols with
  | Err e => (db, Err e)
  | Ok (revision, at_, seq) =>
      let rows := notification_targets (conn db) in
      let rows :=
        match rows !! id with
        | None => <[id := mkTargetRow revision true false [] at_ None seq]> rows
        | Some old =>
            if tr_row_deleted old then rows
            else <[id := mkTargetRow (Z.max (tr_row_revision old) revision) true false (tr_row_name old) at_ None seq]> rows
        end in
      (with_conn db (with_targets (conn db) rows), Ok tt)
  end.

Definition forget_notification_target (id : Z) (db : AlertsDb) : AlertsDb :=
  with_conn db (with_targets (conn db) (delete id (notification_targets (conn db)))).

Definition local_notification_target_revision (id : Z) (db : AlertsDb) : option LocalRevision :=
  (fun r => mkLocalRevision (tr_row_revision r) (tr_row_deleted r)) <$> notification_targets (conn db) !! id.

Definition prune_notification_targets (epoch : Z) (listed : gset Z) (db : AlertsDb) : AlertsDb * Z :=
  let stale := unlisted_ids tr_row_local_seq epoch (fun i => bool_decide (i ∈ listed)) (notification_targets (conn db)) in
  (fold_left (fun db i => forget_notification_target i db) stale db, zlen stale).

Definition decode_projection (r : TargetRow) : result AlertsDbError NotificationTargetProjection :=
  match tr_row_projection_json r with
  | None => Err (DbSqlite "invalid column type")
  | Some json => map_err DbDecode (from_slice json)
  end.

Definition get_notification_target (id : Z) (db : AlertsDb) : result AlertsDbError (option NotificationTargetProjection) :=
  match notification_targets (conn db) !! id with
  | Some r => if tr_row_deleted r then Ok None else let? p := decode_projection r in Ok (Some p)
  | None => Ok None
  end.

Definition notification_target_count (db : AlertsDb) : Z :=
  zlen (List.filter (fun e : Z * TargetRow => negb (tr_row_deleted e.2)) (map_to_list (notification_targets (conn db)))).

Definition list_notification_targets (after : option Z) (limit : Z) (db : AlertsDb) : result AlertsDbError (list NotificationTargetProjection) :=
  collect (fun e => decode_projection e.2) (page tr_row_deleted after (clamp limit 1 10000) (notification_targets (conn db))).
End Folds.
