(* ===== verification/AlertsDbFacts.v ===== *)
(** * What the alert projection shows

    Folding durable records into [alerts.sqlite] ([AlertsDb]) in any order, with any
    repetition, gives the same view: the newest revision of every rule that is not
    deleted, with its newest state. *)

From Stdlib Require Import Floats.SpecFloat.
From S2P Require Import Prelude Order Bytes Text Alert Occurrence AlertTemplate AlertRecords AlertStore AlertsDb.

Section Projection.
  Context {Jm : Json Monitor} {Js : Json AlertState} {Jp : Json NotificationTargetProjection}.

Inductive Fold :=
| FRule (m : Monitor)
| FTombstone (id revision at_ : Z)
| FState (id : Z) (s : AlertState).

Definition apply_fold (db : AlertsDb) (o : Fold) : AlertsDb :=
  match o with
  | FRule m => fst (fold_rule m db)
  | FTombstone id revision at_ => fst (tombstone_monitor id revision at_ db)
  | FState id s => fst (fold_state id s db)
  end.

Definition apply_folds (ops : list Fold) (db : AlertsDb) : AlertsDb := fold_left apply_fold ops db.

(** The record fits the columns and its JSON reads back. *)
Definition storable (o : Fold) : Prop :=
  match o with
  | FRule m =>
      revision m <= i64_max /\ every_seconds m <= i64_max /\ jitter_seconds m <= i64_max /\ updated_at_unix_nano m <= i64_max
      /\ exists json, to_vec m = Ok json /\ from_slice json = Ok m
  | FTombstone _ revision at_ => revision <= i64_max /\ at_ <= i64_max
  | FState _ s =>
      monitor_revision s <= i64_max /\ last_slot_id s <= i64_max /\ transition_sequence s <= i64_max
      /\ since_unix_nano s <= i64_max /\ last_evaluated_at_unix_nano s <= i64_max
      /\ exists json, to_vec s = Ok json /\ from_slice json = Ok s
  end.

(** ** The view, as a set of records gives it *)

Definition deleted_in (ops : list Fold) (i : Z) : Prop := exists r a, FTombstone i r a ∈ ops.

Definition newest_rule (ops : list Fold) (i : Z) (m : Monitor) : Prop :=
  FRule m ∈ ops /\ id m = i /\ forall m', FRule m' ∈ ops -> id m' = i -> revision m' <= revision m.

Definition newest_state (ops : list Fold) (i : Z) (s : option AlertState) : Prop :=
  match s with
  | None => forall s, FState i s ∉ ops
  | Some s =>
      FState i s ∈ ops
      /\ forall s', FState i s' ∈ ops -> pair_gt (monitor_revision s') (last_slot_id s') (monitor_revision s) (last_slot_id s) = false
  end.

(** A revision of a rule, and the state after a slot, is one record. *)
Definition consistent (ops : list Fold) : Prop :=
  (forall m m', FRule m ∈ ops -> FRule m' ∈ ops -> id m = id m' -> revision m = revision m' -> m = m')
  /\ (forall i s s', FState i s ∈ ops -> FState i s' ∈ ops -> monitor_revision s = monitor_revision s' -> last_slot_id s = last_slot_id s' -> s = s').

Definition state_row (s : AlertState) (json : bytes) : StateRow :=
  mkStateRow (monitor_revision s) (last_slot_id s) (transition_sequence s) (status_code (status s)) (stale s) (since_unix_nano s)
    (last_evaluated_at_unix_nano s) json.

(** ** The rows after a run *)

Definition rows_ok (ops : list Fold) (i : Z) (row : option MonitorRow) : Prop :=
  match row with
  | None => ~ deleted_in ops i /\ forall m, FRule m ∈ ops -> id m <> i
  | Some r =>
      if mr_deleted r then deleted_in ops i
      else ~ deleted_in ops i /\ exists m json, newest_rule ops i m /\ to_vec m = Ok json
        /\ r = mkMonitorRow (revision m) false (enabled m) (every_seconds m) (jitter_seconds m) (name m) (updated_at_unix_nano m)
                 (Some json) (mr_local_seq r)
  end.

Definition states_ok (ops : list Fold) (i : Z) (row : option StateRow) : Prop :=
  (deleted_in ops i -> row = None)
  /\ (~ deleted_in ops i -> match row with
        | None => newest_state ops i None
        | Some r => exists s json, newest_state ops i (Some s) /\ to_vec s = Ok json /\ r = state_row s json
        end).

Definition tables_ok (ops : list Fold) (t : Tables) : Prop :=
  forall i, rows_ok ops i (monitors t !! i) /\ states_ok ops i (current_state t !! i).

Lemma deleted_in_snoc ops o i : deleted_in (ops ++ [o]) i <-> deleted_in ops i \/ exists r a, o = FTombstone i r a.
Proof.
  unfold deleted_in. split.
  - intros (r & a & [Ho|Ho%list_elem_of_singleton]%elem_of_app); [left; eauto|right; eauto].
  - intros [(r & a & Ho)|(r & a & ->)]; exists r, a; apply elem_of_app; [by left|right; by apply list_elem_of_singleton].
Qed.

Lemma in_snoc (ops : list Fold) o x : x ∈ ops ++ [o] <-> x ∈ ops \/ x = o.
Proof. rewrite elem_of_app, list_elem_of_singleton. done. Qed.

(** An operation on another monitor, or of another kind, changes nothing for [i]. *)
Lemma rows_ok_other ops o i row :
  (forall m, o = FRule m -> id m <> i) -> (forall r a, o <> FTombstone i r a) -> rows_ok ops i row -> rows_ok (ops ++ [o]) i row.
Proof.
  intros Hr Ht. unfold rows_ok. assert (deleted_in (ops ++ [o]) i <-> deleted_in ops i) as Hd.
  { rewrite deleted_in_snoc. split; [intros [?|(r & a & ->)]; [done|by destruct (Ht r a)]|auto]. }
  destruct row as [r|]; [destruct (mr_deleted r)|].
  - by rewrite Hd.
  - rewrite Hd. intros (Hn & m & json & (H1 & H2 & H3) & Hrest). split; [done|]. exists m, json. split; [|done].
    split_and!; [apply in_snoc; by left|done|]. intros m' [Hm'|E]%in_snoc Hi; [by apply H3|]. by destruct (Hr m').
  - rewrite Hd. intros [Hn Hno]. split; [done|]. intros m [Hm|E]%in_snoc; [by apply Hno|by apply Hr].
Qed.

Lemma states_ok_other ops o i row :
  (forall s, o <> FState i s) -> (forall r a, o <> FTombstone i r a) -> states_ok ops i row -> states_ok (ops ++ [o]) i row.
Proof.
  intros Hs Ht. unfold states_ok. assert (deleted_in (ops ++ [o]) i <-> deleted_in ops i) as Hd.
  { rewrite deleted_in_snoc. split; [intros [?|(r & a & ->)]; [done|by destruct (Ht r a)]|auto]. }
  rewrite !Hd. intros [H1 H2]. split; [done|]. intros Hn. specialize (H2 Hn).
  assert (forall s, FState i s ∈ ops ++ [o] <-> FState i s ∈ ops) as Hin.
  { intros s. rewrite in_snoc. split; [intros [?|E]; [done|by destruct (Hs s)]|auto]. }
  destruct row as [r|].
  - destruct H2 as (s & json & [Hi Hmax] & Hrest). exists s, json. split; [|done]. split; [by apply Hin|]. intros s' Hs'. by apply Hmax, Hin.
  - intros s. by rewrite Hin.
Qed.

Lemma bind_u64_ok z : z <= i64_max -> bind_u64 z = Ok z.
Proof. intros. unfold bind_u64. by rewrite (proj2 (Z.leb_le _ _)). Qed.

Lemma fold_rule_ok ops m db :
  storable (FRule m) -> local_seq db < i64_max -> tables_ok ops (conn db) -> tables_ok (ops ++ [FRule m]) (conn (apply_fold db (FRule m))).
Proof.
  intros (H1 & H2 & H3 & H4 & json & Hj & _) Hseq Ht i. cbn [apply_fold]. unfold fold_rule. rewrite Hj.
  rewrite !bind_u64_ok by (cbn; lia). cbn [result_bind fst]. change (conn (next_seq db)) with (conn db).
  destruct (Ht i) as [Hrow Hst].
  assert (states_ok (ops ++ [FRule m]) i (current_state (conn db) !! i)) as Hst' by (by apply states_ok_other).
  set (row := mkMonitorRow _ _ _ _ _ _ _ _ _).
  destruct (decide (id m = i)) as [<-|Hne].
  2:{ destruct (match monitors (conn db) !! id m with Some _ => _ | None => _ end); cbn [fst conn next_seq with_conn with_monitors monitors current_state];
      [rewrite lookup_insert_ne by done|]; (split; [apply rows_ok_other; [by intros ? [= <-]|done|done]|done]). }
  assert (deleted_in (ops ++ [FRule m]) (id m) <-> deleted_in ops (id m)) as Hd.
  { rewrite deleted_in_snoc. split; [intros [?|(r & a & E)]; [done|discriminate E]|auto]. }
  destruct (monitors (conn db) !! id m) as [old|] eqn:Eold; cbn [rows_ok] in Hrow.
  - destruct (mr_deleted old) eqn:Edel; cbn [negb andb fst conn next_seq].
    + rewrite Eold. split; [|done]. cbn [rows_ok]. rewrite Edel. by apply Hd.
    + destruct Hrow as (Hn & m0 & j0 & (Hi0 & Hid0 & Hmax) & Hj0 & Hold). cbn [mr_revision row].
      destruct (Z.ltb_spec (mr_revision old) (revision m)) as [Hlt|Hge]; cbn [fst conn next_seq with_conn with_monitors monitors current_state].
      * rewrite lookup_insert_eq. split; [|done]. cbn [rows_ok mr_deleted row]. rewrite Hd. split; [done|]. exists m, json. split_and!; [|done|done].
        split_and!; [apply in_snoc; by right|done|]. intros m' [Hm'|[= ->]]%in_snoc Hi'; [|lia].
        specialize (Hmax _ Hm' Hi'). rewrite Hold in Hlt. cbn [mr_revision] in Hlt. lia.
      * rewrite Eold. split; [|done]. cbn [rows_ok]. rewrite Edel, Hd. split; [done|]. exists m0, j0. split_and!; [|done|done].
        split_and!; [apply in_snoc; by left|done|]. intros m' [Hm'|[= ->]]%in_snoc Hi'; [by apply Hmax|]. rewrite Hold in Hge. cbn [mr_revision] in Hge. lia.
  - cbn [fst conn next_seq with_conn with_monitors monitors current_state]. rewrite lookup_insert_eq. split; [|done]. destruct Hrow as [Hn Hno].
    cbn [rows_ok mr_deleted row]. rewrite Hd. split; [done|]. exists m, json. split_and!; [|done|done].
    split_and!; [apply in_snoc; by right|done|]. intros m' [Hm'|[= ->]]%in_snoc Hi'; [by destruct (Hno _ Hm')|lia].
Qed.

Lemma tombstone_ok ops i0 r0 a0 db :
  storable (FTombstone i0 r0 a0) -> local_seq db < i64_max -> tables_ok ops (conn db) ->
  tables_ok (ops ++ [FTombstone i0 r0 a0]) (conn (apply_fold db (FTombstone i0 r0 a0))).
Proof.
  intros [H1 H2] Hseq Ht i. cbn [apply_fold]. unfold tombstone_monitor. rewrite !bind_u64_ok by (cbn; lia). cbn [result_bind fst].
  cbn [conn next_seq with_conn with_states with_monitors monitors current_state]. destruct (Ht i) as [Hrow Hst].
  destruct (decide (i0 = i)) as [->|Hne].
  - assert (deleted_in (ops ++ [FTombstone i r0 a0]) i) as Hd by (apply deleted_in_snoc; eauto). rewrite lookup_delete_eq.
    split; [|by split; intros]. unfold rows_ok.
    destruct (monitors (conn db) !! i) as [old|] eqn:Eold; [destruct (mr_deleted old) eqn:Edel|]; rewrite ?lookup_insert_eq, ?Eold; cbn [mr_deleted]; rewrite ?Edel; done.
  - rewrite lookup_delete_ne by done. split; [|apply states_ok_other; [done|congruence|done]].
    apply rows_ok_other; [done|congruence|].
    destruct (monitors (conn db) !! i0) as [old|]; [destruct (mr_deleted old)|]; rewrite ?lookup_insert_ne by done; done.
Qed.

Lemma fold_state_ok ops i0 s0 db :
  storable (FState i0 s0) -> tables_ok ops (conn db) -> tables_ok (ops ++ [FState i0 s0]) (conn (apply_fold db (FState i0 s0))).
Proof.
  intros (H1 & H2 & H3 & H4 & H5 & json & Hj & _) Ht i. cbn [apply_fold]. unfold fold_state. rewrite Hj. cbn [map_err result_bind].
  rewrite !bind_u64_ok by done. cbn [result_bind fst sr_monitor_revision sr_last_slot_id]. fold (state_row s0 json).
  destruct (Ht i) as [Hrow Hst].
  assert (rows_ok (ops ++ [FState i0 s0]) i (monitors (conn db) !! i)) as Hrow' by (by apply rows_ok_other).
  destruct (decide (i0 = i)) as [->|Hne].
  2:{ assert (states_ok (ops ++ [FState i0 s0]) i (current_state (conn db) !! i)) by (apply states_ok_other; [congruence|done|done]).
      destruct (_ && _); cbn [conn with_conn with_states monitors current_state]; rewrite ?lookup_insert_ne by done; done. }
  assert (forall j, deleted_in (ops ++ [FState i s0]) j <-> deleted_in ops j) as Hd.
  { intros j. rewrite deleted_in_snoc. split; [intros [?|(r & a & E)]; [done|discriminate E]|auto]. }
  destruct (match monitors (conn db) !! i with Some m => mr_deleted m | None => false end) eqn:Edel; cbn [negb andb].
  { split; [done|]. destruct (monitors (conn db) !! i) as [old|]; [|done]. cbn [rows_ok] in Hrow. rewrite Edel in Hrow.
    destruct Hst as [Hs _]. split; [auto|]. intros Hn. by rewrite Hd in Hn. }
  assert (~ deleted_in ops i) as Hn.
  { destruct (monitors (conn db) !! i) as [old|]; cbn [rows_ok] in Hrow; [rewrite Edel in Hrow|]; apply Hrow. }
  destruct Hst as [_ Hst]. specialize (Hst Hn).
  destruct (current_state (conn db) !! i) as [old|] eqn:Eold.
  - destruct Hst as (s & j & [Hi Hmax] & Hj' & ->). cbn [state_row sr_monitor_revision sr_last_slot_id].
    destruct (pair_gt _ _ _ _) eqn:Egt; cbn [conn with_conn with_states monitors current_state]; rewrite ?lookup_insert_eq, ?Eold;
      (split; [done|]); (split; [by rewrite Hd|]); intros _.
    + exists s0, json. split_and!; [|done|done]. split; [apply in_snoc; by right|]. intros s' [Hs'|[= ->]]%in_snoc.
      * specialize (Hmax _ Hs'). unfold pair_gt in *. lia.
      * unfold pair_gt. lia.
    + exists s, j. split_and!; [|done|done]. split; [apply in_snoc; by left|]. intros s' [Hs'|[= ->]]%in_snoc; [by apply Hmax|done].
  - cbn [conn with_conn with_states monitors current_state]. rewrite lookup_insert_eq. split; [done|]. split; [by rewrite Hd|]. intros _.
    exists s0, json. split_and!; [|done|done]. split; [apply in_snoc; by right|]. intros s' [Hs'|[= ->]]%in_snoc; [by destruct (Hst s')|].
    unfold pair_gt. lia.
Qed.

Lemma apply_fold_seq db o : local_seq db <= local_seq (apply_fold db o) <= local_seq db + 1.
Proof.
  destruct o as [m|i r a|i s]; cbn [apply_fold]; unfold fold_rule, tombstone_monitor, fold_state.
  - destruct (to_vec m); [|cbn; lia]. destruct (result_bind _ _) as [row|e]; [|cbn; lia]. cbn [fst]. destruct (match _ with Some _ => _ | None => _ end); cbn; lia.
  - destruct (result_bind _ _) as [[[]]|e]; cbn; lia.
  - destruct (result_bind _ _) as [row|e]; [|cbn; lia]. cbn [fst]. destruct (_ && _); cbn; lia.
Qed.

Lemma apply_folds_ok ops ops0 db :
  Forall storable ops -> local_seq db + zlen ops <= i64_max -> tables_ok ops0 (conn db) -> tables_ok (ops0 ++ ops) (conn (apply_folds ops db)).
Proof.
  intros Hs. revert ops0 db. induction Hs as [|o ops Ho Hs IH]; intros ops0 db Hseq Ht; cbn [apply_folds fold_left]; [by rewrite app_nil_r|].
  rewrite zlen_cons in Hseq. pose proof (zlen_nonneg ops). pose proof (apply_fold_seq db o).
  replace (ops0 ++ o :: ops) with ((ops0 ++ [o]) ++ ops) by (by rewrite <- app_assoc). apply IH; [lia|].
  destruct o; [apply fold_rule_ok|apply tombstone_ok|apply fold_state_ok]; done || lia.
Qed.

(** ** The view *)

Definition empty_db (deployment : Z) (seq : Z) : AlertsDb :=
  mkAlertsDb (mkTables ALERTS_SCHEMA_VERSION (Some (uuid_text deployment)) ∅ ∅ ∅) deployment seq.

Lemma empty_ok deployment seq : tables_ok [] (conn (empty_db deployment seq)).
Proof.
  intros i. cbn. rewrite !lookup_empty. split; [split; [intros (? & ? & E); by apply not_elem_of_nil in E|by intros m E%not_elem_of_nil]|].
  split; [done|]. intros _ s E. by apply not_elem_of_nil in E.
Qed.

Definition folded (deployment seq : Z) (ops : list Fold) : AlertsDb := apply_folds ops (empty_db deployment seq).

Lemma folded_ok deployment seq ops : Forall storable ops -> seq + zlen ops <= i64_max -> tables_ok ops (conn (folded deployment seq ops)).
Proof. intros Hs Hl. apply (apply_folds_ok ops [] (empty_db deployment seq) Hs Hl (empty_ok deployment seq)). Qed.

(** What [get_monitor] shows of a rule. *)
Definition shows (ops : list Fold) (i : Z) (r : result AlertsDbError (option MonitorSummary)) : Prop :=
  match r with
  | Ok None => deleted_in ops i \/ forall m, FRule m ∈ ops -> id m <> i
  | Ok (Some s) => ~ deleted_in ops i /\ newest_rule ops i (ms_monitor s) /\ newest_state ops i (ms_state s)
  | Err _ => False
  end.

Lemma storable_rule ops m json : Forall storable ops -> FRule m ∈ ops -> to_vec m = Ok json -> from_slice json = Ok m.
Proof. rewrite Forall_forall. intros Hs Hm Hj. destruct (Hs _ Hm) as (_ & _ & _ & _ & j & Hj' & Hf). congruence. Qed.

Lemma storable_state ops i s json : Forall storable ops -> FState i s ∈ ops -> to_vec s = Ok json -> from_slice json = Ok s.
Proof. rewrite Forall_forall. intros Hs Hm Hj. destruct (Hs _ Hm) as (_ & _ & _ & _ & _ & j & Hj' & Hf). congruence. Qed.

Lemma decode_state_ok ops t i :
  Forall storable ops -> ~ deleted_in ops i -> states_ok ops i (current_state t !! i) -> exists s, decode_state t i = Ok s /\ newest_state ops i s.
Proof.
  intros Hs Hn [_ Hst]. specialize (Hst Hn). unfold decode_state. destruct (current_state t !! i) as [r|]; [|by exists None].
  destruct Hst as (s & json & Hnew & Hj & ->). cbn [state_row sr_state_json]. rewrite (storable_state ops i s json Hs (proj1 Hnew) Hj). by exists (Some s).
Qed.

Lemma get_monitor_shows ops i db : Forall storable ops -> tables_ok ops (conn db) -> shows ops i (get_monitor i db).
Proof.
  intros Hs Ht. destruct (Ht i) as [Hrow Hst]. unfold get_monitor. destruct (monitors (conn db) !! i) as [r|]; cbn [rows_ok] in Hrow; [|right; apply Hrow].
  destruct (mr_deleted r) eqn:Edel; [by left|]. destruct Hrow as (Hn & m & json & Hnew & Hj & ->). unfold summary. cbn [mr_record_json].
  rewrite (storable_rule ops m json Hs (proj1 Hnew) Hj). cbn [map_err result_bind].
  destruct (decode_state_ok ops _ i Hs Hn Hst) as (s & -> & Hst'). by cbn.
Qed.

(** Records that agree leave no choice. *)
Lemma shows_unique ops ops' i r r' :
  consistent ops -> (forall o, o ∈ ops <-> o ∈ ops') -> shows ops i r -> shows ops' i r' -> r = r'.
Proof.
  intros [Hc1 Hc2] Heq. assert (deleted_in ops i <-> deleted_in ops' i) as Hd by (unfold deleted_in; by setoid_rewrite Heq).
  destruct r as [[[m s]|]|]; [..|done]; destruct r' as [[[m' s']|]|]; try done; cbn [shows ms_monitor ms_state].
  - intros (Hn & (A1 & A2 & A3) & HS) (_ & (B1 & B2 & B3) & HS'). apply Heq in B1. assert (m = m') as ->.
    { apply Hc1; [done..|congruence|]. specialize (A3 _ B1 B2). apply Heq in A1. specialize (B3 _ A1 A2). lia. }
    do 3 f_equal. destruct s as [s|], s' as [s'|]; [..|done].
    + destruct HS as [S1 S2], HS' as [T1 T2]. specialize (T2 s (proj1 (Heq _) S1)). apply Heq in T1. specialize (S2 s' T1). f_equal.
      apply (Hc2 i); [done..| |]; unfold pair_gt in *; lia.
    + destruct HS as [S1 _]. apply Heq in S1. by destruct (HS' s).
    + destruct HS' as [S1 _]. apply Heq in S1. by destruct (HS s').
  - intros (Hn & (A1 & A2 & _) & _) [Hd'|Hno]; [by rewrite <- Hd in Hd'|]. apply Heq in A1. by destruct (Hno _ A1).
  - intros [Hd'|Hno] (Hn & (A1 & A2 & _) & _); [by rewrite Hd in Hd'|]. apply Heq in A1. by destruct (Hno _ A1).
Qed.

(** ** Pages *)

(** A row without the number of its fold. *)
Definition strip (r : MonitorRow) : MonitorRow :=
  mkMonitorRow (mr_revision r) (mr_deleted r) (mr_enabled r) (mr_every_seconds r) (mr_jitter_seconds r) (mr_name r)
    (mr_updated_at_unix_nano r) (mr_record_json r) 0.
Definition live_view (r : MonitorRow) : option MonitorRow := if mr_deleted r then None else Some (strip r).

Lemma sort_by_key_map {A B} (g : A -> B) (f : B -> Z) (l : list A) :
  sort_by_key f (map g l) = map g (sort_by_key (fun x => f (g x)) l).
Proof.
  unfold sort_by_key. induction l as [|x l IH]; [done|]. cbn [map stable_sort]. rewrite IH. clear IH.
  generalize (stable_sort (fun x y => cmp_leb (f (g x)) (f (g y))) l). intros m. induction m as [|y m IH]; [done|]. cbn [map sort_insert].
  destruct (cmp_leb _ _); [done|]. cbn [map]. by rewrite IH.
Qed.

Lemma page_view after limit (m : gmap Z MonitorRow) :
  map (fun e => (e.1, strip e.2)) (page mr_deleted after limit m) = page mr_deleted after limit (omap live_view m).
Proof.
  unfold page. rewrite <- firstn_map. f_equal. set (keep := fun e : Z * MonitorRow => _ && _).
  rewrite <- (sort_by_key_map (fun e => (e.1, strip e.2)) fst). apply sort_by_key_unique.
  - intros [i r] [j r'] (a & Ha & Ha')%in_map_iff (b & Hb & Hb')%in_map_iff E. cbn in E. subst j.
    apply filter_In in Ha' as [Ha' _], Hb' as [Hb' _]. apply list_elem_of_In, elem_of_map_to_list' in Ha', Hb'.
    injection Ha as Ea <-. injection Hb as Eb <-. rewrite Ea in Ha'. rewrite Eb in Hb'. do 2 f_equal. congruence.
  - apply NoDup_Permutation.
    + apply (NoDup_fmap_2_strong (fun e : Z * MonitorRow => (e.1, strip e.2))); [|apply NoDup_ListNoDup, List.NoDup_filter, NoDup_ListNoDup, NoDup_map_to_list].
      intros [i r] [j r'] Ha Hb [= -> _]. apply list_elem_of_In, filter_In in Ha as [Ha _], Hb as [Hb _].
      apply list_elem_of_In, elem_of_map_to_list in Ha, Hb. congruence.
    + apply NoDup_ListNoDup, List.NoDup_filter, NoDup_ListNoDup, NoDup_map_to_list.
    + intros [i r]. rewrite !list_elem_of_In, in_map_iff, filter_In, <- list_elem_of_In, elem_of_map_to_list. rewrite lookup_omap. split.
      * intros ([j r'] & [= -> <-] & [Hr Hk]%filter_In). apply list_elem_of_In, elem_of_map_to_list in Hr. rewrite Hr. cbn. unfold keep, live_view in *. cbn in *.
        destruct (mr_deleted r'); done.
      * intros [Hr Hk]. apply bind_Some in Hr as (r' & Hr & Hv). unfold live_view in Hv. destruct (mr_deleted r') eqn:E; [done|]. injection Hv as <-.
        exists (i, r'). split; [done|]. apply filter_In. split; [by apply list_elem_of_In, elem_of_map_to_list|]. unfold keep in *. cbn in *. rewrite E in Hk |- *. exact Hk.
Qed.

(** Two projections of the same records hold the same live rows, and their states. *)
Lemma live_rows_agree ops ops' t t' i :
  consistent ops -> (forall o, o ∈ ops <-> o ∈ ops') -> tables_ok ops t -> tables_ok ops' t' ->
  monitors t !! i ≫= live_view = monitors t' !! i ≫= live_view
  /\ (is_Some (monitors t !! i ≫= live_view) -> current_state t !! i = current_state t' !! i).
Proof.
  intros Hc Heq Ht Ht'. destruct (Ht i) as [Hr Hs], (Ht' i) as [Hr' Hs'].
  assert (deleted_in ops i <-> deleted_in ops' i) as Hd by (unfold deleted_in; by setoid_rewrite Heq).
  assert (forall row, rows_ok ops' i row -> rows_ok ops i row) as Hrows.
  { intros [r|]; cbn [rows_ok]; [destruct (mr_deleted r)|]; unfold newest_rule; rewrite ?Hd; try setoid_rewrite Heq; done. }
  apply Hrows in Hr'. clear Hrows. unfold live_view. split.
  - destruct (monitors t !! i) as [r|], (monitors t' !! i) as [r'|]; cbn [rows_ok mbind option_bind] in *; [destruct (mr_deleted r), (mr_deleted r')|..];
      cbn [mbind option_bind]; try done; try (destruct (mr_deleted r); tauto || (destruct Hr as (? & m & ? & (? & ? & ?) & _); by destruct (proj2 Hr' m)));
      try (destruct (mr_deleted r'); tauto || (destruct Hr' as (? & m & ? & (? & ? & ?) & _); by destruct (proj2 Hr m))); try tauto.
    destruct Hr as (_ & m & j & (A1 & A2 & A3) & Hj & Er), Hr' as (_ & m' & j' & (B1 & B2 & B3) & Hj' & Er').
    assert (m = m') as -> by (apply Hc; [done..|congruence|specialize (A3 _ B1 B2); specialize (B3 _ A1 A2); lia]).
    assert (j = j') as -> by congruence. f_equal. rewrite Er, Er'. done.
  - intros Hl. assert (~ deleted_in ops i) as Hn.
    { destruct (monitors t !! i) as [r|]; cbn [mbind option_bind rows_ok] in *; [|by destruct Hl]. destruct (mr_deleted r); [by destruct Hl|]. apply Hr. }
    destruct Hs as [_ Hs], Hs' as [_ Hs']. specialize (Hs Hn). specialize (Hs' (fun H => Hn (proj2 Hd H))).
    destruct (current_state t !! i) as [r|], (current_state t' !! i) as [r'|]; [| | |done].
    + destruct Hs as (s & j & [S1 S2] & Hj & ->), Hs' as (s' & j' & [T1 T2] & Hj' & ->). specialize (T2 s (proj1 (Heq _) S1)). apply Heq in T1.
      specialize (S2 s' T1). assert (s = s') as -> by (apply (proj2 Hc i); [done..| |]; unfold pair_gt in *; lia).
      do 2 f_equal. congruence.
    + destruct Hs as (s & j & [S1 _] & _). apply Heq in S1. by destruct (Hs' s).
    + destruct Hs' as (s & j & [S1 _] & _). apply Heq in S1. by destruct (Hs s).
Qed.

Lemma collect_map {A B C} (f : A -> result AlertsDbError B) (g : C -> A) l : collect f (map g l) = collect (fun x => f (g x)) l.
Proof. induction l as [|x l IH]; [done|]. cbn. by rewrite IH. Qed.

Lemma collect_ext {A B} (f g : A -> result AlertsDbError B) l : Forall (fun x => f x = g x) l -> collect f l = collect g l.
Proof. induction 1 as [|x l Hx _ IH]; [done|]. cbn. by rewrite Hx, IH. Qed.

Lemma page_elem after limit (m : gmap Z MonitorRow) e : e ∈ page mr_deleted after limit m -> m !! e.1 = Some e.2 /\ mr_deleted e.2 = false.
Proof.
  unfold page. intros He%subseteq_take. apply list_elem_of_In, sort_by_key_In, filter_In in He as [He Hk].
  apply list_elem_of_In, elem_of_map_to_list' in He. split; [done|]. by destruct (mr_deleted e.2).
Qed.

(** A page of entries reads the rows through their view. *)
Lemma collect_page_view {B} (f : Tables -> Z * MonitorRow -> result AlertsDbError B) after limit t t' :
  (forall i r, f t (i, r) = f t (i, strip r)) -> (forall i r, f t' (i, r) = f t' (i, strip r)) ->
  (forall i r, current_state t !! i = current_state t' !! i -> f t (i, r) = f t' (i, r)) ->
  (forall i, monitors t !! i ≫= live_view = monitors t' !! i ≫= live_view
     /\ (is_Some (monitors t !! i ≫= live_view) -> current_state t !! i = current_state t' !! i)) ->
  collect (f t) (page mr_deleted after limit (monitors t)) = collect (f t') (page mr_deleted after limit (monitors t')).
Proof.
  intros Hf Hf' Hff Hv.
  assert (omap live_view (monitors t) = omap live_view (monitors t')) as Eview.
  { apply map_eq. intros i. rewrite !lookup_omap. apply Hv. }
  assert (forall u, (forall i r, f u (i, r) = f u (i, strip r)) ->
    collect (f u) (page mr_deleted after limit (monitors u)) = collect (f u) (page mr_deleted after limit (omap live_view (monitors u)))) as Hu.
  { intros u Hu. rewrite <- page_view, collect_map. apply collect_ext, Forall_forall. intros [i r] _. apply Hu. }
  rewrite (Hu t Hf), (Hu t' Hf'), <- Eview. apply collect_ext, Forall_forall. intros [i r] [Hr _]%page_elem. cbn in Hr.
  rewrite lookup_omap in Hr. apply Hff, Hv. by rewrite Hr.
Qed.

(** ** Pruning *)

(** Every row was stamped by now. *)
Definition stamped (db : AlertsDb) : Prop := forall i r, monitors (conn db) !! i = Some r -> mr_local_seq r <= local_seq db.

(** A row is as it was in [old], or was stamped after [epoch]. *)
Definition newer (epoch : Z) (old : gmap Z MonitorRow) (db : AlertsDb) : Prop :=
  epoch <= local_seq db
  /\ forall i, monitors (conn db) !! i = old !! i \/ exists r, monitors (conn db) !! i = Some r /\ epoch < mr_local_seq r.

Lemma bind_u64_eq z y : bind_u64 z = Ok y -> y = z.
Proof. unfold bind_u64. destruct (_ <=? _); [by intros [= ->]|done]. Qed.

Lemma newer_insert epoch old db i r :
  newer epoch old db -> mr_local_seq r = local_seq db + 1 ->
  forall t, monitors t = <[i := r]> (monitors (conn db)) -> newer epoch old (with_conn (next_seq db) t).
Proof.
  intros [H1 H2] Hr t Et. split; [cbn; lia|]. intros j. cbn [conn with_conn]. rewrite Et. destruct (decide (i = j)) as [->|Hne].
  - right. exists r. rewrite lookup_insert_eq. split; [done|lia].
  - rewrite lookup_insert_ne by done. apply H2.
Qed.

Lemma newer_next epoch old db t : newer epoch old db -> monitors t = monitors (conn db) -> newer epoch old (with_conn (next_seq db) t).
Proof. intros [H1 H2] Et. split; [cbn; lia|]. intros j. cbn [conn with_conn]. rewrite Et. apply H2. Qed.

Lemma apply_fold_newer epoch old db o : newer epoch old db -> newer epoch old (apply_fold db o).
Proof.
  intros Hn. pose proof (newer_next epoch old db (conn db) Hn eq_refl) as Hn'. change (with_conn (next_seq db) (conn db)) with (next_seq db) in Hn'.
  destruct o as [m|i r a|i s]; cbn [apply_fold]; unfold fold_rule, tombstone_monitor, fold_state.
  - destruct (to_vec m) as [json|]; [|done]. destruct (result_bind _ _) as [row|e] eqn:Erow; [|done]. cbn [fst].
    repeat (apply bind_ok in Erow as (? & ?%bind_u64_eq & Erow)). injection Erow as <-. subst.
    destruct (match _ with Some _ => _ | None => _ end); [|done]. eapply newer_insert; [exact Hn| |]; [|reflexivity]; done.
  - destruct (result_bind _ _) as [[[r' a'] q]|e] eqn:Erow; [|done]. repeat (apply bind_ok in Erow as (? & ?%bind_u64_eq & Erow)). injection Erow as <- <- <-. subst.
    cbn [fst conn next_seq]. destruct (monitors (conn db) !! i) as [old'|]; [destruct (mr_deleted old')|]; [by apply newer_next|..];
      (eapply newer_insert; [exact Hn| |]; [|reflexivity]; done).
  - destruct (result_bind _ _) as [row|e]; [|done]. cbn [fst]. destruct (_ && _); [|done]. destruct Hn as [H1 H2]. by split.
Qed.

Lemma apply_folds_newer epoch old ops db : newer epoch old db -> newer epoch old (apply_folds ops db).
Proof. revert db. induction ops as [|o ops IH]; intros db Hn; [done|]. by apply IH, apply_fold_newer. Qed.

Lemma forget_all ids db i :
  monitors (conn (fold_left (fun db i => forget_monitor i db) ids db)) !! i = (if bool_decide (i ∈ ids) then None else monitors (conn db) !! i)
  /\ current_state (conn (fold_left (fun db i => forget_monitor i db) ids db)) !! i = (if bool_decide (i ∈ ids) then None else current_state (conn db) !! i).
Proof.
  revert db. induction ids as [|j ids IH]; intros db; [by split|]. cbn [fold_left]. destruct (IH (forget_monitor j db)) as [-> ->]. clear IH.
  unfold forget_monitor. cbn [conn with_conn with_monitors with_states monitors current_state].
  destruct (decide (i = j)) as [->|Hne]; [rewrite !lookup_delete_eq|rewrite !lookup_delete_ne by done].
  - rewrite (bool_decide_true (j ∈ j :: ids)) by (by left). by destruct (bool_decide _).
  - split; (case_bool_decide; case_bool_decide; set_solver).
Qed.

Lemma unlisted_ids_elem epoch (listed : Z -> bool) (m : gmap Z MonitorRow) i :
  i ∈ unlisted_ids mr_local_seq epoch listed m <-> listed i = false /\ exists r, m !! i = Some r /\ mr_local_seq r <= epoch.
Proof.
  unfold unlisted_ids. rewrite list_elem_of_In, filter_In, in_map_iff, negb_true_iff. split.
  - intros [([j r] & <- & [Hr Hk]%filter_In) Hl]. apply list_elem_of_In, elem_of_map_to_list in Hr. cbn in *. split; [done|]. exists r. split; [done|lia].
  - intros [Hl (r & Hr & Hk)]. split; [|done]. exists (i, r). split; [done|]. apply filter_In. split; [by apply list_elem_of_In, elem_of_map_to_list|]. cbn. lia.
Qed.
End Projection.

(** The view of the alert projection depends only on which durable records were
    folded into it: not on their order, nor on how often each was folded.  For every
    monitor, [get_monitor] shows the newest revision of the rule with the newest state in
    [(monitor_revision, last_slot_id)] order, or nothing once a tombstone was folded, and
    two projections of the same records give the scheduler the same pages. *)
Theorem projection_is_a_join {Jm : Json Monitor} {Js : Json AlertState} (deployment deployment' seq seq' : Z) (ops ops' : list Fold) :
  Forall storable ops -> Forall storable ops' -> seq + zlen ops <= i64_max -> seq' + zlen ops' <= i64_max ->
  consistent ops -> (forall o, o ∈ ops <-> o ∈ ops') ->
  (forall i, shows ops i (get_monitor i (folded deployment seq ops)))
  /\ (forall i, get_monitor i (folded deployment seq ops) = get_monitor i (folded deployment' seq' ops'))
  /\ forall after limit, list_schedule after limit (folded deployment seq ops) = list_schedule after limit (folded deployment' seq' ops').
Proof.
  intros Hs Hs' Hl Hl' Hc Heq. pose proof (folded_ok deployment seq ops Hs Hl) as Ht. pose proof (folded_ok deployment' seq' ops' Hs' Hl') as Ht'.
  split_and!.
  - intros i. by apply get_monitor_shows.
  - intros i. eapply shows_unique; eauto using get_monitor_shows.
  - intros after limit. apply collect_page_view; [done..| |].
    + intros i r E. unfold schedule_entry. cbn [fst snd]. by rewrite E.
    + intros i. by eapply live_rows_agree.
Qed.

(** A reconciliation pass removes exactly the monitors that are not in its listing and
    have not changed since it took its epoch: a rule or a tombstone that was folded while
    the listing was read is kept, whatever the listing says, and so is its state. *)
Theorem prune_keeps_news {Jm : Json Monitor} {Js : Json AlertState} (db : AlertsDb) (ops : list Fold) (listed : gset Z) (i : Z) :
  stamped db ->
  let after := apply_folds ops db in
  let pruned := fst (prune_monitors (projection_epoch db) listed after) in
  let kept := i ∈ listed \/ monitors (conn after) !! i <> monitors (conn db) !! i \/ monitors (conn after) !! i = None in
  (kept -> monitors (conn pruned) !! i = monitors (conn after) !! i /\ current_state (conn pruned) !! i = current_state (conn after) !! i)
  /\ (~ kept -> monitors (conn pruned) !! i = None /\ current_state (conn pruned) !! i = None).
Proof.
  intros Hs after pruned kept. assert (newer (projection_epoch db) (monitors (conn db)) after) as [_ Hn].
  { apply apply_folds_newer. split; [done|]. intros j. by left. }
  unfold pruned, prune_monitors. cbn [fst]. destruct (forget_all (unlisted_ids mr_local_seq (projection_epoch db) (fun j => bool_decide (j ∈ listed)) (monitors (conn after))) after i) as [-> ->].
  pose proof (unlisted_ids_elem (projection_epoch db) (fun j => bool_decide (j ∈ listed)) (monitors (conn after)) i) as Hu. cbv beta in Hu.
  rewrite bool_decide_eq_false in Hu. unfold kept. clear kept. split.
  - intros Hk. rewrite bool_decide_false; [done|]. rewrite Hu. intros (Hl & r & Hr & Hle). destruct Hk as [?|[Hc|Hc]]; [done| |congruence].
    destruct (Hn i) as [?|(r' & Hr' & Hlt)]; [done|]. assert (r' = r) as -> by congruence. lia.
  - intros Hk. rewrite bool_decide_true; [done|]. apply Hu. split; [tauto|]. destruct (monitors (conn after) !! i) as [r|] eqn:Er; [|tauto].
    exists r. split; [done|]. apply (Hs i). destruct (decide (Some r = monitors (conn db) !! i)) as [E|E]; [done|]. tauto.
Qed.

Definition demo_rule (rev : Z) : Monitor :=
  mkMonitor 1 7 rev "rule" true (mkScalarQuery "t" Metrics [] 60 "q") (mkCondition Gt_ (S754_zero false)) 60 0 0 0
    NoDataReport ErrorReport [] [] 1 rev.
Definition demo_alert_state (slot : Z) : AlertState := mkState 1 Inactive slot slot slot None None 1 false None.

(** JSON texts that stand for the revisions of one rule and the states of one slot each. *)
Definition demo_monitor_json : Json Monitor :=
  {| to_vec := fun m => Ok [z2b (revision m)];
     from_slice := fun b => match b with [x] => Ok (demo_rule (b2z x)) | _ => Err "no rule" end |}.
Definition demo_state_json : Json AlertState :=
  {| to_vec := fun s => Ok [z2b (last_slot_id s)];
     from_slice := fun b => match b with [x] => Ok (demo_alert_state (b2z x)) | _ => Err "no state" end |}.

Definition demo_folds : list Fold := [FRule (demo_rule 1); FState 7 (demo_alert_state 3); FRule (demo_rule 2); FState 7 (demo_alert_state 5)].
Definition demo_folds' : list Fold := [FState 7 (demo_alert_state 5); FRule (demo_rule 2); FState 7 (demo_alert_state 3); FRule (demo_rule 2); FRule (demo_rule 1)].

Lemma demo_storable (l : list Fold) :
  Forall (fun o => match o with FRule m => m = demo_rule 1 \/ m = demo_rule 2 | FTombstone _ _ _ => False | FState _ s => s = demo_alert_state 3 \/ s = demo_alert_state 5 end) l ->
  Forall (storable (Jm := demo_monitor_json) (Js := demo_state_json)) l.
Proof.
  intros H. eapply List.Forall_impl; [|exact H]. intros [m| |i s]; cbv beta iota; [intros [->| ->]|done|intros [->| ->]].
  all: repeat split; try (vm_compute; discriminate); eexists; split; reflexivity.
Qed.

Lemma projection_is_a_join_witness :
  get_monitor (Jm := demo_monitor_json) (Js := demo_state_json) 7 (folded (Jm := demo_monitor_json) (Js := demo_state_json) 1 0 demo_folds')
    = Ok (Some (mkSummary (demo_rule 2) (Some (demo_alert_state 5))))
  /\ list_schedule None 10 (folded (Jm := demo_monitor_json) (Js := demo_state_json) 1 0 demo_folds)
     = list_schedule None 10 (folded (Jm := demo_monitor_json) (Js := demo_state_json) 1 0 demo_folds').
Proof.
  split; [vm_compute; reflexivity|].
  apply (projection_is_a_join (Jm := demo_monitor_json) (Js := demo_state_json) 1 1 0 0 demo_folds demo_folds').
  - apply demo_storable. repeat first [apply Forall_nil_2|apply Forall_cons_2; [cbv beta iota; auto|]].
  - apply demo_storable. repeat first [apply Forall_nil_2|apply Forall_cons_2; [cbv beta iota; auto|]].
  - vm_compute. discriminate.
  - vm_compute. discriminate.
  - split.
    + intros m m' Hm Hm' _ Hr. unfold demo_folds in *. rewrite !elem_of_cons, elem_of_nil in *.
      destruct Hm as [[= ->]|[[=]|[[= ->]|[[=]|[]]]]], Hm' as [[= ->]|[[=]|[[= ->]|[[=]|[]]]]]; try done; discriminate Hr.
    + intros i s s' Hs Hs' _ Hr. unfold demo_folds in *. rewrite !elem_of_cons, elem_of_nil in *.
      destruct Hs as [[=]|[[= _ ->]|[[=]|[[= _ ->]|[]]]]], Hs' as [[=]|[[= _ ->]|[[=]|[[= _ ->]|[]]]]]; try done; discriminate Hr.
  - intros o. unfold demo_folds, demo_folds'. rewrite !elem_of_cons, elem_of_nil. tauto.
Defined.

Definition demo_db : AlertsDb := folded (Jm := demo_monitor_json) (Js := demo_state_json) 1 0 [FRule (demo_rule 1)].

Lemma prune_keeps_news_witness :
  monitors (conn (fst (prune_monitors (projection_epoch demo_db) ∅ demo_db))) !! 7 = None
  /\ monitors (conn (fst (prune_monitors (projection_epoch demo_db) ∅ (apply_folds (Jm := demo_monitor_json) (Js := demo_state_json) [FRule (demo_rule 2)] demo_db)))) !! 7
     = monitors (conn (apply_folds (Jm := demo_monitor_json) (Js := demo_state_json) [FRule (demo_rule 2)] demo_db)) !! 7.
Proof.
  split; [vm_compute; reflexivity|].
  apply (prune_keeps_news (Jm := demo_monitor_json) (Js := demo_state_json) demo_db [FRule (demo_rule 2)] ∅ 7).
  - intros i r Hr. destruct (decide (i = 7)) as [->|Hne].
    + vm_compute in Hr. injection Hr as <-. vm_compute. discriminate.
    + assert (monitors (conn demo_db) = {[7 := default (mkMonitorRow 0 false false 0 0 "" 0 None 0) (monitors (conn demo_db) !! 7)]}) as E by (vm_compute; reflexivity).
      rewrite E, lookup_singleton_ne in Hr by done. discriminate.
  - right. left. vm_compute. discriminate.
Defined.
