(* ===== verification/AlertTick.v ===== *)
(** * Dispatch of due alert rules

    [crates/scry-alertd/src/scheduler.rs].  The scheduler owns the permits, the set of
    monitors in flight and the running jobs; a job gives back its place in the set and then
    its permit when it ends, at any moment ([JobEvent]s that the environment puts between
    the steps of a pass).  The projection may change between two pages: page [k] is read
    from [db k].  A pass returns what it decided for every monitor it examined. *)

From S2P Require Import Prelude Order Bytes Text Alert Schedule Occurrence AlertTemplate AlertRecords AlertStore AlertsDb.

Definition MAX_CONCURRENT_EVALUATIONS : Z := 8.
Definition SCHEDULE_PAGE : Z := 512.
Definition LEASE_BACKOFF : Z := 5.

Record SchedulerConfig := mkSchedulerConfig { evaluation_delay : Z; max_concurrent : Z; shutdown_grace : Z }.

Record DueSlot := mkDue { d_monitor_id : Z; d_revision : Z; d_slot_id : Z; d_slot_end_unix_nano : Z }.

(** ** Permits, the in-flight set and the jobs *)

(** A running job, and whether it still stands in the in-flight set. *)
Record Job := mkJob { job_due : DueSlot; in_set : bool }.

Record Pool := mkPool { permits : Z; in_flight : gset Z; running : list Job }.

(** The locals of a job are dropped in reverse: [InFlight], then the permit. *)
Inductive JobEvent := FlightDropped (job : nat) | PermitDropped (job : nat).

Definition job_event (p : Pool) (e : JobEvent) : Pool :=
  match e with
  | FlightDropped n =>
      match running p !! n with
      | Some (mkJob due true) =>
          mkPool (permits p) (in_flight p ∖ {[d_monitor_id due]}) (<[n := mkJob due false]> (running p))
      | _ => p
      end
  | PermitDropped n =>
      match running p !! n with
      | Some (mkJob _ false) => mkPool (permits p + 1) (in_flight p) (delete n (running p))
      | _ => p
      end
  end.

Definition job_events (p : Pool) (l : list JobEvent) : Pool := fold_left job_event l p.

(** [spawn], with the permit that [try_acquire_owned] took. *)
Definition spawn (due : DueSlot) (p : Pool) : Pool :=
  mkPool (permits p - 1) ({[d_monitor_id due]} ∪ in_flight p) (running p ++ [mkJob due true]).

Record Scheduler := mkScheduler { config : SchedulerConfig; pool : Pool; resume_after : option Z; backoff_until : option Z }.

Definition scheduler_new (c : SchedulerConfig) : Scheduler :=
  mkScheduler c (mkPool (Z.max (max_concurrent c) 1) ∅ []) None None.

(** ** Due slots *)

Section Tick.
  Context (sha256 : bytes -> bytes).

Definition due_slot (e : ScheduleEntry) (now delay_nanos : Z) : option DueSlot :=
  slot ← latest_due_slot sha256 (se_monitor_id e) now (se_every_seconds e) (se_jitter_seconds e) delay_nanos;
  let skip :=
    match se_state e with
    | None => false
    | Some s =>
        scheduled_covers s (se_revision e) (slot_id slot)
        || (negb (se_enabled e) && (ss_monitor_revision s =? se_revision e) && bool_decide (ss_status s = Disabled))
    end in
  if skip then None
  else Some (mkDue (se_monitor_id e) (se_revision e) (slot_id slot) (end_unix_nano slot)).

(** ** One pass *)

Inductive Decision := NotDue | AlreadyRunning | Dispatched (due : DueSlot).

Record TickState := mkTick {
  t_pool : Pool;
  t_after : option Z;
  t_last_seen : option Z;
  t_step : nat;
  t_seen : list (Z * Decision);
}.

(** The pass goes on, or returns with the new resume point. *)
Inductive PageOutcome := Continue (st : TickState) | Return (resume : option Z) (st : TickState).

Context (events : nat -> list JobEvent) (now delay : Z) (wrap_at : option Z).

Definition progress (st : TickState) : TickState :=
  mkTick (job_events (t_pool st) (events (t_step st))) (t_after st) (t_last_seen st) (S (t_step st)) (t_seen st).

Definition decided (st : TickState) (p : Pool) (i : Z) (d : Decision) : TickState :=
  mkTick p (Some i) (Some i) (t_step st) (t_seen st ++ [(i, d)]).

Definition past_stop (wrapped : bool) (i : Z) : bool :=
  wrapped && match wrap_at with Some stop => stop <? i | None => false end.

(** The loop over the entries of a page. *)
Fixpoint tick_page (wrapped : bool) (entries : list ScheduleEntry) (st : TickState) : PageOutcome :=
  match entries with
  | [] => Continue st
  | e :: entries =>
      let i := se_monitor_id e in
      if past_stop wrapped i then Return None st
      else
        match due_slot e now delay with
        | None => tick_page wrapped entries (decided st (t_pool st) i NotDue)
        | Some due =>
            let st := progress st in
            if bool_decide (i ∈ in_flight (t_pool st)) then tick_page wrapped entries (decided st (t_pool st) i AlreadyRunning)
            else
              let st := progress st in
              if 0 <? permits (t_pool st)
              then tick_page wrapped entries (decided st (spawn due (t_pool st)) i (Dispatched due))
              else Return (match t_last_seen st with Some l => Some l | None => wrap_at end) st
        end
  end.

Context (db : nat -> AlertsDb).

(** The loop over the pages; [None] when the fuel runs out. *)
Fixpoint tick_loop (fuel page : nat) (wrapped : bool) (st : TickState) : option (TickState * result AlertsDbError (option Z)) :=
  match fuel with
  | O => None
  | S fuel =>
      match list_schedule (t_after st) SCHEDULE_PAGE (db page) with
      | Err e => Some (st, Err e)
      | Ok entries =>
          match tick_page wrapped entries st with
          | Return resume st => Some (st, Ok resume)
          | Continue st =>
              if zlen entries <? SCHEDULE_PAGE then
                if wrapped || (match wrap_at with None => true | Some _ => false end) then Some (st, Ok None)
                else tick_loop fuel (S page) true (mkTick (t_pool st) None (t_last_seen st) (t_step st) (t_seen st))
              else tick_loop fuel (S page) wrapped st
          end
      end
  end.
End Tick.

(** [tick]: the state afterwards, what it decided, and the number of evaluations spawned. *)
Definition is_dispatched (d : Z * Decision) : bool := match snd d with Dispatched _ => true | _ => false end.

Definition tick (sha256 : bytes -> bytes) (events : nat -> list JobEvent) (db : nat -> AlertsDb) (fuel : nat) (instant now : Z) (s : Scheduler)
    : option (Scheduler * list (Z * Decision) * result AlertsDbError Z) :=
  if match backoff_until s with Some until => instant <? until | None => false end then Some (s, [], Ok 0)
  else
    '(st, r) ← tick_loop sha256 events now (Z.min (evaluation_delay (config s)) u64_max) (resume_after s) db fuel 0 false
                 (mkTick (pool s) (resume_after s) None 0 []);
    Some (mkScheduler (config s) (t_pool st) (match r with Ok resume => resume | Err _ => resume_after s end) None, t_seen st,
          let? _ := r in Ok (zlen (List.filter is_dispatched (t_seen st)))).

(** ** Results of jobs *)

(** How a job ended: [SlotOutcome] or [EvaluationError], or a task that did not return. *)
Inductive JobResult := JobOk | JobLeaseUnavailable | JobFailed | JobCancelled | JobPanicked.

(** [record], at instant [t] in seconds. *)
Definition record (t : Z) (s : Scheduler) (r : JobResult) : Scheduler :=
  match r with
  | JobLeaseUnavailable => mkScheduler (config s) (pool s) (resume_after s) (Some (t + LEASE_BACKOFF))
  | _ => s
  end.

Definition reap (t : Z) (ended : list JobResult) (s : Scheduler) : Scheduler := fold_left (record t) ended s.

(** ** The pool *)

Definition held (l : list Job) : list Z := map (fun j => d_monitor_id (job_due j)) (List.filter in_set l).

Definition pool_ok (max : Z) (p : Pool) : Prop :=
  0 <= permits p /\ permits p + zlen (running p) = max /\ in_flight p = list_to_set (held (running p)) /\ NoDup (held (running p)).

Lemma held_app l k : held (l ++ k) = held l ++ held k.
Proof. unfold held. by rewrite List.filter_app, map_app. Qed.

Lemma job_event_ok max p e : pool_ok max p -> pool_ok max (job_event p e) /\ permits p <= permits (job_event p e).
Proof.
  intros (H1 & H2 & H3 & H4). destruct e as [n|n]; cbn [job_event]; destruct (running p !! n) as [[due [|]]|] eqn:E; try (split; [by split_and!|lia]).
  - apply list_elem_of_split_length in E as (l1 & l2 & El & ->). rewrite El in *. rewrite insert_app_r_alt, Nat.sub_diag by done. cbn [list_insert insert].
    rewrite !held_app in *. cbn [held List.filter in_set map job_due] in *. fold (held l2) in *. rewrite !zlen_app, !zlen_cons in *. split; [|cbn; lia].
    unfold pool_ok. cbn [permits in_flight running]. rewrite zlen_app, zlen_cons, held_app. cbn [held List.filter in_set map]. fold (held l2).
    apply NoDup_app in H4 as (Hn1 & Hd & Hn2). apply NoDup_cons in Hn2 as [Hn2 Hn3]. split_and!; [done|done| |].
    + rewrite H3. rewrite !list_to_set_app_L. cbn [list_to_set]. specialize (Hd (d_monitor_id due)). set_solver.
    + apply NoDup_app. split_and!; [done| |done]. intros x Hx Hx2. apply (Hd x Hx). by right.
  - apply list_elem_of_split_length in E as (l1 & l2 & El & ->). rewrite El in *. rewrite delete_middle.
    rewrite !held_app in *. cbn [held List.filter in_set map] in *. fold (held l2) in *. rewrite !zlen_app, !zlen_cons in *.
    split; [|cbn; lia]. unfold pool_ok. cbn [permits in_flight running]. rewrite held_app, zlen_app. split_and!; [lia|lia|done|done].
Qed.

Lemma job_events_ok max l : forall p, pool_ok max p -> pool_ok max (job_events p l) /\ permits p <= permits (job_events p l).
Proof.
  induction l as [|e l IH]; intros p Hp; cbn [job_events fold_left]; [split; [done|lia]|]. destruct (job_event_ok max p e Hp) as [Hp' Hle].
  destruct (IH _ Hp') as [? ?]. unfold job_events in *. split; [done|lia].
Qed.

Lemma spawn_ok max due p : pool_ok max p -> 0 < permits p -> d_monitor_id due ∉ in_flight p -> pool_ok max (spawn due p).
Proof.
  intros (H1 & H2 & H3 & H4) Hp Hn. unfold pool_ok, spawn. cbn [permits in_flight running]. rewrite held_app, zlen_app. cbn.
  rewrite H3 in Hn |- *. rewrite elem_of_list_to_set in Hn. split_and!; [lia|unfold zlen in *; cbn; lia|rewrite list_to_set_app_L; cbn; set_solver|].
  apply NoDup_app. split_and!; [done|set_solver|apply NoDup_singleton].
Qed.

Lemma job_events_flight l : forall p, in_flight (job_events p l) ⊆ in_flight p.
Proof.
  induction l as [|e l IH]; intros p; cbn [job_events fold_left]; [done|]. unfold job_events in IH. rewrite IH.
  destruct e as [n|n]; cbn [job_event]; destruct (running p !! n) as [[due [|]]|]; cbn [in_flight]; set_solver.
Qed.

(** ** One page *)

Definition or_last (l : list Z) (d : option Z) : option Z := match last l with Some x => Some x | None => d end.

Lemma or_last_cons x l d : or_last (x :: l) d = or_last l (Some x).
Proof. unfold or_last. rewrite last_cons. by destruct (last l). Qed.

Lemma or_last_app l k d : or_last (l ++ k) d = or_last k (or_last l d).
Proof. unfold or_last. rewrite last_app. by destruct (last k). Qed.

Definition n_dispatched (l : list (Z * Decision)) : Z := zlen (List.filter is_dispatched l).

Lemma n_dispatched_app l k : n_dispatched (l ++ k) = n_dispatched l + n_dispatched k.
Proof. unfold n_dispatched. by rewrite List.filter_app, zlen_app. Qed.

Section Facts.
  Context (sha256 : bytes -> bytes) (events : nat -> list JobEvent) (now delay : Z) (wrap_at : option Z) (max : Z).

(** What a decision says of the entry it was taken for. *)
Definition decision_ok (e : ScheduleEntry) (d : Z * Decision) : Prop :=
  fst d = se_monitor_id e
  /\ match snd d with
     | NotDue => due_slot sha256 e now delay = None
     | AlreadyRunning => is_Some (due_slot sha256 e now delay)
     | Dispatched due => due_slot sha256 e now delay = Some due
     end.

Lemma due_slot_id e due : due_slot sha256 e now delay = Some due -> d_monitor_id due = se_monitor_id e.
Proof. unfold due_slot. intros (slot & _ & H)%bind_Some. destruct (match se_state e with Some _ => _ | None => _ end); [done|]. by injection H as <-. Qed.

Lemma progress_ok st :
  pool_ok max (t_pool st) -> pool_ok max (t_pool (progress events st)) /\ permits (t_pool st) <= permits (t_pool (progress events st)).
Proof. apply job_events_ok. Qed.

(** The pass examined [seen] and stopped before [rest]. *)
Definition page_ok (wrapped : bool) (entries : list ScheduleEntry) (st : TickState) (o : PageOutcome) : Prop :=
  let st' := match o with Continue st' | Return _ st' => st' end in
  exists seen rest,
    t_seen st' = t_seen st ++ seen /\ Forall2 decision_ok (take (length seen) entries) seen
    /\ map se_monitor_id entries = map fst seen ++ rest
    /\ Forall (fun i => past_stop wrap_at wrapped i = false) (map fst seen)
    /\ t_last_seen st' = or_last (map fst seen) (t_last_seen st) /\ t_after st' = or_last (map fst seen) (t_after st)
    /\ pool_ok max (t_pool st') /\ permits (t_pool st) <= permits (t_pool st') + n_dispatched seen
    /\ match o with
       | Continue _ => rest = []
       | Return r _ => exists k rest', rest = k :: rest'
           /\ (past_stop wrap_at wrapped k = true /\ r = None
               \/ past_stop wrap_at wrapped k = false /\ r = (match t_last_seen st' with Some l => Some l | None => wrap_at end) /\ permits (t_pool st') = 0)
       end.

(** One more examined monitor. *)
Lemma page_ok_cons wrapped e entries st st1 d o :
  past_stop wrap_at wrapped (se_monitor_id e) = false -> decision_ok e d ->
  t_seen st1 = t_seen st ++ [d] -> t_after st1 = Some (se_monitor_id e) -> t_last_seen st1 = Some (se_monitor_id e) ->
  permits (t_pool st) <= permits (t_pool st1) + n_dispatched [d] ->
  page_ok wrapped entries st1 o -> page_ok wrapped (e :: entries) st o.
Proof.
  intros Hp Hd Es Ea El Hperm (seen & rest & H1 & H2 & H3 & H4 & H5 & H6 & H7 & H8 & H9). destruct (Hd) as [Hfst _].
  exists (d :: seen), rest. cbn [map length take]. rewrite !or_last_cons, Hfst. rewrite H1, Es, <- app_assoc. split_and!; try done.
  - by constructor.
  - rewrite H3. done.
  - by constructor.
  - by rewrite H5, El.
  - by rewrite H6, Ea.
  - change (d :: seen) with ([d] ++ seen). rewrite n_dispatched_app. lia.
Qed.

Lemma tick_page_ok wrapped entries : forall st,
  pool_ok max (t_pool st) -> page_ok wrapped entries st (tick_page sha256 events now delay wrap_at wrapped entries st).
Proof.
  induction entries as [|e entries IH]; intros st Hp; cbn [tick_page].
  { exists [], []. rewrite app_nil_r. split_and!; try done. change (n_dispatched _) with 0. lia. }
  destruct (past_stop wrap_at wrapped (se_monitor_id e)) eqn:Epast.
  { exists [], (se_monitor_id e :: map se_monitor_id entries). rewrite app_nil_r. split_and!; try done.
    - change (n_dispatched _) with 0. lia.
    - eexists _, _. split; [reflexivity|]. by left. }
  destruct (due_slot sha256 e now delay) as [due|] eqn:Edue.
  2:{ eapply (page_ok_cons _ _ _ _ (decided st (t_pool st) (se_monitor_id e) NotDue) (se_monitor_id e, NotDue)); [done|split; [reflexivity|exact Edue]|reflexivity|reflexivity|reflexivity| |apply IH; exact Hp].
      change (n_dispatched _) with 0. cbn [t_pool decided]. lia. }
  destruct (progress_ok st Hp) as [Hp1 Hle1]. set (st1 := progress events st) in *.
  case_bool_decide as Hin.
  { eapply (page_ok_cons _ _ _ _ (decided st1 (t_pool st1) (se_monitor_id e) AlreadyRunning) (se_monitor_id e, AlreadyRunning)); [done|split; [reflexivity|by exists due]|reflexivity|reflexivity|reflexivity| |apply IH; exact Hp1].
    change (n_dispatched _) with 0. cbn [t_pool decided]. lia. }
  destruct (progress_ok st1 Hp1) as [Hp2 Hle2]. set (st2 := progress events st1) in *.
  assert (se_monitor_id e ∉ in_flight (t_pool st2)) as Hin2.
  { intros H. apply Hin. revert H. unfold st2, progress. cbn [t_pool]. apply job_events_flight. }
  destruct (Z.ltb_spec 0 (permits (t_pool st2))) as [Hpos|Hzero].
  - eapply (page_ok_cons _ _ _ _ (decided st2 (spawn due (t_pool st2)) (se_monitor_id e) (Dispatched due)) (se_monitor_id e, Dispatched due)); [done|split; [reflexivity|exact Edue]|reflexivity|reflexivity|reflexivity| |apply IH].
    + change (n_dispatched _) with 1. cbn [t_pool decided spawn permits]. lia.
    + cbn [t_pool decided]. apply spawn_ok; [done|done|]. by rewrite (due_slot_id _ _ Edue).
  - exists [], (se_monitor_id e :: map se_monitor_id entries). cbn [map app]. rewrite app_nil_r. split_and!; try done.
    + change (n_dispatched _) with 0. lia.
    + eexists _, _. split; [reflexivity|]. right. split_and!; [done|done|]. destruct Hp2. lia.
Qed.
End Facts.
