(* ===== verification/AlertTickFacts.v ===== *)
(** * The alert scheduler serves every rule

    What a pass of [AlertTick] does: no monitor runs twice at a time or beyond the permits,
    the pass goes round the monitors in the order of their identifiers from where the last
    one stopped, and so every monitor is reached within as many passes as there are
    monitors. *)

From Stdlib Require Import Sorting.Sorted.
From S2P Require Import Prelude Order Bytes Text Alert Schedule Occurrence AlertTemplate AlertRecords AlertStore AlertsDb AlertTick.

(** ** Increasing lists *)

Abbreviation increasing := (StronglySorted Z.lt).

Lemma increasing_ext l k : increasing l -> increasing k -> (forall i, In i l <-> In i k) -> l = k.
Proof.
  intros Hl. revert k. induction Hl as [|x l Hl IH Hx]; intros k Hk Heq.
  - destruct k as [|y k]; [done|]. destruct (proj2 (Heq y) (or_introl eq_refl)).
  - destruct Hk as [|y k Hk Hy]; [destruct (proj1 (Heq x) (or_introl eq_refl))|]. rewrite List.Forall_forall in Hx, Hy.
    assert (x = y) as ->.
    { destruct (proj1 (Heq x) (or_introl eq_refl)) as [->|Hin]; [done|]. destruct (proj2 (Heq y) (or_introl eq_refl)) as [->|Hin']; [done|].
      specialize (Hx _ Hin'). specialize (Hy _ Hin). lia. }
    f_equal. apply IH; [done|]. intros i. specialize (Heq i). cbn in Heq. split; intros Hi.
    + destruct (proj1 Heq (or_intror Hi)) as [->|?]; [|done]. specialize (Hx _ Hi). lia.
    + destruct (proj2 Heq (or_intror Hi)) as [->|?]; [|done]. specialize (Hy _ Hi). lia.
Qed.

Lemma increasing_filter p l : increasing l -> increasing (List.filter p l).
Proof.
  induction 1 as [|x l Hl IH Hx]; cbn [List.filter]; [constructor|]. destruct (p x); [|done]. constructor; [done|].
  rewrite List.Forall_forall in *. intros y [Hy _]%filter_In. auto.
Qed.

Lemma increasing_app l k : increasing (l ++ k) <-> increasing l /\ increasing k /\ forall i j, In i l -> In j k -> i < j.
Proof.
  induction l as [|x l IH]; cbn [app].
  - split; [intros; split_and!; [constructor|done|done]|by intros (_ & ? & _)].
  - split.
    + inversion_clear 1 as [|? ? Hs Hx]. apply IH in Hs as (H1 & H2 & H3). rewrite List.Forall_forall in Hx. split_and!; [|done|].
      * constructor; [done|]. apply List.Forall_forall. intros y Hy. apply Hx, in_or_app. by left.
      * intros i j [->|Hi] Hj; [apply Hx, in_or_app; by right|auto].
    + intros (Hl & Hk & Hij). inversion_clear Hl as [|? ? Hs Hx]. constructor; [apply IH; split_and!; [done|done|]; intros; apply Hij; [by right|done]|].
      apply List.Forall_forall. intros y [Hy|Hy]%in_app_or; [by rewrite List.Forall_forall in Hx; apply Hx|]. apply Hij; [by left|done].
Qed.

Lemma increasing_nodup l : increasing l -> NoDup l.
Proof.
  induction 1 as [|x l Hl IH Hx]; constructor; [|done]. intros Hin%list_elem_of_In. rewrite List.Forall_forall in Hx. specialize (Hx _ Hin). lia.
Qed.

(** ** Pages of the schedule *)

Definition beyond (after : option Z) (i : Z) : bool := match after with None => true | Some a => a <? i end.

Definition live_ids (db : AlertsDb) : list Z :=
  map fst (sort_by_key fst (List.filter (fun e => negb (mr_deleted e.2)) (map_to_list (monitors (conn db))))).

Lemma sorted_keys (p : Z * MonitorRow -> bool) (m : gmap Z MonitorRow) : increasing (map fst (sort_by_key fst (List.filter p (map_to_list m)))).
Proof.
  set (l := List.filter p (map_to_list m)). assert (NoDup (map fst (sort_by_key fst l))) as Hn.
  { assert (map fst (sort_by_key fst l) ≡ₚ map fst l) as -> by apply Permutation_map, sort_by_key_perm. unfold l.
    generalize (NoDup_fst_map_to_list m). generalize (map_to_list m). clear l. induction l as [|x l IH]; [done|]. cbn. rewrite NoDup_cons. intros [Hx Hl].
    destruct (p x); [|by apply IH]. cbn. apply NoDup_cons. split; [|by apply IH]. intros (y & Hy & Hin%list_elem_of_In)%list_elem_of_fmap.
    apply filter_In in Hin as [Hin _]. apply Hx. rewrite Hy. apply list_elem_of_fmap. exists y. split; [done|]. by apply list_elem_of_In. }
  pose proof (sort_by_key_sorted fst l) as Hs. revert Hn Hs. generalize (sort_by_key fst l). clear l. intros l Hn Hs.
  induction Hs as [|x l Hs IH Hx]; cbn [map] in *; [constructor|]. apply NoDup_cons in Hn as [Hn1 Hn2]. constructor; [by apply IH|].
  apply List.Forall_forall. intros i Hi. assert (x.1 <> i) by (intros E; apply Hn1, list_elem_of_In; by rewrite E).
  apply in_map_iff in Hi as (y & <- & Hy). rewrite List.Forall_forall in Hx. specialize (Hx _ Hy). unfold cmp_leb in Hx. cbn in Hx.
  destruct (Z.compare_spec x.1 y.1); [done|done|done].
Qed.

Lemma live_ids_increasing db : increasing (live_ids db).
Proof. apply sorted_keys. Qed.

Lemma page_ids after limit (db : AlertsDb) :
  map fst (page mr_deleted after limit (monitors (conn db))) = take (Z.to_nat limit) (List.filter (beyond after) (live_ids db)).
Proof.
  unfold page. rewrite <- firstn_map. f_equal. apply increasing_ext; [apply sorted_keys|apply increasing_filter, live_ids_increasing|].
  intros i. unfold live_ids. rewrite filter_In, !in_map_iff. setoid_rewrite sort_by_key_In. setoid_rewrite filter_In. unfold beyond. split.
  - intros ([j r] & <- & Hin & [H1 H2]%andb_true_iff). split; [|done]. by exists (j, r).
  - intros [([j r] & <- & Hin & H1) H2]. exists (j, r). split_and!; [done|done|]. cbn in *. by rewrite H1, H2.
Qed.

Lemma collect_ids t l es : collect (schedule_entry t) l = Ok es -> map se_monitor_id es = map fst l.
Proof.
  revert es. induction l as [|x l IH]; intros es; cbn [collect]; [by intros [= <-]|].
  intros (y & Hy & H)%bind_ok. apply bind_ok in H as (ys & Hys & [= <-]). cbn [map]. rewrite (IH _ Hys). f_equal.
  unfold schedule_entry in Hy. apply bind_ok in Hy as (s & _ & [= <-]). done.
Qed.

Lemma list_schedule_ids after db es :
  list_schedule after SCHEDULE_PAGE db = Ok es -> map se_monitor_id es = take (Z.to_nat SCHEDULE_PAGE) (List.filter (beyond after) (live_ids db)).
Proof. unfold list_schedule. change (clamp SCHEDULE_PAGE 1 10000) with SCHEDULE_PAGE. intros H%collect_ids. by rewrite H, page_ids. Qed.

(** ** The circle of monitors *)

(** The monitors in the order of a pass that resumes after [from]. *)
Definition circle (from : option Z) (ids : list Z) : list Z :=
  match from with
  | None => ids
  | Some stop => List.filter (fun i => stop <? i) ids ++ List.filter (fun i => negb (stop <? i)) ids
  end.

Lemma filter_all (p : Z -> bool) l : (forall i, In i l -> p i = true) -> List.filter p l = l.
Proof. induction l as [|x l IH]; intros H; [done|]. cbn. rewrite (H x) by (by left). f_equal. apply IH. intros i Hi. apply H. by right. Qed.

Lemma filter_none (p : Z -> bool) l : (forall i, In i l -> p i = false) -> List.filter p l = [].
Proof. induction l as [|x l IH]; intros H; [done|]. cbn. rewrite (H x) by (by left). apply IH. intros i Hi. apply H. by right. Qed.

Lemma filter_cut (p : Z -> bool) u v :
  (forall i, In i u -> p i = false) -> (forall i, In i v -> p i = true) -> List.filter p (u ++ v) = v.
Proof. intros Hu Hv. rewrite List.filter_app, filter_none, filter_all; done. Qed.

Lemma split_before stop ids :
  increasing ids -> ids = List.filter (fun i => negb (stop <? i)) ids ++ List.filter (fun i => stop <? i) ids.
Proof.
  intros Hs. apply increasing_ext; [done| |].
  - apply increasing_app. split_and!; [by apply increasing_filter..|]. intros i j [_ Hi]%filter_In [_ Hj]%filter_In. lia.
  - intros i. rewrite in_app_iff, !filter_In. destruct (stop <? i); cbn; tauto.
Qed.

Lemma circle_at u x v : increasing (u ++ x :: v) -> circle (Some x) (u ++ x :: v) = v ++ u ++ [x].
Proof.
  intros (Hu & Hxv & Huv)%increasing_app. inversion_clear Hxv as [|? ? Hv Hx]. rewrite List.Forall_forall in Hx. unfold circle.
  change (u ++ x :: v) with (u ++ [x] ++ v). rewrite (app_assoc u [x] v).
  assert (forall i, In i (u ++ [x]) -> (x <? i) = false) as H1.
  { intros i [Hi|[->|[]]]%in_app_or; [|lia]. specialize (Huv i x Hi (or_introl eq_refl)). lia. }
  assert (forall i, In i v -> (x <? i) = true) as H2 by (intros i Hi; specialize (Hx i Hi); lia).
  rewrite filter_cut by done. f_equal. rewrite List.filter_app, (filter_none _ v), app_nil_r.
  - apply filter_all. intros i Hi. by rewrite (H1 i Hi).
  - intros i Hi. by rewrite (H2 i Hi).
Qed.

(** Resuming after what was examined goes on with what was not. *)
Lemma circle_rotate from ids a b :
  increasing ids -> circle from ids = a ++ b -> a <> [] -> circle (last a) ids = b ++ a.
Proof.
  intros Hs Hc Ha. assert (exists u v, ids = u ++ v /\ circle from ids = v ++ u) as (u & v & Hids & Hcirc).
  { destruct from as [stop|]; [|exists [], ids; by rewrite app_nil_r]. do 2 eexists. split; [apply (split_before stop), Hs|done]. }
  rewrite Hcirc in Hc. destruct a as [|x a] using rev_ind; [done|]. clear IHa Ha. rewrite last_snoc.
  assert (forall u' v', ids = u' ++ x :: v' -> circle (Some x) ids = v' ++ u' ++ [x]) as Hat by (intros u' v' E; rewrite E in Hs |- *; by apply circle_at).
  apply app_eq_inv in Hc as [(k & -> & ->)|(k & Hk & ->)].
  - rewrite (Hat (u ++ a) k) by (rewrite Hids, <- !app_assoc; done). by rewrite <- !app_assoc.
  - destruct k as [|y k _] using rev_ind.
    + rewrite app_nil_r in Hk. subst v. rewrite (Hat (b ++ a) []) by (rewrite Hids, <- !app_assoc; done). by rewrite app_nil_l, <- !app_assoc.
    + rewrite app_assoc in Hk. apply app_inj_tail in Hk as [-> ->]. rewrite (Hat k (b ++ v)) by (rewrite Hids, <- !app_assoc; done). by rewrite <- !app_assoc.
Qed.

(** ** A whole pass *)

Section Pass.
  Context (sha256 : bytes -> bytes) (events : nat -> list JobEvent) (now delay : Z) (wrap_at : option Z) (max : Z).
  Context (db : nat -> AlertsDb) (ids : list Z).
  Context (Hids : forall k, live_ids (db k) = ids) (Hlist : forall k after, exists es, list_schedule after SCHEDULE_PAGE (db k) = Ok es).
  Context (permits0 : Z).

Lemma ids_increasing : increasing ids.
Proof. rewrite <- (Hids 0%nat). apply live_ids_increasing. Qed.

(** What lies beyond the last monitor of a page is what the page left. *)
Lemma beyond_page after n (js := take n (List.filter (beyond after) ids)) :
  js <> [] -> List.filter (beyond (or_last js after)) ids = drop n (List.filter (beyond after) ids).
Proof.
  intros Hne. set (F := List.filter (beyond after) ids) in *. assert (increasing F) as HF by apply increasing_filter, ids_increasing.
  rewrite <- (take_drop n F) in HF. fold js in HF. apply increasing_app in HF as (Hj & Hd & Hjd).
  destruct js as [|x l _] eqn:Ejs using rev_ind; [done|]. unfold or_last. rewrite last_snoc.
  assert (List.filter (beyond (Some x)) ids = List.filter (beyond (Some x)) F) as ->.
  { assert (beyond after x = true) as Hx.
    { assert (In x F) as [_ ?]%filter_In; [|done]. rewrite <- (take_drop n F). apply in_or_app. left. fold js. rewrite Ejs. apply in_or_app. right. by left. }
    apply increasing_ext; [apply increasing_filter, ids_increasing|by apply increasing_filter, increasing_filter, ids_increasing|].
    intros i. unfold F. rewrite !filter_In. destruct after as [a|]; cbn [beyond] in *; [|tauto]. split; [|tauto]. intros [? ?]. split_and!; [done|lia|done]. }
  rewrite <- (take_drop n F) at 1. fold js. rewrite Ejs. apply filter_cut; cbn [beyond].
  - intros i Hi. apply increasing_app in Hj as (_ & _ & Hlx). apply in_app_or in Hi as [Hi|[->|[]]]; [|lia]. specialize (Hlx i x Hi (or_introl eq_refl)). lia.
  - intros i Hi. specialize (Hjd x i ltac:(apply in_or_app; right; by left) Hi). lia.
Qed.

(** The monitors that a phase still has to examine. *)
Definition ahead (wrapped : bool) (after : option Z) : list Z :=
  if wrapped then List.filter (fun i => negb (past_stop wrap_at true i)) (List.filter (beyond after) ids)
  else List.filter (beyond after) ids ++ match wrap_at with None => [] | Some stop => List.filter (fun i => negb (stop <? i)) ids end.

Definition goes_round (wrapped : bool) (st : TickState) : Prop :=
  circle wrap_at ids = map fst (t_seen st) ++ ahead wrapped (t_after st)
  /\ t_last_seen st = last (map fst (t_seen st))
  /\ pool_ok max (t_pool st) /\ permits0 <= permits (t_pool st) + n_dispatched (t_seen st)
  /\ (wrapped = true -> is_Some wrap_at).

(** How a pass ends: all were examined, or the next pass begins where this one stopped. *)
Definition ends (st : TickState) (resume : option Z) : Prop :=
  pool_ok max (t_pool st) /\ permits0 <= permits (t_pool st) + n_dispatched (t_seen st)
  /\ exists rest, circle wrap_at ids = map fst (t_seen st) ++ rest
       /\ (rest = [] /\ resume = None
           \/ rest <> [] /\ circle resume ids = rest ++ map fst (t_seen st) /\ permits (t_pool st) = 0).

Lemma resume_ends st rest :
  circle wrap_at ids = map fst (t_seen st) ++ rest -> rest <> [] -> t_last_seen st = last (map fst (t_seen st)) ->
  circle (match t_last_seen st with Some l => Some l | None => wrap_at end) ids = rest ++ map fst (t_seen st).
Proof.
  intros Hc Hr Hl. rewrite Hl. destruct (map fst (t_seen st)) as [|x l] eqn:E.
  - cbn. rewrite app_nil_r. exact Hc.
  - destruct (last (x :: l)) as [y|] eqn:El; [|by apply last_None in El]. rewrite <- El. eapply circle_rotate; [apply ids_increasing|exact Hc|done].
Qed.

(** One page of a pass. *)
Lemma page_step wrapped page st entries (o := tick_page sha256 events now delay wrap_at wrapped entries st) :
  goes_round wrapped st -> list_schedule (t_after st) SCHEDULE_PAGE (db page) = Ok entries ->
  match o with
  | Return resume st' => ends st' resume
  | Continue st' =>
      goes_round wrapped st' /\ map fst (t_seen st') = map fst (t_seen st) ++ map se_monitor_id entries
      /\ (zlen entries < SCHEDULE_PAGE -> List.filter (beyond (t_after st')) ids = [])
      /\ (SCHEDULE_PAGE <= zlen entries ->
            (length (List.filter (beyond (t_after st')) ids) < length (List.filter (beyond (t_after st)) ids))%nat)
  end.
Proof.
  intros (Hc & Hl & Hp & Hperm & Hw) He. apply list_schedule_ids in He. rewrite Hids in He.
  destruct (tick_page_ok sha256 events now delay wrap_at max wrapped entries st Hp) as (seen & rest & H1 & H2 & H3 & H4 & H5 & H6 & H7 & H8 & H9).
  fold o in H1, H5, H6, H7, H8, H9. set (F := List.filter (beyond (t_after st)) ids) in *. set (N := Z.to_nat SCHEDULE_PAGE) in *.
  assert (forall st', t_seen st' = t_seen st ++ seen -> permits (t_pool st) <= permits (t_pool st') + n_dispatched seen ->
    permits0 <= permits (t_pool st') + n_dispatched (t_seen st')) as Hperm'.
  { intros st' -> Hle. rewrite n_dispatched_app. lia. }
  assert (forall st', t_seen st' = t_seen st ++ seen -> t_last_seen st' = or_last (map fst seen) (t_last_seen st) -> t_last_seen st' = last (map fst (t_seen st'))) as Hlast.
  { intros st' -> ->. rewrite Hl, map_app. unfold or_last. rewrite last_app. done. }
  destruct o as [st'|resume st'] eqn:Eo.
  - subst rest. rewrite app_nil_r in H3.
    assert (List.filter (beyond (t_after st')) ids = drop N F) as Hdrop.
    { rewrite H6, <- H3, He. destruct (decide (take N F = [])) as [E|E]; [|by apply beyond_page]. rewrite E. unfold or_last. cbn [last].
      fold F. apply (f_equal length) in E. rewrite length_take in E. cbn [length] in E. assert (length F = 0%nat) by (unfold N, SCHEDULE_PAGE in *; lia).
      destruct F; [by rewrite drop_nil|done]. }
    assert (length entries = length (take N F)) as Hlen by (by rewrite <- He, length_map). rewrite length_take in Hlen.
    split_and!.
    + split_and!; [|by apply Hlast|done|by apply Hperm'|done]. rewrite H1, map_app, <- app_assoc, Hc. f_equal. unfold ahead. rewrite Hdrop. fold F.
      destruct wrapped.
      * rewrite <- (take_drop N F) at 1. rewrite List.filter_app. f_equal. rewrite <- He, H3. apply filter_all. intros i Hi.
        rewrite Forall_forall in H4. by rewrite (H4 i) by (by apply list_elem_of_In).
      * rewrite app_assoc. f_equal. rewrite <- H3, He. by rewrite take_drop.
    + by rewrite H1, map_app, H3.
    + intros Hshort. rewrite Hdrop. apply drop_ge. unfold zlen, N, SCHEDULE_PAGE in *. lia.
    + intros Hfull. rewrite Hdrop, length_drop. unfold zlen, N, SCHEDULE_PAGE in *. lia.
  - destruct H9 as (k & rest' & -> & Hend). assert (F = (map fst seen ++ k :: rest') ++ drop N F) as HF by (by rewrite <- H3, He, take_drop).
    assert (increasing F) as HincF by apply increasing_filter, ids_increasing.
    split_and!; [done|by apply Hperm'|]. destruct Hend as [[Hpast ->]|(Hpast & -> & Hzero)].
    + exists []. split; [|by left]. rewrite app_nil_r, H1, map_app, Hc. f_equal. unfold ahead. fold F. unfold past_stop in Hpast.
      destruct wrapped; [|done]. destruct wrap_at as [stop|] eqn:Ew; [|done]. cbn [andb] in Hpast. rewrite HF, <- app_assoc, List.filter_app.
      rewrite filter_all, filter_none, app_nil_r; [done| |].
      * intros i Hi. rewrite HF, <- app_assoc in HincF. apply increasing_app in HincF as (_ & Hinc & _). cbn [past_stop andb]. unfold past_stop. cbn [andb].
        rewrite <- app_comm_cons in Hi, Hinc. inversion_clear Hinc as [|? ? _ Hx]. rewrite List.Forall_forall in Hx. destruct Hi as [->|Hi]; [by rewrite Hpast|]. specialize (Hx _ Hi). lia.
      * intros i Hi. rewrite Forall_forall in H4. by rewrite (H4 i) by (by apply list_elem_of_In).
    + assert (circle wrap_at ids = map fst (t_seen st') ++ (k :: List.filter (fun i => negb (wrapped && past_stop wrap_at true i)) (rest' ++ drop N F))
                ++ (if wrapped then [] else match wrap_at with None => [] | Some stop => List.filter (fun i => negb (stop <? i)) ids end)) as Hcirc.
      { rewrite H1, map_app, Hc, <- app_assoc. f_equal. unfold ahead. fold F. destruct wrapped; cbn [andb negb].
        - rewrite app_nil_r. rewrite HF at 1. rewrite <- app_assoc, List.filter_app. f_equal.
          + apply filter_all. intros i Hi. rewrite Forall_forall in H4. by rewrite (H4 i) by (by apply list_elem_of_In).
          + rewrite <- app_comm_cons. cbn [List.filter]. rewrite Hpast. done.
        - rewrite app_assoc. f_equal. rewrite (filter_all (fun _ => true)) by done. rewrite HF at 1. by rewrite <- app_assoc, <- app_comm_cons. }
      eexists. split; [exact Hcirc|]. right. split_and!; [by rewrite <- app_comm_cons| |done].
      apply resume_ends; [exact Hcirc|by rewrite <- app_comm_cons|by apply Hlast].
Qed.

Lemma tick_loop_ends fuel : forall page wrapped st,
  goes_round wrapped st ->
  (length (List.filter (beyond (t_after st)) ids) + (if wrapped then 0 else length ids + 1) < fuel)%nat ->
  exists st' resume, tick_loop sha256 events now delay wrap_at db fuel page wrapped st = Some (st', Ok resume) /\ ends st' resume.
Proof.
  induction fuel as [|fuel IH]; intros page wrapped st Hst Hf; [lia|]. cbn [tick_loop].
  destruct (Hlist page (t_after st)) as (entries & He). rewrite He. pose proof (page_step wrapped page st entries Hst He) as Hstep.
  destruct (tick_page _ _ _ _ _ _ _ _) as [st'|resume st']; [|by exists st', resume].
  destruct Hstep as (Hst' & _ & Hshort & Hfull). destruct (Z.ltb_spec (zlen entries) SCHEDULE_PAGE) as [Hlt|Hge].
  2:{ specialize (Hfull Hge). apply IH; [done|lia]. }
  specialize (Hshort Hlt). destruct Hst' as (Hc & Hl & Hp & Hperm & Hw). unfold ahead in Hc. rewrite Hshort in Hc. cbn [List.filter app] in Hc.
  destruct wrapped; cbn [orb].
  { exists st', None. split; [done|]. split_and!; [done|done|]. exists []. split; [done|by left]. }
  destruct wrap_at as [stop|] eqn:Ew.
  - apply IH; [|cbn [t_after beyond]; rewrite (filter_all (fun _ => true)) by done; lia]. split_and!; [|done|done|done|done].
    cbn [t_seen t_after]. unfold ahead, past_stop. rewrite Ew, Hc. cbn [beyond]. rewrite (filter_all (fun _ => true)) by done. done.
  - exists st', None. split; [done|]. split_and!; [done|done|]. exists []. rewrite Ew. split; [exact Hc|by left].
Qed.
End Pass.

(** Enough turns for a pass over [ids]. *)
Definition pass_fuel (ids : list Z) : nat := 2 * length ids + 2.

Lemma tick_ends sha256 events db instant now s ids max :
  (forall k, live_ids (db k) = ids) -> (forall k after, exists es, list_schedule after SCHEDULE_PAGE (db k) = Ok es) ->
  pool_ok max (pool s) -> backoff_until s = None ->
  exists s' seen n, tick sha256 events db (pass_fuel ids) instant now s = Some (s', seen, Ok n) /\ n = n_dispatched seen
    /\ pool_ok max (pool s') /\ backoff_until s' = None /\ config s' = config s
    /\ permits (pool s) <= permits (pool s') + n
    /\ exists rest, circle (resume_after s) ids = map fst seen ++ rest
         /\ (rest = [] /\ resume_after s' = None
             \/ rest <> [] /\ circle (resume_after s') ids = rest ++ map fst seen /\ permits (pool s') = 0).
Proof.
  intros Hids Hlist Hp Hb. unfold tick. rewrite Hb. set (delay := Z.min _ _).
  destruct (tick_loop_ends sha256 events now delay (resume_after s) max db ids Hids Hlist (permits (pool s)) (pass_fuel ids) 0 false
    (mkTick (pool s) (resume_after s) None 0 [])) as (st' & resume & E & Hp' & Hperm & rest & Hc & Hend).
  - split_and!; [|done|done|change (n_dispatched _) with 0; cbn; lia|done]. cbn [t_seen t_after map app]. unfold circle, ahead.
    destruct (resume_after s); cbn [beyond]; [done|]. by rewrite (filter_all (fun _ => true)), app_nil_r by done.
  - cbn [t_after]. unfold pass_fuel. pose proof (List.filter_length_le (beyond (resume_after s)) ids). lia.
  - rewrite E. cbn [mbind option_bind]. eexists _, _, _. split; [reflexivity|]. cbn [result_bind pool resume_after backoff_until config].
    split_and!; [done..|]. by exists rest.
Qed.

(** ** Passes one after another *)

(** What a pass meets: the pool when it starts, the jobs that end during it, the
    projection it reads, and the time. *)
Record PassEnv := mkPassEnv { pe_pool : Pool; pe_events : nat -> list JobEvent; pe_db : nat -> AlertsDb; pe_instant : Z; pe_now : Z }.

(** What each pass decided; a pass that fails ends the run. *)
Fixpoint passes (sha256 : bytes -> bytes) (c : SchedulerConfig) (ids : list Z) (resume : option Z) (l : list PassEnv) : list (list (Z * Decision)) :=
  match l with
  | [] => []
  | pe :: l =>
      match tick sha256 (pe_events pe) (pe_db pe) (pass_fuel ids) (pe_instant pe) (pe_now pe) (mkScheduler c (pe_pool pe) resume None) with
      | Some (s', seen, Ok _) => seen :: passes sha256 c ids (resume_after s') l
      | _ => []
      end
  end.

(** The monitors stay the same, the projection can be read, and a permit is free. *)
Definition serviceable (ids : list Z) (max : Z) (pe : PassEnv) : Prop :=
  (forall k, live_ids (pe_db pe k) = ids) /\ (forall k after, exists es, list_schedule after SCHEDULE_PAGE (pe_db pe k) = Ok es)
  /\ pool_ok max (pe_pool pe) /\ 0 < permits (pe_pool pe).

Lemma circle_perm from ids : increasing ids -> circle from ids ≡ₚ ids.
Proof.
  intros Hs. destruct from as [stop|]; [|done]. cbn [circle]. rewrite (split_before stop ids Hs) at 3. apply Permutation_app_comm.
Qed.

Lemma passes_reach sha256 c ids max i l : forall resume a b,
  Forall (serviceable ids max) l -> circle resume ids = a ++ i :: b -> (length a < length l)%nat ->
  exists k seen, passes sha256 c ids resume l !! k = Some seen /\ i ∈ map fst seen /\ (k <= length a)%nat.
Proof.
  induction l as [|pe l IH]; intros resume a b Hf Hc Hlen; [cbn in Hlen; lia|]. apply Forall_cons in Hf as [(Hids & Hlist & Hp & Hperm) Hf].
  destruct (tick_ends sha256 (pe_events pe) (pe_db pe) (pe_instant pe) (pe_now pe) (mkScheduler c (pe_pool pe) resume None) ids max Hids Hlist Hp eq_refl)
    as (s' & seen & n & E & En & Hp' & _ & _ & Hle & rest & Hcirc & Hend).
  cbn [passes]. rewrite E. cbn [resume_after pool] in *. destruct (decide (i ∈ map fst seen)) as [Hin|Hin].
  { exists 0%nat, seen. split_and!; [done|done|lia]. }
  rewrite Hc in Hcirc. apply app_eq_inv in Hcirc as [(k & -> & Hk)|(k & Hseen & Hrest)].
  - assert (n_dispatched seen = 0 \/ seen <> []) as [H0|Hne].
    { destruct seen; [by left|by right]. }
    + destruct Hend as [[-> _]|(_ & _ & Hz)]; [by destruct k|lia].
    + destruct Hend as [[-> _]|(_ & Hres & _)]; [by destruct k|]. subst rest.
      destruct (IH (resume_after s') k (b ++ map fst seen) Hf) as (j & seen' & Hj & Hi & Hle').
      * rewrite Hres, <- app_assoc, <- app_comm_cons. done.
      * rewrite length_app, length_map in Hlen. cbn [length] in Hlen. destruct seen; [done|]. cbn [length] in Hlen. lia.
      * exists (S j), seen'. rewrite length_app, length_map. destruct seen; [done|]. cbn [length]. split_and!; [done|done|lia].
  - destruct k as [|y k].
    + rewrite app_nil_r in Hseen. rewrite app_nil_l in Hrest. subst rest. destruct Hend as [[? _]|(_ & Hres & Hz)]; [done|].
      assert (seen <> []) as Hne by (intros ->; change (n_dispatched _) with 0 in *; lia).
      destruct (IH (resume_after s') [] (b ++ map fst seen) Hf) as (j & seen' & Hj & Hi & Hle'); [by rewrite Hres|rewrite <- Hseen, length_map in Hlen; destruct seen; [done|]; cbn [length] in *; lia|].
      exists (S j), seen'. rewrite <- Hseen, length_map. destruct seen; [done|]. cbn [length] in *. split_and!; [done|done|lia].
    + rewrite <- app_comm_cons in Hrest. injection Hrest as <- _. destruct Hin. rewrite Hseen. apply elem_of_app. right. by left.
Qed.

(** No rule is starved: while a permit is free when a pass starts and the set of
    rules does not change, every rule is examined within as many passes as there are
    rules, however the projection changes otherwise, whichever of them are due and
    whenever the running evaluations end. *)
Theorem no_monitor_starves (sha256 : bytes -> bytes) (c : SchedulerConfig) (ids : list Z) (max : Z) (resume : option Z) (l : list PassEnv) (i : Z) :
  increasing ids -> Forall (serviceable ids max) l -> i ∈ ids -> (length ids <= length l)%nat ->
  exists k seen, passes sha256 c ids resume l !! k = Some seen /\ i ∈ map fst seen /\ (k < length ids)%nat.
Proof.
  intros Hs Hf Hi Hlen. pose proof (circle_perm resume ids Hs) as Hperm.
  assert (i ∈ circle resume ids) as (a & b & Hc)%list_elem_of_split by (by rewrite Hperm).
  assert (length a < length ids)%nat as Ha. { rewrite <- Hperm, Hc, length_app. cbn [length]. lia. }
  destruct (passes_reach sha256 c ids max i l resume a b Hf Hc ltac:(lia)) as (k & seen & Hk & Hin & Hle). exists k, seen. split_and!; [done|done|lia].
Qed.

(** ** Dispatch while the projection changes *)

Section Safety.
  Context (sha256 : bytes -> bytes) (events : nat -> list JobEvent) (now delay : Z) (wrap_at : option Z) (max : Z) (db : nat -> AlertsDb).

(** The decision was taken for an entry that the projection listed during the pass. *)
Definition listed_decision (d : Z * Decision) : Prop :=
  exists k after es e, list_schedule after SCHEDULE_PAGE (db k) = Ok es /\ e ∈ es /\ decision_ok sha256 now delay e d.

Lemma beyond_last l after i :
  increasing l -> (forall j, In j l -> beyond after j = true) ->
  (In i l -> beyond (or_last l after) i = false)
  /\ (beyond after i = false -> beyond (or_last l after) i = false).
Proof.
  intros Hs Hb. unfold or_last. destruct l as [|x l _] using rev_ind; [by split|]. rewrite last_snoc. cbn [beyond].
  apply increasing_app in Hs as (_ & _ & Hlx). specialize (Hb x ltac:(apply in_or_app; right; by left)). split.
  - intros [Hi|[->|[]]]%in_app_or; [|lia]. specialize (Hlx i x Hi (or_introl eq_refl)). lia.
  - destruct after as [a|]; cbn [beyond] in *; [lia|done].
Qed.

(** The examined monitors, in order and never twice: first those beyond the resume point,
    then those up to it. *)
Definition in_order (wrapped : bool) (seen : list Z) (after : option Z) : Prop :=
  exists s1 s2, seen = s1 ++ s2 /\ increasing s1 /\ increasing s2 /\ (forall i, In i s1 -> beyond wrap_at i = true) /\ (forall i, In i s2 -> beyond wrap_at i = false)
    /\ (if wrapped then (forall i, In i s2 -> beyond after i = false) /\ is_Some wrap_at
        else s2 = [] /\ (forall i, In i s1 -> beyond after i = false) /\ forall i, beyond wrap_at i = false -> beyond after i = false).

Lemma in_order_page wrapped seen after js l :
  in_order wrapped seen after -> increasing js -> (forall i, In i js -> beyond after i = true) -> js = l ++ drop (length l) js ->
  Forall (fun i => past_stop wrap_at wrapped i = false) l -> in_order wrapped (seen ++ l) (or_last l after).
Proof.
  intros (s1 & s2 & -> & H1 & H2 & H3 & H4 & H5) Hj Hb Hl Hpast.
  assert (increasing l) as Hinc by (rewrite Hl in Hj; exact (proj1 (proj1 (increasing_app _ _) Hj))).
  assert (forall i, In i l -> beyond after i = true) as Hbl by (intros i Hi; apply Hb; rewrite Hl; apply in_or_app; by left).
  assert (forall s, increasing s -> (forall i, In i s -> beyond after i = false) -> increasing (s ++ l)) as Happ.
  { intros s Hs Ha. apply increasing_app. split_and!; [done..|]. intros i j Hi%Ha Hj'%Hbl. destruct after as [a|]; cbn [beyond] in *; [lia|done]. }
  assert (forall i s, (forall j, In j s -> beyond after j = false) -> In i (s ++ l) -> beyond (or_last l after) i = false) as Hlast.
  { intros i s Ha [Hi%Ha|Hi]%in_app_or; destruct (beyond_last l after i Hinc Hbl); auto. }
  rewrite Forall_forall in Hpast. destruct wrapped.
  - destruct H5 as [Ha [stop Estop]]. exists s1, (s2 ++ l). rewrite app_assoc. split_and!; [done|done|by apply Happ|done| | |by exists stop].
    + intros i [Hi|Hi]%in_app_or; [by apply H4|]. specialize (Hpast i). unfold past_stop in Hpast. rewrite Estop in *. cbn [andb beyond] in *. apply Hpast. by apply list_elem_of_In.
    + intros i Hi. by apply (Hlast i s2).
  - destruct H5 as (-> & Ha & Hw). exists (s1 ++ l), []. rewrite !app_nil_r. split_and!; [done|by apply Happ|constructor| |done|done| |].
    + intros i [Hi|Hi]%in_app_or; [by apply H3|]. destruct (beyond wrap_at i) eqn:E; [done|]. apply Hw in E. rewrite Hbl in E by done. done.
    + intros i Hi. by apply (Hlast i s1).
    + intros i Hi%Hw. destruct (beyond_last l after i Hinc Hbl); auto.
Qed.

Definition safe (wrapped : bool) (st : TickState) : Prop :=
  pool_ok max (t_pool st) /\ Forall listed_decision (t_seen st) /\ in_order wrapped (map fst (t_seen st)) (t_after st).

Lemma in_order_nodup wrapped seen after : in_order wrapped seen after -> NoDup seen.
Proof.
  intros (s1 & s2 & -> & H1 & H2 & H3 & H4 & _). apply NoDup_app. split_and!; [by apply increasing_nodup| |by apply increasing_nodup].
  intros i Hi1%list_elem_of_In%H3 Hi2%list_elem_of_In%H4. congruence.
Qed.

Lemma page_safe wrapped page st entries :
  safe wrapped st -> list_schedule (t_after st) SCHEDULE_PAGE (db page) = Ok entries ->
  safe wrapped match tick_page sha256 events now delay wrap_at wrapped entries st with Continue st' | Return _ st' => st' end.
Proof.
  intros (Hp & Hd & Ho) He. destruct (tick_page_ok sha256 events now delay wrap_at max wrapped entries st Hp) as (seen & rest & H1 & H2 & H3 & H4 & _ & H6 & H7 & _).
  split_and!; [done| |].
  - rewrite H1. apply Forall_app. split; [done|]. apply Forall_forall. intros d Hdin. apply list_elem_of_lookup in Hdin as (n & Hn).
    destruct (Forall2_lookup_r _ _ _ _ _ H2 Hn) as (e & Hen & Hok). exists page, (t_after st), entries, e. split_and!; [done| |done].
    apply list_elem_of_lookup_2 in Hen. by eapply subseteq_take.
  - rewrite H1, map_app, H6. pose proof (list_schedule_ids _ _ _ He) as Hids. eapply (in_order_page _ _ _ (map se_monitor_id entries)); [done| | | |done].
    + rewrite Hids. apply (proj1 (proj1 (increasing_app _ (drop (Z.to_nat SCHEDULE_PAGE) (List.filter (beyond (t_after st)) (live_ids (db page))))) ltac:(rewrite take_drop; apply increasing_filter, live_ids_increasing))).
    + intros i Hi. rewrite Hids in Hi. apply list_elem_of_In, subseteq_take, list_elem_of_In, filter_In in Hi as [_ Hi]. done.
    + rewrite H3. by rewrite drop_app_length.
Qed.

Lemma tick_loop_safe fuel : forall page wrapped st st' r,
  safe wrapped st -> tick_loop sha256 events now delay wrap_at db fuel page wrapped st = Some (st', r) -> exists w, safe w st'.
Proof.
  induction fuel as [|fuel IH]; intros page wrapped st st' r Hs; [done|]. cbn [tick_loop].
  destruct (list_schedule (t_after st) SCHEDULE_PAGE (db page)) as [entries|e] eqn:El; [|intros [= <- _]; by exists wrapped].
  pose proof (page_safe wrapped page st entries Hs El) as Hps. destruct (tick_page _ _ _ _ _ _ _ _) as [st1|resume st1]; [|intros [= <- _]; by exists wrapped].
  destruct (_ <? _); [|by apply IH]. destruct wrapped; cbn [orb]; [intros [= <- _]; by exists true|].
  destruct wrap_at as [stop|] eqn:Ew; [|intros [= <- _]; by exists false]. apply IH.
  destruct Hps as (Hp & Hd & s1 & s2 & E & H1 & H2 & H3 & H4 & -> & H5). split_and!; [done|done|]. cbn [t_seen t_after]. exists s1, []. rewrite E.
  rewrite Ew in *. split_and!; [done..|]. by exists stop.
Qed.
End Safety.

(** Dispatch is bounded and never doubled, however the projection changes between two
    pages and whenever jobs end: after a pass at most [max] evaluations hold a permit and
    no two of them stand in the in-flight set for the same monitor; the pass examined no
    monitor twice, and what it dispatched was the due slot of a monitor that the
    projection listed. *)
Theorem dispatch_is_bounded (sha256 : bytes -> bytes) (events : nat -> list JobEvent) (db : nat -> AlertsDb) (fuel : nat) (instant now max : Z)
    (s s' : Scheduler) (seen : list (Z * Decision)) (r : result AlertsDbError Z) :
  pool_ok max (pool s) -> tick sha256 events db fuel instant now s = Some (s', seen, r) ->
  pool_ok max (pool s') /\ zlen (running (pool s')) <= max /\ NoDup (held (running (pool s'))) /\ NoDup (map fst seen)
  /\ Forall (listed_decision sha256 now (Z.min (evaluation_delay (config s)) u64_max) db) seen.
Proof.
  intros Hp. unfold tick. set (delay := Z.min _ _). destruct (match backoff_until s with Some _ => _ | None => _ end).
  { intros [= <- <- <-]. destruct (Hp) as (H1 & H2 & H3 & H4). split_and!; [done|lia|done|constructor|constructor]. }
  intros ([st r'] & E & [= <- <- <-])%bind_Some. cbn [pool].
  assert (safe sha256 now delay (resume_after s) max db false (mkTick (pool s) (resume_after s) None 0 [])) as Hs.
  { split_and!; [exact Hp|constructor|]. exists [], []. cbn. split_and!; [done|constructor|constructor|done|done|done|done|done]. }
  destruct (tick_loop_safe sha256 events now delay (resume_after s) max db fuel 0 false _ _ _ Hs E) as (w & Hp' & Hd & Ho).
  destruct (Hp') as (H1 & H2 & H3 & H4). split_and!; [done|lia|done|by eapply in_order_nodup|done].
Qed.

(** ** Witnesses *)

Definition demo_row (every : Z) : MonitorRow := mkMonitorRow 1 false true every 0 "rule" 1 (Some []) 1.
Definition demo_schedule : AlertsDb :=
  mkAlertsDb (mkTables ALERTS_SCHEMA_VERSION None {[7 := demo_row 60; 8 := demo_row 60; 9 := demo_row 60]} ∅ ∅) 1 1.
Definition demo_config : SchedulerConfig := mkSchedulerConfig 0 1 10.
Definition demo_env : PassEnv := mkPassEnv (mkPool 1 ∅ []) (fun _ => []) (fun _ => demo_schedule) 0 1000000000000.

Lemma listing_total db l : current_state (conn db) = ∅ -> exists es, collect (schedule_entry (conn db)) l = Ok es.
Proof.
  intros E. induction l as [|x l (es & IH)]; cbn [collect]; [by exists []|]. unfold schedule_entry at 1. rewrite E, lookup_empty. cbn [result_bind].
  rewrite IH. cbn [result_bind]. eauto.
Qed.

Lemma no_monitor_starves_witness :
  map (map fst) (passes (fun l => rev l) demo_config [7; 8; 9] None [demo_env; demo_env; demo_env]) = [[7]; [8]; [9]]
  /\ exists k seen, passes (fun l => rev l) demo_config [7; 8; 9] None [demo_env; demo_env; demo_env] !! k = Some seen /\ 9 ∈ map fst seen /\ (k < 3)%nat.
Proof.
  split; [vm_compute; reflexivity|]. apply (no_monitor_starves (fun l => rev l) demo_config [7; 8; 9] 1 None [demo_env; demo_env; demo_env] 9).
  - repeat constructor; lia.
  - assert (serviceable [7; 8; 9] 1 demo_env) as H; [|by do 3 (apply Forall_cons_2; [exact H|]); apply Forall_nil_2].
    split_and!; [intros k; vm_compute; reflexivity|intros k after; by apply listing_total| |vm_compute; reflexivity].
    split_and!; [vm_compute; discriminate|vm_compute; reflexivity|vm_compute; reflexivity|apply NoDup_nil_2].
  - apply list_elem_of_In. right. right. by left.
  - cbn. lia.
Defined.

(** Two permits, and the first job ends before the third monitor is examined. *)
Definition demo_events (n : nat) : list JobEvent := if Nat.eqb n 5 then [FlightDropped 0; PermitDropped 0] else [].
Definition demo_scheduler : Scheduler := scheduler_new (mkSchedulerConfig 0 2 10).

Lemma dispatch_is_bounded_witness :
  match tick (fun l => rev l) demo_events (fun _ => demo_schedule) 4 0 1000000000000 demo_scheduler with
  | Some (s', seen, r) => r = Ok 3 /\ permits (pool s') = 0 /\ NoDup (held (running (pool s')))
  | None => False
  end.
Proof.
  destruct (tick (fun l => rev l) demo_events (fun _ => demo_schedule) 4 0 1000000000000 demo_scheduler) as [[[s' seen] r]|] eqn:E;
    [|vm_compute in E; discriminate E].
  split; [|split]; [vm_compute in E; by injection E as _ _ <-|vm_compute in E; by injection E as <- _ _|].
  apply (dispatch_is_bounded (fun l => rev l) demo_events (fun _ => demo_schedule) 4 0 1000000000000 2 demo_scheduler s' seen r); [|exact E].
  split_and!; [vm_compute; discriminate|vm_compute; reflexivity|vm_compute; reflexivity|apply NoDup_nil_2].
Defined.
