(* ===== verification/AlertEval.v ===== *)
(** * Evaluation of one alert slot

    [crates/scry-alertd/src/evaluator.rs] with [run_job] of [scheduler.rs] and
    [scalar_from_batches] of [crates/query/src/client.rs]: a slot of a rule is evaluated
    under the lease of the rule, against the durable rule and state of [AlertStore], and
    committed there before it is folded into the projection of [AlertsDb].  The query
    client, the lease and its fence, and the validation of rules are parameters. *)

From Stdlib Require Import Floats.SpecFloat.
From S2P Require Import Prelude Order Bytes Text Alert Schedule Occurrence AlertTemplate AlertRecords AlertStore AlertsDb AlertTick.

(** ** The scalar of a query *)

Inductive QueryClientError :=
| QStream (code : Z) (message : string)
| QResource (message : string)
| QTransport (message : string)
| QTimeout (phase : string)
| QProtocol (message : string)
| QBounds (kind : string) (observed limit : Z).

Inductive QueryScalar := QNumber (n : f64) | QBoolean (b : bool).
Inductive ScalarOutcome := ScalarValue (v : QueryScalar) | ScalarNoData.

(** The first cell of a batch, its number cast to [f64]. *)
Inductive Cell := CellNull | CellBoolean (b : bool) | CellNumber (n : f64) | CellOther (type : string).
Record Batch := mkBatch { num_rows : Z; num_columns : Z; cell : Cell }.

(** [None] is the [expect] of the one-row batch. *)
Definition scalar_from_batches (batches : list Batch) : option (result QueryClientError ScalarOutcome) :=
  let rows := fold_right (fun b acc => num_rows b + acc) 0 batches in
  if rows =? 0 then Some (Ok ScalarNoData)
  else if negb (rows =? 1) || existsb (fun b => negb (num_columns b =? 1)) batches
  then Some (Err (QProtocol "scalar query requires exactly one row and one column"))
  else
    batch ← List.find (fun b => num_rows b =? 1) batches;
    Some match cell batch with
         | CellNull => Ok ScalarNoData
         | CellOther _ => Err (QProtocol "scalar column must be numeric or boolean")
         | CellBoolean b => Ok (ScalarValue (QBoolean b))
         | CellNumber n => if f64_is_finite n then Ok (ScalarValue (QNumber n)) else Err (QProtocol "scalar numeric value is not finite")
         end.

Definition query_error_class (e : QueryClientError) : string :=
  match e with
  | QResource _ => "resource"
  | QTimeout _ => "timeout"
  | QTransport _ => "transport"
  | QStream _ _ => "query"
  | QProtocol _ => "protocol"
  | QBounds _ _ _ => "bounds"
  end.

(** The query of a slot: the window [[end - lookback, end)]. *)
Record ScalarRequest := mkScalarRequest {
  rq_signal : Z;
  rq_matchers : list (string * string);
  rq_ts_min : Z;
  rq_ts_max : Z;
  rq_sql : string;
  rq_monitor_id : Z;
  rq_slot_id : Z;
}.

Definition signal_byte (s : Signal) : Z := match s with Metrics => 1 | Logs => 2 | Traces => 3 | Profiles => 4 end.

Definition scalar_request (m : Monitor) (slot_id end_unix_nano : Z) : ScalarRequest :=
  mkScalarRequest (signal_byte (signal (query m))) (map (fun x => (em_name x, em_value x)) (matchers (query m)))
    (sat_sub end_unix_nano (sat_mul (lookback_seconds (query m)) 1000000000)) (sat_sub end_unix_nano 1) (sql (query m)) (id m) slot_id.

Definition f64_one : f64 := S754_finite false 4503599627370496 (-52).
Definition f64_zero : f64 := S754_zero false.

Record QueryTarget := mkQueryTarget { qt_id : string; qt_address : string }.

(** [QueryWireExecutor::execute] over the client of a target. *)
Definition execute (scalar : QueryTarget -> ScalarRequest -> result QueryClientError ScalarOutcome) (target : QueryTarget) (m : Monitor)
    (slot_id slot_end_unix_nano : Z) : Observation :=
  match scalar target (scalar_request m slot_id slot_end_unix_nano) with
  | Ok (ScalarValue (QNumber v)) => ObsValue v
  | Ok (ScalarValue (QBoolean v)) => ObsValue (if v then f64_one else f64_zero)
  | Ok ScalarNoData => ObsNoData
  | Err e => ObsError (query_error_class e)
  end.

(** ** Outcomes *)

Inductive SlotOutcome := Committed (s : AlertState) | AlreadyCovered (s : AlertState) | Superseded | Busy.

Inductive FailedEvaluation :=
| FStore (e : AlertStoreError)
| FDb (e : AlertsDbError)
| FValidation (e : ValidationError)
| FLeaseLost (message : string)
| FUnknownTarget (monitor_id : Z) (target_id : string)
| FBehind (monitor_id head_revision revision : Z)
| FFirstState.

Inductive EvaluationError := LeaseUnavailable (message : string) | Failed (e : FailedEvaluation).

(** The durable store and the projection. *)
Record EvalWorld := mkEvalWorld { store : World; projection : AlertsDb }.

Abbreviation Eval A := (EvalWorld -> EvalWorld * result EvaluationError A) (only parsing).

Definition eval_bind {A B} (c : Eval A) (k : A -> Eval B) : Eval B :=
  fun w => match c w with (w, Ok a) => k a w | (w, Err e) => (w, Err e) end.
Definition eval_ret {A} (r : result EvaluationError A) : Eval A := fun w => (w, r).

Notation "'eval?' x ':=' c 'in' k" := (eval_bind c (fun x => k))
  (at level 10, x name, c at level 100, k at level 200) : rust_scope.

(** A call of the store, and its error as it is. *)
Definition on_store {A} (c : World -> World * result AlertStoreError A) : Eval (result AlertStoreError A) :=
  fun w => let '(s, r) := c (store w) in (mkEvalWorld s (projection w), Ok r).
Definition store_call {A} (c : World -> World * result AlertStoreError A) : Eval A :=
  eval? r := on_store c in eval_ret (map_err (fun e => Failed (FStore e)) r).
Definition db_call {A} (c : AlertsDb -> AlertsDb * result AlertsDbError A) : Eval A :=
  fun w => let '(d, r) := c (projection w) in (mkEvalWorld (store w) d, map_err (fun e => Failed (FDb e)) r).

Section Evaluator.
  Context (environment : nat -> Reply) (sha256 : bytes -> bytes).
  Context {Jm : Json Monitor} {Js : Json AlertState} {Jrh : Json RuleHead} {Jsh : Json StateHead} {Jtr : Json TransitionRecord}.
  Context (validate : Monitor -> result ValidationError unit).
  Context (deployment_id : bytes) (query_targets : list QueryTarget) (scalar : QueryTarget -> ScalarRequest -> result QueryClientError ScalarOutcome).

(** [fence.check()] number [n] of an evaluation. *)
Context (fence : nat -> bool).

Definition fence_check (n : nat) (message : string) : Eval unit :=
  eval_ret (if fence n then Ok tt else Err (Failed (FLeaseLost message))).

Definition fold_state_call (id : Z) (s : AlertState) : Eval unit :=
  eval? _ := db_call (fold_state id s) in eval_ret (Ok tt).

Definition rule_is_current (m : Monitor) : Eval bool :=
  eval? head := on_store (read_rule_head environment (id m)) in
  match head with
  | Err (SMissing _) => eval_ret (Ok false)
  | Err e => eval_ret (Err (Failed (FStore e)))
  | Ok head =>
      let head := value head in
      if rh_deleted head then
        eval? _ := db_call (tombstone_monitor (id m) (rh_revision head) (rh_updated_at_unix_nano head)) in eval_ret (Ok false)
      else if rh_revision head =? revision m then eval_ret (Ok true)
      else if rh_revision head <? revision m then eval_ret (Err (Failed (FBehind (id m) (rh_revision head) (revision m))))
      else
        eval? newer := store_call (read_rule_revision environment head) in
        eval? _ := eval_ret (map_err (fun e => Failed (FValidation e)) (validate (value newer))) in
        eval? _ := db_call (fold_rule (value newer)) in
        eval_ret (Ok false)
  end.

(** The observation of a slot: a disabled rule is never queried. *)
Definition observe (m : Monitor) (slot_id slot_end_unix_nano : Z) : result EvaluationError Observation :=
  if enabled m then
    match List.find (fun t => bool_decide (qt_id t = target_id (query m))) query_targets with
    | None => Err (Failed (FUnknownTarget (id m) (target_id (query m))))
    | Some target => Ok (execute scalar target m slot_id slot_end_unix_nano)
    end
  else Ok ObsNoData.

Definition transition_record (m : Monitor) (prior : option (Versioned StateHead)) (observation : Observation) (next : AlertState)
    (change : StateChange) (slot_id slot_end_unix_nano : Z) : TransitionRecord :=
  mkTransition STATE_RECORD_SCHEMA_VERSION deployment_id (id m) (revision m) slot_id slot_end_unix_nano (durable observation) (previous change)
    (resumed change) next ((fun h => reference_key (h_latest_transition (value h)) (id m)) <$> prior) [].

Definition state_head (m : Monitor) (next : AlertState) (latest : TransitionRef) (slot_end_unix_nano : Z) : StateHead :=
  mkStateHead STATE_RECORD_SCHEMA_VERSION deployment_id (id m) next latest slot_end_unix_nano.

(** The commit, after the second check of rule and fence. *)
Definition commit_slot (m : Monitor) (prior : option (Versioned StateHead)) (observation : Observation) (slot_id slot_end_unix_nano : Z) : Eval SlotOutcome :=
  let '(next, change) := evaluate m (h_state ∘ value <$> prior) observation slot_id slot_end_unix_nano in
  let transition := if transitioned change then Some (transition_record m prior observation next change slot_id slot_end_unix_nano) else None in
  eval? latest := eval_ret match transition, prior with
                           | Some record, _ => map_err (fun e => Failed (FStore (SSerialize e))) (reference sha256 to_vec record)
                           | None, Some head => Ok (h_latest_transition (value head))
                           | None, None => Err (Failed FFirstState)
                           end in
  eval? committed := on_store (commit_state environment sha256 (state_head m next latest slot_end_unix_nano) transition (version <$> prior)) in
  match committed with
  | Ok _ => eval? _ := fold_state_call (id m) next in eval_ret (Ok (Committed next))
  | Err (SConflict _) =>
      eval? winner := store_call (read_state_head environment (id m) deployment_id) in
      eval? _ := match winner with
                 | Some w => fold_state_call (id m) (h_state (value w))
                 | None => eval_ret (Ok tt)
                 end in
      eval_ret (Ok Superseded)
  | Err e => eval_ret (Err (Failed (FStore e)))
  end.

Definition evaluate_under_guard (m : Monitor) (slot_id slot_end_unix_nano : Z) : Eval SlotOutcome :=
  eval? _ := fence_check 0 "alert evaluation lease lost before rule read" in
  eval? current := rule_is_current m in
  if negb current then eval_ret (Ok Superseded)
  else
    eval? prior_head := store_call (read_state_head environment (id m) deployment_id) in
    let proceed :=
      eval? observation := eval_ret (observe m slot_id slot_end_unix_nano) in
      eval? _ := fence_check 1 "alert evaluation lease lost before commit" in
      eval? current := rule_is_current m in
      if negb current then eval_ret (Ok Superseded)
      else commit_slot m prior_head observation slot_id slot_end_unix_nano in
    match prior_head with
    | None => proceed
    | Some head =>
        let state := h_state (value head) in
        if revision m <? monitor_revision state then
          eval? _ := fold_state_call (id m) state in eval_ret (Ok Superseded)
        else if covers state (revision m) slot_id then
          eval? _ := fold_state_call (id m) state in eval_ret (Ok (AlreadyCovered state))
        else proceed
    end.

(** [try_acquire]: an error, no lease, or the lease whose fence is [fence]. *)
Context (try_acquire : result string bool).

Definition evaluate_monitor_slot (m : Monitor) (slot_id slot_end_unix_nano : Z) : Eval SlotOutcome :=
  match try_acquire with
  | Err e => eval_ret (Err (LeaseUnavailable e))
  | Ok false => eval_ret (Ok Busy)
  | Ok true => evaluate_under_guard m slot_id slot_end_unix_nano
  end.

(** [run_job] of the scheduler. *)
Definition run_job (due : DueSlot) : Eval SlotOutcome :=
  eval? summary := db_call (fun d => (d, get_monitor (d_monitor_id due) d)) in
  match summary with
  | None => eval_ret (Ok Superseded)
  | Some s =>
      if negb (revision (ms_monitor s) =? d_revision due) then eval_ret (Ok Superseded)
      else evaluate_monitor_slot (ms_monitor s) (d_slot_id due) (d_slot_end_unix_nano due)
  end.
End Evaluator.
