(* ===== verification/AlertEvalFacts.v ===== *)
(** * The durable alert state is a run of the alert machine

    Evaluators on any number of hosts read and write the state head of a monitor through
    [AlertStore].  Each of them keeps a relation between the stores it goes through, and
    assumes the same of the others: heads only ever advance by one evaluation of the
    machine of [Alert], and name a transition record that is stored. *)

From S2P Require Import Prelude Order Bytes Text Alert Schedule Occurrence AlertTemplate AlertRecords AlertStore AlertsDb AlertTick AlertEval.

(** ** Calls that keep a relation between stores *)

Fixpoint linked (R : Objects -> Objects -> Prop) (s : Objects) (l : list Objects) : Prop :=
  match l with [] => True | t :: l => R s t /\ linked R t l end.

(** From [w] to [w'] every store is related to the next. *)
Definition ran (R : Objects -> Objects -> Prop) (w w' : World) : Prop :=
  exists l, history w' = history w ++ l /\ linked R (objects w) l /\ objects w' = default (objects w) (last l).

Section Calls.
  Context (R : Objects -> Objects -> Prop).

Lemma linked_app s l k : linked R s (l ++ k) <-> linked R s l /\ linked R (default s (last l)) k.
Proof.
  revert s. induction l as [|t l IH]; intros s; [by split; [intros; split|intros [_ ?]]|].
  rewrite <- app_comm_cons. cbn [linked]. rewrite IH, last_cons. destruct (last l); cbn [default]; tauto.
Qed.

Lemma ran_refl w : ran R w w.
Proof. exists []. by rewrite app_nil_r. Qed.

Lemma ran_trans w1 w2 w3 : ran R w1 w2 -> ran R w2 w3 -> ran R w1 w3.
Proof.
  intros (l & H1 & H2 & H3) (k & H4 & H5 & H6). exists (l ++ k). rewrite H4, H1, <- app_assoc. split_and!; [done| |].
  - apply linked_app. split; [done|]. by rewrite <- H3.
  - rewrite H6, H3, last_app. by destruct (last k).
Qed.

Lemma ran_moved w l : l <> [] -> linked R (objects w) l -> ran R w (moved w l).
Proof. intros Hne Hl. exists l. done. Qed.

Context {Hrefl : forall s, R s s} {Htrans : forall s t u, R s t -> R t u -> R s u}.

Lemma ran_related w w' : ran R w w' -> R (objects w) (objects w').
Proof.
  intros (l & _ & Hl & ->). revert Hl. generalize (objects w). induction l as [|t l IH]; intros s; cbn [linked]; [done|].
  intros [Hst Hl]. rewrite last_cons. specialize (IH t Hl). destruct (last l); cbn [default] in *; eauto.
Qed.

Definition stable (P : Objects -> Prop) : Prop := forall s t, P s -> R s t -> P t.

(** From a store with [P] the call keeps the relation and ends as [Q] says. *)
Definition triple {A : Type} (P : Objects -> Prop) (c : World -> World * A) (Q : A -> Objects -> Prop) : Prop :=
  forall w, P (objects w) -> ran R w (fst (c w)) /\ Q (snd (c w)) (objects (fst (c w))).

Lemma triple_weaken {A : Type} (P P' : Objects -> Prop) (c : World -> World * A) (Q Q' : A -> Objects -> Prop) :
  triple P' c Q' -> (forall s, P s -> P' s) -> (forall a s, Q' a s -> Q a s) -> triple P c Q.
Proof. intros Hc HP HQ w Hw. destruct (Hc w (HP _ Hw)). auto. Qed.

Lemma triple_ret {A : Type} (P : Objects -> Prop) (r : result AlertStoreError A) (Q : result AlertStoreError A -> Objects -> Prop) :
  (forall s, P s -> Q r s) -> triple P (call_ret r) Q.
Proof. intros H w Hw. split; [apply ran_refl|]. by apply H. Qed.

Lemma triple_bind {A B : Type} (P : Objects -> Prop) (c : World -> World * result AlertStoreError A) (k : A -> World -> World * result AlertStoreError B) M Q :
  triple P c M -> (forall a, triple (M (Ok a)) (k a) Q) -> (forall e s, M (Err e) s -> Q (Err e) s) -> triple P (call_bind c k) Q.
Proof.
  intros Hc Hk He w Hw. unfold call_bind. destruct (Hc w Hw) as [H1 H2]. destruct (c w) as [w' [a|e]]; cbn [fst snd] in *; [|auto].
  destruct (Hk a w' H2) as [H3 H4]. split; [by eapply ran_trans|done].
Qed.

Context (environment : nat -> Reply) (Henv : forall n s, R s (others (environment n) s)).

(** A body is delivered in order, and whole when the stream ends well. *)
Definition honest : Prop :=
  forall n b, exists rest, concat (fst (body_chunks (environment n) b)) ++ rest = b
    /\ (snd (body_chunks (environment n) b) = None -> rest = []).

Context (Hhonest : honest).

Lemma read_body_ok key chunks end_ : forall acc b, read_body key acc chunks end_ = Ok b -> b = acc ++ concat chunks /\ end_ = None.
Proof.
  induction chunks as [|c chunks IH]; intros acc b; cbn [read_body concat].
  - destruct end_; [done|]. intros [= <-]. by rewrite app_nil_r.
  - destruct (_ <? _); [done|]. intros [-> ->]%IH. by rewrite app_assoc.
Qed.

Lemma triple_get P key :
  stable P -> triple P (get_bounded environment key) (fun r s => P s /\ match r with Ok (b, t) => s !! key = Some (mkObject b t) | Err _ => True end).
Proof.
  intros HP w Hw. unfold get_bounded. cbn [fst snd]. assert (R (objects w) (met environment w)) as Hmet by apply Henv. split.
  { apply ran_moved; [done|]. by split. }
  cbn [moved objects last default]. split; [by eapply HP|]. destruct (failure _); [done|].
  destruct (met environment w !! key) as [o|] eqn:E; [|done]. destruct (_ <? _); [done|].
  destruct (Hhonest (calls w) (body o)) as (rest & Hrest & Hend). destruct (body_chunks (environment (calls w)) (body o)) as [chunks end_].
  destruct (read_body key [] chunks end_) as [b|e] eqn:Eb; [|done]. cbn [result_bind]. apply read_body_ok in Eb as [-> ->]. cbn [fst snd] in *.
  rewrite (Hend eq_refl), app_nil_r in Hrest. rewrite Hrest. by destruct o.
Qed.

(** The store after a conditional write that took effect. *)
Definition written (P : Objects -> Prop) (allowed : option Object -> bool) (path payload : bytes) (s' : Objects) : Prop :=
  exists s n, P s /\ allowed (s !! path) = true /\ s' = <[path := mkObject payload (new_tag (environment n) payload)]> s.

Lemma triple_put P allowed refused path payload :
  stable P ->
  (forall s n, P s -> allowed (s !! path) = true -> R s (<[path := mkObject payload (new_tag (environment n) payload)]> s)) ->
  triple P (put_if environment allowed refused path payload)
    (fun r s => match r with Ok _ => written P allowed path payload s | Err _ => P s end).
Proof.
  intros HP Hstep w Hw. unfold put_if. assert (R (objects w) (met environment w)) as Hmet by apply Henv.
  assert (P (met environment w)) as Hpm by (by eapply HP).
  destruct (allowed (met environment w !! path)) eqn:Ea.
  2:{ split; [apply ran_moved; [done|]; by split|]. exact Hpm. }
  specialize (Hstep _ (calls w) Hpm Ea). destruct (failure _) as [e|].
  - destruct (took_effect _); (split; [apply ran_moved; [done|]; by repeat split|]); cbn [fst snd moved objects last default]; [by eapply HP|done].
  - split; [apply ran_moved; [done|]; by repeat split|]. cbn [fst snd moved objects last default]. by eexists _, _.
Qed.

(** A call of one of several kinds. *)
Lemma triple_case {A B : Type} (P : Objects -> Prop) (c : World -> World * A) (k : A -> World -> World * B) M Q :
  triple P c M -> (forall a, triple (M a) (k a) Q) -> triple P (fun w => let '(w, a) := c w in k a w) Q.
Proof.
  intros Hc Hk w Hw. destruct (Hc w Hw) as [H1 H2]. destruct (c w) as [w' a]. cbn [fst snd] in *. destruct (Hk a w' H2) as [H3 H4].
  split; [by eapply ran_trans|done].
Qed.

Context {T : Type} {HJ : Json T}.

Lemma bounded_json_ok key (v : T) b : bounded_json key v = Ok b -> to_vec v = Ok b.
Proof. unfold bounded_json. intros (b' & E & H')%bind_ok. destruct (to_vec v) as [b''|]; [|done]. cbn in E. destruct (_ <? _); [done|]. congruence. Qed.

(** An object that stands at [path] with these bytes. *)
Definition stands (path payload : bytes) (s : Objects) : Prop := exists t, s !! path = Some (mkObject payload t).

(** Create-if-absent: on success the object holds our bytes. *)
Lemma triple_create P key (v : T) :
  stable P ->
  (forall s n b, P s -> to_vec v = Ok b -> s !! key = None -> R s (<[key := mkObject b (new_tag (environment n) b)]> s)) ->
  triple P (create_identical environment key v)
    (fun r s => P s /\ match r with Ok _ => exists b, to_vec v = Ok b /\ stands key b s | Err _ => True end).
Proof.
  intros HP Hstep. unfold create_identical.
  eapply (triple_bind _ _ _ (fun r s => P s /\ match r with Ok b => to_vec v = Ok b | Err _ => True end)).
  - apply triple_ret. intros s Hs. split; [done|]. destruct (bounded_json key v) as [b|] eqn:E; [|done]. by eapply bounded_json_ok.
  - intros b w [Hw Hb]. destruct (triple_put P (fun o => match o with None => true | Some _ => false end) OAlreadyExists key b HP) with (w := w) as [H1 H2]; [|done|].
    { intros s n Hs Ha. apply (Hstep s n b); [done|done|]. by destruct (s !! key). }
    unfold put_create. destruct (put_if _ _ _ _ _ _) as [w1 [[]|e]]; cbn [fst snd] in *.
    + split; [done|]. destruct H2 as (s & n & Hs & Ha & ->). assert (s !! key = None) as Hn by (by destruct (s !! key)).
      split; [eapply HP; [exact Hs|by apply (Hstep s n b)]|]. exists b. split; [done|]. eexists. apply lookup_insert_eq.
    + destruct (triple_get P key HP w1 H2) as [H3 H4]. destruct (get_bounded environment key w1) as [w2 [[b' t]|e']] eqn:Eg; cbn [fst snd] in *.
      * destruct e; cbn [fst snd]; try (split; [done|by split]). all: split; [by eapply ran_trans|]. all: destruct H4 as [H4 H5]; split; [done|].
        all: case_bool_decide as Eb; [|done]; subst b'; exists b; split; [done|by exists t].
      * destruct e; cbn [fst snd]; try (split; [done|by split]). all: split; [by eapply ran_trans|by split; [apply H4|]].
  - intros e s [Hs _]. done.
Qed.

(** Compare-and-swap: on success the object holds our bytes. *)
Lemma triple_update P key (v : T) version :
  stable P ->
  (forall s n b o, P s -> to_vec v = Ok b -> s !! key = Some o -> tag o = Some version -> R s (<[key := mkObject b (new_tag (environment n) b)]> s)) ->
  triple P (update environment key v version)
    (fun r s => P s /\ match r with Ok _ => exists b, to_vec v = Ok b /\ stands key b s | Err _ => True end).
Proof.
  intros HP Hstep. unfold update.
  eapply (triple_bind _ _ _ (fun r s => P s /\ match r with Ok b => to_vec v = Ok b | Err _ => True end)).
  - apply triple_ret. intros s Hs. split; [done|]. destruct (bounded_json key v) as [b|] eqn:E; [|done]. by eapply bounded_json_ok.
  - intros b w [Hw Hb]. unfold put_update. set (allowed := fun o : option Object => _).
    assert (forall s n, P s -> allowed (s !! key) = true -> R s (<[key := mkObject b (new_tag (environment n) b)]> s)) as Hstep'.
    { intros s n Hs Ha. unfold allowed in Ha. destruct (s !! key) as [o|] eqn:Eo; [|done]. apply bool_decide_eq_true in Ha. by apply (Hstep s n b o). }
    destruct (triple_put P allowed OPrecondition key b HP Hstep' w Hw) as [H1 H2].
    destruct (put_if _ _ _ _ _ _) as [w1 [[]|e]]; cbn [fst snd] in *.
    + split; [done|]. destruct H2 as (s & n & Hs & Ha & ->). split; [eapply HP; [exact Hs|by apply Hstep']|]. exists b. split; [done|]. eexists. apply lookup_insert_eq.
    + destruct (triple_get P key HP w1 H2) as [H3 H4]. destruct (get_bounded environment key w1) as [w2 [[b' t]|e']] eqn:Eg; cbn [fst snd] in *.
      * destruct e; cbn [fst snd]; try (split; [done|by split]). all: split; [by eapply ran_trans|]. all: destruct H4 as [H4 H5]; split; [done|].
        all: case_bool_decide as Eb; [|done]; subst b'; exists b; split; [done|by exists t].
      * destruct e; cbn [fst snd]; try (split; [done|by split]). all: destruct e'; (split; [by eapply ran_trans|by split; [apply H4|]]).
  - intros e s [Hs _]. done.
Qed.

Lemma triple_read P key :
  stable P ->
  triple P (read_versioned environment key)
    (fun r s => P s /\ match r with Ok v => exists b, from_slice b = Ok (value v) /\ s !! key = Some (mkObject b (Some (version v))) | Err _ => True end).
Proof.
  intros HP. unfold read_versioned. eapply triple_bind; [by apply triple_get| |by intros e s [Hs _]].
  intros [b t]. apply triple_ret. intros s [Hs Ht]. split; [done|]. cbn [fst snd]. destruct t as [ver|]; [|done].
  destruct (from_slice b) as [v|e] eqn:E; [|done]. cbn. by exists b.
Qed.
End Calls.

(** ** The state of one monitor *)

(** [b] is not older than [a]. *)
Definition state_le (a b : AlertState) : Prop := covers b (monitor_revision a) (last_slot_id a) = true.

Lemma state_le_refl a : state_le a a.
Proof. unfold state_le, covers. lia. Qed.

Lemma state_le_trans a b c : state_le a b -> state_le b c -> state_le a c.
Proof. unfold state_le, covers. lia. Qed.

Definition finite_value (s : AlertState) : Prop := match last_value s with Some v => f64_is_finite v = true | None => True end.

Definition finite_observation (o : Observation) : Prop := match o with ObsValue v => f64_is_finite v = true | _ => True end.

(** [s] is the state after some sequence of evaluations. *)
Definition reachable (s : AlertState) : Prop := exists evs, fst (alert_run None evs) = Some s.

Lemma alert_run_snoc prior evs m e :
  fst (alert_run prior (evs ++ [(m, e)])) = Some (fst (evaluate m (fst (alert_run prior evs)) (ev_obs e) (ev_slot e) (ev_now e))).
Proof.
  revert prior. induction evs as [|[m' e'] evs IH]; intros prior.
  - cbn. by destruct (evaluate _ _ _ _ _).
  - rewrite <- app_comm_cons. cbn [alert_run]. destruct (evaluate m' prior _ _ _) as [s c]. specialize (IH (Some s)).
    destruct (alert_run (Some s) (evs ++ [(m, e)])). cbn [fst] in *. rewrite IH. by destruct (alert_run (Some s) evs).
Qed.

Lemma reachable_next m prior obs slot now :
  match prior with Some s => reachable s | None => True end -> reachable (fst (evaluate m prior obs slot now)).
Proof.
  intros Hp. assert (exists evs, fst (alert_run None evs) = prior) as (evs & Hevs) by (destruct prior as [s|]; [done|by exists []]).
  exists (evs ++ [(m, mkEval obs slot now)]). rewrite alert_run_snoc, Hevs. done.
Qed.

Lemma evaluate_finite m prior obs slot now :
  match prior with Some s => finite_value s | None => True end -> finite_observation obs -> finite_value (fst (evaluate m prior obs slot now)).
Proof.
  intros Hp Ho. unfold evaluate. destruct (opt_filter (fun s => covers s _ _) prior) as [p|] eqn:E.
  { destruct prior as [s|]; [|done]. cbn in E. destruct (covers _ _ _); [|done]. by injection E as <-. }
  destruct (next_status _ _ _ _ _) as [[[st v] er] stl] eqn:En. unfold finite_value. cbn [fst last_value].
  assert (match v with Some v => f64_is_finite v = true | None => True end) as Hv.
  { revert En. unfold next_status. destruct (enabled m); cbn [negb]; [|by intros [= _ <- _ _]]. destruct obs; intros [= _ <- _ _]; done. }
  destruct v as [v|]; [done|]. destruct prior as [s|]; [|done]. cbn [opt_filter]. destruct (_ =? _); [|done]. exact Hp.
Qed.

Section Monitor.
  Context (environment : nat -> Reply) (sha256 : bytes -> bytes).
  Context {Jsh : Json StateHead} {Jtr : Json TransitionRecord}.
  Context (deployment_id : bytes) (mid : Z) (identifies : Z -> bytes).

Definition tags_ok (s : Objects) : Prop := forall k o v, s !! k = Some o -> tag o = Some v -> identifies v = body o.

(** The transition that a head names is stored. *)
Definition stored (s : Objects) (h : StateHead) : Prop :=
  exists t o, s !! reference_key (h_latest_transition h) mid = Some o /\ to_vec t = Ok (body o) /\ verify_transition sha256 to_vec h t = Ok tt.

Definition head_ok (h : StateHead) : Prop := validate_head h deployment_id mid = Ok tt /\ reachable (h_state h) /\ finite_value (h_state h).

Definition Inv (s : Objects) : Prop :=
  tags_ok s /\ forall o, s !! state_head_key mid = Some o -> exists h, from_slice (body o) = Ok h /\ head_ok h /\ stored s h.

(** The head in a store. *)
Definition head_at (s : Objects) (h : StateHead) : Prop := exists o, s !! state_head_key mid = Some o /\ from_slice (body o) = Ok h.

Definition transitions_kept (s s' : Objects) : Prop := forall r o, s !! reference_key r mid = Some o -> s' !! reference_key r mid = Some o.
Definition head_advances (s s' : Objects) : Prop := forall h, head_at s h -> exists h', head_at s' h' /\ state_le (h_state h) (h_state h').

(** What every writer guarantees and relies on. *)
Definition keeps (s s' : Objects) : Prop := Inv s -> Inv s' /\ transitions_kept s s' /\ head_advances s s'.

Lemma keeps_refl s : keeps s s.
Proof. intros Hs. split_and!; [done|by intros r o|]. intros h Hh. exists h. split; [done|apply state_le_refl]. Qed.

Lemma keeps_trans s t u : keeps s t -> keeps t u -> keeps s u.
Proof.
  intros H1 H2 Hs. destruct (H1 Hs) as (Ht & Hk1 & Ha1). destruct (H2 Ht) as (Hu & Hk2 & Ha2). split_and!; [done|by intros r o Hr; apply Hk2, Hk1|].
  intros h (h' & Hh' & Hle)%Ha1. destruct (Ha2 _ Hh') as (h'' & Hh'' & Hle'). exists h''. split; [done|by eapply state_le_trans].
Qed.

Lemma state_key_not_transition r : state_head_key mid <> reference_key r mid.
Proof. intros E. apply (f_equal (take 17)) in E. vm_compute in E. discriminate. Qed.

Lemma stored_kept s s' h : stored s h -> transitions_kept s s' -> stored s' h.
Proof. intros (t & o & Ho & Ht) Hk. exists t, o. split; [by apply Hk|done]. Qed.

Lemma tags_insert s k b n :
  (forall n b v, new_tag (environment n) b = Some v -> identifies v = b) -> tags_ok s -> tags_ok (<[k := mkObject b (new_tag (environment n) b)]> s).
Proof.
  intros Htag Hs k' o v. destruct (decide (k = k')) as [->|Hne]; [rewrite lookup_insert_eq; intros [= <-]; cbn; apply Htag|].
  rewrite lookup_insert_ne by done. apply Hs.
Qed.

(** Creating another object keeps the relation. *)
Lemma keeps_create s k b n :
  (forall n b v, new_tag (environment n) b = Some v -> identifies v = b) ->
  k <> state_head_key mid -> s !! k = None -> keeps s (<[k := mkObject b (new_tag (environment n) b)]> s).
Proof.
  intros Htag Hk Hn [Ht Hh]. assert (transitions_kept s (<[k := mkObject b (new_tag (environment n) b)]> s)) as Hkept.
  { intros r o Hr. rewrite lookup_insert_ne; [done|]. intros ->. congruence. }
  split_and!; [split; [by apply tags_insert|]|done|].
  - intros o. rewrite lookup_insert_ne by done. intros Ho. destruct (Hh o Ho) as (h & Hf & Hok & Hst). exists h. split_and!; [done|done|by eapply stored_kept].
  - intros h (o & Ho & Hf). exists h. split; [|apply state_le_refl]. exists o. by rewrite lookup_insert_ne.
Qed.

(** Writing a head that goes on from the one that stands there keeps it too. *)
Lemma keeps_head s h b n :
  (forall n b v, new_tag (environment n) b = Some v -> identifies v = b) ->
  (forall h b, finite_value (h_state h) -> to_vec h = Ok b -> from_slice b = Ok h) ->
  to_vec h = Ok b -> head_ok h -> stored s h -> (forall h0, head_at s h0 -> state_le (h_state h0) (h_state h)) ->
  keeps s (<[state_head_key mid := mkObject b (new_tag (environment n) b)]> s).
Proof.
  intros Htag Hjson Hb Hok Hst Hle [Ht Hh].
  assert (transitions_kept s (<[state_head_key mid := mkObject b (new_tag (environment n) b)]> s)) as Hkept.
  { intros r o Hr. rewrite lookup_insert_ne; [done|]. apply state_key_not_transition. }
  assert (from_slice b = Ok h) as Hf by (apply Hjson; [apply Hok|done]).
  split_and!; [split; [by apply tags_insert|]|done|].
  - intros o. rewrite lookup_insert_eq. intros [= <-]. exists h. split_and!; [done|done|by eapply stored_kept].
  - intros h0 Hh0. exists h. split; [|by apply Hle]. eexists. by rewrite lookup_insert_eq.
Qed.

Lemma stable_inv : stable keeps Inv.
Proof. intros s t Hs Hr. by apply Hr. Qed.

Lemma stable_stored h : stable keeps (fun s => Inv s /\ stored s h).
Proof. intros s t [Hs Hst] Hr. destruct (Hr Hs) as (Ht & Hk & _). split; [done|by eapply stored_kept]. Qed.

(** ** Committing a state *)

Context (Henv : forall n s, keeps s (others (environment n) s)) (Hhonest : honest environment).
Context (Htag : forall n b v, new_tag (environment n) b = Some v -> identifies v = b).
Context (Hjson : forall (h : StateHead) b, finite_value (h_state h) -> to_vec h = Ok b -> from_slice b = Ok h).

(** The version of a head that was read, and the head it stands for. *)
Definition version_of (v : Z) (h0 : StateHead) : Prop := from_slice (identifies v) = Ok h0.

Lemma read_state_head_triple P :
  stable keeps P -> (forall s, P s -> Inv s) ->
  triple keeps P (read_state_head environment mid deployment_id)
    (fun r s => P s /\ match r with
                       | Ok (Some hd) => head_at s (value hd) /\ version_of (version hd) (value hd) /\ head_ok (value hd) /\ stored s (value hd)
                       | _ => True
                       end).
Proof.
  intros HP HPI. unfold read_state_head.
  eapply (triple_bind _ _ _ _ (fun r s => P s /\ match r with
      | Ok (Some hd) => head_at s (value hd) /\ version_of (version hd) (value hd) /\ head_ok (value hd) /\ stored s (value hd) | _ => True end)).
  - intros w Hw. destruct (triple_read keeps environment Henv Hhonest (T := StateHead) P (state_head_key mid) HP w Hw) as [H1 [H2 H3]].
    unfold or_missing. destruct (read_versioned (T := StateHead) environment (state_head_key mid) w) as [w' [hd|e]]; cbn [fst snd] in *.
    + split; [exact H1|]. split; [exact H2|]. destruct H3 as (b & Hf & Ho). destruct (HPI _ H2) as [Ht Hh]. destruct (Hh _ Ho) as (h & Hf' & Hok & Hst).
      cbn [body] in Hf'. assert (h = value hd) as -> by congruence. split_and!; [by eexists| |done|done].
      unfold version_of. by rewrite (Ht _ _ _ Ho eq_refl).
    + by destruct e.
  - intros [hd|]; apply triple_ret; intros s [Hs Hrest]; [|done]. by destruct (validate_head _ _ _).
  - by intros e s [Hs _].
Qed.

Lemma stands_head s h b : finite_value (h_state h) -> to_vec h = Ok b -> stands (state_head_key mid) b s -> head_at s h.
Proof. intros Hf Hb (t & Ht). eexists. split; [exact Ht|]. by apply Hjson. Qed.

(** Writing the head itself, from the version it was computed from. *)
Lemma write_head_triple h expected :
  head_ok h -> match expected with Some v => exists h0, version_of v h0 /\ state_le (h_state h0) (h_state h) | None => True end ->
  triple keeps (fun s => Inv s /\ stored s h)
    (match expected with Some v => update environment (state_head_key mid) h v | None => create_head environment (state_head_key mid) h end)
    (fun r s => Inv s /\ match r with Ok _ => head_at s h | Err _ => True end).
Proof.
  intros Hok Hexp. pose proof (stable_stored h) as Hstable.
  assert (forall r s, (Inv s /\ stored s h) /\ match r : result AlertStoreError unit with Ok _ => exists b, to_vec h = Ok b /\ stands (state_head_key mid) b s | Err _ => True end ->
    Inv s /\ match r with Ok _ => head_at s h | Err _ => True end) as Hpost.
  { intros r s [[Hs _] Hr]. split; [done|]. destruct r; [|done]. destruct Hr as (b & Hb & Hst). eapply stands_head; [apply Hok|done|done]. }
  destruct expected as [v|].
  - eapply triple_weaken; [apply (triple_update keeps environment Henv Hhonest _ _ h v Hstable)|done|exact Hpost].
    intros s n b o [Hs Hst] Hb Ho Hv. apply keeps_head with (h := h); [done..|]. destruct Hexp as (h0 & Hv0 & Hle). intros h1 (o1 & Ho1 & Hf1).
    assert (o1 = o) as -> by congruence. destruct Hs as [Ht _]. unfold version_of in Hv0. rewrite (Ht _ _ _ Ho Hv) in Hv0. congruence.
  - intros w Hw. destruct (triple_create keeps environment Henv Hhonest (T := StateHead) _ (state_head_key mid) h Hstable) with (w := w) as [H1 H2]; [|exact Hw|].
    { intros s n b [Hs Hst] Hb Hn. apply keeps_head with (h := h); [done..|]. intros h1 (o1 & Ho1 & _). congruence. }
    unfold create_head. destruct (create_identical environment (state_head_key mid) h w) as [w' [[]|e]]; cbn [fst snd map_err] in *;
      (split; [done|]); [by apply (Hpost (Ok tt))|by split; [apply H2|]].
Qed.

Lemma commit_state_triple h transition expected :
  h_monitor_id h = mid -> h_deployment_id h = deployment_id -> reachable (h_state h) -> finite_value (h_state h) ->
  match expected with Some v => exists h0, version_of v h0 /\ state_le (h_state h0) (h_state h) | None => True end ->
  triple keeps (fun s => Inv s /\ match transition with None => stored s h | Some _ => True end)
    (commit_state environment sha256 h transition expected)
    (fun r s => Inv s /\ match r with Ok _ => head_at s h | Err _ => True end).
Proof.
  intros Hm Hd Hr Hf Hexp. unfold commit_state. rewrite Hm, Hd.
  destruct (validate_head h deployment_id mid) as [[]|e] eqn:Ev.
  2:{ intros w Hw. split; [apply ran_refl|]. split; [apply Hw|done]. }
  assert (head_ok h) as Hok by done.
  eapply (triple_bind _ _ _ _ (fun r s => Inv s /\ match transition with None => stored s h | Some _ => True end)); [by apply triple_ret| |by intros e s [Hs _]].
  intros _. eapply (triple_bind _ _ _ _ (fun r s => Inv s /\ match r with Ok _ => stored s h | Err _ => True end)).
  - destruct transition as [t|]; [|by apply triple_ret]. destruct (verify_transition sha256 to_vec h t) as [[]|e] eqn:Et.
    2:{ intros w Hw. split; [apply ran_refl|]. split; [apply Hw|done]. }
    eapply (triple_bind _ _ _ _ (fun r s => Inv s)); [by apply triple_ret; intros s [Hs _]| |by intros e s Hs].
    intros _. eapply triple_weaken; [apply (triple_create keeps environment Henv Hhonest Inv _ t stable_inv)|done|].
    + intros s n b Hs _ Hn. apply keeps_create; [done| |done]. intros E. symmetry in E. by apply state_key_not_transition in E.
    + intros [[]|e] s [Hs Hst]; [|done]. split; [done|]. destruct Hst as (b & Hb & o & Ho). exists t, (mkObject b o). done.
  - intros _. eapply triple_weaken; [by apply write_head_triple|done|done].
  - by intros e s [Hs _].
Qed.
End Monitor.

(** ** Evaluations *)

Section Evaluation.
  Context (environment : nat -> Reply) (sha256 : bytes -> bytes).
  Context {Jm : Json Monitor} {Js : Json AlertState} {Jrh : Json RuleHead} {Jsh : Json StateHead} {Jtr : Json TransitionRecord}.
  Context (validate : Monitor -> result ValidationError unit) (deployment_id : bytes) (query_targets : list QueryTarget).
  Context (scalar : QueryTarget -> ScalarRequest -> result QueryClientError ScalarOutcome) (fence : nat -> bool).
  Context (m : Monitor) (identifies : Z -> bytes).

Abbreviation R := (keeps sha256 deployment_id (id m) identifies).
Abbreviation I := (Inv sha256 deployment_id (id m) identifies).
Abbreviation at_ := (head_at (id m)).

Context (Henv : forall n s, R s (others (environment n) s)) (Hhonest : honest environment).
Context (Htag : forall n b v, new_tag (environment n) b = Some v -> identifies v = b).
Context (Hjson : forall (h : StateHead) b, finite_value (h_state h) -> to_vec h = Ok b -> from_slice b = Ok h).
Context (Hscalar : forall t r v, scalar t r = Ok (ScalarValue (QNumber v)) -> f64_is_finite v = true).

Definition etriple {A : Type} (P : Objects -> Prop) (c : EvalWorld -> EvalWorld * A) (Q : A -> Objects -> Prop) : Prop :=
  forall w, P (objects (store w)) -> ran R (store w) (store (fst (c w))) /\ Q (snd (c w)) (objects (store (fst (c w)))).

Lemma etriple_ret {A : Type} (P : Objects -> Prop) (r : result EvaluationError A) (Q : result EvaluationError A -> Objects -> Prop) :
  (forall s, P s -> Q r s) -> etriple P (eval_ret r) Q.
Proof. intros H w Hw. split; [apply ran_refl|]. by apply H. Qed.

Lemma etriple_bind {A B : Type} (P : Objects -> Prop) (c : EvalWorld -> EvalWorld * result EvaluationError A) (k : A -> EvalWorld -> EvalWorld * result EvaluationError B) M Q :
  etriple P c M -> (forall a, etriple (M (Ok a)) (k a) Q) -> (forall e s, M (Err e) s -> Q (Err e) s) -> etriple P (eval_bind c k) Q.
Proof.
  intros Hc Hk He w Hw. unfold eval_bind. destruct (Hc w Hw) as [H1 H2]. destruct (c w) as [w' [a|e]]; cbn [fst snd] in *; [|auto].
  destruct (Hk a w' H2) as [H3 H4]. split; [by eapply ran_trans|done].
Qed.

Lemma etriple_on_store {A : Type} (P : Objects -> Prop) (c : World -> World * result AlertStoreError A) Q :
  triple R P c Q -> etriple P (on_store c) (fun r s => match r with Ok r => Q r s | Err _ => False end).
Proof. intros Hc w Hw. unfold on_store. destruct (Hc (store w) Hw) as [H1 H2]. by destruct (c (store w)). Qed.

Lemma etriple_store_call {A : Type} (P : Objects -> Prop) (c : World -> World * result AlertStoreError A) Q :
  triple R P c Q -> etriple P (store_call c) (fun r s => match r with Ok a => Q (Ok a) s | Err _ => exists e, Q (Err e) s end).
Proof.
  intros Hc. eapply etriple_bind; [by apply etriple_on_store| |done]. intros r. apply etriple_ret. intros s Hs. destruct r; cbn; [done|eauto].
Qed.

Lemma etriple_db {A : Type} (P : Objects -> Prop) (c : AlertsDb -> AlertsDb * result AlertsDbError A) : etriple P (db_call c) (fun _ s => P s).
Proof. intros w Hw. unfold db_call. destruct (c (projection w)). split; [apply ran_refl|done]. Qed.

Lemma etriple_fold (P : Objects -> Prop) i s : etriple P (fold_state_call i s) (fun _ s => P s).
Proof. eapply etriple_bind; [apply etriple_db| |done]. intros b. by apply etriple_ret. Qed.

Lemma etriple_weaken {A : Type} (P P' : Objects -> Prop) (c : EvalWorld -> EvalWorld * A) (Q Q' : A -> Objects -> Prop) :
  etriple P' c Q' -> (forall s, P s -> P' s) -> (forall a s, Q' a s -> Q a s) -> etriple P c Q.
Proof. intros Hc HP HQ w Hw. destruct (Hc w (HP _ Hw)). auto. Qed.

(** Reading keeps what is stable. *)
Lemma triple_read_rule_head P i : stable R P -> triple R P (read_rule_head environment i) (fun _ s => P s).
Proof.
  intros HP. eapply triple_bind; [by apply (triple_read R environment Henv Hhonest P)| |by intros e s [Hs _]].
  intros hd. apply triple_ret. by intros s [Hs _].
Qed.

Lemma triple_read_rule_revision P head : stable R P -> triple R P (read_rule_revision environment head) (fun _ s => P s).
Proof.
  intros HP. unfold read_rule_revision. destruct (_ || _); [by apply triple_ret|].
  eapply triple_bind; [by apply (triple_read R environment Henv Hhonest P)| |by intros e s [Hs _]]. intros hd. apply triple_ret. by intros s [Hs _].
Qed.

Lemma etriple_rule_is_current P : stable R P -> etriple P (rule_is_current environment validate m) (fun _ s => P s).
Proof.
  intros HP. unfold rule_is_current. eapply etriple_bind; [by apply etriple_on_store, triple_read_rule_head| |done].
  intros [head|e]; [|by destruct e; apply etriple_ret]. destruct (rh_deleted _).
  { eapply etriple_bind; [apply etriple_db| |done]. intros []. by apply etriple_ret. }
  destruct (_ =? _); [by apply etriple_ret|]. destruct (_ <? _); [by apply etriple_ret|].
  eapply etriple_bind; [by apply etriple_store_call, triple_read_rule_revision| |by intros e s [_ Hs]].
  intros newer. eapply (etriple_bind _ _ _ (fun _ s => P s)); [by apply etriple_ret| |done]. intros [].
  eapply etriple_bind; [apply etriple_db| |done]. intros b. by apply etriple_ret.
Qed.

(** What an outcome says of the durable head. *)
Definition outcome_says (slot : Z) (r : result EvaluationError SlotOutcome) (s : Objects) : Prop :=
  I s /\ match r with
         | Ok (Committed st) => exists h, at_ s h /\ h_state h = st /\ monitor_revision st = revision m /\ last_slot_id st = slot
         | Ok (AlreadyCovered st) => exists h, at_ s h /\ h_state h = st /\ covers st (revision m) slot = true
         | _ => True
         end.

(** The head that was read, if there was one, before the commit. *)
Definition prior_says (prior : option (Versioned StateHead)) (s : Objects) : Prop :=
  I s /\ match prior with
         | Some hd => version_of identifies (version hd) (value hd) /\ head_ok deployment_id (id m) (value hd) /\ stored sha256 (id m) s (value hd)
         | None => True
         end.

Lemma stable_prior prior : stable R (prior_says prior).
Proof.
  intros s t [Hs Hp] Hr. destruct (Hr Hs) as (Ht & Hk & _). split; [done|]. destruct prior as [hd|]; [|done].
  destruct Hp as (H1 & H2 & H3). split_and!; [done|done|by eapply stored_kept].
Qed.

Lemma validated_head h : validate_head h deployment_id (id m) = Ok tt -> h_deployment_id h = deployment_id /\ h_monitor_id h = id m.
Proof.
  unfold validate_head. destruct (negb (h_schema_version h =? _)); [done|]. case_bool_decide; cbn [negb orb]; [|done].
  destruct (Z.eqb_spec (h_monitor_id h) (id m)); done.
Qed.

Lemma etriple_commit prior obs slot now :
  finite_observation obs -> fresh m (h_state ∘ value <$> prior) slot = true ->
  etriple (prior_says prior) (commit_slot environment sha256 deployment_id m prior obs slot now) (outcome_says slot).
Proof.
  intros Hobs Hfresh. unfold commit_slot.
  destruct (evaluate_fresh m (h_state ∘ value <$> prior) obs slot now Hfresh) as (Hrev & Hslot & _).
  destruct (evaluate m _ obs slot now) as [next change] eqn:Eev. cbn [fst] in *.
  set (transition := if transitioned change then _ else None).
  apply (etriple_bind _ _ _ (fun r s => prior_says prior s /\ match r with
    | Ok latest => transition = None -> exists hd, prior = Some hd /\ latest = h_latest_transition (value hd) | Err _ => True end)).
  { apply etriple_ret. intros s Hs. split; [done|]. destruct transition as [t|]; [by destruct (reference _ _ _)|]. destruct prior as [hd|]; [|done].
    intros _. by exists hd. }
  2:{ intros e s [[Hs _] _]. done. }
  intros latest w [Hw Hlatest].
  assert (match prior with Some hd => head_ok deployment_id (id m) (value hd) | None => True end ->
    reachable next /\ finite_value next) as Hnext.
  { intros Hp. replace next with (fst (evaluate m (h_state ∘ value <$> prior) obs slot now)) by (by rewrite Eev). split.
    - apply reachable_next. destruct prior as [hd|]; [|done]. apply Hp.
    - apply evaluate_finite; [|done]. destruct prior as [hd|]; [|done]. apply Hp. }
  set (h := state_head deployment_id m next latest now).
  assert (forall s, prior_says prior s -> match transition with None => stored sha256 (id m) s h | Some _ => True end) as Hstored.
  { intros s [Hs Hp]. destruct transition as [t|]; [done|]. destruct (Hlatest eq_refl) as (hd & -> & ->). destruct Hp as (_ & [Hv _] & (t & o & H1 & H2 & H3)).
    exists t, o. split_and!; [done|done|]. revert H3. unfold verify_transition. destruct (validated_head _ Hv) as [Hd Hm]. cbn [h_deployment_id h_monitor_id h_latest_transition h state_head].
    by rewrite Hd, Hm. }
  destruct (Hw) as [Hi Hp].
  assert (match prior with Some hd => head_ok deployment_id (id m) (value hd) | None => True end) as Hok by (clear - Hp; destruct prior as [hd|]; [apply Hp|done]).
  destruct (Hnext Hok) as [Hreach Hfin].
  assert (etriple (prior_says prior) (on_store (commit_state environment sha256 h transition (version <$> prior)))
    (fun r s => match r with Ok r => I s /\ match r with Ok _ => at_ s h | Err _ => True end | Err _ => False end)) as Hcommit.
  { apply etriple_on_store. eapply triple_weaken;
      [apply (commit_state_triple environment sha256 deployment_id (id m) identifies Henv Hhonest Htag Hjson h transition (version <$> prior)); try done|..|done].
    - destruct prior as [hd|]; [|done]. cbn [fmap option_fmap option_map]. exists (value hd). split; [apply Hp|]. cbn in Hfresh. unfold state_le. cbn [h_state h state_head].
      unfold covers in *. lia.
    - intros s Hs. split; [apply Hs|by apply Hstored]. }
  refine (etriple_bind _ _ _ _ (outcome_says slot) Hcommit _ _ w Hw); [|by intros e s []].
  intros [[]|e].
  - eapply etriple_bind; [apply etriple_fold| |by intros e s [Hs _]]. intros []. apply etriple_ret. intros s [Hs Hat]. split; [done|]. exists h. done.
  - assert (forall e', etriple (fun s => I s /\ True) (eval_ret (Err (Failed (FStore e')))) (outcome_says slot)) as Herr by (intros e'; by apply etriple_ret; intros s [Hs _]).
    destruct e; try apply Herr. eapply etriple_bind.
    + apply etriple_store_call, (read_state_head_triple environment sha256 deployment_id (id m) identifies Henv Hhonest (fun s => I s /\ True)); [|by intros s [Hs _]].
      intros s t [Hs _] Hr. split; [by apply Hr|done].
    + intros winner. eapply (etriple_bind _ _ _ (fun _ s => I s)); [| |by intros e s Hs].
      * destruct winner as [wn|]; [|by apply etriple_ret; intros s [[Hs _] _]]. apply (etriple_weaken _ (fun s => I s) _ _ (fun _ s => I s)); [apply etriple_fold|by intros s [[Hs _] _]|done].
      * intros []. by apply etriple_ret.
    + by intros e s (e' & [Hs _] & _).
Qed.

Lemma observe_finite slot now obs : observe query_targets scalar m slot now = Ok obs -> finite_observation obs.
Proof.
  unfold observe. destruct (enabled m); [|by intros [= <-]]. destruct (List.find _ _) as [t|]; [|done]. intros [= <-]. unfold execute.
  destruct (scalar t _) as [[[v|b]|]|e] eqn:E; cbn; [by eapply Hscalar|by destruct b|done|done].
Qed.

Lemma etriple_evaluate slot now :
  etriple (fun s => I s) (evaluate_under_guard environment sha256 validate deployment_id query_targets scalar fence m slot now) (outcome_says slot).
Proof.
  pose proof (stable_inv sha256 deployment_id (id m) identifies) as HI. unfold evaluate_under_guard.
  eapply (etriple_bind _ _ _ (fun _ s => I s)); [by apply etriple_ret| |by intros e s Hs]. intros [].
  eapply etriple_bind; [by apply etriple_rule_is_current| |by intros e s Hs]. intros current. destruct current; cbn [negb]; [|by apply etriple_ret].
  eapply etriple_bind; [by apply etriple_store_call, (read_state_head_triple environment sha256 deployment_id (id m) identifies Henv Hhonest (fun s => I s))| |by intros e s (e' & Hs & _)].
  intros prior. set (proceed := eval_bind _ _).
  assert (fresh m (h_state ∘ value <$> prior) slot = true -> etriple (prior_says prior) proceed (outcome_says slot)) as Hproceed.
  { intros Hfresh. unfold proceed. eapply (etriple_bind _ _ _ (fun r s => prior_says prior s /\ match r with Ok obs => finite_observation obs | Err _ => True end)).
    - apply etriple_ret. intros s Hs. split; [done|]. destruct (observe _ _ _ _ _) eqn:E; [by eapply observe_finite|done].
    - intros obs w [Hw Hobs]. revert w Hw. change (etriple (prior_says prior)
        (eval_bind (fence_check fence 1 "alert evaluation lease lost before commit") (fun _ => eval_bind (rule_is_current environment validate m) (fun current =>
           if negb current then eval_ret (Ok Superseded) else commit_slot environment sha256 deployment_id m prior obs slot now))) (outcome_says slot)).
      eapply (etriple_bind _ _ _ (fun _ s => prior_says prior s)); [by apply etriple_ret| |by intros e s [Hs _]]. intros [].
      eapply etriple_bind; [apply etriple_rule_is_current, stable_prior| |by intros e s [Hs _]]. intros current. destruct current; cbn [negb]; [by apply etriple_commit|].
      apply etriple_ret. by intros s [Hs _].
    - by intros e s [[Hs _] _]. }
  destruct prior as [hd|].
  2:{ eapply etriple_weaken; [by apply Hproceed|by intros s [Hs _]|done]. }
  destruct (Z.ltb_spec (revision m) (monitor_revision (h_state (value hd)))) as [Hlt|Hge].
  { eapply (etriple_bind _ _ _ (fun _ s => I s)); [|intros []; by apply etriple_ret|by intros e s Hs].
    apply (etriple_weaken _ (fun s => I s) _ _ (fun _ s => I s)); [apply etriple_fold|by intros s [Hs _]|done]. }
  destruct (covers (h_state (value hd)) (revision m) slot) eqn:Ec.
  - eapply etriple_bind; [apply etriple_fold| |by intros e s [Hs _]]. intros []. apply etriple_ret. intros s (Hs & Hat & _). split; [done|]. by exists (value hd).
  - eapply etriple_weaken; [apply Hproceed; cbn; by rewrite Ec| |done]. intros s (Hs & _ & H1 & H2 & H3). exact (conj Hs (conj H1 (conj H2 H3))).
Qed.
End Evaluation.

(** The durable alert state of a monitor is a run of its state machine, whatever the
    evaluators on other hosts do.  If the others keep the relation [keeps] between the
    stores, every write of this evaluation keeps it too, in every store it goes through,
    also when writes fail ambiguously or the lease is lost: the head in the store is the
    state after some sequence of evaluations, it never goes back in
    [(monitor_revision, last_slot_id)] order, and it names a transition record that is
    stored and matches its digest.  A slot reported as committed or as covered is in the
    head that stands at the end. *)
Theorem durable_state_is_a_run (environment : nat -> Reply) (sha256 : bytes -> bytes)
    {Jm : Json Monitor} {Js : Json AlertState} {Jrh : Json RuleHead} {Jsh : Json StateHead} {Jtr : Json TransitionRecord}
    (validate : Monitor -> result ValidationError unit) (deployment_id : bytes) (query_targets : list QueryTarget)
    (scalar : QueryTarget -> ScalarRequest -> result QueryClientError ScalarOutcome) (fence : nat -> bool) (try_acquire : result string bool)
    (m : Monitor) (identifies : Z -> bytes) (slot now : Z) (w : EvalWorld) :
  (forall n s, keeps sha256 deployment_id (id m) identifies s (others (environment n) s)) -> honest environment ->
  (forall n b v, new_tag (environment n) b = Some v -> identifies v = b) ->
  (forall (h : StateHead) b, finite_value (h_state h) -> to_vec h = Ok b -> from_slice b = Ok h) ->
  (forall t r v, scalar t r = Ok (ScalarValue (QNumber v)) -> f64_is_finite v = true) ->
  Inv sha256 deployment_id (id m) identifies (objects (store w)) ->
  let '(w', r) := evaluate_monitor_slot environment sha256 validate deployment_id query_targets scalar fence try_acquire m slot now w in
  ran (keeps sha256 deployment_id (id m) identifies) (store w) (store w')
  /\ Inv sha256 deployment_id (id m) identifies (objects (store w'))
  /\ match r with
     | Ok (Committed st) => exists h, head_at (id m) (objects (store w')) h /\ h_state h = st /\ monitor_revision st = revision m /\ last_slot_id st = slot
     | Ok (AlreadyCovered st) => exists h, head_at (id m) (objects (store w')) h /\ h_state h = st /\ covers st (revision m) slot = true
     | _ => True
     end.
Proof.
  intros Henv Hhonest Htag Hjson Hscalar Hw. unfold evaluate_monitor_slot. destruct try_acquire as [[|]|e].
  - pose proof (etriple_evaluate environment sha256 validate deployment_id query_targets scalar fence m identifies Henv Hhonest Htag Hjson Hscalar slot now w Hw) as [H1 H2].
    destruct (evaluate_under_guard _ _ _ _ _ _ _ _ _ _ w) as [w' r]. by destruct H2.
  - split; [apply ran_refl|done].
  - split; [apply ran_refl|done].
Qed.

(** ** Witness *)

#[export] Instance spec_float_eq_dec : EqDecision f64.
Proof. solve_decision. Defined.
#[export] Instance InterruptedStatus_eq_dec : EqDecision InterruptedStatus.
Proof. solve_decision. Defined.
#[export] Instance AlertState_eq_dec : EqDecision AlertState.
Proof. solve_decision. Defined.
#[export] Instance StateHead_eq_dec : EqDecision StateHead.
Proof. solve_decision. Defined.

Definition demo_slot_end : Z := 120000000000.
Definition demo_next : AlertState := fst (evaluate demo_monitor None (ObsValue f64_one) 1 demo_slot_end).
Definition demo_head : StateHead :=
  state_head (str "d") demo_monitor demo_next (mkRef 1 1 1 Inactive []) demo_slot_end.

(** Documents of one byte each. *)
Definition demo_rule_head_json : Json RuleHead :=
  {| to_vec := fun _ => Ok [x00]; from_slice := fun _ => Ok (mkRuleHead 1 7 1 [] 0 false None) |}.
Definition demo_head_json : Json StateHead :=
  {| to_vec := fun h => if decide (h = demo_head) then Ok [x01] else Err "no head"; from_slice := fun _ => Ok demo_head |}.
Definition demo_transition_json : Json TransitionRecord := {| to_vec := fun _ => Ok [x02]; from_slice := fun _ => Err "no transition" |}.
Definition demo_rule_json : Json Monitor := {| to_vec := fun _ => Ok []; from_slice := fun _ => Ok demo_monitor |}.
Definition demo_alert_state_json : Json AlertState := {| to_vec := fun _ => Ok []; from_slice := fun _ => Err "no state" |}.

(** The write of the head reports a failed precondition although it took effect. *)
Definition demo_environment (n : nat) : Reply :=
  mkReply (fun s => s) (if Nat.eqb n 4 then Some OPrecondition else None) true
    (fun b => match b with [x] => Some (b2z x) | _ => None end) (fun b => ([b], None)).

Definition demo_world : EvalWorld :=
  mkEvalWorld (mkWorld {[rule_head_key 7 := mkObject [x00] (Some 0)]} 0 [])
    (mkAlertsDb (mkTables ALERTS_SCHEMA_VERSION None ∅ ∅ ∅) 1 0).

Definition demo_evaluation : EvalWorld * result EvaluationError SlotOutcome :=
  evaluate_monitor_slot demo_environment (fun _ => []) (Jm := demo_rule_json) (Js := demo_alert_state_json) (Jrh := demo_rule_head_json)
    (Jsh := demo_head_json) (Jtr := demo_transition_json) (fun _ => Ok tt) (str "d") [mkQueryTarget "all" "a"]
    (fun _ _ => Ok (ScalarValue (QBoolean true))) (fun _ => true) (Ok true) demo_monitor 1 demo_slot_end demo_world.

Lemma durable_state_is_a_run_witness :
  snd demo_evaluation = Ok (Committed demo_next)
  /\ (exists h, head_at (Jsh := demo_head_json) 7 (objects (store (fst demo_evaluation))) h /\ h_state h = demo_next).
Proof.
  assert (snd demo_evaluation = Ok (Committed demo_next)) as Hr by (vm_compute; reflexivity). split; [exact Hr|].
  pose proof (durable_state_is_a_run demo_environment (fun _ => []) (Jm := demo_rule_json) (Js := demo_alert_state_json) (Jrh := demo_rule_head_json)
    (Jsh := demo_head_json) (Jtr := demo_transition_json) (fun _ => Ok tt) (str "d") [mkQueryTarget "all" "a"]
    (fun _ _ => Ok (ScalarValue (QBoolean true))) (fun _ => true) (Ok true) demo_monitor (fun v => [z2b v]) 1 demo_slot_end demo_world) as H.
  fold demo_evaluation in H. destruct demo_evaluation as [w' r]. cbn [fst snd] in *. subst r. destruct H as (_ & _ & h & Hh & Hs & _).
  - intros n s. apply keeps_refl.
  - intros n b. exists []. cbn. rewrite !app_nil_r. done.
  - intros n b v. cbn. destruct b as [|x [|y b]]; [done| |done]. intros [= <-]. by rewrite z2b_b2z.
  - intros h b Hf. cbn. case_decide as E; [|done]. intros _. by rewrite E.
  - intros t r v. discriminate.
  - split.
    + intros k o v Ho Hv. unfold demo_world in Ho. cbn [store objects] in Ho. apply lookup_singleton_Some in Ho as [<- <-]. cbn in *. injection Hv as <-. vm_compute. reflexivity.
    + intros o Ho. unfold demo_world in Ho. cbn [store objects] in Ho. apply lookup_singleton_Some in Ho as [E _]. exfalso.
      apply (f_equal (take 17)) in E. vm_compute in E. discriminate.
  - exists h. done.
Defined.
