(* ===== verification/Lease.v ===== *)
(** * Leases (crates/valkey/src/lease.rs, crates/cluster/src/lease.rs)

    The lease that makes compaction and retention exclusive across instances.
    [ValkeyFence] and its operations are the code's; the rest of the file runs
    the lease's calls, cut at their awaits, against a key of the server.  A
    client's commands may be delayed, lost, or executed more than once (the
    client library buffers and resends across reconnects), and so may replies:
    [sent_cmds] and [replies] only grow, and a step may use any of their
    elements.  Time is one monotonic clock in nanoseconds; tokens are the fresh
    UUIDs of the acquisitions.

    [Local] is the in-process provider. *)

From S2P Require Import Prelude.

Open Scope Z_scope.

(** ** Durations and instants, in nanoseconds *)

Definition NANOS_PER_MILLI : Z := 1000000.
Definition from_millis (ms : Z) : Z := ms * NANOS_PER_MILLI.
Definition from_secs (s : Z) : Z := s * (1000 * NANOS_PER_MILLI).

(** [Duration::as_millis]. *)
Definition as_millis (d : Z) : Z := d / NANOS_PER_MILLI.

(** [Instant::saturating_duration_since]. *)
Definition saturating_duration_since (a b : Z) : Z := Z.max (a - b) 0.

Definition MAX_ACQUIRE_TIMEOUT : Z := from_secs 5.

Definition renew_period (ttl : Z) : Z := Z.max (ttl / 3) (from_millis 50).
Definition backstop_for (ttl : Z) : Z := Z.max (Z.max (ttl - ttl / 3) 0) (from_millis 50).
Definition acquire_timeout (ttl : Z) : Z := Z.min (renew_period ttl) MAX_ACQUIRE_TIMEOUT.
Definition ttl_ms_of (ttl : Z) : Z := as_i64 (Z.max (as_millis ttl) 1).

(** ** The fence *)

Record ValkeyFence := mkFence {
  valid : bool;
  last_ok_millis : Z;
  origin : Z;
  backstop : Z
}.

Inductive FenceError :=
| LeaseLost
| NotConfirmed (age backstop_ms : Z).

Definition fence_new (origin backstop : Z) : ValkeyFence :=
  mkFence true 0 origin backstop.

Definition invalidate (f : ValkeyFence) : ValkeyFence :=
  mkFence false (last_ok_millis f) (origin f) (backstop f).

Definition mark_renewed (f : ValkeyFence) (at_ : Z) : ValkeyFence :=
  let ms := wrap64 (as_millis (saturating_duration_since at_ (origin f))) in
  mkFence (valid f) (Z.max (last_ok_millis f) ms) (origin f) (backstop f).

Definition check_at (f : ValkeyFence) (now_millis : Z)
  : ValkeyFence * result FenceError unit :=
  if negb (valid f) then (f, Err LeaseLost)
  else
    let age := sat_sub now_millis (last_ok_millis f) in
    if wrap64 (as_millis (backstop f)) <=? age
    then (invalidate f, Err (NotConfirmed age (as_millis (backstop f))))
    else (f, Ok tt).

Definition check (f : ValkeyFence) (now : Z) : ValkeyFence * result FenceError unit :=
  check_at f (wrap64 (as_millis (saturating_duration_since now (origin f)))).

(** ** The key on the server

    [GET] sees a key until its expiry; [SET .. NX PX] writes an absent key;
    [PEXPIRE] and [DEL] are reached only through the two scripts. *)

Abbreviation Token := string.

Record ServerKey := mkKey { key_token : Token; key_expiry : Z }.

Definition srv_get (k : option ServerKey) (now : Z) : option Token :=
  match k with
  | Some k => if now <? key_expiry k then Some (key_token k) else None
  | None => None
  end.

Definition srv_set_nx (k : option ServerKey) (now : Z) (t : Token) (ttl_ms : Z)
  : option ServerKey * bool :=
  match srv_get k now with
  | None => (Some (mkKey t (now + from_millis ttl_ms)), true)
  | Some _ => (k, false)
  end.

Definition RENEW_LUA (k : option ServerKey) (now : Z) (t : Token) (ttl_ms : Z)
  : option ServerKey * Z :=
  if bool_decide (srv_get k now = Some t)
  then (Some (mkKey t (now + from_millis ttl_ms)), 1)
  else (k, 0).

Definition RELEASE_LUA (k : option ServerKey) (now : Z) (t : Token)
  : option ServerKey * Z :=
  if bool_decide (srv_get k now = Some t) then (None, 1) else (k, 0).

(** ** The system: one lease key, its server and any number of callers *)

Inductive Command :=
| CSet (t : Token)
| CRenew (t : Token) (sent : Z)
| CRelease (t : Token).

Inductive Reply :=
| RSet (t : Token) (stored : bool)
| RRenew (t : Token) (sent : Z) (n : Z).

#[global] Instance Command_eq_dec : EqDecision Command.
Proof. solve_decision. Defined.
#[global] Instance Reply_eq_dec : EqDecision Reply.
Proof. solve_decision. Defined.

(** The loop of the renew task: between ticks, awaiting the reply to a renewal,
    or ended. *)
Inductive RenewTask :=
| Ticking
| Awaiting (sent : Z)
| Ended.

#[global] Instance RenewTask_eq_dec : EqDecision RenewTask.
Proof. solve_decision. Defined.

(** A call of [try_acquire] and the lease it may become, by its token. *)
Inductive Caller :=
| Acquiring (sent : Z)
| Held (fence : ValkeyFence) (renew : RenewTask)
| Failed.

Record System := mkSystem {
  now : Z;
  key : option ServerKey;
  callers : gmap Token Caller;
  sent_cmds : list Command;
  replies : list Reply
}.

Definition init_system : System := mkSystem 0 None ∅ [] [].

Definition set_caller (s : System) (t : Token) (c : Caller) : System :=
  mkSystem (now s) (key s) (<[t := c]> (callers s)) (sent_cmds s) (replies s).
Definition send (s : System) (c : Command) : System :=
  mkSystem (now s) (key s) (callers s) (c :: sent_cmds s) (replies s).
Definition set_key (s : System) (k : option ServerKey) : System :=
  mkSystem (now s) k (callers s) (sent_cmds s) (replies s).
Definition reply (s : System) (r : Reply) : System :=
  mkSystem (now s) (key s) (callers s) (sent_cmds s) (r :: replies s).

Section Steps.
  Variable ttl : Z.

(** [try_acquire] up to the await of [SET]. *)
Definition try_acquire (s : System) (t : Token) : option System :=
  match callers s !! t with
  | None => Some (send (set_caller s t (Acquiring (now s))) (CSet t))
  | Some _ => None
  end.

(** [try_acquire] once the [SET] has answered: a null reply is [Ok(None)]. *)
Definition acquired (s : System) (t : Token) (stored : bool) : option System :=
  match callers s !! t with
  | Some (Acquiring sent) =>
      Some (set_caller s t
              (if stored then Held (fence_new sent (backstop_for ttl)) Ticking else Failed))
  | _ => None
  end.

(** [try_acquire] after an error of the command ([timed_out = false]), or its
    timeout, which queues the release of [spawn_abandoned_release]. *)
Definition acquire_failed (s : System) (t : Token) (timed_out : bool) : option System :=
  match callers s !! t with
  | Some (Acquiring sent) =>
      let s' := set_caller s t Failed in
      Some (if timed_out then send s' (CRelease t) else s')
  | _ => None
  end.

(** A tick of the renew loop: note the instant, send the script. *)
Definition renew_tick (s : System) (t : Token) : option System :=
  match callers s !! t with
  | Some (Held f Ticking) =>
      Some (send (set_caller s t (Held f (Awaiting (now s)))) (CRenew t (now s)))
  | _ => None
  end.

(** The match on the renewal's outcome: [Some n] a reply, [None] an error or a
    timeout. *)
Definition renew_outcome (s : System) (t : Token) (n : option Z) : option System :=
  match callers s !! t with
  | Some (Held f (Awaiting sent)) =>
      Some (set_caller s t
              (if bool_decide (n = Some 1) then Held (mark_renewed f sent) Ticking
               else Held (invalidate f) Ended))
  | _ => None
  end.

(** A caller consults the fence. *)
Definition fence_check (s : System) (t : Token) : option System :=
  match callers s !! t with
  | Some (Held f r) => Some (set_caller s t (Held (fst (check f (now s))) r))
  | _ => None
  end.

(** [LeaseGuard::release]: the fence first, then the renew task, then the key. *)
Definition release (s : System) (t : Token) : option System :=
  match callers s !! t with
  | Some (Held f r) => Some (send (set_caller s t (Held (invalidate f) Ended)) (CRelease t))
  | _ => None
  end.

(** [Drop for ValkeyLease]. *)
Definition drop_lease (s : System) (t : Token) : option System :=
  match callers s !! t with
  | Some (Held f r) => Some (set_caller s t (Held (invalidate f) Ended))
  | _ => None
  end.

(** The server executes a command that was sent. *)
Definition execute (s : System) (c : Command) : System :=
  match c with
  | CSet t =>
      let '(k, stored) := srv_set_nx (key s) (now s) t (ttl_ms_of ttl) in
      reply (set_key s k) (RSet t stored)
  | CRenew t sent =>
      let '(k, n) := RENEW_LUA (key s) (now s) t (ttl_ms_of ttl) in
      reply (set_key s k) (RRenew t sent n)
  | CRelease t =>
      let '(k, _) := RELEASE_LUA (key s) (now s) t in set_key s k
  end.

Inductive Event :=
| Pass (d : Z)
| TryAcquire (t : Token)
| Acquired (t : Token) (stored : bool)
| AcquireFailed (t : Token) (timed_out : bool)
| RenewTick (t : Token)
| RenewReply (t : Token) (sent n : Z)
| RenewFailed (t : Token)
| Check_ (t : Token)
| Release (t : Token)
| DropLease (t : Token)
| Execute (c : Command).

(** The instants of the run stay below [u64::MAX] milliseconds. *)
Definition max_instant : Z := from_millis (2 ^ 64).

Definition step (s : System) (e : Event) : option System :=
  match e with
  | Pass d =>
      if (0 <=? d) && (now s + d <? max_instant)
      then Some (mkSystem (now s + d) (key s) (callers s) (sent_cmds s) (replies s))
      else None
  | TryAcquire t => try_acquire s t
  | Acquired t stored =>
      if bool_decide (RSet t stored ∈ replies s) then acquired s t stored else None
  | AcquireFailed t timed_out => acquire_failed s t timed_out
  | RenewTick t => renew_tick s t
  | RenewReply t sent n =>
      if bool_decide (RRenew t sent n ∈ replies s) then
        match callers s !! t with
        | Some (Held _ (Awaiting sent')) =>
            if sent' =? sent then renew_outcome s t (Some n) else None
        | _ => None
        end
      else None
  | RenewFailed t => renew_outcome s t None
  | Check_ t => fence_check s t
  | Release t => release s t
  | DropLease t => drop_lease s t
  | Execute c => if bool_decide (c ∈ sent_cmds s) then Some (execute s c) else None
  end.

Fixpoint run (s : System) (es : list Event) : option System :=
  match es with
  | [] => Some s
  | e :: es => match step s e with Some s' => run s' es | None => None end
  end.

(** The caller of [t] may act: its fence's [check] is [Ok] now. *)
Definition may_act (s : System) (t : Token) : bool :=
  match callers s !! t with
  | Some (Held f _) => is_ok (snd (check f (now s)))
  | _ => false
  end.
End Steps.

(** ** The invariant

    Every confirmation a live caller can hold (the stored [SET], an accepted
    renewal, the fence's own watermark) that was sent at [sigma] is covered: the
    key is the caller's until at least [sigma + ttl], or that instant is past. *)

Section Invariant.
  Variable ttl : Z.

Definition ttl_ns : Z := from_millis (ttl_ms_of ttl).

Definition covered (s : System) (t : Token) (sigma : Z) : Prop :=
  sigma + ttl_ns <= now s
  \/ exists e, key s = Some (mkKey t e) /\ sigma + ttl_ns <= e.

Definition live_caller (c : Caller) : Prop :=
  match c with
  | Acquiring _ => True
  | Held f _ => valid f = true
  | Failed => False
  end.

Definition live (s : System) (t : Token) : Prop :=
  exists c, callers s !! t = Some c /\ live_caller c.

(** The instant of the fence's watermark. *)
Definition watermark (f : ValkeyFence) : Z := origin f + from_millis (last_ok_millis f).

Definition caller_confirms (s : System) (t : Token) (c : Caller) (sigma : Z) : Prop :=
  match c with
  | Acquiring sent => sigma = sent /\ RSet t true ∈ replies s
  | Held f _ => sigma = watermark f
  | Failed => False
  end.

Definition wf_fence (s : System) (f : ValkeyFence) : Prop :=
  0 <= origin f /\ 0 <= last_ok_millis f /\ watermark f <= now s
  /\ backstop f = backstop_for ttl.

Definition wf_caller (s : System) (c : Caller) : Prop :=
  match c with
  | Acquiring sent => 0 <= sent <= now s
  | Held f r => wf_fence s f
      /\ match r with Awaiting sent => 0 <= sent <= now s | _ => True end
  | Failed => True
  end.

Record Inv (s : System) : Prop := {
  inv_now : 0 <= now s < max_instant;
  inv_wf : forall t c, callers s !! t = Some c -> wf_caller s c;
  inv_known : forall t b, RSet t b ∈ replies s -> is_Some (callers s !! t);
  inv_sent_known : forall t, CSet t ∈ sent_cmds s -> is_Some (callers s !! t);
  inv_rel_known : forall t, CRelease t ∈ sent_cmds s -> is_Some (callers s !! t);
  inv_renew_known : forall t a, CRenew t a ∈ sent_cmds s -> is_Some (callers s !! t) /\ a <= now s;
  inv_rrenew_known : forall t a n, RRenew t a n ∈ replies s ->
    is_Some (callers s !! t) /\ a <= now s;
  inv_released : forall t, CRelease t ∈ sent_cmds s -> ~ live s t;
  inv_caller : forall t c sigma, callers s !! t = Some c -> live_caller c ->
    caller_confirms s t c sigma -> covered s t sigma;
  inv_renewed : forall t sigma, RRenew t sigma 1 ∈ replies s -> live s t -> covered s t sigma
}.

Lemma init_inv : Inv init_system.
Proof.
  split; simpl; try (intros; exfalso; eapply not_elem_of_nil; eassumption);
    try (intros ? ?; rewrite lookup_empty; naive_solver).
  - unfold max_instant, from_millis, NANOS_PER_MILLI. lia.
Qed.

Lemma live_set_caller s t c t' :
  live (set_caller s t c) t' <-> (t' = t /\ live_caller c) \/ (t' <> t /\ live s t').
Proof.
  unfold live; simpl. destruct (decide (t' = t)) as [->|Hne].
  - rewrite lookup_insert_eq. naive_solver.
  - rewrite lookup_insert_ne by done. naive_solver.
Qed.

(** Replacing a caller: the new one is well-formed, lives only where the old one
    did, and what it confirms is covered. *)
Lemma inv_set_caller s t c0 c :
  Inv s -> callers s !! t = Some c0 -> wf_caller s c ->
  (live_caller c -> live_caller c0) ->
  (forall sigma, live_caller c -> caller_confirms s t c sigma -> covered s t sigma) ->
  Inv (set_caller s t c).
Proof.
  intros I Ht Hwf Hlive Hconf.
  assert (Hk : forall t', is_Some (callers s !! t') -> is_Some (<[t:=c]> (callers s) !! t')).
  { intros t' ?. destruct (decide (t' = t)) as [->|?].
    - rewrite lookup_insert_eq. eauto.
    - by rewrite lookup_insert_ne. }
  assert (Hl : forall t', live (set_caller s t c) t' -> live s t').
  { intros t' [[-> ?]|[_ ?]]%live_set_caller; [|done]. exists c0; auto. }
  split; simpl; try (intros; apply Hk; destruct I; eauto; fail).
  - apply I.
  - intros t' c'. destruct (decide (t' = t)) as [->|?].
    + rewrite lookup_insert_eq. intros [= <-]. exact Hwf.
    + rewrite lookup_insert_ne by done. apply I.
  - intros t' a Ha. destruct (inv_renew_known s I t' a Ha). auto.
  - intros t' a n Ha. destruct (inv_rrenew_known s I t' a n Ha). auto.
  - intros t' Hr Hv. by eapply (inv_released s I), Hl.
  - intros t' c' sigma. destruct (decide (t' = t)) as [->|?].
    + rewrite lookup_insert_eq. intros [= <-] Hlc Hc. by apply Hconf.
    + rewrite lookup_insert_ne by done. intros ? ? ?.
      by eapply (inv_caller s I).
  - intros t' sigma ? ?. by apply (inv_renewed s I), Hl.
Qed.

(** Time passes. *)
Lemma inv_pass s d s' :
  Inv s -> step ttl s (Pass d) = Some s' -> Inv s'.
Proof.
  intros I. simpl. destruct (Z.leb_spec 0 d), (Z.ltb_spec (now s + d) max_instant);
    simpl; intros [= <-].
  assert (Hcov : forall t sigma, covered s t sigma ->
    covered (mkSystem (now s + d) (key s) (callers s) (sent_cmds s) (replies s)) t sigma).
  { intros t sigma [?|?]; [left; simpl; lia|by right]. }
  split; simpl; try (by destruct I).
  - pose proof (inv_now s I). lia.
  - intros t c Hc. pose proof (inv_wf s I t c Hc) as W.
    destruct c as [sent|f r|]; simpl in *; [lia| |done].
    unfold wf_fence in *; simpl in *.
    split; [intuition lia|]. destruct r; [done|lia|done].
  - intros t a H1. destruct (inv_renew_known s I t a H1). split; [done|lia].
  - intros t a n H1. destruct (inv_rrenew_known s I t a n H1). split; [done|lia].
  - intros t c sigma ? ? ?. by apply Hcov; eapply (inv_caller s I).
  - intros t sigma ? ?. by apply Hcov, (inv_renewed s I).
Qed.

(** A renewal or a release is sent on behalf of a known caller; only a caller
    that is no longer live sends a release. *)
Lemma inv_send s t c :
  Inv s -> is_Some (callers s !! t) ->
  c = CRelease t /\ ~ live s t \/ c = CRenew t (now s) \/ c = CSet t ->
  Inv (send s c).
Proof.
  intros I Hk Hc.
  split; simpl; try (by destruct I).
  - intros t' [Heq|?]%elem_of_cons; [naive_solver|by apply (inv_sent_known s I)].
  - intros t' [Heq|?]%elem_of_cons; [naive_solver|by apply (inv_rel_known s I)].
  - intros t' a [Heq|?]%elem_of_cons; [|by apply (inv_renew_known s I)].
    destruct Hc as [[? _]|[?|?]]; simplify_eq. split; [done|lia].
  - intros t' [Heq|?]%elem_of_cons; [|by apply (inv_released s I)].
    destruct Hc as [[? ?]|[?|?]]; by simplify_eq.
Qed.

Lemma inv_try_acquire s t s' : Inv s -> try_acquire s t = Some s' -> Inv s'.
Proof.
  intros I. unfold try_acquire. destruct (callers s !! t) eqn:Ht; intros [= <-].
  assert (Hfresh : forall t', is_Some (callers s !! t') -> t' <> t).
  { intros t' [? ?] ->. congruence. }
  apply (inv_send _ t); [|by simpl; rewrite lookup_insert_eq; eauto|auto].
  assert (Hk : forall t', is_Some (callers s !! t') ->
    is_Some (<[t:=Acquiring (now s)]> (callers s) !! t')).
  { intros t' Hs. by rewrite lookup_insert_ne by (symmetry; auto). }
  split; simpl; try (intros; apply Hk; destruct I; eauto; fail).
  - apply I.
  - intros t' c. rewrite lookup_insert_Some. intros [[<- <-]|[_ ?]].
    + simpl. pose proof (inv_now s I). lia.
    + by apply (inv_wf s I t').
  - intros t' a Ha. destruct (inv_renew_known s I t' a Ha). auto.
  - intros t' a n Ha. destruct (inv_rrenew_known s I t' a n Ha). auto.
  - intros t' Hr [[-> _]|[_ ?]]%live_set_caller.
    + by destruct (Hfresh t (inv_rel_known s I t Hr)).
    + by apply (inv_released s I t').
  - intros t' c sigma. rewrite lookup_insert_Some. intros [[<- <-]|[_ ?]] Hl Hc.
    + destruct Hc as [_ Hc]. by destruct (Hfresh t (inv_known s I t true Hc)).
    + by eapply (inv_caller s I).
  - intros t' sigma Hr [[-> _]|[_ ?]]%live_set_caller.
    + by destruct (Hfresh t (proj1 (inv_rrenew_known s I t sigma 1 Hr))).
    + by apply (inv_renewed s I).
Qed.

Lemma inv_acquired s t stored s' :
  Inv s -> RSet t stored ∈ replies s -> acquired ttl s t stored = Some s' -> Inv s'.
Proof.
  intros I Hr. unfold acquired. destruct (callers s !! t) as [[sent| |]|] eqn:Ht;
    intros [= <-].
  pose proof (inv_wf s I t _ Ht) as W; simpl in W.
  destruct stored; eapply inv_set_caller; try eassumption; simpl; try done.
  - unfold wf_fence, watermark, from_millis; simpl. repeat split; lia.
  - intros sigma _ ->. eapply (inv_caller s I t _ _ Ht); [done|]. simpl.
    unfold watermark, from_millis; simpl. split; [lia|done].
Qed.

(** Invalidating a fence, with whatever is left of the renew task. *)
Lemma inv_invalidate s t f r r' :
  Inv s -> callers s !! t = Some (Held f r) ->
  match r' with Awaiting _ => r' = r | _ => True end ->
  Inv (set_caller s t (Held (invalidate f) r')).
Proof.
  intros I Ht Hr. eapply inv_set_caller; try eassumption; simpl; try done.
  destruct (inv_wf s I t _ Ht) as [W ?]. split; [exact W|].
  destruct r'; [done| |done]. by subst r.
Qed.

Lemma mark_renewed_watermark s f sent :
  0 <= now s < max_instant -> wf_fence s f -> 0 <= sent <= now s ->
  wf_fence s (mark_renewed f sent)
  /\ (watermark (mark_renewed f sent) <= watermark f
      \/ watermark (mark_renewed f sent) <= sent).
Proof.
  unfold wf_fence, watermark, mark_renewed, saturating_duration_since; simpl.
  intros Hnow (Ho & Hl & Hw & Hb) Hs.
  set (d := Z.max (sent - origin f) 0).
  assert (Hd : 0 <= as_millis d <= d / NANOS_PER_MILLI
     /\ from_millis (as_millis d) <= d /\ as_millis d < 2 ^ 64).
  { unfold as_millis, from_millis, NANOS_PER_MILLI, max_instant in *.
    unfold from_millis, NANOS_PER_MILLI in *.
    pose proof (Z.div_pos d 1000000). pose proof (Z.mul_div_le d 1000000).
    assert (d / 1000000 < 2 ^ 64) by (apply Z.div_lt_upper_bound; lia). lia. }
  rewrite wrap64_id by (unfold in_u64, u64_max; lia).
  unfold from_millis, NANOS_PER_MILLI in *. lia.
Qed.

Lemma inv_renew_outcome s t n s' :
  Inv s -> (forall f sent, callers s !! t = Some (Held f (Awaiting sent)) ->
            n = Some 1 -> RRenew t sent 1 ∈ replies s) ->
  renew_outcome s t n = Some s' -> Inv s'.
Proof.
  intros I Hn. unfold renew_outcome.
  destruct (callers s !! t) as [[|f [|sent|]|]|] eqn:Ht; intros [= <-].
  case_bool_decide as H1; [|by eapply inv_invalidate].
  destruct (inv_wf s I t _ Ht) as [W Hsent]; simpl in Hsent.
  destruct (mark_renewed_watermark s f sent (inv_now s I) W Hsent) as [W' Hm].
  eapply inv_set_caller; try eassumption; simpl; [done|done|].
  intros sigma Hv ->. destruct Hm as [Hm|Hm].
  - assert (C : covered s t (watermark f)) by (eapply (inv_caller s I t _ _ Ht); done).
    destruct C as [?|(e & ? & ?)]; [left; lia|right; exists e; split; [done|lia]].
  - assert (C : covered s t sent).
    { apply (inv_renewed s I); [by eapply Hn|]. by exists (Held f (Awaiting sent)). }
    destruct C as [?|(e & ? & ?)]; [left; lia|right; exists e; split; [done|lia]].
Qed.

Lemma inv_fence_check s t s' : Inv s -> fence_check s t = Some s' -> Inv s'.
Proof.
  intros I. unfold fence_check. destruct (callers s !! t) as [[|f r|]|] eqn:Ht; intros [= <-].
  unfold check, check_at. destruct (valid f) eqn:Hv; simpl; [case_match; simpl|].
  - eapply inv_invalidate; try done. by destruct r.
  - eapply inv_set_caller; try eassumption; [by apply (inv_wf s I t)|done|].
    intros sigma Hl Hc. by eapply (inv_caller s I).
  - eapply inv_set_caller; try eassumption; [by apply (inv_wf s I t)|done|].
    intros sigma Hl Hc. by eapply (inv_caller s I).
Qed.

Lemma srv_get_Some k n t :
  srv_get k n = Some t -> exists e, k = Some (mkKey t e) /\ n < e.
Proof.
  destruct k as [[t' e]|]; simpl; [|done].
  destruct (Z.ltb_spec n e); intros [= <-]. eauto.
Qed.

Lemma srv_get_None k n t e : srv_get k n = None -> k = Some (mkKey t e) -> e <= n.
Proof. intros Hg ->. simpl in Hg. destruct (Z.ltb_spec n e); [done|lia]. Qed.

(** The key the server holds after a command that was sent still covers what a
    live caller was confirmed: a [SET] needs the key expired, a renewal extends
    its own key, and no release names a live caller. *)
Lemma covered_execute s c t sigma :
  Inv s -> c ∈ sent_cmds s -> live s t -> sigma <= now s ->
  covered s t sigma -> covered (execute ttl s c) t sigma.
Proof.
  intros I Hc Hl Hs [Hp|(e & Hkey & He)].
  { left. destruct c; unfold execute, srv_set_nx, RENEW_LUA, RELEASE_LUA;
      repeat case_match; simplify_eq; simpl; lia. }
  destruct c as [t'|t' a|t']; unfold execute, srv_set_nx, RENEW_LUA, RELEASE_LUA.
  - destruct (srv_get (key s) (now s)) as [t''|] eqn:Hg; simpl.
    + right. simpl. eauto.
    + left. simpl. pose proof (srv_get_None _ _ _ _ Hg Hkey). lia.
  - case_bool_decide as Hg; [|right; simpl; eauto].
    destruct (srv_get_Some _ _ _ Hg) as (e' & Hk' & _). rewrite Hkey in Hk'.
    injection Hk' as <- <-. right. simpl. eexists; split; [done|].
    unfold ttl_ns. lia.
  - case_bool_decide as Hg; [|right; simpl; eauto].
    destruct (srv_get_Some _ _ _ Hg) as (e' & Hk' & _). rewrite Hkey in Hk'.
    injection Hk' as <- <-. by destruct (inv_released s I t Hc).
Qed.

Lemma execute_fields s c :
  now (execute ttl s c) = now s /\ callers (execute ttl s c) = callers s
  /\ sent_cmds (execute ttl s c) = sent_cmds s.
Proof.
  destruct c; unfold execute, srv_set_nx, RENEW_LUA, RELEASE_LUA;
    repeat case_match; simplify_eq; auto.
Qed.

(** The replies that executing a command adds. *)
Lemma execute_replies s c r :
  r ∈ replies (execute ttl s c) ->
  r ∈ replies s
  \/ (exists t b, r = RSet t b /\ c = CSet t
        /\ (b = true -> key (execute ttl s c) = Some (mkKey t (now s + ttl_ns))))
  \/ (exists t a n, r = RRenew t a n /\ c = CRenew t a
        /\ (n = 1 -> key (execute ttl s c) = Some (mkKey t (now s + ttl_ns)))).
Proof.
  destruct c; unfold execute, srv_set_nx, RENEW_LUA, RELEASE_LUA;
    repeat case_match; simplify_eq; simpl; rewrite ?elem_of_cons; unfold ttl_ns;
    naive_solver.
Qed.

Lemma inv_execute s c : Inv s -> c ∈ sent_cmds s -> Inv (execute ttl s c).
Proof.
  intros I Hc. destruct (execute_fields s c) as (En & Ec & Es).
  assert (Hl : forall t, live (execute ttl s c) t <-> live s t).
  { intros t. unfold live. by rewrite Ec. }
  assert (Hnew : forall t sigma, sigma <= now s ->
    key (execute ttl s c) = Some (mkKey t (now s + ttl_ns)) ->
    covered (execute ttl s c) t sigma).
  { intros t sigma ? ?. right. eexists; split; [done|lia]. }
  split; rewrite ?En, ?Ec, ?Es; try (by destruct I).
  - intros t c' Ht. pose proof (inv_wf s I t c' Ht) as W.
    destruct c'; unfold wf_caller, wf_fence in *; rewrite ?En; done.
  - intros t b [?|[(t' & b' & ? & -> & _)|(t' & a & n & ? & _)]]%execute_replies;
      simplify_eq; [by eapply (inv_known s I)|by apply (inv_sent_known s I)].
  - intros t a n [?|[(t' & b' & ? & _)|(t' & a' & n' & ? & -> & _)]]%execute_replies;
      simplify_eq; [by eapply (inv_rrenew_known s I)|by apply (inv_renew_known s I)].
  - intros t Hr. rewrite Hl. by apply (inv_released s I).
  - intros t c' sigma Ht Hlc Hcc.
    assert (Hlive : live s t) by (by exists c').
    pose proof (inv_wf s I t c' Ht) as W.
    destruct c' as [sent|f r|]; simpl in Hcc; [destruct Hcc as [-> Hcc]|subst sigma|done].
    + simpl in W. apply execute_replies in Hcc as [Hcc|[(t' & b' & ? & -> & Hk)|(? & ? & ? & ? & _)]];
        simplify_eq; [|by apply Hnew; [lia|apply Hk]].
      apply covered_execute; try done; [lia|]. by eapply (inv_caller s I t _ _ Ht).
    + destruct W as [(? & ? & ? & _) _]. apply covered_execute; try done.
      by eapply (inv_caller s I t _ _ Ht).
  - intros t sigma Hr Hlive%Hl.
    apply execute_replies in Hr as [Hr|[(? & ? & ? & _)|(t' & a & n & ? & -> & Hk)]]; simplify_eq.
    + destruct (inv_rrenew_known s I t sigma 1 Hr).
      apply covered_execute; try done. by apply (inv_renewed s I).
    + destruct (inv_renew_known s I t' a Hc). by apply Hnew; [|apply Hk].
Qed.

Lemma not_live_Failed s t : ~ live (set_caller s t Failed) t.
Proof. intros [[_ H]|[H _]]%live_set_caller; done. Qed.

Lemma not_live_invalid s t f r : ~ live (set_caller s t (Held (invalidate f) r)) t.
Proof. intros [[_ H]|[H _]]%live_set_caller; done. Qed.

Lemma system_step_inv s e s' : Inv s -> step ttl s e = Some s' -> Inv s'.
Proof.
  intros I Hstep.
  destruct e as [d|t|t b|t b|t|t sent n|t|t|t|t|c]; cbn [step] in Hstep.
  - by eapply inv_pass.
  - by eapply inv_try_acquire.
  - case_bool_decide; [|done]. by eapply inv_acquired.
  - unfold acquire_failed in Hstep.
    destruct (callers s !! t) as [[sent| |]|] eqn:Ht; simplify_eq.
    assert (I' : Inv (set_caller s t Failed)) by (eapply inv_set_caller; by eauto).
    destruct b; [|done]. apply (inv_send _ t); [done| |left].
    + simpl. rewrite lookup_insert_eq. eauto.
    + split; [done|]. apply not_live_Failed.
  - unfold renew_tick in Hstep. destruct (callers s !! t) as [[|f []|]|] eqn:Ht; simplify_eq.
    change (now s) with (now (set_caller s t (Held f (Awaiting (now s))))) at 2.
    apply (inv_send _ t); [|by simpl; rewrite lookup_insert_eq; eauto|auto].
    destruct (inv_wf s I t _ Ht) as [W _]. pose proof (inv_now s I).
    eapply inv_set_caller; try eassumption; [simpl; split; [done|lia]|done|].
    intros sigma Hv Hs. by eapply (inv_caller s I t _ _ Ht).
  - case_bool_decide as Hr; [|done].
    destruct (callers s !! t) as [[|f [|sent'|]|]|] eqn:Ht; try done.
    destruct (Z.eqb_spec sent' sent) as [->|]; [|done].
    eapply inv_renew_outcome; [done| |done].
    intros f' a Ha [= ->]. rewrite Ht in Ha. by simplify_eq.
  - eapply inv_renew_outcome; [done| |done]. done.
  - by eapply inv_fence_check.
  - unfold release in Hstep. destruct (callers s !! t) as [[|f r|]|] eqn:Ht; simplify_eq.
    apply (inv_send _ t); [by eapply inv_invalidate|by simpl; rewrite lookup_insert_eq; eauto|].
    left. split; [done|]. apply not_live_invalid.
  - unfold drop_lease in Hstep. destruct (callers s !! t) as [[|f r|]|] eqn:Ht; simplify_eq.
    by eapply inv_invalidate.
  - case_bool_decide; [|done]. simplify_eq. by apply inv_execute.
Qed.

Lemma run_inv es : forall s s', Inv s -> run ttl s es = Some s' -> Inv s'.
Proof.
  induction es as [|e es IH]; simpl; intros s s' I Hrun; [by simplify_eq|].
  destruct (step ttl s e) as [s1|] eqn:Hs; [|done].
  eapply IH; [|done]. by eapply system_step_inv.
Qed.
End Invariant.

(** ** Exclusion *)

Lemma backstop_within_ttl ttl :
  from_millis 50 <= ttl -> as_millis ttl < 2 ^ 63 ->
  0 <= wrap64 (as_millis (backstop_for ttl)) <= ttl_ms_of ttl.
Proof.
  unfold from_millis, NANOS_PER_MILLI. intros H50 Hmax.
  assert (Hb : 0 <= backstop_for ttl <= ttl).
  { unfold backstop_for, from_millis, NANOS_PER_MILLI.
    pose proof (Z.div_pos ttl 3). lia. }
  assert (Hm : 0 <= as_millis (backstop_for ttl) <= as_millis ttl).
  { unfold as_millis, NANOS_PER_MILLI in *. split; [apply Z.div_pos; lia|].
    apply Z.div_le_mono; lia. }
  assert (H1 : 1 <= as_millis ttl).
  { unfold as_millis, NANOS_PER_MILLI. apply Z.div_le_lower_bound; lia. }
  assert (Ht : ttl_ms_of ttl = as_millis ttl).
  { unfold ttl_ms_of, as_i64. rewrite Z.max_l by lia. rewrite Z.mod_small; lia. }
  rewrite wrap64_id, Ht; [lia|]. unfold in_u64, u64_max. lia.
Qed.

(** A passing check proves that the watermark is younger than the backstop, in
    nanoseconds although it is taken in whole milliseconds. *)
Lemma check_ok_age f n :
  0 <= origin f -> 0 <= last_ok_millis f -> 0 <= n < max_instant ->
  is_ok (snd (check f n)) = true ->
  valid f = true
  /\ n < watermark f + from_millis (wrap64 (as_millis (backstop f))).
Proof.
  intros Ho Hl Hn. unfold check, check_at, saturating_duration_since, watermark.
  destruct (valid f); simpl; [|done].
  set (d := Z.max (n - origin f) 0).
  assert (Hd : 0 <= as_millis d < 2 ^ 64 /\ d < from_millis (as_millis d + 1)).
  { unfold max_instant, as_millis, from_millis, NANOS_PER_MILLI in *.
    pose proof (Z.div_pos d 1000000). pose proof (Z.mul_succ_div_gt d 1000000).
    assert (d / 1000000 < 2 ^ 64) by (apply Z.div_lt_upper_bound; lia). lia. }
  rewrite (wrap64_id (as_millis d)) by (unfold in_u64, u64_max; lia).
  destruct (Z.leb_spec (wrap64 (as_millis (backstop f))) (sat_sub (as_millis d) (last_ok_millis f)));
    simpl; [done|]. intros _. split; [done|].
  unfold sat_sub, from_millis, NANOS_PER_MILLI in *. lia.
Qed.

Lemma may_act_owns ttl s t :
  from_millis 50 <= ttl -> as_millis ttl < 2 ^ 63 ->
  Inv ttl s -> may_act s t = true -> srv_get (key s) (now s) = Some t.
Proof.
  intros H50 Hmax I. unfold may_act.
  destruct (callers s !! t) as [[|f r|]|] eqn:Ht; try done. intros Hok.
  destruct (inv_wf _ s I t _ Ht) as [(Ho & Hl & _ & Hb) _].
  destruct (check_ok_age f (now s) Ho Hl (inv_now _ s I) Hok) as [Hv Hage].
  rewrite Hb in Hage. pose proof (backstop_within_ttl ttl H50 Hmax).
  assert (C : covered ttl s t (watermark f)) by (eapply (inv_caller _ s I t _ _ Ht); done).
  unfold ttl_ns, from_millis, NANOS_PER_MILLI in *.
  destruct C as [C|(e & Hk & He)]; unfold ttl_ns, from_millis, NANOS_PER_MILLI in *; [lia|].
  rewrite Hk. simpl. destruct (Z.ltb_spec (now s) e); [done|lia].
Qed.

(** C5. Mutual exclusion of the Valkey lease.  For a time to live of at least 50
    milliseconds, in every state that any run reaches (callers acquiring, renewing,
    checking, releasing and being dropped; commands and replies delayed, lost or
    repeated; callers stalled for any time), a caller whose fence passes [check]
    owns the key on the server at that moment, so no two callers may act. *)
Theorem lease_mutual_exclusion ttl es s t1 t2 :
  from_millis 50 <= ttl -> as_millis ttl < 2 ^ 63 ->
  run ttl init_system es = Some s ->
  may_act s t1 = true -> may_act s t2 = true ->
  srv_get (key s) (now s) = Some t1 /\ t1 = t2.
Proof.
  intros H50 Hmax Hrun H1 H2.
  assert (I : Inv ttl s) by (eapply run_inv; [apply init_inv|done]).
  pose proof (may_act_owns ttl s t1 H50 Hmax I H1).
  pose proof (may_act_owns ttl s t2 H50 Hmax I H2). split; congruence.
Qed.

(** A takeover: the first holder is stalled past its expiry, a second caller
    acquires, and the renewal of the first arrives late. *)
Definition takeover (ttl : Z) : list Event :=
  [TryAcquire "a"; Pass 10; Execute (CSet "a"); Pass 10; Acquired "a" true; Check_ "a";
   Pass (ttl / 3); RenewTick "a"; Pass ttl; TryAcquire "b"; Execute (CSet "b");
   Acquired "b" true; Execute (CRenew "a" (20 + ttl / 3));
   RenewReply "a" (20 + ttl / 3) 0; Check_ "b"].

Lemma lease_mutual_exclusion_witness :
  exists s, run (from_secs 30) init_system (takeover (from_secs 30)) = Some s
    /\ may_act s "b" = true /\ may_act s "a" = false
    /\ srv_get (key s) (now s) = Some "b".
Proof.
  destruct (run (from_secs 30) init_system (takeover (from_secs 30))) as [s|] eqn:E;
    [|vm_compute in E; discriminate].
  assert (Hb : may_act s "b" = true).
  { vm_compute in E. injection E as <-. vm_compute. reflexivity. }
  assert (Ha : may_act s "a" = false).
  { vm_compute in E. injection E as <-. vm_compute. reflexivity. }
  exists s. split; [reflexivity|]. split; [exact Hb|]. split; [exact Ha|].
  eapply (lease_mutual_exclusion (from_secs 30) (takeover (from_secs 30)) s "b" "b");
    [vm_compute; discriminate|reflexivity|exact E|exact Hb|exact Hb].
Defined.

(** Below 50 milliseconds the floor of [backstop_for] exceeds the time to
    live, and the lease does not exclude: with 10 milliseconds there is a run in
    which two callers pass their checks in the same state. *)
Theorem short_ttl_does_not_exclude :
  exists es s, run (from_millis 10) init_system es = Some s
    /\ may_act s "a" = true /\ may_act s "b" = true
    /\ from_millis 10 < backstop_for (from_millis 10).
Proof.
  exists [TryAcquire "a"; Execute (CSet "a"); Acquired "a" true;
     Pass (from_millis 20); TryAcquire "b"; Execute (CSet "b"); Acquired "b" true].
  eexists. split; [vm_compute; reflexivity|]. vm_compute. done.
Qed.

(** ** The in-process provider *)

(** A guard: its key, the flag of its fence, and how many calls of [relinquish]
    are still due: [release] makes two, its own and the one of the drop that
    ends it. *)
Record LocalGuard := mkGuard { g_key : string; g_fence : bool; g_due : nat }.

Record Local := mkLocal { held : gset string; guards : gmap nat LocalGuard }.

Definition local_new : Local := mkLocal ∅ ∅.

Definition local_try_acquire (s : Local) (g : nat) (k : string) : option Local :=
  match guards s !! g with
  | Some _ => None
  | None =>
      if bool_decide (k ∈ held s) then Some s
      else Some (mkLocal ({[k]} ∪ held s) (<[g := mkGuard k true 2]> (guards s)))
  end.

Definition relinquish (s : Local) (g : nat) : option Local :=
  match guards s !! g with
  | Some (mkGuard k _ (S due)) =>
      Some (mkLocal (held s ∖ {[k]}) (<[g := mkGuard k false due]> (guards s)))
  | _ => None
  end.

(** [release]: [relinquish], then the drop of [self] at the end of the call. *)
Definition local_release (s : Local) (g : nat) : option Local :=
  match relinquish s g with Some s' => relinquish s' g | None => None end.

(** A guard that is dropped without a [release]: one [relinquish]. *)
Definition drop_guard (s : Local) (g : nat) : option Local :=
  match guards s !! g with
  | Some (mkGuard k _ 2) =>
      Some (mkLocal (held s ∖ {[k]}) (<[g := mkGuard k false 0]> (guards s)))
  | _ => None
  end.

(** [LRelinquish] is one half of a [release]; other steps may come between. *)
Inductive LocalEvent :=
| LAcquire (g : nat) (k : string)
| LRelinquish (g : nat)
| LRelease (g : nat)
| LDrop (g : nat).

Definition lstep (s : Local) (e : LocalEvent) : option Local :=
  match e with
  | LAcquire g k => local_try_acquire s g k
  | LRelinquish g => relinquish s g
  | LRelease g => local_release s g
  | LDrop g => drop_guard s g
  end.

Fixpoint lrun (s : Local) (es : list LocalEvent) : option Local :=
  match es with
  | [] => Some s
  | e :: es => match lstep s e with Some s' => lrun s' es | None => None end
  end.

(** The fence of guard [g] passes. *)
Definition local_check (s : Local) (g : nat) : bool :=
  match guards s !! g with Some gd => g_fence gd | None => false end.

Definition LInv (s : Local) : Prop :=
  (forall g gd, guards s !! g = Some gd -> g_fence gd = true ->
     g_key gd ∈ held s /\ g_due gd = 2%nat)
  /\ (forall g1 g2 gd1 gd2, guards s !! g1 = Some gd1 -> guards s !! g2 = Some gd2 ->
     g_fence gd1 = true -> g_fence gd2 = true -> g_key gd1 = g_key gd2 -> g1 = g2)
  /\ (forall g gd, guards s !! g = Some gd -> g_fence gd = false -> g_due gd = 0%nat).

(** No relinquish of its own: releases run to the end before the next step. *)
Definition whole_calls (es : list LocalEvent) : Prop :=
  forall g, LRelinquish g ∉ es.

Lemma linv_gone s g k due :
  LInv s -> guards s !! g = Some (mkGuard k true due) ->
  LInv (mkLocal (held s ∖ {[k]}) (<[g := mkGuard k false 0]> (guards s))).
Proof.
  intros (Hh & Hu & Hd) Hg. split_and!; simpl.
  - intros g' gd. rewrite lookup_insert_Some. intros [[<- <-]|[Hne Hg']] Hf; [done|].
    destruct (Hh g' gd); [done..|]. split; [|done].
    assert (g_key gd <> k) by (intros HK; eapply Hne, (Hu g g'); eauto).
    set_solver.
  - intros g1 g2 gd1 gd2. rewrite !lookup_insert_Some.
    intros [[<- <-]|[? H1]] [[<- <-]|[? H2]] F1 F2 HK; simpl in *; try done.
    by eapply Hu.
  - intros g' gd. rewrite lookup_insert_Some. intros [[<- <-]|[_ ?]]; naive_solver.
Qed.

Lemma linv_acquire s g k :
  LInv s -> guards s !! g = None -> k ∉ held s ->
  LInv (mkLocal ({[k]} ∪ held s) (<[g := mkGuard k true 2]> (guards s))).
Proof.
  intros (Hh & Hu & Hd) Hg Hk. split_and!; simpl.
  - intros g' gd. rewrite lookup_insert_Some. intros [[<- <-]|[_ ?]] Hf; simpl.
    + set_solver.
    + destruct (Hh g' gd); [done..|]. split; [set_solver|done].
  - intros g1 g2 gd1 gd2. rewrite !lookup_insert_Some.
    intros [[<- <-]|[? H1]] [[<- <-]|[? H2]] F1 F2 HK; simpl in *; try done.
    + destruct (Hh g2 gd2 H2 F2). by rewrite <- HK in *.
    + destruct (Hh g1 gd1 H1 F1). by rewrite HK in *.
    + by eapply Hu.
  - intros g' gd. rewrite lookup_insert_Some. intros [[<- <-]|[_ ?]]; naive_solver.
Qed.

Lemma lstep_inv s e s' :
  LInv s -> (forall g, e <> LRelinquish g) -> lstep s e = Some s' -> LInv s'.
Proof.
  intros I He Hs. pose proof I as (Hh & _ & Hd).
  destruct e as [g k|g|g|g]; simpl in Hs; [|by destruct (He g)| |].
  - unfold local_try_acquire in Hs. destruct (guards s !! g) eqn:Hg; [done|].
    case_bool_decide as Hk; simplify_eq; [done|by apply linv_acquire].
  - unfold local_release, relinquish in Hs.
    destruct (guards s !! g) as [[k f [|due]]|] eqn:Hg; simpl in Hs; try done.
    rewrite lookup_insert_eq in Hs. destruct f; [|by pose proof (Hd g _ Hg eq_refl)].
    destruct (Hh g _ Hg eq_refl) as [Hk Hdue]; simpl in *. injection Hdue as ->. simplify_eq.
    rewrite insert_insert_eq.
    replace (held s ∖ {[k]} ∖ {[k]}) with (held s ∖ {[k]}) by set_solver.
    by eapply linv_gone.
  - unfold drop_guard in Hs.
    destruct (guards s !! g) as [[k f [|[|[|]]]]|] eqn:Hg; simplify_eq.
    destruct f; [|by pose proof (Hd g _ Hg eq_refl)]. by eapply linv_gone.
Qed.

Lemma lrun_inv es : forall s s', LInv s -> whole_calls es -> lrun s es = Some s' -> LInv s'.
Proof.
  induction es as [|e es IH]; simpl; intros s s' I Hw Hrun; [by simplify_eq|].
  destruct (lstep s e) as [s1|] eqn:Hs; [|done]. eapply IH; [| |done].
  - eapply lstep_inv; [done| |done]. intros g ->. apply (Hw g). by left.
  - intros g Hg. apply (Hw g). by right.
Qed.

(** The in-process provider excludes as long as no other call runs inside a
    [release]: of the guards alive on one key at most one fence passes. *)
Theorem local_lease_exclusive es s g1 g2 :
  whole_calls es -> lrun local_new es = Some s ->
  local_check s g1 = true -> local_check s g2 = true ->
  (g_key <$> guards s !! g1) = (g_key <$> guards s !! g2) -> g1 = g2.
Proof.
  intros Hw Hrun H1 H2 HK.
  assert (I : LInv s).
  { eapply lrun_inv; [|done|done]. split_and!; simpl.
    - intros g gd. by rewrite lookup_empty.
    - intros g g' gd gd'. by rewrite !lookup_empty.
    - intros g gd. by rewrite lookup_empty. }
  unfold local_check in *. destruct I as (_ & Hu & _).
  destruct (guards s !! g1) eqn:E1, (guards s !! g2) eqn:E2; try done.
  injection HK as HK. by eapply Hu.
Qed.

Lemma local_lease_exclusive_witness :
  exists s, lrun local_new [LAcquire 1 "k"; LRelease 1; LAcquire 0 "k"; LDrop 0;
    LAcquire 2 "k"; LAcquire 3 "k"] = Some s
    /\ local_check s 2 = true /\ (2 = 2)%nat.
Proof.
  eexists. split; [vm_compute; reflexivity|]. split; [vm_compute; reflexivity|].
  eapply (local_lease_exclusive [LAcquire 1 "k"; LRelease 1; LAcquire 0 "k"; LDrop 0;
    LAcquire 2 "k"; LAcquire 3 "k"]);
    [|vm_compute; reflexivity|vm_compute; reflexivity..].
  intros g Hg. rewrite !elem_of_cons in Hg. naive_solver (by eapply not_elem_of_nil).
Defined.

(** C37. [release] relinquishes twice, and the second time removes a key that a
    caller between the two acquired: two guards of the same key then both pass. *)
Theorem local_release_frees_successor :
  exists es s, lrun local_new es = Some s
    /\ local_check s 2 = true /\ local_check s 3 = true
    /\ (g_key <$> guards s !! 2%nat) = (g_key <$> guards s !! 3%nat).
Proof.
  exists [LAcquire 1 "k"; LRelinquish 1; LAcquire 2 "k"; LRelinquish 1; LAcquire 3 "k"].
  eexists. split; [vm_compute; reflexivity|]. vm_compute. done.
Qed.
