(* ===== verification/Catalog.v ===== *)
(** * The block catalog (crates/catalog/src/lib.rs)

    The tables of the SQLite catalog and the statements of [Catalog]'s methods:
    which blocks are live, the lineage of compactions, the watermarks of the
    write-ahead log, poll cursors, the two deferred-deletion lists and the
    reconciliation with the bucket.  A table is a finite map by its primary key;
    a transaction that commits is a function of the tables.  Integer columns hold
    signed 64-bit values; a UUID column, printed by the code in lower case, has
    the order of the numbers and is modelled by the number. *)

From S2P Require Import Prelude Order Bytes Block Compaction Layout.
From Stdlib Require Import Sorting.Sorted.

Record Row := mkRow {
  c_bucket : string;
  c_signal : string;
  c_date : string;
  c_writer_id : Uuid;
  c_level : Z;
  c_ts_min : Z;
  c_ts_max : Z;
  c_row_count : Z;
  c_byte_size : Z;
  c_postings_size_bytes : option Z;
  c_has_postings : Z;
  c_body_bloom_size_bytes : option Z;
  c_has_body_bloom : Z;
  c_schema_version : Z;
  c_fingerprint : option bytes;
  c_superseded_by : option Uuid;
  c_superseded : bool;
  c_deleted_at : option Z;
  c_delete_eligible_at : option Z;
  c_reap_output_uuid : option Uuid;
  c_reap_eligible_at : option Z;
  c_wal_seg_max : option Z;
  c_wal_shard : option Z;
  c_meta_json_size_bytes : option Z;
}.

Record LineageRow := mkLineage { l_signal : string; l_date : string; l_observed_at : Z }.

(** [lineage] is keyed by ancestor and descendant, [watermarks] by writer, signal
    and shard, [cursors] by signal, writer and date. *)
Record Catalog := mkCatalog {
  cat_bucket : string;
  blocks : gmap Uuid Row;
  lineage : gmap (Uuid * Uuid) LineageRow;
  watermarks : gmap (Uuid * string * Z) Z;
  cursors : gmap (string * Uuid * string) Uuid;
  labels : gset (Uuid * string * string);
  warmed : gset Uuid;
}.

Definition empty_catalog (bucket : string) : Catalog := mkCatalog bucket ∅ ∅ ∅ ∅ ∅ ∅.

Definition set_blocks (c : Catalog) (b : gmap Uuid Row) : Catalog :=
  mkCatalog (cat_bucket c) b (lineage c) (watermarks c) (cursors c) (labels c) (warmed c).
Definition set_lineage (c : Catalog) (l : gmap (Uuid * Uuid) LineageRow) : Catalog :=
  mkCatalog (cat_bucket c) (blocks c) l (watermarks c) (cursors c) (labels c) (warmed c).
Definition set_watermarks (c : Catalog) (w : gmap (Uuid * string * Z) Z) : Catalog :=
  mkCatalog (cat_bucket c) (blocks c) (lineage c) w (cursors c) (labels c) (warmed c).
Definition set_cursors (c : Catalog) (k : gmap (string * Uuid * string) Uuid) : Catalog :=
  mkCatalog (cat_bucket c) (blocks c) (lineage c) (watermarks c) k (labels c) (warmed c).
Definition set_labels (c : Catalog) (l : gset (Uuid * string * string)) (w : gset Uuid) : Catalog :=
  mkCatalog (cat_bucket c) (blocks c) (lineage c) (watermarks c) (cursors c) l w.

(** [deleted_at IS NULL AND superseded = 0]. *)
Definition is_live (r : Row) : bool :=
  match c_deleted_at r with None => negb (c_superseded r) | Some _ => false end.

(** The update of the [superseded] columns in [apply_lineage_in]. *)
Definition row_superseded_by (d : Uuid) (r : Row) : Row :=
  mkRow (c_bucket r) (c_signal r) (c_date r) (c_writer_id r) (c_level r) (c_ts_min r)
    (c_ts_max r) (c_row_count r) (c_byte_size r) (c_postings_size_bytes r) (c_has_postings r)
    (c_body_bloom_size_bytes r) (c_has_body_bloom r) (c_schema_version r) (c_fingerprint r)
    (Some (default d (c_superseded_by r))) true
    (c_deleted_at r) (c_delete_eligible_at r) (c_reap_output_uuid r) (c_reap_eligible_at r)
    (c_wal_seg_max r) (c_wal_shard r) (c_meta_json_size_bytes r).

(** The update of [stage_superseded]. *)
Definition row_staged (merged : Uuid) (eligible : Z) (r : Row) : Row :=
  mkRow (c_bucket r) (c_signal r) (c_date r) (c_writer_id r) (c_level r) (c_ts_min r)
    (c_ts_max r) (c_row_count r) (c_byte_size r) (c_postings_size_bytes r) (c_has_postings r)
    (c_body_bloom_size_bytes r) (c_has_body_bloom r) (c_schema_version r) (c_fingerprint r)
    (Some merged) true (c_deleted_at r) (c_delete_eligible_at r)
    (Some merged) (Some (Z.max (default eligible (c_reap_eligible_at r)) eligible))
    (c_wal_seg_max r) (c_wal_shard r) (c_meta_json_size_bytes r).

(** The update of [stage_unstaged_superseded]. *)
Definition row_reap (eligible : Z) (r : Row) : Row :=
  mkRow (c_bucket r) (c_signal r) (c_date r) (c_writer_id r) (c_level r) (c_ts_min r)
    (c_ts_max r) (c_row_count r) (c_byte_size r) (c_postings_size_bytes r) (c_has_postings r)
    (c_body_bloom_size_bytes r) (c_has_body_bloom r) (c_schema_version r) (c_fingerprint r)
    (c_superseded_by r) (c_superseded r) (c_deleted_at r) (c_delete_eligible_at r)
    (match c_reap_output_uuid r with Some o => Some o | None => c_superseded_by r end)
    (Some (default eligible (c_reap_eligible_at r)))
    (c_wal_seg_max r) (c_wal_shard r) (c_meta_json_size_bytes r).

(** The updates of [mark_deleted] and [adopt_peer_deletion]. *)
Definition row_deleted (deleted_at eligible : Z) (r : Row) : Row :=
  mkRow (c_bucket r) (c_signal r) (c_date r) (c_writer_id r) (c_level r) (c_ts_min r)
    (c_ts_max r) (c_row_count r) (c_byte_size r) (c_postings_size_bytes r) (c_has_postings r)
    (c_body_bloom_size_bytes r) (c_has_body_bloom r) (c_schema_version r) (c_fingerprint r)
    (c_superseded_by r) (c_superseded r) (Some deleted_at) (Some eligible)
    (c_reap_output_uuid r) (c_reap_eligible_at r)
    (c_wal_seg_max r) (c_wal_shard r) (c_meta_json_size_bytes r).

Definition b2i (b : bool) : Z := if b then 1 else 0.

(** ** Writes *)

Section Catalog.
  (** Calendar dates of a Unix second (chrono) and the present date. *)
  Context (civil : Z -> option (string * string * string)) (today : string * string * string).

Definition format_date (ts_unix_nano : Z) : string :=
  let secs := as_i64 (ts_unix_nano / 1000000000) in
  let '(y, m, d) := default today (civil secs) in y +:+ "-" +:+ m +:+ "-" +:+ d.

(** [now] is [Utc::now()] as nanoseconds. *)
Definition apply_lineage_one (now : Z) (m : BlockMeta) (date : string) (c : Catalog)
    (ancestor : Uuid) : Catalog :=
  let c := match lineage c !! (ancestor, uuid m) with
           | Some _ => c
           | None => set_lineage c (<[(ancestor, uuid m) := mkLineage (signal m) date now]> (lineage c))
           end in
  if ancestor =? uuid m then c
  else set_blocks c (alter (row_superseded_by (uuid m)) ancestor (blocks c)).

Definition apply_lineage_in (now : Z) (c : Catalog) (m : BlockMeta) (date : string) : Catalog :=
  fold_left (apply_lineage_one now m date) (compacted_from m) c.

Definition advance_watermark_in (c : Catalog) (writer_id : Uuid) (signal : string)
    (shard seg_max : Z) : Catalog :=
  let seg := as_i64 seg_max in
  match watermarks c !! (writer_id, signal, shard) with
  | Some old => if old <? seg
                then set_watermarks c (<[(writer_id, signal, shard) := seg]> (watermarks c)) else c
  | None => set_watermarks c (<[(writer_id, signal, shard) := seg]> (watermarks c))
  end.

(** [EXISTS (SELECT 1 FROM block_lineage l JOIN blocks d ...)]. *)
Definition has_live_descendant (c : Catalog) (u : Uuid) : bool :=
  existsb (fun e : (Uuid * Uuid) * LineageRow =>
             (e.1.1 =? u) && match blocks c !! e.1.2 with Some d => is_live d | None => false end)
    (map_to_list (lineage c)).

Definition row_of_meta (bucket date : string) (superseded : bool) (m : BlockMeta) : Row :=
  mkRow bucket (signal m) date (writer_id m) (as_i64 (meta_level m))
    (as_i64 (ts_min_unix_nano m)) (as_i64 (ts_max_unix_nano m))
    (as_i64 (row_count m)) (as_i64 (byte_size m))
    (as_i64 <$> postings_size_bytes m) (b2i (has_postings m))
    (as_i64 <$> body_bloom_size_bytes m) (b2i (has_body_bloom m))
    (as_i64 (schema_version m)) (label_fingerprint_bloom m)
    None superseded None None None None
    (as_i64 <$> wal_seg_max m) (as_i64 <$> wal_shard m) (as_i64 <$> meta_json_size_bytes m).

Definition insert_block (now : Z) (c : Catalog) (m : BlockMeta) : Catalog * bool :=
  let date := format_date (ts_min_unix_nano m) in
  let '(c, inserted) :=
    match blocks c !! uuid m with
    | Some _ => (c, false)
    | None => (set_blocks c (<[uuid m := row_of_meta (cat_bucket c) date
                                 (has_live_descendant c (uuid m)) m]> (blocks c)), true)
    end in
  let c := match wal_seg_max m, wal_shard m with
           | Some seg, Some shard => advance_watermark_in c (writer_id m) (signal m) shard seg
           | _, _ => c
           end in
  (apply_lineage_in now c m date, inserted).

Definition advance_watermark (c : Catalog) (writer_id : Uuid) (signal : string)
    (shard seg_max : Z) : Catalog :=
  advance_watermark_in c writer_id signal shard seg_max.

Definition stage_superseded_one (merged : Uuid) (eligible : Z) (c : Catalog) (input : Uuid)
    : Catalog :=
  if input =? merged then c
  else set_blocks c (alter (row_staged merged (clamp_i64 eligible)) input (blocks c)).

Definition stage_superseded (c : Catalog) (inputs : list Uuid) (merged : Uuid) (eligible : Z)
    : Catalog :=
  fold_left (stage_superseded_one merged eligible) inputs c.

Definition mark_superseded (c : Catalog) (inputs : list Uuid) (merged : Uuid) : Catalog :=
  stage_superseded c inputs merged 0.

Definition apply_compaction (now : Z) (c : Catalog) (output : BlockMeta)
    (direct_inputs : list Uuid) (reap_eligible_at : Z) : Catalog * bool :=
  let '(c, inserted) := insert_block now c output in
  (stage_superseded c direct_inputs (uuid output) reap_eligible_at, inserted).

(** [superseded = 1 AND deleted_at IS NULL AND superseded_by IS NOT NULL AND
    reap_eligible_at IS NULL]. *)
Definition unstaged (r : Row) : bool :=
  c_superseded r && negb (bool_decide (is_Some (c_deleted_at r)))
    && bool_decide (is_Some (c_superseded_by r))
    && negb (bool_decide (is_Some (c_reap_eligible_at r))).

Definition stage_unstaged_superseded (c : Catalog) (eligible : Z) : Catalog * Z :=
  (set_blocks c ((fun r => if unstaged r then row_reap (clamp_i64 eligible) r else r) <$> blocks c),
   Z.of_nat (size (filter (fun p => unstaged p.2 = true) (blocks c)))).

Definition delete_blocks_one (c : Catalog) (u : Uuid) : Catalog :=
  let c := set_blocks c (delete u (blocks c)) in
  set_labels c (filter (fun p => p.1.1 <> u) (labels c)) (warmed c ∖ {[u]}).

Definition delete_blocks (c : Catalog) (uuids : list Uuid) : Catalog :=
  fold_left delete_blocks_one uuids c.

Definition mark_deleted_one (deleted_at eligible : Z) (c : Catalog) (u : Uuid) : Catalog :=
  set_blocks c (alter (fun r =>
    row_deleted (default (as_i64 deleted_at) (c_deleted_at r))
      (Z.max (default (clamp_i64 eligible) (c_delete_eligible_at r)) (clamp_i64 eligible)) r)
    u (blocks c)).

Definition mark_deleted (c : Catalog) (uuids : list Uuid) (deleted_at eligible : Z) : Catalog :=
  fold_left (mark_deleted_one deleted_at eligible) uuids c.

Definition adopt_one (deleted_at eligible : Z) (s : Catalog * Z) (u : Uuid) : Catalog * Z :=
  match blocks s.1 !! u with
  | Some r =>
      match c_deleted_at r with
      | None => (set_blocks s.1 (<[u := row_deleted (as_i64 deleted_at) (clamp_i64 eligible) r]>
                                   (blocks s.1)), s.2 + 1)
      | Some _ => s
      end
  | None => s
  end.

Definition adopt_peer_deletion (c : Catalog) (uuids : list Uuid) (deleted_at eligible : Z)
    : Catalog * Z :=
  fold_left (adopt_one deleted_at eligible) uuids (c, 0).

(** [Uuid::get_version_num], also [substr(text, 15, 1)]. *)
Definition get_version_num (u : Uuid) : Z := Z.land (Z.shiftr u 76) 15.
#[global] Arguments get_version_num : simpl never.

Definition advance_cursor (c : Catalog) (signal : string) (writer_id : Uuid) (date : string)
    (u : Uuid) : Catalog :=
  if negb (get_version_num u =? 7) then c
  else
    let upsert := set_cursors c (<[(signal, writer_id, date) := u]> (cursors c)) in
    match cursors c !! (signal, writer_id, date) with
    | None => upsert
    | Some old => if (old <? u) || negb (get_version_num old =? 7) then upsert else c
    end.

Definition prune_lineage_partition (c : Catalog) (signal date : string)
    (present_descendants : list Uuid) : Catalog * Z :=
  let stale := filter (fun p : (Uuid * Uuid) * LineageRow =>
    l_signal p.2 = signal /\ l_date p.2 = date /\ p.1.2 ∉ present_descendants) (lineage c) in
  (set_lineage c (lineage c ∖ stale), Z.of_nat (size stale)).

Definition upsert_block_labels (c : Catalog) (u : Uuid) (pairs : list (string * string))
    : Catalog :=
  set_labels c (labels c ∪ list_to_set (map (fun p => (u, p.1, p.2)) pairs)) ({[u]} ∪ warmed c).
End Catalog.

(** ** Reads *)

Definition row_to_entry (u : Uuid) (r : Row) : CatalogEntry :=
  mkEntry (mkMeta u (c_signal r) (c_writer_id r)
      (wrap64 (c_ts_min r)) (wrap64 (c_ts_max r)) (wrap64 (c_row_count r)) (wrap64 (c_byte_size r))
      (as_u32 (c_schema_version r)) (as_u32 (c_level r)) []
      "" (c_fingerprint r) (negb (c_has_postings r =? 0)) (wrap64 <$> c_postings_size_bytes r)
      None None (negb (c_has_body_bloom r =? 0)) (wrap64 <$> c_body_bloom_size_bytes r)
      (wrap64 <$> c_meta_json_size_bytes r) (wrap64 <$> c_wal_seg_max r) (as_u32 <$> c_wal_shard r))
    (c_bucket r) (c_date r) (as_u32 (c_level r)).

(** [SELECT ... FROM blocks WHERE p ORDER BY key]. *)
Definition select {K} `{Ord K} (p : Uuid -> Row -> bool) (key : Uuid -> Row -> K) (c : Catalog)
    : list (Uuid * Row) :=
  sort_by_key (fun e => key e.1 e.2)
    (List.filter (fun e => p e.1 e.2) (map_to_list (blocks c))).

Definition entries (rows : list (Uuid * Row)) : list CatalogEntry :=
  map (fun e => row_to_entry e.1 e.2) rows.

Definition live_rows (c : Catalog) : list (Uuid * Row) :=
  List.filter (fun e => is_live e.2) (map_to_list (blocks c)).

Definition list_blocks (c : Catalog) : list CatalogEntry :=
  entries (select (fun _ r => is_live r) (fun u r => ((c_date r, c_ts_min r), u)) c).

(** [LIMIT]: a negative limit is none. *)
Definition sql_limit {A} (limit : Z) (l : list A) : list A :=
  if limit <? 0 then l else take (Z.to_nat limit) l.

Definition get_block (c : Catalog) (u : Uuid) : option CatalogEntry :=
  row_to_entry u <$> blocks c !! u.

Definition known_block_uuids (c : Catalog) : gset Uuid := dom (blocks c).
Definition has_block (c : Catalog) (u : Uuid) : bool := bool_decide (is_Some (blocks c !! u)).
Definition block_count (c : Catalog) : Z := zlen (live_rows c).

Definition sum_of {A} (f : A -> Z) (l : list A) : Z := fold_right (fun x acc => f x + acc) 0 l.

(** [SUM] fails on a sum that is not a signed 64-bit integer. *)
Definition sql_sum (z : Z) : option Z := if (- 2 ^ 63 <=? z) && (z <=? i64_max) then Some z else None.

Definition live_row_count (c : Catalog) : option Z :=
  wrap64 <$> sql_sum (sum_of (fun e => c_row_count e.2) (live_rows c)).

Record GroupStats (K : Type) := mkStats { g_key : K; g_blocks : Z; g_rows : Z; g_bytes : Z }.
Arguments mkStats {K} _ _ _ _.
Arguments g_key {K} _.
Arguments g_blocks {K} _.
Arguments g_rows {K} _.
Arguments g_bytes {K} _.

(** [SELECT key, COUNT, SUM, SUM ... GROUP BY key ORDER BY key]. *)
Definition group_stats {K} `{Ord K} (key : Row -> K) (rows : list (Uuid * Row))
    : option (list (GroupStats K)) :=
  mapM (fun k =>
    let g := List.filter (fun e => match cmp (key e.2) k with Eq => true | _ => false end) rows in
    match sql_sum (sum_of (fun e => c_row_count e.2) g), sql_sum (sum_of (fun e => c_byte_size e.2) g) with
    | Some rs, Some bs => Some (mkStats k (zlen g) rs bs)
    | _, _ => None
    end)
    (bt_keys (fold_left (fun m e => bt_insert (key e.2) tt m) rows [])).

Record LiveBlockStats := mkLiveStats {
  s_blocks : Z; s_rows : Z; s_bytes : Z;
  by_level : list (GroupStats Z); by_signal : list (GroupStats string) }.

Definition stats_u64 {K} (g : GroupStats K) : GroupStats K :=
  mkStats (g_key g) (wrap64 (g_blocks g)) (wrap64 (g_rows g)) (wrap64 (g_bytes g)).

Definition live_block_stats (c : Catalog) : option LiveBlockStats :=
  match group_stats c_level (live_rows c), group_stats c_signal (live_rows c) with
  | Some levels, Some signals =>
      let levels := map stats_u64 levels in
      Some (mkLiveStats (sum_of g_blocks levels) (sum_of g_rows levels) (sum_of g_bytes levels)
              (map (fun g => mkStats (as_u32 (Z.max (g_key g) 0)) (g_blocks g) (g_rows g) (g_bytes g)) levels)
              (map stats_u64 signals))
  | _, _ => None
  end.

Definition lineage_row_count (c : Catalog) : Z := Z.of_nat (size (lineage c)).

Record PendingReap := mkReap { reap_entry : CatalogEntry; output_uuid : Uuid; eligible_at : Z }.

Definition reap_due (now : Z) (r : Row) : bool :=
  c_superseded r
  && match c_reap_eligible_at r, c_reap_output_uuid r with
     | Some t, Some _ => t <=? clamp_i64 now
     | _, _ => false
     end.

Definition list_pending_reaps (c : Catalog) (now : Z) : list PendingReap :=
  map (fun e => mkReap (row_to_entry e.1 e.2) (default 0 (c_reap_output_uuid e.2))
                  (wrap64 (default 0 (c_reap_eligible_at e.2))))
    (select (fun _ r => reap_due now r)
       (fun u r => ((default 0 (c_reap_eligible_at r), c_date r), u)) c).

Definition deletion_due (now : Z) (r : Row) : bool :=
  match c_deleted_at r, c_delete_eligible_at r with
  | Some _, Some t => t <=? clamp_i64 now
  | _, _ => false
  end.

Definition list_pending_deletions (c : Catalog) (now : Z) : list CatalogEntry :=
  entries (select (fun _ r => deletion_due now r)
    (fun u r => ((default 0 (c_delete_eligible_at r), c_date r), u)) c).

Definition list_staged_deletions (c : Catalog) : list (Uuid * string * Z * Z) :=
  omap (fun e => match c_deleted_at e.2, c_delete_eligible_at e.2 with
                 | Some d, Some t => Some (e.1, c_signal e.2, wrap64 d, wrap64 t)
                 | _, _ => None
                 end)
    (select (fun _ r => bool_decide (is_Some (c_deleted_at r)) && bool_decide (is_Some (c_delete_eligible_at r)))
       (fun u r => (c_signal r, default 0 (c_delete_eligible_at r))) c).

Definition list_watermarks (c : Catalog) (signal : string) : list (Uuid * Z * Z) :=
  omap (fun e : (Uuid * string * Z) * Z =>
          if (e.1.1.2 =? signal)%string then Some (e.1.1.1, as_u32 e.1.2, wrap64 e.2) else None)
    (map_to_list (watermarks c)).

Definition get_watermark (c : Catalog) (writer_id : Uuid) (signal : string) (shard : Z) : option Z :=
  wrap64 <$> watermarks c !! (writer_id, signal, shard).

Definition get_cursor (c : Catalog) (signal : string) (writer_id : Uuid) (date : string)
    : option Uuid := cursors c !! (signal, writer_id, date).
Definition list_cursor_heads (c : Catalog) : list ((string * Uuid * string) * Uuid) :=
  map_to_list (cursors c).
Definition list_cursors (c : Catalog) : list (string * Uuid * string) :=
  map fst (map_to_list (cursors c)).

(** The recursive common table expression of [resolve_terminal]: the rows of
    [block_lineage] that extend the set, until nothing is added. *)
Definition lineage_step (c : Catalog) (s : gset Uuid) : gset Uuid :=
  s ∪ list_to_set (omap (fun e : (Uuid * Uuid) * LineageRow =>
                           if bool_decide (e.1.1 ∈ s) then Some e.1.2 else None)
                     (map_to_list (lineage c))).

Fixpoint lineage_closure (fuel : nat) (c : Catalog) (s : gset Uuid) : gset Uuid :=
  match fuel with
  | O => s
  | S fuel =>
      let s' := lineage_step c s in
      if bool_decide (s' = s) then s else lineage_closure fuel c s'
  end.

Definition descendants (c : Catalog) (u : Uuid) : gset Uuid :=
  lineage_closure (S (size (lineage c))) c
    (list_to_set (omap (fun e : (Uuid * Uuid) * LineageRow =>
                          if e.1.1 =? u then Some e.1.2 else None)
                    (map_to_list (lineage c)))).

Inductive TerminalResolution :=
| Unique (u : Uuid)
| NoTerminal
| Fork (us : list Uuid).

Definition live_uuid (c : Catalog) (u : Uuid) : bool :=
  match blocks c !! u with Some r => is_live r | None => false end.

Definition resolve_terminal (c : Catalog) (u : Uuid) : TerminalResolution :=
  match sort_by_key (fun x : Z => x) (List.filter (live_uuid c) (elements (descendants c u))) with
  | [] => if live_uuid c u then Unique u else NoTerminal
  | [only] => Unique only
  | ids => Fork ids
  end.

(** ** The label cache *)

Definition warmed_blocks (c : Catalog) (candidates : list Uuid) : gset Uuid :=
  list_to_set (List.filter (fun u => bool_decide (u ∈ warmed c)) candidates).

Definition list_unwarmed_postings_blocks (c : Catalog) (signal : string)
    (ts_min ts_max : option Z) (limit : Z) : list CatalogEntry :=
  if limit =? 0 then []
  else
    entries (sql_limit (clamp_i64 limit)
      (select (fun u r =>
         (c_signal r =? signal)%string && is_live r && (c_has_postings r =? 1)
         && match ts_min with Some t => clamp_i64 t <=? c_ts_max r | None => true end
         && match ts_max with Some t => c_ts_min r <=? clamp_i64 t | None => true end
         && negb (bool_decide (u ∈ warmed c)))
       (fun u r => ((- c_ts_max r, - c_ts_min r), - u)) c)).

Definition label_pairs_of (c : Catalog) (u : Uuid) : list (string * string) :=
  sort_by_key (fun p : string * string => p)
    (omap (fun t : Uuid * string * string => if t.1.1 =? u then Some (t.1.2, t.2) else None)
       (elements (labels c))).

Definition load_block_label_pairs (c : Catalog) (signal : string) (us : list Uuid)
    : list (Uuid * string * string) :=
  flat_map (fun u =>
    match blocks c !! u with
    | Some r => if bool_decide (u ∈ warmed c) && (c_signal r =? signal)%string && is_live r
                then map (fun p => (u, p.1, p.2)) (label_pairs_of c u) else []
    | None => []
    end) us.

(** [SELECT DISTINCT ... ORDER BY]: the keys of an ordered set. *)
Definition distinct_sorted (l : list string) : list string :=
  bt_keys (fold_left (fun m x => bt_insert x tt m) l []).

Definition distinct_label_names (c : Catalog) (us : list Uuid) : list string :=
  distinct_sorted (omap (fun t : Uuid * string * string =>
    if bool_decide (t.1.1 ∈ us) then Some t.1.2 else None) (elements (labels c))).

Definition distinct_label_values (c : Catalog) (name : string) (us : list Uuid) : list string :=
  distinct_sorted (omap (fun t : Uuid * string * string =>
    if (t.1.2 =? name)%string && bool_decide (t.1.1 ∈ us) then Some t.2 else None)
    (elements (labels c))).

(** ** Pages of source blocks *)

Section Pages.
  Context (uuid_str : Uuid -> string).

Definition list_source_blocks (c : Catalog) (sig : string) (version : Z)
    (after_cursor : option string) (limit : Z) : list CatalogEntry :=
  let cursor := default "" after_cursor in
  entries (sql_limit (as_i64 limit)
    (select (fun u r => is_live r && (c_signal r =? sig)%string && (c_schema_version r =? as_i64 version)
                && cmp_ltb cursor (c_date r +:+ "/" +:+ uuid_str u))
       (fun u r => (c_date r, u)) c)).
End Pages.

(** ** Reconciliation with the bucket *)

Record ReconcileReport := mkReport {
  seen : Z; inserted : Z; already_present : Z; failed : Z; unapplied : Z }.

Definition is_complete (r : ReconcileReport) : bool := unapplied r =? 0.

Inductive ReconcileError := ListingFailed | Incomplete (unapplied : Z).

Definition ensure_complete (r : ReconcileReport) : result ReconcileError unit :=
  ensure! is_complete r else Incomplete (unapplied r) in Ok tt.

Fixpoint ends_with (s suffix : string) : bool :=
  (s =? suffix)%string || match s with EmptyString => false | String _ s => ends_with s suffix end.

Section Reconcile.
  Context (civil : Z -> option (string * string * string)) (today : string * string * string).
  (** The sidecar parser, the answer of the store to a [GET], and whether
      SQLite commits the insertion (a failed transaction changes nothing). *)
  Context (from_slice : bytes -> option BlockMeta) (store_get : string -> result StoreError bytes).
  Context (commits : BlockMeta -> bool) (now : Z).

Definition with_json_size (m : BlockMeta) (n : Z) : BlockMeta :=
  mkMeta (uuid m) (signal m) (writer_id m) (ts_min_unix_nano m) (ts_max_unix_nano m) (row_count m)
    (byte_size m) (schema_version m) (meta_level m) (compacted_from m) (producer_version m)
    (label_fingerprint_bloom m) (has_postings m) (postings_size_bytes m) (series_types m)
    (all_fingerprints m) (has_body_bloom m) (body_bloom_size_bytes m) (Some n)
    (wal_seg_max m) (wal_shard m).

(** One listed object. *)
Definition reconcile_object (c : Catalog) (r : ReconcileReport) (path : string)
    : Catalog * ReconcileReport :=
  if is_reserved_control_key path then (c, r)
  else if negb (ends_with path ".meta.json") then (c, r)
  else
    let r := mkReport (seen r + 1) (inserted r) (already_present r) (failed r) (unapplied r) in
    match store_get path with
    | Err NotFound => (c, r)
    | Err _ => (c, mkReport (seen r) (inserted r) (already_present r) (failed r) (unapplied r + 1))
    | Ok b =>
        match from_slice b with
        | None => (c, mkReport (seen r) (inserted r) (already_present r) (failed r + 1) (unapplied r))
        | Some m =>
            let m := with_json_size m (zlen b) in
            if commits m then
              match insert_block civil today now c m with
              | (c, true) => (c, mkReport (seen r) (inserted r + 1) (already_present r) (failed r) (unapplied r))
              | (c, false) => (c, mkReport (seen r) (inserted r) (already_present r + 1) (failed r) (unapplied r))
              end
            else (c, mkReport (seen r) (inserted r) (already_present r) (failed r) (unapplied r + 1))
        end
    end.

(** The listing stream: paths, or the error that ends it. *)
Fixpoint reconcile_loop (c : Catalog) (r : ReconcileReport) (listing : list (result StoreError string))
    : Catalog * result ReconcileError ReconcileReport :=
  match listing with
  | [] => (c, Ok r)
  | Err _ :: _ => (c, Err ListingFailed)
  | Ok path :: listing =>
      let '(c, r) := reconcile_object c r path in reconcile_loop c r listing
  end.

Definition reconcile_from_bucket (c : Catalog) (listing : list (result StoreError string))
    : Catalog * result ReconcileError ReconcileReport :=
  reconcile_loop c (mkReport 0 0 0 0 0) listing.
End Reconcile.

(** ** What an insertion does to each table *)

Create HintDb catalog.

Definition edge (c : Catalog) (a d : Uuid) : Prop := is_Some (lineage c !! (a, d)).
Definition live (c : Catalog) (u : Uuid) : Prop := live_uuid c u = true.

#[global] Instance live_dec c u : Decision (live c u).
Proof. unfold live. apply _. Defined.

Lemma live_spec c u : live c u <-> exists r, blocks c !! u = Some r /\ is_live r = true.
Proof. unfold live, live_uuid. destruct (blocks c !! u); naive_solver. Qed.

Lemma row_superseded_by_idemp d r :
  row_superseded_by d (row_superseded_by d r) = row_superseded_by d r.
Proof. reflexivity. Qed.

Lemma row_superseded_not_live d r : is_live (row_superseded_by d r) = false.
Proof. unfold is_live; simpl. by case_match. Qed.

Lemma apply_lineage_one_blocks now m date c a u :
  blocks (apply_lineage_one now m date c a) !! u =
  if bool_decide (u = a /\ u <> uuid m) then row_superseded_by (uuid m) <$> blocks c !! u
  else blocks c !! u.
Proof.
  unfold apply_lineage_one. set (c' := match lineage c !! _ with Some _ => c | None => _ end).
  assert (Hb : blocks c' = blocks c) by (subst c'; by case_match).
  destruct (Z.eqb_spec a (uuid m)) as [->|Hne].
  - rewrite bool_decide_eq_false_2 by naive_solver. by rewrite Hb.
  - simpl. rewrite Hb. destruct (decide (u = a)) as [->|Hua].
    + rewrite bool_decide_eq_true_2 by done. by rewrite lookup_alter_eq.
    + rewrite bool_decide_eq_false_2 by naive_solver. by rewrite lookup_alter_ne.
Qed.

Lemma apply_lineage_blocks now m date l : forall c u,
  blocks (fold_left (apply_lineage_one now m date) l c) !! u =
  if bool_decide (u ∈ l /\ u <> uuid m) then row_superseded_by (uuid m) <$> blocks c !! u
  else blocks c !! u.
Proof.
  induction l as [|a l IH]; intros c u; cbn [fold_left].
  { rewrite bool_decide_eq_false_2; [done|]. intros [?%elem_of_nil _]; done. }
  rewrite IH, apply_lineage_one_blocks.
  repeat case_bool_decide; rewrite ?elem_of_cons in *; try naive_solver.
  destruct (blocks c !! u); simpl; by rewrite ?row_superseded_by_idemp.
Qed.

Lemma apply_lineage_edges now m date l : forall c a d,
  edge (fold_left (apply_lineage_one now m date) l c) a d <->
  edge c a d \/ (d = uuid m /\ a ∈ l).
Proof.
  induction l as [|x l IH]; intros c a d; simpl.
  { split; [by left|]. intros [?|[_ ?%elem_of_nil]]; done. }
  rewrite IH, elem_of_cons.
  assert (Hone : edge (apply_lineage_one now m date c x) a d <->
                 edge c a d \/ (d = uuid m /\ a = x)).
  { unfold apply_lineage_one, edge.
    assert (Hl : forall c', lineage (if x =? uuid m then c' else
        set_blocks c' (alter (row_superseded_by (uuid m)) x (blocks c'))) = lineage c')
      by (intros c'; by case_match).
    rewrite Hl. destruct (lineage c !! (x, uuid m)) eqn:E.
    - split; [by left|]. intros [?|[-> ->]]; [done|]. eauto.
    - simpl. rewrite lookup_insert_is_Some. split.
      + intros [[= <- <-]|[_ ?]]; naive_solver.
      + intros [Hs|[-> ->]]; [|by left].
        destruct (decide ((x, uuid m) = (a, d))); [by left|by right]. }
  rewrite Hone. naive_solver.
Qed.

(** The tables an insertion's lineage step leaves alone. *)
Lemma apply_lineage_other now m date l : forall c,
  let c' := fold_left (apply_lineage_one now m date) l c in
  watermarks c' = watermarks c /\ cursors c' = cursors c /\ cat_bucket c' = cat_bucket c
  /\ labels c' = labels c /\ warmed c' = warmed c.
Proof.
  induction l as [|a l IH]; intros c; simpl; [done|].
  destruct (IH (apply_lineage_one now m date c a)) as (-> & -> & -> & -> & ->).
  unfold apply_lineage_one. by repeat case_match.
Qed.

Lemma advance_watermark_other c w s sh g :
  let c' := advance_watermark_in c w s sh g in
  blocks c' = blocks c /\ lineage c' = lineage c /\ cursors c' = cursors c
  /\ cat_bucket c' = cat_bucket c /\ labels c' = labels c /\ warmed c' = warmed c.
Proof. unfold advance_watermark_in; simpl. by repeat case_match. Qed.

Section InsertFacts.
  Context (civil : Z -> option (string * string * string)) (today : string * string * string).

Definition new_row (c : Catalog) (m : BlockMeta) : Row :=
  row_of_meta (cat_bucket c) (format_date civil today (ts_min_unix_nano m))
    (has_live_descendant c (uuid m)) m.

Lemma insert_block_lookup now c m u :
  blocks (insert_block civil today now c m).1 !! u =
  (if bool_decide (u ∈ compacted_from m /\ u <> uuid m) then fmap (row_superseded_by (uuid m)) else id)
    (if bool_decide (u = uuid m) then Some (default (new_row c m) (blocks c !! u))
     else blocks c !! u).
Proof.
  unfold insert_block, apply_lineage_in.
  set (p := match blocks c !! uuid m with Some _ => _ | None => _ end).
  assert (Hp : forall u, blocks p.1 !! u =
    if bool_decide (u = uuid m) then Some (default (new_row c m) (blocks c !! u)) else blocks c !! u).
  { intros v. subst p. destruct (blocks c !! uuid m) eqn:E; simpl; case_bool_decide; subst.
    - by rewrite E.
    - done.
    - by rewrite lookup_insert_eq, E.
    - by rewrite lookup_insert_ne. }
  destruct p as [c1 b]; simpl in *. rewrite apply_lineage_blocks.
  assert (Hw : forall v, blocks (match wal_seg_max m, wal_shard m with
     | Some seg, Some shard => advance_watermark_in c1 (writer_id m) (signal m) shard seg
     | _, _ => c1 end) !! v = blocks c1 !! v).
  { intros v. destruct (wal_seg_max m), (wal_shard m); try done.
    by rewrite (proj1 (advance_watermark_other _ _ _ _ _)). }
  rewrite Hw, Hp. by case_bool_decide.
Qed.

Lemma insert_block_edges now c m a d :
  edge (insert_block civil today now c m).1 a d <-> edge c a d \/ (d = uuid m /\ a ∈ compacted_from m).
Proof.
  unfold insert_block, apply_lineage_in.
  set (p := match blocks c !! uuid m with Some _ => _ | None => _ end).
  assert (Hp : lineage p.1 = lineage c) by (subst p; by case_match).
  destruct p as [c1 b]; simpl in *. rewrite apply_lineage_edges. unfold edge.
  destruct (wal_seg_max m), (wal_shard m); rewrite ?Hp; try done.
  by rewrite (proj1 (proj2 (advance_watermark_other _ _ _ _ _))), Hp.
Qed.

Lemma insert_block_bucket now c m : cat_bucket (insert_block civil today now c m).1 = cat_bucket c.
Proof.
  unfold insert_block, apply_lineage_in.
  set (p := match blocks c !! uuid m with Some _ => _ | None => _ end).
  assert (Hp : cat_bucket p.1 = cat_bucket c) by (subst p; by case_match).
  destruct p as [c1 b]; simpl in *.
  destruct (apply_lineage_other now m (format_date civil today (ts_min_unix_nano m)) (compacted_from m)
    (match wal_seg_max m, wal_shard m with
     | Some seg, Some shard => advance_watermark_in c1 (writer_id m) (signal m) shard seg
     | _, _ => c1 end)) as (_ & _ & -> & _).
  destruct (wal_seg_max m), (wal_shard m); rewrite ?Hp; try done.
  destruct (advance_watermark_other c1 (writer_id m) (signal m) z0 z) as (_ & _ & _ & -> & _). done.
Qed.

Lemma has_live_descendant_spec c u :
  has_live_descendant c u = true <-> exists d, edge c u d /\ live c d.
Proof.
  unfold has_live_descendant. rewrite existsb_exists. split.
  - intros ([[a d] lr] & Hin & Hb); simpl in Hb. apply andb_true_iff in Hb as [->%Z.eqb_eq Hl].
    exists d. apply list_elem_of_In, elem_of_map_to_list in Hin. split; [by exists lr|done].
  - intros (d & [lr Hlr] & Hl). exists ((u, d), lr). split.
    + by apply list_elem_of_In, elem_of_map_to_list.
    + simpl. rewrite Z.eqb_refl. exact Hl.
Qed.

Lemma new_row_live c m : is_live (new_row c m) = negb (has_live_descendant c (uuid m)).
Proof. done. Qed.
End InsertFacts.
