(* ===== verification/CatalogFacts.v ===== *)
(** * Properties of the block catalog

    The live set as a function of the inserted sidecars, and what any run of the
    operations of [Catalog] keeps: no double counting, no resurrection, grace
    periods, exact watermarks, monotone cursors, conserved row counts, and the
    account that reconciliation gives of a listing. *)

From S2P Require Import Prelude Order Bytes Block Compaction Layout Catalog.
From Stdlib Require Import Sorting.Sorted.

(** ** The live set as a function of the sidecars *)

Section LiveSet.
  Context (civil : Z -> option (string * string * string)) (today : string * string * string).

(** Insert a sequence of sidecars, each at its own time. *)
Definition insert_all (c : Catalog) (ms : list (Z * BlockMeta)) : Catalog :=
  fold_left (fun c p => (insert_block civil today p.1 c p.2).1) ms c.

(** What compaction guarantees of the sidecars of a bucket: immutable (the UUID
    determines the block), no block among its own ancestors, and ancestries
    transitively closed. *)
Record sound_sidecars (ms : list BlockMeta) : Prop := {
  ss_uuid : forall m m', m ∈ ms -> m' ∈ ms -> uuid m = uuid m' -> m = m';
  ss_irrefl : forall m, m ∈ ms -> uuid m ∉ compacted_from m;
  ss_trans : forall m m', m ∈ ms -> m' ∈ ms -> uuid m ∈ compacted_from m' ->
    forall a, a ∈ compacted_from m -> a ∈ compacted_from m';
}.

(** The block is no ancestor of another. *)
Definition terminal (ms : list BlockMeta) (u : Uuid) : Prop :=
  forall m, m ∈ ms -> u ∉ compacted_from m.

(** Of the blocks that claim [u] one is itself unclaimed. *)
Lemma maximal_descendant all ms u :
  sound_sidecars all -> (forall m, m ∈ ms -> m ∈ all) ->
  (exists m, m ∈ ms /\ u ∈ compacted_from m) ->
  exists m, m ∈ ms /\ u ∈ compacted_from m /\ terminal ms (uuid m).
Proof.
  intros S. induction ms as [|x ms IH]; intros Hsub [m [Hm Hu]]; [by apply elem_of_nil in Hm|].
  assert (Hx : x ∈ all) by (apply Hsub; by left).
  assert (Hsub' : forall m, m ∈ ms -> m ∈ all) by (intros; apply Hsub; by right).
  destruct (decide (Exists (fun m => u ∈ compacted_from m) ms)) as [He|Hno].
  - apply List.Exists_exists in He as (m1 & H1 & Hu1).
    destruct (IH Hsub') as (m2 & H2 & Hu2 & Ht); [exists m1; by rewrite list_elem_of_In|].
    destruct (decide (uuid m2 ∈ compacted_from x)) as [Hd|Hd].
    + exists x. split; [by left|]. split; [eapply (ss_trans all S m2); eauto|].
      intros m3 [->|H3]%elem_of_cons; [by apply (ss_irrefl all S)|].
      intros Hd3. apply (Ht m3 H3). eapply (ss_trans all S x m3); eauto.
    + exists m2. split; [by right|]. split; [done|].
      intros m3 [->|H3]%elem_of_cons; [done|by apply Ht].
  - assert (Hno' : forall m, m ∈ ms -> u ∉ compacted_from m).
    { intros m' Hm' Hu'. apply Hno, List.Exists_exists. exists m'. by rewrite <- list_elem_of_In. }
    apply elem_of_cons in Hm as [->|Hm]; [|by destruct (Hno' m Hm)].
    exists x. split; [by left|]. split; [done|].
    intros m3 [->|H3]%elem_of_cons; [by apply (ss_irrefl all S)|].
    intros Hd. apply (Hno' m3 H3). eapply (ss_trans all S x m3); eauto.
Qed.

(** The catalog holds exactly [ms]: a row per block, superseded where claimed,
    and the unclaimed rows are those of their sidecars. *)
Record holds (c : Catalog) (ms : list BlockMeta) : Prop := {
  h_dom : forall u, is_Some (blocks c !! u) <-> exists m, m ∈ ms /\ uuid m = u;
  h_sup : forall u r, blocks c !! u = Some r ->
    (c_superseded r = true <-> ~ terminal ms u);
  h_row : forall u r, blocks c !! u = Some r ->
    c_deleted_at r = None /\
    (c_superseded r = false -> exists m, m ∈ ms /\ uuid m = u /\
       r = row_of_meta (cat_bucket c) (format_date civil today (ts_min_unix_nano m)) false m);
  h_edge : forall a d, edge c a d <-> exists m, m ∈ ms /\ uuid m = d /\ a ∈ compacted_from m;
}.

#[global] Instance terminal_dec ms u : Decision (terminal ms u).
Proof.
  destruct (decide (Forall (fun m => u ∉ compacted_from m) ms)) as [Hf|Hf].
  - left. intros m Hm. rewrite List.Forall_forall in Hf. by apply Hf, list_elem_of_In.
  - right. intros Ht. apply Hf, List.Forall_forall. intros m Hm. by apply Ht, list_elem_of_In.
Defined.

Lemma not_terminal ms u : ~ terminal ms u <-> exists m, m ∈ ms /\ u ∈ compacted_from m.
Proof.
  split.
  - intros Hn. destruct (decide (Exists (fun m => u ∈ compacted_from m) ms)) as [He|Hne].
    + apply List.Exists_exists in He as (m & Hm & Hu). exists m. by rewrite list_elem_of_In.
    + destruct Hn. intros m Hm Hu. apply Hne, List.Exists_exists. exists m. by rewrite <- list_elem_of_In.
  - intros (m & Hm & Hu) Ht. by apply (Ht m).
Qed.

Lemma terminal_app ms m u :
  terminal (ms ++ [m]) u <-> terminal ms u /\ u ∉ compacted_from m.
Proof.
  unfold terminal. split.
  - intros Ht. split; [intros m' ?|]; apply Ht; set_solver.
  - intros [H1 H2] m' [?|?%list_elem_of_singleton]%elem_of_app; subst; auto.
Qed.

Lemma holds_live c ms u : holds c ms ->
  live c u <-> (exists m, m ∈ ms /\ uuid m = u) /\ terminal ms u.
Proof.
  intros Hh. rewrite live_spec, <- (h_dom c ms Hh). split.
  - intros (r & Hr & Hl). split; [by eexists|]. unfold is_live in Hl.
    rewrite (proj1 (h_row c ms Hh u r Hr)) in Hl. apply negb_true_iff in Hl.
    destruct (decide (terminal ms u)) as [|Hn]; [done|].
    apply (h_sup c ms Hh u r Hr) in Hn. congruence.
  - intros [[r Hr] Ht]. exists r. split; [done|]. unfold is_live.
    rewrite (proj1 (h_row c ms Hh u r Hr)). apply negb_true_iff.
    destruct (c_superseded r) eqn:E; [|done]. by apply (h_sup c ms Hh u r Hr) in E.
Qed.

(** A block inserted late is hidden exactly when it is claimed. *)
Lemma holds_flag c all ms m :
  sound_sidecars all -> (forall m, m ∈ ms -> m ∈ all) -> m ∈ all -> holds c ms ->
  has_live_descendant c (uuid m) = true <-> ~ terminal ms (uuid m).
Proof.
  intros S Hsub Hm Hh. rewrite has_live_descendant_spec, not_terminal. split.
  - intros (d & He & _). apply (h_edge c ms Hh) in He as (m' & ? & _ & ?). eauto.
  - intros Hex. destruct (maximal_descendant all ms (uuid m) S Hsub Hex) as (m' & Hm' & Hu & Ht).
    exists (uuid m'). split; [apply (h_edge c ms Hh); eauto|]. apply (holds_live c ms); eauto.
Qed.

Lemma holds_insert now c all ms m :
  sound_sidecars all -> (forall m, m ∈ ms -> m ∈ all) -> m ∈ all -> holds c ms ->
  holds (insert_block civil today now c m).1 (ms ++ [m]).
Proof.
  intros S Hsub Hm Hh. pose proof (ss_irrefl all S m Hm) as Hirr.
  split.
  - intros u. rewrite insert_block_lookup. transitivity (u = uuid m \/ is_Some (blocks c !! u)).
    + repeat case_bool_decide; simpl; rewrite ?fmap_is_Some; naive_solver.
    + rewrite (h_dom c ms Hh). set_solver.
  - intros u r. rewrite insert_block_lookup, terminal_app.
    destruct (decide (u ∈ compacted_from m)) as [Hf|Hf].
    + assert (u <> uuid m) by congruence.
      rewrite bool_decide_eq_true_2, bool_decide_eq_false_2 by done.
      destruct (blocks c !! u) as [r0|]; simpl; [|done]. intros [= <-]. simpl. naive_solver.
    + rewrite bool_decide_eq_false_2 by naive_solver. simpl. case_bool_decide as Hu.
      * subst u. destruct (blocks c !! uuid m) as [r0|] eqn:E; simpl; intros [= <-].
        -- rewrite (h_sup c ms Hh _ _ E). naive_solver.
        -- simpl. rewrite (holds_flag c all ms m) by done. naive_solver.
      * intros Hr. rewrite (h_sup c ms Hh _ _ Hr). naive_solver.
  - intros u r. rewrite insert_block_lookup, insert_block_bucket.
    destruct (decide (u ∈ compacted_from m)) as [Hf|Hf].
    + assert (u <> uuid m) by congruence.
      rewrite bool_decide_eq_true_2, bool_decide_eq_false_2 by done.
      destruct (blocks c !! u) as [r0|] eqn:E; simpl; [|done]. intros [= <-]. simpl.
      split; [by apply (h_row c ms Hh u)|done].
    + rewrite bool_decide_eq_false_2 by naive_solver. simpl. case_bool_decide as Hu.
      * subst u. destruct (blocks c !! uuid m) as [r0|] eqn:E; simpl; intros [= <-].
        -- destruct (h_row c ms Hh _ _ E) as [? Hrow]. split; [done|].
           intros Hs. destruct (Hrow Hs) as (m' & ? & ? & ?). exists m'. set_solver.
        -- split; [done|]. unfold new_row; simpl. intros ->. exists m. set_solver.
      * intros Hr. destruct (h_row c ms Hh _ _ Hr) as [? Hrow]. split; [done|].
        intros Hs. destruct (Hrow Hs) as (m' & ? & ? & ?). exists m'. set_solver.
  - intros a d. rewrite insert_block_edges, (h_edge c ms Hh). set_solver.
Qed.

Lemma holds_insert_all all : forall l c ms,
  sound_sidecars all -> (forall m, m ∈ ms -> m ∈ all) -> (forall m, m ∈ map snd l -> m ∈ all) ->
  holds c ms -> holds (insert_all c l) (ms ++ map snd l).
Proof.
  induction l as [|[t m] l IH]; intros c ms S H1 H2 Hh; simpl in *; [by rewrite app_nil_r|].
  replace (ms ++ m :: map snd l) with ((ms ++ [m]) ++ map snd l) by by rewrite <- app_assoc.
  apply IH; [done| | |].
  - intros m' [?|?%list_elem_of_singleton]%elem_of_app; [auto|]. subst. apply H2. by left.
  - intros m' ?. apply H2. by right.
  - eapply holds_insert; [done|done| |done]. apply H2. by left.
Qed.

Lemma holds_empty bucket : holds (empty_catalog bucket) [].
Proof.
  split; simpl; intros *; try (rewrite lookup_empty; done).
  - rewrite lookup_empty. split; [by intros []|]. by intros (? & ?%elem_of_nil & _).
  - unfold edge; simpl. rewrite lookup_empty. split; [by intros []|].
    by intros (? & ?%elem_of_nil & _).
Qed.

Lemma insert_all_bucket l : forall c, cat_bucket (insert_all c l) = cat_bucket c.
Proof.
  induction l as [|[t m] l IH]; intros c; simpl; [done|].
  change (insert_all _ l) with (insert_all (insert_block civil today t c m).1 l).
  rewrite IH. apply insert_block_bucket.
Qed.

(** The rows of the live blocks of a catalog that holds [ms]. *)
Lemma holds_live_rows c all ms u r :
  sound_sidecars all -> (forall m, m ∈ ms -> m ∈ all) -> holds c ms ->
  blocks c !! u = Some r /\ is_live r = true <->
  terminal ms u /\ exists m, m ∈ ms /\ uuid m = u /\
    r = row_of_meta (cat_bucket c) (format_date civil today (ts_min_unix_nano m)) false m.
Proof.
  intros S Hsub Hh. split.
  - intros [Hr Hl]. destruct (h_row c ms Hh u r Hr) as [Hd Hrow]. unfold is_live in Hl.
    rewrite Hd in Hl. apply negb_true_iff in Hl. split; [|auto].
    destruct (decide (terminal ms u)) as [|Hn]; [done|].
    apply (h_sup c ms Hh u r Hr) in Hn. congruence.
  - intros [Ht (m & Hm & <- & ->)]. split; [|done].
    destruct (proj2 (h_dom c ms Hh (uuid m)) (ex_intro _ m (conj Hm eq_refl))) as [r Hr].
    destruct (h_row c ms Hh _ r Hr) as [Hd Hrow].
    destruct (c_superseded r) eqn:E; [by apply (h_sup c ms Hh _ r Hr) in E|].
    destruct (Hrow eq_refl) as (m' & Hm' & Hu & ->).
    assert (m = m') as <- by (apply (ss_uuid all S); auto). done.
Qed.

Lemma terminal_same ms ms' u :
  (forall m, m ∈ ms <-> m ∈ ms') -> terminal ms u <-> terminal ms' u.
Proof. intros Hs. unfold terminal. split; intros Ht m Hm; by apply Ht, Hs. Qed.

End LiveSet.

(** Catalogs with the same live rows list the same blocks. *)
Lemma list_blocks_ext c c' :
  (forall u r, blocks c !! u = Some r /\ is_live r = true <->
               blocks c' !! u = Some r /\ is_live r = true) ->
  list_blocks c = list_blocks c'.
Proof.
  intros Heq. unfold list_blocks, select. f_equal. apply sort_by_key_unique.
  - intros [u r] [u' r'] H1%List.filter_In H2%List.filter_In [= _ _ ->].
    destruct H1 as [H1 _], H2 as [H2 _].
    apply list_elem_of_In, elem_of_map_to_list in H1, H2. congruence.
  - apply NoDup_Permutation; try (apply NoDup_ListNoDup, List.NoDup_filter, NoDup_ListNoDup,
      NoDup_map_to_list).
    intros [u r]. rewrite !list_elem_of_In, !List.filter_In, <- !list_elem_of_In, !elem_of_map_to_list.
    apply Heq.
Qed.

Lemma insert_all_blocks_same civil today bucket l l' :
  sound_sidecars (map snd l) ->
  (forall m, m ∈ map snd l <-> m ∈ map snd l') ->
  list_blocks (insert_all civil today (empty_catalog bucket) l) =
  list_blocks (insert_all civil today (empty_catalog bucket) l').
Proof.
  intros S Hsame.
  pose proof (holds_insert_all civil today (map snd l) l _ [] S
    ltac:(by intros ? ?%elem_of_nil) ltac:(done) (holds_empty civil today bucket)) as H1.
  pose proof (holds_insert_all civil today (map snd l) l' _ [] S
    ltac:(by intros ? ?%elem_of_nil) ltac:(by intros; apply Hsame) (holds_empty civil today bucket)) as H2.
  simpl in H1, H2. apply list_blocks_ext. intros u r.
  rewrite (holds_live_rows civil today _ (map snd l) (map snd l) u r S) by done.
  rewrite (holds_live_rows civil today _ (map snd l) (map snd l') u r S)
    by (done || by intros; apply Hsame).
  rewrite !insert_all_bucket, (terminal_same (map snd l) (map snd l') u Hsame). naive_solver.
Qed.

(** C8. The catalog that queries see is a function of the set of sidecars: whatever
    the order in which the blocks of a bucket are inserted, however often and at
    whatever times (a writer, pub/sub, polling and reconciliation race), the list
    of live blocks is the same, and a block is live if and only if it was inserted
    and no inserted block claims it as an ancestor. *)
Theorem catalog_order_independent civil today bucket l l' :
  sound_sidecars (map snd l) ->
  (forall m, m ∈ map snd l <-> m ∈ map snd l') ->
  list_blocks (insert_all civil today (empty_catalog bucket) l) =
  list_blocks (insert_all civil today (empty_catalog bucket) l')
  /\ forall u, live (insert_all civil today (empty_catalog bucket) l) u <->
       (exists m, m ∈ map snd l /\ uuid m = u) /\ terminal (map snd l) u.
Proof.
  intros S Hsame. split; [by apply insert_all_blocks_same|]. intros u.
  apply (holds_live civil today).
  apply (holds_insert_all civil today (map snd l) l _ []); try done.
  - by intros ? ?%elem_of_nil.
  - apply holds_empty.
Qed.

(** A small bucket: two blocks, their merge, a third block and the merge of both. *)
Definition demo_sidecars : list (Z * BlockMeta) :=
  [(0, demo_meta 1 []); (0, demo_meta 2 []); (0, demo_meta 3 [1; 2]); (0, demo_meta 4 []);
   (0, demo_meta 5 [1; 2; 3; 4])].

Lemma demo_sidecars_sound : sound_sidecars (map snd demo_sidecars).
Proof.
  assert (Hin : forall m, m ∈ map snd demo_sidecars ->
    m = demo_meta 1 [] \/ m = demo_meta 2 [] \/ m = demo_meta 3 [1; 2] \/ m = demo_meta 4 []
    \/ m = demo_meta 5 [1; 2; 3; 4]).
  { intros m Hm. simpl in Hm. rewrite !elem_of_cons, elem_of_nil in Hm. tauto. }
  split.
  - intros m m' H1%Hin H2%Hin. destruct_or?; subst; simpl; done.
  - intros m H1%Hin. destruct_or?; subst; simpl; set_solver.
  - intros m m' H1%Hin H2%Hin. destruct_or?; subst; simpl; set_solver.
Qed.

Definition demo_civil (secs : Z) : option (string * string * string) := Some ("1970", "01", "01").

Lemma catalog_order_independent_witness :
  list_blocks (insert_all demo_civil ("2026", "01", "01") (empty_catalog "b") (rev demo_sidecars)) =
  list_blocks (insert_all demo_civil ("2026", "01", "01") (empty_catalog "b") demo_sidecars)
  /\ map (fun e => uuid (meta e))
       (list_blocks (insert_all demo_civil ("2026", "01", "01") (empty_catalog "b") demo_sidecars)) = [5].
Proof.
  split; [|vm_compute; reflexivity]. symmetry.
  apply (catalog_order_independent demo_civil ("2026", "01", "01") "b" demo_sidecars
           (rev demo_sidecars) demo_sidecars_sound).
  intros m. rewrite map_rev, !list_elem_of_In, <- List.in_rev. reflexivity.
Defined.

(** ** Runs of catalog operations *)

Inductive CatalogOp :=
| OInsert (now : Z) (m : BlockMeta)
| OCompact (now : Z) (output : BlockMeta) (direct_inputs : list Uuid) (eligible : Z)
| OStageSuperseded (inputs : list Uuid) (merged : Uuid) (eligible : Z)
| OStageUnstaged (eligible : Z)
| ODelete (us : list Uuid)
| OMarkDeleted (us : list Uuid) (deleted_at eligible : Z)
| OAdoptDeletion (us : list Uuid) (deleted_at eligible : Z)
| OWatermark (writer : Uuid) (signal : string) (shard seg : Z)
| OCursor (signal : string) (writer : Uuid) (date : string) (u : Uuid)
| OPruneLineage (signal date : string) (present : list Uuid)
| OLabels (u : Uuid) (pairs : list (string * string)).

Section Runs.
  Context (civil : Z -> option (string * string * string)) (today : string * string * string).

Definition apply_op (c : Catalog) (op : CatalogOp) : Catalog :=
  match op with
  | OInsert now m => (insert_block civil today now c m).1
  | OCompact now m ins t => (apply_compaction civil today now c m ins t).1
  | OStageSuperseded ins o t => stage_superseded c ins o t
  | OStageUnstaged t => (stage_unstaged_superseded c t).1
  | ODelete us => delete_blocks c us
  | OMarkDeleted us d t => mark_deleted c us d t
  | OAdoptDeletion us d t => (adopt_peer_deletion c us d t).1
  | OWatermark w s sh g => advance_watermark c w s sh g
  | OCursor s w d u => advance_cursor c s w d u
  | OPruneLineage s d ps => (prune_lineage_partition c s d ps).1
  | OLabels u ps => upsert_block_labels c u ps
  end.

Definition run_ops (c : Catalog) (ops : list CatalogOp) : Catalog := fold_left apply_op ops c.

(** What an operation that only hides blocks does: no block becomes live, and
    lineage, watermarks and cursors stay. *)
Definition hides (c c' : Catalog) : Prop :=
  (forall u, live c' u -> live c u) /\ lineage c' = lineage c
  /\ watermarks c' = watermarks c /\ cursors c' = cursors c.

(** [c'] has the rows of [c], each updated by a function that keeps hidden rows
    hidden. *)
Lemma hides_alter c f u :
  (forall r, is_live (f r) = true -> is_live r = true) ->
  hides c (set_blocks c (alter f u (blocks c))).
Proof.
  intros Hf. split; [|done]. intros v. rewrite !live_spec. simpl.
  destruct (decide (v = u)) as [->|?]; [rewrite lookup_alter_eq|by rewrite lookup_alter_ne].
  destruct (blocks c !! u) as [r|]; simpl; [|naive_solver]. intros (r' & [= <-] & Hl). eauto.
Qed.

#[global] Instance hides_refl : Reflexive hides.
Proof. intros c. by split. Qed.
#[global] Instance hides_trans : Transitive hides.
Proof.
  intros c1 c2 c3 (H1 & E1 & F1 & G1) (H2 & E2 & F2 & G2). split; [auto|].
  split_and!; congruence.
Qed.

Lemma hides_fold {A} (f : Catalog -> A -> Catalog) l : forall c,
  (forall c x, hides c (f c x)) -> hides c (fold_left f l c).
Proof.
  induction l as [|x l IH]; intros c Hf; simpl; [reflexivity|]. etrans; [apply Hf|]. by apply IH.
Qed.

Lemma stage_superseded_hides c ins o t : hides c (stage_superseded c ins o t).
Proof.
  apply hides_fold. intros c' u. unfold stage_superseded_one. case_match; [reflexivity|].
  apply hides_alter. intros r. unfold is_live; simpl. by case_match.
Qed.

Lemma mark_deleted_hides c us d t : hides c (mark_deleted c us d t).
Proof. apply hides_fold. intros c' u. by apply hides_alter. Qed.

Lemma adopt_peer_deletion_hides c us d t : hides c (adopt_peer_deletion c us d t).1.
Proof.
  unfold adopt_peer_deletion. assert (H : forall l s, hides s.1 (fold_left (adopt_one d t) l s).1).
  { induction l as [|u l IH]; intros s; simpl; [reflexivity|].
    etrans; [|apply IH]. unfold adopt_one. destruct (blocks s.1 !! u) as [r|] eqn:E; [|reflexivity].
    case_match; [reflexivity|]. split; [|done]. intros v. rewrite !live_spec; simpl.
    intros (r' & [[<- <-]|[? ?]]%lookup_insert_Some & Hl); [done|eauto]. }
  apply (H us (c, 0)).
Qed.

Lemma stage_unstaged_hides c t : hides c (stage_unstaged_superseded c t).1.
Proof.
  split; [|done]. intros u. rewrite !live_spec; simpl. rewrite lookup_fmap.
  destruct (blocks c !! u) as [r|]; simpl; [|naive_solver].
  intros (r' & [= <-] & Hl). exists r. split; [done|]. by destruct (unstaged r).
Qed.

Lemma delete_blocks_hides c us : hides c (delete_blocks c us).
Proof.
  apply hides_fold. intros c' u. split; [|done]. intros v. rewrite !live_spec; simpl.
  intros (r & [_ ?]%lookup_delete_Some & ?). eauto.
Qed.


Lemma hides_same c c' :
  blocks c' = blocks c -> lineage c' = lineage c -> watermarks c' = watermarks c ->
  cursors c' = cursors c -> hides c c'.
Proof.
  intros Hb Hl Hw Hc. split; [|split_and!; assumption]. intros u.
  unfold live, live_uuid. rewrite Hb. trivial.
Qed.

Lemma advance_cursor_other c s w d u :
  let c' := advance_cursor c s w d u in
  blocks c' = blocks c /\ lineage c' = lineage c /\ watermarks c' = watermarks c.
Proof.
  unfold advance_cursor. destruct (negb _); [auto|].
  destruct (cursors c !! _); [|auto]. destruct (_ || _); auto.
Qed.

(** A block an insertion makes live is the one inserted, unknown before and
    claimed by no live block; the inserted block's ancestors are hidden. *)
Lemma insert_block_live now c m u :
  live (insert_block civil today now c m).1 u ->
  (live c u \/ u = uuid m /\ blocks c !! u = None /\ ~ exists d, edge c u d /\ live c d)
  /\ (u ∈ compacted_from m -> u = uuid m).
Proof.
  rewrite !live_spec. intros (r & Hr & Hl). rewrite insert_block_lookup in Hr.
  destruct (decide (u ∈ compacted_from m /\ u <> uuid m)) as [Hf|Hf].
  { rewrite bool_decide_eq_true_2 in Hr by done.
    apply fmap_Some in Hr as (r0 & _ & ->). by rewrite row_superseded_not_live in Hl. }
  rewrite bool_decide_eq_false_2 in Hr by done. simpl in Hr. split; [|destruct (decide (u = uuid m)); naive_solver].
  case_bool_decide as Hu; [|left; eauto].
  subst u. destruct (blocks c !! uuid m) as [r0|]; simpl in Hr; injection Hr as <-; [left; eauto|].
  right. split; [done|]. split; [done|]. rewrite new_row_live, negb_true_iff in Hl.
  rewrite <- has_live_descendant_spec. by rewrite Hl.
Qed.

(** ** No double counting *)

(** [anc] gives the ancestors of every block; a live block has its claims on
    record, and none of its ancestors is live. *)
Definition claims_hidden (anc : Uuid -> list Uuid) (c : Catalog) : Prop :=
  forall d, live c d -> forall a, a ∈ anc d -> edge c a d /\ (a <> d -> ~ live c a).

(** The operations the system issues: sidecars carry their block's ancestry, and
    pruning is told the live blocks of its partition. *)
Definition op_ok (anc : Uuid -> list Uuid) (c : Catalog) (op : CatalogOp) : Prop :=
  match op with
  | OInsert _ m | OCompact _ m _ _ => compacted_from m = anc (uuid m)
  | OPruneLineage s dt present =>
      forall a d lr, lineage c !! (a, d) = Some lr -> l_signal lr = s -> l_date lr = dt ->
        live c d -> d ∈ present
  | _ => True
  end.

Fixpoint run_ok (anc : Uuid -> list Uuid) (c : Catalog) (ops : list CatalogOp) : Prop :=
  match ops with
  | [] => True
  | op :: ops => op_ok anc c op /\ run_ok anc (apply_op c op) ops
  end.

Lemma claims_hidden_mono anc c c' :
  (forall u, live c' u -> live c u) -> lineage c' = lineage c ->
  claims_hidden anc c -> claims_hidden anc c'.
Proof.
  intros Hl He Hc d Hd a Ha. destruct (Hc d (Hl d Hd) a Ha) as [H1 H2].
  unfold edge in *. rewrite He. split; [done|]. intros Hne Hla. by apply (H2 Hne), Hl.
Qed.

Lemma claims_hidden_hides anc c c' : hides c c' -> claims_hidden anc c -> claims_hidden anc c'.
Proof. intros (Hl & He & _). by apply claims_hidden_mono. Qed.

Lemma claims_hidden_same anc c c' :
  blocks c' = blocks c -> lineage c' = lineage c -> claims_hidden anc c -> claims_hidden anc c'.
Proof.
  intros Hb. apply claims_hidden_mono. intros u. unfold live, live_uuid. by rewrite Hb.
Qed.

Lemma claims_hidden_insert anc now c m :
  compacted_from m = anc (uuid m) -> claims_hidden anc c ->
  claims_hidden anc (insert_block civil today now c m).1.
Proof.
  intros Hm Hc d Hd a Ha. rewrite insert_block_edges.
  destruct (insert_block_live now c m d Hd) as [[Hold|(-> & Hnone & _)] _].
  - destruct (Hc d Hold a Ha) as [He Hh]. split; [by left|]. intros Hne Hla.
    destruct (insert_block_live now c m a Hla) as [[Ha'|(-> & _ & Hno)] _].
    + by apply (Hh Hne).
    + apply Hno. eauto.
  - rewrite <- Hm in Ha. split; [by right|]. intros Hne Hla.
    destruct (insert_block_live now c m a Hla) as [_ Hf]. by apply Hne, Hf.
Qed.

Lemma claims_hidden_prune anc c s dt present :
  op_ok anc c (OPruneLineage s dt present) -> claims_hidden anc c ->
  claims_hidden anc (prune_lineage_partition c s dt present).1.
Proof.
  intros Hok Hc d Hd a Ha. destruct (Hc d Hd a Ha) as [[lr Hlr] Hh]. split; [|done].
  exists lr. simpl. apply lookup_difference_Some. split; [done|].
  apply map_lookup_filter_None. right. intros lr' Hlr' (Hs & Hdt & Hp); simpl in *.
  assert (lr' = lr) as -> by congruence. by apply Hp, (Hok a d lr).
Qed.

#[local] Hint Resolve stage_superseded_hides mark_deleted_hides adopt_peer_deletion_hides
  stage_unstaged_hides delete_blocks_hides : catalog.

Lemma claims_hidden_step anc c op :
  op_ok anc c op -> claims_hidden anc c -> claims_hidden anc (apply_op c op).
Proof.
  intros Hok Hc. destruct op; cbn [apply_op];
    try (eapply claims_hidden_hides; [|exact Hc]; auto with catalog; fail).
  - by apply claims_hidden_insert.
  - unfold apply_compaction. destruct (insert_block civil today now c output) as [c1 b] eqn:E. simpl.
    eapply claims_hidden_hides; [apply stage_superseded_hides|].
    pose proof (claims_hidden_insert anc now c output Hok Hc) as H. by rewrite E in H.
  - destruct (advance_watermark_other c writer signal shard seg) as (Hb & Hl & _).
    by eapply claims_hidden_same; [exact Hb|exact Hl|].
  - destruct (advance_cursor_other c signal writer date u) as (Hb & Hl & _).
    by eapply claims_hidden_same; [exact Hb|exact Hl|].
  - by apply claims_hidden_prune.
  - by eapply claims_hidden_same.
Qed.

Lemma claims_hidden_run anc ops : forall c,
  run_ok anc c ops -> claims_hidden anc c -> claims_hidden anc (run_ops c ops).
Proof.
  induction ops as [|op ops IH]; intros c Hok Hc; simpl in *; [done|].
  apply IH; [apply Hok|]. apply claims_hidden_step; [apply Hok|done].
Qed.

Lemma claims_hidden_empty anc bucket : claims_hidden anc (empty_catalog bucket).
Proof. intros d. rewrite live_spec. simpl. intros (r & Hr & _). by rewrite lookup_empty in Hr. Qed.
End Runs.

(** C7. No double counting.  Along any run of catalog operations from an empty
    catalog (blocks and compaction outputs inserted in any order and repeatedly,
    inputs staged, reaped and re-inserted by a stale listing, blocks soft-deleted
    by this instance or a peer, lineage pruned against listings), a live block and
    one of the blocks it was compacted from are never both live, provided every
    insertion of a block carries the ancestry of its sidecar. *)
Theorem no_double_counting civil today bucket anc ops d a :
  run_ok civil today anc (empty_catalog bucket) ops ->
  live (run_ops civil today (empty_catalog bucket) ops) d -> a ∈ anc d -> a <> d ->
  ~ live (run_ops civil today (empty_catalog bucket) ops) a.
Proof.
  intros Hok Hd Ha Hne.
  pose proof (claims_hidden_run civil today anc ops _ Hok (claims_hidden_empty anc bucket)) as Hc.
  by apply (Hc d Hd a Ha).
Qed.

(** Merge, reap the inputs, see one of them again in a stale listing. *)
Definition demo_ops : list CatalogOp :=
  [OInsert 0 (demo_meta 1 []); OInsert 0 (demo_meta 2 []); OCompact 0 (demo_meta 3 [1; 2]) [1; 2] 50;
   ODelete [1]; OInsert 7 (demo_meta 1 []); OStageUnstaged 90; OAdoptDeletion [2] 5 9].

Definition demo_anc (u : Uuid) : list Uuid := if u =? 3 then [1; 2] else [].

Definition demo_pair : Catalog :=
  run_ops demo_civil ("2026", "01", "01") (empty_catalog "b") (take 2 demo_ops).

Lemma no_double_counting_witness :
  live (run_ops demo_civil ("2026", "01", "01") (empty_catalog "b") demo_ops) 3
  /\ ~ live (run_ops demo_civil ("2026", "01", "01") (empty_catalog "b") demo_ops) 1.
Proof.
  assert (H3 : live (run_ops demo_civil ("2026", "01", "01") (empty_catalog "b") demo_ops) 3)
    by (vm_compute; reflexivity).
  split; [exact H3|].
  apply (no_double_counting demo_civil ("2026", "01", "01") "b" demo_anc demo_ops 3 1).
  - simpl. repeat split; reflexivity.
  - exact H3.
  - vm_compute. left.
  - discriminate.
Defined.

(** ** Facts about a row that operations keep

    [P] is a property of rows that every update of the operations keeps; then an
    operation that does not delete the row of [u] keeps it there. *)

Definition row_inv (P : Row -> Prop) (c : Catalog) (u : Uuid) : Prop :=
  exists r, blocks c !! u = Some r /\ P r.

Record stable (P : Row -> Prop) : Prop := {
  stable_superseded : forall d r, P r -> P (row_superseded_by d r);
  stable_staged : forall m t r, P r -> P (row_staged m t r);
  stable_reap : forall t r, unstaged r = true -> P r -> P (row_reap t r);
  stable_deleted : forall d t r, P r ->
    P (row_deleted (default d (c_deleted_at r)) (Z.max (default t (c_delete_eligible_at r)) t) r);
  stable_adopted : forall d t r, c_deleted_at r = None -> P r -> P (row_deleted d t r);
}.

(** The operation deletes the row of [u]. *)
Definition reaps (op : CatalogOp) (u : Uuid) : Prop :=
  match op with ODelete us => u ∈ us | _ => False end.

Section RowInv.
  Context (civil : Z -> option (string * string * string)) (today : string * string * string).
  Context (P : Row -> Prop) (HP : stable P).

Lemma row_inv_alter f c u v :
  (forall r, P r -> P (f r)) -> row_inv P c v ->
  row_inv P (set_blocks c (alter f u (blocks c))) v.
Proof.
  intros Hf (r & Hr & H). unfold row_inv; simpl. destruct (decide (v = u)) as [->|?].
  - rewrite lookup_alter_eq, Hr. simpl. eauto.
  - rewrite lookup_alter_ne by done. eauto.
Qed.

Lemma row_inv_fold {A} (f : Catalog -> A -> Catalog) v l : forall c,
  (forall c x, row_inv P c v -> row_inv P (f c x) v) -> row_inv P c v -> row_inv P (fold_left f l c) v.
Proof. induction l as [|x l IH]; intros c Hf Hh; simpl; auto. Qed.

Lemma row_inv_insert now c m u :
  row_inv P c u -> row_inv P (insert_block civil today now c m).1 u.
Proof.
  intros (r & Hr & H). unfold row_inv. rewrite insert_block_lookup, Hr.
  repeat case_bool_decide; simpl; (eexists; split; [done|]); try done;
    by apply (stable_superseded P HP).
Qed.

Lemma row_inv_stage c ins o t u : row_inv P c u -> row_inv P (stage_superseded c ins o t) u.
Proof.
  apply row_inv_fold. intros c' x Hh. unfold stage_superseded_one. case_match; [done|].
  apply row_inv_alter; [|done]. intros. by apply stable_staged.
Qed.

Lemma row_inv_mark c us d t u : row_inv P c u -> row_inv P (mark_deleted c us d t) u.
Proof.
  apply row_inv_fold. intros c' x. apply row_inv_alter. intros. by apply stable_deleted.
Qed.

Lemma row_inv_adopt us d t u : forall s,
  row_inv P s.1 u -> row_inv P (fold_left (adopt_one d t) us s).1 u.
Proof.
  induction us as [|x us IH]; intros s Hs; simpl; [done|]. apply IH. unfold adopt_one.
  destruct (blocks s.1 !! x) as [r|] eqn:E; [|done].
  destruct (c_deleted_at r) eqn:Ed; [done|]. destruct Hs as (r0 & Hr0 & H). unfold row_inv; simpl.
  destruct (decide (x = u)) as [->|?].
  - rewrite lookup_insert_eq. assert (r = r0) as -> by congruence.
    eexists; split; [done|]. by apply (stable_adopted P HP).
  - rewrite lookup_insert_ne by done. eauto.
Qed.

Lemma row_inv_delete us u : forall c, u ∉ us -> row_inv P c u -> row_inv P (delete_blocks c us) u.
Proof.
  induction us as [|x us IH]; intros c Hu (r & Hr & H); [by exists r|].
  apply not_elem_of_cons in Hu as [Hx Hu].
  change (delete_blocks c (x :: us)) with (delete_blocks (delete_blocks_one c x) us).
  apply (IH _ Hu). exists r. simpl. by rewrite lookup_delete_ne by (symmetry; done).
Qed.

Lemma row_inv_step c op u :
  ~ reaps op u -> row_inv P c u -> row_inv P (apply_op civil today c op) u.
Proof.
  intros Hr Hh. destruct op; unfold apply_op; cbn [reaps] in *.
  - by apply row_inv_insert.
  - unfold apply_compaction. pose proof (row_inv_insert now c output u Hh) as H.
    destruct (insert_block civil today now c output) as [c1 b]. by apply row_inv_stage.
  - by apply row_inv_stage.
  - destruct Hh as (r & Hr' & H). unfold row_inv; simpl. rewrite lookup_fmap, Hr'. simpl.
    destruct (unstaged r) eqn:E; (eexists; split; [done|]); [by apply (stable_reap P HP)|done].
  - by apply row_inv_delete.
  - by apply row_inv_mark.
  - apply (row_inv_adopt us deleted_at eligible u (c, 0)). exact Hh.
  - destruct (advance_watermark_other c writer signal shard seg) as (Hb & _).
    unfold row_inv, advance_watermark. by rewrite Hb.
  - destruct (advance_cursor_other c signal writer date u0) as (Hb & _).
    unfold row_inv. by rewrite Hb.
  - exact Hh.
  - exact Hh.
Qed.

Lemma row_inv_run ops : forall c u,
  (forall op, op ∈ ops -> ~ reaps op u) -> row_inv P c u -> row_inv P (run_ops civil today c ops) u.
Proof.
  induction ops as [|op ops IH]; intros c u Hr Hh; simpl; [done|].
  apply IH; [intros op' ?; apply Hr; by right|]. apply row_inv_step; [apply Hr; by left|done].
Qed.
End RowInv.

(** ** Hidden blocks stay hidden *)

Definition hidden (c : Catalog) (u : Uuid) : Prop := is_Some (blocks c !! u) /\ ~ live c u.

Lemma hidden_row c u : hidden c u <-> row_inv (fun r => is_live r = false) c u.
Proof.
  unfold hidden, row_inv, live, live_uuid. destruct (blocks c !! u) as [r|].
  - rewrite not_true_iff_false. split; [intros [_ ?]; eauto|]. intros (r' & [= <-] & ?). eauto.
  - split; [by intros [[? ?] _]|by intros (? & ? & _)].
Qed.

Lemma hidden_stable : stable (fun r => is_live r = false).
Proof.
  split; intros *; unfold is_live; simpl; try done; try (by case_match).
Qed.

(** No resurrection: a block that is superseded or soft-deleted is not listed
    again by any later operation as long as its row is not dropped, which only the
    reaping of its objects does; in particular a re-insertion of its sidecar by
    polling or reconciliation leaves it hidden. *)
Theorem hidden_stays_hidden civil today ops c u :
  (forall op, op ∈ ops -> ~ reaps op u) -> hidden c u -> hidden (run_ops civil today c ops) u.
Proof. rewrite !hidden_row. apply row_inv_run, hidden_stable. Qed.

Lemma hidden_stays_hidden_witness :
  hidden (run_ops demo_civil ("2026", "01", "01")
            (run_ops demo_civil ("2026", "01", "01") (empty_catalog "b") (take 3 demo_ops))
            [OInsert 7 (demo_meta 1 []); OCursor "logs" 9 "d" 4]) 1.
Proof.
  apply (hidden_stays_hidden demo_civil ("2026", "01", "01")
           [OInsert 7 (demo_meta 1 []); OCursor "logs" 9 "d" 4]).
  - intros op Hop. rewrite !elem_of_cons, elem_of_nil in Hop.
    destruct Hop as [->|[->|[]]]; exact id.
  - split; [vm_compute; by eexists|]. vm_compute. discriminate.
Defined.

(** ** Grace periods *)

(** The deadline of the soft deletion, and of the reap, is at least [t]. *)
Definition deletes_from (t : Z) (r : Row) : Prop :=
  is_Some (c_deleted_at r) /\ exists e, c_delete_eligible_at r = Some e /\ t <= e.
Definition reaped_from (t : Z) (r : Row) : Prop :=
  exists e, c_reap_eligible_at r = Some e /\ t <= e.

Lemma deletes_from_stable t : stable (deletes_from t).
Proof.
  unfold deletes_from. split; simpl; try done.
  - intros d e r ([d0 Hd] & e0 & He & Hle). rewrite Hd, He. simpl. split; [eauto|].
    eexists; split; [done|lia].
  - intros d e r Hn ([d0 Hd] & _). congruence.
Qed.

Lemma reaped_from_stable t : stable (reaped_from t).
Proof.
  unfold reaped_from. split; simpl; try done.
  - intros m e r (e0 & He & Hle). rewrite He. simpl. eexists; split; [done|lia].
  - intros e r _ (e0 & He & Hle). rewrite He. simpl. eauto.
Qed.

(** A step that writes the row of every listed block, on a block that is listed. *)
Lemma fold_writes (f : Catalog -> Uuid -> Catalog) (P : Row -> Prop) u l : forall c,
  (forall c x, row_inv P c u -> row_inv P (f c x) u) ->
  (forall c, is_Some (blocks c !! u) -> row_inv P (f c u) u) ->
  (forall c x, is_Some (blocks c !! u) -> is_Some (blocks (f c x) !! u)) ->
  u ∈ l -> is_Some (blocks c !! u) -> row_inv P (fold_left f l c) u.
Proof.
  induction l as [|x l IH]; intros c Hk Hw Hs Hu Hc; [by apply elem_of_nil in Hu|]. simpl.
  apply elem_of_cons in Hu as [->|Hu]; [|by apply IH; auto].
  apply row_inv_fold; [done|]. by apply Hw.
Qed.

Lemma mark_deleted_writes c us d t u :
  u ∈ us -> is_Some (blocks c !! u) -> row_inv (deletes_from (clamp_i64 t)) (mark_deleted c us d t) u.
Proof.
  intros Hu Hs. apply fold_writes; try done.
  - intros c' x. apply row_inv_alter. intros. by apply (stable_deleted _ (deletes_from_stable _)).
  - intros c' [r Hr]. unfold row_inv. simpl. rewrite lookup_alter_eq, Hr. simpl.
    eexists; split; [done|]. unfold deletes_from; simpl. split; [eauto|].
    eexists; split; [done|lia].
  - intros c' x. simpl. by rewrite lookup_alter_is_Some.
Qed.

Lemma stage_superseded_writes c ins o t u :
  u ∈ ins -> u <> o -> is_Some (blocks c !! u) ->
  row_inv (reaped_from (clamp_i64 t)) (stage_superseded c ins o t) u.
Proof.
  intros Hu Hne Hs. apply fold_writes; try done; unfold stage_superseded_one.
  - intros c' x Hh. case_match; [done|]. apply row_inv_alter; [|done].
    intros. by apply (stable_staged _ (reaped_from_stable _)).
  - intros c' [r Hr]. destruct (Z.eqb_spec u o) as [|_]; [done|]. unfold row_inv. simpl.
    rewrite lookup_alter_eq, Hr. simpl. eexists; split; [done|].
    unfold reaped_from; simpl. eexists; split; [done|lia].
  - intros c' x Hh. case_match; [done|]. simpl. by rewrite lookup_alter_is_Some.
Qed.

(** C25. Grace periods are never shortened: after this instance stages a block for
    deletion with deadline [t], or a compaction input for reaping, no later sequence
    of operations (re-staging, peers' announcements, re-insertions, reconciliation)
    lets the block appear on the list of due work before [t], as long as its row
    exists. *)
Theorem grace_never_shortened civil today ops c u t now :
  is_Some (blocks c !! u) -> (forall op, op ∈ ops -> ~ reaps op u) -> 
  (forall us d, u ∈ us ->
     forall r, blocks (run_ops civil today (mark_deleted c us d t) ops) !! u = Some r ->
     deletion_due now r = true -> clamp_i64 t <= clamp_i64 now)
  /\ (forall ins o, u ∈ ins -> u <> o ->
     forall r, blocks (run_ops civil today (stage_superseded c ins o t) ops) !! u = Some r ->
     reap_due now r = true -> clamp_i64 t <= clamp_i64 now).
Proof.
  intros Hs Hops. split.
  - intros us d Hu r Hr Hdue.
    destruct (row_inv_run civil today _ (deletes_from_stable (clamp_i64 t)) ops _ u Hops
      (mark_deleted_writes c us d t u Hu Hs)) as (r' & Hr' & [_ (e & He & Hle)]).
    assert (r' = r) as -> by congruence. unfold deletion_due in Hdue. rewrite He in Hdue.
    destruct (c_deleted_at r); [|done]. apply Z.leb_le in Hdue. lia.
  - intros ins o Hu Hne r Hr Hdue.
    destruct (row_inv_run civil today _ (reaped_from_stable (clamp_i64 t)) ops _ u Hops
      (stage_superseded_writes c ins o t u Hu Hne Hs)) as (r' & Hr' & (e & He & Hle)).
    assert (r' = r) as -> by congruence. unfold reap_due in Hdue. rewrite He in Hdue.
    apply andb_true_iff in Hdue as [_ Hdue]. destruct (c_reap_output_uuid r); [|done].
    apply Z.leb_le in Hdue. lia.
Qed.

Lemma grace_never_shortened_witness :
  exists r, blocks (run_ops demo_civil ("2026", "01", "01") (mark_deleted demo_pair [1] 10 100)
      [OMarkDeleted [1] 20 30; OAdoptDeletion [1] 0 1; OInsert 7 (demo_meta 1 [])]) !! 1 = Some r
    /\ deletion_due 100 r = true /\ clamp_i64 100 <= clamp_i64 100.
Proof.
  eexists. split; [vm_compute; reflexivity|]. split; [vm_compute; reflexivity|].
  eapply (proj1 (grace_never_shortened demo_civil ("2026", "01", "01")
      [OMarkDeleted [1] 20 30; OAdoptDeletion [1] 0 1; OInsert 7 (demo_meta 1 [])] demo_pair 1 100 100
      ltac:(vm_compute; by eexists)
      ltac:(intros op Hop; rewrite !elem_of_cons, elem_of_nil in Hop;
            destruct Hop as [->|[->|[->|[]]]]; exact id))
      [1] 10); [left|vm_compute; reflexivity|vm_compute; reflexivity].
Defined.

(** ** Watermarks and cursors *)

Abbreviation WatermarkKey := (Uuid * string * Z)%type.

(** The segment an operation observes as durable. *)
Definition observed (op : CatalogOp) : option (WatermarkKey * Z) :=
  match op with
  | OInsert _ m | OCompact _ m _ _ =>
      match wal_seg_max m, wal_shard m with
      | Some seg, Some shard => Some ((writer_id m, signal m, shard), as_i64 seg)
      | _, _ => None
      end
  | OWatermark w s sh seg => Some ((w, s, sh), as_i64 seg)
  | _ => None
  end.

Definition bump (w : gmap WatermarkKey Z) (o : option (WatermarkKey * Z)) : gmap WatermarkKey Z :=
  match o with
  | None => w
  | Some (k, v) => <[k := match w !! k with Some old => Z.max old v | None => v end]> w
  end.

Lemma advance_watermark_bump c w s sh seg :
  watermarks (advance_watermark_in c w s sh seg) =
  bump (watermarks c) (Some ((w, s, sh), as_i64 seg)).
Proof.
  unfold advance_watermark_in, bump. destruct (watermarks c !! (w, s, sh)) as [old|] eqn:E; [|done].
  destruct (Z.ltb_spec old (as_i64 seg)); simpl.
  - by rewrite Z.max_r by lia.
  - rewrite Z.max_l by lia. by rewrite insert_id.
Qed.

#[local] Opaque get_version_num.

Section Marks.
  Context (civil : Z -> option (string * string * string)) (today : string * string * string).

Lemma insert_block_watermarks now c m :
  watermarks (insert_block civil today now c m).1 = bump (watermarks c) (observed (OInsert now m)).
Proof.
  unfold insert_block, apply_lineage_in.
  set (p := match blocks c !! uuid m with Some _ => _ | None => _ end).
  assert (Hp : watermarks p.1 = watermarks c) by (subst p; by case_match).
  destruct p as [c1 b]; cbn [fst] in *. rewrite <- Hp.
  match goal with |- watermarks (fold_left (apply_lineage_one ?n ?m ?d) ?l ?c) = _ =>
    rewrite (proj1 (apply_lineage_other n m d l c)) end.
  simpl. destruct (wal_seg_max m), (wal_shard m); try done. apply advance_watermark_bump.
Qed.

Lemma insert_block_cursors now c m :
  cursors (insert_block civil today now c m).1 = cursors c.
Proof.
  unfold insert_block, apply_lineage_in.
  set (p := match blocks c !! uuid m with Some _ => _ | None => _ end).
  assert (Hp : cursors p.1 = cursors c) by (subst p; by case_match).
  destruct p as [c1 b]; cbn [fst] in *. rewrite <- Hp.
  match goal with |- cursors (fold_left (apply_lineage_one ?n ?m ?d) ?l ?c) = _ =>
    rewrite (proj1 (proj2 (apply_lineage_other n m d l c))) end.
  destruct (wal_seg_max m), (wal_shard m); try done.
  by destruct (advance_watermark_other c1 (writer_id m) (signal m) z0 z) as (_ & _ & -> & _).
Qed.

Lemma apply_compaction_marks now c m ins t :
  let c' := (apply_compaction civil today now c m ins t).1 in
  watermarks c' = watermarks (insert_block civil today now c m).1
  /\ cursors c' = cursors (insert_block civil today now c m).1.
Proof.
  unfold apply_compaction. destruct (insert_block civil today now c m) as [c1 b]; simpl.
  destruct (stage_superseded_hides c1 ins (uuid m) t) as (_ & _ & -> & ->). done.
Qed.

Lemma apply_op_watermarks c op :
  watermarks (apply_op civil today c op) = bump (watermarks c) (observed op).
Proof.
  destruct op; unfold apply_op.
  - apply insert_block_watermarks.
  - rewrite (proj1 (apply_compaction_marks now c output direct_inputs eligible)).
    apply insert_block_watermarks.
  - by destruct (stage_superseded_hides c inputs merged eligible) as (_ & _ & -> & _).
  - by destruct (stage_unstaged_hides c eligible) as (_ & _ & -> & _).
  - by destruct (delete_blocks_hides c us) as (_ & _ & -> & _).
  - by destruct (mark_deleted_hides c us deleted_at eligible) as (_ & _ & -> & _).
  - by destruct (adopt_peer_deletion_hides c us deleted_at eligible) as (_ & _ & -> & _).
  - apply advance_watermark_bump.
  - by destruct (advance_cursor_other c signal writer date u) as (_ & _ & ->).
  - done.
  - done.
Qed.

(** The observations of a run for one key. *)
Definition history (k : WatermarkKey) (ops : list CatalogOp) : list Z :=
  omap (fun op => match observed op with
                  | Some (k', v) => if decide (k' = k) then Some v else None
                  | None => None
                  end) ops.

(** The maximum of a list that continues from [o]. *)
Definition omax (o : option Z) (v : Z) : option Z :=
  Some (match o with Some old => Z.max old v | None => v end).

Lemma run_watermarks k ops : forall c,
  watermarks (run_ops civil today c ops) !! k = fold_left omax (history k ops) (watermarks c !! k).
Proof.
  induction ops as [|op ops IH]; intros c; simpl; [done|].
  change (fold_left (apply_op civil today) ops (apply_op civil today c op)) with
    (run_ops civil today (apply_op civil today c op) ops).
  rewrite IH, apply_op_watermarks. unfold bump.
  destruct (observed op) as [[k' v]|]; [|done]. destruct (decide (k' = k)) as [->|Hne]; simpl.
  - by rewrite lookup_insert_eq.
  - by rewrite lookup_insert_ne.
Qed.

Lemma fold_omax_spec l : forall o v,
  fold_left omax l o = Some v <->
  (v ∈ l \/ o = Some v) /\ (forall x, x ∈ l -> x <= v) /\ (forall x, o = Some x -> x <= v).
Proof.
  induction l as [|y l IH]; intros o v; cbn [fold_left].
  - split.
    + intros ->. split; [by right|]. split; [by intros ? ?%elem_of_nil|]. intros ? [= ->]. lia.
    + by intros [[?%elem_of_nil|?] _].
  - rewrite IH. setoid_rewrite elem_of_cons. destruct o as [w|]; unfold omax.
    + split.
      * intros (H1 & H2 & H3). specialize (H3 _ eq_refl). split_and!.
        -- destruct H1 as [?|[= <-]]; [auto|]. destruct (Z.max_spec w y) as [[_ ->]|[_ ->]]; auto.
        -- intros x [->|?]; [lia|auto].
        -- intros x [= ->]. lia.
      * intros (H1 & H2 & H3). specialize (H3 _ eq_refl). pose proof (H2 y (or_introl eq_refl)).
        split_and!; [|auto|intros ? [= <-]; lia].
        destruct H1 as [[->|?]|[= ->]]; [|auto|]; right; f_equal; lia.
    + split.
      * intros (H1 & H2 & H3). specialize (H3 _ eq_refl). split_and!.
        -- destruct H1 as [?|[= <-]]; auto.
        -- intros x [->|?]; [lia|auto].
        -- done.
      * intros (H1 & H2 & _). pose proof (H2 y (or_introl eq_refl)).
        split_and!; [|auto|intros ? [= <-]; lia].
        destruct H1 as [[->|?]|?]; [by right|auto|done].
Qed.

(** C27. The watermark table is exact: along any run of operations the high-water
    segment of a writer, signal and shard is the greatest segment observed for it
    in an inserted block, a compaction output or a peer's event, and is absent when
    there was none.  It never falls, and it never claims a segment as durable that
    no observed block contains. *)
Theorem watermark_exact bucket ops k v :
  watermarks (run_ops civil today (empty_catalog bucket) ops) !! k = Some v <->
  v ∈ history k ops /\ forall x, x ∈ history k ops -> x <= v.
Proof.
  rewrite run_watermarks, fold_omax_spec. simpl. rewrite lookup_empty. naive_solver.
Qed.

Lemma advance_cursor_mono c s w d u k v :
  cursors c !! k = Some v -> get_version_num v = 7 ->
  exists v', cursors (advance_cursor c s w d u) !! k = Some v' /\ get_version_num v' = 7 /\ v <= v'.
Proof.
  intros Hk Hv. unfold advance_cursor. destruct (Z.eqb_spec (get_version_num u) 7) as [Hu|Hu]; simpl;
    [|exists v; split_and!; [done|done|lia]].
  destruct (decide (k = (s, w, d))) as [->|Hne].
  - rewrite Hk. rewrite (proj2 (Z.eqb_eq _ _) Hv). simpl. rewrite orb_false_r.
    destruct (Z.ltb_spec v u); [|exists v; split_and!; [done|done|lia]].
    exists u. simpl. rewrite lookup_insert_eq. split_and!; [done|done|lia].
  - exists v. split_and!; [|done|lia].
    destruct (cursors c !! (s, w, d)); [case_match; [|done]|];
      cbn [cursors set_cursors]; by rewrite lookup_insert_ne.
Qed.

(** Poll cursors only move forward: once a cursor holds a time-ordered UUID,
    every later state of the catalog holds one at least as large for it, whatever
    operations run in between (content-hash UUIDs of recovery blocks included). *)
Theorem cursor_monotone ops : forall c k v,
  cursors c !! k = Some v -> get_version_num v = 7 ->
  exists v', cursors (run_ops civil today c ops) !! k = Some v' /\ get_version_num v' = 7 /\ v <= v'.
Proof.
  induction ops as [|op ops IH]; intros c k v Hk Hv; [exists v; split_and!; [done|done|lia]|].
  change (run_ops civil today c (op :: ops)) with (run_ops civil today (apply_op civil today c op) ops).
  assert (exists v1, cursors (apply_op civil today c op) !! k = Some v1 /\
    get_version_num v1 = 7 /\ v <= v1) as (v1 & H1 & H7 & Hle).
  { assert (Hsame : cursors (apply_op civil today c op) = cursors c ->
      exists v1, cursors (apply_op civil today c op) !! k = Some v1 /\ get_version_num v1 = 7 /\ v <= v1).
    { intros ->. exists v. split_and!; [done|done|lia]. }
    destruct op; try (match goal with |- context [OCursor] => fail 1 | _ => apply Hsame end);
      unfold apply_op, advance_watermark.
    - apply insert_block_cursors.
    - rewrite (proj2 (apply_compaction_marks now c output direct_inputs eligible)).
      apply insert_block_cursors.
    - by destruct (stage_superseded_hides c inputs merged eligible) as (_ & _ & _ & ->).
    - by destruct (stage_unstaged_hides c eligible) as (_ & _ & _ & ->).
    - by destruct (delete_blocks_hides c us) as (_ & _ & _ & ->).
    - by destruct (mark_deleted_hides c us deleted_at eligible) as (_ & _ & _ & ->).
    - by destruct (adopt_peer_deletion_hides c us deleted_at eligible) as (_ & _ & _ & ->).
    - by destruct (advance_watermark_other c writer signal shard seg) as (_ & _ & -> & _).
    - by apply advance_cursor_mono.
    - done.
    - done. }
  destruct (IH _ k v1 H1 H7) as (v' & ? & ? & ?). exists v'. split_and!; [done|done|lia].
Qed.
End Marks.

Lemma cursor_monotone_witness :
  exists v', cursors (run_ops demo_civil ("2026", "01", "01")
      (set_cursors (empty_catalog "b") {[("logs", 9, "d") := 7 * 2 ^ 76]})
      [OCursor "logs" 9 "d" (2 ^ 100 + 4 * 2 ^ 76); OCursor "logs" 9 "d" (2 ^ 100 + 7 * 2 ^ 76);
       OCursor "logs" 9 "d" (2 ^ 90 + 7 * 2 ^ 76)]) !! ("logs", 9, "d") = Some v'
    /\ get_version_num v' = 7 /\ 7 * 2 ^ 76 <= v'.
Proof.
  apply (cursor_monotone demo_civil ("2026", "01", "01")
      [OCursor "logs" 9 "d" (2 ^ 100 + 4 * 2 ^ 76); OCursor "logs" 9 "d" (2 ^ 100 + 7 * 2 ^ 76);
       OCursor "logs" 9 "d" (2 ^ 90 + 7 * 2 ^ 76)]); vm_compute; reflexivity.
Defined.

(** ** Compaction conserves rows *)

Lemma sum_of_perm {A} (f : A -> Z) l l' : Permutation l l' -> sum_of f l = sum_of f l'.
Proof. induction 1; simpl; lia. Qed.

Lemma sum_of_app {A} (f : A -> Z) l l' : sum_of f (l ++ l') = sum_of f l + sum_of f l'.
Proof. induction l; simpl; lia. Qed.

Lemma elem_of_live_rows c u r :
  (u, r) ∈ live_rows c <-> blocks c !! u = Some r /\ is_live r = true.
Proof.
  unfold live_rows. by rewrite list_elem_of_In, List.filter_In, <- list_elem_of_In, elem_of_map_to_list.
Qed.

Lemma live_rows_NoDup c : NoDup (live_rows c).
Proof. apply NoDup_ListNoDup, List.NoDup_filter, NoDup_ListNoDup, NoDup_map_to_list. Qed.

Lemma stage_superseded_lookup ins o t : forall c u,
  u ∉ ins -> blocks (stage_superseded c ins o t) !! u = blocks c !! u.
Proof.
  induction ins as [|x ins IH]; intros c u Hu; [done|]. apply not_elem_of_cons in Hu as [Hx Hu].
  change (stage_superseded c (x :: ins) o t) with
    (stage_superseded (stage_superseded_one o t c x) ins o t).
  rewrite IH by done. unfold stage_superseded_one. case_match; [done|]. simpl.
  by rewrite lookup_alter_ne by done.
Qed.

Section Conserve.
  Context (civil : Z -> option (string * string * string)) (today : string * string * string).
  Context (anc : Uuid -> list Uuid) (now : Z) (c : Catalog) (out : BlockMeta).
  Context (ins : list Uuid) (eligible : Z).
  (** A merge of distinct live blocks into a new one that carries their closure
      and is claimed by no live block. *)
  Hypothesis Hc : claims_hidden anc c.
  Hypothesis Hnodup : NoDup ins.
  Hypothesis Hlive : forall u, u ∈ ins -> live c u.
  Hypothesis Hfrom : forall a, a ∈ compacted_from out <->
    a ∈ ins \/ exists i, i ∈ ins /\ a ∈ anc i.
  Hypothesis Hnew : blocks c !! uuid out = None.
  Hypothesis Hunclaimed : has_live_descendant c (uuid out) = false.

Let c' := (apply_compaction civil today now c out ins eligible).1.

Lemma uuid_out_fresh : uuid out ∉ ins.
Proof. intros Hi%Hlive. apply live_spec in Hi as (r & Hr & _). congruence. Qed.

Lemma compaction_rows u r :
  blocks c' !! u = Some r /\ is_live r = true <->
  (blocks c !! u = Some r /\ is_live r = true /\ u ∉ ins) \/ (u = uuid out /\ r = new_row civil today c out).
Proof.
  subst c'. unfold apply_compaction.
  pose proof (insert_block_lookup civil today now c out u) as Hl.
  destruct (insert_block civil today now c out) as [c1 b]; cbn [fst] in *.
  pose proof uuid_out_fresh as Hfresh. split.
  - intros [Hr Hlr].
    assert (Hlive1 : live c1 u) by (apply (stage_superseded_hides c1 ins (uuid out) eligible), live_spec; eauto).
    destruct (decide (u ∈ ins)) as [Hi|Hi].
    { exfalso. assert (u <> uuid out) by congruence. apply live_spec in Hlive1 as (r1 & Hr1 & Hlr1).
      rewrite Hl, bool_decide_eq_true_2, bool_decide_eq_false_2 in Hr1; [|done|].
      - apply fmap_Some in Hr1 as (r0 & _ & ->). by rewrite row_superseded_not_live in Hlr1.
      - split; [|done]. apply Hfrom. by left. }
    rewrite stage_superseded_lookup in Hr by done. rewrite Hl in Hr.
    destruct (decide (u ∈ compacted_from out /\ u <> uuid out)) as [Hf|Hf].
    { rewrite bool_decide_eq_true_2 in Hr by done. apply fmap_Some in Hr as (r0 & _ & ->).
      by rewrite row_superseded_not_live in Hlr. }
    rewrite bool_decide_eq_false_2 in Hr by done. simpl in Hr. case_bool_decide as Hu; [|left; done].
    subst u. rewrite Hnew in Hr. simpl in Hr. injection Hr as <-. by right.
  - intros [(Hr & Hlr & Hi)|[-> ->]].
    + split; [|done]. rewrite stage_superseded_lookup, Hl by done.
      assert (Hu : u <> uuid out) by congruence.
      rewrite bool_decide_eq_false_2, bool_decide_eq_false_2; [done|done|].
      intros [Hf _]. apply Hfrom in Hf as [?|(i & Hi' & Ha)]; [done|].
      destruct (Hc i (Hlive i Hi') u Ha) as [_ Hno]. destruct (decide (u = i)) as [->|Hne]; [done|].
      apply (Hno Hne), live_spec. eauto.
    + rewrite new_row_live, Hunclaimed. split; [|done].
      rewrite stage_superseded_lookup, Hl by done.
      rewrite bool_decide_eq_false_2, bool_decide_eq_true_2 by naive_solver. simpl. by rewrite Hnew.
Qed.

Definition kept : list (Uuid * Row) :=
  List.filter (fun e => negb (bool_decide (e.1 ∈ ins))) (live_rows c).

Definition merged_rows : list (Uuid * Row) :=
  List.filter (fun e => bool_decide (e.1 ∈ ins)) (live_rows c).

Lemma live_rows_split : Permutation (live_rows c) (merged_rows ++ kept).
Proof.
  unfold merged_rows, kept. induction (live_rows c) as [|e l IH]; simpl; [done|].
  destruct (bool_decide (e.1 ∈ ins)); simpl; [by constructor|].
  rewrite IH at 1. apply Permutation_middle.
Qed.

Lemma elem_of_merged_rows u r :
  (u, r) ∈ merged_rows <-> blocks c !! u = Some r /\ is_live r = true /\ u ∈ ins.
Proof.
  unfold merged_rows. rewrite list_elem_of_In, List.filter_In, <- list_elem_of_In, elem_of_live_rows.
  simpl. rewrite bool_decide_eq_true. tauto.
Qed.

Lemma merged_rows_uuids : Permutation (map fst merged_rows) ins.
Proof.
  apply NoDup_Permutation; [|done|].
  - apply NoDup_fmap_2_strong.
    + intros [u r] [u' r'] H1%elem_of_merged_rows H2%elem_of_merged_rows; simpl. intros ->.
      destruct H1 as (H1 & _), H2 as (H2 & _). congruence.
    + apply NoDup_ListNoDup, List.NoDup_filter, NoDup_ListNoDup, live_rows_NoDup.
  - intros u. rewrite list_elem_of_In, in_map_iff. split.
    + intros ([u' r] & <- & Hin%list_elem_of_In%elem_of_merged_rows). apply Hin.
    + intros Hu. destruct (proj1 (live_spec c u) (Hlive u Hu)) as (r & Hr & Hl).
      exists (u, r). split; [done|]. by apply list_elem_of_In, elem_of_merged_rows.
Qed.

Lemma live_rows_after : Permutation (live_rows c') ((uuid out, new_row civil today c out) :: kept).
Proof.
  assert (Hk : forall u r, (u, r) ∈ kept <-> blocks c !! u = Some r /\ is_live r = true /\ u ∉ ins).
  { intros u r. unfold kept. rewrite list_elem_of_In, List.filter_In, <- list_elem_of_In, elem_of_live_rows.
    simpl. rewrite negb_true_iff, bool_decide_eq_false. tauto. }
  apply NoDup_Permutation; [apply live_rows_NoDup| |].
  - constructor; [rewrite Hk; intros (? & _); congruence|].
    apply NoDup_ListNoDup, List.NoDup_filter, NoDup_ListNoDup, live_rows_NoDup.
  - intros [u r]. rewrite elem_of_live_rows, compaction_rows, elem_of_cons, Hk. naive_solver.
Qed.

(** C26. Compaction is invisible in row counts: merging live blocks into a new block
    whose row count is the sum of theirs hides exactly the inputs, shows exactly the
    output, and leaves the number of live rows, which status reports and queries
    scan, unchanged. *)
Theorem compaction_conserves_rows :
  as_i64 (row_count out) = sum_of (fun e => c_row_count e.2) merged_rows ->
  live_row_count c' = live_row_count c
  /\ block_count c' = block_count c + 1 - zlen ins
  /\ forall u, live c' u <-> (live c u /\ u ∉ ins) \/ u = uuid out.
Proof.
  intros Hsum. split_and!.
  - unfold live_row_count. f_equal. f_equal.
    rewrite (sum_of_perm _ _ _ live_rows_after), (sum_of_perm _ _ _ live_rows_split), sum_of_app.
    simpl. lia.
  - unfold block_count, zlen. rewrite (Permutation_length live_rows_after),
      (Permutation_length live_rows_split), length_app, <- (Permutation_length merged_rows_uuids), length_map.
    simpl. lia.
  - intros u. rewrite !live_spec. setoid_rewrite compaction_rows. naive_solver.
Qed.
End Conserve.


Definition demo_merged : BlockMeta :=
  mkMeta 3 "logs" 9 1000 2000 20 900 1 1 [1; 2] "0.24" None true (Some 40) None None true
    (Some 30) None None None.

Lemma compaction_conserves_rows_witness :
  live_row_count (apply_compaction demo_civil ("2026", "01", "01") 0 demo_pair demo_merged [1; 2] 50).1
  = live_row_count demo_pair /\ live_row_count demo_pair = Some 20.
Proof.
  split; [|vm_compute; reflexivity].
  apply (compaction_conserves_rows demo_civil ("2026", "01", "01") (fun _ => []) 0 demo_pair demo_merged
           [1; 2] 50).
  - intros d _ a Ha. by apply elem_of_nil in Ha.
  - apply NoDup_ListNoDup. repeat constructor; simpl; intuition discriminate.
  - intros u Hu. rewrite !elem_of_cons, elem_of_nil in Hu.
    destruct Hu as [->|[->|[]]]; vm_compute; reflexivity.
  - intros a. simpl. split; [by left|]. intros [?|(i & _ & []%elem_of_nil)]. done.
  - vm_compute. reflexivity.
  - vm_compute. reflexivity.
  - vm_compute. reflexivity.
Defined.

(** ** Rows *)

(** What the catalog keeps of a sidecar. *)
Definition catalog_view (m : BlockMeta) : BlockMeta :=
  mkMeta (uuid m) (signal m) (writer_id m) (ts_min_unix_nano m) (ts_max_unix_nano m) (row_count m)
    (byte_size m) (schema_version m) (meta_level m) [] "" (label_fingerprint_bloom m)
    (has_postings m) (postings_size_bytes m) None None (has_body_bloom m) (body_bloom_size_bytes m)
    (meta_json_size_bytes m) (wal_seg_max m) (wal_shard m).

(** The integers of the sidecar fit their Rust types. *)
Record wf_meta (m : BlockMeta) : Prop := {
  wf_ts_min : in_u64 (ts_min_unix_nano m);
  wf_ts_max : in_u64 (ts_max_unix_nano m);
  wf_rows : in_u64 (row_count m);
  wf_bytes : in_u64 (byte_size m);
  wf_version : in_u32 (schema_version m);
  wf_level : in_u32 (meta_level m);
  wf_postings : forall v, postings_size_bytes m = Some v -> in_u64 v;
  wf_bloom : forall v, body_bloom_size_bytes m = Some v -> in_u64 v;
  wf_json : forall v, meta_json_size_bytes m = Some v -> in_u64 v;
  wf_seg : forall v, wal_seg_max m = Some v -> in_u64 v;
  wf_shard : forall v, wal_shard m = Some v -> in_u32 v;
}.

Lemma as_i64_small z : in_u32 z -> as_i64 z = z.
Proof. intros Hz. apply as_i64_id. unfold in_u32, u32_max, i64_max in *. lia. Qed.

Lemma option_roundtrip (f g : Z -> Z) (o : option Z) :
  (forall v, o = Some v -> f (g v) = v) -> f <$> (g <$> o) = o.
Proof. destruct o as [v|]; simpl; [|done]. intros H. by rewrite H. Qed.

Lemma b2i_nonzero b : negb (b2i b =? 0) = b.
Proof. by destruct b. Qed.

Lemma row_roundtrip bucket date sup m :
  wf_meta m ->
  row_to_entry (uuid m) (row_of_meta bucket date sup m) =
  mkEntry (catalog_view m) bucket date (meta_level m).
Proof.
  intros W. unfold row_to_entry, row_of_meta, catalog_view. simpl.
  rewrite !as_i64_roundtrip by apply W. rewrite !(as_i64_small _ (wf_version m W)),
    !(as_i64_small _ (wf_level m W)), !as_u32_id by apply W.
  rewrite (option_roundtrip wrap64 as_i64 (postings_size_bytes m)),
    (option_roundtrip wrap64 as_i64 (body_bloom_size_bytes m)),
    (option_roundtrip wrap64 as_i64 (meta_json_size_bytes m)),
    (option_roundtrip wrap64 as_i64 (wal_seg_max m))
    by (intros; apply as_i64_roundtrip;
        first [by eapply wf_postings|by eapply wf_bloom|by eapply wf_json|by eapply wf_seg]).
  rewrite (option_roundtrip as_u32 as_i64).
  - by rewrite !b2i_nonzero.
  - intros v Hv. rewrite as_i64_small, as_u32_id by (by eapply wf_shard). done.
Qed.

(** A sidecar survives the catalog: reading back a block that was inserted gives
    its identity, times, counts, sizes, level and watermark unchanged, although
    unsigned 64-bit values pass through signed columns (the producer version, the
    series lists and the ancestry, which live in the sidecar and in the lineage
    table, are left out), with the partition date of its first record. *)
Theorem catalog_row_roundtrip civil today now c m :
  wf_meta m -> blocks c !! uuid m = None -> uuid m ∉ compacted_from m ->
  get_block (insert_block civil today now c m).1 (uuid m) =
  Some (mkEntry (catalog_view m) (cat_bucket c) (format_date civil today (ts_min_unix_nano m))
          (meta_level m)).
Proof.
  intros W Hn Hi. unfold get_block.
  rewrite insert_block_lookup, bool_decide_eq_false_2, bool_decide_eq_true_2, Hn by naive_solver.
  simpl. unfold new_row. by rewrite row_roundtrip.
Qed.

Lemma catalog_row_roundtrip_witness :
  exists e, get_block (insert_block demo_civil ("2026", "01", "01") 0 (empty_catalog "b")
                         (with_json_size demo_merged (2 ^ 64 - 1))).1 3 = Some e
    /\ meta_json_size_bytes (meta e) = Some (2 ^ 64 - 1).
Proof.
  eexists. split.
  - apply (catalog_row_roundtrip demo_civil ("2026", "01", "01") 0 (empty_catalog "b")
             (with_json_size demo_merged (2 ^ 64 - 1))).
    + split; simpl; unfold in_u64, in_u32, u64_max, u32_max; try (intros ? [= <-]); try done; lia.
    + vm_compute. reflexivity.
    + simpl. rewrite !elem_of_cons, elem_of_nil. intuition discriminate.
  - reflexivity.
Defined.

(** ** Reconciliation *)

Section ReconcileFacts.
  Context (civil : Z -> option (string * string * string)) (today : string * string * string).
  Context (from_slice : bytes -> option BlockMeta) (store_get : string -> result StoreError bytes).
  Context (commits : BlockMeta -> bool) (now : Z).

(** A telemetry sidecar. *)
Definition is_sidecar (path : string) : bool :=
  negb (is_reserved_control_key path) && ends_with path ".meta.json".

(** What becomes of a listed path. *)
Definition gone (path : string) : bool :=
  match store_get path with Err NotFound => true | _ => false end.
Definition unreadable (path : string) : bool :=
  match store_get path with
  | Ok b => match from_slice b with Some m => negb (commits (with_json_size m (zlen b))) | None => false end
  | Err NotFound => false
  | Err _ => true
  end.
Definition malformed (path : string) : bool :=
  match store_get path with
  | Ok b => match from_slice b with Some _ => false | None => true end
  | Err _ => false
  end.

(** A sidecar that parses, as it is inserted. *)
Definition block_at (path : string) : option BlockMeta :=
  match store_get path with
  | Ok b => (fun m => with_json_size m (zlen b)) <$> from_slice b
  | Err _ => None
  end.

Lemma insert_block_keeps c m u :
  is_Some (blocks c !! u) -> is_Some (blocks (insert_block civil today now c m).1 !! u).
Proof.
  intros [r Hr]. rewrite insert_block_lookup, Hr. repeat case_bool_decide; simpl; eauto.
Qed.

Lemma insert_block_present c m : is_Some (blocks (insert_block civil today now c m).1 !! uuid m).
Proof.
  rewrite insert_block_lookup. rewrite (bool_decide_eq_true_2 (uuid m = uuid m)) by done.
  case_bool_decide; simpl; eauto.
Qed.

Lemma reconcile_object_spec c r path :
  let '(c', r') := reconcile_object civil today from_slice store_get commits now c r path in
  seen r' = seen r + b2i (is_sidecar path)
  /\ unapplied r' = unapplied r + b2i (is_sidecar path && unreadable path)
  /\ failed r' = failed r + b2i (is_sidecar path && malformed path)
  /\ inserted r' + already_present r' + failed r' + unapplied r' + b2i (is_sidecar path && gone path)
     = inserted r + already_present r + failed r + unapplied r + b2i (is_sidecar path)
  /\ (forall u, is_Some (blocks c !! u) -> is_Some (blocks c' !! u))
  /\ (forall m, is_sidecar path = true -> unreadable path = false -> block_at path = Some m ->
       is_Some (blocks c' !! uuid m)).
Proof.
  unfold reconcile_object, is_sidecar, unreadable, malformed, gone, block_at.
  destruct (is_reserved_control_key path); simpl; [split_and!; try done; lia|].
  destruct (ends_with path ".meta.json"); simpl; [|split_and!; try done; lia].
  destruct (store_get path) as [b|e]; [|destruct e; simpl; split_and!; try done; lia].
  destruct (from_slice b) as [m|]; simpl; [|split_and!; try done; lia].
  destruct (commits (with_json_size m (zlen b))); simpl.
  - pose proof (insert_block_keeps c (with_json_size m (zlen b))) as Hk.
    pose proof (insert_block_present c (with_json_size m (zlen b))) as Hp.
    destruct (insert_block civil today now c _) as [c1 []]; simpl in *;
      (split_and!; [lia|lia|lia|lia|exact Hk|by intros ? _ _ [= <-]]).
  - split_and!; try done; lia.
Qed.

(** How many of the listed paths satisfy [p]. *)
Definition count (p : string -> bool) (l : list string) : Z := sum_of (fun x => b2i (p x)) l.

Lemma reconcile_loop_spec paths : forall c r,
  exists r', snd (reconcile_loop civil today from_slice store_get commits now c r (map Ok paths)) = Ok r'
  /\ let c' := fst (reconcile_loop civil today from_slice store_get commits now c r (map Ok paths)) in
  seen r' = seen r + count is_sidecar paths
  /\ unapplied r' = unapplied r + count (fun p => is_sidecar p && unreadable p) paths
  /\ failed r' = failed r + count (fun p => is_sidecar p && malformed p) paths
  /\ inserted r' + already_present r' + failed r' + unapplied r'
       + count (fun p => is_sidecar p && gone p) paths
     = inserted r + already_present r + failed r + unapplied r + count is_sidecar paths
  /\ (forall u, is_Some (blocks c !! u) -> is_Some (blocks c' !! u))
  /\ (forall p m, p ∈ paths -> is_sidecar p = true -> unreadable p = false -> block_at p = Some m ->
       is_Some (blocks c' !! uuid m)).
Proof.
  induction paths as [|p paths IH]; intros c r; cbn [map reconcile_loop].
  { exists r. simpl. split_and!; try done; try lia. by intros ? ? ?%elem_of_nil. }
  pose proof (reconcile_object_spec c r p) as H1.
  destruct (reconcile_object _ _ _ _ _ _ c r p) as [c1 r1].
  destruct H1 as (S1 & U1 & F1 & T1 & K1 & P1).
  destruct (IH c1 r1) as (r' & -> & S2 & U2 & F2 & T2 & K2 & P2).
  exists r'. unfold count in *. simpl in *. split_and!; [done|lia..| |].
  - auto.
  - intros q m [->|Hq]%elem_of_cons; eauto.
Qed.

(** Reconciliation accounts for every object: a pass over a complete listing
    returns a report in which each telemetry sidecar is inserted, already present,
    unparseable, unapplied or gone, and nothing else is counted; a complete report
    means that every listed block whose sidecar parses has its row.  A listing that
    breaks off is an error, never a report. *)
Theorem reconcile_accounts_for_listing c paths :
  exists r, snd (reconcile_from_bucket civil today from_slice store_get commits now c (map Ok paths)) = Ok r
  /\ seen r = count is_sidecar paths
  /\ seen r = inserted r + already_present r + failed r + unapplied r
              + count (fun p => is_sidecar p && gone p) paths
  /\ (ensure_complete r = Ok tt <-> forall p, p ∈ paths -> is_sidecar p = true -> unreadable p = false)
  /\ (ensure_complete r = Ok tt -> forall p m, p ∈ paths -> is_sidecar p = true -> block_at p = Some m ->
        is_Some (blocks (fst (reconcile_from_bucket civil today from_slice store_get commits now c
                                (map Ok paths))) !! uuid m))
  /\ forall e rest, snd (reconcile_from_bucket civil today from_slice store_get commits now c
                           (map Ok paths ++ Err e :: rest)) = Err ListingFailed.
Proof.
  unfold reconcile_from_bucket.
  destruct (reconcile_loop_spec paths c (mkReport 0 0 0 0 0)) as (r & E & S & U & F & T & K & P).
  assert (Hz : ensure_complete r = Ok tt <->
    forall p, p ∈ paths -> is_sidecar p = true -> unreadable p = false).
  { unfold ensure_complete, is_complete. simpl in U. rewrite U. clear.
    assert (Hnn : forall l, 0 <= count (fun p => is_sidecar p && unreadable p) l).
    { induction l as [|p l IH]; unfold count in *; simpl; [lia|]. destruct (_ && _); simpl; lia. }
    transitivity (count (fun p => is_sidecar p && unreadable p) paths = 0).
    { rewrite Z.add_0_l.
      destruct (Z.eqb_spec (count (fun p => is_sidecar p && unreadable p) paths) 0); by split. }
    induction paths as [|p l IH]; [split; [by intros _ ? ?%elem_of_nil|done]|].
    specialize (Hnn l). unfold count in *. simpl. setoid_rewrite elem_of_cons.
    destruct (is_sidecar p) eqn:E1, (unreadable p) eqn:E2; simpl in *; rewrite ?Z.add_0_l, ?IH;
      try (split; [intros H q [->|Hq]; [congruence|by apply H]|intros H q Hq; apply H; by right]).
    split; [lia|]. intros H. specialize (H p (or_introl eq_refl) E1). congruence. }
  exists r. simpl in *. split_and!; [done|lia|lia|done| |].
  - intros Hc p m Hp Hs Hb. eapply P; [done|done| |done]. by apply (proj1 Hz Hc).
  - intros e rest. clear. generalize (mkReport 0 0 0 0 0). revert c.
    induction paths as [|p paths IH]; intros c r; simpl; [done|].
    destruct (reconcile_object _ _ _ _ _ _ c r p) as [c1 r1]. apply IH.
Qed.
End ReconcileFacts.

(** ** Resolving a block through its lineage *)

Section Resolve.
  Context (c : Catalog).

Lemma elem_of_lineage_step s d :
  d ∈ lineage_step c s <-> d ∈ s \/ exists a, a ∈ s /\ edge c a d.
Proof.
  unfold lineage_step. rewrite elem_of_union, elem_of_list_to_set, list_elem_of_omap.
  split; (intros [?|H]; [by left|right]).
  - destruct H as ([[a d'] lr] & Hin & Hs). simpl in Hs. case_bool_decide; [|done].
    injection Hs as ->. apply elem_of_map_to_list in Hin. exists a. split; [done|]. by exists lr.
  - destruct H as (a & Ha & [lr Hlr]). exists ((a, d), lr). simpl.
    rewrite bool_decide_eq_true_2 by done. split; [by apply elem_of_map_to_list|done].
Qed.

Definition claimants : gset Uuid :=
  list_to_set (map (fun e : (Uuid * Uuid) * LineageRow => e.1.2) (map_to_list (lineage c))).

Lemma elem_of_claimants d : d ∈ claimants <-> exists a, edge c a d.
Proof.
  unfold claimants. rewrite elem_of_list_to_set, list_elem_of_In, in_map_iff. split.
  - intros ([[a d'] lr] & <- & Hin). apply list_elem_of_In, elem_of_map_to_list in Hin.
    exists a. by exists lr.
  - intros (a & lr & Hlr). exists ((a, d), lr). split; [done|].
    by apply list_elem_of_In, elem_of_map_to_list.
Qed.

Lemma claimants_size : (size claimants <= size (lineage c))%nat.
Proof.
  unfold claimants. etrans; [apply size_list_to_set_le|]. by rewrite length_map, length_map_to_list.
Qed.

(** The fuel reaches the fixed point: every round that changes the set adds a
    claimant. *)
Lemma lineage_closure_fix fuel : forall s,
  s ⊆ claimants -> (size claimants - size s < fuel)%nat ->
  lineage_step c (lineage_closure fuel c s) = lineage_closure fuel c s
  /\ s ⊆ lineage_closure fuel c s.
Proof.
  induction fuel as [|fuel IH]; intros s Hs Hf; [lia|]. cbn [lineage_closure].
  case_bool_decide as Heq; [done|].
  assert (Hsub : s ⊂ lineage_step c s).
  { split; [intros x Hx; apply elem_of_lineage_step; by left|].
    intros Hle. apply Heq. apply set_eq. intros x. split; [apply Hle|].
    intros Hx. apply elem_of_lineage_step. by left. }
  assert (Hcl : lineage_step c s ⊆ claimants).
  { intros x [?|(a & _ & He)]%elem_of_lineage_step; [by apply Hs|]. apply elem_of_claimants. eauto. }
  pose proof (subset_size _ _ Hsub). pose proof (subseteq_size _ _ Hcl).
  destruct (IH (lineage_step c s) Hcl) as [Hfix Hin]; [lia|]. split; [done|]. set_solver.
Qed.

Lemma lineage_closure_sound fuel : forall s x,
  x ∈ lineage_closure fuel c s -> x ∈ s \/ exists y, y ∈ s /\ tc (edge c) y x.
Proof.
  induction fuel as [|fuel IH]; intros s x Hx; cbn [lineage_closure] in Hx; [by left|].
  case_bool_decide; [by left|].
  destruct (IH _ _ Hx) as [[?|(a & Ha & He)]%elem_of_lineage_step|
    (y & [?|(a & Ha & He)]%elem_of_lineage_step & Ht)].
  - by left.
  - right. exists a. split; [done|by apply tc_once].
  - right. eauto.
  - right. exists a. split; [done|]. by eapply tc_l.
Qed.

Lemma elem_of_descendants u d : d ∈ descendants c u <-> tc (edge c) u d.
Proof.
  unfold descendants. set (s0 := list_to_set _).
  assert (H0 : forall x, x ∈ s0 <-> edge c u x).
  { intros x. subst s0. rewrite elem_of_list_to_set, list_elem_of_omap. split.
    - intros ([[a d'] lr] & Hin & Hs). simpl in Hs. destruct (Z.eqb_spec a u) as [->|]; [|done].
      injection Hs as ->. apply elem_of_map_to_list in Hin. by exists lr.
    - intros [lr Hlr]. exists ((u, x), lr). simpl. rewrite Z.eqb_refl.
      split; [by apply elem_of_map_to_list|done]. }
  assert (Hs : s0 ⊆ claimants) by (intros x ?%H0; apply elem_of_claimants; eauto).
  destruct (lineage_closure_fix (S (size (lineage c))) s0 Hs) as [Hfix Hin].
  { pose proof claimants_size. lia. }
  split.
  - intros [?%H0|(y & ?%H0 & Ht)]%lineage_closure_sound; [by apply tc_once|]. by eapply tc_l.
  - intros Ht.
    assert (Hcl : forall x y, tc (edge c) x y ->
      x = u \/ x ∈ lineage_closure (S (size (lineage c))) c s0 ->
      y ∈ lineage_closure (S (size (lineage c))) c s0).
    { assert (Hone : forall x y, edge c x y ->
        x = u \/ x ∈ lineage_closure (S (size (lineage c))) c s0 ->
        y ∈ lineage_closure (S (size (lineage c))) c s0).
      { intros x y He [->|Hx]; [by apply Hin, H0|]. rewrite <- Hfix. apply elem_of_lineage_step. eauto. }
      induction 1 as [x y He|x y z He _ IH]; intros Hx; [by eapply Hone|]. apply IH. right. by eapply Hone. }
    eapply Hcl; [done|by left].
Qed.

(** Terminals are resolved exactly, through any depth of lineage and on cyclic
    claims too: the answer is unique when one live block descends from the UUID, or
    none does and the UUID itself is live; it is a fork exactly when several live
    blocks descend from it, listed in order; otherwise there is none. *)
Theorem resolve_terminal_exact u :
  match resolve_terminal c u with
  | Unique d => live c d /\ (tc (edge c) u d \/ d = u)
                /\ forall d', tc (edge c) u d' -> live c d' -> d' = d
  | NoTerminal => ~ live c u /\ forall d, tc (edge c) u d -> ~ live c d
  | Fork ids => (2 <= length ids)%nat /\ StronglySorted Z.lt ids
                /\ forall d, d ∈ ids <-> tc (edge c) u d /\ live c d
  end.
Proof.
  unfold resolve_terminal.
  set (l := List.filter (live_uuid c) (elements (descendants c u))).
  assert (Hl : forall d, In d (sort_by_key (fun x : Z => x) l) <-> tc (edge c) u d /\ live c d).
  { intros d. rewrite sort_by_key_In. subst l.
    rewrite List.filter_In, <- list_elem_of_In, elem_of_elements, elem_of_descendants. done. }
  assert (Hn : NoDup (sort_by_key (fun x : Z => x) l)).
  { rewrite sort_by_key_perm. apply NoDup_ListNoDup, List.NoDup_filter, NoDup_ListNoDup, NoDup_elements. }
  pose proof (sort_by_key_sorted (fun x : Z => x) l) as Hs.
  destruct (sort_by_key (fun x : Z => x) l) as [|x [|y ids]] eqn:E.
  - destruct (live_uuid c u) eqn:Eu.
    + split; [done|]. split; [by right|]. intros d' H1 H2. by destruct (proj2 (Hl d') (conj H1 H2)).
    + split; [unfold live; by rewrite Eu|]. intros d' H1 H2. by destruct (proj2 (Hl d') (conj H1 H2)).
  - destruct (proj1 (Hl x) (or_introl eq_refl)) as [Ht Hlx]. split; [done|]. split; [by left|].
    intros d' H1 H2. by destruct (proj2 (Hl d') (conj H1 H2)) as [->|[]].
  - split; [simpl; lia|]. split; [|intros d; by rewrite list_elem_of_In].
    clear -Hn Hs. induction Hs as [|z zs Hs IH Hf]; [constructor|].
    apply NoDup_cons in Hn as [Hz Hn]. constructor; [by apply IH|].
    rewrite List.Forall_forall in *. intros w Hw. specialize (Hf w Hw).
    unfold cmp_leb in Hf. simpl in Hf. destruct (Z.compare_spec z w); [|done|done]. subst.
    destruct Hz. by apply list_elem_of_In.
Qed.
End Resolve.
