(* ===== verification/Cluster.v ===== *)
(** * Convergence of catalogs (crates/cluster, crates/block/src/events.rs)

    Every instance keeps its own catalog.  The one that changes the set of blocks
    emits a [BlockEvent]; a peer applies it ([apply_event_with_grace],
    consume.rs), hides what peers staged for deletion ([apply_staged_deletions],
    staged.rs), and polls the bucket ([fetch_and_apply], poll.rs). *)

From S2P Require Import Prelude Order Bytes Block Compaction Layout Catalog CatalogFacts.
From Stdlib Require Import Ascii.

Inductive BlockEvent :=
| Created (meta : BlockMeta)
| Superseded (inputs : list Uuid) (by_ : Uuid) (by_meta : BlockMeta) (reap_eligible_at : Z)
| SoftDeleted (signal : string) (uuids : list Uuid) (deleted_at delete_eligible_at : Z)
| Deleted (signal : string) (uuids : list Uuid).

Definition event_signal (e : BlockEvent) : string :=
  match e with
  | Created m => signal m
  | Superseded _ _ m _ => signal m
  | SoftDeleted s _ _ _ => s
  | Deleted s _ => s
  end.

Record ApplyOutcome := mkOutcome {
  o_inserted : Z; o_superseded : Z; o_soft_deleted : Z; o_deleted : Z }.

(** ** Staged deletions *)

Record StagedDeletion := mkStaged {
  sd_uuid : Uuid; staged_at : Z; sd_eligible_at : Z }.

Definition grace_nanos (d : StagedDeletion) : Z := sat_sub (sd_eligible_at d) (staged_at d).

(** [by_grace.entry(k).or_default().push(u)]. *)
Definition push_under (k : Z) (u : Uuid) (m : btree Z (list Uuid)) : btree Z (list Uuid) :=
  bt_alter (fun o => default [] o ++ [u]) k m.

Definition group_by_grace (staged : list StagedDeletion) : btree Z (list Uuid) :=
  fold_left (fun m d => push_under (grace_nanos d) (sd_uuid d) m) staged [].

Definition apply_grace_group (now : Z) (s : Catalog * Z) (g : Z * list Uuid) : Catalog * Z :=
  let '(c, changed) := adopt_peer_deletion s.1 g.2 now (sat_add now g.1) in (c, s.2 + changed).

Definition apply_staged_deletions (c : Catalog) (staged : list StagedDeletion) (now : Z)
    : Catalog * Z :=
  if bool_decide (staged = []) then (c, 0)
  else fold_left (apply_grace_group now) (group_by_grace staged) (c, 0).

(** ** Events *)

Section Events.
  Context (civil : Z -> option (string * string * string)) (today : string * string * string).

(** [date_dir]. *)
Definition date_dir (ts : Z) : string := format_date civil today ts.

(** [now] is the local clock in nanoseconds, [local_grace] the configured grace. *)
Definition superseded_eligible (now local_grace reap_eligible_at : Z) : Z :=
  let local_eligible := sat_add now (wrap64 local_grace) in
  let event_eligible := if reap_eligible_at =? 0 then local_eligible else reap_eligible_at in
  if local_grace =? 0 then event_eligible else Z.max event_eligible local_eligible.

Definition apply_event_with_grace (now : Z) (c : Catalog) (e : BlockEvent) (local_grace : Z)
    : Catalog * ApplyOutcome :=
  match e with
  | Created m =>
      let '(c, ins) := insert_block civil today now c m in
      (advance_cursor c (signal m) (writer_id m) (date_dir (ts_min_unix_nano m)) (uuid m),
       mkOutcome (b2i ins) 0 0 0)
  | Superseded inputs _ by_meta reap_eligible_at =>
      let eligible := superseded_eligible now local_grace reap_eligible_at in
      let '(c, ins) := apply_compaction civil today now c by_meta inputs eligible in
      (advance_cursor c (signal by_meta) (writer_id by_meta)
         (date_dir (ts_min_unix_nano by_meta)) (uuid by_meta),
       mkOutcome (b2i ins) (zlen inputs) 0 0)
  | SoftDeleted _ us deleted_at delete_eligible_at =>
      let grace := sat_sub delete_eligible_at deleted_at in
      let '(c, _) := adopt_peer_deletion c us now (sat_add now grace) in
      (c, mkOutcome 0 0 (zlen us) 0)
  | Deleted _ us => (delete_blocks c us, mkOutcome 0 0 0 (zlen us))
  end.

Definition apply_event (now : Z) (c : Catalog) (e : BlockEvent) : Catalog * ApplyOutcome :=
  apply_event_with_grace now c e 0.

(** A peer's stream of events, each applied at its own time with its own grace. *)
Definition apply_events (c : Catalog) (es : list (Z * Z * BlockEvent)) : Catalog :=
  fold_left (fun c e => (apply_event_with_grace e.1.1 c e.2 e.1.2).1) es c.
End Events.

(** ** What operations do to the live set *)

Section LiveEffects.
  Context (civil : Z -> option (string * string * string)) (today : string * string * string).

Lemma insert_block_live_iff now c m u :
  live (insert_block civil today now c m).1 u <->
  (u ∈ compacted_from m -> u = uuid m)
  /\ (live c u \/ u = uuid m /\ blocks c !! u = None /\ ~ exists d, edge c u d /\ live c d).
Proof.
  split; [intros H; destruct (insert_block_live civil today now c m u H); auto|].
  intros [Hf H]. rewrite live_spec. rewrite insert_block_lookup.
  rewrite bool_decide_eq_false_2 by naive_solver. simpl. destruct H as [H|(-> & Hn & Hno)].
  - apply live_spec in H as (r & Hr & Hl). rewrite Hr. simpl. case_bool_decide; eauto.
  - rewrite bool_decide_eq_true_2, Hn by done. simpl. eexists; split; [done|].
    rewrite new_row_live. destruct (has_live_descendant c (uuid m)) eqn:E; [|done].
    destruct Hno. by apply has_live_descendant_spec.
Qed.

Lemma insert_block_dom now c m u :
  is_Some (blocks (insert_block civil today now c m).1 !! u) <-> u = uuid m \/ is_Some (blocks c !! u).
Proof.
  rewrite insert_block_lookup. repeat case_bool_decide; simpl; rewrite ?fmap_is_Some; naive_solver.
Qed.

End LiveEffects.

Lemma stage_superseded_live ins o t : forall c u,
  live (stage_superseded c ins o t) u <-> live c u /\ (u ∈ ins -> u = o).
Proof.
  induction ins as [|x ins IH]; intros c u; [simpl; split; [|tauto]; intros; split; [done|by intros ?%elem_of_nil]|].
  change (stage_superseded c (x :: ins) o t) with
    (stage_superseded (stage_superseded_one o t c x) ins o t).
  rewrite IH, elem_of_cons. unfold stage_superseded_one. destruct (Z.eqb_spec x o) as [->|Hne]; [naive_solver|].
  rewrite !live_spec. simpl. destruct (decide (u = x)) as [->|Hu].
  - rewrite lookup_alter_eq. destruct (blocks c !! x) as [r|]; simpl; [|naive_solver].
    split; [|naive_solver]. intros [(r' & [= <-] & Hl) _]. unfold is_live in Hl; simpl in Hl. by case_match.
  - rewrite lookup_alter_ne by done. naive_solver.
Qed.

Lemma stage_superseded_dom ins o t : forall c u,
  is_Some (blocks (stage_superseded c ins o t) !! u) <-> is_Some (blocks c !! u).
Proof.
  induction ins as [|x ins IH]; intros c u; [done|].
  change (stage_superseded c (x :: ins) o t) with
    (stage_superseded (stage_superseded_one o t c x) ins o t).
  rewrite IH. unfold stage_superseded_one. case_match; [done|]. simpl. apply lookup_alter_is_Some.
Qed.

Lemma mark_deleted_live us d t : forall c u,
  live (mark_deleted c us d t) u <-> live c u /\ u ∉ us.
Proof.
  induction us as [|x us IH]; intros c u; [simpl; split; [|tauto]; intros; split; [done|by intros ?%elem_of_nil]|].
  change (mark_deleted c (x :: us) d t) with (mark_deleted (mark_deleted_one d t c x) us d t).
  rewrite IH, not_elem_of_cons, !live_spec. simpl. destruct (decide (u = x)) as [->|Hu].
  - rewrite lookup_alter_eq. destruct (blocks c !! x) as [r|]; simpl; [|naive_solver].
    split; [|naive_solver]. by intros [(r' & [= <-] & Hl) _].
  - rewrite lookup_alter_ne by done. naive_solver.
Qed.

Lemma mark_deleted_dom us d t : forall c u,
  is_Some (blocks (mark_deleted c us d t) !! u) <-> is_Some (blocks c !! u).
Proof.
  induction us as [|x us IH]; intros c u; [done|].
  change (mark_deleted c (x :: us) d t) with (mark_deleted (mark_deleted_one d t c x) us d t).
  rewrite IH. simpl. apply lookup_alter_is_Some.
Qed.

(** One adopted block: hidden if it was live, otherwise left as it is. *)
Lemma adopt_one_spec d t s x u :
  (live (adopt_one d t s x).1 u <-> live s.1 u /\ u <> x)
  /\ (is_Some (blocks (adopt_one d t s x).1 !! u) <-> is_Some (blocks s.1 !! u)).
Proof.
  unfold adopt_one. rewrite !live_spec. destruct (blocks s.1 !! x) as [r|] eqn:E.
  - destruct (c_deleted_at r) eqn:Ed; simpl.
    + split; [|done]. split; [|naive_solver]. intros (r' & Hr' & Hl). split; [eauto|]. intros ->.
      rewrite E in Hr'. injection Hr' as <-. unfold is_live in Hl. by rewrite Ed in Hl.
    + destruct (decide (u = x)) as [->|Hu].
      * rewrite lookup_insert_eq. split; [|naive_solver]. split; [|naive_solver].
        by intros (r' & [= <-] & Hl).
      * rewrite lookup_insert_ne by done. split; [|done]. naive_solver.
  - split; [|done]. split; [|naive_solver]. intros (r' & Hr' & Hl). split; [eauto|].
    intros ->. congruence.
Qed.

Lemma adopt_fold_spec d t us : forall s u,
  (live (fold_left (adopt_one d t) us s).1 u <-> live s.1 u /\ u ∉ us)
  /\ (is_Some (blocks (fold_left (adopt_one d t) us s).1 !! u) <-> is_Some (blocks s.1 !! u)).
Proof.
  induction us as [|x us IH]; intros s u; simpl.
  - split; [|done]. split; [intros H; split; [done|by intros ?%elem_of_nil]|tauto].
  - destruct (IH (adopt_one d t s x) u) as [H1 H2], (adopt_one_spec d t s x u) as [H3 H4].
    rewrite H1, H2, H3, H4, not_elem_of_cons. tauto.
Qed.

Lemma delete_blocks_lookup us : forall c u,
  blocks (delete_blocks c us) !! u = if bool_decide (u ∈ us) then None else blocks c !! u.
Proof.
  induction us as [|x us IH]; intros c u; [by rewrite bool_decide_eq_false_2 by apply not_elem_of_nil|].
  change (delete_blocks c (x :: us)) with (delete_blocks (delete_blocks_one c x) us).
  rewrite IH. simpl. destruct (decide (u = x)) as [->|Hu].
  - rewrite lookup_delete_eq. rewrite (bool_decide_eq_true_2 (x ∈ x :: us)) by set_solver. by case_bool_decide.
  - rewrite lookup_delete_ne by done. repeat case_bool_decide; set_solver.
Qed.

(** ** Replication by events *)

(** Two catalogs know the same blocks, list the same ones as live and hold the
    same claims. *)
Record agrees (c c' : Catalog) : Prop := {
  ag_dom : forall u, is_Some (blocks c !! u) <-> is_Some (blocks c' !! u);
  ag_live : forall u, live c u <-> live c' u;
  ag_edge : forall a d, edge c a d <-> edge c' a d;
}.

#[global] Instance agrees_equiv : Equivalence agrees.
Proof.
  split.
  - by intros c; split.
  - intros c c' [H1 H2 H3]. by split; intros; symmetry.
  - intros c1 c2 c3 [H1 H2 H3] [H4 H5 H6]. split; intros; etrans; eauto.
Qed.

Section Replication.
  Context (civil : Z -> option (string * string * string)) (today : string * string * string).

Lemma agrees_insert now now' c c' m :
  agrees c c' -> agrees (insert_block civil today now c m).1 (insert_block civil today now' c' m).1.
Proof.
  intros [H1 H2 H3]. split.
  - intros u. by rewrite !insert_block_dom, H1.
  - intros u. rewrite !insert_block_live_iff, H2.
    assert (Hn : blocks c !! u = None <-> blocks c' !! u = None).
    { rewrite !eq_None_not_Some, H1. done. }
    rewrite Hn. setoid_rewrite H3. setoid_rewrite H2. done.
  - intros a d. by rewrite !insert_block_edges, H3.
Qed.

(** Inserting a block again changes nothing that [agrees] looks at. *)
Lemma agrees_insert_again now now' c m :
  agrees (insert_block civil today now c m).1
    (insert_block civil today now' (insert_block civil today now c m).1 m).1.
Proof.
  split.
  - intros u. rewrite !insert_block_dom. tauto.
  - intros u. rewrite (insert_block_live_iff civil today now' _ m u). split.
    + intros H. split; [|by left]. by apply (insert_block_live civil today now c m u).
    + intros [Hf [H|(-> & Hn & _)]]; [done|]. exfalso.
      assert (is_Some (blocks (insert_block civil today now c m).1 !! uuid m)) as [? ?];
        [apply insert_block_dom; by left|congruence].
  - intros a d. rewrite !insert_block_edges. tauto.
Qed.

Lemma agrees_stage c c' ins o t t' :
  agrees c c' -> agrees (stage_superseded c ins o t) (stage_superseded c' ins o t').
Proof.
  intros [H1 H2 H3]. split.
  - intros u. by rewrite !stage_superseded_dom.
  - intros u. by rewrite !stage_superseded_live, H2.
  - intros a d. unfold edge in *. destruct (stage_superseded_hides c ins o t) as (_ & -> & _).
    destruct (stage_superseded_hides c' ins o t') as (_ & -> & _). apply H3.
Qed.

Lemma agrees_compact now now' c c' m ins t t' :
  agrees c c' ->
  agrees (apply_compaction civil today now c m ins t).1 (apply_compaction civil today now' c' m ins t').1.
Proof.
  intros H%(agrees_insert now now' _ _ m). unfold apply_compaction.
  destruct (insert_block civil today now c m), (insert_block civil today now' c' m).
  by apply agrees_stage.
Qed.

Lemma agrees_cursor c s w d u : agrees c (advance_cursor c s w d u).
Proof.
  destruct (advance_cursor_other c s w d u) as (Hb & Hl & _).
  split; intros; unfold live, live_uuid, edge; by rewrite ?Hb, ?Hl.
Qed.

Lemma agrees_adopt c c' us d t d' t' :
  agrees c c' -> agrees (mark_deleted c us d t) (adopt_peer_deletion c' us d' t').1.
Proof.
  intros [H1 H2 H3]. split.
  - intros u. rewrite mark_deleted_dom, H1. symmetry. apply (adopt_fold_spec d' t' us (c', 0) u).
  - intros u. rewrite mark_deleted_live, H2. symmetry. apply (adopt_fold_spec d' t' us (c', 0) u).
  - intros a dd. unfold edge in *. destruct (mark_deleted_hides c us d t) as (_ & -> & _).
    destruct (adopt_peer_deletion_hides c' us d' t') as (_ & -> & _). apply H3.
Qed.

Lemma agrees_delete c c' us : agrees c c' -> agrees (delete_blocks c us) (delete_blocks c' us).
Proof.
  intros [H1 H2 H3]. split.
  - intros u. rewrite !delete_blocks_lookup. case_bool_decide; [done|apply H1].
  - intros u. specialize (H2 u). unfold live, live_uuid in *. rewrite !delete_blocks_lookup.
    by case_bool_decide.
  - intros a d. unfold edge in *. destruct (delete_blocks_hides c us) as (_ & -> & _).
    destruct (delete_blocks_hides c' us) as (_ & -> & _). apply H3.
Qed.

(** What an instance does to its own catalog, and the events it emits: an upload,
    a committed compaction, the staging of expired blocks (one event per signal)
    and the reaping of a block.  These are the catalog operations and [sink.emit] calls
    of the pipeline's upload, of [compact_partition], [retain_planned] and
    [reap_pending]; their bodies are those of [Maintenance]. *)
Inductive Action :=
| Upload (now : Z) (m : BlockMeta)
| Compact (now : Z) (out : BlockMeta) (ins : list Uuid) (eligible : Z)
| StageExpired (groups : list (string * list Uuid)) (now eligible : Z)
| Reap (signal : string) (u : Uuid).

Definition act (c : Catalog) (a : Action) : Catalog :=
  match a with
  | Upload now m => (insert_block civil today now c m).1
  | Compact now out ins t => (apply_compaction civil today now c out ins t).1
  | StageExpired groups now t => mark_deleted c (concat (map snd groups)) now t
  | Reap _ u => delete_blocks c [u]
  end.

Definition emits (a : Action) : list BlockEvent :=
  match a with
  | Upload _ m => [Created m]
  | Compact _ out ins t => [Created out; Superseded ins (uuid out) out t]
  | StageExpired groups now t => map (fun g => SoftDeleted g.1 g.2 now t) groups
  | Reap s u => [Deleted s [u]]
  end.

(** [es] is the stream [evs] received with some clock and grace at each event. *)
Definition received (evs : list BlockEvent) (es : list (Z * Z * BlockEvent)) : Prop :=
  map snd es = evs.

Lemma mark_deleted_app c us us' d t :
  mark_deleted c (us ++ us') d t = mark_deleted (mark_deleted c us d t) us' d t.
Proof. unfold mark_deleted. apply fold_left_app. Qed.

Lemma agrees_stage_groups now t : forall groups es c c',
  agrees c c' -> map snd es = map (fun g => SoftDeleted g.1 g.2 now t) groups ->
  agrees (mark_deleted c (concat (map snd groups)) now t) (apply_events civil today c' es).
Proof.
  induction groups as [|[s us] groups IH]; intros es c c' H Hes; destruct es as [|[[n g] e] es]; try done.
  injection Hes as -> Hes. simpl. rewrite mark_deleted_app.
  change (apply_events civil today c' ((n, g, SoftDeleted s us now t) :: es)) with
    (apply_events civil today (apply_event_with_grace civil today n c' (SoftDeleted s us now t) g).1 es).
  apply IH; [|done]. simpl. set (x := sat_sub _ _).
  pose proof (agrees_adopt c c' us now t n (sat_add n x) H) as Ha.
  by destruct (adopt_peer_deletion c' us n (sat_add n x)).
Qed.

#[local] Ltac step_events :=
  unfold apply_events; cbn [fold_left fst snd apply_event_with_grace act].

Lemma act_replicates a es c c' :
  agrees c c' -> received (emits a) es -> agrees (act c a) (apply_events civil today c' es).
Proof.
  intros H Hes. unfold received in Hes. destruct a as [now m|now out ins t|groups now t|s u]; simpl in Hes.
  - destruct es as [|[[n g] e] [|]]; try done. injection Hes as ->. step_events.
    destruct (insert_block civil today n c' m) as [c1 b] eqn:E. cbn [fst]. etrans; [|apply agrees_cursor].
    pose proof (agrees_insert now n c c' m H) as Ha. by rewrite E in Ha.
  - destruct es as [|[[n g] e] [|[[n' g'] e'] [|]]]; try done. injection Hes as -> ->. step_events.
    destruct (insert_block civil today n c' out) as [c1 b] eqn:E. cbn [fst].
    set (c2 := advance_cursor c1 _ _ _ _). set (el := superseded_eligible n' g' t).
    destruct (apply_compaction civil today n' c2 out ins el) as [c3 b3] eqn:E3. cbn [fst].
    etrans; [|apply agrees_cursor].
    assert (Ha : agrees (insert_block civil today now c out).1 (insert_block civil today n' c2 out).1).
    { transitivity (insert_block civil today n c' out).1; [by apply agrees_insert|].
      etrans; [apply (agrees_insert_again n n')|]. apply agrees_insert. rewrite E. apply agrees_cursor. }
    unfold apply_compaction in *. destruct (insert_block civil today now c out) as [c4 b4].
    destruct (insert_block civil today n' c2 out) as [c5 b5]. injection E3 as <- <-. cbn [fst] in *.
    by apply agrees_stage.
  - by apply agrees_stage_groups.
  - destruct es as [|[[n g] e] [|]]; try done. injection Hes as ->. step_events. by apply agrees_delete.
Qed.

(** C9. Events replicate catalogs: a peer whose catalog agrees with an instance's
    and that receives, in order, the events of everything the instance does
    (uploads, compactions, stagings, reaps), at whatever times by its own clock and
    with whatever grace of its own, ends with a catalog that knows the same blocks,
    lists the same live blocks and holds the same lineage. *)
Theorem events_replicate_catalog actions : forall es c c',
  agrees c c' -> received (concat (map emits actions)) es ->
  agrees (fold_left act actions c) (apply_events civil today c' es).
Proof.
  induction actions as [|a actions IH]; intros es c c' H Hes; unfold received in *; simpl in Hes.
  - by apply map_eq_nil in Hes as ->.
  - apply map_eq_app in Hes as (es1 & es2 & -> & H1 & H2). simpl.
    unfold apply_events. rewrite fold_left_app. apply IH; [|done]. by apply act_replicates.
Qed.
End Replication.

Definition demo_actions : list Action :=
  [Upload 1 (demo_meta 1 []); Upload 2 (demo_meta 2 []); Compact 3 demo_merged [1; 2] 90;
   Reap "logs" 1; Upload 4 (demo_meta 4 []); StageExpired [("logs", [4]); ("metrics", [])] 5 60].

Lemma events_replicate_catalog_witness :
  agrees (fold_left (act demo_civil ("2026", "01", "01")) demo_actions (empty_catalog "a"))
    (apply_events demo_civil ("2026", "01", "01") (empty_catalog "b")
       (map (fun e => (1000, 7, e)) (concat (map emits demo_actions))))
  /\ live (fold_left (act demo_civil ("2026", "01", "01")) demo_actions (empty_catalog "a")) 3.
Proof.
  split; [|vm_compute; reflexivity].
  apply (events_replicate_catalog demo_civil ("2026", "01", "01")).
  - split; intros; simpl; unfold live, live_uuid, edge; simpl; reflexivity.
  - unfold received. rewrite map_map, map_id. reflexivity.
Defined.

(** Events do not commute once a deletion is among them: a [Deleted] that is
    delivered before the [Created] of the same block leaves the block live, in the
    other order it leaves nothing. *)
Theorem deleted_before_created_resurrects :
  let es := [(0, 0, Created (demo_meta 1 [])); (0, 0, Deleted "logs" [1])] in
  live (apply_events demo_civil ("2026", "01", "01") (empty_catalog "b") (rev es)) 1
  /\ ~ live (apply_events demo_civil ("2026", "01", "01") (empty_catalog "b") es) 1.
Proof. vm_compute. split; [reflexivity|discriminate]. Qed.

(** ** Staged deletions converge *)

(** The row of a block that is adopted: hidden now, unless it is hidden already. *)
Definition adopt_row (d t : Z) (r : Row) : Row :=
  match c_deleted_at r with
  | None => row_deleted (as_i64 d) (clamp_i64 t) r
  | Some _ => r
  end.

Lemma adopt_row_hidden d t r : is_Some (c_deleted_at r) -> adopt_row d t r = r.
Proof. unfold adopt_row. by intros [? ->]. Qed.

Lemma adopt_row_deleted d t r : is_Some (c_deleted_at (adopt_row d t r)).
Proof. unfold adopt_row. destruct (c_deleted_at r) eqn:E; [by rewrite E|]. simpl. eauto. Qed.

Lemma adopt_fold_row d t us : forall s u,
  blocks (fold_left (adopt_one d t) us s).1 !! u =
  if bool_decide (u ∈ us) then adopt_row d t <$> blocks s.1 !! u else blocks s.1 !! u.
Proof.
  induction us as [|x us IH]; intros s u; cbn [fold_left].
  { by rewrite bool_decide_eq_false_2 by apply not_elem_of_nil. }
  assert (H1 : blocks (adopt_one d t s x).1 !! u =
    if bool_decide (u = x) then adopt_row d t <$> blocks s.1 !! u else blocks s.1 !! u).
  { unfold adopt_one, adopt_row. case_bool_decide as Hu; [subst u|].
    - destruct (blocks s.1 !! x) as [r|] eqn:E; [|by rewrite E]. simpl.
      destruct (c_deleted_at r) eqn:Ed; simpl; [by rewrite E|]. by rewrite lookup_insert_eq.
    - destruct (blocks s.1 !! x) as [r|]; [|done]. destruct (c_deleted_at r); [done|]. simpl.
      by rewrite lookup_insert_ne. }
  rewrite IH, H1. repeat case_bool_decide; rewrite ?elem_of_cons in *; try naive_solver.
  destruct (blocks s.1 !! u); simpl; [|done]. by rewrite (adopt_row_hidden d t) by apply adopt_row_deleted.
Qed.

(** Blocks that are all hidden or unknown are left alone. *)
Lemma adopt_fold_id d t us : forall s,
  (forall u r, u ∈ us -> blocks s.1 !! u = Some r -> is_Some (c_deleted_at r)) ->
  fold_left (adopt_one d t) us s = s.
Proof.
  induction us as [|x us IH]; intros s Hs; simpl; [done|].
  assert (adopt_one d t s x = s) as ->.
  { unfold adopt_one. destruct (blocks s.1 !! x) as [r|] eqn:E; [|done].
    by destruct (Hs x r (list_elem_of_here _ _) E) as [? ->]. }
  apply IH. intros u r Hu. apply Hs. by right.
Qed.

Lemma push_under_sorted k u m : bt_sorted m -> bt_sorted (push_under k u m).
Proof. apply bt_alter_sorted. Qed.

Lemma group_by_grace_spec staged : forall m,
  bt_sorted m ->
  bt_sorted (fold_left (fun m d => push_under (grace_nanos d) (sd_uuid d) m) staged m)
  /\ forall k u,
     (exists us, In (k, us) (fold_left (fun m d => push_under (grace_nanos d) (sd_uuid d) m) staged m)
                 /\ u ∈ us) <->
     (exists us, In (k, us) m /\ u ∈ us) \/ exists d, d ∈ staged /\ grace_nanos d = k /\ sd_uuid d = u.
Proof.
  induction staged as [|d staged IH]; intros m Hm; simpl.
  { split; [done|]. intros k u. split; [by left|]. intros [?|(d & ?%elem_of_nil & _)]; done. }
  destruct (IH (push_under (grace_nanos d) (sd_uuid d) m) (push_under_sorted _ _ _ Hm)) as [H1 H2].
  split; [done|]. intros k u. rewrite H2. unfold push_under. setoid_rewrite bt_alter_In; [|done].
  setoid_rewrite elem_of_cons. split.
  - intros [(us & [[= -> ->]|[Hin Hne]] & Hu)|(d' & ? & ? & ?)]; [| |by right; eauto].
    + apply elem_of_app in Hu as [Hu|Hu%list_elem_of_singleton]; [|right; exists d; auto].
      destruct (bt_get (grace_nanos d) m) as [us|] eqn:E; simpl in Hu; [|by apply elem_of_nil in Hu].
      left. exists us. split; [by apply bt_get_Some_In|done].
    + left. eauto.
  - intros [(us & Hin & Hu)|(d' & [->|?] & Hk & Hu)]; [| |by right; eauto].
    + left. destruct (decide (k = grace_nanos d)) as [->|Hne].
      * exists (us ++ [sd_uuid d]). split; [left|set_solver].
        f_equal. apply (bt_get_In _ _ _ Hm) in Hin. by rewrite Hin.
      * exists us. split; [by right|done].
    + left. subst. eexists. split; [by left|]. set_solver.
Qed.

(** Groups of blocks none of which contains [u] leave its row, groups whose blocks
    are all hidden or unknown leave everything. *)
Lemma grace_groups_id now gs : forall s,
  (forall k us u r, In (k, us) gs -> u ∈ us -> blocks s.1 !! u = Some r -> is_Some (c_deleted_at r)) ->
  fold_left (apply_grace_group now) gs s = s.
Proof.
  induction gs as [|[k us] gs IH]; intros s Hs; simpl; [done|].
  assert (apply_grace_group now s (k, us) = s) as ->.
  { unfold apply_grace_group, adopt_peer_deletion. simpl.
    rewrite (adopt_fold_id now (sat_add now k) us (s.1, 0)).
    - destruct s; simpl. by rewrite Z.add_0_r.
    - intros u r Hu. by apply (Hs k us u r (or_introl eq_refl)). }
  apply IH. intros k' us' u r Hin. by apply (Hs k' us' u r (or_intror Hin)).
Qed.

(** A group applied to the row of [u]. *)
Definition adopt_group (now : Z) (u : Uuid) (o : option Row) (g : Z * list Uuid) : option Row :=
  if bool_decide (u ∈ g.2) then adopt_row now (sat_add now g.1) <$> o else o.

Lemma grace_groups_row now gs u : forall s,
  blocks (fold_left (apply_grace_group now) gs s).1 !! u =
  fold_left (adopt_group now u)
    gs (blocks s.1 !! u).
Proof.
  induction gs as [|[k us] gs IH]; intros s; cbn [fold_left]; [done|].
  rewrite IH. f_equal. unfold apply_grace_group, adopt_peer_deletion. cbn [fst snd].
  pose proof (adopt_fold_row now (sat_add now k) us (s.1, 0) u) as H.
  destruct (fold_left (adopt_one now (sat_add now k)) us (s.1, 0)) as [c n]. exact H.
Qed.

Lemma adopt_groups_hidden now u gs : forall r,
  is_Some (c_deleted_at r) ->
  fold_left (adopt_group now u)
    gs (Some r) = Some r.
Proof.
  induction gs as [|[k us] gs IH]; intros r Hr; cbn [fold_left]; [done|].
  unfold adopt_group at 2. case_bool_decide; simpl; rewrite ?adopt_row_hidden by done; by apply IH.
Qed.

Lemma adopt_groups_some now u k : forall gs r,
  c_deleted_at r = None -> (exists us, In (k, us) gs /\ u ∈ us) ->
  (forall k' us, In (k', us) gs -> u ∈ us -> k' = k) ->
  fold_left (adopt_group now u)
    gs (Some r) = Some (row_deleted (as_i64 now) (clamp_i64 (sat_add now k)) r).
Proof.
  induction gs as [|[k' us'] gs IH]; intros r Hr (us & Hin & Hu) Hk; [done|]. cbn [fold_left]. unfold adopt_group at 2. cbn [fst snd].
  case_bool_decide as Hu'.
  - rewrite (Hk k' us' (or_introl eq_refl) Hu'). cbn [fmap option_fmap option_map].
    rewrite adopt_groups_hidden by apply adopt_row_deleted. unfold adopt_row. by rewrite Hr.
  - apply IH; [done| |intros k2 us2 ?; apply Hk; by right].
    destruct Hin as [[= -> ->]|Hin]; [done|eauto].
Qed.

(** Applying the staged-deletions registry converges at once: every block a
    peer staged is hidden with the grace its stager intended, counted from the
    first time this instance heard of it and never restarted, nothing else
    changes, and every later application of the same registry, at any time,
    changes nothing and reports nothing new. *)
Theorem staged_deletions_converge c staged now :
  NoDup (map sd_uuid staged) ->
  let '(c1, n) := apply_staged_deletions c staged now in
  (forall now', apply_staged_deletions c1 staged now' = (c1, 0))
  /\ (forall u, u ∉ map sd_uuid staged -> blocks c1 !! u = blocks c !! u)
  /\ (forall d r, d ∈ staged -> blocks c !! sd_uuid d = Some r ->
       blocks c1 !! sd_uuid d = Some
         (if bool_decide (is_Some (c_deleted_at r)) then r
          else row_deleted (as_i64 now) (clamp_i64 (sat_add now (grace_nanos d))) r)).
Proof.
  intros Hnd. unfold apply_staged_deletions. case_bool_decide as He.
  { subst. split_and!; [done|done|]. by intros d r ?%elem_of_nil. }
  destruct (group_by_grace_spec staged [] ltac:(constructor)) as [_ Hg].
  fold (group_by_grace staged) in Hg.
  assert (Hg' : forall k u, (exists us, In (k, us) (group_by_grace staged) /\ u ∈ us) <->
    exists d, d ∈ staged /\ grace_nanos d = k /\ sd_uuid d = u).
  { intros k u. rewrite Hg. split; [|by right]. intros [(us & [] & _)|?]; done. }
  pose proof (fun u => grace_groups_row now (group_by_grace staged) u (c, 0)) as Hrow.
  destruct (fold_left (apply_grace_group now) (group_by_grace staged) (c, 0)) as [c1 n]; simpl in Hrow.
  assert (Hhid : forall d r, d ∈ staged -> blocks c !! sd_uuid d = Some r ->
    blocks c1 !! sd_uuid d = Some (if bool_decide (is_Some (c_deleted_at r)) then r
      else row_deleted (as_i64 now) (clamp_i64 (sat_add now (grace_nanos d))) r)).
  { intros d r Hd Hr. rewrite Hrow, Hr. case_bool_decide as Hdel; [by apply adopt_groups_hidden|].
    apply adopt_groups_some.
    - by apply eq_None_not_Some.
    - apply Hg'. eauto.
    - intros k' us Hin Hu. destruct (proj1 (Hg' k' (sd_uuid d)) (ex_intro _ us (conj Hin Hu)))
        as (d' & Hd' & <- & Heq). f_equal.
      apply (NoDup_map_inj sd_uuid staged); [done|by apply list_elem_of_In..|done]. }
  split_and!; [| |exact Hhid].
  - intros now'. apply grace_groups_id.
    intros k us u r Hin Hu Hr. simpl in Hr.
    destruct (proj1 (Hg' k u) (ex_intro _ us (conj Hin Hu))) as (d & Hd & <- & <-).
    destruct (blocks c !! sd_uuid d) as [r0|] eqn:E.
    + rewrite (Hhid d r0 Hd E) in Hr. injection Hr as <-. case_bool_decide; [done|]. simpl. eauto.
    + rewrite Hrow, E in Hr. clear -Hr. exfalso. revert Hr.
      induction (group_by_grace staged) as [|[k us'] gs IH]; cbn [fold_left]; [done|].
      unfold adopt_group at 2. case_bool_decide; apply IH.
  - intros u Hu. rewrite Hrow.
    assert (Hno : forall k us, In (k, us) (group_by_grace staged) -> u ∉ us).
    { intros k us Hin Hu'. destruct (proj1 (Hg' k u) (ex_intro _ us (conj Hin Hu'))) as (d & Hd & _ & <-).
      apply Hu, list_elem_of_In, in_map. by apply list_elem_of_In. }
    clear -Hno. induction (group_by_grace staged) as [|[k us'] gs IH]; cbn [fold_left]; [done|].
    unfold adopt_group at 2. rewrite bool_decide_eq_false_2 by (apply (Hno k us'); by left). apply IH. intros k2 us2 ?. apply (Hno k2). by right.
Qed.

Lemma staged_deletions_converge_witness :
  (apply_staged_deletions (apply_staged_deletions demo_pair
      [mkStaged 1 100 160; mkStaged 2 100 130; mkStaged 8 0 0] 1000).1
      [mkStaged 1 100 160; mkStaged 2 100 130; mkStaged 8 0 0] 5000).2 = 0
  /\ (apply_staged_deletions demo_pair [mkStaged 1 100 160; mkStaged 2 100 130; mkStaged 8 0 0] 1000).2 = 2.
Proof.
  split; [|vm_compute; reflexivity].
  pose proof (staged_deletions_converge demo_pair
    [mkStaged 1 100 160; mkStaged 2 100 130; mkStaged 8 0 0] 1000) as H.
  destruct (apply_staged_deletions demo_pair _ 1000) as [c1 n].
  rewrite (proj1 (H ltac:(apply NoDup_ListNoDup; repeat constructor; simpl; intuition discriminate))).
  reflexivity.
Defined.
