(* ===== verification/Poll.v ===== *)
(** * Bucket polling (crates/cluster/src/poll.rs)

    The backstop behind pub/sub: list sidecars of a partition (or of the bucket),
    skip those the catalog knows, fetch and insert the others, and move the poll
    cursor of every prefix in which nothing failed.  Fetches complete in any order
    ([unordered]); the parser of UUIDs, the sidecar parser and the store's answers
    are parameters. *)

From S2P Require Import Prelude Order Bytes Block Compaction Layout Catalog CatalogFacts Cluster.
From Stdlib Require Import Ascii.

Record PollReport := mkPoll {
  p_cursors : Z; p_seen : Z; p_inserted : Z; p_failed : Z; p_skipped : Z; p_fetch_failed : Z }.

Definition PollReport_default : PollReport := mkPoll 0 0 0 0 0 0.

Inductive PollError :=
| PollListing
| PollInsert
| PollIncomplete (fetch_failed : Z).

(** ** Keys *)

(** [str::strip_suffix]. *)
Fixpoint strip_suffix (s suffix : string) : option string :=
  if (s =? suffix)%string then Some ""
  else match s with
       | EmptyString => None
       | String c s => String c <$> strip_suffix s suffix
       end.

(** [rsplit_once('/')]. *)
Fixpoint rsplit_slash (s : string) : option (string * string) :=
  match s with
  | EmptyString => None
  | String c s' =>
      match rsplit_slash s' with
      | Some (d, u) => Some (String c d, u)
      | None => if Ascii.eqb c "/"%char then Some ("", s') else None
      end
  end.

Definition is_ascii_digit (c : ascii) : bool :=
  (48 <=? Z.of_nat (nat_of_ascii c)) && (Z.of_nat (nat_of_ascii c) <=? 57).

Fixpoint all_digits (s : string) : bool :=
  match s with EmptyString => true | String c s => is_ascii_digit c && all_digits s end.

(** [str::replace('-', "/")]. *)
Fixpoint dashes_to_slashes (s : string) : string :=
  match s with
  | EmptyString => ""
  | String c s => String (if Ascii.eqb c "-"%char then "/"%char else c) (dashes_to_slashes s)
  end.

Record PrefixParts := mkParts {
  pp_signal : string; pp_yyyy : string; pp_mm : string; pp_dd : string; pp_writer : Uuid }.

Section Keys.
  Context (uuid_str : Uuid -> string) (parse_uuid : string -> option Uuid).

Definition partition_prefix (signal date : string) (writer_id : Uuid) : string :=
  signal +:+ "/" +:+ dashes_to_slashes date +:+ "/" +:+ uuid_str writer_id +:+ "/".

Definition parse_prefix (prefix : string) : option PrefixParts :=
  match strip_suffix prefix "/" with
  | None => None
  | Some dir =>
      match split_slash dir with
      | [signal; yyyy; mm; dd; writer] =>
          if (signal =? "")%string || negb (String.length yyyy =? 4)%nat
             || negb (String.length mm =? 2)%nat || negb (String.length dd =? 2)%nat then None
          else if negb (all_digits yyyy && all_digits mm && all_digits dd) then None
          else mkParts signal yyyy mm dd <$> parse_uuid writer
      | _ => None
      end
  end.

(** The prefix and the UUID of a sidecar's key. *)
Definition parse_block_key (loc : string) : option (string * Uuid) :=
  match strip_suffix loc ".meta.json" with
  | None => None
  | Some stem =>
      match rsplit_slash stem with
      | None => None
      | Some (dir, u) =>
          let prefix := dir +:+ "/" in
          match parse_prefix prefix with
          | None => None
          | Some _ => pair prefix <$> parse_uuid u
          end
      end
  end.

(** The smallest UUID of a millisecond, [min(cursor time, window start)]. *)
Definition lookback_offset (prefix : string) (cursor : Uuid) (window_start_ms : Z) : option string :=
  if negb (get_version_num cursor =? 7) then None
  else
    let millis := Z.shiftr cursor 80 in
    let secs := millis / 1000 in
    let nanos := millis mod 1000 * 1000000 in
    let cursor_ms := secs * 1000 + nanos / 1000000 in
    let start_ms := Z.min cursor_ms window_start_ms in
    Some (prefix +:+ uuid_str (Z.shiftl (start_ms mod 2 ^ 48) 80)).
End Keys.

Definition bump_high (high : gmap string Uuid) (prefix : string) (u : Uuid) : gmap string Uuid :=
  if negb (get_version_num u =? 7) then high
  else match high !! prefix with
       | Some current => if current <? u then <[prefix := u]> high else high
       | None => <[prefix := u]> high
       end.

(** ** A pass over listed sidecars *)

Section Poll.
  Context (civil : Z -> option (string * string * string)) (today : string * string * string).
  Context (uuid_str : Uuid -> string) (parse_uuid : string -> option Uuid).
  Context (from_slice : bytes -> option BlockMeta) (store_get : string -> result StoreError bytes).
  Context (commits : BlockMeta -> bool) (now : Z).
  (** The order in which [buffer_unordered] yields. *)
  Context (unordered : list string -> list string).

Abbreviation parse_block_key := (parse_block_key parse_uuid).

Definition poison (poisoned : gset string) (loc : string) : gset string :=
  match parse_block_key loc with Some (prefix, _) => {[prefix]} ∪ poisoned | None => poisoned end.

Record Split := mkSplit {
  sp_high : gmap string Uuid; sp_fetch : list string; sp_report : PollReport }.

(** The split of the listing into known sidecars and those to fetch. *)
Definition split_one (known : option (gset Uuid)) (s : Split) (loc : string) : Split :=
  let keep := mkSplit (sp_high s) (sp_fetch s ++ [loc]) (sp_report s) in
  match known, parse_block_key loc with
  | Some known, Some (prefix, u) =>
      if bool_decide (u ∈ known) then
        let r := sp_report s in
        mkSplit (bump_high (sp_high s) prefix u) (sp_fetch s)
          (mkPoll (p_cursors r) (p_seen r + 1) (p_inserted r) (p_failed r) (p_skipped r + 1)
             (p_fetch_failed r))
      else keep
  | _, _ => keep
  end.

Record Fetched := mkFetched {
  f_catalog : Catalog; f_high : gmap string Uuid; f_poisoned : gset string; f_report : PollReport }.

Definition report_seen (r : PollReport) : PollReport :=
  mkPoll (p_cursors r) (p_seen r + 1) (p_inserted r) (p_failed r) (p_skipped r) (p_fetch_failed r).
Definition report_failed (r : PollReport) : PollReport :=
  mkPoll (p_cursors r) (p_seen r) (p_inserted r) (p_failed r + 1) (p_skipped r) (p_fetch_failed r).
Definition report_fetch_failed (r : PollReport) : PollReport :=
  mkPoll (p_cursors r) (p_seen r) (p_inserted r) (p_failed r) (p_skipped r) (p_fetch_failed r + 1).
Definition report_inserted (r : PollReport) (b : bool) : PollReport :=
  mkPoll (p_cursors r) (p_seen r) (p_inserted r + b2i b) (p_failed r) (p_skipped r) (p_fetch_failed r).

(** The body of the fetch loop. *)
Definition fetch_one (s : Fetched) (loc : string) : Fetched * result PollError unit :=
  let r := report_seen (f_report s) in
  match store_get loc with
  | Err NotFound => (mkFetched (f_catalog s) (f_high s) (f_poisoned s) r, Ok tt)
  | Err _ => (mkFetched (f_catalog s) (f_high s) (poison (f_poisoned s) loc) (report_fetch_failed r), Ok tt)
  | Ok b =>
      match from_slice b with
      | None => (mkFetched (f_catalog s) (f_high s) (poison (f_poisoned s) loc) (report_failed r), Ok tt)
      | Some m =>
          let m := with_json_size m (zlen b) in
          if commits m then
            let '(c, ins) := insert_block civil today now (f_catalog s) m in
            let prefix := partition_prefix uuid_str (signal m)
                            (date_dir civil today (ts_min_unix_nano m)) (writer_id m) in
            (mkFetched c (bump_high (f_high s) prefix (uuid m)) (f_poisoned s) (report_inserted r ins), Ok tt)
          else (mkFetched (f_catalog s) (f_high s) (f_poisoned s) r, Err PollInsert)
      end
  end.

Fixpoint fetch_loop (s : Fetched) (locs : list string) : Fetched * result PollError unit :=
  match locs with
  | [] => (s, Ok tt)
  | loc :: locs =>
      let '(s, r) := fetch_one s loc in
      match r with Ok _ => fetch_loop s locs | Err e => (s, Err e) end
  end.

(** The cursor of one prefix. *)
Definition advance_one (poisoned : gset string) (c : Catalog) (h : string * Uuid) : Catalog :=
  if bool_decide (h.1 ∈ poisoned) then c
  else match parse_prefix parse_uuid h.1 with
       | None => c
       | Some p => advance_cursor c (pp_signal p) (pp_writer p)
                     (pp_yyyy p +:+ "-" +:+ pp_mm p +:+ "-" +:+ pp_dd p) h.2
       end.

Definition fetch_and_apply (c : Catalog) (locations : list string) (known : option (gset Uuid))
    (report : PollReport) : Catalog * PollReport * result PollError unit :=
  let sp := fold_left (split_one known) locations (mkSplit ∅ [] report) in
  let '(s, r) := fetch_loop (mkFetched c (sp_high sp) ∅ (sp_report sp)) (unordered (sp_fetch sp)) in
  match r with
  | Err e => (f_catalog s, f_report s, Err e)
  | Ok _ => (fold_left (advance_one (f_poisoned s)) (map_to_list (f_high s)) (f_catalog s),
             f_report s, Ok tt)
  end.

(** [collect_meta_locations] and its variant with an offset, over what the store
    lists. *)
Fixpoint collect_meta_locations (listing : list (result StoreError string))
    : result PollError (list string) :=
  match listing with
  | [] => Ok []
  | Err _ :: _ => Err PollListing
  | Ok loc :: listing =>
      let? rest := collect_meta_locations listing in
      Ok (if is_reserved_control_key loc then rest
          else if ends_with loc ".meta.json" then loc :: rest else rest)
  end.

(** What the store lists below a prefix, from an offset on; now in milliseconds. *)
Context (list_from : option string -> option string -> list (result StoreError string)).
Context (now_ms : Z).

Definition probe_known (c : Catalog) (locations : list string) : gset Uuid :=
  list_to_set (omap (fun loc => match parse_block_key loc with
                                | Some (_, u) => if has_block c u then Some u else None
                                | None => None
                                end) locations).

Fixpoint poll_heads (c : Catalog) (report : PollReport) (window_start_ms : Z)
    (heads : list ((string * Uuid * string) * Uuid)) : Catalog * result PollError PollReport :=
  match heads with
  | [] => (c, Ok report)
  | ((sig, writer, date), highest) :: heads =>
      let prefix := partition_prefix uuid_str sig date writer in
      match collect_meta_locations
              (list_from (Some prefix) (lookback_offset uuid_str prefix highest window_start_ms)) with
      | Err e => (c, Err e)
      | Ok locations =>
          match fetch_and_apply c locations (Some (probe_known c locations)) report with
          | (c, _, Err e) => (c, Err e)
          | (c, report, Ok _) => poll_heads c report window_start_ms heads
          end
      end
  end.

Definition poll_once (c : Catalog) (lookback_ms : Z) : Catalog * result PollError PollReport :=
  let heads := list_cursor_heads c in
  let window_start_ms := sat_sub now_ms (wrap64 lookback_ms) in
  poll_heads c (mkPoll (zlen heads) 0 0 0 0 0) window_start_ms heads.

Definition full_walk_with_grace (c : Catalog) (reap_grace : Z) : Catalog * result PollError PollReport :=
  match collect_meta_locations (list_from None None) with
  | Err e => (c, Err e)
  | Ok locations =>
      match fetch_and_apply c locations (Some (known_block_uuids c)) PollReport_default with
      | (c, _, Err e) => (c, Err e)
      | (c, report, Ok _) =>
          ((stage_unstaged_superseded c (wrap64 (now + reap_grace))).1, Ok report)
      end
  end.

Definition reconcile_partition (c : Catalog) (sig date : string) (reap_grace : Z)
    : Catalog * result PollError PollReport :=
  let prefix := sig +:+ "/" +:+ dashes_to_slashes date +:+ "/" in
  match collect_meta_locations (list_from (Some prefix) None) with
  | Err e => (c, Err e)
  | Ok locations =>
      match fetch_and_apply c locations (Some (known_block_uuids c)) PollReport_default with
      | (c, _, Err e) => (c, Err e)
      | (c, report, Ok _) =>
          if p_fetch_failed report =? 0
          then ((stage_unstaged_superseded c (wrap64 (now + reap_grace))).1, Ok report)
          else (c, Err (PollIncomplete (p_fetch_failed report)))
      end
  end.
End Poll.

(** ** Facts about keys *)

Lemma string_app_assoc (a b c : string) : (a +:+ b) +:+ c = a +:+ (b +:+ c).
Proof. induction a as [|x a IH]; [done|]. exact (f_equal (String x) IH). Qed.

Lemma strip_suffix_app s suffix r : strip_suffix s suffix = Some r -> s = r +:+ suffix.
Proof.
  revert r. induction s as [|c s IH]; intros r; cbn [strip_suffix].
  - destruct (String.eqb_spec "" suffix) as [<-|]; [intros [= <-]|]; done.
  - destruct (String.eqb_spec (String c s) suffix) as [<-|]; [by intros [= <-]|].
    intros (r' & Hr & ->)%fmap_Some. exact (f_equal (String c) (IH r' Hr)).
Qed.

Definition join_slash (l : list string) : string := String.concat "/" l.

Lemma split_slash_join s : join_slash (split_slash s) = s.
Proof.
  induction s as [|c s IH]; [done|]. cbn [split_slash]. unfold join_slash in *.
  destruct (split_slash_cons s) as (seg & segs & E). rewrite E in *.
  destruct (Ascii.eqb_spec c "/"%char) as [->|].
  - change (String.concat "/" ("" :: seg :: segs)) with (String "/"%char (String.concat "/" (seg :: segs))).
    by rewrite IH.
  - destruct segs; exact (f_equal (String c) IH).
Qed.

Lemma dashes_app a b : dashes_to_slashes (a +:+ b) = dashes_to_slashes a +:+ dashes_to_slashes b.
Proof. induction a as [|x a IH]; [done|]. exact (f_equal (String _) IH). Qed.

Lemma digits_no_dash s : all_digits s = true -> dashes_to_slashes s = s.
Proof.
  induction s as [|c s IH]; simpl; [done|]. intros [Hc Hs]%andb_true_iff. rewrite IH by done.
  destruct (Ascii.eqb_spec c "-"%char) as [->|]; [by vm_compute in Hc|done].
Qed.

Lemma app_slash_inj (a b : string) : a +:+ "/" = b +:+ "/" -> a = b.
Proof.
  revert b. induction a as [|x a IH]; intros [|y b] Heq; [done| | |].
  - exfalso. injection Heq as _ Hb. by destruct b.
  - exfalso. injection Heq as _ Ha. by destruct a.
  - injection Heq as -> Hab. f_equal. by apply IH.
Qed.

Lemma split_slash_whole s : has_slash s = false -> split_slash s = [s].
Proof.
  induction s as [|c s IH]; [done|]. cbn [has_slash split_slash]. intros [-> Hs]%orb_false_iff. by rewrite IH.
Qed.

Lemma split_slash_snoc x u : has_slash u = false -> split_slash (x +:+ "/" +:+ u) = split_slash x ++ [u].
Proof.
  intros Hu%split_slash_whole.
  induction x as [|c x IH]; [change ("" +:+ "/" +:+ u) with (String "/"%char u); cbn [split_slash]; by rewrite Hu|].
  change (String c x +:+ "/" +:+ u) with (String c (x +:+ "/" +:+ u)). cbn [split_slash]. rewrite IH.
  destruct (split_slash_cons x) as (seg & segs & ->). by destruct (Ascii.eqb c "/"%char).
Qed.

Section PollFacts.
  Context (civil : Z -> option (string * string * string)) (today : string * string * string).
  Context (uuid_str : Uuid -> string) (parse_uuid : string -> option Uuid).
  Context (from_slice : bytes -> option BlockMeta) (store_get : string -> result StoreError bytes).
  Context (commits : BlockMeta -> bool) (now : Z) (unordered : list string -> list string).
  (** Every fetch completes; a sidecar is stored under the key of its block. *)
  Hypothesis Hperm : forall l, Permutation (unordered l) l.
  Hypothesis Hkey : forall loc b m p u, store_get loc = Ok b -> from_slice b = Some m ->
    parse_block_key parse_uuid loc = Some (p, u) -> uuid m = u.

  Abbreviation fetch_loop := (fetch_loop civil today uuid_str parse_uuid from_slice store_get commits now).
  Abbreviation fetch_one := (fetch_one civil today uuid_str parse_uuid from_slice store_get commits now).

(** A listed sidecar is settled: its block has a row, or it is gone. *)
Definition settled (c : Catalog) (loc : string) (u : Uuid) : Prop :=
  is_Some (blocks c !! u) \/ store_get loc = Err NotFound.

Record fetch_inv (c0 : Catalog) (s : Fetched) (ff : Z) (done_ : list string) : Prop := {
  fi_cursors : cursors (f_catalog s) = cursors c0;
  fi_rows : forall u, is_Some (blocks c0 !! u) -> is_Some (blocks (f_catalog s) !! u);
  fi_settled : forall loc p u, loc ∈ done_ -> parse_block_key parse_uuid loc = Some (p, u) ->
    p ∈ f_poisoned s \/ settled (f_catalog s) loc u;
  fi_failed : ff <= p_fetch_failed (f_report s);
  fi_ok : p_fetch_failed (f_report s) = ff -> forall loc e, loc ∈ done_ ->
    store_get loc = Err e -> e = NotFound;
  fi_parsed : p_fetch_failed (f_report s) = ff -> forall loc b m, loc ∈ done_ ->
    store_get loc = Ok b -> from_slice b = Some m -> is_Some (blocks (f_catalog s) !! uuid m);
}.

Lemma settled_mono c c' loc u :
  (forall u, is_Some (blocks c !! u) -> is_Some (blocks c' !! u)) -> settled c loc u -> settled c' loc u.
Proof. intros H [?|?]; [left; auto|by right]. Qed.

Lemma elem_of_poison P loc p u q :
  parse_block_key parse_uuid loc = Some (p, u) -> q ∈ poison parse_uuid P loc <-> q = p \/ q ∈ P.
Proof. intros E. unfold poison. rewrite E. set_solver. Qed.

Lemma poison_mono P loc q : q ∈ P -> q ∈ poison parse_uuid P loc.
Proof. unfold poison. repeat case_match; set_solver. Qed.

Lemma fetch_one_inv c0 s ff dn loc s' :
  fetch_inv c0 s ff dn -> fetch_one s loc = (s', Ok tt) -> fetch_inv c0 s' ff (loc :: dn).
Proof.
  intros [Hc Hr Hs Hf Ho Hp]. unfold Poll.fetch_one.
  destruct (store_get loc) as [b|e] eqn:Eg.
  - destruct (from_slice b) as [m|] eqn:Em.
    + destruct (commits _); [|done].
      pose proof (insert_block_cursors civil today now (f_catalog s) (with_json_size m (zlen b))) as Hic.
      pose proof (insert_block_dom civil today now (f_catalog s) (with_json_size m (zlen b))) as Hid.
      destruct (insert_block _ _ _ _ _) as [c1 b1]. simpl in *. intros [= <-].
      assert (Hrows : forall u, is_Some (blocks (f_catalog s) !! u) -> is_Some (blocks c1 !! u))
        by (intros; apply Hid; auto).
      split; simpl; [congruence|auto| |done| |].
      * intros loc' p u [->|Hin]%elem_of_cons Hk.
        -- right. left. apply Hid. left. symmetry. by eapply Hkey.
        -- destruct (Hs loc' p u Hin Hk) as [?|?]; [by left|right]. by eapply settled_mono.
      * intros Hff loc' e [->|Hin]%elem_of_cons He; [congruence|]. by eapply Ho.
      * intros Hff loc' b' m' [->|Hin]%elem_of_cons Hg' Hm'.
        -- rewrite Eg in Hg'. injection Hg' as <-. rewrite Em in Hm'. injection Hm' as <-. apply Hid. by left.
        -- by apply Hrows, (Hp Hff loc' b').
    + intros [= <-]. split; simpl; [done|done| |done| |].
      * intros loc' p u [->|Hin]%elem_of_cons Hk.
        -- left. eapply elem_of_poison; eauto.
        -- destruct (Hs loc' p u Hin Hk) as [?|?]; [left; by apply poison_mono|by right].
      * intros Hff loc' e [->|Hin]%elem_of_cons He; [congruence|]. by eapply Ho.
      * intros Hff loc' b' m' [->|Hin]%elem_of_cons Hg' Hm'; [congruence|]. by eapply Hp.
  - assert (Hcase : e = NotFound \/ e <> NotFound) by (destruct e; auto).
    destruct Hcase as [->|Hne].
    + intros [= <-]. split; simpl; [done|done| |done| |].
      * intros loc' p u [->|Hin]%elem_of_cons Hk; [right; by right|by eapply Hs].
      * intros Hff loc' e [->|Hin]%elem_of_cons He; [congruence|]. by eapply Ho.
      * intros Hff loc' b' m' [->|Hin]%elem_of_cons Hg' Hm'; [congruence|]. by eapply Hp.
    + intros Heq. assert (s' = mkFetched (f_catalog s) (f_high s) (poison parse_uuid (f_poisoned s) loc)
        (report_fetch_failed (report_seen (f_report s)))) as -> by (destruct e; congruence). clear Heq.
      split; simpl; [done|done| |lia| |].
      * intros loc' p u [->|Hin]%elem_of_cons Hk.
        -- left. eapply elem_of_poison; eauto.
        -- destruct (Hs loc' p u Hin Hk) as [?|?]; [left; by apply poison_mono|by right].
      * intros Hff. lia.
      * intros Hff. lia.
Qed.

Lemma fetch_loop_inv c0 ff locs : forall s dn s',
  fetch_inv c0 s ff dn -> fetch_loop s locs = (s', Ok tt) -> fetch_inv c0 s' ff (rev locs ++ dn).
Proof.
  induction locs as [|loc locs IH]; intros s dn s' I; simpl; [by intros [= <-]|].
  destruct (fetch_one s loc) as [s1 [[]|e]] eqn:E; [|done]. intros Hl.
  rewrite <- app_assoc. simpl. eapply IH; [|done]. by eapply fetch_one_inv.
Qed.

(** A prefix as the code prints it, for some signal, date and writer. *)
Definition printed (p : string) : Prop := exists sig date w, p = partition_prefix uuid_str sig date w.

Lemma bump_high_keys high p u q : is_Some (bump_high high p u !! q) -> q = p \/ is_Some (high !! q).
Proof.
  unfold bump_high. destruct (decide (q = p)) as [->|Hne]; [by left|].
  repeat case_match; rewrite ?lookup_insert_ne by done; auto.
Qed.

(** Prefixes enter [high] from a listed key or as the code prints them. *)
Lemma split_high_keys known locations : forall s q,
  is_Some (sp_high (fold_left (split_one parse_uuid known) locations s) !! q) ->
  is_Some (sp_high s !! q) \/ exists loc u, loc ∈ locations /\ parse_block_key parse_uuid loc = Some (q, u).
Proof.
  induction locations as [|x locations IH]; intros s q; cbn [fold_left]; [by left|].
  intros [Hq|(loc & u & ? & ?)]%IH; [|right; exists loc, u; split; [by right|done]].
  unfold split_one in Hq. destruct known as [K|]; [|by left].
  destruct (parse_block_key parse_uuid x) as [[p u]|] eqn:E; [|by left].
  case_bool_decide; [|by left]. apply bump_high_keys in Hq as [->|?]; [|by left].
  right. exists x, u. split; [by left|done].
Qed.

Lemma fetch_loop_high locs : forall s s' r q,
  fetch_loop s locs = (s', r) -> is_Some (f_high s' !! q) -> is_Some (f_high s !! q) \/ printed q.
Proof.
  induction locs as [|loc locs IH]; intros s s' r q; cbn [Poll.fetch_loop]; [intros [= <- <-]; by left|].
  destruct (fetch_one s loc) as [s1 r1] eqn:E. intros Hl Hq.
  assert (is_Some (f_high s1 !! q) \/ printed q) as [Hq1|?]; [|clear Hl Hq; revert Hq1|by right].
  { destruct r1; [by eapply IH|]. injection Hl as <- <-. by left. }
  unfold Poll.fetch_one in E. destruct (store_get loc) as [b|[]]; try (injection E as <- <-; by left).
  destruct (from_slice b) as [m|]; [|injection E as <- <-; by left].
  destruct (commits _); [|injection E as <- <-; by left].
  destruct (insert_block _ _ _ _ _) as [c1 b1]. injection E as <- <-. cbn [f_high].
  intros [->|?]%bump_high_keys; [right|by left]. by eexists _, _, _.
Qed.

(** Cursors that move in the last loop belong to prefixes that are not poisoned. *)
Lemma advance_all_cursors poisoned k hs : forall c,
  cursors (fold_left (advance_one parse_uuid poisoned) hs c) !! k = cursors c !! k
  \/ exists h P, h ∈ hs /\ (h.1 ∉ poisoned) /\ parse_prefix parse_uuid h.1 = Some P
       /\ k = (pp_signal P, pp_writer P, pp_yyyy P +:+ "-" +:+ pp_mm P +:+ "-" +:+ pp_dd P).
Proof.
  induction hs as [|h hs IH]; intros c; cbn [fold_left]; [by left|].
  destruct (IH (advance_one parse_uuid poisoned c h)) as [->|(h' & P & ? & ?)].
  - unfold advance_one. case_bool_decide as Hp; [by left|].
    destruct (parse_prefix parse_uuid h.1) as [P|] eqn:E; [|by left].
    destruct (decide (k = (pp_signal P, pp_writer P, pp_yyyy P +:+ "-" +:+ pp_mm P +:+ "-" +:+ pp_dd P)))
      as [->|Hne].
    + right. exists h, P. split; [by left|done].
    + left. unfold advance_cursor. repeat case_match; try done; cbn [cursors set_cursors];
        by rewrite lookup_insert_ne.
  - right. exists h', P. split; [by right|done].
Qed.

Lemma advance_all_rows poisoned hs : forall c,
  blocks (fold_left (advance_one parse_uuid poisoned) hs c) = blocks c.
Proof.
  induction hs as [|h hs IH]; intros c; cbn [fold_left]; [done|]. rewrite IH. unfold advance_one.
  case_bool_decide; [done|]. destruct (parse_prefix parse_uuid h.1); [|done]. apply advance_cursor_other.
Qed.

(** The split keeps every location: to fetch, or known to the catalog. *)
Lemma split_spec known locations : forall s loc,
  loc ∈ sp_fetch s \/ loc ∈ locations ->
  (loc ∈ sp_fetch (fold_left (split_one parse_uuid known) locations s))
  \/ exists K p u, known = Some K /\ parse_block_key parse_uuid loc = Some (p, u) /\ u ∈ K.
Proof.
  induction locations as [|x locations IH]; intros s loc Hin; cbn [fold_left].
  { left. destruct Hin as [?|?%elem_of_nil]; done. }
  assert (Hone : loc ∈ sp_fetch s \/ loc = x ->
    loc ∈ sp_fetch (split_one parse_uuid known s x)
    \/ exists K p u, known = Some K /\ parse_block_key parse_uuid loc = Some (p, u) /\ u ∈ K).
  { intros Hx. unfold split_one. destruct known as [K|]; [|left; simpl; set_solver].
    destruct (parse_block_key parse_uuid x) as [[p u]|] eqn:E; [|left; simpl; set_solver].
    case_bool_decide; [|left; simpl; set_solver]. simpl.
    destruct Hx as [Hx|Hx]; [by left|right]. subst. eauto 6. }
  rewrite elem_of_cons in Hin.
  assert (Hin' : (loc ∈ sp_fetch s \/ loc = x) \/ loc ∈ locations) by tauto.
  destruct Hin' as [Hx|Hx]; [|apply IH; by right].
  destruct (Hone Hx) as [?|?]; [apply IH; by left|by right].
Qed.

Lemma split_fetch_failed known locations : forall s,
  p_fetch_failed (sp_report (fold_left (split_one parse_uuid known) locations s)) =
  p_fetch_failed (sp_report s).
Proof.
  induction locations as [|x locations IH]; intros s; cbn [fold_left]; [done|]. rewrite IH.
  unfold split_one. destruct known; [|done]. destruct (parse_block_key parse_uuid x) as [[]|]; [|done].
  by case_bool_decide.
Qed.

Abbreviation fetch_and_apply := (fetch_and_apply civil today uuid_str parse_uuid from_slice store_get
  commits now unordered).

(** What a pass that returns has done. *)
Lemma fetch_and_apply_spec c locations known report c' r' :
  (forall K u, known = Some K -> u ∈ K -> is_Some (blocks c !! u)) ->
  fetch_and_apply c locations known report = (c', r', Ok tt) ->
  exists s, (forall q, is_Some (f_high s !! q) -> printed q \/
              exists loc u, loc ∈ locations /\ parse_block_key parse_uuid loc = Some (q, u))
    /\ fetch_inv c s (p_fetch_failed report)
              (rev (unordered (sp_fetch (fold_left (split_one parse_uuid known) locations (mkSplit ∅ [] report)))) ++ [])
    /\ c' = fold_left (advance_one parse_uuid (f_poisoned s)) (map_to_list (f_high s)) (f_catalog s)
    /\ r' = f_report s
    /\ (forall u, is_Some (blocks c !! u) -> is_Some (blocks c' !! u))
    /\ (forall loc p u, loc ∈ locations -> parse_block_key parse_uuid loc = Some (p, u) ->
          p ∈ f_poisoned s \/ settled c' loc u)
    /\ (p_fetch_failed r' = p_fetch_failed report -> forall loc b m p u, loc ∈ locations ->
          parse_block_key parse_uuid loc = Some (p, u) ->
          (forall e, store_get loc = Err e -> e = NotFound) /\
          (store_get loc = Ok b -> from_slice b = Some m -> is_Some (blocks c' !! uuid m))
          \/ is_Some (blocks c' !! u)).
Proof.
  intros Hknown. unfold Poll.fetch_and_apply.
  pose proof (split_spec known locations (mkSplit ∅ [] report)) as Hsp.
  pose proof (split_fetch_failed known locations (mkSplit ∅ [] report)) as Hff. simpl in Hff.
  pose proof (split_high_keys known locations (mkSplit ∅ [] report)) as Hhigh.
  destruct (fold_left (split_one parse_uuid known) locations (mkSplit ∅ [] report)) as [hi fe rp].
  cbn [sp_high sp_fetch sp_report] in *.
  destruct (fetch_loop _ (unordered fe)) as [s [[]|e]] eqn:E; [|done].
  intros [= <- <-]. rewrite <- Hff.
  assert (I0 : fetch_inv c (mkFetched c hi ∅ rp) (p_fetch_failed rp) []).
  { split; simpl; try done.
    - by intros loc p u ?%elem_of_nil.
    - by intros _ loc e ?%elem_of_nil.
    - by intros _ loc b m ?%elem_of_nil. }
  pose proof (fetch_loop_inv _ _ _ _ _ _ I0 E) as I.
  assert (Hrows : forall u, is_Some (blocks (f_catalog s) !! u) ->
    is_Some (blocks (fold_left (advance_one parse_uuid (f_poisoned s)) (map_to_list (f_high s)) (f_catalog s)) !! u))
    by (intros u; by rewrite advance_all_rows).
  assert (Hin : forall loc, loc ∈ fe -> loc ∈ rev (unordered fe) ++ []).
  { intros loc Hl. rewrite app_nil_r, list_elem_of_In, <- in_rev, <- list_elem_of_In. by rewrite Hperm. }
  exists s. split.
  { intros q Hq. apply (fetch_loop_high _ _ _ _ _ E) in Hq as [Hq|?]; [|by left].
    apply Hhigh in Hq as [[? []%lookup_empty_Some]|?]. by right. }
  split; [done|]. split; [done|]. split; [done|]. split_and!.
  - intros u Hu. apply Hrows. by apply (fi_rows _ _ _ _ I).
  - intros loc p u Hl Hk. destruct (Hsp loc (or_intror Hl)) as [Hf|(K & p' & u' & HK & Hk' & Hu)].
    + destruct (fi_settled _ _ _ _ I loc p u (Hin loc Hf) Hk) as [?|?]; [by left|right].
      eapply settled_mono; [|done]. done.
    + right. left. simplify_eq. apply Hrows, (fi_rows _ _ _ _ I). by eapply Hknown.
  - intros Hz loc b m p u Hl Hk. destruct (Hsp loc (or_intror Hl)) as [Hf|(K & p' & u' & HK & Hk' & Hu)].
    + left. split.
      * intros e He. by eapply (fi_ok _ _ _ _ I Hz loc e (Hin loc Hf)).
      * intros Hg Hm. apply Hrows. by eapply (fi_parsed _ _ _ _ I Hz loc b m (Hin loc Hf)).
    + right. simplify_eq. apply Hrows, (fi_rows _ _ _ _ I). by eapply Hknown.
Qed.

Section Cursors.
  (** What the code relies on of the UUID library: a printed UUID parses to one that is
      printed the same, and has no slash in it. *)
  Hypothesis uuid_roundtrip : forall u v, parse_uuid (uuid_str u) = Some v -> uuid_str v = uuid_str u.
  Hypothesis uuid_slash_free : forall u, has_slash (uuid_str u) = false.

(** A printed prefix that parses is the prefix of what it parses to. *)
Lemma printed_prefix_canonical pre P :
  printed pre -> parse_prefix parse_uuid pre = Some P ->
  pre = partition_prefix uuid_str (pp_signal P)
          (pp_yyyy P +:+ "-" +:+ pp_mm P +:+ "-" +:+ pp_dd P) (pp_writer P).
Proof.
  intros (sig & date & w & Hpre). unfold parse_prefix.
  destruct (strip_suffix pre "/") as [dir|] eqn:Ed; [|done]. apply strip_suffix_app in Ed.
  set (x := sig +:+ "/" +:+ dashes_to_slashes date).
  assert (dir = x +:+ "/" +:+ uuid_str w) as Hdir.
  { apply app_slash_inj. rewrite <- Ed, Hpre. unfold x, partition_prefix. by rewrite !string_app_assoc. }
  pose proof (split_slash_join dir) as Hj. pose proof (split_slash_snoc x _ (uuid_slash_free w)) as Hsnoc.
  rewrite <- Hdir in Hsnoc.
  destruct (split_slash dir) as [|sg [|y [|m [|d [|wr [|]]]]]]; try done.
  destruct (app_inj_2 [sg; y; m; d] _ [wr] [uuid_str w] eq_refl Hsnoc) as [_ [= ->]].
  destruct (_ || _ || _ || _); [done|]. destruct (all_digits y && all_digits m && all_digits d) eqn:Ha; [|done].
  intros (u & Hu%uuid_roundtrip & ->)%fmap_Some. rewrite <- Hu in Hj. apply andb_true_iff in Ha as [[Hy Hm]%andb_true_iff Hd].
  unfold partition_prefix; cbn [pp_signal pp_yyyy pp_mm pp_dd pp_writer]. rewrite !dashes_app.
  rewrite (digits_no_dash y Hy), (digits_no_dash m Hm), (digits_no_dash d Hd).
  change (dashes_to_slashes "-") with "/".
  rewrite Ed, <- Hj. unfold join_slash. cbn [String.concat]. by rewrite !string_app_assoc.
Qed.

(** C16. A poll never moves a cursor over a block it did not apply: if the sidecars
    listed lie below prefixes written the way the code prints them, and a pass moved the
    cursor of a signal, writer and date, then every sidecar it listed under that
    partition's prefix is in the catalog, or its object was gone when it was fetched.  A
    failed fetch or an unparseable sidecar holds back the cursor of its prefix, whatever
    the order in which fetches complete. *)
Theorem poll_cursor_leaves_no_gap c locations known report c' r' :
  (forall loc p u, loc ∈ locations -> parse_block_key parse_uuid loc = Some (p, u) -> printed p) ->
  (forall K u, known = Some K -> u ∈ K -> is_Some (blocks c !! u)) ->
  fetch_and_apply c locations known report = (c', r', Ok tt) ->
  forall sig writer date,
  cursors c' !! (sig, writer, date) = cursors c !! (sig, writer, date)
  \/ forall loc u, loc ∈ locations ->
       parse_block_key parse_uuid loc = Some (partition_prefix uuid_str sig date writer, u) ->
       is_Some (blocks c' !! u) \/ store_get loc = Err NotFound.
Proof.
  intros Hlisted Hknown Hrun sig writer date.
  destruct (fetch_and_apply_spec _ _ _ _ _ _ Hknown Hrun) as (s & Hhigh & I & -> & -> & _ & Hset & _).
  destruct (advance_all_cursors (f_poisoned s) (sig, writer, date) (map_to_list (f_high s)) (f_catalog s))
    as [Hc|(h & P & Hh & Hp & HP & Hk)].
  - left. rewrite Hc. by rewrite (fi_cursors _ _ _ _ I).
  - right. intros loc u Hl Hkey'.
    assert (printed h.1) as Hpr.
    { destruct h as [q v]. apply elem_of_map_to_list in Hh. destruct (Hhigh q ltac:(eauto)) as [?|(loc' & u' & ? & ?)]; eauto. }
    apply printed_prefix_canonical in HP; [|done]. injection Hk as -> -> ->.
    rewrite <- HP in Hkey'. destruct (Hset loc _ u Hl Hkey') as [?|?]; done.
Qed.
End Cursors.

Lemma collect_meta_locations_In listing : forall locs,
  collect_meta_locations listing = Ok locs ->
  forall loc, loc ∈ locs <-> Ok loc ∈ listing /\ is_sidecar loc = true.
Proof.
  induction listing as [|[p|e] listing IH]; cbn [collect_meta_locations]; intros locs.
  - intros [= <-] loc. rewrite !elem_of_nil. tauto.
  - intros (rest & Hr & [= <-])%bind_ok loc. specialize (IH rest Hr loc).
    rewrite elem_of_cons. unfold is_sidecar in *.
    destruct (is_reserved_control_key p) eqn:E1; simpl.
    + rewrite IH. split; [naive_solver|]. intros [[[= ->]|?] ?]; [rewrite E1 in *; done|done].
    + destruct (ends_with p ".meta.json") eqn:E2.
      * rewrite elem_of_cons, IH. split; [|naive_solver].
        intros [->|?]; [rewrite E1, E2; naive_solver|naive_solver].
      * rewrite IH. split; [naive_solver|]. intros [[[= ->]|?] ?]; [rewrite E1, E2 in *; done|done].
  - done.
Qed.

(** C17. A partition reconcile that lets compaction proceed saw everything: when
    [reconcile_partition] returns a report, the listing was complete, and every
    block sidecar under the partition is in the catalog, was deleted meanwhile, or
    cannot be parsed; a single sidecar that could not be fetched refuses the merge. *)
Theorem reconcile_partition_complete list_from c sig date grace c' r' :
  reconcile_partition civil today uuid_str parse_uuid from_slice store_get commits now unordered list_from
    c sig date grace = (c', Ok r') ->
  (forall e, Err e ∉ list_from (Some (sig +:+ "/" +:+ dashes_to_slashes date +:+ "/")) None)
  /\ forall loc p u, Ok loc ∈ list_from (Some (sig +:+ "/" +:+ dashes_to_slashes date +:+ "/")) None ->
     is_sidecar loc = true -> parse_block_key parse_uuid loc = Some (p, u) ->
     is_Some (blocks c' !! u) \/ store_get loc = Err NotFound
     \/ exists b, store_get loc = Ok b /\ from_slice b = None.
Proof.
  unfold reconcile_partition. set (listing := list_from _ _).
  destruct (collect_meta_locations listing) as [locs|e] eqn:El; [|done].
  destruct (fetch_and_apply c locs (Some (known_block_uuids c)) PollReport_default) as [[c1 r1] [[]|e]] eqn:E; [|done].
  destruct (Z.eqb_spec (p_fetch_failed r1) 0) as [Hz|]; [|done]. intros [= <- <-].
  assert (Hknown : forall K u, Some (known_block_uuids c) = Some K -> u ∈ K -> is_Some (blocks c !! u)).
  { intros K u [= <-] Hu. by apply elem_of_dom. }
  destruct (fetch_and_apply_spec _ _ _ _ _ _ Hknown E) as (s & _ & _ & _ & _ & _ & _ & Hok).
  assert (Hstage : forall u, is_Some (blocks c1 !! u) ->
    is_Some (((fun r => if unstaged r then row_reap (clamp_i64 (wrap64 (now + grace))) r else r) <$> blocks c1) !! u)).
  { intros u [r Hr]. rewrite lookup_fmap, Hr. eauto. }
  split.
  - intros e He. clear -El He. revert locs El. induction listing as [|[p|e'] listing IH]; intros locs El.
    + by apply elem_of_nil in He.
    + cbn [collect_meta_locations] in El. apply bind_ok in El as (rest & Hr & _).
      apply elem_of_cons in He as [?|He]; [done|]. by eapply IH.
    + done.
  - intros loc p u Hl Hside Hk. simpl.
    assert (Hin : loc ∈ locs) by (by apply (collect_meta_locations_In listing locs El)).
    destruct (store_get loc) as [b|e] eqn:Eg.
    + destruct (from_slice b) as [m|] eqn:Em; [|right; right; eauto].
      left. apply Hstage. destruct (Hok Hz loc b m p u Hin Hk) as [[_ H]|?]; [|done].
      rewrite <- (Hkey loc b m p u Eg Em Hk). by apply H.
    + destruct (Hok Hz loc [] (with_json_size demo_merged 0) p u Hin Hk) as [[H _]|?].
      * rewrite (H e Eg). auto.
      * left. by apply Hstage.
Qed.
End PollFacts.

(** The look-back listing starts early enough: from a time-ordered cursor, the
    offset of the listing sorts before every time-ordered UUID minted at or after
    the cursor's own millisecond or the start of the look-back window, whichever is
    earlier; a cursor that is not time-ordered gives no offset, so the whole prefix
    is listed. *)
Theorem lookback_offset_covers uuid_str prefix cursor window_start_ms :
  0 <= cursor < 2 ^ 128 -> 0 <= window_start_ms ->
  (get_version_num cursor <> 7 -> lookback_offset uuid_str prefix cursor window_start_ms = None)
  /\ (get_version_num cursor = 7 -> exists o,
       lookback_offset uuid_str prefix cursor window_start_ms = Some (prefix +:+ uuid_str o)
       /\ forall u, 0 <= u -> get_version_num u = 7 ->
            Z.min (Z.shiftr cursor 80) window_start_ms <= Z.shiftr u 80 -> o < u).
Proof.
  intros Hc Hw. unfold lookback_offset. split; intros Hv.
  { by rewrite (proj2 (Z.eqb_neq _ _) Hv). }
  rewrite (proj2 (Z.eqb_eq _ _) Hv). simpl. eexists; split; [done|]. intros u Hu H7 Hle.
  rewrite Z.shiftl_mul_pow2, !Z.shiftr_div_pow2 in * by lia.
  set (ms := cursor / 2 ^ 80) in *.
  assert (Hms : 0 <= ms < 2 ^ 48).
  { subst ms. split; [apply Z.div_pos; lia|]. apply Z.div_lt_upper_bound; [lia|]. lia. }
  assert (Hid : ms / 1000 * 1000 + ms mod 1000 * 1000000 / 1000000 = ms).
  { rewrite Z.div_mul by lia. pose proof (Z.div_mod ms 1000 ltac:(lia)). lia. }
  rewrite Hid, Z.mod_small by lia.
  pose proof (Z.div_mod u (2 ^ 80) ltac:(lia)) as Hdm.
  pose proof (Z.mod_pos_bound u (2 ^ 80) ltac:(lia)) as Hmb.
  assert (Hpos : 0 < u mod 2 ^ 80).
  { destruct (Z.eq_dec (u mod 2 ^ 80) 0) as [Hz|]; [|lia]. exfalso.
    unfold get_version_num in H7. rewrite Hz, Z.add_0_r in Hdm. rewrite Hdm in H7.
    rewrite Z.shiftr_div_pow2 in H7 by lia.
    replace (2 ^ 80 * (u / 2 ^ 80)) with (u / 2 ^ 80 * 2 ^ 4 * 2 ^ 76) in H7 by lia.
    rewrite Z.div_mul in H7 by lia.
    change 15 with (Z.ones 4) in H7. rewrite Z.land_ones, Z.mod_mul in H7 by lia. done. }
  nia.
Qed.

(** ** Witnesses *)

Definition demo_id (n : Z) : Uuid := n * 2 ^ 80 + 7 * 2 ^ 76 + n.

Definition demo_uuid_str (u : Uuid) : string :=
  if u =? demo_id 1 then "a" else if u =? demo_id 2 then "b" else if u =? 9 then "w" else "z".
Definition demo_parse_uuid (s : string) : option Uuid :=
  if (s =? "a")%string || (s =? "A")%string then Some (demo_id 1) else if (s =? "b")%string then Some (demo_id 2)
  else if (s =? "w")%string then Some 9 else None.

Lemma demo_uuid_roundtrip u v : demo_parse_uuid (demo_uuid_str u) = Some v -> demo_uuid_str v = demo_uuid_str u.
Proof.
  unfold demo_uuid_str at 1 3. destruct (u =? demo_id 1); [intros [= <-]; by vm_compute|].
  destruct (u =? demo_id 2); [intros [= <-]; by vm_compute|]. destruct (u =? 9); [intros [= <-]; by vm_compute|done].
Qed.

Lemma demo_uuid_slash_free u : has_slash (demo_uuid_str u) = false.
Proof. unfold demo_uuid_str. by repeat case_match. Qed.

Definition demo_locations : list string :=
  ["logs/1970/01/01/w/a.meta.json"; "logs/1970/01/01/w/b.meta.json"].

(** The sidecar of [b] cannot be fetched ([ok = false]) or is there. *)
Definition demo_get (ok : bool) (loc : string) : result StoreError bytes :=
  if (loc =? "logs/1970/01/01/w/a.meta.json")%string then Ok [x01]
  else if (loc =? "logs/1970/01/01/w/b.meta.json")%string && ok then Ok [x02] else Err OtherError.

Definition demo_from_slice (b : bytes) : option BlockMeta :=
  match b with
  | [x01] => Some (demo_meta (demo_id 1) [])
  | [x02] => Some (demo_meta (demo_id 2) [])
  | _ => None
  end.

Lemma demo_keyed ok loc b m p u :
  demo_get ok loc = Ok b -> demo_from_slice b = Some m ->
  parse_block_key demo_parse_uuid loc = Some (p, u) -> uuid m = u.
Proof.
  unfold demo_get. destruct (String.eqb_spec loc "logs/1970/01/01/w/a.meta.json") as [->|].
  - intros [= <-] [= <-] Hk. vm_compute in Hk. injection Hk as _ <-. by vm_compute.
  - destruct (String.eqb_spec loc "logs/1970/01/01/w/b.meta.json") as [->|]; [|done].
    destruct ok; [|done]. intros [= <-] [= <-] Hk. vm_compute in Hk. injection Hk as _ <-. by vm_compute.
Qed.

Lemma demo_listed loc p u :
  loc ∈ demo_locations -> parse_block_key demo_parse_uuid loc = Some (p, u) -> printed demo_uuid_str p.
Proof.
  intros Hl%list_elem_of_In Hk. destruct Hl as [<-|[<-|[]]]; vm_compute in Hk; injection Hk as <- _;
    exists "logs", "1970-01-01", 9; by vm_compute.
Qed.

Lemma demo_nothing_known (K : gset Uuid) (u : Uuid) :
  Some ∅ = Some K -> u ∈ K -> is_Some (blocks (empty_catalog "b") !! u).
Proof. intros [= <-] Hu. by apply not_elem_of_empty in Hu. Qed.

Abbreviation demo_poll ok c := (fetch_and_apply demo_civil ("2026", "01", "01") demo_uuid_str demo_parse_uuid
  demo_from_slice (demo_get ok) (fun _ => true) 0 (@rev string) c demo_locations (Some ∅) PollReport_default).

Lemma poll_cursor_leaves_no_gap_witness :
  (demo_poll true (empty_catalog "b")).2 = Ok tt
  /\ cursors (demo_poll true (empty_catalog "b")).1.1 !! ("logs", 9, "1970-01-01") = Some (demo_id 2)
  /\ cursors (demo_poll false (empty_catalog "b")).1.1 !! ("logs", 9, "1970-01-01") = None
  /\ is_Some (blocks (demo_poll true (empty_catalog "b")).1.1 !! demo_id 1).
Proof.
  split; [vm_compute; reflexivity|]. split; [vm_compute; reflexivity|]. split; [vm_compute; reflexivity|].
  destruct (demo_poll true (empty_catalog "b")) as [[c r] [[]|e]] eqn:E; [|vm_compute in E; discriminate].
  destruct (poll_cursor_leaves_no_gap demo_civil ("2026", "01", "01") demo_uuid_str demo_parse_uuid
    demo_from_slice (demo_get true) (fun _ => true) 0 (@rev string)
    (fun l => Permutation_sym (Permutation_rev l)) (demo_keyed true)
    demo_uuid_roundtrip demo_uuid_slash_free
    (empty_catalog "b") demo_locations (Some ∅) PollReport_default c r
    demo_listed demo_nothing_known E "logs" 9 "1970-01-01") as [H|H].
  - exfalso. vm_compute in E. injection E as <- <-. vm_compute in H. discriminate.
  - destruct (H "logs/1970/01/01/w/a.meta.json" (demo_id 1)) as [?|Hn]; [left|vm_compute; reflexivity| |].
    + done.
    + discriminate.
Defined.

Lemma reconcile_partition_complete_witness :
  exists c r, reconcile_partition demo_civil ("2026", "01", "01") demo_uuid_str demo_parse_uuid
    demo_from_slice (demo_get true) (fun _ => true) 0 (@rev string)
    (fun _ _ => map Ok demo_locations) (empty_catalog "b") "logs" "1970-01-01" 5 = (c, Ok r)
  /\ is_Some (blocks c !! demo_id 2).
Proof.
  destruct (reconcile_partition demo_civil ("2026", "01", "01") demo_uuid_str demo_parse_uuid
    demo_from_slice (demo_get true) (fun _ => true) 0 (@rev string)
    (fun _ _ => map Ok demo_locations) (empty_catalog "b") "logs" "1970-01-01" 5) as [c [r|e]] eqn:E;
    [|vm_compute in E; discriminate].
  exists c, r. split; [reflexivity|].
  destruct (proj2 (reconcile_partition_complete demo_civil ("2026", "01", "01") demo_uuid_str demo_parse_uuid
    demo_from_slice (demo_get true) (fun _ => true) 0 (@rev string)
    (fun l => Permutation_sym (Permutation_rev l)) (demo_keyed true)
    (fun _ _ => map Ok demo_locations) (empty_catalog "b") "logs" "1970-01-01" 5 c r E)
    "logs/1970/01/01/w/b.meta.json" "logs/1970/01/01/w/" (demo_id 2)) as [?|[?|(b & H1 & H2)]].
  - right. left.
  - vm_compute. reflexivity.
  - vm_compute. reflexivity.
  - done.
  - discriminate.
  - injection H1 as <-. discriminate.
Defined.

Lemma lookback_offset_covers_witness :
  exists o, lookback_offset demo_uuid_str "p/" (demo_id 5) 3 = Some ("p/" +:+ demo_uuid_str o)
    /\ o < demo_id 4.
Proof.
  destruct (proj2 (lookback_offset_covers demo_uuid_str "p/" (demo_id 5) 3
    ltac:(vm_compute; split; [discriminate|reflexivity]) ltac:(lia)) ltac:(vm_compute; reflexivity))
    as (o & H1 & H2).
  exists o. split; [exact H1|]. apply H2; vm_compute; first [reflexivity|discriminate].
Defined.
