(* ===== verification/CompactResource.v ===== *)
(** * CompactResource: the memory envelope of compaction

    crates/compact/src/resource.rs (the limits, their check and the weighted
    admission), the estimate of crates/compact/src/engine.rs and the budgets of
    crates/compact/src/merge.rs.  Admission is a system of concurrent callers over
    the semaphore and the atomic counters; every atomic operation of a call that
    touches units is a step of its own, so that callers interleave anywhere between
    them (the statistics [admissions] and [peak_running_units] are written with the
    step they follow). *)

From S2P Require Import Prelude Block Compaction.

Definition MIB : Z := 1024 * 1024.

(** Directories and durations are only handed on; [admission_timeout] bounds the
    wait, which may end at any time in the model. *)
Record ResourceConfig := mkResource {
  envelope_bytes : Z;
  datafusion_memory_bytes : Z;
  non_datafusion_memory_bytes : Z;
  spill_bytes : Z;
  spill_page_cache_headroom_bytes : Z;
  allow_memory_backed_spill : bool;
  output_buffer_bytes : Z;
  parquet_writer_memory_bytes : Z;
  max_waiters : Z }.

Inductive ResourceError :=
| InvalidConfig (why : string)
| MemoryBackedSpill
| Runtime
| DataFusionExhausted
| RequestTooLarge (requested_bytes budget_bytes : Z)
| SidecarLimit (component : string) (budget_bytes : Z)
| QueueFull (max_waiters : Z)
| AdmissionTimeout
| Closed.

Definition merge_fixed_bytes (c : ResourceConfig) : Z :=
  sat_add (sat_add (output_buffer_bytes c) (parquet_writer_memory_bytes c)) (8 * MIB).

Definition from_envelope (envelope : Z) : ResourceConfig :=
  mkResource envelope (Z.max (envelope / 2) (64 * MIB)) (Z.max (envelope / 4) (32 * MIB))
    (Z.max (sat_mul envelope 4) (1024 * MIB)) (envelope / 8) false (8 * MIB) (16 * MIB) 32.

Definition bytes_to_units (b : Z) : Z := sat_add b (MIB - 1) / MIB.
Definition bytes_to_capacity_units (b : Z) : Z := b / MIB.

Definition validate (c : ResourceConfig) : result ResourceError unit :=
  ensure! 128 * MIB <=? envelope_bytes c
    else InvalidConfig "compaction memory envelope must be at least 128 MiB" in
  ensure! negb ((datafusion_memory_bytes c =? 0) || (usize_max <? datafusion_memory_bytes c))
    else InvalidConfig "datafusion memory must fit usize" in
  ensure! MIB <=? non_datafusion_memory_bytes c
    else InvalidConfig "non-DataFusion memory must be at least 1 MiB" in
  ensure! bytes_to_capacity_units (non_datafusion_memory_bytes c) <=? u32_max
    else InvalidConfig "non-DataFusion memory exceeds weighted admission capacity" in
  ensure! match (checked_add (datafusion_memory_bytes c) (non_datafusion_memory_bytes c)
                   ≫= fun s => checked_add s (spill_page_cache_headroom_bytes c)) with
          | Some committed => committed <=? envelope_bytes c
          | None => false
          end
    else InvalidConfig "DataFusion, non-DataFusion, and spill page-cache budgets exceed the compaction envelope" in
  ensure! negb (spill_bytes c =? 0) else InvalidConfig "spill limit must be non-zero" in
  ensure! 5 * MIB <=? output_buffer_bytes c
    else InvalidConfig "output buffer must be at least 5 MiB for S3 multipart uploads" in
  ensure! negb (parquet_writer_memory_bytes c =? 0)
    else InvalidConfig "parquet writer memory must be non-zero" in
  ensure! match checked_add (output_buffer_bytes c) (parquet_writer_memory_bytes c) with
          | Some b => b <=? non_datafusion_memory_bytes c
          | None => false
          end
    else InvalidConfig "output and parquet writer buffers exceed the non-DataFusion budget" in
  ensure! negb (max_waiters c =? 0) else InvalidConfig "max_waiters must be non-zero" in
  Ok tt.

(** ** Weighted admission *)

(** Where a call of [admit] is, and then its permit: counted as a waiter over the
    limit, waiting, granted but not yet past the waiter's guard, past it but not
    yet counted as running, running, dropped but not yet returned to the
    semaphore. *)
Inductive Phase :=
| Overflowed
| Waiting (units : Z)
| Granted (units : Z)
| Unwaited (units : Z)
| Running (units : Z)
| Returning (units : Z).

Record CompactResources := mkResources {
  config : ResourceConfig;
  admission : Z;          (* free permits of the semaphore *)
  waiters : Z;
  running_units : Z;
  peak_running_units : Z;
  admissions : Z;
  rejected : Z;
  calls : gmap nat Phase }.

(** What the file system under the spill directory is (crates/resources). *)
Inductive FilesystemClass := Memory | Local_ | Network | Unknown.

(** [spill] is the class of the resolved spill directory, or the step that failed;
    [runtime] whether DataFusion's disk manager and runtime are built. *)
Definition resources_new (spill : result string FilesystemClass) (runtime : bool) (c : ResourceConfig)
    : result ResourceError CompactResources :=
  let? _ := validate c in
  let? class := match spill with Ok f => Ok f | Err why => Err (InvalidConfig why) end in
  ensure! allow_memory_backed_spill c || match class with Memory => false | _ => true end
    else MemoryBackedSpill in
  ensure! runtime else Runtime in
  Ok (mkResources c (bytes_to_capacity_units (non_datafusion_memory_bytes c)) 0 0 0 0 0 ∅).

Definition set_call (r : CompactResources) (id : nat) (p : Phase) : CompactResources :=
  mkResources (config r) (admission r) (waiters r) (running_units r) (peak_running_units r)
    (admissions r) (rejected r) (<[id := p]> (calls r)).
Definition end_call (r : CompactResources) (id : nat) : CompactResources :=
  mkResources (config r) (admission r) (waiters r) (running_units r) (peak_running_units r)
    (admissions r) (rejected r) (delete id (calls r)).
Definition add_waiters (r : CompactResources) (n : Z) : CompactResources :=
  mkResources (config r) (admission r) (waiters r + n) (running_units r) (peak_running_units r)
    (admissions r) (rejected r) (calls r).
Definition add_rejected (r : CompactResources) : CompactResources :=
  mkResources (config r) (admission r) (waiters r) (running_units r) (peak_running_units r)
    (admissions r) (rejected r + 1) (calls r).
Definition add_permits (r : CompactResources) (n : Z) : CompactResources :=
  mkResources (config r) (admission r + n) (waiters r) (running_units r) (peak_running_units r)
    (admissions r) (rejected r) (calls r).

(** The entry of [admit], up to the await; [None] of the result: it waits. *)
Definition admit_enter (r : CompactResources) (id : nat) (estimated_bytes : Z)
    : option (CompactResources * option ResourceError) :=
  match calls r !! id with
  | Some _ => None
  | None =>
      let units := Z.max (bytes_to_units estimated_bytes) 1 in
      let capacity := bytes_to_capacity_units (non_datafusion_memory_bytes (config r)) in
      if (capacity <? units) || (u32_max <? units) then
        Some (add_rejected r,
              Some (RequestTooLarge estimated_bytes (non_datafusion_memory_bytes (config r))))
      else
        let previous := waiters r in
        let r := add_waiters r 1 in
        if max_waiters (config r) <=? previous then
          Some (set_call (add_rejected r) id Overflowed, Some (QueueFull (max_waiters (config r))))
        else Some (set_call r id (Waiting units), None)
  end.

(** The drop of the waiter's guard. *)
Definition drop_waiter (r : CompactResources) (id : nat) : option CompactResources :=
  match calls r !! id with
  | Some Overflowed => Some (end_call (add_waiters r (-1)) id)
  | Some (Granted units) => Some (set_call (add_waiters r (-1)) id (Unwaited units))
  | _ => None
  end.

(** The semaphore hands out the permits. *)
Definition acquire (r : CompactResources) (id : nat) : option CompactResources :=
  match calls r !! id with
  | Some (Waiting units) =>
      if units <=? admission r then Some (set_call (add_permits r (- units)) id (Granted units))
      else None
  | _ => None
  end.

(** A wait that times out, or a call that is dropped while it waits. *)
Definition give_up_wait (r : CompactResources) (id : nat) (timed_out : bool) : option CompactResources :=
  match calls r !! id with
  | Some (Waiting _) =>
      let r := end_call (add_waiters r (-1)) id in
      Some (if timed_out then add_rejected r else r)
  | _ => None
  end.

(** The counters of an admitted call. *)
Definition admit_done (r : CompactResources) (id : nat) : option CompactResources :=
  match calls r !! id with
  | Some (Unwaited units) =>
      let running := running_units r + units in
      Some (mkResources (config r) (admission r) (waiters r) running
              (Z.max (peak_running_units r) running) (admissions r + 1) (rejected r)
              (<[id := Running units]> (calls r)))
  | _ => None
  end.

Definition reserved_bytes (units : Z) : Z := sat_mul units MIB.

(** [Drop for ResourcePermit], then the drop of its field. *)
Definition drop_permit (r : CompactResources) (id : nat) : option CompactResources :=
  match calls r !! id with
  | Some (Running units) =>
      Some (mkResources (config r) (admission r) (waiters r) (running_units r - units)
              (peak_running_units r) (admissions r) (rejected r) (<[id := Returning units]> (calls r)))
  | _ => None
  end.
Definition return_permit (r : CompactResources) (id : nat) : option CompactResources :=
  match calls r !! id with
  | Some (Returning units) => Some (end_call (add_permits r units) id)
  | _ => None
  end.

Definition weighted_running_bytes (r : CompactResources) : Z := sat_mul (running_units r) MIB.
Definition weighted_peak_bytes (r : CompactResources) : Z := sat_mul (peak_running_units r) MIB.

Inductive Step :=
| SEnter (id : nat) (estimated_bytes : Z)
| SDropWaiter (id : nat)
| SAcquire (id : nat)
| SGiveUp (id : nat) (timed_out : bool)
| SDone (id : nat)
| SDropPermit (id : nat)
| SReturn (id : nat).

Definition rstep (r : CompactResources) (s : Step) : option CompactResources :=
  match s with
  | SEnter id b => fst <$> admit_enter r id b
  | SDropWaiter id => drop_waiter r id
  | SAcquire id => acquire r id
  | SGiveUp id t => give_up_wait r id t
  | SDone id => admit_done r id
  | SDropPermit id => drop_permit r id
  | SReturn id => return_permit r id
  end.

Fixpoint rrun (r : CompactResources) (l : list Step) : option CompactResources :=
  match l with
  | [] => Some r
  | s :: l => rstep r s ≫= fun r => rrun r l
  end.

(** ** Estimates and budgets of one merge *)

Definition BODY_BLOOM_WORKING_SET_MULTIPLIER : Z := 160.
Definition SIDECAR_DECODE_MULTIPLIER : Z := 3.
Definition META_JSON_FALLBACK_PER_INPUT : Z := 4 * 1024 * 1024.

Definition meta_json_estimate (inputs : list CatalogEntry) : Z :=
  fold_left (fun acc e => sat_add acc (default META_JSON_FALLBACK_PER_INPUT (meta_json_size_bytes (meta e))))
    inputs 0.

Definition index_size (recorded : option Z) (present : bool) (byte_size : Z) : Z :=
  match recorded with Some n => n | None => if present then byte_size else 0 end.

(** The [try_fold] over the inputs. *)
Fixpoint sidecar_sizes (acc : Z * Z) (inputs : list CatalogEntry) : option (Z * Z) :=
  match inputs with
  | [] => Some acc
  | e :: inputs =>
      let m := meta e in
      checked_add acc.1 (index_size (postings_size_bytes m) (has_postings m) (byte_size m)) ≫= fun p =>
      checked_add acc.2 (index_size (body_bloom_size_bytes m) (has_body_bloom m) (byte_size m)) ≫= fun b =>
      sidecar_sizes (p, b) inputs
  end.

Definition estimate_non_datafusion_bytes (plan : PlannedMerge) (c : ResourceConfig)
    : result ResourceError Z :=
  let too_large := Err (RequestTooLarge u64_max (non_datafusion_memory_bytes c)) in
  match sidecar_sizes (0, 0) (inputs plan) with
  | None => too_large
  | Some (postings, body_blooms) =>
      match checked_mul postings SIDECAR_DECODE_MULTIPLIER ≫= fun bytes =>
            (checked_mul body_blooms BODY_BLOOM_WORKING_SET_MULTIPLIER ≫= checked_add bytes) ≫= fun bytes =>
            checked_add bytes (merge_fixed_bytes c) ≫= fun bytes =>
            checked_add bytes (meta_json_estimate (inputs plan)) with
      | Some n => Ok n
      | None => too_large
      end
  end.

Record SidecarBudgets := mkBudgets {
  b_input_meta : Z; b_fingerprints : Z; b_bloom : Z; b_postings : Z; b_series_types : Z;
  b_output_meta : Z }.

Definition for_permit (admitted_non_df_bytes fixed_bytes meta_estimate : Z) : SidecarBudgets :=
  let scan_pool := sat_sub (sat_sub admitted_non_df_bytes fixed_bytes) meta_estimate in
  let scan_unit := scan_pool / 6 in
  mkBudgets meta_estimate scan_unit (sat_mul scan_unit 2) (sat_mul scan_unit 2) scan_unit
    (Z.max meta_estimate scan_unit).

(** ** The invariant of admission *)

(** What a call holds of the semaphore, of the running count, of the waiters, and
    whether it waits in earnest. *)
Definition held (p : Phase) : Z :=
  match p with
  | Granted u | Unwaited u | Running u | Returning u => u
  | Overflowed | Waiting _ => 0
  end.
Definition runs (p : Phase) : Z := match p with Running u => u | _ => 0 end.
Definition waits (p : Phase) : Z :=
  match p with Overflowed | Waiting _ | Granted _ => 1 | _ => 0 end.
Definition queues (p : Phase) : Z := match p with Waiting _ | Granted _ => 1 | _ => 0 end.
Definition permit (p : Phase) : Z := reserved_bytes (held p).
Definition units_of (p : Phase) : Z :=
  match p with Waiting u => u | Overflowed => 1 | _ => held p end.

Definition capacity (c : ResourceConfig) : Z :=
  bytes_to_capacity_units (non_datafusion_memory_bytes c).

Record RInv (c : ResourceConfig) (r : CompactResources) : Prop := {
  ri_config : config r = c;
  ri_units : forall id p, calls r !! id = Some p -> 1 <= units_of p <= capacity c;
  ri_admission : admission r + map_sum held (calls r) = capacity c;
  ri_free : 0 <= admission r;
  ri_running : running_units r = map_sum runs (calls r);
  ri_peak : 0 <= peak_running_units r <= capacity c;
  ri_waiters : waiters r = map_sum waits (calls r);
  ri_queue : map_sum queues (calls r) <= Z.max 0 (max_waiters c) }.

Lemma held_nonneg c r : RInv c r -> 0 <= map_sum held (calls r).
Proof.
  intros Hi. apply map_sum_nonneg. intros id p Hp. pose proof (ri_units _ _ Hi _ _ Hp).
  destruct p; simpl in *; lia.
Qed.

Lemma runs_le_held c r : RInv c r -> 0 <= map_sum runs (calls r) <= map_sum held (calls r).
Proof.
  intros Hi. split; [apply map_sum_nonneg|apply map_sum_le]; intros id p Hp;
    pose proof (ri_units _ _ Hi _ _ Hp); destruct p; simpl in *; lia.
Qed.

Lemma queues_le_waits (m : gmap nat Phase) : map_sum queues m <= map_sum waits m.
Proof. apply map_sum_le. intros _ [] _; simpl; lia. Qed.

Lemma resources_new_Ok spill runtime c r :
  resources_new spill runtime c = Ok r -> validate c = Ok tt /\
  r = mkResources c (bytes_to_capacity_units (non_datafusion_memory_bytes c)) 0 0 0 0 0 ∅.
Proof.
  unfold resources_new. intros ([] & Hv & (class & _ & Hr)%bind_ok)%bind_ok. split; [done|].
  destruct (_ || _); [|done]. destruct runtime; [|done]. by injection Hr.
Qed.

Lemma new_inv spill runtime c r : resources_new spill runtime c = Ok r -> RInv c r.
Proof.
  intros [Hv ->]%resources_new_Ok.
  assert (0 <= capacity c).
  { unfold validate in Hv. repeat (case_match; [|done]).
    unfold capacity, bytes_to_capacity_units. apply Z.div_pos; unfold MIB in *; lia. }
  split; cbn -[bytes_to_capacity_units map_sum]; rewrite ?map_sum_empty; fold (capacity c); try lia; done.
Qed.

(** Replacing, adding or ending one call, as it shows in the sums. *)
Lemma units_insert c (m : gmap nat Phase) id p :
  1 <= units_of p <= capacity c ->
  (forall i q, m !! i = Some q -> 1 <= units_of q <= capacity c) ->
  forall i q, <[id := p]> m !! i = Some q -> 1 <= units_of q <= capacity c.
Proof. intros Hp Hm i q [[<- <-]|[_ Hq]]%lookup_insert_Some; eauto. Qed.

Lemma units_delete c (m : gmap nat Phase) id :
  (forall i q, m !! i = Some q -> 1 <= units_of q <= capacity c) ->
  forall i q, delete id m !! i = Some q -> 1 <= units_of q <= capacity c.
Proof. intros Hm i q [_ Hq]%lookup_delete_Some; eauto. Qed.

Lemma sum_swap (f : Phase -> Z) (m : gmap nat Phase) id p q :
  m !! id = Some p -> map_sum f (<[id := q]> m) = map_sum f m - f p + f q.
Proof. intros Hp. rewrite map_sum_insert, (map_sum_delete f m id p Hp). lia. Qed.

Lemma sum_fresh (f : Phase -> Z) (m : gmap nat Phase) id q :
  m !! id = None -> map_sum f (<[id := q]> m) = map_sum f m + f q.
Proof. intros Hp. rewrite map_sum_insert, delete_id by done. lia. Qed.

Lemma sum_end (f : Phase -> Z) (m : gmap nat Phase) id p :
  m !! id = Some p -> map_sum f (delete id m) = map_sum f m - f p.
Proof. intros Hp. rewrite (map_sum_delete f m id p Hp). lia. Qed.

Ltac step_inv Hi Hc :=
  pose proof (runs_le_held _ _ Hi); pose proof (held_nonneg _ _ Hi);
  destruct Hi as [<- Hu Ha Hf Hr Hp Hw Hq]; pose proof (Hu _ _ Hc) as Hpu;
  split; cbn -[map_sum]; cbn [held runs waits queues units_of] in *;
  rewrite ?(sum_swap _ _ _ _ _ Hc), ?(sum_end _ _ _ _ Hc) by done;
  cbn [held runs waits queues units_of];
  try done; try lia; try (apply units_insert; [simpl; lia|done]); try (apply units_delete; done).

Lemma enter_inv c r id b r' e : RInv c r -> admit_enter r id b = Some (r', e) -> RInv c r'.
Proof.
  intros Hi. unfold admit_enter. destruct (calls r !! id) eqn:Hc; [done|]. cbv zeta.
  destruct ((_ <? _) || _) eqn:Hbig; [intros [= <- _]; by destruct Hi; split|].
  apply orb_false_iff in Hbig as [Hbig _]. apply Z.ltb_ge in Hbig.
  pose proof (queues_le_waits (calls r)).
  destruct Hi as [<- Hu Ha Hf Hr Hp Hw Hq].
  fold (capacity (config r)) in Hbig. cbn -[bytes_to_units].
  destruct (Z.leb_spec (max_waiters (config r)) (waiters r)); intros [= <- _];
    split; cbn -[map_sum bytes_to_units]; rewrite ?(sum_fresh _ _ _ _ Hc); cbn [held runs waits queues];
    try done; try lia; apply units_insert; try done; simpl; unfold capacity in *; lia.
Qed.

Lemma rstep_inv c r s r' : RInv c r -> rstep r s = Some r' -> RInv c r'.
Proof.
  intros Hi. destruct s as [id b|id|id|id t|id|id|id]; cbn [rstep].
  - destruct (admit_enter r id b) as [[r1 e]|] eqn:E; [|done]. intros [= <-]. eapply enter_inv; eauto.
  - unfold drop_waiter. destruct (calls r !! id) as [[]|] eqn:Hc; intros [= <-]; step_inv Hi Hc.
  - unfold acquire. destruct (calls r !! id) as [[]|] eqn:Hc; try done.
    destruct (Z.leb_spec units (admission r)); intros [= <-]. step_inv Hi Hc.
  - unfold give_up_wait. destruct (calls r !! id) as [[]|] eqn:Hc; try done.
    destruct t; intros [= <-]; step_inv Hi Hc.
  - unfold admit_done. destruct (calls r !! id) as [[]|] eqn:Hc; try done. intros [= <-].
    assert (map_sum runs (<[id := Running units]> (calls r)) <= map_sum held (calls r)).
    { rewrite map_sum_insert, (map_sum_delete held _ _ _ Hc). simpl.
      assert (map_sum runs (delete id (calls r)) <= map_sum held (delete id (calls r))); [|lia].
      apply map_sum_le. intros i p [_ Hl]%lookup_delete_Some. pose proof (ri_units _ _ Hi _ _ Hl).
      destruct p; simpl in *; lia. }
    rewrite (sum_swap _ _ _ _ _ Hc) in H. cbn [runs] in H. step_inv Hi Hc.
  - unfold drop_permit. destruct (calls r !! id) as [[]|] eqn:Hc; intros [= <-]; step_inv Hi Hc.
  - unfold return_permit. destruct (calls r !! id) as [[]|] eqn:Hc; intros [= <-]; step_inv Hi Hc.
Qed.

Lemma rrun_inv c l : forall r r', RInv c r -> rrun r l = Some r' -> RInv c r'.
Proof.
  induction l as [|s l IH]; intros r r' Hi; cbn [rrun]; [by intros [= <-]|].
  destruct (rstep r s) eqn:E; [|done]. apply IH. by eapply rstep_inv.
Qed.

Lemma map_sum_scale {V} (f : V -> Z) k (m : gmap nat V) : map_sum (fun v => k * f v) m = k * map_sum f m.
Proof.
  induction m as [|i v m Hi IH] using map_ind; [rewrite !map_sum_empty; lia|].
  rewrite !map_sum_insert, !delete_id by done. lia.
Qed.

(** The fields are [u64] and [usize]. *)
Definition config_in_range (c : ResourceConfig) : Prop :=
  Forall in_u64 [envelope_bytes c; datafusion_memory_bytes c; non_datafusion_memory_bytes c;
                 spill_bytes c; spill_page_cache_headroom_bytes c; output_buffer_bytes c;
                 parquet_writer_memory_bytes c; max_waiters c].

Lemma validate_budget c :
  validate c = Ok tt ->
  capacity c * MIB <= non_datafusion_memory_bytes c /\
  datafusion_memory_bytes c + non_datafusion_memory_bytes c + spill_page_cache_headroom_bytes c
    <= envelope_bytes c.
Proof.
  unfold validate. intros Hv. do 4 (case_match; [|done]).
  destruct (checked_add (datafusion_memory_bytes c) _) as [s|] eqn:Hs; [|done]. cbn in Hv.
  destruct (checked_add s _) as [t|] eqn:Ht; [|done]. case_match eqn:Hle; [|done].
  apply checked_Some in Hs as [-> ?], Ht as [-> ?]. apply Z.leb_le in Hle. split; [|lia].
  unfold capacity, bytes_to_capacity_units. rewrite Z.mul_comm. by apply Z.mul_div_le.
Qed.

Lemma permits_sum c r :
  RInv c r -> capacity c * MIB <= u64_max -> map_sum permit (calls r) = MIB * map_sum held (calls r).
Proof.
  intros Hi Hc. rewrite <- map_sum_scale. apply Z.le_antisymm; apply map_sum_le; intros id p Hp;
    pose proof (ri_units _ _ Hi _ _ Hp); unfold permit, reserved_bytes, sat_mul;
    destruct p; simpl in *; unfold u64_max, MIB in *; lia.
Qed.

(** C13. Whatever callers of [admit] do, and wherever their atomic operations
    interleave, the permits alive never reserve more than the budget outside
    DataFusion, which together with DataFusion's pool and the page-cache headroom
    stays inside the envelope; the running and peak counters report at most
    that; no more than [max_waiters] calls queue; and once every call has ended
    all permits are back and the counters are zero. *)
Theorem admission_never_overcommits spill runtime c r l r' :
  config_in_range c -> resources_new spill runtime c = Ok r -> rrun r l = Some r' ->
  map_sum permit (calls r') <= non_datafusion_memory_bytes c /\
  datafusion_memory_bytes c + map_sum permit (calls r') + spill_page_cache_headroom_bytes c
    <= envelope_bytes c /\
  weighted_running_bytes r' <= map_sum permit (calls r') /\
  weighted_peak_bytes r' <= non_datafusion_memory_bytes c /\
  map_sum queues (calls r') <= max_waiters c /\
  (calls r' = ∅ -> admission r' = capacity c /\ waiters r' = 0 /\ running_units r' = 0).
Proof.
  intros Hwf Hnew Hrun. assert (RInv c r') as Hi by (eapply rrun_inv; [by eapply new_inv|done]).
  apply resources_new_Ok in Hnew as [Hv _]. apply validate_budget in Hv as [Hcap Henv].
  unfold config_in_range in Hwf. rewrite !Forall_cons in Hwf. destruct Hwf as (_ & _ & Hn & _ & _ & _ & _ & Hm & _).
  unfold in_u64 in *. rewrite (permits_sum c) by (done || lia).
  pose proof (runs_le_held _ _ Hi). pose proof (ri_free _ _ Hi). pose proof (ri_admission _ _ Hi).
  pose proof (ri_peak _ _ Hi). pose proof (ri_queue _ _ Hi).
  unfold weighted_running_bytes, weighted_peak_bytes, sat_mul. rewrite (ri_running _ _ Hi).
  unfold MIB in *. split_and!; try lia. intros He.
  rewrite (ri_waiters _ _ Hi). rewrite He, map_sum_empty in *. rewrite map_sum_empty. lia.
Qed.

Definition demo_resources : ResourceConfig :=
  mkResource (128 * MIB) (64 * MIB) (8 * MIB) (16 * MIB) (8 * MIB) false (5 * MIB) MIB 1.

Lemma admission_never_overcommits_witness :
  exists r r', resources_new (Ok Local_) true demo_resources = Ok r /\
    rrun r [SEnter 1 (5 * MIB + 1); SEnter 2 MIB; SAcquire 1; SDropWaiter 2; SDropWaiter 1; SDone 1] = Some r' /\
    weighted_running_bytes r' = 6 * MIB /\
    map_sum permit (calls r') <= non_datafusion_memory_bytes demo_resources.
Proof.
  do 2 eexists. split; [vm_compute; reflexivity|]. split; [vm_compute; reflexivity|].
  split; [vm_compute; reflexivity|].
  eapply (admission_never_overcommits (Ok Local_) true demo_resources _
    [SEnter 1 (5 * MIB + 1); SEnter 2 MIB; SAcquire 1; SDropWaiter 2; SDropWaiter 1; SDone 1]).
  - unfold config_in_range. repeat constructor; vm_compute; discriminate.
  - vm_compute; reflexivity.
  - vm_compute; reflexivity.
Defined.

(** ** Budgets *)

Lemma sidecar_sizes_Some inputs : forall acc p b,
  sidecar_sizes acc inputs = Some (p, b) -> 0 <= acc.1 -> 0 <= acc.2 -> 0 <= p /\ 0 <= b.
Proof.
  induction inputs as [|e inputs IH]; intros acc p b; cbn [sidecar_sizes].
  - intros [= ->] ? ?. auto.
  - destruct (checked_add acc.1 _) as [p1|] eqn:Hp; [|done]. cbn.
    destruct (checked_add acc.2 _) as [b1|] eqn:Hb; [|done]. cbn. intros Hs _ _.
    apply checked_Some in Hp as [-> ?], Hb as [-> ?]. eapply IH; [exact Hs|simpl; lia|simpl; lia].
Qed.

Lemma meta_estimate_nonneg inputs :
  (forall e n, In e inputs -> meta_json_size_bytes (meta e) = Some n -> 0 <= n) ->
  0 <= meta_json_estimate inputs.
Proof.
  unfold meta_json_estimate. intros Hn. cut (forall acc, 0 <= acc ->
    0 <= fold_left (fun acc e => sat_add acc (default META_JSON_FALLBACK_PER_INPUT
           (meta_json_size_bytes (meta e)))) inputs acc); [intros Hg; apply Hg; lia|].
  induction inputs as [|e inputs IH]; intros acc Hacc; cbn [fold_left]; [done|].
  apply IH; [intros e' n He; apply Hn; by right|].
  unfold sat_add, u64_max. assert (0 <= default META_JSON_FALLBACK_PER_INPUT (meta_json_size_bytes (meta e))); [|lia].
  destruct (meta_json_size_bytes (meta e)) eqn:E; simpl; [apply (Hn e); [by left|done]|].
  unfold META_JSON_FALLBACK_PER_INPUT. lia.
Qed.

(** The permit of an admitted merge covers everything it may hold at once: the
    fixed writer buffers, the input sidecars and the four accumulators of the
    scan, and later the output sidecar; the working sets estimated for the
    postings and the blooms fit into the budget of the scan. *)
Theorem budgets_fit_permit (plan : PlannedMerge) (c : ResourceConfig) est :
  config_in_range c ->
  (forall e n, In e (inputs plan) -> meta_json_size_bytes (meta e) = Some n -> 0 <= n) ->
  estimate_non_datafusion_bytes plan c = Ok est -> est + MIB <= u64_max ->
  let permit := reserved_bytes (Z.max (bytes_to_units est) 1) in
  let b := for_permit permit (merge_fixed_bytes c) (meta_json_estimate (inputs plan)) in
  est <= permit < est + MIB + 1 /\
  merge_fixed_bytes c + b_input_meta b + b_fingerprints b + b_bloom b + b_postings b + b_series_types b
    <= permit /\
  merge_fixed_bytes c + b_output_meta b <= permit /\
  (forall p bl, sidecar_sizes (0, 0) (inputs plan) = Some (p, bl) ->
     SIDECAR_DECODE_MULTIPLIER * p + BODY_BLOOM_WORKING_SET_MULTIPLIER * bl <= 3 * b_postings b + 5).
Proof.
  intros Hwf Hmeta Hest Hbig. unfold estimate_non_datafusion_bytes in Hest.
  destruct (sidecar_sizes (0, 0) (inputs plan)) as [[p bl]|] eqn:Hs; [|done].
  destruct (sidecar_sizes_Some _ _ _ _ Hs); [simpl; lia..|].
  pose proof (meta_estimate_nonneg _ Hmeta) as Hme.
  set (me := meta_json_estimate (inputs plan)) in *.
  destruct (checked_mul p _) as [a1|] eqn:E1; [|done]. cbn in Hest.
  destruct (checked_mul bl _) as [a2|] eqn:E2; [|done]. cbn in Hest.
  destruct (checked_add a1 a2) as [a3|] eqn:E3; [|done]. cbn in Hest.
  destruct (checked_add a3 _) as [a4|] eqn:E4; [|done]. cbn in Hest.
  destruct (checked_add a4 me) as [a5|] eqn:E5; [|done]. injection Hest as [= ->].
  apply checked_Some in E1 as [-> ?], E2 as [-> ?], E3 as [-> ?], E4 as [-> ?], E5 as [-> ?].
  unfold config_in_range in Hwf. rewrite !Forall_cons in Hwf.
  assert (0 <= merge_fixed_bytes c) as Hfix.
  { unfold merge_fixed_bytes, sat_add, in_u64, u64_max, MIB in *. lia. }
  set (fx := merge_fixed_bytes c) in *. clearbody fx me. cbv zeta.
  unfold reserved_bytes, bytes_to_units, for_permit, sat_add, sat_sub, sat_mul, u64_max, MIB,
    SIDECAR_DECODE_MULTIPLIER, BODY_BLOOM_WORKING_SET_MULTIPLIER in *.
  cbn [b_input_meta b_fingerprints b_bloom b_postings b_series_types b_output_meta].
  set (e := p * 3 + bl * 160 + fx + me) in *.
  rewrite (Z.min_l (e + _)) by lia.
  assert (e <= Z.max ((e + (1024 * 1024 - 1)) / (1024 * 1024)) 1 * (1024 * 1024) < e + 1024 * 1024 + 1).
  { pose proof (Z.div_mod (e + (1024 * 1024 - 1)) (1024 * 1024) ltac:(lia)).
    pose proof (Z.mod_pos_bound (e + (1024 * 1024 - 1)) (1024 * 1024) ltac:(lia)). lia. }
  set (pm := Z.max _ 1 * (1024 * 1024)) in *. rewrite (Z.min_l pm) by lia.
  rewrite (Z.max_l (pm - fx)) by lia. rewrite (Z.max_l (pm - fx - me)) by lia.
  pose proof (Z.div_mod (pm - fx - me) 6 ltac:(lia)).
  pose proof (Z.mod_pos_bound (pm - fx - me) 6 ltac:(lia)).
  set (u := (pm - fx - me) / 6) in *. clearbody u pm.
  split_and!; try lia. intros p' bl' [= -> ->]. lia.
Qed.

Definition demo_plan : PlannedMerge :=
  mkMerge "logs" "2026-01-01" 0 [mkEntry (demo_meta 3 []) "b" "2026-01-01" 0].

Lemma budgets_fit_permit_witness :
  estimate_non_datafusion_bytes demo_plan demo_resources = Ok (14 * MIB + 4 * MIB + 4920) /\
  14 * MIB + 4 * MIB + 4920 <= reserved_bytes (Z.max (bytes_to_units (14 * MIB + 4 * MIB + 4920)) 1).
Proof.
  split; [vm_compute; reflexivity|].
  eapply (budgets_fit_permit demo_plan demo_resources).
  - unfold config_in_range. repeat constructor; vm_compute; discriminate.
  - intros e n [<-|[]]. vm_compute. discriminate.
  - vm_compute. reflexivity.
  - vm_compute. discriminate.
Defined.
