(* ===== verification/Postings.v ===== *)
(** * Postings: merging inverted indexes

    crates/block/src/postings.rs ([merge_postings]) and the streaming k-way merge
    of crates/compact/src/merge.rs ([PostingsCursor], [merge_postings_streaming]).
    A sidecar is the list of its decoded rows; the parquet files around them are
    library code.  [BinaryHeap] under [Reverse] is a list sorted by [(key, index)],
    of which [pop] takes the head. *)

From S2P Require Import Prelude Order CompactResource.
From Stdlib Require Import Sorting.Sorted.

Abbreviation PostingsKey := (string * string)%type.
Abbreviation PostingsEntry := (PostingsKey * list Z)%type.

(** [Vec::dedup]. *)
Fixpoint dedup (l : list Z) : list Z :=
  match l with
  | x :: ((y :: _) as l') => if x =? y then dedup l' else x :: dedup l'
  | _ => l
  end.

(** [sort_unstable] then [dedup]; on integers every sort gives the same list. *)
Definition sort_dedup (l : list Z) : list Z := dedup (stable_sort Z.leb l).

(** ** The in-memory union *)

Definition merge_postings_into (inv : gmap PostingsKey (list Z)) (entries : list PostingsEntry)
    : gmap PostingsKey (list Z) :=
  fold_left (fun inv e => <[e.1 := default [] (inv !! e.1) ++ e.2]> inv) entries inv.

Definition finish_postings_merge (inv : gmap PostingsKey (list Z)) : list PostingsEntry :=
  map (fun e => (e.1, sort_dedup e.2)) (sort_by_key fst (map_to_list inv)).

Definition merge_postings (sets : list (list PostingsEntry)) : list PostingsEntry :=
  finish_postings_merge (fold_left merge_postings_into sets ∅).

(** ** The streaming merge *)

Inductive PostingsError :=
| Resource (e : ResourceError)
| MissingRow
| BatchTooLarge (total_fps : Z)
| OutOfFuel.

Record PostingsCursor := mkCursor {
  stream : list PostingsEntry;
  current : option PostingsEntry;
  row_budget : Z }.

Definition str_len (s : string) : Z := Z.of_nat (String.length s).

Definition row_bytes (e : PostingsEntry) : Z :=
  sat_add (sat_add (sat_add (str_len e.1.1) (str_len e.1.2)) (sat_mul (zlen e.2) 8)) 16.

Definition advance (c : PostingsCursor) : result PostingsError PostingsCursor :=
  match stream c with
  | [] => Ok (mkCursor [] None (row_budget c))
  | e :: rest =>
      if row_budget c <? row_bytes e
      then Err (Resource (SidecarLimit "postings row" (row_budget c)))
      else Ok (mkCursor rest (Some e) (row_budget c))
  end.

#[export] Program Instance nat_Ord : Ord nat := {| cmp := Nat.compare |}.
Next Obligation. intros. apply Nat.compare_eq_iff. Qed.
Next Obligation. intros. apply Nat.compare_antisym. Qed.
Next Obligation. intros x y z. rewrite !Nat.compare_lt_iff. lia. Qed.

Definition Heap : Type := list (PostingsKey * nat).
Definition heap_push (x : PostingsKey * nat) (h : Heap) : Heap := sort_insert cmp_leb x h.

(** The pops of the rows that share [key]. *)
Fixpoint pop_equal (key : PostingsKey) (heap : Heap) : list nat * Heap :=
  match heap with
  | (next, i) :: rest =>
      if bool_decide (next = key) then let '(ms, h) := pop_equal key rest in (i :: ms, h)
      else ([], heap)
  | [] => ([], [])
  end.

(** The loop over the matching cursors. *)
Fixpoint take_matching (limit : Z) (matching : list nat) (cursors : list PostingsCursor) (heap : Heap)
    (fps : list Z) : result PostingsError (list PostingsCursor * Heap * list Z) :=
  match matching with
  | [] => Ok (cursors, heap, fps)
  | i :: matching =>
      match cursors !! i with
      | Some (mkCursor st (Some (_, values)) budget) =>
          let requested := sat_mul (sat_add (zlen fps) (zlen values)) 8 in
          if limit <? requested then Err (Resource (RequestTooLarge requested limit))
          else
            let? c := advance (mkCursor st None budget) in
            take_matching limit matching (<[i := c]> cursors)
              (match current c with Some (next, _) => heap_push (next, i) heap | None => heap end)
              (fps ++ values)
      | _ => Err MissingRow
      end
  end.

Definition i32_max : Z := 2 ^ 31 - 1.
Definition total_fps (entries : list PostingsEntry) : Z :=
  fold_left (fun n e => n + zlen e.2) entries 0.

(** The check of [postings_record_batch]. *)
Definition postings_record_batch (entries : list PostingsEntry)
    : result PostingsError (list PostingsEntry) :=
  ensure! total_fps entries <=? i32_max else BatchTooLarge (total_fps entries) in Ok entries.

Definition entry_bytes (key : PostingsKey) (fps : list Z) : Z :=
  str_len key.1 + str_len key.2 + zlen fps * 8 + 16.

(** The [while let Some(..) = heap.pop()] loop and the last write: the batches
    handed to the writer. *)
Fixpoint merge_loop (fuel : nat) (limit batch_limit : Z) (cursors : list PostingsCursor) (heap : Heap)
    (output : list PostingsEntry) (output_bytes : Z) (written : list (list PostingsEntry))
    : result PostingsError (list (list PostingsEntry)) :=
  match heap with
  | [] =>
      if negb (bool_decide (output = [])) || bool_decide (cursors = [])
      then let? b := postings_record_batch output in Ok (written ++ [b])
      else Ok written
  | (key, i) :: heap =>
      match fuel with
      | O => Err OutOfFuel
      | S fuel =>
          let '(more, heap) := pop_equal key heap in
          let? '(cursors, heap, fps) := take_matching limit (i :: more) cursors heap [] in
          let fps := sort_dedup fps in
          let output_bytes := sat_add output_bytes (entry_bytes key fps) in
          let output := output ++ [(key, fps)] in
          if batch_limit <=? output_bytes then
            let? b := postings_record_batch output in
            merge_loop fuel limit batch_limit cursors heap [] 0 (written ++ [b])
          else merge_loop fuel limit batch_limit cursors heap output output_bytes written
      end
  end.

(** An input: its rows and the size of its largest row group. *)
Fixpoint open_cursors (per_cursor_budget : Z) (inputs : list (list PostingsEntry * Z))
    : result PostingsError (list PostingsCursor) :=
  match inputs with
  | [] => Ok []
  | (rows, largest_row_group) :: inputs =>
      ensure! negb (per_cursor_budget <? largest_row_group)
        else Resource (SidecarLimit "postings row group" per_cursor_budget) in
      let? c := advance (mkCursor rows None per_cursor_budget) in
      let? cs := open_cursors per_cursor_budget inputs in
      Ok (c :: cs)
  end.

Fixpoint initial_heap (index : nat) (cursors : list PostingsCursor) (heap : Heap) : Heap :=
  match cursors with
  | [] => heap
  | c :: cursors =>
      initial_heap (S index) cursors
        (match current c with Some (key, _) => heap_push (key, index) heap | None => heap end)
  end.

Fixpoint row_total (inputs : list (list PostingsEntry)) : nat :=
  match inputs with [] => 0 | rows :: inputs => length rows + row_total inputs end.

Definition merge_postings_streaming (inputs : list (list PostingsEntry * Z))
    (parquet_writer_memory_bytes postings_budget : Z)
    : result PostingsError (list (list PostingsEntry)) :=
  let working_budget := Z.max (postings_budget / 4) 1 in
  let per_cursor_budget := Z.max (working_budget / Z.max (zlen inputs) 1) 1 in
  let? cursors := open_cursors per_cursor_budget inputs in
  let batch_limit := Z.max (Z.min parquet_writer_memory_bytes working_budget) 1 in
  merge_loop (row_total (map fst inputs)) working_budget batch_limit cursors
    (initial_heap 0 cursors []) [] 0 [].

(** ** What a union is *)

Lemma dedup_In l x : In x (dedup l) <-> In x l.
Proof.
  induction l as [|y l IH]; [done|]. destruct l as [|z l]; [done|]. cbn [dedup].
  destruct (Z.eqb_spec y z) as [->|_]; cbn [In] in *; rewrite IH; naive_solver.
Qed.

Lemma dedup_sorted l : StronglySorted (fun x y => x <= y) l -> StronglySorted Z.lt (dedup l).
Proof.
  induction l as [|x l IH]; [by constructor|]. intros [Hs HF]%StronglySorted_inv.
  destruct l as [|y l]; [by repeat constructor|]. cbn [dedup].
  destruct (Z.eqb_spec x y) as [->|Hne]; [by apply IH|]. constructor; [by apply IH|].
  apply List.Forall_forall. intros z Hz. apply (dedup_In (y :: l) z) in Hz.
  apply StronglySorted_inv in Hs as [_ HF']. apply List.Forall_cons_iff in HF as [Hxy _].
  cbn [In] in Hz. destruct Hz as [<-|Hz]; [lia|]. rewrite List.Forall_forall in HF'. specialize (HF' z Hz). lia.
Qed.

Lemma sort_dedup_spec l :
  StronglySorted Z.lt (sort_dedup l) /\ forall x, In x (sort_dedup l) <-> In x l.
Proof.
  unfold sort_dedup. split; [|intros x; by rewrite dedup_In, stable_sort_In].
  apply dedup_sorted. eapply StronglySorted_impl; [|apply stable_sort_sorted].
  - intros x y ?. by apply Z.leb_le.
  - intros x y. rewrite !Z.leb_le. lia.
  - intros x y z. rewrite !Z.leb_le. lia.
Qed.

Lemma lt_sorted_unique l l' :
  StronglySorted Z.lt l -> StronglySorted Z.lt l' -> (forall x, In x l <-> In x l') -> l = l'.
Proof.
  intros Hl. revert l'. induction Hl as [|x l Hs IH HF]; intros l' Hl' Hx.
  - destruct l' as [|y l']; [done|]. by destruct (proj2 (Hx y) (or_introl eq_refl)).
  - destruct Hl' as [|y l' Hs' HF']; [by destruct (proj1 (Hx x) (or_introl eq_refl))|].
    rewrite List.Forall_forall in HF, HF'.
    assert (x = y) as ->.
    { destruct (proj1 (Hx x) (or_introl eq_refl)) as [|H1%HF']; [done|].
      destruct (proj2 (Hx y) (or_introl eq_refl)) as [|H2%HF]; [done|]. lia. }
    f_equal. apply IH; [done|]. intros z. split; intros Hz.
    + destruct (proj1 (Hx z) (or_intror Hz)) as [<-|]; [|done]. apply HF in Hz. lia.
    + destruct (proj2 (Hx z) (or_intror Hz)) as [<-|]; [|done]. apply HF' in Hz. lia.
Qed.

(** Some set has the row [(k, fps)]. *)
Definition has (sets : list (list PostingsEntry)) (k : PostingsKey) (fps : list Z) : Prop :=
  exists s, In s sets /\ In (k, fps) s.

(** [out] is the union of [sets]: the keys in order, each with the sorted
    fingerprints that some set lists under it. *)
Record is_union (sets : list (list PostingsEntry)) (out : list PostingsEntry) : Prop := {
  iu_sorted : bt_sorted out;
  iu_keys : forall k, In k (map fst out) <-> exists fps, has sets k fps;
  iu_values : forall k v, In (k, v) out ->
    StronglySorted Z.lt v /\ forall x, In x v <-> exists fps, has sets k fps /\ In x fps }.

Lemma is_union_unique sets out out' : is_union sets out -> is_union sets out' -> out = out'.
Proof.
  assert (forall o o', is_union sets o -> is_union sets o' -> forall p, In p o -> In p o') as Hsub.
  { intros o o' Ho Ho' [k v] Hp. assert (In k (map fst o')) as Hk.
    { apply (iu_keys _ _ Ho'), (iu_keys _ _ Ho). by apply (in_map fst) in Hp. }
    apply in_map_iff in Hk as ([k' v'] & <- & Hp'). cbn [fst] in *.
    destruct (iu_values _ _ Ho _ _ Hp) as [Hs Hx], (iu_values _ _ Ho' _ _ Hp') as [Hs' Hx'].
    by rewrite (lt_sorted_unique v v' Hs Hs' ltac:(intros x; by rewrite Hx, Hx')). }
  intros Ho Ho'. apply bt_sorted_perm_eq; [apply Ho|apply Ho'|].
  apply NoDup_Permutation.
  - apply (NoDup_fmap_1 fst), NoDup_ListNoDup, bt_sorted_keys_NoDup, Ho.
  - apply (NoDup_fmap_1 fst), NoDup_ListNoDup, bt_sorted_keys_NoDup, Ho'.
  - intros p. rewrite !list_elem_of_In. split; by apply Hsub.
Qed.

Lemma StronglySorted_map {A B} (f : A -> B) (R : B -> B -> Prop) l :
  StronglySorted (fun x y => R (f x) (f y)) l -> StronglySorted R (map f l).
Proof.
  induction 1 as [|x l Hs IH HF]; simpl; constructor; [done|].
  apply List.Forall_map. exact HF.
Qed.

Lemma sorted_keys_bt_sorted {K V} `{Ord K} (m : list (K * V)) :
  StronglySorted (fun x y => cmp_leb x y = true) (map fst m) -> NoDup (map fst m) -> bt_sorted m.
Proof.
  unfold bt_sorted. induction m as [|[k v] m IH]; cbn [map]; [constructor|].
  intros [Hs HF]%StronglySorted_inv [Hk Hn]%NoDup_cons. constructor; [by apply IH|].
  rewrite List.Forall_forall in HF |- *. intros [k' v'] Hp. cbn [fst].
  apply (in_map fst) in Hp. cbn [fst] in *. specialize (HF _ Hp). unfold cmp_leb in HF.
  destruct (cmp k k') eqn:E; try done. apply cmp_eq in E as ->.
  destruct Hk. by apply list_elem_of_In.
Qed.

(** The accumulator holds the rows of [l]. *)
Definition collects (inv : gmap PostingsKey (list Z)) (l : list PostingsEntry) : Prop :=
  forall k, match inv !! k with
            | Some v => (exists fps, In (k, fps) l) /\
                        forall x, In x v <-> exists fps, In (k, fps) l /\ In x fps
            | None => forall fps, ~ In (k, fps) l
            end.

Lemma merge_into_collects entries : forall inv l,
  collects inv l -> collects (merge_postings_into inv entries) (l ++ entries).
Proof.
  unfold merge_postings_into. induction entries as [|[k fps] entries IH]; intros inv l Hl; cbn [fold_left].
  - by rewrite app_nil_r.
  - replace (l ++ (k, fps) :: entries) with ((l ++ [(k, fps)]) ++ entries) by by rewrite <- app_assoc.
    apply IH. intros k'. cbn [fst snd]. specialize (Hl k').
    destruct (decide (k' = k)) as [->|Hne].
    + rewrite lookup_insert_eq. setoid_rewrite in_app_iff. cbn [In]. split; [naive_solver|]. intros x.
      destruct (inv !! k) as [v|]; simpl; [destruct Hl as [_ Hl]; rewrite Hl|]; naive_solver.
    + rewrite lookup_insert_ne by done. destruct (inv !! k') as [v|]; setoid_rewrite in_app_iff;
        cbn [In]; [|naive_solver]. destruct Hl as [? Hl]. split; [naive_solver|]. intros x.
      rewrite Hl. naive_solver.
Qed.

Lemma collects_concat sets : forall inv l,
  collects inv l -> collects (fold_left merge_postings_into sets inv) (l ++ concat sets).
Proof.
  induction sets as [|s sets IH]; intros inv l Hl; cbn [fold_left concat]; [by rewrite app_nil_r|].
  rewrite app_assoc. by apply IH, merge_into_collects.
Qed.

Lemma merge_postings_is_union sets : is_union sets (merge_postings sets).
Proof.
  unfold merge_postings. assert (collects (fold_left merge_postings_into sets ∅) (concat sets)) as Hc.
  { apply (collects_concat sets ∅ []). intros k. rewrite lookup_empty. intros fps []. }
  revert Hc. generalize (fold_left merge_postings_into sets ∅) as inv. intros inv Hc.
  assert (forall k fps, has sets k fps <-> In (k, fps) (concat sets)) as Hh.
  { intros k fps. unfold has. rewrite in_concat. done. }
  assert (forall k v, In (k, v) (sort_by_key (fst : PostingsEntry -> PostingsKey) (map_to_list inv)) <->
    inv !! k = Some v) as Hin.
  { intros k v. rewrite sort_by_key_In, <- list_elem_of_In. apply elem_of_map_to_list. }
  split.
  - apply sorted_keys_bt_sorted.
    + unfold finish_postings_merge. rewrite map_map. cbn [fst].
      eapply (StronglySorted_map fst), sort_by_key_sorted.
    + unfold finish_postings_merge. rewrite map_map. cbn [fst].
      rewrite sort_by_key_perm. apply NoDup_fst_map_to_list.
  - intros k. unfold finish_postings_merge. rewrite map_map. cbn [fst]. rewrite in_map_iff.
    setoid_rewrite Hh. specialize (Hc k). split.
    + intros ([k' v] & <- & Hv%Hin). cbn [fst] in *. rewrite Hv in Hc. apply Hc.
    + intros [fps Hf]. destruct (inv !! k) as [v|] eqn:E; [|by destruct (Hc fps)].
      exists (k, v). split; [done|by apply Hin].
  - intros k v Hv. apply in_map_iff in Hv as ([k' v'] & [= <- <-] & Hv%Hin). cbn [fst snd] in *.
    destruct (sort_dedup_spec v') as [Hs Hx]. split; [done|]. intros x. rewrite Hx.
    setoid_rewrite Hh. specialize (Hc k'). rewrite Hv in Hc. apply Hc.
Qed.

(** ** The loop builds the union of what is left *)

Definition pending (c : PostingsCursor) : list PostingsEntry :=
  match current c with Some e => e :: stream c | None => stream c end.

Definition cursors_ok (cs : list PostingsCursor) : Prop :=
  forall i c, cs !! i = Some c -> bt_sorted (pending c) /\ (current c = None -> stream c = []).

Definition heap_ok (heap : Heap) : Prop :=
  StronglySorted (fun x y => cmp_leb x y = true) heap /\ NoDup heap.

(** The heap holds the head of every cursor but those of [ms]. *)
Definition heads (cs : list PostingsCursor) (heap : Heap) (ms : list nat) : Prop :=
  forall k i, In (k, i) heap <->
    ~ In i ms /\ exists c fps, cs !! i = Some c /\ current c = Some (k, fps).

Definition at_key (k : PostingsKey) (cs : list PostingsCursor) (i : nat) : Prop :=
  exists c v, cs !! i = Some c /\ current c = Some (k, v).

Lemma advance_spec st b :
  match advance (mkCursor st None b) with
  | Ok c => pending c = st /\ (current c = None -> stream c = []) /\ row_budget c = b
  | Err e => exists r, e = Resource r /\ exists row, In row st /\ b < row_bytes row
  end.
Proof.
  unfold advance. destruct st as [|e rest]; cbn [stream row_budget]; [done|].
  destruct (Z.ltb_spec b (row_bytes e)); [|done]. eexists. split; [done|]. exists e. split; [by left|done].
Qed.

Lemma heap_push_ok x h : heap_ok h -> ~ In x h -> heap_ok (heap_push x h).
Proof.
  intros [Hs Hn] Hx. split.
  - apply sort_insert_sorted; [apply cmp_leb_total|apply cmp_leb_trans|done].
  - unfold heap_push. rewrite sort_insert_perm. constructor; [by rewrite list_elem_of_In|done].
Qed.

Lemma heap_push_In x y h : In y (heap_push x h) <-> y = x \/ In y h.
Proof.
  unfold heap_push. split.
  - intros Hy. eapply Permutation_in in Hy; [|apply sort_insert_perm]. destruct Hy; auto.
  - intros Hy. eapply Permutation_in; [symmetry; apply sort_insert_perm|]. destruct Hy as [->|]; simpl; auto.
Qed.

Lemma pending_total_insert cs i c c' :
  cs !! i = Some c -> length (pending c) = S (length (pending c')) ->
  S (row_total (map pending (<[i := c']> cs))) = row_total (map pending cs).
Proof.
  revert i. induction cs as [|d cs IH]; intros [|i]; [done..| |];
    change (<[0%nat := c']> (d :: cs)) with (c' :: cs) ||
    change (<[S i := c']> (d :: cs)) with (d :: <[i := c']> cs); cbn [map row_total].
  - intros [= ->] ->. lia.
  - intros Hi Hl. specialize (IH i Hi Hl). lia.
Qed.

Lemma take_matching_spec limit k ms : forall cs heap fps0,
  cursors_ok cs -> heap_ok heap -> heads cs heap ms -> List.NoDup ms -> (forall i, In i ms -> at_key k cs i) ->
  match take_matching limit ms cs heap fps0 with
  | Ok (cs', heap', fps) =>
      cursors_ok cs' /\ heap_ok heap' /\ heads cs' heap' [] /\
      (row_total (map pending cs') + length ms)%nat = row_total (map pending cs) /\
      (forall i, ~ In i ms -> cs' !! i = cs !! i) /\
      (forall i, In i ms -> exists c c', cs !! i = Some c /\ cs' !! i = Some c' /\ pending c' = stream c) /\
      (forall x, In x fps <-> In x fps0 \/ exists i c v, In i ms /\ cs !! i = Some c /\
                                   current c = Some (k, v) /\ In x v)
  | Err e => exists r, e = Resource r
  end.
Proof.
  induction ms as [|i ms IH]; intros cs heap fps0 Hcs Hh Hin Hn Hk; cbn [take_matching].
  { split_and!; try done; try (cbn [length]; lia); naive_solver. }
  destruct (Hk i (or_introl eq_refl)) as ([st cur b] & v & Hi & Hcur). cbn [current] in Hcur. subst cur.
  rewrite Hi. cbv zeta. destruct (limit <? _); [by eexists|].
  pose proof (advance_spec st b) as Ha. destruct (advance (mkCursor st None b)) as [c|e]; cbn [result_bind];
    [|destruct Ha as (r & -> & _); by exists r].
  destruct Ha as (Hp & Hnone & _). apply List.NoDup_cons_iff in Hn as [Hni Hn'].
  assert (i < length cs)%nat as Hlt by by eapply lookup_lt_Some.
  destruct (Hcs _ _ Hi) as [Hsort _]. unfold pending in Hsort. cbn in Hsort.
  assert (forall j, In j ms -> j <> i) as Hne by (intros j Hj ->; done).
  specialize (IH (<[i := c]> cs)
    (match current c with Some (next, _) => heap_push (next, i) heap | None => heap end) (fps0 ++ v)).
  match type of IH with ?A -> _ => assert A as H1 end.
  { intros j d. destruct (decide (j = i)) as [->|Hj].
    - rewrite list_lookup_insert_eq by done. intros [= <-]. split; [|done]. rewrite Hp.
      by apply StronglySorted_inv in Hsort as [? _].
    - rewrite list_lookup_insert_ne by done. apply Hcs. }
  specialize (IH H1).
  match type of IH with ?A -> _ => assert A as H2 end.
  { destruct (current c) as [[next ?]|]; [|done]. apply heap_push_ok; [done|].
    intros Hi'%Hin. destruct Hi' as [Hni' _]. apply Hni'. by left. }
  specialize (IH H2).
  match type of IH with ?A -> _ => assert A as H3 end.
  { intros k' j. trans (((k', j) = (k', i) /\ exists f, current c = Some (k', f)) \/ In (k', j) heap).
    - destruct (current c) as [[next f]|] eqn:E; [rewrite heap_push_In|]; naive_solver.
    - rewrite (Hin k' j). cbn [In]. destruct (decide (j = i)) as [->|Hj].
      + rewrite list_lookup_insert_eq by done. naive_solver.
      + rewrite list_lookup_insert_ne by done. naive_solver. }
  specialize (IH H3 Hn').
  match type of IH with ?A -> _ => assert A as H4 end.
  { intros j Hj. destruct (Hk j (or_intror Hj)) as (d & w & Hd & Hw). exists d, w.
    rewrite list_lookup_insert_ne; [done|]. intros ->. by apply (Hne j). }
  specialize (IH H4).
  destruct (take_matching _ _ _ _ _) as [[[cs' heap'] fps]|e]; [|done].
  destruct IH as (? & ? & ? & Ht & Hother & Hms & Hfps). split_and!; try done.
  - cbn [length]. pose proof (pending_total_insert cs i _ c Hi) as Hpt. rewrite Hp in Hpt.
    specialize (Hpt eq_refl). lia.
  - intros j Hj. rewrite Hother by (intros ?; apply Hj; by right).
    apply list_lookup_insert_ne. intros ->. apply Hj. by left.
  - intros j [<-|Hj].
    + exists (mkCursor st (Some (k, v)) b), c. rewrite Hother by done.
      by rewrite list_lookup_insert_eq.
    + destruct (Hms j Hj) as (d & d' & Hd & Hd' & Hpd). exists d, d'.
      rewrite list_lookup_insert_ne in Hd by (intros ->; by apply (Hne j)). done.
  - intros x. rewrite Hfps, in_app_iff. split.
    + intros [[?|?]|(j & d & w & Hj & Hd & ?)]; [by left|right|right].
      * exists i, (mkCursor st (Some (k, v)) b), v. split_and!; [by left|done..].
      * exists j, d, w. rewrite list_lookup_insert_ne in Hd by (intros ->; by apply (Hne j)).
        split; [by right|done].
    + intros [?|(j & d & w & [<-|Hj] & Hd & Hw & ?)]; [auto| |].
      * left. right. rewrite Hi in Hd. injection Hd as <-. cbn in Hw. by injection Hw as <-.
      * right. exists j, d, w. rewrite list_lookup_insert_ne by (intros ->; by apply (Hne j)). done.
Qed.

Lemma pop_equal_spec key : forall heap ms rest,
  pop_equal key heap = (ms, rest) ->
  heap = map (pair key) ms ++ rest /\ match rest with (k, _) :: _ => k <> key | [] => True end.
Proof.
  induction heap as [|[k i] heap IH]; intros ms rest; cbn [pop_equal]; [by intros [= <- <-]|].
  case_bool_decide as Hk.
  - destruct (pop_equal key heap) as [ms' h]. intros [= <- <-]. destruct (IH _ _ eq_refl) as [-> ?].
    by subst k.
  - by intros [= <- <-].
Qed.

Lemma cmp_pair_leb (k k' : PostingsKey) (i i' : nat) : cmp_leb (k, i) (k', i') = true -> cmp_leb k k' = true.
Proof.
  unfold cmp_leb. change (cmp (k, i) (k', i')) with (then_with (cmp k k') (cmp i i')).
  by destruct (cmp k k').
Qed.

Lemma cmp_leb_lt (k k' : PostingsKey) : cmp_leb k k' = true -> k' <> k -> cmp k k' = Lt.
Proof.
  unfold cmp_leb. intros Hle Hne. destruct (cmp k k') eqn:E; try done. by apply cmp_eq in E as ->.
Qed.

(** What is left of the heap after the pops of the least key is above it. *)
Lemma pop_equal_above key i heap ms rest :
  heap_ok ((key, i) :: heap) -> pop_equal key heap = (ms, rest) ->
  heap_ok rest /\ List.NoDup (i :: ms) /\
  (forall k j, In (k, j) ((key, i) :: heap) <-> (k = key /\ In j (i :: ms)) \/ In (k, j) rest) /\
  forall k j, In (k, j) rest -> cmp key k = Lt.
Proof.
  intros [Hs Hn] [-> Hhd]%pop_equal_spec.
  assert (heap_ok rest) as Hr.
  { split.
    - apply StronglySorted_inv in Hs as [Hs _]. clear Hn.
      induction ms as [|m ms IH]; [done|]. apply IH. by apply StronglySorted_inv in Hs as [Hs _].
    - apply NoDup_cons in Hn as [_ Hn]. by apply NoDup_app in Hn as (_ & _ & ?). }
  split_and!; [done| | |].
  - change ((key, i) :: map (pair key) ms ++ rest) with (map (pair key) (i :: ms) ++ rest) in Hn.
    apply NoDup_app in Hn as (Hn & _ & _). apply NoDup_ListNoDup. by eapply NoDup_fmap_1.
  - intros k j. cbn [In]. rewrite in_app_iff, in_map_iff. naive_solver.
  - intros k j Hj. apply StronglySorted_inv in Hs as [_ HF]. rewrite List.Forall_forall in HF.
    destruct rest as [|[k0 i0] rest]; [done|].
    assert (cmp key k0 = Lt) as H0.
    { apply cmp_leb_lt; [|done]. eapply cmp_pair_leb, HF. rewrite in_app_iff. right. by left. }
    destruct Hj as [[= <- <-]|Hj]; [done|].
    destruct Hr as [Hsr _]. apply StronglySorted_inv in Hsr as [_ HF']. rewrite List.Forall_forall in HF'.
    apply HF', cmp_pair_leb in Hj. unfold cmp_leb in Hj.
    destruct (cmp k0 k) eqn:E; [apply cmp_eq in E as <-; done| |done]. by eapply cmp_lt_trans.
Qed.

Lemma has_pending cs k fps :
  has (map pending cs) k fps <-> exists i c, cs !! i = Some c /\ In (k, fps) (pending c).
Proof.
  unfold has. split.
  - intros (s & Hs & Hk). apply in_map_iff in Hs as (c & <- & Hc).
    apply list_elem_of_In, list_elem_of_lookup in Hc as [i Hi]. eauto.
  - intros (i & c & Hi & Hk). exists (pending c). split; [|done]. apply in_map, list_elem_of_In.
    by eapply list_elem_of_lookup_2.
Qed.

Lemma is_union_cons ps ps' k v out :
  is_union ps' out ->
  (forall k' fps, has ps' k' fps <-> has ps k' fps /\ k' <> k) ->
  (forall k' fps, has ps k' fps -> k' <> k -> cmp k k' = Lt) ->
  (exists fps, has ps k fps) -> StronglySorted Z.lt v ->
  (forall x, In x v <-> exists fps, has ps k fps /\ In x fps) -> is_union ps ((k, v) :: out).
Proof.
  intros Ho Hp Hlt Hk Hs Hv. split.
  - constructor; [apply Ho|]. apply List.Forall_forall. intros [k' v'] Hin. cbn [fst].
    apply (in_map fst), (iu_keys _ _ Ho) in Hin as [fps [Hf Hne]%Hp]. by eapply Hlt.
  - intros k'. cbn [map fst In]. rewrite (iu_keys _ _ Ho). setoid_rewrite Hp.
    destruct (decide (k = k')) as [->|Hne]; naive_solver.
  - intros k' v' [[= <- <-]|Hin]; [done|]. destruct (iu_values _ _ Ho _ _ Hin) as [? Hx].
    split; [done|]. intros x. rewrite Hx. setoid_rewrite Hp.
    apply (in_map fst), (iu_keys _ _ Ho) in Hin as [fps [Hf Hne]%Hp]. naive_solver.
Qed.

Lemma pending_cases cs heap i c k fps :
  cursors_ok cs -> heads cs heap [] -> cs !! i = Some c -> In (k, fps) (pending c) ->
  exists k0 v0, current c = Some (k0, v0) /\ In (k0, i) heap /\
    ((k = k0 /\ fps = v0) \/ (In (k, fps) (stream c) /\ cmp k0 k = Lt)).
Proof.
  intros Hcs Hh Hi Hk. destruct (Hcs _ _ Hi) as [Hs Hnone]. unfold pending in *.
  destruct (current c) as [[k0 v0]|] eqn:E.
  - exists k0, v0. split_and!; [done|apply Hh; naive_solver|].
    apply StronglySorted_inv in Hs as [_ HF]. rewrite List.Forall_forall in HF.
    destruct Hk as [[= <- <-]|Hk]; [by left|]. right. split; [done|]. by apply (HF _ Hk).
  - rewrite Hnone in Hk by done. done.
Qed.

(** One turn of the loop. *)
Lemma merge_step cs key i heap ms rest cs' v :
  cursors_ok cs -> heads cs ((key, i) :: heap) [] -> heap_ok ((key, i) :: heap) ->
  pop_equal key heap = (ms, rest) ->
  (forall j, ~ In j (i :: ms) -> cs' !! j = cs !! j) ->
  (forall j, In j (i :: ms) -> exists c c', cs !! j = Some c /\ cs' !! j = Some c' /\ pending c' = stream c) ->
  (forall x, In x v <-> exists j c w, In j (i :: ms) /\ cs !! j = Some c /\ current c = Some (key, w) /\ In x w) ->
  forall out, is_union (map pending cs') out -> is_union (map pending cs) ((key, sort_dedup v) :: out).
Proof.
  intros Hcs Hh Hok Hpop Hother Hms Hv out Ho.
  destruct (pop_equal_above _ _ _ _ _ Hok Hpop) as (_ & _ & Hsplit & Habove).
  assert (forall j c k fps, cs !! j = Some c -> In (k, fps) (pending c) ->
    (In j (i :: ms) /\ current c = Some (key, fps) /\ k = key) \/
    (In j (i :: ms) /\ In (k, fps) (stream c) /\ cmp key k = Lt) \/
    (~ In j (i :: ms) /\ cmp key k = Lt)) as Hcase.
  { intros j c k fps Hj Hk. destruct (pending_cases _ _ _ _ _ _ Hcs Hh Hj Hk) as (k0 & v0 & Hcur & Hin & Hor).
    apply Hsplit in Hin as [[-> Hin]|Hin]; [naive_solver|].
    destruct (in_dec Nat.eq_dec j (i :: ms)) as [Hjm|Hjm].
    - assert (In (key, j) ((key, i) :: heap)) as Hj2%Hh by (apply Hsplit; auto). destruct Hj2 as (_ & d & w & Hd & Hw).
      rewrite Hj in Hd. injection Hd as <-. rewrite Hcur in Hw. injection Hw as -> ->. naive_solver.
    - right. right. split; [done|]. apply Habove in Hin. destruct Hor as [[-> _]|[_ ?]]; [done|by eapply cmp_lt_trans]. }
  destruct (sort_dedup_spec v) as [Hsort Hsd].
  eapply is_union_cons; [exact Ho| | | |done|].
  - intros k fps. rewrite !has_pending. split.
    + intros (j & c & Hj & Hk). destruct (in_dec Nat.eq_dec j (i :: ms)) as [Hjm|Hjm].
      * destruct (Hms j Hjm) as (d & d' & Hd & Hd' & Hp). rewrite Hj in Hd'. injection Hd' as <-.
        rewrite Hp in Hk. assert (In (k, fps) (pending d)) as Hk' by (unfold pending; case_match; simpl; auto).
        split; [eauto|]. assert (In (key, j) ((key, i) :: heap)) as Hj2%Hh by (apply Hsplit; auto).
        destruct Hj2 as (_ & e & w & He & Hw). rewrite Hd in He. injection He as <-.
        destruct (Hcs _ _ Hd) as [Hs _]. unfold pending in Hs. rewrite Hw in Hs.
        apply StronglySorted_inv in Hs as [_ HF]. rewrite List.Forall_forall in HF.
        apply HF in Hk. cbn [fst] in Hk. intros ->. by apply cmp_lt_ne in Hk.
      * rewrite Hother in Hj by done. split; [eauto|].
        destruct (Hcase _ _ _ _ Hj Hk) as [[? _]|[[? _]|[_ Hlt]]]; [done..|].
        intros ->. by apply cmp_lt_ne in Hlt.
    + intros [(j & c & Hj & Hk) Hne]. destruct (Hcase _ _ _ _ Hj Hk) as [(_ & _ & ?)|[(Hjm & Hst & _)|(Hjm & _)]]; [done| |].
      * destruct (Hms j Hjm) as (d & d' & Hd & Hd' & Hp). rewrite Hj in Hd. injection Hd as <-.
        exists j, d'. by rewrite Hp.
      * exists j, c. by rewrite Hother.
  - intros k fps Hk Hne. apply has_pending in Hk as (j & c & Hj & Hk).
    destruct (Hcase _ _ _ _ Hj Hk) as [(_ & _ & ?)|[(_ & _ & ?)|(_ & ?)]]; done.
  - assert (In (key, i) ((key, i) :: heap)) as Hi%Hh by by left. destruct Hi as (_ & c & w & Hc & Hw).
    exists w. apply has_pending. exists i, c. split; [done|]. unfold pending. rewrite Hw. by left.
  - intros x. rewrite Hsd, Hv. split.
    + intros (j & c & w & Hjm & Hc & Hw & Hx). exists w. split; [|done]. apply has_pending.
      exists j, c. split; [done|]. unfold pending. rewrite Hw. by left.
    + intros (fps & Hf & Hx). apply has_pending in Hf as (j & c & Hj & Hk).
      destruct (Hcase _ _ _ _ Hj Hk) as [(Hjm & Hcur & _)|[(_ & _ & Hlt)|(_ & Hlt)]].
      * by exists j, c, fps.
      * by apply cmp_lt_ne in Hlt.
      * by apply cmp_lt_ne in Hlt.
Qed.

(** ** Room: budgets under which no row is refused *)

Definition row_fits (M : Z) (c : PostingsCursor) : Prop :=
  forall e, In e (pending c) -> row_bytes e <= row_budget c /\ zlen e.2 <= M.

Definition rows_fit (M : Z) (cs : list PostingsCursor) : Prop :=
  forall i c, cs !! i = Some c -> row_fits M c.

Lemma take_matching_fits limit M ms : forall cs heap fps0,
  List.NoDup ms -> (forall i, In i ms -> exists k, at_key k cs i) -> rows_fit M cs -> 0 <= M ->
  8 * (zlen fps0 + M * zlen ms) <= limit -> limit <= u64_max ->
  exists cs' heap' fps, take_matching limit ms cs heap fps0 = Ok (cs', heap', fps) /\
    rows_fit M cs' /\ length cs' = length cs /\ zlen fps <= zlen fps0 + M * zlen ms.
Proof.
  induction ms as [|i ms IH]; intros cs heap fps0 Hn Hk Hf HM Hl Hu; cbn [take_matching].
  { do 3 eexists. split; [done|]. rewrite zlen_nil. split_and!; [done..|lia]. }
  destruct (Hk i (or_introl eq_refl)) as (k & [st cur b] & v & Hi & Hcur). cbn [current] in Hcur. subst cur.
  rewrite Hi. cbv zeta. rewrite zlen_cons in Hl |- *. rewrite (Z.mul_add_distr_l M), Z.mul_1_r in Hl |- *.
  assert (0 <= M * zlen ms) by (apply Z.mul_nonneg_nonneg; [done|apply zlen_nonneg]).
  pose proof (zlen_nonneg fps0).
  assert (zlen v <= M) as Hv by (apply (Hf _ _ Hi (k, v)); by left).
  pose proof (zlen_nonneg v).
  destruct (Z.ltb_spec limit (sat_mul (sat_add (zlen fps0) (zlen v)) 8)) as [Hbig|_].
  { exfalso. unfold sat_mul, sat_add, u64_max in *. lia. }
  pose proof (advance_spec st b) as Ha. destruct (advance (mkCursor st None b)) as [c|e]; cbn [result_bind].
  2:{ destruct Ha as (r & -> & row & Hrow & Hb). destruct (Hf _ _ Hi row) as [? _]; [by right|]. cbn in *. lia. }
  destruct Ha as (Hp & _ & Hb). apply List.NoDup_cons_iff in Hn as [Hni Hn].
  assert (i < length cs)%nat by by eapply lookup_lt_Some.
  destruct (IH (<[i := c]> cs)
    (match current c with Some (next, _) => heap_push (next, i) heap | None => heap end) (fps0 ++ v))
    as (cs' & heap' & fps & He & Hf' & Hlen & Hfp); [done| | |done| |done|].
  - intros j Hj. destruct (Hk j (or_intror Hj)) as (k' & d & w & Hd & Hw). exists k', d, w.
    rewrite list_lookup_insert_ne; [done|]. by intros ->.
  - intros j d. destruct (decide (j = i)) as [->|Hj].
    + rewrite list_lookup_insert_eq by done. intros [= <-] e He. rewrite Hp in He. rewrite Hb.
      apply (Hf _ _ Hi e). by right.
    + rewrite list_lookup_insert_ne by done. apply Hf.
  - rewrite zlen_app. lia.
  - exists cs', heap', fps. split; [exact He|]. rewrite length_insert in Hlen. rewrite zlen_app in Hfp.
    split_and!; [done..|lia].
Qed.

Lemma dedup_length l : zlen (dedup l) <= zlen l.
Proof.
  induction l as [|x l IH]; [done|]. destruct l as [|y l]; [done|].
  change (zlen (if x =? y then dedup (y :: l) else x :: dedup (y :: l)) <= zlen (x :: y :: l)).
  rewrite (zlen_cons x). destruct (x =? y); [|rewrite zlen_cons]; lia.
Qed.

Lemma sort_dedup_length l : zlen (sort_dedup l) <= zlen l.
Proof.
  unfold sort_dedup. pose proof (dedup_length (stable_sort Z.leb l)).
  unfold zlen in *. by rewrite stable_sort_length in H.
Qed.

Lemma total_fps_snoc l e : total_fps (l ++ [e]) = total_fps l + zlen e.2.
Proof. unfold total_fps. by rewrite fold_left_app. Qed.

Definition room (M limit batch_limit : Z) (cs : list PostingsCursor) (output : list PostingsEntry)
    (output_bytes : Z) : Prop :=
  rows_fit M cs /\ 0 <= M /\ 8 * (M * zlen cs) <= limit /\ batch_limit <= limit <= 2 ^ 32 /\
  0 < batch_limit /\ 0 <= 8 * total_fps output <= output_bytes /\ output_bytes < batch_limit.

Lemma at_key_lt k cs i : at_key k cs i -> (i < length cs)%nat.
Proof. intros (c & v & Hi & _). by eapply lookup_lt_Some. Qed.

Lemma at_key_count k cs ms :
  List.NoDup ms -> (forall i, In i ms -> at_key k cs i) -> zlen ms <= zlen cs.
Proof.
  intros Hn Hk. unfold zlen. apply inj_le.
  transitivity (length (seq 0 (length cs))); [|by rewrite length_seq].
  apply List.NoDup_incl_length; [done|].
  intros i Hi. apply in_seq. apply Hk, at_key_lt in Hi. lia.
Qed.

Lemma batch_fits o M limit bl cs ob :
  room M limit bl cs o ob -> exists b, postings_record_batch o = Ok b.
Proof.
  intros (_ & _ & _ & ? & ? & ? & ?). unfold postings_record_batch.
  destruct (Z.leb_spec (total_fps o) i32_max) as [|Hbig]; [eauto|]. unfold i32_max in Hbig. lia.
Qed.

Lemma batch_id o b : postings_record_batch o = Ok b -> b = o.
Proof. unfold postings_record_batch. case_match; [by intros [= <-]|done]. Qed.

Lemma drained_union cs : cursors_ok cs -> heads cs [] [] -> is_union (map pending cs) [].
Proof.
  intros Hcs Hh. assert (forall k fps, ~ has (map pending cs) k fps) as Hno.
  { intros k fps (i & c & Hi & Hk)%has_pending.
    by destruct (pending_cases _ _ _ _ _ _ Hcs Hh Hi Hk) as (k0 & v0 & _ & [] & _). }
  split; [constructor| |done]. intros k. split; [done|]. intros [fps Hf]. by destruct (Hno k fps).
Qed.

(** The first turn of the loop: what it takes and what is left. *)
Lemma loop_turn cs key i heap ms rest :
  cursors_ok cs -> heap_ok ((key, i) :: heap) -> heads cs ((key, i) :: heap) [] ->
  pop_equal key heap = (ms, rest) ->
  heap_ok rest /\ heads cs rest (i :: ms) /\ List.NoDup (i :: ms) /\
  forall j, In j (i :: ms) -> at_key key cs j.
Proof.
  intros Hcs Hok Hh Hpop.
  destruct (pop_equal_above _ _ _ _ _ Hok Hpop) as (Hr & Hn & Hsplit & Habove).
  assert (forall j, In j (i :: ms) -> at_key key cs j) as Hat.
  { intros j Hj. assert (In (key, j) ((key, i) :: heap)) as Hj2%Hh by (apply Hsplit; auto). apply Hj2. }
  split_and!; try done. intros k j. split.
  - intros Hj. assert (In (k, j) ((key, i) :: heap)) as Hj2%Hh by (apply Hsplit; auto).
    split; [|apply Hj2]. intros (c & w & Hc & Hw)%Hat. destruct Hj2 as (_ & d & u & Hd & Hu).
    rewrite Hc in Hd. injection Hd as <-. rewrite Hw in Hu. injection Hu as -> ->.
    apply Habove in Hj. by apply cmp_lt_ne in Hj.
  - intros [Hj Hc]. assert (In (k, j) ((key, i) :: heap)) as Hj2 by (apply Hh; auto).
    by apply Hsplit in Hj2 as [[_ ?]|?].
Qed.

Definition loop_result limit bl cs output ob written
    (r : result PostingsError (list (list PostingsEntry))) : Prop :=
  match r with
  | Ok bs => exists out, is_union (map pending cs) out /\ concat bs = concat written ++ output ++ out
  | Err e => e <> OutOfFuel /\ e <> MissingRow
  end /\ forall M, room M limit bl cs output ob -> is_ok r = true.

Lemma loop_end limit bl cs output ob written fuel :
  cursors_ok cs -> heads cs [] [] ->
  loop_result limit bl cs output ob written (merge_loop fuel limit bl cs [] output ob written).
Proof.
  intros Hcs Hh. replace (merge_loop _ _ _ _ _ _ _ _) with
    (if negb (bool_decide (output = [])) || bool_decide (cs = [])
     then let? b := postings_record_batch output in Ok (written ++ [b]) else Ok written) by by destruct fuel.
  destruct (_ || _) eqn:Hw.
  - split; [|intros M (b & Hb)%batch_fits; by rewrite Hb].
    destruct (postings_record_batch output) as [b|e] eqn:Hb; cbn [result_bind].
    + apply batch_id in Hb as ->. exists []. split; [by apply drained_union|].
      by rewrite concat_app, app_nil_r; cbn [concat]; rewrite app_nil_r.
    + unfold postings_record_batch in Hb. case_match; [done|]. by injection Hb as <-.
  - split; [|done]. exists []. split; [by apply drained_union|].
    apply orb_false_iff in Hw as [->%negb_false_iff%bool_decide_eq_true _]. by rewrite !app_nil_r.
Qed.

Lemma head_total cs i k : at_key k cs i -> (0 < row_total (map pending cs))%nat.
Proof.
  intros (c & v & Hi & Hv). revert i Hi.
  induction cs as [|d cs IH]; intros [|i]; [done..| |]; cbn [map row_total].
  - intros [= ->]. unfold pending. rewrite Hv. simpl. lia.
  - intros Hi. specialize (IH i Hi). lia.
Qed.

(** The sizes of one turn. *)
Lemma turn_room M limit bl cs output ob key i ms :
  room M limit bl cs output ob -> List.NoDup (i :: ms) -> (forall j, In j (i :: ms) -> at_key key cs j) ->
  forall heap, exists cs' heap' fps,
    take_matching limit (i :: ms) cs heap [] = Ok (cs', heap', fps) /\
    forall ob', ob' = sat_add ob (entry_bytes key (sort_dedup fps)) ->
      (exists b, postings_record_batch (output ++ [(key, sort_dedup fps)]) = Ok b) /\
      room M limit bl cs' [] 0 /\
      (ob' < bl -> room M limit bl cs' (output ++ [(key, sort_dedup fps)]) ob').
Proof.
  intros (Hf & HM & Hl & Hbl & Hpos & Ho & Hob) Hn Hat heap.
  pose proof (at_key_count _ _ _ Hn Hat) as Hcount.
  destruct (take_matching_fits limit M (i :: ms) cs heap []) as (cs' & heap' & fps & He & Hf' & Hlen & Hz);
    [done| |done|done| |unfold u64_max; lia|].
  { intros j Hj. eauto. }
  { rewrite zlen_nil. nia. }
  exists cs', heap', fps. split; [done|]. intros ob' ->.
  assert (zlen cs' = zlen cs) as Hcs by (unfold zlen; by rewrite Hlen).
  pose proof (sort_dedup_length fps). pose proof (zlen_nonneg (sort_dedup fps)). rewrite zlen_nil in Hz.
  assert (8 * zlen (sort_dedup fps) <= limit) by nia.
  assert (8 * zlen (sort_dedup fps) <= entry_bytes key (sort_dedup fps)).
  { unfold entry_bytes, str_len. lia. }
  assert (total_fps (output ++ [(key, sort_dedup fps)]) = total_fps output + zlen (sort_dedup fps)) as Ht
    by apply total_fps_snoc.
  split_and!.
  - unfold postings_record_batch. rewrite Ht.
    destruct (Z.leb_spec (total_fps output + zlen (sort_dedup fps)) i32_max) as [|Hbig]; [eauto|].
    unfold i32_max in Hbig. lia.
  - unfold room, total_fps. cbn [fold_left]. rewrite Hcs. split_and!; try done; lia.
  - intros Hlt. unfold room. rewrite Hcs, Ht. unfold sat_add, u64_max in *. split_and!; try done; lia.
Qed.

Lemma merge_loop_spec limit bl : forall fuel cs heap output ob written,
  cursors_ok cs -> heap_ok heap -> heads cs heap [] -> (row_total (map pending cs) <= fuel)%nat ->
  loop_result limit bl cs output ob written (merge_loop fuel limit bl cs heap output ob written).
Proof.
  induction fuel as [|fuel IH]; intros cs [|[key i] heap] output ob written Hcs Hok Hh Hfuel;
    [by apply loop_end| |by apply loop_end|].
  { destruct (proj1 (Hh key i) (or_introl eq_refl)) as [_ Hi]. apply head_total in Hi. lia. }
  cbn [merge_loop]. destruct (pop_equal key heap) as [ms rest] eqn:Hpop.
  destruct (loop_turn _ _ _ _ _ _ Hcs Hok Hh Hpop) as (Hr & Hh' & Hn & Hat).
  pose proof (take_matching_spec limit key (i :: ms) cs rest [] Hcs Hr Hh' Hn Hat) as Htm.
  pose proof (fun M Hm => turn_room M limit bl cs output ob key i ms Hm Hn Hat rest) as Hroom.
  destruct (take_matching limit (i :: ms) cs rest []) as [[[cs' heap'] fps]|e]; cbn [result_bind].
  2:{ destruct Htm as [r ->]. split; [done|]. intros M Hm. by destruct (Hroom M Hm) as (? & ? & ? & ? & _). }
  destruct Htm as (Hcs' & Hok' & Hh2 & Htot & Hother & Hms & Hfps). cbn [length] in Htot.
  pose proof (merge_step _ _ _ _ _ _ _ fps Hcs Hh Hok Hpop Hother Hms) as Hstep.
  assert (forall M, room M limit bl cs output ob ->
    (exists b, postings_record_batch (output ++ [(key, sort_dedup fps)]) = Ok b) /\
      room M limit bl cs' [] 0 /\
      (sat_add ob (entry_bytes key (sort_dedup fps)) < bl ->
       room M limit bl cs' (output ++ [(key, sort_dedup fps)]) (sat_add ob (entry_bytes key (sort_dedup fps)))))
    as Hroom'.
  { intros M Hm. destruct (Hroom M Hm) as (? & ? & ? & [= <- <- <-] & Hg). by apply Hg. }
  clear Hroom. assert (forall out, is_union (map pending cs') out ->
    is_union (map pending cs) ((key, sort_dedup fps) :: out)) as Hcons.
  { apply Hstep. intros x. rewrite Hfps. naive_solver. }
  destruct (Z.leb_spec bl (sat_add ob (entry_bytes key (sort_dedup fps)))) as [Hfull|Hfull].
  - destruct (postings_record_batch _) as [b|e] eqn:Hb; cbn [result_bind].
    + apply batch_id in Hb as ->.
      specialize (IH cs' heap' [] 0 (written ++ [output ++ [(key, sort_dedup fps)]]) Hcs' Hok' Hh2 ltac:(lia)).
      destruct IH as [IH1 IH2]. split; [|intros M Hm; apply (IH2 M), (Hroom' M Hm)].
      destruct (merge_loop _ _ _ _ _ _ _ _) as [bs|e]; [|done].
      destruct IH1 as (out & Hu & He). exists ((key, sort_dedup fps) :: out). split; [by apply Hcons|].
      rewrite He, concat_app. cbn [concat]. rewrite !app_nil_r, <- !app_assoc. done.
    + unfold postings_record_batch in Hb. split.
      * case_match; [done|]. by injection Hb as <-.
      * intros M Hm. destruct (Hroom' M Hm) as [[b Hb'] _]. unfold postings_record_batch in Hb'. congruence.
  - specialize (IH cs' heap' (output ++ [(key, sort_dedup fps)]) (sat_add ob (entry_bytes key (sort_dedup fps)))
      written Hcs' Hok' Hh2 ltac:(lia)).
    destruct IH as [IH1 IH2]. split; [|intros M Hm; apply (IH2 M), (Hroom' M Hm); done].
    destruct (merge_loop _ _ _ _ _ _ _ _) as [bs|e]; [|done].
    destruct IH1 as (out & Hu & He). exists ((key, sort_dedup fps) :: out). split; [by apply Hcons|].
    rewrite He. by rewrite <- app_assoc.
Qed.

Lemma open_cursors_spec b inputs :
  match open_cursors b inputs with
  | Ok cs => map pending cs = map fst inputs /\
             forall i c, cs !! i = Some c -> row_budget c = b /\ (current c = None -> stream c = [])
  | Err e => exists r, e = Resource r
  end /\
  ((forall rows g, In (rows, g) inputs -> g <= b /\ forall e, In e rows -> row_bytes e <= b) ->
   is_ok (open_cursors b inputs) = true).
Proof.
  induction inputs as [|[rows g] inputs IH]; cbn [open_cursors]; [by split_and!|].
  destruct (Z.ltb_spec b g) as [Hg|Hg]; cbn [negb].
  { split; [by eexists|]. intros Hr. destruct (Hr rows g (or_introl eq_refl)). lia. }
  pose proof (advance_spec rows b) as Ha. destruct (advance (mkCursor rows None b)) as [c|e]; cbn [result_bind].
  2:{ destruct Ha as (r & -> & row & Hin & Hb). split; [by eexists|]. intros Hr.
      destruct (Hr rows g (or_introl eq_refl)) as [_ Hr']. specialize (Hr' row Hin). lia. }
  destruct Ha as (Hp & Hnone & Hb). destruct IH as [IH1 IH2].
  assert ((forall rows0 g0, In (rows0, g0) ((rows, g) :: inputs) -> g0 <= b /\ forall e, In e rows0 -> row_bytes e <= b) ->
    is_ok (open_cursors b inputs) = true) as IH2' by (intros Hr; apply IH2; intros; apply Hr; by right).
  destruct (open_cursors b inputs) as [cs|e]; cbn [result_bind]; [|done].
  destruct IH1 as [Hm Hcs]. split; [|done]. cbn [map fst]. rewrite Hp, Hm. split; [done|].
  intros [|i] d; [by intros [= <-]|apply Hcs].
Qed.

Lemma initial_heap_spec cs : forall idx h,
  heap_ok h -> (forall k j, In (k, j) h -> (j < idx)%nat) ->
  heap_ok (initial_heap idx cs h) /\
  forall k j, In (k, j) (initial_heap idx cs h) <->
    In (k, j) h \/ exists i c v, j = (idx + i)%nat /\ cs !! i = Some c /\ current c = Some (k, v).
Proof.
  induction cs as [|c cs IH]; intros idx h Hok Hlt; cbn [initial_heap].
  { split; [done|]. intros k j. split; [auto|]. intros [?|(? & ? & ? & _ & ? & _)]; done. }
  set (h' := match current c with Some (key, _) => heap_push (key, idx) h | None => h end).
  assert (forall k j, In (k, j) h' <-> In (k, j) h \/ (j = idx /\ exists v, current c = Some (k, v))) as Hin.
  { intros k j. unfold h'. destruct (current c) as [[k0 v0]|]; [rewrite heap_push_In|]; naive_solver. }
  destruct (IH (S idx) h') as [Hok' Hin'].
  - unfold h'. destruct (current c) as [[k0 v0]|]; [|done]. apply heap_push_ok; [done|].
    intros Hx%Hlt. lia.
  - intros k j [Hx%Hlt|[-> _]]%Hin; lia.
  - split; [done|]. intros k j. rewrite Hin', Hin. split.
    + intros [[?|[-> [v Hv]]]|(i & d & v & -> & Hd)]; [by left| |].
      * right. exists 0%nat, c, v. rewrite Nat.add_0_r. done.
      * right. exists (S i), d, v. split; [lia|done].
    + intros [?|([|i] & d & v & -> & Hd & Hv)]; [by left; left| |].
      * injection Hd as ->. left. right. split; [lia|eauto].
      * right. exists i, d, v. split; [lia|done].
Qed.

(** C10. Streaming and in-memory merge agree: over inputs whose rows are in strictly
    increasing key order, the bounded k-way merge never gets stuck on a missing
    row or runs past the number of input rows; when it succeeds, the batches it
    writes are, in order, exactly what the in-memory [merge_postings] returns,
    each key once with the sorted union of its fingerprints; and it succeeds
    whenever the row groups and rows fit a cursor's budget and the lists that may
    meet under one key fit the working budget. *)
Theorem streaming_merge_is_merge_postings (inputs : list (list PostingsEntry * Z)) wm budget :
  Forall (fun r => bt_sorted r.1) inputs ->
  match merge_postings_streaming inputs wm budget with
  | Ok batches => concat batches = merge_postings (map fst inputs) /\
                  is_union (map fst inputs) (concat batches)
  | Err e => e <> OutOfFuel /\ e <> MissingRow
  end /\
  (let limit := Z.max (budget / 4) 1 in
   let per_cursor := Z.max (limit / Z.max (zlen inputs) 1) 1 in
   forall M, 0 <= M -> 8 * (M * zlen inputs) <= limit <= 2 ^ 32 ->
   (forall rows g, In (rows, g) inputs -> g <= per_cursor /\
      forall e, In e rows -> row_bytes e <= per_cursor /\ zlen e.2 <= M) ->
   is_ok (merge_postings_streaming inputs wm budget) = true).
Proof.
  intros Hs. unfold merge_postings_streaming. cbv zeta.
  set (limit := Z.max (budget / 4) 1). set (pc := Z.max (limit / _) 1). set (bl := Z.max (Z.min wm limit) 1).
  destruct (open_cursors_spec pc inputs) as [Ho1 Ho2].
  destruct (open_cursors pc inputs) as [cs|e]; cbn [result_bind].
  2:{ destruct Ho1 as [r ->]. split; [done|]. intros M _ _ Hr. apply Ho2.
      intros rows g Hin. destruct (Hr rows g Hin) as [? Hrow]. split; [done|]. intros e He. by apply Hrow. }
  destruct Ho1 as [Hp Hcs]. destruct (initial_heap_spec cs 0 []) as [Hok Hin]; [by repeat constructor|done|].
  assert (cursors_ok cs) as Hc.
  { intros i c Hi. split; [|by apply (Hcs i)]. rewrite Forall_forall in Hs.
    assert (In (pending c) (map fst inputs)) as Hq.
    { rewrite <- Hp. apply in_map, list_elem_of_In. by eapply list_elem_of_lookup_2. }
    apply in_map_iff in Hq as (r & <- & Hr). by apply Hs, list_elem_of_In. }
  assert (heads cs (initial_heap 0 cs []) []) as Hh by (intros k j; rewrite Hin; cbn [In]; naive_solver).
  destruct (merge_loop_spec limit bl (row_total (map fst inputs)) cs (initial_heap 0 cs []) [] 0 []) as [H1 H2];
    [done..|by rewrite Hp|]. rewrite Hp in H1. split.
  - destruct (merge_loop _ _ _ _ _ _ _ _) as [bs|e]; [|done]. destruct H1 as (out & Hu & ->). cbn.
    split; [|done]. eapply is_union_unique; [done|apply merge_postings_is_union].
  - intros M HM Hl Hr. apply (H2 M). 
    assert (zlen cs = zlen inputs) as Hz by (rewrite <- (zlen_map pending), Hp; apply zlen_map).
    unfold room. rewrite Hz. unfold total_fps. cbn [fold_left]. split_and!; try done; try (unfold bl, limit in *; lia).
    intros i c Hi e He. destruct (Hcs _ _ Hi) as [-> _].
    assert (In (pending c) (map fst inputs)) as Hq.
    { rewrite <- Hp. apply in_map, list_elem_of_In. by eapply list_elem_of_lookup_2. }
    apply in_map_iff in Hq as ([rows g] & Hrow & Hr'). cbn in Hrow. subst rows. by apply (Hr _ _ Hr').
Qed.

Definition demo_a : list PostingsEntry := [(("env", "prod"), [1; 5]); (("service", "api"), [5])].
Definition demo_b : list PostingsEntry := [(("env", "prod"), [5; 9]); (("service", "web"), [2])].

Lemma streaming_merge_is_merge_postings_witness :
  merge_postings_streaming [(demo_a, 60); (demo_b, 60)] 1000 1000 =
    Ok [[(("env", "prod"), [1; 5; 9]); (("service", "api"), [5]); (("service", "web"), [2])]] /\
  is_union [demo_a; demo_b] [(("env", "prod"), [1; 5; 9]); (("service", "api"), [5]); (("service", "web"), [2])].
Proof.
  split; [vm_compute; reflexivity|].
  pose proof (streaming_merge_is_merge_postings [(demo_a, 60); (demo_b, 60)] 1000 1000) as Hm.
  replace (merge_postings_streaming _ _ _) with (Ok (E := PostingsError)
    [[(("env", "prod"), [1; 5; 9]); (("service", "api"), [5]); (("service", "web"), [2])]]) in Hm
    by (vm_compute; reflexivity).
  apply Hm. repeat constructor.
Defined.
