(* ===== verification/Merge.v ===== *)
(** * Merge: one compaction merge

    crates/compact/src/merge.rs: [merge_blocks] with its commit protocol.  What
    DataFusion and parquet do is a parameter: the batches of the sorted scan, the
    schemas, the decoded postings of an input, the bytes of the written files; so
    are serde_json and the answers of the store to reads.  Writes go through an
    [ObjectStore]: a call returns every state the store goes through. *)

From S2P Require Import Prelude Order Bytes Block Bloom Compaction CompactResource Postings Catalog.
From Stdlib Require Import Sorting.Sorted.

Inductive MergeError :=
| NoInputs
| SignalMismatch (u : Uuid)
| VersionMismatch (u : Uuid)
| UnsupportedVersion (v : Z)
| UnsupportedSignal (s : string)
| MetaUnreadable (u : Uuid)
| MetaMismatch (u : Uuid)
| BadAncestry (e : AncestryError)
| SchemaMismatch (u : Uuid)
| ScanFailed
| Limit (e : ResourceError)
| PostingsFailed (e : PostingsError)
| BloomPanicked
| UploadFailed (kind : string)
| CommitAmbiguous.

Record SignalSpec := mkSpec {
  sort_cols : list string; fp_col : option string; body_col : option string; has_series_types : bool }.

Definition spec_for (signal : string) : result MergeError SignalSpec :=
  if (signal =? "logs")%string then
    Ok (mkSpec ["stream_fingerprint"; "ts_unix_nano"] (Some "stream_fingerprint") (Some "body") false)
  else if (signal =? "metrics")%string then
    Ok (mkSpec ["series_fingerprint"; "ts_unix_nano"] (Some "series_fingerprint") None true)
  else if (signal =? "traces")%string then
    Ok (mkSpec ["trace_id"; "start_unix_nano"] None None false)
  else if (signal =? "profiles")%string then Ok (mkSpec ["ts_unix_nano"] None None false)
  else Err (UnsupportedSignal signal).

(** A row of the merged scan, through the columns the merge looks at. *)
Record MergedRow := mkMerged { mr_fp : option Z; mr_body : option bytes }.

(** The fence during the commit PUT: it completes, or the lease is lost and the
    request is dropped, after it was applied or not. *)
Inductive CommitFate := Completes | Abandoned (landed : bool).

(** The libraries around a merge: the printing of UUIDs, calendar dates, the
    normalisation of paths, serde_json, reads of the store, arrow schemas, the
    DataFusion scan, the parquet files, xxHash and the sizing of the bloom; and
    [BlockBuilderConfig], the version of the package, the resources. *)
Record MergeEnv (Schema F : Type) := mkEnv {
  me_uuid_str : Uuid -> string;
  me_civil : Z -> option (string * string * string);
  me_today : string * string * string;
  me_path_from : string -> string;
  me_json_len : list Uuid -> Z;
  me_from_slice : bytes -> option BlockMeta;
  me_to_vec : BlockMeta -> bytes;
  me_store_get : string -> result StoreError bytes;
  me_logs_physical_schema : Z -> Schema;
  me_fetch_main_schema : CatalogEntry -> result MergeError Schema;
  me_scan : list CatalogEntry -> list (result MergeError (list MergedRow));
  me_encode_main : list (list MergedRow) -> bytes;
  me_read_postings : CatalogEntry -> result MergeError (list PostingsEntry * Z);
  me_encode_postings : list (list PostingsEntry) -> bytes;
  me_xxhash : Z -> bytes -> Z;
  me_m_raw : Z -> F -> Z;
  me_k_raw : Z -> Z -> Z;
  me_bloom_ngram : Z;
  me_bloom_target_fpr : F;
  me_pkg_version : string;
  me_res : ResourceConfig }.
Arguments mkEnv {Schema F} _ _ _ _ _ _ _ _ _ _ _ _ _ _ _ _ _ _ _ _ _.
Arguments me_uuid_str {Schema F} _.
Arguments me_civil {Schema F} _.
Arguments me_today {Schema F} _.
Arguments me_path_from {Schema F} _.
Arguments me_json_len {Schema F} _.
Arguments me_from_slice {Schema F} _.
Arguments me_to_vec {Schema F} _.
Arguments me_store_get {Schema F} _.
Arguments me_logs_physical_schema {Schema F} _.
Arguments me_fetch_main_schema {Schema F} _.
Arguments me_scan {Schema F} _.
Arguments me_encode_main {Schema F} _.
Arguments me_read_postings {Schema F} _.
Arguments me_encode_postings {Schema F} _.
Arguments me_xxhash {Schema F} _.
Arguments me_m_raw {Schema F} _.
Arguments me_k_raw {Schema F} _.
Arguments me_bloom_ngram {Schema F} _.
Arguments me_bloom_target_fpr {Schema F} _.
Arguments me_pkg_version {Schema F} _.
Arguments me_res {Schema F} _.

Section Merge.
  Context {St : Type} `{ObjectStore St} {Schema F : Type} `{EqDecision Schema} (env : MergeEnv Schema F).
  Abbreviation uuid_str := (me_uuid_str env).
  Abbreviation civil := (me_civil env).
  Abbreviation today := (me_today env).
  Abbreviation path_from := (me_path_from env).
  Abbreviation json_len := (me_json_len env).
  Abbreviation from_slice := (me_from_slice env).
  Abbreviation to_vec := (me_to_vec env).
  Abbreviation store_get := (me_store_get env).
  Abbreviation logs_physical_schema := (me_logs_physical_schema env).
  Abbreviation fetch_main_schema := (me_fetch_main_schema env).
  Abbreviation scan := (me_scan env).
  Abbreviation encode_main := (me_encode_main env).
  Abbreviation read_postings := (me_read_postings env).
  Abbreviation encode_postings := (me_encode_postings env).
  Abbreviation xxhash := (me_xxhash env).
  Abbreviation m_raw := (me_m_raw env).
  Abbreviation k_raw := (me_k_raw env).
  Abbreviation bloom_ngram := (me_bloom_ngram env).
  Abbreviation bloom_target_fpr := (me_bloom_target_fpr env).
  Abbreviation pkg_version := (me_pkg_version env).
  Abbreviation res := (me_res env).

Definition expected_main_schema (signal : string) (version : Z) : result MergeError (option Schema) :=
  if (signal =? "logs")%string then
    if (version =? 1) || (version =? 2) || (version =? 3) then Ok (Some (logs_physical_schema version))
    else Err (UnsupportedVersion version)
  else Ok None.

(** ** Input sidecars *)

Definition fetch_meta (m : BlockMeta) (cumulative budget : Z) : result MergeError (BlockMeta * Z) :=
  match store_get (object_path uuid_str civil today path_from m "meta.json") with
  | Err _ => Err (MetaUnreadable (uuid m))
  | Ok b =>
      let cumulative := cumulative + zlen b in
      ensure! negb (budget <? cumulative) else Limit (SidecarLimit "input meta.json" budget) in
      match from_slice b with
      | None => Err (MetaUnreadable (uuid m))
      | Some fetched => Ok (with_json_size fetched (zlen b), cumulative)
      end
  end.

Fixpoint fetch_metas (signal : string) (cumulative budget : Z) (inputs : list CatalogEntry)
    : result MergeError (list BlockMeta) :=
  match inputs with
  | [] => Ok []
  | e :: inputs =>
      let? '(fetched, cumulative) := fetch_meta (meta e) cumulative budget in
      ensure! uuid fetched =? uuid (meta e) else MetaMismatch (uuid (meta e)) in
      ensure! (Block.signal fetched =? signal)%string else MetaMismatch (uuid (meta e)) in
      ensure! schema_version fetched =? schema_version (meta e) else MetaMismatch (uuid (meta e)) in
      let? rest := fetch_metas signal cumulative budget inputs in
      Ok (fetched :: rest)
  end.

Fixpoint check_schemas (expected first : option Schema) (inputs : list CatalogEntry)
    : result MergeError unit :=
  match inputs with
  | [] => Ok tt
  | e :: inputs =>
      let? schema := fetch_main_schema e in
      ensure! match expected with Some x => bool_decide (schema = x) | None => true end
        else SchemaMismatch (uuid (meta e)) in
      ensure! match first with Some x => bool_decide (schema = x) | None => true end
        else SchemaMismatch (uuid (meta e)) in
      check_schemas expected (Some (default schema first)) inputs
  end.

(** ** The scan *)

Record ScanState := mkScan {
  sc_rows : Z; sc_fps : option (gset Z); sc_bloom : option BodyBloomBuilder;
  sc_written : list (list MergedRow) }.

Fixpoint add_fingerprints (budget : Z) (set : gset Z) (rows : list MergedRow)
    : result MergeError (gset Z) :=
  match rows with
  | [] => Ok set
  | r :: rows =>
      match mr_fp r with
      | None => add_fingerprints budget set rows
      | Some v =>
          if negb (bool_decide (v ∈ set)) && (budget <? sat_mul (sat_add (Z.of_nat (size set)) 1) 32)
          then Err (Limit (SidecarLimit "all fingerprints" budget))
          else add_fingerprints budget ({[v]} ∪ set) rows
      end
  end.

Fixpoint add_bodies (budget : Z) (bb : BodyBloomBuilder) (rows : list MergedRow)
    : result MergeError BodyBloomBuilder :=
  match rows with
  | [] => Ok bb
  | r :: rows =>
      match mr_body r with
      | None => add_bodies budget bb rows
      | Some body =>
          let '(bb, ok) := add_body_bounded xxhash bb body budget in
          if ok then add_bodies budget bb rows
          else Err (Limit (SidecarLimit "body bloom n-grams" budget))
      end
  end.

Definition scan_batch (budgets : SidecarBudgets) (s : ScanState) (batch : list MergedRow)
    : result MergeError ScanState :=
  let? fps := match sc_fps s with
              | Some set => let? set := add_fingerprints (b_fingerprints budgets) set batch in Ok (Some set)
              | None => Ok None
              end in
  let? bloom := match sc_bloom s with
                | Some bb => let? bb := add_bodies (b_bloom budgets) bb batch in Ok (Some bb)
                | None => Ok None
                end in
  Ok (mkScan (sc_rows s + zlen batch) fps bloom (sc_written s ++ [batch])).

Fixpoint scan_loop (budgets : SidecarBudgets) (s : ScanState)
    (batches : list (result MergeError (list MergedRow))) : result MergeError ScanState :=
  match batches with
  | [] => Ok s
  | b :: batches =>
      let? batch := b in
      let? s := scan_batch budgets s batch in
      scan_loop budgets s batches
  end.

(** ** Rebuilt sidecars *)

Fixpoint open_postings (inputs : list CatalogEntry)
    : result MergeError (list (list PostingsEntry * Z)) :=
  match inputs with
  | [] => Ok []
  | e :: inputs =>
      if has_postings (meta e) then
        let? p := read_postings e in
        let? rest := open_postings inputs in
        Ok (p :: rest)
      else open_postings inputs
  end.

Definition merged_postings (inputs : list CatalogEntry) (budget : Z) : result MergeError bytes :=
  let? opened := open_postings inputs in
  match merge_postings_streaming opened (parquet_writer_memory_bytes res) budget with
  | Ok batches => Ok (encode_postings batches)
  | Err e => Err (PostingsFailed e)
  end.

Definition bloom_bytes (bb : BodyBloomBuilder) (budget : Z) : result MergeError bytes :=
  match finish_bounded m_raw k_raw bb bloom_target_fpr budget with
  | None => Err BloomPanicked
  | Some None => Err (Limit (SidecarLimit "body bloom finalization" budget))
  | Some (Some bloom) =>
      match to_bytes_bounded bloom (sat_sub budget (byte_len bloom)) with
      | None => Err (Limit (SidecarLimit "body bloom serialization" budget))
      | Some b => Ok b
      end
  end.

Fixpoint union_types (budget : Z) (map : gmap Z Z) (types : list (Z * Z)) : result MergeError (gmap Z Z) :=
  match types with
  | [] => Ok map
  | (fp, t) :: types =>
      match map !! fp with
      | Some _ => union_types budget map types
      | None =>
          if budget <? sat_mul (sat_add (Z.of_nat (size map)) 1) 32
          then Err (Limit (SidecarLimit "series types" budget))
          else union_types budget (<[fp := t]> map) types
      end
  end.

Fixpoint union_series_types (budget : Z) (map : gmap Z Z) (metas : list BlockMeta)
    : result MergeError (gmap Z Z) :=
  match metas with
  | [] => Ok map
  | m :: metas =>
      let? map := match series_types m with
                  | Some types => union_types budget map types
                  | None => Ok map
                  end in
      union_series_types budget map metas
  end.

Definition sorted_types (map : gmap Z Z) : list (Z * Z) :=
  sort_by_key (fun p : Z * Z => p.1) (map_to_list map).
Definition sorted_fingerprints (set : gset Z) : list Z :=
  sort_by_key (fun v : Z => v) (elements set).

(** ** The merge *)

Fixpoint min_of (f : CatalogEntry -> Z) (first : CatalogEntry) (rest : list CatalogEntry) : Z :=
  match rest with [] => f first | e :: rest => Z.min (f first) (min_of f e rest) end.
Fixpoint max_of (f : CatalogEntry -> Z) (first : CatalogEntry) (rest : list CatalogEntry) : Z :=
  match rest with [] => f first | e :: rest => Z.max (f first) (max_of f e rest) end.

(** One object, streamed or in one request: it is visible once the request is
    acknowledged. *)
Definition put_one (s : St) (p : string) (b : bytes) (kind : string)
    : list St * St * result MergeError unit :=
  let '(s', r) := store_put s p b in
  ([s'], s', match r with Ok _ => Ok tt | Err _ => Err (UploadFailed kind) end).

(** [cleanup_paths]: failures are only logged. *)
Fixpoint cleanup_paths (s : St) (paths : list string) : list St * St :=
  match paths with
  | [] => ([], s)
  | p :: paths =>
      let s' := fst (store_delete s p) in
      let '(tr, s'') := cleanup_paths s' paths in (s' :: tr, s'')
  end.

Section One.
  Context (signal : string) (first : CatalogEntry) (rest : list CatalogEntry).
  Context (out_level : Z) (writer_id block_uuid : Uuid) (admitted_non_df_bytes : Z).
  (** The answers of the fence: before the commit, and during it. *)
  Context (fence_ok : bool) (fate : CommitFate).

Definition all_inputs : list CatalogEntry := first :: rest.
Definition out_ts_min : Z := min_of (fun e => ts_min_unix_nano (meta e)) first rest.
Definition out_path (kind : string) : string :=
  path_from (block_path uuid_str civil today signal out_ts_min writer_id block_uuid kind).

Definition budgets : SidecarBudgets :=
  for_permit admitted_non_df_bytes (merge_fixed_bytes res) (meta_json_estimate all_inputs).

(** Everything before the first write. *)
Definition prepare : result MergeError (SignalSpec * list BlockMeta * list Uuid * ScanState) :=
  let? spec := spec_for signal in
  let? metas := fetch_metas signal 0 (b_input_meta budgets) all_inputs in
  let? from := match compacted_ancestor_closure json_len block_uuid metas with
               | Ok a => Ok a
               | Err e => Err (BadAncestry e)
               end in
  let? expected := expected_main_schema signal (schema_version (meta first)) in
  let? _ := check_schemas expected None all_inputs in
  let start := mkScan 0 (match fp_col spec with Some _ => Some ∅ | None => None end)
                 (match body_col spec with Some _ => Some (builder_new bloom_ngram) | None => None end) [] in
  let? scanned := scan_loop budgets start (scan all_inputs) in
  Ok (spec, metas, from, scanned).

Definition merged_meta (from : list Uuid) (s : ScanState) (byte_size : Z)
    (postings bloom : option bytes) (types : option (gmap Z Z)) : BlockMeta :=
  mkMeta block_uuid signal writer_id out_ts_min
    (max_of (fun e => ts_max_unix_nano (meta e)) first rest) (sc_rows s) byte_size
    (schema_version (meta first)) out_level from pkg_version None
    (match postings with Some _ => true | None => false end) (zlen <$> postings)
    (sorted_types <$> types) (sorted_fingerprints <$> sc_fps s)
    (match bloom with Some _ => true | None => false end) (zlen <$> bloom)
    None None None.

(** The fence, the disarming of the cleanup and the commit; the flag is whether
    the cleanup is still armed. *)
Definition commit (s : St) (m : BlockMeta)
    : list St * St * bool * result MergeError (option BlockMeta) :=
  let b := to_vec m in
  if b_output_meta budgets <? zlen b
  then ([], s, true, Err (Limit (SidecarLimit "meta.json" (b_output_meta budgets))))
  else if negb fence_ok then ([], s, true, Ok None)
  else match fate with
       | Completes =>
           let '(tr, s', r) := put_one s (out_path "meta.json") b "meta.json" in
           (tr, s', false, let? _ := r in Ok (Some (with_json_size m (zlen b))))
       | Abandoned landed =>
           let s' := if landed then fst (store_put s (out_path "meta.json") b) else s in
           ([s'], s', false, Err CommitAmbiguous)
       end.

(** An optional data object. *)
Definition put_opt (s : St) (kind : string) (o : option bytes) : list St * St * result MergeError unit :=
  match o with None => ([], s, Ok tt) | Some b => put_one s (out_path kind) b kind end.

Definition merge_blocks_inner (s : St) : list St * St * bool * result MergeError (option BlockMeta) :=
  match prepare with
  | Err e => ([], s, true, Err e)
  | Ok (spec, metas, from, scanned) =>
      let '(tr1, s, r1) := put_one s (out_path "parquet") (encode_main (sc_written scanned)) "parquet" in
      match r1 with
      | Err e => (tr1, s, true, Err e)
      | Ok _ =>
          match objects s !! out_path "parquet" with
          | None => (tr1, s, true, Err (UploadFailed "parquet"))
          | Some main =>
              match (match fp_col spec with
                     | Some _ => let? b := merged_postings all_inputs (b_postings budgets) in Ok (Some b)
                     | None => Ok None
                     end) with
              | Err e => (tr1, s, true, Err e)
              | Ok postings =>
                  let '(tr2, s, r2) := put_opt s "postings.parquet" postings in
                  match r2 with
                  | Err e => (tr1 ++ tr2, s, true, Err e)
                  | Ok _ =>
                      match (match sc_bloom scanned with
                             | Some bb => let? b := bloom_bytes bb (b_bloom budgets) in Ok (Some b)
                             | None => Ok None
                             end) with
                      | Err e => (tr1 ++ tr2, s, true, Err e)
                      | Ok bloom =>
                          let '(tr3, s, r3) := put_opt s "body.bloom" bloom in
                          match r3 with
                          | Err e => (tr1 ++ tr2 ++ tr3, s, true, Err e)
                          | Ok _ =>
                              match (if has_series_types spec
                                     then let? m := union_series_types (b_series_types budgets) ∅ metas in Ok (Some m)
                                     else Ok None) with
                              | Err e => (tr1 ++ tr2 ++ tr3, s, true, Err e)
                              | Ok types =>
                                  let '(tr4, s, armed, r) :=
                                    commit s (merged_meta from scanned (zlen main) postings bloom types) in
                                  (tr1 ++ tr2 ++ tr3 ++ tr4, s, armed, r)
                              end
                          end
                      end
                  end
              end
          end
      end
  end.

Fixpoint check_inputs (version : Z) (inputs : list CatalogEntry) : result MergeError unit :=
  match inputs with
  | [] => Ok tt
  | e :: inputs =>
      ensure! (Block.signal (meta e) =? signal)%string else SignalMismatch (uuid (meta e)) in
      ensure! schema_version (meta e) =? version else VersionMismatch (uuid (meta e)) in
      check_inputs version inputs
  end.

(** [merge_blocks] on a non-empty list of inputs. *)
Definition merge_blocks_cons (s : St) : list St * St * result MergeError (option BlockMeta) :=
  match (let? _ := check_inputs (schema_version (meta first)) all_inputs in
         expected_main_schema signal (schema_version (meta first))) with
  | Err e => ([], s, Err e)
  | Ok _ =>
      let '(tr, s, armed, r) := merge_blocks_inner s in
      let cleanup := cleanup_paths s (map out_path ["body.bloom"; "postings.parquet"; "parquet"]) in
      match r with
      | Ok (Some _) => (tr, s, r)
      | Ok None => (tr ++ fst cleanup, snd cleanup, r)
      | Err _ => if armed then (tr ++ fst cleanup, snd cleanup, r) else (tr, s, r)
      end
  end.
End One.

Definition merge_blocks (signal : string) (inputs : list CatalogEntry) (out_level : Z)
    (writer_id block_uuid : Uuid) (admitted_non_df_bytes : Z) (fence_ok : bool) (fate : CommitFate) (s : St)
    : list St * St * result MergeError (option BlockMeta) :=
  match inputs with
  | [] => ([], s, Err NoInputs)
  | first :: rest =>
      merge_blocks_cons signal first rest out_level writer_id block_uuid admitted_non_df_bytes fence_ok fate s
  end.

End Merge.

(** ** What the pieces of a merge return *)

(** A list of states each of which is at hand. *)
Ltac states := repeat (apply Forall_cons_2; [assumption|]); first [apply Forall_nil_2 | assumption].

Section MergeFacts.
  Context {St : Type} `{ObjectStore St} {Schema F : Type} `{EqDecision Schema} (env : MergeEnv Schema F).
  Abbreviation uuid_str := (me_uuid_str env).
  Abbreviation civil := (me_civil env).
  Abbreviation today := (me_today env).
  Abbreviation path_from := (me_path_from env).
  Abbreviation json_len := (me_json_len env).
  Abbreviation from_slice := (me_from_slice env).
  Abbreviation to_vec := (me_to_vec env).
  Abbreviation store_get := (me_store_get env).
  Abbreviation logs_physical_schema := (me_logs_physical_schema env).
  Abbreviation fetch_main_schema := (me_fetch_main_schema env).
  Abbreviation scan := (me_scan env).
  Abbreviation encode_main := (me_encode_main env).
  Abbreviation read_postings := (me_read_postings env).
  Abbreviation encode_postings := (me_encode_postings env).
  Abbreviation xxhash := (me_xxhash env).
  Abbreviation m_raw := (me_m_raw env).
  Abbreviation k_raw := (me_k_raw env).
  Abbreviation bloom_ngram := (me_bloom_ngram env).
  Abbreviation bloom_target_fpr := (me_bloom_target_fpr env).
  Abbreviation pkg_version := (me_pkg_version env).
  Abbreviation res := (me_res env).

  Implicit Types s t : St.

Lemma fetch_metas_uuids sig cum budget inputs metas :
  fetch_metas env sig cum budget inputs = Ok metas ->
  map uuid metas = map (fun e => uuid (meta e)) inputs.
Proof.
  revert cum metas. induction inputs as [|e inputs IH]; intros cum metas; cbn [fetch_metas]; [by intros [= <-]|].
  destruct (fetch_meta _ _ _ _) as [[fetched cum']|]; cbn [result_bind]; [|done].
  destruct (Z.eqb_spec (uuid fetched) (uuid (meta e))) as [Hu|]; [|done].
  do 2 (case_match; [|done]). destruct (fetch_metas _ _ cum' _ _) as [rest|] eqn:E; cbn [result_bind]; [|done].
  intros [= <-]. cbn [map]. rewrite Hu. f_equal. by eapply IH.
Qed.

Definition batch_rows (bs : list (list MergedRow)) : Z := zlen (concat bs).

Lemma scan_loop_rows b batches : forall a0 a1,
  scan_loop env b a0 batches = Ok a1 ->
  exists bs, batches = map Ok bs /\ sc_written a1 = sc_written a0 ++ bs /\
    sc_rows a1 = sc_rows a0 + batch_rows bs.
Proof.
  induction batches as [|x batches IH]; intros a0 a1; cbn [scan_loop].
  { intros [= <-]. exists []. rewrite app_nil_r. unfold batch_rows. cbn. rewrite zlen_nil. split_and!; [done..|lia]. }
  destruct x as [batch|]; cbn [result_bind]; [|done].
  destruct (scan_batch env b a0 batch) as [a2|] eqn:E; cbn [result_bind]; [|done].
  intros (bs & -> & Hw & Hr)%IH. exists (batch :: bs). unfold scan_batch in E.
  apply bind_ok in E as (fps & _ & (bl & _ & [= <-])%bind_ok). cbn [sc_written sc_rows] in *.
  split_and!; [done|by rewrite Hw, <- app_assoc|]. unfold batch_rows in *. cbn [concat]. rewrite zlen_app. lia.
Qed.

Section OneFacts.
  Context (signal : string) (first : CatalogEntry) (rest : list CatalogEntry).
  Context (out_level : Z) (writer_id block_uuid : Uuid) (admitted : Z) (fence_ok : bool) (fate : CommitFate).
  Abbreviation P := (out_path env signal first rest writer_id block_uuid).
  Abbreviation prepare_ := (prepare env signal first rest block_uuid admitted).
  Abbreviation meta_ := (merged_meta env signal first rest out_level writer_id block_uuid).
  Abbreviation commit_ := (commit env signal first rest writer_id block_uuid
    admitted fence_ok fate).
  Abbreviation inner := (merge_blocks_inner env signal first rest out_level writer_id block_uuid admitted
    fence_ok fate).

Definition data_objects : list string := ["parquet"; "postings.parquet"; "body.bloom"].
Definition out_objects : list string := data_objects ++ ["meta.json"].

  (** The store the merge starts from, and distinct paths for the objects of its
      output. *)
  Context (s0 : St).
  Hypothesis path_distinct : forall k k', In k out_objects -> In k' out_objects -> P k = P k' -> k = k'.

(** Nothing but the output changed, and its sidecar is not there. *)
Definition uncommitted (t : St) : Prop :=
  (forall p, (forall k, In k out_objects -> p <> P k) -> objects t !! p = objects s0 !! p) /\
  objects t !! P "meta.json" = None.

(** Nothing but the output changed, and its sidecar describes what is there. *)
Definition complete (t : St) : Prop :=
  (forall p, (forall k, In k out_objects -> p <> P k) -> objects t !! p = objects s0 !! p) /\
  exists m, objects t !! P "meta.json" = Some (to_vec m) /\ uuid m = block_uuid /\
    forall k, In k (data_kinds m) -> is_Some (objects t !! P k).

Lemma data_not_meta k : In k data_objects -> P k <> P "meta.json".
Proof.
  intros Hk He. apply path_distinct in He as ->; [|apply in_or_app; by left|apply in_or_app; right; by left].
  by destruct Hk as [|[|[|[]]]].
Qed.

Lemma object_path_ne k k' : In k out_objects -> In k' out_objects -> k <> k' -> P k <> P k'.
Proof. intros Hk Hk' Hne He. by apply Hne, path_distinct. Qed.

Lemma uncommitted_same t t' : objects t' = objects t -> uncommitted t -> uncommitted t'.
Proof. unfold uncommitted. by intros ->. Qed.

Lemma uncommitted_insert t t' k b :
  In k data_objects -> objects t' = <[P k := b]> (objects t) -> uncommitted t -> uncommitted t'.
Proof.
  intros Hk He [Ho Hm]. unfold uncommitted. rewrite He. split.
  - intros p Hp. rewrite lookup_insert_ne; [by apply Ho|]. intros <-. apply (Hp k); [|done].
    apply in_or_app. by left.
  - rewrite lookup_insert_ne; [done|by apply data_not_meta].
Qed.

Lemma uncommitted_delete t t' k :
  In k data_objects -> objects t' = delete (P k) (objects t) -> uncommitted t -> uncommitted t'.
Proof.
  intros Hk He [Ho Hm]. unfold uncommitted. rewrite He. split.
  - intros p Hp. rewrite lookup_delete_ne; [by apply Ho|]. intros <-. apply (Hp k); [|done].
    apply in_or_app. by left.
  - rewrite lookup_delete_ne; [done|by apply data_not_meta].
Qed.

Lemma put_one_spec s p b kind :
  let '(tr, s', r) := put_one s p b kind in
  tr = [s'] /\ (objects s' = objects s \/ objects s' = <[p := b]> (objects s)) /\
  (r = Ok tt -> objects s' = <[p := b]> (objects s)).
Proof.
  unfold put_one. pose proof (store_put_ok s p b) as Hok. pose proof (store_put_err s p b) as Herr.
  destruct (store_put s p b) as [s' [[]|e]]; cbn [fst snd] in *; split_and!; try done; eauto.
Qed.

Lemma put_opt_spec s k o :
  In k data_objects -> uncommitted s ->
  let '(tr, s', r) := put_opt env signal first rest writer_id block_uuid s k o in
  Forall uncommitted (s' :: tr) /\
  (r = Ok tt -> objects s' = match o with Some b => <[P k := b]> (objects s) | None => objects s end).
Proof.
  intros Hk Hu. unfold put_opt. destruct o as [b|]; [|split; [states|done]].
  pose proof (put_one_spec s (P k) b k) as Hp. destruct (put_one s (P k) b k) as [[tr s'] r].
  destruct Hp as (-> & Hor & Hok). split; [|done].
  assert (uncommitted s'); [|states].
  destruct Hor as [He|He]; [by eapply uncommitted_same|by eapply uncommitted_insert].
Qed.

Lemma cleanup_spec ks : forall s,
  incl ks data_objects -> uncommitted s ->
  let '(tr, s') := cleanup_paths s (map P ks) in Forall uncommitted (s' :: tr).
Proof.
  induction ks as [|k ks IH]; intros s Hks Hu; cbn [map cleanup_paths]; [states|].
  assert (uncommitted (fst (store_delete s (P k)))) as Hu'.
  { pose proof (store_delete_ok s (P k)) as Hok. pose proof (store_delete_err s (P k)) as Herr.
    destruct (store_delete s (P k)) as [s' [[]|e]]; cbn [fst snd] in *.
    - eapply uncommitted_delete; [by apply Hks; left|by apply Hok|done].
    - destruct (Herr e eq_refl) as [He|He]; [by eapply uncommitted_same|].
      eapply uncommitted_delete; [by apply Hks; left|done|done]. }
  specialize (IH _ ltac:(intros x Hx; apply Hks; by right) Hu').
  destruct (cleanup_paths _ _) as [tr s']. apply Forall_cons in IH as [? ?]. states.
Qed.

Definition safe (t : St) : Prop := uncommitted t \/ complete t.

Lemma uncommitted_safe l : Forall uncommitted l -> Forall safe l.
Proof. intros Hl. eapply Forall_impl; [exact Hl|]. by left. Qed.

Lemma data_kinds_objects m : incl (data_kinds m) data_objects.
Proof. intros k. unfold data_kinds. destruct (has_postings m), (has_body_bloom m); simpl; tauto. Qed.

(** What the commit, and with it the merge, may return. *)
Definition settled (done_ : BlockMeta -> St -> Prop)
    (x : list St * St * bool * result MergeError (option BlockMeta)) : Prop :=
  let '(tr, s', armed, r) := x in
  Forall safe (s' :: tr) /\
  (armed = true -> Forall uncommitted (s' :: tr) /\ forall m', r <> Ok (Some m')) /\
  (r = Ok None -> armed = true) /\
  (fence_ok = false -> armed = true) /\
  (forall m', r = Ok (Some m') -> done_ m' s').

Lemma settled_err done_ tr s' e : Forall uncommitted (s' :: tr) -> settled done_ (tr, s', true, Err e).
Proof. intros Hu. split; [by apply uncommitted_safe|]. by split_and!. Qed.

Lemma settled_app done_ tr0 tr s' armed r :
  Forall uncommitted tr0 -> settled done_ (tr, s', armed, r) -> settled done_ (tr0 ++ tr, s', armed, r).
Proof.
  intros H0 (Hs & Ha & Hn & Hf & Hd). apply Forall_cons in Hs as [? ?]. split_and!; [| |done..].
  - apply Forall_cons_2; [done|]. apply Forall_app_2; [by apply uncommitted_safe|done].
  - intros Hr. destruct (Ha Hr) as [[? ?]%Forall_cons ?]. split; [|done].
    apply Forall_cons_2; [done|]. by apply Forall_app_2.
Qed.

Lemma commit_spec s m :
  uncommitted s -> uuid m = block_uuid -> (forall k, In k (data_kinds m) -> is_Some (objects s !! P k)) ->
  settled (fun m' s' => m' = with_json_size m (zlen (to_vec m)) /\
             objects s' = <[P "meta.json" := to_vec m]> (objects s)) (commit_ s m).
Proof.
  intros Hu Hm Hk. unfold commit. cbv zeta. case_match; [by apply settled_err; states|].
  assert (forall s', objects s' = <[P "meta.json" := to_vec m]> (objects s) -> complete s') as Hc.
  { intros s' He. unfold complete. rewrite He. split.
    - intros p Hp. rewrite lookup_insert_ne; [by apply Hu|]. intros <-. apply (Hp "meta.json"); [|done].
      apply in_or_app. right. by left.
    - exists m. rewrite lookup_insert_eq. split_and!; [done..|]. intros k Hin.
      rewrite lookup_insert_ne; [by apply Hk|]. intros Heq. symmetry in Heq.
      by apply data_not_meta in Heq; [|eapply data_kinds_objects]. }
  assert (forall s', objects s' = objects s \/ objects s' = <[P "meta.json" := to_vec m]> (objects s) -> safe s') as Hs.
  { intros s' [He|He]; [left; by eapply uncommitted_same|right; by apply Hc]. }
  destruct fence_ok eqn:Hfence; cbn [negb].
  2:{ split; [apply uncommitted_safe; states|]. split_and!; [|done..]. intros _. split; [states|done]. }
  destruct fate as [|landed].
  - pose proof (put_one_spec s (P "meta.json") (to_vec m) "meta.json") as Hp.
    destruct (put_one s _ _ _) as [[tr s'] r]. destruct Hp as (-> & Hor & Hok).
    assert (safe s') by by apply Hs. split; [states|]. split_and!; [done| |by rewrite Hfence|].
    + by destruct r as [[]|].
    + destruct r as [[]|]; [|done]. intros m' [= <-]. auto.
  - assert (safe (if landed then fst (store_put s (P "meta.json") (to_vec m)) else s)).
    { apply Hs. destruct landed; [|by left].
      pose proof (put_one_spec s (P "meta.json") (to_vec m) "") as Hp. unfold put_one in Hp.
      destruct (store_put s _ _) as [s' r]. apply Hp. }
    split; [states|]. split_and!; [done|done|by rewrite Hfence|done].
Qed.

(** The metadata of a finished merge and the store it leaves. *)
Definition merged (m' : BlockMeta) (s' : St) : Prop :=
  exists spec metas from scanned postings bloom types,
    prepare_ = Ok (spec, metas, from, scanned) /\
    let m := meta_ from scanned (zlen (encode_main (sc_written scanned))) postings bloom types in
    m' = with_json_size m (zlen (to_vec m)) /\
    objects s' !! P "meta.json" = Some (to_vec m) /\
    forall k, In k (delete_kinds m) -> is_Some (objects s' !! P k).

Lemma inner_spec s : uncommitted s -> settled merged (inner s).
Proof.
  intros Hu. unfold merge_blocks_inner.
  destruct prepare_ as [[[[spec metas] from] scanned]|e] eqn:Hprep; [|apply settled_err; states].
  pose proof (put_opt_spec s "parquet" (Some (encode_main (sc_written scanned))) ltac:(by left) Hu) as Hp1.
  cbn [put_opt] in Hp1. destruct (put_one s _ _ _) as [[tr1 s1] r1]. destruct Hp1 as [[Hu1 Ht1]%Forall_cons Ho1].
  destruct r1 as [[]|e]; [specialize (Ho1 eq_refl)|apply settled_err; states].
  rewrite Ho1 at 1. rewrite lookup_insert_eq.
  match goal with |- context [match ?x with Ok postings => _ | Err e => _ end] =>
    destruct x as [postings|e]; [|apply settled_err; states] end.
  pose proof (put_opt_spec s1 "postings.parquet" postings ltac:(right; by left) Hu1) as Hp2.
  destruct (put_opt _ _ _ _ _ _ s1 _ _) as [[tr2 s2] r2]. destruct Hp2 as [[Hu2 Ht2]%Forall_cons Ho2].
  assert (Forall uncommitted (tr1 ++ tr2)) by by apply Forall_app_2.
  destruct r2 as [[]|e]; [specialize (Ho2 eq_refl)|apply settled_err; states].
  match goal with |- context [match ?x with Ok bloom => _ | Err e => _ end] =>
    destruct x as [bloom|e]; [|apply settled_err; states] end.
  pose proof (put_opt_spec s2 "body.bloom" bloom ltac:(right; right; by left) Hu2) as Hp3.
  destruct (put_opt _ _ _ _ _ _ s2 _ _) as [[tr3 s3] r3]. destruct Hp3 as [[Hu3 Ht3]%Forall_cons Ho3].
  assert (Forall uncommitted (tr1 ++ tr2 ++ tr3)) by (rewrite app_assoc; by apply Forall_app_2).
  destruct r3 as [[]|e]; [specialize (Ho3 eq_refl)|apply settled_err; states].
  match goal with |- context [match ?x with Ok types => _ | Err e => _ end] =>
    destruct x as [types|e]; [|apply settled_err; states] end.
  set (m := meta_ from scanned (zlen (encode_main (sc_written scanned))) postings bloom types).
  assert (forall k, In k (data_kinds m) -> is_Some (objects s3 !! P k)) as Hdata.
  { intros k Hk. rewrite Ho3, Ho2, Ho1. unfold m, data_kinds in Hk. cbn in Hk.
    destruct postings, bloom; cbn in Hk; repeat (destruct Hk as [<-|Hk]); try done;
      rewrite ?lookup_insert_eq; eauto;
      repeat (rewrite lookup_insert_ne by (apply object_path_ne; [simpl; tauto|simpl; tauto|done])); rewrite ?lookup_insert_eq; eauto. }
  pose proof (commit_spec s3 m Hu3 eq_refl Hdata) as Hcm.
  destruct (commit_ s3 m) as [[[tr4 s4] armed] r]. rewrite !app_assoc, <- (app_assoc tr1).
  apply settled_app; [done|]. destruct Hcm as (Hs & Ha & Hn & Hf & Hd). split_and!; try done.
  intros m' Hr. destruct (Hd m' Hr) as [-> He].
  exists spec, metas, from, scanned, postings, bloom, types. split; [done|]. fold m. cbv zeta. rewrite He.
  split_and!; [done|by rewrite lookup_insert_eq|]. intros k Hk.
  assert (delete_kinds m = data_kinds m ++ ["meta.json"]) as Hkinds
    by (unfold delete_kinds, data_kinds; by rewrite !app_assoc).
  rewrite Hkinds, in_app_iff in Hk. destruct Hk as [Hk|[<-|[]]]; [|rewrite lookup_insert_eq; eauto].
  rewrite lookup_insert_ne; [by apply Hdata|]. intros Heq. symmetry in Heq.
  by apply data_not_meta in Heq; [|eapply data_kinds_objects].
Qed.

Lemma closure_holds_inputs metas from :
  compacted_ancestor_closure json_len block_uuid metas = Ok from ->
  (forall i, In i metas -> In (uuid i) from) /\ ~ In block_uuid from.
Proof.
  intros (_ & Hg & _ & _ & -> & _)%compacted_ancestor_closure_Ok.
  destruct (canonical_vector (ancestry metas)) as (_ & Hin & _). split.
  - intros i Hi. apply Hin, ancestry_elem. eauto.
  - intros (i & Hi & Ho)%Hin%ancestry_elem. rewrite Forall_forall in Hg.
    destruct (Hg i) as (? & _ & ? & _); [by apply list_elem_of_In|]. destruct Ho; congruence.
Qed.

(** What a finished merge returned. *)
Record describes (m : BlockMeta) : Prop := {
  ds_uuid : uuid m = block_uuid;
  ds_signal : Block.signal m = signal;
  ds_writer : Block.writer_id m = writer_id;
  ds_level : meta_level m = out_level;
  ds_ts_min : ts_min_unix_nano m = out_ts_min first rest;
  ds_rows : exists bs, scan (first :: rest) = map Ok bs /\ row_count m = batch_rows bs;
  ds_from : forall e, In e (first :: rest) -> In (uuid (meta e)) (compacted_from m);
  ds_self : ~ In block_uuid (compacted_from m) }.

Lemma merged_describes m' s' : merged m' s' ->
  describes m' /\ forall k, In k (delete_kinds m') -> is_Some (objects s' !! P k).
Proof.
  intros (spec & metas & from & scanned & postings & bloom & types & Hprep & -> & _ & Hobj).
  split; [|exact Hobj]. unfold prepare in Hprep.
  apply bind_ok in Hprep as (spec' & _ & (metas' & Hmetas & Hprep)%bind_ok).
  apply bind_ok in Hprep as (from' & Hfrom & Hprep). apply bind_ok in Hprep as (ex & _ & Hprep).
  apply bind_ok in Hprep as (? & _ & (sc & Hscan & [= -> -> -> ->])%bind_ok).
  destruct (compacted_ancestor_closure _ _ _) as [a|] eqn:Hc; [injection Hfrom as [= ->]|done].
  apply closure_holds_inputs in Hc as [Hin Hself].
  apply scan_loop_rows in Hscan as (bs & Hbs & _ & Hrows). cbn [sc_rows] in Hrows.
  split; try done.
  - exists bs. split; [exact Hbs|]. cbn. lia.
  - intros e He. apply fetch_metas_uuids in Hmetas. cbn.
    assert (In (uuid (meta e)) (map uuid metas)) as Hu.
    { rewrite Hmetas. by apply (in_map (fun e => uuid (meta e))). }
    apply in_map_iff in Hu as (i & <- & Hi). by apply Hin.
Qed.

Lemma merge_blocks_spec :
  objects s0 !! P "meta.json" = None ->
  let '(tr, s', r) :=
    merge_blocks env signal (first :: rest) out_level writer_id block_uuid admitted
      fence_ok fate s0 in
  Forall safe (s' :: tr) /\
  (fence_ok = false -> Forall uncommitted (s' :: tr) /\ forall m, r <> Ok (Some m)) /\
  match r with
  | Ok None => Forall uncommitted (s' :: tr)
  | Ok (Some m) => describes m /\ forall k, In k (delete_kinds m) ->
      is_Some (objects s' !! object_path uuid_str civil today path_from m k)
  | Err _ => True
  end.
Proof.
  intros Hm. assert (uncommitted s0) as Hu by done.
  cbn [merge_blocks]. unfold merge_blocks_cons.
  destruct (result_bind (check_inputs _ _ _) _) as [ex|e]; cbn [result_bind].
  2:{ split_and!; [apply uncommitted_safe; states| |done]. intros _. split; [states|done]. }
  pose proof (inner_spec s0 Hu) as Hi.
  match type of Hi with settled _ ?x => destruct x as [[[tr s1] armed] r] end.
  destruct Hi as (Hs & Ha & Hn & Hf & Hd).
  assert (forall tr' s', cleanup_paths s1 (map P ["body.bloom"; "postings.parquet"; "parquet"]) = (tr', s') ->
    armed = true -> Forall uncommitted (s' :: tr ++ tr')) as Hclean.
  { intros tr' s' Hc Har. destruct (Ha Har) as [[Hu1 Htr]%Forall_cons _].
    pose proof (cleanup_spec ["body.bloom"; "postings.parquet"; "parquet"] s1
      ltac:(intros x; unfold data_objects; simpl; tauto) Hu1) as Hcs.
    rewrite Hc in Hcs. apply Forall_cons in Hcs as [? ?]. apply Forall_cons_2; [done|by apply Forall_app_2]. }
  destruct (cleanup_paths _ _) as [tr' s']. specialize (Hclean _ _ eq_refl). cbn [fst snd].
  destruct r as [[m|]|e].
  - split; [done|]. split; [intros Hff; by destruct (proj2 (Ha (Hf Hff)) m)|].
    destruct (merged_describes _ _ (Hd m eq_refl)) as [Hds Hobj]. split; [done|].
    intros k Hk. specialize (Hobj k Hk). unfold object_path.
    destruct Hds as [-> -> -> _ -> _ _ _]. exact Hobj.
  - specialize (Hclean (Hn eq_refl)). by split_and!; [apply uncommitted_safe| |].
  - destruct armed; [|split_and!; [done|intros Hff; by specialize (Hf Hff)|done]].
    split; [by apply uncommitted_safe, Hclean|]. split; [|done]. intros _. split; [by apply Hclean|done].
Qed.

(** C11. [meta.json] is the commit point of a merge: when the paths of the output's
    four objects are distinct and its sidecar is not there yet, then in every state
    the store goes through, whatever requests fail and wherever the merge is cut
    short, nothing but the output's objects has changed, and its sidecar is absent or
    every object it describes is there.  When the fence answers no the sidecar is
    never written and the merge does not finish; an aborted merge never writes the
    sidecar; a finished one leaves all objects of a block that lists every input among
    its ancestors, not itself, and counts the rows of the scan. *)
Theorem merge_commits_last :
  objects s0 !! P "meta.json" = None ->
  let '(tr, s', r) :=
    merge_blocks env signal (first :: rest) out_level writer_id block_uuid admitted
      fence_ok fate s0 in
  Forall safe (s' :: tr) /\
  (fence_ok = false -> Forall uncommitted (s' :: tr) /\ forall m, r <> Ok (Some m)) /\
  match r with
  | Ok None => Forall uncommitted (s' :: tr)
  | Ok (Some m) => describes m /\ forall k, In k (delete_kinds m) ->
      is_Some (objects s' !! object_path uuid_str civil today path_from m k)
  | Err _ => True
  end.
Proof. exact merge_blocks_spec. Qed.
End OneFacts.
End MergeFacts.

(** ** Witness *)

Definition demo_input : CatalogEntry := mkEntry (demo_meta 3 []) "b" "2026-01-01" 0.
Definition demo_batch : list MergedRow :=
  [mkMerged (Some 5) (Some (str "connection refused")); mkMerged (Some 9) None].

Definition demo_env : MergeEnv unit unit :=
  mkEnv (fun u => if u =? 3 then "a" else "z") (fun _ => Some ("y", "m", "d")) ("y", "m", "d")
    (fun p => p) uuid_json_len (fun _ => Some (demo_meta 3 [])) (fun _ => str "{}") (fun _ => Ok (str "{}"))
    (fun _ => tt) (fun _ => Ok tt) (fun _ => [Ok demo_batch]) (fun _ => str "PAR1")
    (fun _ => Ok (demo_a, 60)) (fun _ => str "PAR1") demo_hash demo_m demo_k 3 tt "0.24" demo_resources.

Definition demo_merge (fence_ok : bool) (fate : CommitFate) (s : FlakyStore)
    : list FlakyStore * FlakyStore * result MergeError (option BlockMeta) :=
  merge_blocks demo_env "logs" [demo_input] 1 9 7 (32 * MIB) fence_ok fate s.

Lemma demo_merge_runs :
  match demo_merge true Completes (mkFlaky ∅ []) with
  | (_, _, Ok (Some m)) =>
      (row_count m =? 2) && bool_decide (object_path (me_uuid_str demo_env) (me_civil demo_env) (me_today demo_env)
        (me_path_from demo_env) m "postings.parquet" = "logs/y/m/d/z/z.postings.parquet")
      && bool_decide ("postings.parquet" ∈ delete_kinds m)
  | _ => false
  end = true.
Proof. vm_compute. reflexivity. Qed.

Lemma merge_commits_last_witness :
  match demo_merge true Completes (mkFlaky ∅ []) with
  | (_, s', Ok (Some m)) => row_count m = 2 /\ In 3 (compacted_from m) /\
      is_Some (contents s' !! "logs/y/m/d/z/z.postings.parquet")
  | _ => False
  end.
Proof.
  pose proof (merge_commits_last demo_env "logs" demo_input [] 1 9 7 (32 * MIB) true Completes (mkFlaky ∅ [])) as Hm.
  specialize (Hm (fun k k' _ _ He => block_path_inj _ _ _ _ _ _ _ _ _ He) eq_refl).
  fold (demo_merge true Completes (mkFlaky ∅ [])) in Hm.
  pose proof demo_merge_runs as Hr. destruct (demo_merge true Completes (mkFlaky ∅ [])) as [[tr s'] [[m|]|e]]; [|done..].
  apply andb_true_iff in Hr as [Hr Hin%bool_decide_eq_true%list_elem_of_In].
  apply andb_true_iff in Hr as [Hr%Z.eqb_eq Hp%bool_decide_eq_true].
  destruct Hm as (_ & _ & Hd & Hobj). split_and!; [done| |].
  - apply (ds_from _ _ _ _ _ _ _ _ Hd demo_input). by left.
  - rewrite <- Hp. by apply Hobj.
Defined.
