(* ===== verification/Maintenance.v ===== *)
(** * Maintenance: the retention and compaction engines

    crates/retention/src/engine.rs, the lifecycle of crates/compact/src/engine.rs
    and the passes of crates/cluster/src/maintain.rs, over the catalog and an
    [ObjectStore].  A call returns the worlds (store and catalog) it goes through,
    so that a crash at any point is one of them.  The answers of the fence, of the
    lease provider, of resource admission and of SQLite's commits are arguments. *)

From stdpp Require Import pretty.
From S2P Require Import Prelude Order Bytes Block Compaction Retention Layout Catalog CatalogFacts Cluster.
From S2P Require Import CompactResource Postings Merge.
From Stdlib Require Import Sorting.Sorted.

Record RetentionReport := mkRet {
  scanned : Z; candidates : Z; bytes_candidates : Z; staged : Z; reaped : Z; bytes_reaped : Z;
  reap_failed : Z; dry_run : bool; aborted : bool; rep_by_signal : btree string (Z * Z) }.

Inductive MaintenanceError :=
| StageFailed
| Resources (e : ResourceError)
| MergeFailed (e : MergeError)
| ApplyFailed
| ListReapsFailed.

Record World (St : Type) := mkWorld { w_store : St; w_catalog : Catalog }.
Arguments mkWorld {St} _ _.
Arguments w_store {St} _.
Arguments w_catalog {St} _.

Section Maintenance.
  Context {St : Type} `{ObjectStore St}.
  Context (uuid_str : Uuid -> string) (civil : Z -> option (string * string * string)).
  Context (today : string * string * string) (path_from : string -> string).
  (** Whether dropping the row of a block commits. *)
  Context (row_commits : Uuid -> bool).

Abbreviation World := (World St).

(** The common body of the two reapers: the objects, then the row. *)
Definition reap_block (w : World) (m : BlockMeta) : list World * World * bool :=
  let '(tr, st, r) := delete_block_objects uuid_str civil today path_from (w_store w) m in
  let worlds := map (fun s => mkWorld s (w_catalog w)) tr in
  match r with
  | Err _ => (worlds, mkWorld st (w_catalog w), false)
  | Ok _ =>
      if row_commits (uuid m) then
        let w' := mkWorld st (delete_blocks (w_catalog w) [uuid m]) in (worlds ++ [w'], w', true)
      else (worlds, mkWorld st (w_catalog w), false)
  end.

(** ** Retention *)

Definition report_reaped (r : RetentionReport) (m : BlockMeta) : RetentionReport :=
  mkRet (scanned r) (candidates r) (bytes_candidates r) (staged r) (reaped r + 1)
    (bytes_reaped r + byte_size m) (reap_failed r) (dry_run r) (aborted r)
    (bt_alter (fun o => let '(n, b) := default (0, 0) o in (n + 1, b + byte_size m)) (signal m)
       (rep_by_signal r)).
Definition report_reap_failed (r : RetentionReport) : RetentionReport :=
  mkRet (scanned r) (candidates r) (bytes_candidates r) (staged r) (reaped r) (bytes_reaped r)
    (reap_failed r + 1) (dry_run r) (aborted r) (rep_by_signal r).
Definition report_staged (r : RetentionReport) (n : Z) : RetentionReport :=
  mkRet (scanned r) (candidates r) (bytes_candidates r) (staged r + n) (reaped r) (bytes_reaped r)
    (reap_failed r) (dry_run r) (aborted r) (rep_by_signal r).
Definition report_aborted (r : RetentionReport) (b : bool) : RetentionReport :=
  mkRet (scanned r) (candidates r) (bytes_candidates r) (staged r) (reaped r) (bytes_reaped r)
    (reap_failed r) (dry_run r) b (rep_by_signal r).

(** The blocks of each signal, in the order of the signals. *)
Definition by_signal_push (m : btree string (list Uuid)) (sig : string) (u : Uuid)
    : btree string (list Uuid) :=
  bt_alter (fun o => default [] o ++ [u]) sig m.

Fixpoint reap_deletions_loop (w : World) (rep : RetentionReport) (acc : btree string (list Uuid))
    (pending : list CatalogEntry)
    : list World * World * RetentionReport * btree string (list Uuid) :=
  match pending with
  | [] => ([], w, rep, acc)
  | e :: pending =>
      let '(tr, w, ok) := reap_block w (meta e) in
      let rep := if ok then report_reaped rep (meta e) else report_reap_failed rep in
      let acc := if ok then by_signal_push acc (signal (meta e)) (uuid (meta e)) else acc in
      let '(tr', w', rep', acc') := reap_deletions_loop w rep acc pending in
      (tr ++ tr', w', rep', acc')
  end.

Definition reap_pending_deletions (w : World) (rep : RetentionReport) (pending : list CatalogEntry)
    : list World * World * RetentionReport * list BlockEvent :=
  let '(tr, w, rep, acc) := reap_deletions_loop w rep [] pending in
  (tr, w, rep, map (fun g => Deleted g.1 g.2) acc).

Definition staged_groups (expired : list CatalogEntry) : btree string (list Uuid) :=
  fold_left (fun m e => by_signal_push m (signal (meta e)) (uuid (meta e))) expired [].

(** [fence1] and [fence2] are the two answers of the fence, [stage_commits] whether
    staging commits. *)
Definition retain_planned (w : World) (rep : RetentionReport) (expired : list CatalogEntry)
    (cfg : RetentionConfig) (now : Z) (fence1 fence2 stage_commits : bool)
    : list World * World * RetentionReport * list BlockEvent * result MaintenanceError bool :=
  if bool_decide (expired = []) then ([], w, rep, [], Ok false)
  else if negb fence1 then ([], w, rep, [], Ok true)
  else if negb stage_commits then ([], w, rep, [], Err StageFailed)
  else
    let eligible_at := sat_add now (Z.min (retention_grace cfg) u64_max) in
    let w := mkWorld (w_store w)
      (mark_deleted (w_catalog w) (map (fun e => uuid (meta e)) expired) now eligible_at) in
    let events := map (fun g => SoftDeleted g.1 g.2 now eligible_at) (staged_groups expired) in
    if (retention_grace cfg =? 0) && fence2 then
      let '(tr, w', rep, events') :=
        reap_pending_deletions w rep (list_pending_deletions (w_catalog w) now) in
      (w :: tr, w', rep, events ++ events', Ok false)
    else ([w], w, report_staged rep (zlen expired), events, Ok false).

Definition retention_start (c : Catalog) (cfg : RetentionConfig) (now : Z)
    : list CatalogEntry * RetentionReport :=
  let live := list_blocks c in
  let expired := plan_reaping live cfg now in
  (expired, mkRet (zlen live) (zlen expired) (sum_of (fun e => byte_size (meta e)) expired) 0 0 0 0
              (negb (apply_deletes_flag cfg)) false []).

(** The single-instance pass: no lease, a fence that always holds. *)
Definition retain_once (w : World) (cfg : RetentionConfig) (now : Z) (stage_commits : bool)
    : list World * World * result MaintenanceError RetentionReport :=
  let '(expired, rep) := retention_start (w_catalog w) cfg now in
  if negb (apply_deletes_flag cfg) then ([], w, Ok rep)
  else
    let '(tr, w, rep, _) :=
      reap_pending_deletions w rep (list_pending_deletions (w_catalog w) now) in
    if bool_decide (expired = []) then (tr, w, Ok rep)
    else
      let '(tr', w, rep, _, r) := retain_planned w rep expired cfg now true true stage_commits in
      (tr ++ tr', w, let? a := r in Ok (report_aborted rep a)).

Definition RETENTION_LEASE_KEY : string := "lease/retention".

(** The lease provider's answer, with the fence of an acquired lease. *)
Inductive LeaseAnswer :=
| LeaseAcquired (fence1 fence2 : bool)
| LeaseHeldByPeer
| LeaseUnreachable.

(** Every hidden block that is not yet reaped is announced again. *)
Definition announce_outstanding_deletions (c : Catalog) : list BlockEvent :=
  map (fun g : ((string * Z) * Z) * list Uuid =>
         SoftDeleted g.1.1.1 g.2 g.1.1.2 g.1.2)
    (fold_left (fun (m : btree ((string * Z) * Z) (list Uuid)) (s : Uuid * string * Z * Z) =>
                  bt_alter (fun o => default [] o ++ [s.1.1.1]) ((s.1.1.2, s.1.2), s.2) m)
       (list_staged_deletions c) []).

Definition run_retention_pass (w : World) (cfg : RetentionConfig) (now : Z) (lease : LeaseAnswer)
    (stage_commits : bool)
    : list World * World * list BlockEvent * result MaintenanceError RetentionReport :=
  let '(expired, rep) := retention_start (w_catalog w) cfg now in
  if negb (apply_deletes_flag cfg) then ([], w, [], Ok rep)
  else
    let announced := announce_outstanding_deletions (w_catalog w) in
    let '(tr, w, rep, events) :=
      reap_pending_deletions w rep (list_pending_deletions (w_catalog w) now) in
    let events := announced ++ events in
    if bool_decide (expired = []) then (tr, w, events, Ok rep)
    else match lease with
         | LeaseHeldByPeer | LeaseUnreachable => (tr, w, events, Ok (report_aborted rep true))
         | LeaseAcquired f1 f2 =>
             let '(tr', w, rep, events', r) := retain_planned w rep expired cfg now f1 f2 stage_commits in
             (tr ++ tr', w, events ++ events', let? a := r in Ok (report_aborted rep a))
         end.

(** ** Compaction *)

Record CompactReport := mkCompactReport {
  cr_merges : Z; cr_blocks_in : Z; cr_blocks_out : Z; cr_bytes_out : Z; cr_aborted : Z;
  cr_reaped : Z; cr_reap_failed : Z; cr_partition_failed : Z; cr_resource_failed : Z;
  cr_lease_held : Z; cr_lease_unavailable : Z; cr_oversized : Z }.

Definition CompactReport_default : CompactReport := mkCompactReport 0 0 0 0 0 0 0 0 0 0 0 0.

Definition count_reap (r : CompactReport) (ok : bool) : CompactReport :=
  mkCompactReport (cr_merges r) (cr_blocks_in r) (cr_blocks_out r) (cr_bytes_out r) (cr_aborted r)
    (cr_reaped r + b2i ok) (cr_reap_failed r + b2i (negb ok)) (cr_partition_failed r)
    (cr_resource_failed r) (cr_lease_held r) (cr_lease_unavailable r) (cr_oversized r).

Fixpoint reap_pending (w : World) (rep : CompactReport) (pending : list PendingReap)
    : list World * World * CompactReport * list BlockEvent :=
  match pending with
  | [] => ([], w, rep, [])
  | p :: pending =>
      let m := meta (reap_entry p) in
      let '(tr, w, ok) := reap_block w m in
      let '(tr', w', rep', events) := reap_pending w (count_reap rep ok) pending in
      (tr ++ tr', w', rep', (if ok then [Deleted (signal m) [uuid m]] else []) ++ events)
  end.

Inductive PartitionOutcome :=
| Merged (bytes_out : Z)
| Aborted_.

Definition absorb (r : CompactReport) (o : PartitionOutcome) (n_inputs : Z) : CompactReport :=
  match o with
  | Merged bytes_out =>
      mkCompactReport (cr_merges r + 1) (cr_blocks_in r + n_inputs) (cr_blocks_out r + 1)
        (cr_bytes_out r + bytes_out) (cr_aborted r) (cr_reaped r) (cr_reap_failed r)
        (cr_partition_failed r) (cr_resource_failed r) (cr_lease_held r) (cr_lease_unavailable r)
        (cr_oversized r)
  | Aborted_ =>
      mkCompactReport (cr_merges r) (cr_blocks_in r) (cr_blocks_out r) (cr_bytes_out r)
        (cr_aborted r + 1) (cr_reaped r) (cr_reap_failed r) (cr_partition_failed r)
        (cr_resource_failed r) (cr_lease_held r) (cr_lease_unavailable r) (cr_oversized r)
  end.

Definition compaction_lease_key (signal date : string) (input_level : Z) : string :=
  "lease/compact/" +:+ signal +:+ "/" +:+ date +:+ "/" +:+ pretty input_level.

End Maintenance.

(** ** One partition *)

Section Partition.
  Context {St : Type} `{ObjectStore St} {Schema F : Type} `{EqDecision Schema} (env : MergeEnv Schema F).
  Context (row_commits : Uuid -> bool).

(** [fence1], [fence_commit] with [fate], and [fence2] are the answers of the fence
    before the merge, at its commit, and after the catalog; [admission] the answer of
    resource admission, the bytes reserved; [apply_commits] whether the catalog
    commits; [reaps_read] whether the pending reaps can be read afterwards; [now] and
    [now'] the clock at the catalog's commit and at that reading; [block_uuid] the UUID
    drawn for the output. *)
Definition compact_partition (w : World St) (plan : PlannedMerge) (cfg : CompactConfig)
    (writer_id block_uuid : Uuid) (fence1 : bool) (admission : Z -> result ResourceError Z)
    (fence_commit : bool) (fate : CommitFate) (apply_commits fence2 reaps_read : bool) (now now' : Z)
    : list (World St) * World St * list BlockEvent * result MaintenanceError PartitionOutcome :=
  let input_uuids := map (fun e => uuid (meta e)) (inputs plan) in
  if negb fence1 then ([], w, [], Ok Aborted_)
  else match (let? estimated := estimate_non_datafusion_bytes plan (me_res env) in admission estimated) with
  | Err e => ([], w, [], Err (Resources e))
  | Ok reserved =>
      let '(tr, st, r) := merge_blocks env (pm_signal plan) (inputs plan) (output_level plan)
                            writer_id block_uuid reserved fence_commit fate (w_store w) in
      let worlds := map (fun s => mkWorld s (w_catalog w)) tr in
      let w := mkWorld st (w_catalog w) in
      match r with
      | Err e => (worlds, w, [], Err (MergeFailed e))
      | Ok None => (worlds, w, [], Ok Aborted_)
      | Ok (Some merged) =>
          if negb apply_commits then (worlds, w, [], Err ApplyFailed)
          else
            let eligible_at := sat_add now (wrap64 (grace cfg)) in
            let w := mkWorld st (apply_compaction (me_civil env) (me_today env) now (w_catalog w)
                                   merged input_uuids eligible_at).1 in
            let events := [Created merged; Superseded input_uuids (uuid merged) merged eligible_at] in
            if (grace cfg =? 0) && fence2 then
              if negb reaps_read then (worlds ++ [w], w, events, Err ListReapsFailed)
              else
                let '(tr', w', _, events') :=
                  reap_pending (me_uuid_str env) (me_civil env) (me_today env) (me_path_from env) row_commits
                    w CompactReport_default (list_pending_reaps (w_catalog w) now') in
                (worlds ++ w :: tr', w', events ++ events', Ok (Merged (byte_size merged)))
            else (worlds ++ [w], w, events, Ok (Merged (byte_size merged)))
      end
  end.
End Partition.
