(* ===== verification/MaintenanceFacts.v ===== *)
(** * MaintenanceFacts: what the reapers, retention and compaction may do

    Safety of the two reapers, of a retention pass and of the compaction of a
    partition, in every world they go through. *)

From S2P Require Import Prelude Order Bytes Block Compaction Retention Layout Catalog CatalogFacts Cluster.
From S2P Require Import CompactResource Postings Merge Maintenance.
From Stdlib Require Import Sorting.Sorted.

(** ** Listed rows *)

Lemma elem_of_select {K} `{Ord K} p (key : Uuid -> Row -> K) c u r :
  In (u, r) (select p key c) <-> blocks c !! u = Some r /\ p u r = true.
Proof.
  unfold select. rewrite sort_by_key_In, List.filter_In, <- list_elem_of_In, elem_of_map_to_list. done.
Qed.

Lemma elem_of_list_blocks c e :
  In e (list_blocks c) <-> exists u r, blocks c !! u = Some r /\ is_live r = true /\ e = row_to_entry u r.
Proof.
  unfold list_blocks, entries. rewrite in_map_iff. split.
  - intros ([u r] & <- & [? ?]%elem_of_select). eauto.
  - intros (u & r & ? & ? & ->). exists (u, r). split; [done|]. by apply elem_of_select.
Qed.

Lemma elem_of_pending_deletions c now e :
  In e (list_pending_deletions c now) <->
  exists u r, blocks c !! u = Some r /\ deletion_due now r = true /\ e = row_to_entry u r.
Proof.
  unfold list_pending_deletions, entries. rewrite in_map_iff. split.
  - intros ([u r] & <- & [? ?]%elem_of_select). eauto.
  - intros (u & r & ? & ? & ->). exists (u, r). split; [done|]. by apply elem_of_select.
Qed.

Lemma elem_of_pending_reaps c now p :
  In p (list_pending_reaps c now) ->
  exists u r, blocks c !! u = Some r /\ reap_due now r = true /\ reap_entry p = row_to_entry u r.
Proof.
  unfold list_pending_reaps. rewrite in_map_iff. intros ([u r] & <- & [? ?]%elem_of_select). eauto.
Qed.

Lemma elem_of_plan_reaping bs cfg now e :
  In e (plan_reaping bs cfg now) <-> In e bs /\ expired cfg now e = true.
Proof. unfold plan_reaping. rewrite stable_sort_In. apply List.filter_In. Qed.

Lemma mark_deleted_rows us d t : forall c u,
  match blocks c !! u with
  | Some r => exists r', blocks (mark_deleted c us d t) !! u = Some r' /\ row_to_entry u r' = row_to_entry u r /\
      (u ∉ us -> r' = r) /\ (u ∈ us -> is_Some (c_deleted_at r'))
  | None => blocks (mark_deleted c us d t) !! u = None
  end.
Proof.
  induction us as [|x us IH]; intros c u.
  - destruct (blocks c !! u) as [r|] eqn:E; [|done]. exists r. split_and!; [done..|set_solver].
  - change (mark_deleted c (x :: us) d t) with (mark_deleted (mark_deleted_one d t c x) us d t).
    specialize (IH (mark_deleted_one d t c x) u). unfold mark_deleted_one in IH at 1. cbn [blocks set_blocks] in IH.
    destruct (decide (u = x)) as [->|Hne].
    + rewrite lookup_alter_eq in IH. destruct (blocks c !! x) as [r|]; cbn in IH; [|exact IH].
      destruct IH as (r' & Hr' & He & Hnot & Hin). exists r'. split_and!; [done..|set_solver|].
      intros _. destruct (decide (x ∈ us)) as [Hx|Hx]; [by apply Hin|]. rewrite Hnot by done. cbn. eauto.
    + rewrite lookup_alter_ne in IH by done. destruct (blocks c !! u) as [r|]; [|exact IH].
      destruct IH as (r' & Hr' & He & Hnot & Hin). exists r'. split_and!; [done..| |]; set_solver.
Qed.

(** ** Reaping *)

Lemma delete_loop_last {St} `{ObjectStore St} (s : St) paths :
  let '(tr, s', r) := delete_loop s paths in s' = s \/ In s' tr.
Proof.
  revert s. induction paths as [|p paths IH]; intros s; cbn [delete_loop]; [by left|].
  destruct (store_delete s p) as [s1 [[]|[]]]; try (right; by left).
  all: specialize (IH s1); destruct (delete_loop s1 paths) as [[tr s'] r]; right;
    destruct IH as [->|IH]; [by left|by right].
Qed.

Section Reaping.
  Context {St : Type} `{ObjectStore St}.
  Context (uuid_str : Uuid -> string) (civil : Z -> option (string * string * string)).
  Context (today : string * string * string) (path_from : string -> string) (row_commits : Uuid -> bool).
  Implicit Types w t : World St.
  Abbreviation opath := (object_path uuid_str civil today path_from).
  Abbreviation obj w := (objects (w_store w)).
  Abbreviation row w := (blocks (w_catalog w)).

(** The objects of [m] are gone. *)
Definition gone (m : BlockMeta) (w : World St) : Prop :=
  forall k, In k (delete_kinds m) -> obj w !! opath m k = None.

(** From [w] to [w'] only blocks of [ms] were reaped, and each row was dropped
    after its objects. *)
Record reaped_only (ms : list BlockMeta) (w w' : World St) : Prop := {
  ro_objects : forall p, obj w' !! p = obj w !! p \/
    (obj w' !! p = None /\ exists m k, In m ms /\ In k (delete_kinds m) /\ p = opath m k);
  ro_rows : forall u, row w' !! u = row w !! u \/
    (row w' !! u = None /\ exists m, In m ms /\ uuid m = u /\ gone m w') }.

Lemma reaped_refl ms w : reaped_only ms w w.
Proof. split; intros; by left. Qed.

Lemma gone_mono ms m w w' : reaped_only ms w w' -> gone m w -> gone m w'.
Proof.
  intros [Ho _] Hg k Hk. destruct (Ho (opath m k)) as [->|[-> _]]; [by apply Hg|done].
Qed.

Lemma reaped_trans ms w1 w2 w3 : reaped_only ms w1 w2 -> reaped_only ms w2 w3 -> reaped_only ms w1 w3.
Proof.
  intros H1 H2. split.
  - intros p. destruct (ro_objects _ _ _ H2 p) as [->|?]; [apply H1|by right].
  - intros u. destruct (ro_rows _ _ _ H2 u) as [->|?]; [|by right].
    destruct (ro_rows _ _ _ H1 u) as [|[? (m & ? & ? & ?)]]; [by left|]. right. split; [done|].
    exists m. split_and!; [done..|]. by eapply gone_mono.
Qed.

Lemma reaped_weaken ms ms' w w' : incl ms ms' -> reaped_only ms w w' -> reaped_only ms' w w'.
Proof.
  intros Hi [Ho Hr]. split.
  - intros p. destruct (Ho p) as [|[? (m & k & ? & ?)]]; [by left|]. right. split; [done|].
    exists m, k. split; [by apply Hi|done].
  - intros u. destruct (Hr u) as [|[? (m & ? & ?)]]; [by left|]. right. split; [done|].
    exists m. split; [by apply Hi|done].
Qed.

#[global] Instance reaped_only_preorder ms : PreOrder (reaped_only ms).
Proof. split; [intros w; apply reaped_refl|intros ? ? ?; apply reaped_trans]. Qed.

Lemma reap_block_spec w m :
  let '(tr, w', ok) := reap_block uuid_str civil today path_from row_commits w m in
  Forall (reaped_only [m] w) (w' :: tr) /\
  (ok = true -> row w' !! uuid m = None /\ gone m w') /\
  (ok = false -> w_catalog w' = w_catalog w).
Proof.
  unfold reap_block. 
  pose proof (delete_loop_spec (w_store w) (map (opath m) (delete_kinds m))) as Hd.
  pose proof (delete_loop_last (w_store w) (map (opath m) (delete_kinds m))) as Hl.
  unfold delete_block_objects. destruct (delete_loop _ _) as [[tr st] r]. destruct Hd as [Htr Hok].
  assert (forall s, In s tr -> reaped_only [m] w (mkWorld s (w_catalog w))) as Hs.
  { intros s (n & _ & He)%Htr. split; cbn; [|by left]. intros p. rewrite He, apply_deletes_lookup.
    case_bool_decide as Hp; [right|by left]. split; [done|]. apply elem_of_take in Hp as (i & Hi & _).
    apply list_elem_of_lookup_2, list_elem_of_In, in_map_iff in Hi as (k & <- & Hk). exists m, k.
    split_and!; [by left|done..]. }
  assert (reaped_only [m] w (mkWorld st (w_catalog w))) as Hst.
  { destruct Hl as [->|Hin]; [|by apply Hs]. destruct w. apply reaped_refl. }
  assert (Forall (reaped_only [m] w) (map (fun s => mkWorld s (w_catalog w)) tr)) as Htr'.
  { apply List.Forall_map, List.Forall_forall. exact Hs. }
  destruct r as [[]|e]; [|split_and!; [by apply Forall_cons_2|done..]].
  destruct (row_commits (uuid m)); [|split_and!; [by apply Forall_cons_2|done..]].
  assert (gone m (mkWorld st (delete_blocks (w_catalog w) [uuid m]))) as Hg.
  { intros k Hk. cbn. rewrite (Hok eq_refl), apply_deletes_lookup, bool_decide_eq_true_2; [done|].
    by apply list_elem_of_In, in_map. }
  assert (reaped_only [m] w (mkWorld st (delete_blocks (w_catalog w) [uuid m]))) as Hw.
  { split; [apply Hst|]. intros u. cbn [w_catalog]. rewrite delete_blocks_lookup. case_bool_decide as Hu; [|by left].
    apply list_elem_of_singleton in Hu as ->. right. split; [done|]. exists m. split_and!; [by left|done..]. }
  split_and!; [| |done].
  - apply Forall_cons_2; [done|]. by apply Forall_app_2; [|apply Forall_cons_2].
  - intros _. split; [|done]. cbn [w_catalog]. rewrite delete_blocks_lookup, bool_decide_eq_true_2 by set_solver. done.
Qed.

Lemma reaped_row_none ms w w' u : reaped_only ms w w' -> row w !! u = None -> row w' !! u = None.
Proof. intros [_ Hr] Hu. destruct (Hr u) as [->|[? _]]; done. Qed.

(** A reaped block, then the others. *)
Lemma reaped_step m ms w w1 tr w' tr' :
  Forall (reaped_only [m] w) (w1 :: tr) -> Forall (reaped_only ms w1) (w' :: tr') ->
  Forall (reaped_only (m :: ms) w) (w' :: tr ++ tr').
Proof.
  intros [Hw1 Htr]%Forall_cons Hw'.
  assert (incl [m] (m :: ms) /\ incl ms (m :: ms)) as [? ?].
  { split; [intros x [<-|[]]; by left|intros x; by right]. }
  assert (forall x, reaped_only ms w1 x -> reaped_only (m :: ms) w x) as Hlift.
  { intros x Hx. eapply reaped_trans; eapply reaped_weaken; [|exact Hw1| |exact Hx]; done. }
  apply Forall_cons in Hw' as [Hw' Htr']. apply Forall_cons_2; [by apply Hlift|]. apply Forall_app_2.
  - eapply Forall_impl; [exact Htr|]. intros x. by apply reaped_weaken.
  - eapply Forall_impl; [exact Htr'|exact Hlift].
Qed.

(** A group of blocks to announce: each was reaped. *)
Definition announces (pending : list CatalogEntry) (acc0 acc : btree string (list Uuid)) (w : World St) : Prop :=
  forall sig us u, In (sig, us) acc -> In u us ->
    (exists us0, In (sig, us0) acc0 /\ In u us0) \/
    exists e, In e pending /\ signal (meta e) = sig /\ uuid (meta e) = u /\
      row w !! u = None /\ gone (meta e) w.

Lemma push_announced acc sig u :
  bt_sorted acc -> forall sig' us v, In (sig', us) (by_signal_push acc sig u) -> In v us ->
  (exists us0, In (sig', us0) acc /\ In v us0) \/ (sig' = sig /\ v = u).
Proof.
  intros Hs sig' us v Hin Hv. unfold by_signal_push in Hin.
  apply bt_alter_In in Hin; [|done]. cbn [fst snd] in Hin.
  destruct Hin as [[= -> ->]|[Hin _]]; [|eauto].
  destruct (bt_get sig acc) as [us0|] eqn:E; cbn in Hv.
  - apply in_app_iff in Hv as [Hv|[<-|[]]]; [|by right]. left. exists us0. split; [by apply bt_get_Some_In|done].
  - destruct Hv as [<-|[]]. by right.
Qed.

Lemma reap_deletions_loop_spec pending : forall w rep acc, bt_sorted acc ->
  let '(tr, w', rep', acc') :=
    reap_deletions_loop uuid_str civil today path_from row_commits w rep acc pending in
  Forall (reaped_only (map meta pending) w) (w' :: tr) /\
  reaped rep' + reap_failed rep' = reaped rep + reap_failed rep + zlen pending /\
  bt_sorted acc' /\ announces pending acc acc' w'.
Proof.
  induction pending as [|e pending IH]; intros w rep acc Hs; cbn [reap_deletions_loop].
  { split_and!; [apply Forall_singleton, reaped_refl|rewrite zlen_nil; lia|done|]. intros sig us u ? ?. eauto. }
  pose proof (reap_block_spec w (meta e)) as Hb.
  destruct (reap_block _ _ _ _ _ w (meta e)) as [[tr w1] ok]. destruct Hb as (Hb & Hok & _).
  set (acc1 := if ok then by_signal_push acc (signal (meta e)) (uuid (meta e)) else acc).
  assert (bt_sorted acc1) as Hs1 by (unfold acc1; destruct ok; [by apply bt_alter_sorted|done]).
  specialize (IH w1 (if ok then report_reaped rep (meta e) else report_reap_failed rep) acc1 Hs1).
  destruct (reap_deletions_loop _ _ _ _ _ w1 _ acc1 pending) as [[[tr' w'] rep'] acc'].
  destruct IH as (Hr & Hn & Hs' & Ha). assert (reaped_only (map meta pending) w1 w') as Hw' by by apply Forall_cons in Hr as [? _].
  split_and!; [by eapply reaped_step| |done|].
  - rewrite zlen_cons. destruct ok; cbn in Hn; lia.
  - intros sig us u Hin Hu. destruct (Ha sig us u Hin Hu) as [(us0 & Hin0 & Hu0)|(e' & ? & ?)];
      [|right; exists e'; split; [by right|done]].
    unfold acc1 in Hin0. destruct ok; [|eauto].
    destruct (push_announced acc _ _ Hs _ _ _ Hin0 Hu0) as [?|[-> ->]]; [by left|]. right. exists e.
    destruct (Hok eq_refl) as [Hrow Hg]. split_and!; [by left|done|done|by eapply reaped_row_none|by eapply gone_mono].
Qed.

Lemma reap_pending_spec pending : forall w rep,
  let '(tr, w', rep', evs) := reap_pending uuid_str civil today path_from row_commits w rep pending in
  Forall (reaped_only (map (fun p => meta (reap_entry p)) pending) w) (w' :: tr) /\
  cr_reaped rep' + cr_reap_failed rep' = cr_reaped rep + cr_reap_failed rep + zlen pending.
Proof.
  induction pending as [|p pending IH]; intros w rep; cbn [reap_pending].
  { split_and!; [apply Forall_singleton, reaped_refl|rewrite zlen_nil; lia]. }
  pose proof (reap_block_spec w (meta (reap_entry p))) as Hb.
  destruct (reap_block _ _ _ _ _ w _) as [[tr w1] ok]. destruct Hb as (Hb & _ & _).
  specialize (IH w1 (count_reap rep ok)).
  destruct (reap_pending _ _ _ _ _ w1 _ pending) as [[[tr' w'] rep'] evs].
  destruct IH as (Hr & Hn).
  split; [by eapply reaped_step|].
  rewrite zlen_cons. destruct ok; cbn in Hn; lia.
Qed.

(** The reaper of expired blocks drops a row only after its objects: in every
    world it goes through, whatever requests or commits fail, objects disappear
    only if they belong to a pending block, and a row is gone only if its
    objects are; every pending block is counted as reaped or as failed, and what
    is announced as deleted is really gone. *)
Theorem deletions_reaped_in_order w rep pending :
  let '(tr, w', rep', evs) :=
    reap_pending_deletions uuid_str civil today path_from row_commits w rep pending in
  Forall (reaped_only (map meta pending) w) (w' :: tr) /\
  reaped rep' + reap_failed rep' = reaped rep + reap_failed rep + zlen pending /\
  forall sig us u, In (Deleted sig us) evs -> In u us ->
    exists e, In e pending /\ signal (meta e) = sig /\ uuid (meta e) = u /\
      row w' !! u = None /\ gone (meta e) w'.
Proof.
  unfold reap_pending_deletions. pose proof (reap_deletions_loop_spec pending w rep [] ltac:(constructor)) as Hl.
  destruct (reap_deletions_loop _ _ _ _ _ w rep [] pending) as [[[tr w'] rep'] acc].
  destruct Hl as (Hr & Hn & _ & Ha). split_and!; [done..|]. intros sig us u Hev Hu.
  apply in_map_iff in Hev as ([sig' us'] & [= <- <-] & Hin).
  by destruct (Ha _ _ _ Hin Hu) as [(? & [] & _)|?].
Qed.

(** ** A retention pass *)

Section Retention.
  Context (w : World St) (cfg : RetentionConfig) (now : Z).
Let exp := plan_reaping (list_blocks (w_catalog w)) cfg now.
Let due := list_pending_deletions (w_catalog w) now.

(** What a world of the pass may differ in: objects of [A] are gone, rows of [A]
    are dropped after their objects, rows of expired blocks are marked. *)
Record retains (A : list CatalogEntry) (t : World St) : Prop := {
  rt_objects : forall p, obj t !! p = obj w !! p \/
    (obj t !! p = None /\ exists e k, In e A /\ In k (delete_kinds (meta e)) /\ p = opath (meta e) k);
  rt_rows : forall u,
    row t !! u = row w !! u \/
    (row t !! u = None /\ exists e, In e A /\ uuid (meta e) = u /\ gone (meta e) t) \/
    (exists r r', row w !! u = Some r /\ row t !! u = Some r' /\ row_to_entry u r' = row_to_entry u r /\
       In (row_to_entry u r) exp) }.

Lemma reaped_retains A t : reaped_only (map meta A) w t -> retains A t.
Proof.
  intros [Ho Hr]. split.
  - intros p. destruct (Ho p) as [|[? (m & k & (e & <- & He)%in_map_iff & ? & ?)]]; [by left|]. right.
    split; [done|]. by exists e, k.
  - intros u. destruct (Hr u) as [|[? (m & (e & <- & He)%in_map_iff & ? & ?)]]; [by left|]. right. left.
    split; [done|]. by exists e.
Qed.

Lemma retains_weaken A A' t : incl A A' -> retains A t -> retains A' t.
Proof.
  intros Hi [Ho Hr]. split.
  - intros p. destruct (Ho p) as [|[? (e & k & ? & ?)]]; [by left|]. right. split; [done|].
    exists e, k. split; [by apply Hi|done].
  - intros u. destruct (Hr u) as [|[[? (e & ? & ?)]|?]]; [by left| |by right; right]. right. left.
    split; [done|]. exists e. split; [by apply Hi|done].
Qed.

Lemma exp_row u : In u (map (fun e => uuid (meta e)) exp) ->
  exists r, row w !! u = Some r /\ is_live r = true /\ In (row_to_entry u r) exp.
Proof.
  rewrite in_map_iff. intros (e & <- & He). pose proof He as He'.
  apply elem_of_plan_reaping in He as [(u & r & Hr & Hl & ->)%elem_of_list_blocks _]. exists r. done.
Qed.

(** Staging the expired blocks on a world reached by reaping the due ones. *)
Lemma staged_retains w1 d el :
  reaped_only (map meta due) w w1 ->
  let w2 := mkWorld (w_store w1) (mark_deleted (w_catalog w1) (map (fun e => uuid (meta e)) exp) d el) in
  retains due w2 /\
  forall e, In e (list_pending_deletions (w_catalog w2) now) -> In e (due ++ exp).
Proof.
  intros Hr. cbv zeta. apply reaped_retains in Hr as [Ho Hrow]. cbn [w_catalog w_store].
  set (us := map (fun e => uuid (meta e)) exp).
  assert (forall u r', blocks (mark_deleted (w_catalog w1) us d el) !! u = Some r' ->
    exists r, row w !! u = Some r /\ row_to_entry u r' = row_to_entry u r /\
      (r' = r \/ In (row_to_entry u r) exp)) as Hm.
  { intros u r' Hr'. pose proof (mark_deleted_rows us d el (w_catalog w1) u) as Hmd.
    destruct (row w1 !! u) as [r1|] eqn:E1; [|congruence].
    destruct Hmd as (r2 & Hr2 & He & Hnot & _). rewrite Hr' in Hr2. injection Hr2 as <-.
    destruct (Hrow u) as [Hw|[[? _]|(r & r1' & Hw & Hw1 & Her & Hin)]]; [|congruence|].
    - rewrite E1 in Hw. exists r1. split_and!; [done..|].
      destruct (decide (u ∈ us)) as [Hu|Hu]; [|by left; apply Hnot].
      apply list_elem_of_In, exp_row in Hu as (r & Hr & _ & Hin). rewrite <- Hw in Hr. injection Hr as ->. by right.
    - rewrite E1 in Hw1. injection Hw1 as <-. exists r. split_and!; [done|congruence|by right]. }
  split.
  - split; [apply Ho|]. intros u. cbn [w_catalog w_store].
    destruct (blocks (mark_deleted (w_catalog w1) us d el) !! u) as [r'|] eqn:E.
    + destruct (Hm u r' E) as (r & Hr & He & [->|Hin]); [by left|right; right]. by exists r, r'.
    + pose proof (mark_deleted_rows us d el (w_catalog w1) u) as Hmd.
      destruct (row w1 !! u) as [r1|] eqn:E1; [destruct Hmd as (? & ? & _); congruence|].
      destruct (Hrow u) as [Hw|[[_ Hg]|(? & ? & _ & Hw1 & _)]]; [left; congruence|by right; left|congruence].
  - intros e (u & r' & Hr' & Hdue & ->)%elem_of_pending_deletions.
    destruct (Hm u r' Hr') as (r & Hr & -> & [->|Hin]); apply in_or_app; [left|by right].
    apply elem_of_pending_deletions. by exists u, r.
Qed.

Lemma reap_after_stage w2 ms t :
  retains (due ++ exp) w2 -> incl ms (due ++ exp) -> reaped_only (map meta ms) w2 t -> retains (due ++ exp) t.
Proof.
  intros [Ho Hr] Hi Hre. pose proof (fun m => gone_mono (map meta ms) m _ _ Hre) as Hg. destruct Hre as [Ho2 Hr2]. split.
  - intros p. destruct (Ho2 p) as [->|[? (m & k & (e & <- & He)%in_map_iff & ? & ?)]]; [apply Ho|].
    right. split; [done|]. exists e, k. split; [by apply Hi|done].
  - intros u. destruct (Hr2 u) as [->|[? (m & (e & <- & He)%in_map_iff & ? & ?)]].
    + destruct (Hr u) as [|[[? (e & ? & ? & ?)]|?]]; [by left| |by right; right]. right. left. split; [done|].
      exists e. split_and!; [done..|by apply Hg].
    + right. left. split; [done|]. exists e. split; [by apply Hi|done].
Qed.
End Retention.

Lemma reap_pending_deletions_spec w rep pending :
  let '(tr, w', _, _) :=
    reap_pending_deletions uuid_str civil today path_from row_commits w rep pending in
  Forall (reaped_only (map meta pending) w) (w' :: tr).
Proof.
  unfold reap_pending_deletions. pose proof (reap_deletions_loop_spec pending w rep [] ltac:(constructor)) as Hl.
  destruct (reap_deletions_loop _ _ _ _ _ w rep [] pending) as [[[tr w'] rep'] acc]. apply Hl.
Qed.

(** The staging and the reap that may follow it, after the due blocks. *)
Lemma retain_planned_spec w cfg now w1 rep f1 f2 sc :
  let exp := plan_reaping (list_blocks (w_catalog w)) cfg now in
  let due := list_pending_deletions (w_catalog w) now in
  reaped_only (map meta due) w w1 ->
  let '(tr, w', _, _, _) :=
    retain_planned uuid_str civil today path_from row_commits w1 rep exp cfg now f1 f2 sc in
  Forall (retains w cfg now (due ++ (if (retention_grace cfg =? 0) && f1 && f2 then exp else []))) (w' :: tr) /\
  (f1 = false -> w' = w1).
Proof.
  cbv zeta. set (exp := plan_reaping _ _ _). set (due := list_pending_deletions _ _). intros Hr.
  assert (incl due (due ++ (if (retention_grace cfg =? 0) && f1 && f2 then exp else []))) as Hi
    by (intros x Hx; apply in_or_app; by left).
  assert (retains w cfg now (due ++ (if (retention_grace cfg =? 0) && f1 && f2 then exp else [])) w1) as Hw1.
  { eapply retains_weaken; [exact Hi|]. by apply reaped_retains. }
  assert (forall (x : World St), retains w cfg now (due ++ (if (retention_grace cfg =? 0) && f1 && f2 then exp else [])) x ->
    Forall (retains w cfg now (due ++ (if (retention_grace cfg =? 0) && f1 && f2 then exp else []))) [x]) as Hone.
  { intros x Hx. by apply Forall_singleton. }
  unfold retain_planned. case_bool_decide; [split; [by apply Hone|done]|].
  destruct f1; cbn [negb]; [|split; [by apply Hone|done]].
  destruct sc; cbn [negb]; [|split; [by apply Hone|done]]. cbv zeta.
  destruct (staged_retains w cfg now w1 now (sat_add now (Z.min (retention_grace cfg) u64_max)) Hr) as [Hst Hpend].
  fold exp in Hst, Hpend. fold due in Hst, Hpend. cbn [w_catalog] in Hpend.
  set (w2 := mkWorld (w_store w1) _) in *.
  rewrite andb_true_r in *. destruct (retention_grace cfg =? 0); cbn [andb] in *;
    [destruct f2|]; cbn [andb] in *.
  - pose proof (reap_pending_deletions_spec w2 rep (list_pending_deletions (w_catalog w2) now)) as Hrp.
    destruct (reap_pending_deletions _ _ _ _ _ w2 rep _) as [[[tr w'] rep'] evs]. split; [|done].
    assert (retains w cfg now (due ++ exp) w2) as Hw2 by (eapply retains_weaken; [exact Hi|done]).
    assert (forall x, reaped_only (map meta (list_pending_deletions (w_catalog w2) now)) w2 x ->
      retains w cfg now (due ++ exp) x) as Hall by (intros x; by eapply reap_after_stage).
    apply Forall_cons in Hrp as [Hw' Htr]. apply Forall_cons_2; [by apply Hall|].
    apply Forall_cons_2; [done|]. eapply Forall_impl; [exact Htr|exact Hall].
  - split; [|done]. assert (retains w cfg now (due ++ []) w2) by (eapply retains_weaken; [exact Hi|done]).
    by do 2 (apply Forall_cons_2; [done|]).
  - split; [|done]. assert (retains w cfg now (due ++ []) w2) by (eapply retains_weaken; [exact Hi|done]).
    by do 2 (apply Forall_cons_2; [done|]).
Qed.

(** C12. A retention pass touches only what it may: in every world of the pass,
    whatever fails, the only objects missing are those of blocks whose grace had
    run out before, or, with no grace and a lease held throughout, of expired
    blocks; a dropped row has no object left; the row of a live block that is
    not expired is untouched.  A dry run does nothing at all, and without the
    lease no live block is hidden. *)
Theorem retention_pass_safe w cfg now lease sc :
  let exp := plan_reaping (list_blocks (w_catalog w)) cfg now in
  let due := list_pending_deletions (w_catalog w) now in
  let may := due ++ (if (retention_grace cfg =? 0) && match lease with LeaseAcquired f1 f2 => f1 && f2 | _ => false end
                     then exp else []) in
  let '(tr, w', evs, _) :=
    run_retention_pass uuid_str civil today path_from row_commits w cfg now lease sc in
  (forall t, In t (w' :: tr) ->
     (forall p, obj t !! p = obj w !! p \/
        (obj t !! p = None /\ exists e k, In e may /\ In k (delete_kinds (meta e)) /\ p = opath (meta e) k)) /\
     (forall u, is_Some (row w !! u) -> row t !! u = None ->
        exists e, In e may /\ uuid (meta e) = u /\ gone (meta e) t) /\
     (forall u r, row w !! u = Some r -> is_live r = true -> expired cfg now (row_to_entry u r) = false ->
        row t !! u = Some r)) /\
  (apply_deletes_flag cfg = false -> w' = w /\ tr = [] /\ evs = []) /\
  (match lease with LeaseAcquired f1 _ => f1 | _ => false end = false ->
   forall u, live (w_catalog w) u -> row w' !! u = row w !! u).
Proof.
  cbv zeta. set (exp := plan_reaping _ _ _). set (due := list_pending_deletions _ _). set (may := due ++ _).
  assert (forall e u, In e may -> uuid (meta e) = u -> forall r, row w !! u = Some r -> is_live r = true ->
    expired cfg now (row_to_entry u r) = true) as Hmay.
  { intros e u He Hu r Hr Hl. unfold may in He. apply in_app_iff in He as [He|He].
    - apply elem_of_pending_deletions in He as (u' & r' & Hr' & Hd & ->). cbn in Hu. subst u'.
      rewrite Hr in Hr'. injection Hr' as <-. unfold deletion_due, is_live in *. by destruct (c_deleted_at r).
    - destruct (_ && _) in He; [|done]. apply elem_of_plan_reaping in He as [He Hx].
      apply elem_of_list_blocks in He as (u' & r' & Hr' & _ & ->). cbn in Hu. subst u'. congruence. }
  assert (forall t, retains w cfg now may t ->
    (forall p, obj t !! p = obj w !! p \/
        (obj t !! p = None /\ exists e k, In e may /\ In k (delete_kinds (meta e)) /\ p = opath (meta e) k)) /\
    (forall u, is_Some (row w !! u) -> row t !! u = None ->
        exists e, In e may /\ uuid (meta e) = u /\ gone (meta e) t) /\
    (forall u r, row w !! u = Some r -> is_live r = true -> expired cfg now (row_to_entry u r) = false ->
        row t !! u = Some r)) as Hall.
  { intros t [Ho Hr]. split_and!; [exact Ho| |].
    - intros u [r Hu] Ht. destruct (Hr u) as [He|[[_ ?]|(? & ? & _ & ? & _)]]; [congruence|done|congruence].
    - intros u r Hu Hl Hx. destruct (Hr u) as [->|[[_ (e & He & Hue & _)]|(r0 & ? & Hr0 & _ & _ & Hin)]]; [done| |].
      + rewrite (Hmay e u He Hue r Hu Hl) in Hx. done.
      + rewrite Hu in Hr0. injection Hr0 as <-. apply elem_of_plan_reaping in Hin as [_ Hin]. congruence. }
  unfold run_retention_pass, retention_start. fold exp. destruct (apply_deletes_flag cfg); cbn [negb].
  2:{ split_and!; [|done..]. intros t [<-|[]]. apply Hall. apply reaped_retains, reaped_refl. }
  fold due. pose proof (reap_pending_deletions_spec w
    (mkRet (zlen (list_blocks (w_catalog w))) (zlen exp) (sum_of (fun e => byte_size (meta e)) exp) 0 0 0 0
       false false []) due) as Hr1.
  destruct (reap_pending_deletions _ _ _ _ _ w _ due) as [[[tr1 w1] rep1] ev1].
  assert (Forall (retains w cfg now may) (w1 :: tr1)) as Hr1'.
  { eapply Forall_impl; [exact Hr1|]. intros x Hx. eapply retains_weaken; [|by apply reaped_retains].
    intros e He. apply in_or_app. by left. }
  apply Forall_cons in Hr1 as [Hw1 _].
  assert (forall u, live (w_catalog w) u -> row w1 !! u = row w !! u) as Hlive.
  { intros u (r & Hr & Hl)%live_spec. destruct (ro_rows _ _ _ Hw1 u) as [|[_ (m & Hm & <- & _)]]; [done|].
    apply in_map_iff in Hm as (e & <- & He). assert (In e may) as He' by (apply in_or_app; by left). 
    apply elem_of_pending_deletions in He as (u & r' & Hr' & Hd & ->). cbn in Hr. rewrite Hr in Hr'. injection Hr' as <-.
    unfold deletion_due, is_live in *. by destruct (c_deleted_at r). }
  case_bool_decide as Hexp; [|destruct lease as [f1 f2| |]].
  1, 3, 4: split_and!; [intros t Ht; apply Hall; rewrite Forall_forall in Hr1'; by apply Hr1', list_elem_of_In|done|done].
  pose proof (retain_planned_spec w cfg now w1 rep1 f1 f2 sc Hw1) as Hrp. cbv zeta in Hrp. fold exp in Hrp. fold due in Hrp.
  destruct (retain_planned _ _ _ _ _ w1 rep1 exp _ _ _ _ _) as [[[[tr2 w2] rep2] ev2] r2].
  rewrite <- andb_assoc in Hrp. fold may in Hrp. destruct Hrp as [Hr2 Hf1]. split_and!; [|done|].
  - intros t Ht. apply Hall. assert (Forall (retains w cfg now may) (w2 :: tr1 ++ tr2)) as Hf.
    { apply Forall_cons in Hr1' as [_ ?], Hr2 as [? ?]. apply Forall_cons_2; [done|by apply Forall_app_2]. }
    rewrite Forall_forall in Hf. by apply Hf, list_elem_of_In.
  - intros ->. rewrite (Hf1 eq_refl). exact Hlive.
Qed.
End Reaping.

(** ** The compaction of a partition *)

Lemma stage_superseded_entry ins o t : forall c u r',
  blocks (stage_superseded c ins o t) !! u = Some r' ->
  exists r, blocks c !! u = Some r /\ row_to_entry u r' = row_to_entry u r.
Proof.
  induction ins as [|x ins IH]; intros c u r' Hr; [by exists r'|].
  change (stage_superseded c (x :: ins) o t) with
    (stage_superseded (stage_superseded_one o t c x) ins o t) in Hr.
  apply IH in Hr as (r1 & Hr1 & He). unfold stage_superseded_one in Hr1.
  destruct (x =? o); [by exists r1|]. cbn [blocks set_blocks] in Hr1.
  destruct (decide (u = x)) as [->|Hu].
  - rewrite lookup_alter_eq in Hr1. destruct (blocks c !! x) as [r|]; [|done]. injection Hr1 as <-. by exists r.
  - rewrite lookup_alter_ne in Hr1 by done. by exists r1.
Qed.

Section Compacting.
  Context (civil : Z -> option (string * string * string)) (today : string * string * string).

Lemma apply_compaction_entry now c m ins t u r' :
  u <> uuid m -> blocks (apply_compaction civil today now c m ins t).1 !! u = Some r' ->
  exists r, blocks c !! u = Some r /\ row_to_entry u r' = row_to_entry u r.
Proof.
  intros Hu. unfold apply_compaction. pose proof (insert_block_lookup civil today now c m u) as Hl.
  destruct (insert_block civil today now c m) as [c1 b]; cbn [fst] in *.
  intros (r1 & Hr1 & He)%stage_superseded_entry. rewrite Hl in Hr1.
  rewrite (bool_decide_eq_false_2 (u = uuid m)) in Hr1 by done.
  case_bool_decide; cbn in Hr1; [|by exists r1].
  destruct (blocks c !! u) as [r|]; [|done]. injection Hr1 as <-. by exists r.
Qed.

Lemma apply_compaction_live now c m ins t :
  blocks c !! uuid m = None -> has_live_descendant c (uuid m) = false -> ~ In (uuid m) (compacted_from m) ->
  live (apply_compaction civil today now c m ins t).1 (uuid m).
Proof.
  intros Hn Hd Hs. unfold apply_compaction. pose proof (insert_block_live_iff civil today now c m (uuid m)) as Hl.
  destruct (insert_block civil today now c m) as [c1 b]; cbn [fst] in *.
  apply stage_superseded_live. split; [|done]. apply Hl. split; [done|]. right. split_and!; [done..|].
  intros Hex%has_live_descendant_spec. congruence.
Qed.
End Compacting.

Section Partition.
  Context {St : Type} `{ObjectStore St} {Schema F : Type} `{EqDecision Schema} (env : MergeEnv Schema F).
  Context (row_commits : Uuid -> bool) (w : World St) (plan : PlannedMerge) (cfg : CompactConfig).
  Context (writer_id block_uuid : Uuid) (first : CatalogEntry) (rest : list CatalogEntry).
  Abbreviation opath := (object_path (me_uuid_str env) (me_civil env) (me_today env) (me_path_from env)).
  Abbreviation out := (out_path env (pm_signal plan) first rest writer_id block_uuid).
  (** The inputs are live blocks of the catalog; the output has a new UUID and
      paths of its own. *)
  Hypothesis plan_inputs : inputs plan = first :: rest.
  Hypothesis inputs_live : forall e, In e (inputs plan) -> In e (list_blocks (w_catalog w)).
  Hypothesis out_distinct : forall k k', In k out_objects -> In k' out_objects -> out k = out k' -> k = k'.
  Hypothesis out_absent : objects (w_store w) !! out "meta.json" = None.
  Hypothesis out_fresh : blocks (w_catalog w) !! block_uuid = None.
  Hypothesis out_unclaimed : has_live_descendant (w_catalog w) block_uuid = false.
  Hypothesis out_apart : forall u r k k', blocks (w_catalog w) !! u = Some r -> In k out_objects ->
    In k' (delete_kinds (meta (row_to_entry u r))) -> out k <> opath (meta (row_to_entry u r)) k'.

(** Nothing has happened to the inputs. *)
Definition inputs_intact (t : World St) : Prop :=
  w_catalog t = w_catalog w /\
  forall e k, In e (inputs plan) -> In k (delete_kinds (meta e)) ->
    objects (w_store t) !! opath (meta e) k = objects (w_store w) !! opath (meta e) k.

(** The output stands for the inputs: all its objects are there, it is live, and
    it names every input among its ancestors. *)
Definition output_stands (t : World St) : Prop :=
  live (w_catalog t) block_uuid /\
  exists m, uuid m = block_uuid /\ (forall e, In e (inputs plan) -> In (uuid (meta e)) (compacted_from m)) /\
    forall k, In k (delete_kinds m) -> is_Some (objects (w_store t) !! opath m k).

Lemma uncommitted_intact s :
  (forall p, (forall k, In k out_objects -> p <> out k) -> objects s !! p = objects (w_store w) !! p) ->
  inputs_intact (mkWorld s (w_catalog w)).
Proof.
  intros Hs. split; [done|]. intros e k He Hk. apply Hs. intros k' Hk' Heq.
  apply inputs_live, elem_of_list_blocks in He as (u & r & Hr & _ & ->). by eapply out_apart.
Qed.

Lemma safe_intact s : safe env (pm_signal plan) first rest writer_id block_uuid (w_store w) s ->
  inputs_intact (mkWorld s (w_catalog w)).
Proof. intros [[Hs _]|[Hs _]]; by apply uncommitted_intact. Qed.

(** Reaping after the commit leaves the output alone. *)
Lemma stands_after_reap now el now' m t st :
  let wc := mkWorld st (apply_compaction (me_civil env) (me_today env) now (w_catalog w) m
              (map (fun e => uuid (meta e)) (inputs plan)) el).1 in
  describes env (pm_signal plan) first rest (output_level plan) writer_id block_uuid m ->
  (forall k, In k (delete_kinds m) -> is_Some (objects st !! opath m k)) ->
  reaped_only (me_uuid_str env) (me_civil env) (me_today env) (me_path_from env)
    (map (fun p => meta (reap_entry p)) (list_pending_reaps (w_catalog wc) now')) wc t ->
  output_stands t.
Proof.
  cbv zeta. intros Hds Hobj [Ho Hr]. cbn [w_store w_catalog] in *.
  destruct Hds as [Hu Hsig Hw _ Hts _ Hfrom Hself].
  assert (live (apply_compaction (me_civil env) (me_today env) now (w_catalog w) m
              (map (fun e => uuid (meta e)) (inputs plan)) el).1 block_uuid) as Hlive.
  { rewrite <- Hu. apply apply_compaction_live; rewrite Hu; done. }
  assert (forall x, In x (map (fun p => meta (reap_entry p)) (list_pending_reaps
      (apply_compaction (me_civil env) (me_today env) now (w_catalog w) m
              (map (fun e => uuid (meta e)) (inputs plan)) el).1 now')) ->
    uuid x <> block_uuid /\ exists u r, blocks (w_catalog w) !! u = Some r /\ x = meta (row_to_entry u r)) as Hpend.
  { intros x Hx. apply in_map_iff in Hx as (p & <- & Hp). apply elem_of_pending_reaps in Hp as (u & r & Hrow & Hdue & ->).
    assert (u <> block_uuid) as Hne.
    { intros ->. apply live_spec in Hlive as (r' & Hr' & Hl). rewrite Hrow in Hr'. injection Hr' as <-.
      unfold reap_due, is_live in *. destruct (c_superseded r), (c_deleted_at r); done. }
    split; [done|]. apply apply_compaction_entry in Hrow as (r0 & Hr0 & He); [|congruence].
    exists u, r0. by rewrite He. }
  split.
  - apply live_spec in Hlive as (r & Hrow & Hl). apply live_spec. exists r. split; [|done].
    destruct (Hr block_uuid) as [->|[_ (x & Hx & Hux & _)]]; [done|]. by destruct (Hpend x Hx).
  - exists m. split_and!; [done|rewrite plan_inputs; exact Hfrom|]. intros k Hk.
    destruct (Ho (opath m k)) as [->|[_ (x & k' & Hx & Hk' & Heq)]]; [by apply Hobj|]. exfalso.
    destruct (Hpend x Hx) as (_ & u & r & Hrow & ->). eapply (out_apart u r k k' Hrow); [|done|].
    + unfold out_objects, data_objects. unfold delete_kinds in Hk.
      destruct (has_postings m), (has_body_bloom m); simpl in *; tauto.
    + rewrite <- Heq. unfold out_path, object_path. by rewrite Hu, Hsig, Hw, Hts.
Qed.

(** What is announced once the output is in the catalog. *)
Definition announced (evs : list BlockEvent) : Prop :=
  exists m el evs', evs = Created m :: Superseded (map (fun e => uuid (meta e)) (inputs plan)) (uuid m) m el :: evs' /\
    uuid m = block_uuid.

(** The sidecar of the output is not there. *)
Definition unwritten (t : World St) : Prop := objects (w_store t) !! out "meta.json" = None.

(** What a partition leaves, by its result: [fenced] when the fence held before the
    merge and at its commit, [listed] when the reaps could be read. *)
Definition partition_left (fenced listed : bool) (tr : list (World St)) (w' : World St)
    (evs : list BlockEvent) (r : result MaintenanceError PartitionOutcome) : Prop :=
  Forall (fun t => inputs_intact t \/ output_stands t) (w' :: tr) /\
  (fenced = false -> Forall unwritten (w' :: tr)) /\
  match r with
  | Ok (Merged _) => fenced = true /\ output_stands w' /\ announced evs
  | Ok Aborted_ => Forall (fun t => inputs_intact t /\ unwritten t) (w' :: tr) /\ evs = []
  | Err ListReapsFailed => fenced = true /\ listed = false /\ output_stands w' /\ announced evs
  | Err _ => Forall inputs_intact (w' :: tr) /\ evs = []
  end.

Lemma intact_left fenced listed tr w' r :
  Forall inputs_intact (w' :: tr) -> (fenced = false -> Forall unwritten (w' :: tr)) ->
  (match r with Ok (Merged _) | Err ListReapsFailed => False | _ => True end) ->
  (r = Ok Aborted_ -> Forall unwritten (w' :: tr)) ->
  partition_left fenced listed tr w' [] r.
Proof.
  intros Hi Hf Hr Ha. split; [eapply Forall_impl; [exact Hi|]; by left|]. split; [done|].
  destruct r as [[]|[]]; try done. split; [|done]. apply Forall_and. auto.
Qed.

(** The output in the catalog, and the reaping after it. *)
Lemma published_left m st worlds now el now' listed :
  let wc := mkWorld st (apply_compaction (me_civil env) (me_today env) now (w_catalog w) m
              (map (fun e => uuid (meta e)) (inputs plan)) el).1 in
  let evs := [Created m; Superseded (map (fun e => uuid (meta e)) (inputs plan)) (uuid m) m el] in
  describes env (pm_signal plan) first rest (output_level plan) writer_id block_uuid m ->
  (forall k, In k (delete_kinds m) -> is_Some (objects st !! opath m k)) ->
  Forall inputs_intact worlds ->
  partition_left true listed (worlds ++ [wc]) wc evs (Ok (Merged (byte_size m))) /\
  let '(tr', w', _, evs') :=
    reap_pending (me_uuid_str env) (me_civil env) (me_today env) (me_path_from env) row_commits
      wc CompactReport_default (list_pending_reaps (w_catalog wc) now') in
  partition_left true listed (worlds ++ wc :: tr') w' (evs ++ evs') (Ok (Merged (byte_size m))).
Proof.
  intros wc evs Hds Hobj Hint.
  pose proof (fun t => stands_after_reap now el now' m t st Hds Hobj) as Hstand. cbv zeta in Hstand.
  fold wc in Hstand. assert (output_stands wc) as Hwc by apply Hstand, reaped_refl.
  assert (forall evs', announced (evs ++ evs')) as Hann by (intros evs'; exists m, el, evs'; split; [done|apply Hds]).
  assert (forall w' tr' evs', Forall output_stands (w' :: tr') ->
    partition_left true listed (worlds ++ wc :: tr') w' (evs ++ evs') (Ok (Merged (byte_size m)))) as Hall.
  { intros w' tr' evs' [Hw' Htr']%Forall_cons. split; [|by split_and!].
    apply Forall_cons_2; [by right|]. apply Forall_app_2; [eapply Forall_impl; [exact Hint|]; by left|].
    apply Forall_cons_2; [by right|]. eapply Forall_impl; [exact Htr'|]. by right. }
  split; [rewrite <- (app_nil_r evs); by apply Hall, Forall_singleton|].
  pose proof (reap_pending_spec (me_uuid_str env) (me_civil env) (me_today env) (me_path_from env) row_commits
    (list_pending_reaps (w_catalog wc) now') wc CompactReport_default) as Hrp.
  destruct (reap_pending _ _ _ _ _ wc _ _) as [[[tr' w'] rep'] evs']. destruct Hrp as [Hrp _].
  apply Hall. eapply Forall_impl; [exact Hrp|exact Hstand].
Qed.

(** In every world the compaction of a partition goes through, whatever requests,
    commits, reads, admissions or fence checks fail, either nothing has happened to the
    inputs and the catalog, or the output is complete in the store, live in the
    catalog and names every input.  Without the fence the sidecar is never written.  An
    aborted or failed partition leaves inputs and catalog as they were and announces
    nothing, unless only the reading of the reaps failed: then the output stands and has
    been announced. *)
Lemma compact_partition_safe fence1 admission fence_commit fate apply_commits fence2 reaps_read now now' :
  let '(tr, w', evs, r) :=
    compact_partition env row_commits w plan cfg writer_id block_uuid fence1 admission fence_commit fate
      apply_commits fence2 reaps_read now now' in
  partition_left (fence1 && fence_commit) reaps_read tr w' evs r.
Proof.
  assert (inputs_intact w) as Hw by done. assert (unwritten w) as Hn by done.
  unfold compact_partition. cbv zeta. destruct fence1; cbn [negb andb].
  2:{ by apply intact_left; [apply Forall_singleton|intros _; apply Forall_singleton| |intros _; apply Forall_singleton]. }
  destruct (result_bind (estimate_non_datafusion_bytes plan (me_res env)) _) as [reserved|e].
  2:{ by apply intact_left; [apply Forall_singleton|intros _; apply Forall_singleton| |]. }
  rewrite plan_inputs.
  pose proof (merge_blocks_spec env (pm_signal plan) first rest (output_level plan) writer_id block_uuid reserved
    fence_commit fate (w_store w) out_distinct out_absent) as Hm.
  destruct (merge_blocks _ _ _ _ _ _ _ _ _ _) as [[tr st] r]. destruct Hm as (Hs & Hf & Hr).
  assert (forall Q : St -> Prop, forall R : World St -> Prop, (forall s, Q s -> R (mkWorld s (w_catalog w))) ->
    Forall Q (st :: tr) -> Forall R (mkWorld st (w_catalog w) :: map (fun s => mkWorld s (w_catalog w)) tr)) as Hlift.
  { intros Q R HQR Hq. change (Forall R (map (fun s => mkWorld s (w_catalog w)) (st :: tr))).
    apply List.Forall_map. by eapply List.Forall_impl. }
  pose proof (Hlift _ _ safe_intact Hs) as Hint.
  assert (fence_commit = false -> Forall unwritten (mkWorld st (w_catalog w) :: map (fun s => mkWorld s (w_catalog w)) tr)) as Hunw.
  { intros Hff. eapply Hlift; [|by apply Hf]. by intros s [_ ?]. }
  destruct r as [[m|]|e].
  2:{ apply intact_left; [done..|]. intros _. eapply Hlift; [|exact Hr]. by intros s [_ ?]. }
  2:{ by apply intact_left. }
  destruct apply_commits; cbn [negb]; [|by apply intact_left].
  assert (fence_commit = true) as -> by (destruct fence_commit; [done|by destruct (proj2 (Hf eq_refl) m)]).
  destruct Hr as [Hds Hobj]. cbn [w_catalog]. apply Forall_cons in Hint as [_ Hint].
  destruct (published_left m st _ now (sat_add now (wrap64 (grace cfg))) now' reaps_read Hds Hobj Hint) as [Hdone Hreap].
  rewrite plan_inputs in Hdone, Hreap.
  destruct ((grace cfg =? 0) && fence2); [|done]. destruct reaps_read; cbn [negb].
  - destruct (reap_pending _ _ _ _ _ _ _ _) as [[[tr' w'] rep'] evs']. exact Hreap.
  - destruct Hdone as (? & ? & ? & ? & ?). by split_and!.
Qed.
End Partition.

(** ** The planner over catalog rows *)

Lemma projected_ancestry_le es :
  Forall (fun e => compacted_from (meta e) = []) es -> projected_ancestry_len es <= zlen es.
Proof.
  intros Hc. unfold projected_ancestry_len. set (f := fun (c : gset Z) e => _).
  enough (forall acc, Z.of_nat (size (fold_left f es acc)) <= Z.of_nat (size acc) + zlen es) as Hg.
  { specialize (Hg ∅). rewrite size_empty in Hg. lia. }
  induction Hc as [|e es He _ IH]; intros acc; [unfold zlen; cbn; lia|].
  cbn [fold_left]. specialize (IH (f acc e)). rewrite zlen_cons. subst f. cbn beta in *.
  rewrite He in IH |- *. cbn [list_to_set] in IH |- *. rewrite (right_id_L ∅ (∪)) in IH |- *.
  pose proof (size_union_alt acc {[uuid (meta e)]}) as Hu.
  pose proof (subseteq_size ({[uuid (meta e)]} ∖ acc) {[uuid (meta e)]} ltac:(set_solver)) as Hle.
  rewrite size_singleton in Hle. lia.
Qed.

Lemma smallest_unlineaged cfg c k :
  2 <= fanout cfg ->
  projected_ancestry_len (smallest cfg (partition cfg (list_blocks c) k)) <= fanout cfg.
Proof.
  intros Hf. etrans; [apply projected_ancestry_le|].
  - apply List.Forall_forall. intros e He.
    assert (In e (list_blocks c)) as (u & r & _ & _ & ->)%elem_of_list_blocks; [|done].
    apply (partition_In cfg _ k). unfold smallest in He.
    apply list_elem_of_In, elem_of_take in He as (i & Hi & _).
    by apply list_elem_of_lookup_2, list_elem_of_In, sort_by_key_In in Hi.
  - unfold smallest, zlen. rewrite length_take. lia.
Qed.

(** ** An example *)

Definition demo_catalog : Catalog :=
  (insert_block (fun _ => Some ("y", "m", "d")) ("y", "m", "d") 0 (empty_catalog "b") (demo_meta 3 [])).1.

Definition demo_world : World FlakyStore := mkWorld (mkFlaky ∅ []) demo_catalog.
Definition demo_live : CatalogEntry := default demo_input (head (list_blocks demo_catalog)).
Definition demo_partition : PlannedMerge := mkMerge "logs" "y-m-d" 0 [demo_live].

Lemma demo_catalog_rows u r : blocks demo_catalog !! u = Some r -> u = 3.
Proof.
  intros Hr. destruct (decide (u = 3)) as [->|Hne]; [done|]. exfalso. revert Hr. unfold demo_catalog.
  rewrite insert_block_lookup. rewrite !bool_decide_eq_false_2; [done|exact Hne|cbn; set_solver].
Qed.
