(* ===== verification/Pass.v ===== *)
(** * Pass: a compaction pass, alone or among peers

    [run_compaction_pass] of crates/cluster/src/maintain.rs and [compact_once] of
    crates/compact/src/engine.rs: planning over the live blocks, the pending reaps,
    and every planned partition, which a cluster compacts only under its lease, after
    an authoritative reconcile of the partition and when every input is still live.
    The partitions run one after the other ([parallelism = 1]); the answers of the
    lease, the fence, admission, the listing and SQLite, its reads included, are
    arguments. *)

From S2P Require Import Prelude Order Bytes Block Compaction Retention Layout Catalog CatalogFacts Cluster.
From S2P Require Import Poll CompactResource Postings Merge Maintenance MaintenanceFacts.

Inductive PartitionResult :=
| Done (outcome : PartitionOutcome) (inputs : Z)
| LeaseHeld
| LeaseUnavailable
| Failed
| ResourceFailed
| Stale.

(** A [ResourceError] anywhere in the chain of causes; DataFusion's exhaustion
    arrives as one. *)
Definition is_resource_failure (e : MaintenanceError) : bool :=
  match e with
  | Resources _ => true
  | MergeFailed (Limit _) => true
  | MergeFailed (PostingsFailed (Resource _)) => true
  | _ => false
  end.

(** Why a pass ends without a report: the policy is refused, or the catalog cannot be
    read. *)
Inductive PassError :=
| InvalidPolicy (e : ValidateError)
| ListBlocksFailed
| PendingReapsFailed.

(** What the outside answers while one partition is compacted: the lease with its
    fence, the reconcile's listing, order of fetches and commits, whether the live
    blocks can be read again, the UUIDs drawn, admission, the fate of the commit, the
    catalog's commit, whether the pending reaps can be read, and the clock. *)
Record Answers := mkAnswers {
  an_lease : LeaseAnswer;
  an_listing : option string -> option string -> list (result StoreError string);
  an_order : list string -> list string;
  an_commits : BlockMeta -> bool;
  an_now_reconcile : Z;
  an_relisted : bool;
  an_block_uuid : Uuid;
  an_writer_id : Uuid;
  an_admission : Z -> result ResourceError Z;
  an_fence_commit : bool;
  an_fate : CommitFate;
  an_apply_commits : bool;
  an_reaps_read : bool;
  an_now : Z;
  an_now' : Z }.

(** The least writer among the inputs. *)
Definition output_writer (inputs : list CatalogEntry) (fresh : Uuid) : Uuid :=
  match map (fun e => writer_id (meta e)) inputs with
  | [] => fresh
  | w :: ws => fold_left Z.min ws w
  end.

(** The inputs that are no longer live. *)
Definition stale_inputs (c : Catalog) (plan : PlannedMerge) : bool :=
  let live_ids : gset Uuid := list_to_set (map (fun e => uuid (meta e)) (list_blocks c)) in
  existsb (fun e => negb (bool_decide (uuid (meta e) ∈ live_ids))) (inputs plan).

Definition absorb_result (rep : CompactReport) (r : PartitionResult) : CompactReport :=
  let add held unavailable failed resource :=
    mkCompactReport (cr_merges rep) (cr_blocks_in rep) (cr_blocks_out rep) (cr_bytes_out rep)
      (cr_aborted rep) (cr_reaped rep) (cr_reap_failed rep) (cr_partition_failed rep + failed)
      (cr_resource_failed rep + resource) (cr_lease_held rep + held)
      (cr_lease_unavailable rep + unavailable) (cr_oversized rep) in
  match r with
  | Done outcome n => absorb rep outcome n
  | LeaseHeld => add 1 0 0 0
  | LeaseUnavailable => add 0 1 0 0
  | Failed => add 0 0 1 0
  | ResourceFailed => add 0 0 0 1
  | Stale => rep
  end.

(** The plan of a pass: over the live rows of the catalog. *)
Definition catalog_plan (c : Catalog) (cfg : CompactConfig) : CompactionPlan :=
  plan_merges (list_blocks c) cfg.

Definition report_oversized (n : Z) : CompactReport := mkCompactReport 0 0 0 0 0 0 0 0 0 0 0 n.

Section Pass.
  Context {St : Type} `{ObjectStore St} {Schema F : Type} `{EqDecision Schema} (env : MergeEnv Schema F).
  Context (parse_uuid : string -> option Uuid) (row_commits : Uuid -> bool).

Definition reconcile (a : Answers) (c : Catalog) (plan : PlannedMerge) (cfg : CompactConfig)
    : Catalog * result PollError PollReport :=
  reconcile_partition (me_civil env) (me_today env) (me_uuid_str env) parse_uuid (me_from_slice env)
    (me_store_get env) (an_commits a) (an_now_reconcile a) (an_order a) (an_listing a)
    c (pm_signal plan) (pm_date plan) (grace cfg).

(** One planned partition among peers. *)
Definition run_partition (cfg : CompactConfig) (w : World St) (plan : PlannedMerge) (a : Answers)
    : list (World St) * World St * list BlockEvent * PartitionResult :=
  match an_lease a with
  | LeaseHeldByPeer => ([], w, [], LeaseHeld)
  | LeaseUnreachable => ([], w, [], LeaseUnavailable)
  | LeaseAcquired fence1 fence2 =>
      let '(c, r) := reconcile a (w_catalog w) plan cfg in
      let w := mkWorld (w_store w) c in
      match r with
      | Err _ => ([w], w, [], Failed)
      | Ok _ =>
          if negb (an_relisted a) then ([w], w, [], Failed)
          else if stale_inputs c plan then ([w], w, [], Stale)
          else
            let '(tr, w', events, outcome) :=
              compact_partition env row_commits w plan cfg (output_writer (inputs plan) (an_writer_id a))
                (an_block_uuid a) fence1 (an_admission a) (an_fence_commit a) (an_fate a)
                (an_apply_commits a) fence2 (an_reaps_read a) (an_now a) (an_now' a) in
            (w :: tr, w', events,
             match outcome with
             | Ok o => Done o (zlen (inputs plan))
             | Err e => if is_resource_failure e then ResourceFailed else Failed
             end)
      end
  end.

(** One planned partition of a single instance: no lease, no reconcile, a fence
    that always holds. *)
Definition run_alone (cfg : CompactConfig) (writer : Uuid) (w : World St) (plan : PlannedMerge) (a : Answers)
    : list (World St) * World St * list BlockEvent * PartitionResult :=
  let '(tr, w', _, outcome) :=
    compact_partition env row_commits w plan cfg writer (an_block_uuid a) true (an_admission a) true
      Completes (an_apply_commits a) true (an_reaps_read a) (an_now a) (an_now' a) in
  (tr, w', [],
   match outcome with
   | Ok o => Done o (zlen (inputs plan))
   | Err e => if is_resource_failure e then ResourceFailed else Failed
   end).

Fixpoint run_partitions
    (run : World St -> PlannedMerge -> Answers -> list (World St) * World St * list BlockEvent * PartitionResult)
    (w : World St) (plans : list (PlannedMerge * Answers))
    : list (World St) * World St * list BlockEvent * list PartitionResult :=
  match plans with
  | [] => ([], w, [], [])
  | (p, a) :: plans =>
      let '(tr, w, events, r) := run w p a in
      let '(tr', w', events', rs) := run_partitions run w plans in
      (tr ++ tr', w', events ++ events', r :: rs)
  end.

(** A pass: [blocks_read] and [reaps_read] whether the live blocks and the pending reaps
    can be read, [answer] what the outside answers for each plan. *)
Definition pass
    (run : World St -> PlannedMerge -> Answers -> list (World St) * World St * list BlockEvent * PartitionResult)
    (w : World St) (cfg : CompactConfig) (now : Z) (blocks_read reaps_read : bool)
    (answer : PlannedMerge -> Answers)
    : list (World St) * World St * list BlockEvent * result PassError CompactReport :=
  match Compaction.validate cfg with
  | Err e => ([], w, [], Err (InvalidPolicy e))
  | Ok _ =>
      if negb blocks_read then ([], w, [], Err ListBlocksFailed)
      else if negb reaps_read then ([], w, [], Err PendingReapsFailed)
      else
      let plan := catalog_plan (w_catalog w) cfg in
      let '(tr, w, rep, events) :=
        reap_pending (me_uuid_str env) (me_civil env) (me_today env) (me_path_from env) row_commits
          w (report_oversized (zlen (oversized plan))) (list_pending_reaps (w_catalog w) now) in
      let '(tr', w, events', rs) := run_partitions run w (map (fun p => (p, answer p)) (merges plan)) in
      (tr ++ tr', w, events ++ events', Ok (fold_left absorb_result rs rep))
  end.

Definition run_compaction_pass (w : World St) (cfg : CompactConfig) (now : Z) (blocks_read reaps_read : bool)
    (answer : PlannedMerge -> Answers)
    : list (World St) * World St * list BlockEvent * result PassError CompactReport :=
  pass (run_partition cfg) w cfg now blocks_read reaps_read answer.

(** Without peers nothing is announced. *)
Definition compact_once (w : World St) (cfg : CompactConfig) (now : Z) (blocks_read reaps_read : bool)
    (writer : Uuid) (answer : PlannedMerge -> Answers)
    : list (World St) * World St * result PassError CompactReport :=
  let '(tr, w, _, r) := pass (run_alone cfg writer) w cfg now blocks_read reaps_read answer in (tr, w, r).
End Pass.

(** ** One partition *)

Lemma stale_inputs_spec c plan :
  stale_inputs c plan = false <-> forall e, In e (inputs plan) -> live c (uuid (meta e)).
Proof.
  unfold stale_inputs. rewrite <- not_true_iff_false, existsb_exists. setoid_rewrite negb_true_iff.
  setoid_rewrite bool_decide_eq_false. setoid_rewrite elem_of_list_to_set. setoid_rewrite list_elem_of_In.
  setoid_rewrite in_map_iff. setoid_rewrite live_spec.
  assert (forall u, (exists x, uuid (meta x) = u /\ In x (list_blocks c)) <->
    exists r, blocks c !! u = Some r /\ is_live r = true) as Hu.
  { intros u. split.
    - intros (x & <- & (v & r & Hr & Hl & ->)%elem_of_list_blocks). by exists r.
    - intros (r & Hr & Hl). exists (row_to_entry u r). split; [done|]. apply elem_of_list_blocks. eauto. }
  setoid_rewrite Hu. split.
  - intros Hn e He. destruct (decide (live c (uuid (meta e)))) as [Hl|Hl]; [by apply live_spec|].
    exfalso. apply Hn. exists e. split; [done|]. by rewrite <- live_spec.
  - intros Hl (e & He & Hn). by apply Hn, Hl.
Qed.

Lemma stale_inputs_true c plan :
  stale_inputs c plan = true -> exists e, In e (inputs plan) /\ ~ live c (uuid (meta e)).
Proof.
  intros Hs. destruct (List.existsb_exists (fun e => negb (bool_decide (live c (uuid (meta e))))) (inputs plan))
    as [Hex _]. destruct Hex as (e & He & Hn%negb_true_iff%bool_decide_eq_false); [|eauto].
  apply not_false_iff_true. intros Hf. enough (stale_inputs c plan = false) by congruence.
  apply stale_inputs_spec. intros e He. apply not_true_iff_false in Hf.
  destruct (decide (live c (uuid (meta e)))) as [|Hn]; [done|]. exfalso. apply Hf, existsb_exists. exists e.
  split; [done|]. by rewrite bool_decide_eq_false_2.
Qed.

Section PartitionFacts.
  Context {St : Type} `{ObjectStore St} {Schema F : Type} `{EqDecision Schema} (env : MergeEnv Schema F).
  Context (parse_uuid : string -> option Uuid) (row_commits : Uuid -> bool).
  Context (cfg : CompactConfig) (w : World St) (plan : PlannedMerge) (a : Answers).
  Context (first : CatalogEntry) (rest : list CatalogEntry).
  Abbreviation reconciled := (reconcile env parse_uuid a (w_catalog w) plan cfg).1.
  Abbreviation start := (mkWorld (w_store w) reconciled).
  Abbreviation out := (out_path env (pm_signal plan) first rest
    (output_writer (inputs plan) (an_writer_id a)) (an_block_uuid a)).
  (** The plan describes rows as they are; the output has a new UUID and paths of
      its own. *)
  Hypothesis plan_inputs : inputs plan = first :: rest.
  Hypothesis plan_current : forall e r, In e (inputs plan) -> blocks reconciled !! uuid (meta e) = Some r ->
    row_to_entry (uuid (meta e)) r = e.
  Hypothesis out_distinct : forall k k', In k out_objects -> In k' out_objects -> out k = out k' -> k = k'.
  Hypothesis out_absent : objects (w_store w) !! out "meta.json" = None.
  Hypothesis out_fresh : blocks reconciled !! an_block_uuid a = None.
  Hypothesis out_unclaimed : has_live_descendant reconciled (an_block_uuid a) = false.
  Hypothesis out_apart : forall u r k k', blocks reconciled !! u = Some r -> In k out_objects ->
    In k' (delete_kinds (meta (row_to_entry u r))) ->
    out k <> object_path (me_uuid_str env) (me_civil env) (me_today env) (me_path_from env)
               (meta (row_to_entry u r)) k'.

Lemma live_inputs_listed :
  (forall e, In e (inputs plan) -> live reconciled (uuid (meta e))) ->
  forall e, In e (inputs plan) -> In e (list_blocks reconciled).
Proof.
  intros Hlive e He. destruct (proj1 (live_spec _ _) (Hlive e He)) as (r & Hr & Hl).
  apply elem_of_list_blocks. exists (uuid (meta e)), r. by rewrite (plan_current e r He Hr).
Qed.

End PartitionFacts.

(** ** The report of a pass *)

Definition is_merged (r : PartitionResult) : bool := match r with Done (Merged _) _ => true | _ => false end.
Definition is_aborted (r : PartitionResult) : bool := match r with Done Aborted_ _ => true | _ => false end.
Definition is_held (r : PartitionResult) : bool := match r with LeaseHeld => true | _ => false end.
Definition is_unavailable (r : PartitionResult) : bool := match r with LeaseUnavailable => true | _ => false end.
Definition is_failed (r : PartitionResult) : bool := match r with Failed => true | _ => false end.
Definition is_resource_failed (r : PartitionResult) : bool := match r with ResourceFailed => true | _ => false end.
Definition is_stale (r : PartitionResult) : bool := match r with Stale => true | _ => false end.

Definition merged_bytes (r : PartitionResult) : Z := match r with Done (Merged b) _ => b | _ => 0 end.

(** How many results are of a kind. *)
Definition tally (k : PartitionResult -> bool) (rs : list PartitionResult) : Z := zlen (List.filter k rs).

Lemma tally_cons k r rs : tally k (r :: rs) = b2i (k r) + tally k rs.
Proof. unfold tally. cbn [List.filter]. destruct (k r); rewrite ?zlen_cons; cbn [b2i]; lia. Qed.

(** Every result is of one kind. *)
Lemma tally_total rs :
  tally is_merged rs + tally is_aborted rs + tally is_held rs + tally is_unavailable rs + tally is_failed rs
  + tally is_resource_failed rs + tally is_stale rs = zlen rs.
Proof.
  induction rs as [|r rs IH]; [done|]. rewrite !tally_cons, zlen_cons. destruct r as [[]| | | | |]; cbn; lia.
Qed.

(** [rep'] counts the results [rs] on top of [rep]. *)
Record counts (n : Z) (rs : list PartitionResult) (rep rep' : CompactReport) : Prop := {
  ct_merges : cr_merges rep' = cr_merges rep + tally is_merged rs;
  ct_aborted : cr_aborted rep' = cr_aborted rep + tally is_aborted rs;
  ct_held : cr_lease_held rep' = cr_lease_held rep + tally is_held rs;
  ct_unavailable : cr_lease_unavailable rep' = cr_lease_unavailable rep + tally is_unavailable rs;
  ct_failed : cr_partition_failed rep' = cr_partition_failed rep + tally is_failed rs;
  ct_resource : cr_resource_failed rep' = cr_resource_failed rep + tally is_resource_failed rs;
  ct_blocks_out : cr_blocks_out rep' = cr_blocks_out rep + tally is_merged rs;
  ct_blocks_in : cr_blocks_in rep' = cr_blocks_in rep + n * tally is_merged rs;
  ct_bytes_out : cr_bytes_out rep' = cr_bytes_out rep + sum_of merged_bytes rs;
  ct_reaped : cr_reaped rep' = cr_reaped rep;
  ct_reap_failed : cr_reap_failed rep' = cr_reap_failed rep;
  ct_oversized : cr_oversized rep' = cr_oversized rep }.

Lemma absorb_results n rs : Forall (fun r => forall o k, r = Done o k -> k = n) rs -> forall rep,
  counts n rs rep (fold_left absorb_result rs rep).
Proof.
  induction 1 as [|r rs Hr _ IH]; intros rep; cbn [fold_left].
  { split; unfold tally, sum_of; cbn [List.filter fold_right]; rewrite ?zlen_nil; lia. }
  specialize (IH (absorb_result rep r)).
  assert (sum_of merged_bytes (r :: rs) = merged_bytes r + sum_of merged_bytes rs) as Hs by done.
  destruct IH as [? ? ? ? ? ? ? ? ? ? ? ?].
  split; rewrite ?tally_cons, ?Hs; destruct r as [[b|] k| | | | |]; try (specialize (Hr _ _ eq_refl); subst k);
    cbn [is_merged is_aborted is_held is_unavailable is_failed is_resource_failed merged_bytes b2i absorb_result absorb
      cr_merges cr_aborted cr_lease_held cr_lease_unavailable cr_partition_failed cr_resource_failed cr_blocks_out
      cr_blocks_in cr_bytes_out cr_reaped cr_reap_failed cr_oversized] in *; lia.
Qed.

Section ReportFacts.
  Context {St : Type} `{ObjectStore St} {Schema F : Type} `{EqDecision Schema} (env : MergeEnv Schema F).
  Context (parse_uuid : string -> option Uuid) (row_commits : Uuid -> bool).
  Context (cfg : CompactConfig) (answer : PlannedMerge -> Answers).

(** Reaping counts nothing but reaps. *)
Lemma reap_keeps uuid_str civil today path_from commits pending : forall (w : World St) rep,
  let '(_, _, rep', _) := reap_pending uuid_str civil today path_from commits w rep pending in
  rep' = mkCompactReport (cr_merges rep) (cr_blocks_in rep) (cr_blocks_out rep) (cr_bytes_out rep) (cr_aborted rep)
    (cr_reaped rep') (cr_reap_failed rep') (cr_partition_failed rep) (cr_resource_failed rep) (cr_lease_held rep)
    (cr_lease_unavailable rep) (cr_oversized rep).
Proof.
  induction pending as [|p pending IH]; intros w rep; cbn [reap_pending]; [by destruct rep|].
  destruct (reap_block _ _ _ _ _ w _) as [[tr w1] ok]. specialize (IH w1 (count_reap rep ok)).
  destruct (reap_pending _ _ _ _ _ w1 _ pending) as [[[tr' w'] rep'] evs]. exact IH.
Qed.

(** Every plan was run, each in the world the one before left. *)
Inductive ran : World St -> list PlannedMerge -> list PartitionResult -> World St -> Prop :=
| ran_nil w : ran w [] [] w
| ran_cons w p tr w1 events r plans rs w' :
    run_partition env parse_uuid row_commits cfg w p (answer p) = (tr, w1, events, r) ->
    ran w1 plans rs w' -> ran w (p :: plans) (r :: rs) w'.

Lemma run_partitions_ran plans : forall w,
  let '(_, w', _, rs) := run_partitions (run_partition env parse_uuid row_commits cfg) w
                           (map (fun p => (p, answer p)) plans) in
  ran w plans rs w'.
Proof.
  induction plans as [|p plans IH]; intros w; cbn [map run_partitions]; [constructor|].
  destruct (run_partition _ _ _ _ _ _ _) as [[[tr w1] evs] r] eqn:Er. specialize (IH w1).
  destruct (run_partitions _ w1 _) as [[[tr' w'] evs'] rs]. by econstructor.
Qed.

Definition held_by_peer (l : LeaseAnswer) : bool := match l with LeaseHeldByPeer => true | _ => false end.
Definition unreachable (l : LeaseAnswer) : bool := match l with LeaseUnreachable => true | _ => false end.

(** What the lease alone decides, and the inputs a finished partition reports. *)
Lemma run_partition_result w plan a :
  let r := (run_partition env parse_uuid row_commits cfg w plan a).2 in
  is_held r = held_by_peer (an_lease a) /\ is_unavailable r = unreachable (an_lease a) /\
  forall o k, r = Done o k -> k = zlen (inputs plan).
Proof.
  unfold run_partition. destruct (an_lease a); [|done..].
  destruct (reconcile env parse_uuid a (w_catalog w) plan cfg) as [c [|]]; [|done].
  destruct (an_relisted a); [|done]. cbn [negb]. destruct (stale_inputs c plan); [done|].
  destruct (compact_partition _ _ _ _ _ _ _ _ _ _ _ _ _ _ _ _) as [[[tr w'] evs] [o'|e]]; cbn.
  - split_and!; [done..|]. by intros o k [= _ <-].
  - by destruct (is_resource_failure e).
Qed.

Lemma ran_results w plans rs w' : ran w plans rs w' ->
  zlen rs = zlen plans /\
  tally is_held rs = zlen (List.filter (fun p => held_by_peer (an_lease (answer p))) plans) /\
  tally is_unavailable rs = zlen (List.filter (fun p => unreachable (an_lease (answer p))) plans) /\
  forall n, (forall p, In p plans -> zlen (inputs p) = n) -> Forall (fun r => forall o k, r = Done o k -> k = n) rs.
Proof.
  induction 1 as [w|w p tr w1 events r plans rs w' Hr _ (Hl & Hh & Hu & Hf)]; [by split_and!|].
  pose proof (run_partition_result w p (answer p)) as Hp. rewrite Hr in Hp. cbn in Hp. destruct Hp as (Hh1 & Hu1 & Hk).
  rewrite !zlen_cons, !tally_cons, Hh1, Hu1. cbn [List.filter]. split_and!; [lia| | |].
  - destruct (held_by_peer _); rewrite ?zlen_cons; cbn [b2i]; lia.
  - destruct (unreachable _); rewrite ?zlen_cons; cbn [b2i]; lia.
  - intros n Hn. apply Forall_cons_2; [intros o k ->%Hk; apply Hn; by left|]. apply Hf. intros q Hq. apply Hn. by right.
Qed.

Lemma planned_inputs bs m :
  2 <= fanout cfg -> In m (merges (plan_merges bs cfg)) -> zlen (inputs m) = fanout cfg.
Proof.
  intros Hf (k & (ver & _ & Hlen & Hin & _)%merge_of_Some & _)%merges_In. rewrite Hin.
  unfold smallest, zlen in *. rewrite length_take, (Permutation_length (sort_by_key_perm _ _)). lia.
Qed.

(** C31. A pass accounts for its plan.  It ends without a report only when the policy is
    invalid or the catalog cannot be read, and then nothing has changed.  Otherwise every
    planned merge is run after the due reaps, each in the world the one before left, and the report says what
    became of them: [merges], [aborted], [lease_held], [lease_unavailable],
    [partition_failed] and [resource_failed] are exactly the numbers of partitions with
    that result, which with the stale ones make up the plan; the leases held by a peer or
    unreachable are those of the provider's answers; a merge consumed [fanout] blocks and
    produced one, of the bytes reported; and every reap that was due is counted as done or
    failed. *)
Theorem pass_accounts_for_plan (w : World St) now blocks_read reaps_read :
  let plan := catalog_plan (w_catalog w) cfg in
  let '(tr, w', events, r) := run_compaction_pass env parse_uuid row_commits w cfg now blocks_read reaps_read answer in
  match r with
  | Err e =>
      tr = [] /\ w' = w /\ events = [] /\
      match e with
      | InvalidPolicy v => Compaction.validate cfg = Err v
      | ListBlocksFailed => Compaction.validate cfg = Ok tt /\ blocks_read = false
      | PendingReapsFailed => Compaction.validate cfg = Ok tt /\ blocks_read = true /\ reaps_read = false
      end
  | Ok rep =>
      Compaction.validate cfg = Ok tt /\ blocks_read = true /\ reaps_read = true /\
      (exists tr1 w1 rep1 events1 rs,
        reap_pending (me_uuid_str env) (me_civil env) (me_today env) (me_path_from env) row_commits w
          (report_oversized (zlen (oversized plan))) (list_pending_reaps (w_catalog w) now) = (tr1, w1, rep1, events1) /\
        ran w1 (merges plan) rs w' /\
        cr_merges rep = tally is_merged rs /\ cr_aborted rep = tally is_aborted rs /\
        cr_lease_held rep = tally is_held rs /\ cr_lease_unavailable rep = tally is_unavailable rs /\
        cr_partition_failed rep = tally is_failed rs /\ cr_resource_failed rep = tally is_resource_failed rs /\
        cr_merges rep + cr_aborted rep + cr_lease_held rep + cr_lease_unavailable rep + cr_partition_failed rep
          + cr_resource_failed rep + tally is_stale rs = zlen (merges plan) /\
        cr_bytes_out rep = sum_of merged_bytes rs) /\
      cr_lease_held rep = zlen (List.filter (fun p => held_by_peer (an_lease (answer p))) (merges plan)) /\
      cr_lease_unavailable rep = zlen (List.filter (fun p => unreachable (an_lease (answer p))) (merges plan)) /\
      cr_blocks_out rep = cr_merges rep /\
      cr_blocks_in rep = fanout cfg * cr_merges rep /\
      cr_reaped rep + cr_reap_failed rep = zlen (list_pending_reaps (w_catalog w) now) /\
      cr_oversized rep = zlen (oversized plan)
  end.
Proof.
  cbv zeta. unfold run_compaction_pass, pass. destruct (Compaction.validate cfg) as [[]|e] eqn:Ev; [|done].
  destruct blocks_read, reaps_read; cbn [negb]; try done.
  set (plan := catalog_plan (w_catalog w) cfg).
  apply validate_bounds_ancestry in Ev as (Hf & _ & _).
  pose proof (reap_pending_spec (me_uuid_str env) (me_civil env) (me_today env) (me_path_from env) row_commits
    (list_pending_reaps (w_catalog w) now) w (report_oversized (zlen (oversized plan)))) as Hrp.
  pose proof (reap_keeps (me_uuid_str env) (me_civil env) (me_today env) (me_path_from env) row_commits
    (list_pending_reaps (w_catalog w) now) w (report_oversized (zlen (oversized plan)))) as Hk.
  destruct (reap_pending _ _ _ _ _ w _ _) as [[[tr w1] rep] evs] eqn:Hreaped. destruct Hrp as [_ Hreap].
  cbn in Hk, Hreap. pose proof (run_partitions_ran (merges plan) w1) as Hran.
  destruct (run_partitions _ w1 _) as [[[tr' w'] evs'] rs].
  destruct (ran_results _ _ _ _ Hran) as (Hlen & Hh & Hu & Hdone).
  specialize (Hdone (fanout cfg) (fun p Hp => planned_inputs _ p Hf Hp)).
  pose proof (absorb_results (fanout cfg) rs Hdone rep) as [? ? ? ? ? ? ? ? ? ? ? ?].
  pose proof (tally_total rs) as Ht. rewrite Hk in *. cbn in *. split_and!; try (done || lia).
  exists tr, w1. do 2 eexists. exists rs. split_and!; done || lia.
Qed.
End ReportFacts.

(** ** What the planner sees *)

(** C36. The planner's ancestry guard never fires on the catalog's rows: a row does
    not carry [compacted_from], so for every accepted policy and every catalog the
    projected ancestry of a merge is at most [fanout], no partition is reported as
    oversized, and every full partition is planned whatever ancestry its sidecars
    record. *)
Theorem catalog_plan_never_oversized (c : Catalog) (cfg : CompactConfig) :
  Compaction.validate cfg = Ok tt -> oversized (catalog_plan c cfg) = [].
Proof.
  unfold catalog_plan. intros (Hf & Hl & Hg)%validate_bounds_ancestry. rewrite (proj2 (plan_merges_lists cfg _)).
  assert (fanout cfg <= MAX_COMPACTED_ANCESTORS) as Hmax.
  { etrans; [|exact Hg]. transitivity (geometric (fanout cfg) 1); [|apply geometric_mono; lia].
    cbn [geometric]. lia. }
  destruct (omap _ _) as [|o os] eqn:E; [done|]. exfalso.
  assert (In o (omap (oversized_of cfg) (group_blocks cfg (list_blocks c)))) as Hin by (rewrite E; by left).
  apply list_elem_of_In, list_elem_of_omap in Hin as ([k l] & [-> _]%list_elem_of_In%group_blocks_In & Ho).
  pose proof (smallest_unlineaged cfg c k Hf) as Hs. destruct k as [sg [v [d lv]]]. unfold oversized_of in Ho.
  destruct (_ <? fanout cfg); [done|]. rewrite (proj2 (Z.ltb_ge _ _)) in Ho by lia. done.
Qed.

(** ** Witnesses *)

Lemma catalog_plan_never_oversized_witness :
  oversized (catalog_plan demo_catalog demo_cfg) = [].
Proof. apply (catalog_plan_never_oversized demo_catalog demo_cfg). reflexivity. Defined.

Definition demo_answers (lease : LeaseAnswer) : Answers :=
  mkAnswers lease (fun _ _ => []) (fun l => l) (fun _ => true) 50 true 7 9 (fun est => Ok est) true Completes true true 100 100.

Definition demo_run (lease : LeaseAnswer) :=
  run_partition demo_env (fun _ => None) (fun _ => true) demo_cfg demo_world demo_partition (demo_answers lease).

Lemma demo_run_merges :
  match (demo_run (LeaseAcquired true true)).2 with Done (Merged _) 1 => true | _ => false end = true.
Proof. vm_compute. reflexivity. Qed.

Lemma demo_reconciled lease :
  blocks (reconcile demo_env (fun _ => None) (demo_answers lease) demo_catalog demo_partition demo_cfg).1 =
  blocks demo_catalog.
Proof. vm_compute. reflexivity. Qed.

Abbreviation demo_after := (reconcile demo_env (fun _ => None) (demo_answers (LeaseAcquired true true))
  (w_catalog demo_world) demo_partition demo_cfg).1.

Lemma demo_plan_current e r :
  In e (inputs demo_partition) -> blocks demo_after !! uuid (meta e) = Some r ->
  row_to_entry (uuid (meta e)) r = e.
Proof.
  intros [<-|[]]. cbn [w_catalog demo_world]. rewrite demo_reconciled. intros Hr. vm_compute in Hr.
  injection Hr as <-. vm_compute. reflexivity.
Qed.

Lemma demo_out_apart u r k k' :
  blocks demo_after !! u = Some r -> In k out_objects -> In k' (delete_kinds (meta (row_to_entry u r))) ->
  out_path demo_env "logs" demo_live [] 9 7 k <>
    object_path (me_uuid_str demo_env) (me_civil demo_env) (me_today demo_env) (me_path_from demo_env)
      (meta (row_to_entry u r)) k'.
Proof.
  cbn [w_catalog demo_world]. rewrite demo_reconciled. intros Hr Hk Hk'.
  pose proof (demo_catalog_rows u r Hr) as ->. vm_compute in Hr. injection Hr as <-.
  vm_compute in Hk, Hk'. destruct_or?; subst; vm_compute; discriminate.
Qed.

