(* ===== verification/Pipeline.v ===== *)
(** * Pipeline: from an accepted batch to a block in the bucket

    crates/server/src/pipeline.rs, one shard of one signal: a batch is transformed,
    decoded, appended to the write-ahead log of [Wal], merged into the open block and
    acknowledged; a full, aged or schema-bound block is handed, under an upload permit,
    to a task that uploads it and then releases exactly its range of segments; a process
    that starts replays the log into recovery blocks.  [BlockBuilder] is the trait of
    crates/block/src/lib.rs as a class with the laws its documentation states.

    The state is that of the process and of everything it leaves behind; an event is
    one uninterrupted stretch of a task, so a run is any interleaving of ingest, timers,
    uploads that succeed or fail in any order, and crashes that cut the active
    segment. *)

From S2P Require Import Prelude Order Bytes Text Block Compaction Catalog CatalogFacts.
From S2P Require Import Wal.

Definition MAX_INFLIGHT_UPLOADS : Z := 2.

(** [merge] drains its second argument; the records of a builder are what its block
    will hold.  Only builders of one content schema may be merged. *)
Class BlockBuilder (B Rec : Type) := {
  b_new : B;
  is_empty : B -> bool;
  should_close : B -> bool;
  content_schema_key : B -> option Z;
  merge : B -> B -> B;
  records : B -> list Rec;
  records_new : records b_new = [];
  is_empty_records : forall b, is_empty b = true <-> records b = [];
  records_merge : forall b s r,
    is_empty b = true \/ is_empty s = true \/ content_schema_key b = content_schema_key s ->
    r ∈ records (merge b s) <-> r ∈ records b \/ r ∈ records s }.

(** Which live records a merged query leaves out, crates/server/src/query_service.rs. *)
Definition live_record_is_durable (wal_seg : Z) (watermark : option Z) : bool :=
  match watermark with Some h => wal_seg <=? h | None => false end.

Section Pipeline.
  Context {B Rec : Type} `{BlockBuilder B Rec} `{EqDecision Rec}.
  Context (crc32 : bytes -> Z) (max_bytes : Z).
  (** Stamping and redaction of an incoming batch received at a time, redaction of a
      replayed one, and the decoder of the signal, into a fresh builder. *)
  Context (transform : Z -> bytes -> option bytes) (redact_replayed_payload : bytes -> option bytes).
  Context (decode : bytes -> option (B * Z)).
  Context (sha256 : bytes -> bytes) (writer_uuid : Uuid) (signal : string) (shard_index : Z).
  Context (civil : Z -> option (string * string * string)) (today : string * string * string).
  (** The sidecar of an uploaded block; its watermark if it has one. *)
  Context (block_meta : B -> Uuid -> option Z -> BlockMeta).

(** ** State *)

(** An upload task: encoding and uploading, or uploaded and about to release. *)
Record Upload := mkUpload { u_builder : B; low_seg : Z; u_sealed : Z; u_meta : option BlockMeta }.

(** Where the holder of the pipeline's mutex waits for an upload permit: before a
    batch of another schema is committed, or with a block to close and a batch to
    acknowledge. *)
Inductive Waiting :=
| Idle
| Boundary (payload : bytes) (scratch : B)
| Closing (batch : option bytes).

Record Process := mkProcess {
  p_wal : World; builder : B; block_started_at : option Z; block_low_seg : Z;
  in_flight : list Upload; permits : Z; waiting : Waiting }.

(** What outlives a process: blocks in the bucket and the catalog; [promised] the
    acknowledged batches, [open_frames] the batches in the active segment. *)
Record State := mkState {
  process : Process + (World * nat);
  bucket : gmap Uuid (list Rec); catalog : Catalog;
  promised : list bytes; open_frames : list bytes }.

Definition set_process (s : State) (p : Process) : State :=
  mkState (inl p) (bucket s) (catalog s) (promised s) (open_frames s).

(** A block appears under its UUID; UUIDs that are drawn are new, and a recovery UUID
    names one content. *)
Definition put_block (bk : gmap Uuid (list Rec)) (u : Uuid) (b : B) : option (gmap Uuid (list Rec)) :=
  match bk !! u with
  | None => Some (<[u := records b]> bk)
  | Some old => if decide (old = records b) then Some bk else None
  end.

Definition catalog_insert (c : Catalog) (ok : bool) (now : Z) (m : BlockMeta) : Catalog :=
  if ok then (insert_block civil today now c m).1 else c.

(** ** Uploads *)

(** [spawn_upload] once the permit is there. *)
Definition spawn_upload (s : State) (p : Process) : State * Process * bool :=
  if is_empty (builder p) then (s, p, true)
  else match rotate (p_wal p) with
       | (w, Err _) => (s, mkProcess w (builder p) (block_started_at p) (block_low_seg p) (in_flight p)
                             (permits p) (waiting p), false)
       | (w, Ok sealed) =>
           (mkState (process s) (bucket s) (catalog s) (promised s) [],
            mkProcess w b_new None (sealed + 1)
              (in_flight p ++ [mkUpload (builder p) (block_low_seg p) sealed None]) (permits p - 1) (waiting p),
            true)
       end.

Definition mark_block_started (now : Z) (started : option Z) (b : B) : option Z :=
  match started with
  | None => if is_empty b then None else Some now
  | Some t => Some t
  end.

(** ** Ingest *)

Definition boundary (b scratch : B) : bool :=
  negb (is_empty b) && negb (is_empty scratch)
  && negb (bool_decide (content_schema_key b = content_schema_key scratch)).

(** From the append on: the log first, then the open block. *)
Definition commit_batch (now : Z) (s : State) (p : Process) (payload : bytes) (scratch : B) : State :=
  match append crc32 (p_wal p) payload with
  | (w, Err _) => set_process s (mkProcess w (builder p) (block_started_at p) (block_low_seg p) (in_flight p)
                                   (permits p) Idle)
  | (w, Ok _) =>
      let b := merge (builder p) scratch in
      let frames := if current_seq (wal w) =? current_seq (wal (p_wal p)) then open_frames s ++ [payload] else [] in
      let closing := should_close b in
      mkState (inl (mkProcess w b (mark_block_started now (block_started_at p) b) (block_low_seg p) (in_flight p)
                      (permits p) (if closing then Closing (Some payload) else Idle)))
        (bucket s) (catalog s) (if closing then promised s else promised s ++ [payload]) frames
  end.

Definition ingest_at (now received_ns : Z) (s : State) (p : Process) (payload : bytes) : option State :=
  match waiting p with
  | Idle =>
      match transform received_ns payload with
      | None => Some s
      | Some transformed =>
          match decode transformed with
          | None => Some s
          | Some (scratch, _) =>
              if boundary (builder p) scratch
              then Some (set_process s (mkProcess (p_wal p) (builder p) (block_started_at p) (block_low_seg p)
                                          (in_flight p) (permits p) (Boundary transformed scratch)))
              else Some (commit_batch now s p transformed scratch)
          end
      end
  | _ => None
  end.

(** The upload permit is granted to whoever waits for it. *)
Definition granted (now : Z) (s : State) (p : Process) : option State :=
  if permits p <=? 0 then None
  else match waiting p with
       | Idle => None
       | Boundary payload scratch =>
           let '(s, p, ok) := spawn_upload s p in
           let p := mkProcess (p_wal p) (builder p) (block_started_at p) (block_low_seg p) (in_flight p) (permits p) Idle in
           Some (if ok then commit_batch now s p payload scratch else set_process s p)
       | Closing batch =>
           let '(s, p, ok) := spawn_upload s p in
           let p := mkProcess (p_wal p) (builder p) (block_started_at p) (block_low_seg p) (in_flight p) (permits p) Idle in
           Some (mkState (inl p) (bucket s) (catalog s)
                   (if ok then promised s ++ match batch with Some b => [b] | None => [] end else promised s)
                   (open_frames s))
       end.

(** [flush_if_aged]; [flush] closes the block whatever its age. *)
Definition flush_if_aged (now : Z) (max_age : option Z) (s : State) (p : Process) : option State :=
  match waiting p with
  | Idle =>
      if is_empty (builder p) then Some s
      else
        let aged := match max_age, block_started_at p with
                    | Some age, Some t => age <=? now - t
                    | _, _ => true
                    end in
        if aged then Some (set_process s (mkProcess (p_wal p) (builder p) (block_started_at p) (block_low_seg p)
                                            (in_flight p) (permits p) (Closing None)))
        else Some s
  | _ => None
  end.

(** ** The upload task *)

Definition task_ends (s : State) (p : Process) (i : nat) : State :=
  set_process s (mkProcess (p_wal p) (builder p) (block_started_at p) (block_low_seg p)
                   (delete i (in_flight p)) (permits p + 1) (waiting p)).

(** [run_upload] up to the outcome of the upload: the UUID of the block, or a failure
    that leaves the segments for the next start. *)
Definition upload_outcome (s : State) (p : Process) (i : nat) (outcome : option Uuid) : option State :=
  match in_flight p !! i with
  | Some (mkUpload b low sealed None) =>
      match outcome with
      | None => Some (task_ends s p i)
      | Some u =>
          if is_empty b then Some (task_ends s p i)
          else
            bk ← put_block (bucket s) u b;
            let p := mkProcess (p_wal p) (builder p) (block_started_at p) (block_low_seg p)
                       (<[i := mkUpload b low sealed (Some (block_meta b u (Some sealed)))]> (in_flight p))
                       (permits p) (waiting p) in
            Some (mkState (inl p) bk (catalog s) (promised s) (open_frames s))
      end
  | _ => None
  end.

(** The rest of [run_upload]: the segments of the block, then its row. *)
Definition upload_release (s : State) (p : Process) (i : nat) (catalog_ok : bool) (now : Z) : option State :=
  match in_flight p !! i with
  | Some (mkUpload b low sealed (Some m)) =>
      let w := (mark_uploaded (p_wal p) low sealed).1 in
      let p := mkProcess w (builder p) (block_started_at p) (block_low_seg p) (in_flight p) (permits p) (waiting p) in
      Some (task_ends (mkState (process s) (bucket s) (catalog_insert (catalog s) catalog_ok now m)
                         (promised s) (open_frames s)) p i)
  | _ => None
  end.

(** ** Recovery *)

Definition recovery_block_uuid (prefix_digest : bytes) : Uuid :=
  let digest := sha256 (str "scry-wal-recovery-v2" ++ [z2b 0] ++ be_bytes 16 writer_uuid ++ str signal
                          ++ be_bytes 4 shard_index ++ prefix_digest) in
  let b := take 16 digest in
  let b := alter (fun x => z2b (Z.lor (Z.land (b2z x) 15) 64)) 6%nat b in
  from_be (alter (fun x => z2b (Z.lor (Z.land (b2z x) 63) 128)) 8%nat b).

(** The replay: the open recovery block, what was hashed, and what was stored. *)
Record Replay := mkReplay {
  r_builder : B; r_hashed : bytes; r_bucket : gmap Uuid (list Rec); r_catalog : Catalog }.

(** What one upload of a recovery meets: the upload, the catalog, the clock. *)
Record UploadAnswer := mkUploadAnswer { up_ok : bool; up_catalog_ok : bool; up_now : Z }.

(** [None]: a UUID that is taken; [false]: recovery stops with an error.  A list of
    answers that ends early is a process that dies. *)
Definition upload_replay_block (r : Replay) (answers : list UploadAnswer) (high : option Z)
    : option (Replay * list UploadAnswer * bool) :=
  let u := recovery_block_uuid (sha256 (r_hashed r)) in
  match answers with
  | mkUploadAnswer true catalog_ok now :: answers =>
      if is_empty (r_builder r) then Some (mkReplay b_new (r_hashed r) (r_bucket r) (r_catalog r), answers, false)
      else
        bk ← put_block (r_bucket r) u (r_builder r);
        Some (mkReplay b_new (r_hashed r) bk
                (catalog_insert (r_catalog r) catalog_ok now (block_meta (r_builder r) u high)), answers, true)
  | _ => Some (r, answers, false)
  end.

Definition recover_frame (r : Replay) (answers : list UploadAnswer) (wal_payload : bytes)
    : option (Replay * list UploadAnswer * bool) :=
  match redact_replayed_payload wal_payload with
  | None => Some (r, answers, false)
  | Some payload =>
      match decode payload with
      | None => Some (r, answers, false)
      | Some (scratch, _) =>
          '(r, answers, ok) ← (if boundary (r_builder r) scratch then upload_replay_block r answers None
                               else Some (r, answers, true));
          if negb ok then Some (r, answers, false)
          else
            let r := mkReplay (merge (r_builder r) scratch) (r_hashed r ++ be_bytes 8 (zlen payload) ++ payload)
                       (r_bucket r) (r_catalog r) in
            if should_close (r_builder r) then upload_replay_block r answers None
            else Some (r, answers, true)
      end
  end.

(** The loop over [wal.replay()]; the fuel is more than the bytes on disk. *)
Fixpoint recover_loop (fuel : nat) (d : gmap bytes bytes) (it : ReplayIter) (r : Replay)
    (answers : list UploadAnswer) : option (Replay * list UploadAnswer * bool) :=
  match fuel with
  | O => Some (r, answers, false)
  | S fuel =>
      match next crc32 d it with
      | None => Some (r, answers, true)
      | Some (Err _, _) => Some (r, answers, false)
      | Some (Ok payload, it) =>
          '(r, answers, ok) ← recover_frame r answers payload;
          if negb ok then Some (r, answers, false) else recover_loop fuel d it r answers
      end
  end.

(** [open_with_config_and_shard] on what the last process left: [released] whether the
    process lives to release the replayed segments. *)
Definition open_pipeline (s : State) (w : World) (persisted : nat) (answers : list UploadAnswer)
    (released catalog_ok : bool) : option State :=
  match restart w persisted with
  | (w, Err _) => Some (mkState (inr (w, persisted)) (bucket s) (catalog s) (promised s) (open_frames s))
  | (w, Ok _) =>
      let dead (r : Replay) := mkState (inr (w, 0%nat)) (r_bucket r) (r_catalog r) (promised s) [] in
      let replay_high := if current_seq (wal w) =? 0 then None else Some (current_seq (wal w) - 1) in
      '(r, answers, ok) ← recover_loop (S (iter_bytes (dir w) (replay w))) (dir w) (replay w)
                            (mkReplay b_new [] (bucket s) (catalog s)) answers;
      if negb ok then Some (dead r)
      else
        '(r, answers, ok) ← (if is_empty (r_builder r) then Some (r, answers, true)
                             else upload_replay_block r answers replay_high);
        if negb ok || negb released then Some (dead r)
        else
          let '(w, c) := match replay_high with
                         | Some high =>
                             ((mark_uploaded w 0 high).1,
                              if catalog_ok then advance_watermark (r_catalog r) writer_uuid signal shard_index high
                              else r_catalog r)
                         | None => (w, r_catalog r)
                         end in
          Some (mkState (inl (mkProcess w (r_builder r) None (current_seq (wal w)) [] MAX_INFLIGHT_UPLOADS Idle))
                  (r_bucket r) c (promised s) [])
  end.

(** ** Runs *)

Inductive Event :=
| EIngest (now received_ns : Z) (payload : bytes)
| EGranted (now : Z)
| EFlush (now : Z) (max_age : option Z)
| EOutcome (i : nat) (outcome : option Uuid)
| ERelease (i : nat) (catalog_ok : bool) (now : Z)
| ECrash (persisted : nat)
| EOpen (answers : list UploadAnswer) (released catalog_ok : bool).

(** The batches of the active segment whose frames a crash cuts off. *)
Definition cut_off (persisted : nat) (frames : list bytes) : list bytes :=
  drop (length (whole_frames crc32 persisted frames)) frames.

(** A crash cuts the active segment; a promise ends only with a frame cut off. *)
Definition crash (s : State) (w : World) (persisted : nat) : State :=
  mkState (inr (w, persisted)) (bucket s) (catalog s)
    (List.filter (fun p => negb (bool_decide (p ∈ cut_off persisted (open_frames s)))) (promised s))
    (open_frames s).

Definition step (s : State) (e : Event) : option State :=
  match process s, e with
  | inl p, EIngest now received_ns payload => ingest_at now received_ns s p payload
  | inl p, EGranted now => granted now s p
  | inl p, EFlush now max_age => flush_if_aged now max_age s p
  | inl p, EOutcome i outcome => upload_outcome s p i outcome
  | inl p, ERelease i catalog_ok now => upload_release s p i catalog_ok now
  | inl p, ECrash persisted => Some (crash s (p_wal p) persisted)
  | inr (w, persisted), EOpen answers released catalog_ok =>
      open_pipeline s w persisted answers released catalog_ok
  | _, _ => None
  end.

Fixpoint run (s : State) (es : list Event) : option State :=
  match es with
  | [] => Some s
  | e :: es => s ← step s e; run s es
  end.

(** An empty directory, opened. *)
Definition pipeline_init (bucket_name : string) : State :=
  mkState (inl (mkProcess (wal_init max_bytes) b_new None 0 [] MAX_INFLIGHT_UPLOADS Idle)) ∅
    (empty_catalog bucket_name) [] [].
End Pipeline.

(** ** What a run keeps *)

Section PipelineFacts.
  Context {B Rec : Type} `{BlockBuilder B Rec} `{EqDecision Rec}.
  Context (crc32 : bytes -> Z) (crc32_range : forall p, in_u32 (crc32 p)) (max_bytes : Z).
  Context (transform : Z -> bytes -> option bytes) (redact_replayed_payload : bytes -> option bytes).
  Context (decode : bytes -> option (B * Z)).
  Context (sha256 : bytes -> bytes) (writer_uuid : Uuid) (signal : string) (shard_index : Z).
  Context (civil : Z -> option (string * string * string)) (today : string * string * string).
  Context (block_meta : B -> Uuid -> option Z -> BlockMeta).
  (** Redaction leaves what was transformed before as it is. *)
  Hypothesis redact_stable : forall t q p, transform t q = Some p -> redact_replayed_payload p = Some p.

  Abbreviation step := (step crc32 transform redact_replayed_payload decode sha256 writer_uuid signal shard_index
    civil today block_meta).
  Abbreviation run := (run crc32 transform redact_replayed_payload decode sha256 writer_uuid signal shard_index
    civil today block_meta).
  Abbreviation State := (@State B Rec).
  Abbreviation Process := (@Process B).
  Abbreviation bucket_of := (gmap Uuid (list Rec)).
  Implicit Types (s : State) (p : bytes) (bk : bucket_of) (a : AbsWal).

(** The records of a batch. *)
Definition recs (p : bytes) : list Rec := match decode p with Some (b, _) => records b | None => [] end.

(** A record is in some block of the bucket. *)
Definition stored bk (r : Rec) : Prop := exists u rs, bk !! u = Some rs /\ r ∈ rs.
Definition durable bk p : Prop := forall r, r ∈ recs p -> stored bk r.

Definition segments (a : AbsWal) : list (Z * list bytes) := sealed a ++ [(active_seq a, active a)].

Definition good p : Prop := redact_replayed_payload p = Some p /\ is_Some (decode p).

(** Whatever releases segment [n] has the records of [p]. *)
Definition covered (low : Z) (b : B) (ups : list (@Upload B)) (n : Z) p : Prop :=
  (low <= n -> forall r, r ∈ recs p -> r ∈ records b) /\
  forall u, u ∈ ups -> low_seg u <= n <= u_sealed u -> forall r, r ∈ recs p -> r ∈ records (u_builder u).

Definition logged a p (K : Z -> Prop) : Prop := exists sp, sp ∈ segments a /\ p ∈ sp.2 /\ K sp.1.

Record AliveInv (s : State) (q : Process) (a : AbsWal) : Prop := {
  al_rel : wal_rel crc32 (p_wal q) a;
  al_max : max_segment_bytes (wal (p_wal q)) = max_bytes;
  al_frames : open_frames s = active a;
  al_good : forall sp p, sp ∈ segments a -> p ∈ sp.2 -> good p;
  al_low : block_low_seg q <= active_seq a;
  al_flight : forall u, u ∈ in_flight q -> u_sealed u < block_low_seg q;
  al_stored : forall u, u ∈ in_flight q -> is_Some (u_meta u) -> forall r, r ∈ records (u_builder u) ->
    stored (bucket s) r;
  al_permits : permits q + zlen (in_flight q) = MAX_INFLIGHT_UPLOADS;
  al_nonneg : 0 <= permits q;
  al_kept : forall p, p ∈ promised s -> durable (bucket s) p \/
    logged a p (fun n => covered (block_low_seg q) (builder q) (in_flight q) n p);
  al_waiting : match waiting q with
               | Idle | Closing None => True
               | Boundary p b => good p /\ exists k, decode p = Some (b, k)
               | Closing (Some p) => durable (bucket s) p \/
                   logged a p (fun n => covered (block_low_seg q) (builder q) (in_flight q) n p)
               end }.

Record DeadInv (s : State) (w : World) (k : nat) (a : AbsWal) : Prop := {
  de_rel : wal_rel crc32 w a;
  de_max : max_segment_bytes (wal w) = max_bytes;
  de_frames : open_frames s = active a;
  de_good : forall sp p, sp ∈ segments a -> p ∈ sp.2 -> good p;
  de_kept : forall p, p ∈ promised s -> durable (bucket s) p \/ logged (abs_restart crc32 a k) p (fun _ => True) }.

Definition Inv (s : State) (a : AbsWal) : Prop :=
  match process s with
  | inl q => AliveInv s q a
  | inr (w, k) => DeadInv s w k a
  end.

Lemma stored_put bk u b bk' r : put_block bk u b = Some bk' -> stored bk r -> stored bk' r.
Proof.
  unfold put_block. destruct (bk !! u) as [old|] eqn:E; [by case_decide; intros [= <-]|].
  intros [= <-] (v & rs & Hv & Hr). exists v, rs. split; [|done]. rewrite lookup_insert_ne; [done|congruence].
Qed.

Lemma put_stored bk u b bk' r : put_block bk u b = Some bk' -> r ∈ records b -> stored bk' r.
Proof.
  unfold put_block. destruct (bk !! u) as [old|] eqn:E.
  - case_decide as D; [|done]. intros [= <-] Hr. exists u, old. split; [done|]. by rewrite D.
  - intros [= <-] Hr. exists u, (records b). by rewrite lookup_insert_eq.
Qed.

Lemma elem_of_segments_rotate a sp :
  sp ∈ segments (abs_rotate a) <-> sp ∈ segments a \/ sp = (active_seq a + 1, []).
Proof. unfold segments, abs_rotate. cbn [sealed active_seq active]. by rewrite elem_of_app, list_elem_of_singleton. Qed.

(** ** Rotation and append on the abstract log *)

Lemma logged_rotate a p K : logged a p K -> logged (abs_rotate a) p K.
Proof. intros (sp & Hs & Hp & HK). exists sp. rewrite elem_of_segments_rotate. auto. Qed.

Lemma logged_impl a p (K K' : Z -> Prop) : (forall n, n <= active_seq a -> K n -> K' n) ->
  Forall (fun n => 0 <= n < active_seq a) (sealed a).*1 -> logged a p K -> logged a p K'.
Proof.
  intros HK Hb (sp & Hs & Hp & Hk). exists sp. split_and!; [done..|]. apply HK; [|done].
  apply elem_of_app in Hs as [Hs| ->%list_elem_of_singleton]; [|cbn; lia].
  rewrite Forall_forall in Hb. specialize (Hb sp.1 ltac:(apply list_elem_of_fmap; eauto)). lia.
Qed.

Lemma elem_of_append_segments a p sp x :
  sp ∈ segments (abs_append crc32 max_bytes a p) -> x ∈ sp.2 -> (exists sp0, sp0 ∈ segments a /\ x ∈ sp0.2) \/ x = p.
Proof.
  unfold abs_append. destruct (MAX_REPLAY_FRAME_BYTES <? zlen p); [by eauto|].
  set (a' := mkAbs (sealed a) (active_seq a) (active a ++ [p])).
  assert (sp ∈ segments a' -> x ∈ sp.2 -> (exists sp0, sp0 ∈ segments a /\ x ∈ sp0.2) \/ x = p) as Ha.
  { unfold segments, a'; cbn [sealed active_seq active]. intros [?| ->%list_elem_of_singleton]%elem_of_app Hx.
    - left. exists sp. split; [apply elem_of_app; by left|done].
    - cbn in Hx. apply elem_of_app in Hx as [Hx|Hx%list_elem_of_singleton]; [left|by right].
      exists (active_seq a, active a). split; [apply elem_of_app; right; by left|done]. }
  case_match; [|done]. intros [?| ->]%elem_of_segments_rotate; [auto|]. intros []%not_elem_of_nil.
Qed.

Lemma logged_append a p (K : Z -> Prop) x : logged a x K -> logged (abs_append crc32 max_bytes a p) x K.
Proof.
  intros (sp & Hs & Hx & HK). unfold abs_append. destruct (MAX_REPLAY_FRAME_BYTES <? zlen p); [by exists sp|].
  set (a' := mkAbs (sealed a) (active_seq a) (active a ++ [p])).
  assert (logged a' x K) as Ha.
  { apply elem_of_app in Hs as [Hs| ->%list_elem_of_singleton].
    - exists sp. split_and!; [apply elem_of_app; by left|done..].
    - exists (active_seq a, active a ++ [p]). split_and!; [apply elem_of_app; right; by left| |done].
      apply elem_of_app. by left. }
  case_match; [by apply logged_rotate|done].
Qed.

Lemma logged_appended a p (K : Z -> Prop) :
  payload_ok p -> K (active_seq a) -> logged (abs_append crc32 max_bytes a p) p K.
Proof.
  intros Hp HK. unfold abs_append, payload_ok in *. destruct (Z.ltb_spec MAX_REPLAY_FRAME_BYTES (zlen p)); [lia|].
  set (a' := mkAbs (sealed a) (active_seq a) (active a ++ [p])).
  assert (logged a' p K) as Ha.
  { exists (active_seq a, active a ++ [p]). split_and!; [apply elem_of_app; right; by left| |done].
    apply elem_of_app. right. by left. }
  case_match; [by apply logged_rotate|done].
Qed.

Lemma append_spec w a p :
  wal_rel crc32 w a -> max_segment_bytes (wal w) = max_bytes -> active_seq a < u64_max ->
  let a' := abs_append crc32 max_bytes a p in
  wal_rel crc32 (append crc32 w p).1 a' /\ max_segment_bytes (wal (append crc32 w p).1) = max_bytes /\
  match (append crc32 w p).2 with
  | Ok _ => payload_ok p /\
      active a' = (if active_seq a' =? active_seq a then active a ++ [p] else [])
  | Err _ => a' = a
  end.
Proof.
  intros Hr Hm Hlt a'. pose proof (run_op_rel crc32 w a (OpAppend p) Hr Hlt) as [Hrel Hmx].
  cbn [run_op abs_op] in Hrel, Hmx. rewrite Hm in Hrel. split_and!; [done|congruence|].
  unfold append, a', abs_append, payload_ok. clear Hrel Hmx.
  destruct (Z.ltb_spec MAX_REPLAY_FRAME_BYTES (zlen p)) as [|Hp]; [done|].
  pose proof (append_push_rel crc32 _ _ Hr _ Hp) as Hpush. cbv zeta.
  pose proof (rel_bytes _ _ _ Hpush) as Hb. cbn [wal current_bytes] in Hb. rewrite Hb in Hpush. cbn [max_segment_bytes current_bytes wal]. rewrite Hb, Hm in *.
  destruct (max_bytes <=? _) eqn:E.
  - pose proof (rotate_rel crc32 _ _ Hpush Hlt) as [Hok _]. cbn [active_seq] in Hok.
    destruct (rotate _) as [w2 r]; cbn [snd] in *. subst r. cbn [snd abs_rotate active_seq active].
    split; [done|]. destruct (Z.eqb_spec (active_seq a + 1) (active_seq a)); [lia|done].
  - cbn [snd active_seq active]. split; [done|]. by rewrite Z.eqb_refl.
Qed.

(** ** Steps of a live process *)

(** The segments are below the active one, which bounds where a covered batch is. *)
Lemma logged_cover a p (K K' : Z -> Prop) w :
  wal_rel crc32 w a -> (forall n, n <= active_seq a -> K n -> K' n) -> logged a p K -> logged a p K'.
Proof. intros Hr HK. apply logged_impl; [done|apply (rel_below _ _ _ Hr)]. Qed.

Lemma spawn_upload_inv s q a :
  AliveInv s q a -> 0 < permits q -> active_seq a < u64_max ->
  exists s' q' a', spawn_upload s q = (s', q', true) /\ AliveInv s' q' a' /\
    is_empty (builder q') = true /\ waiting q' = waiting q /\ promised s' = promised s /\ bucket s' = bucket s /\
    catalog s' = catalog s /\ active_seq a' <= active_seq a + 1.
Proof.
  intros Hi Hp Hlt. unfold spawn_upload. destruct (is_empty (builder q)) eqn:Ee.
  { exists s, q, a. split_and!; [done..|lia]. }
  destruct (rotate_rel crc32 _ _ (al_rel _ _ _ Hi) Hlt) as [Hok Hrel].
  assert (max_segment_bytes (wal (rotate (p_wal q)).1) = max_bytes) as Hmax.
  { rewrite <- (al_max _ _ _ Hi). unfold rotate in *. by case_match. }
  destruct (rotate (p_wal q)) as [w r]; cbn [fst snd] in *. subst r.
  pose proof (al_low _ _ _ Hi) as Hlow. pose proof (al_permits _ _ _ Hi) as Hperm.
  assert (is_empty (b_new : B) = true) as Hnew by apply is_empty_records, records_new.
  set (up := mkUpload (builder q) (block_low_seg q) (active_seq a) None).
  assert (forall p, logged a p (fun n => covered (block_low_seg q) (builder q) (in_flight q) n p) ->
    logged (abs_rotate a) p (fun n => covered (active_seq a + 1) b_new (in_flight q ++ [up]) n p)) as Hcov.
  { intros p Hl. apply logged_rotate. eapply logged_cover; [apply (al_rel _ _ _ Hi)| |exact Hl]. cbv beta.
    intros n Hn [Hb Hu]. split; [lia|]. intros u [Hin| ->%list_elem_of_singleton]%elem_of_app; [by apply Hu|].
    unfold up; cbn [low_seg u_sealed u_builder]. intros [Hn1 _]. by apply Hb. }
  eexists _, _, (abs_rotate a). split_and!; [reflexivity| |done..|cbn; lia].
  split; cbn [p_wal open_frames bucket promised block_low_seg in_flight permits builder waiting]; try done.
  - intros sp p [Hs| ->]%elem_of_segments_rotate; [by apply (al_good _ _ _ Hi)|]. intros []%not_elem_of_nil.
  - intros u [Hin| ->%list_elem_of_singleton]%elem_of_app; [|cbn; lia].
    pose proof (al_flight _ _ _ Hi u Hin). lia.
  - intros u [Hin| ->%list_elem_of_singleton]%elem_of_app; [by apply (al_stored _ _ _ Hi)|]. by intros [? [=]].
  - rewrite zlen_app, zlen_cons, zlen_nil. lia.
  - lia.
  - intros p [Hd|Hl]%(al_kept _ _ _ Hi); [by left|right; by apply Hcov].
  - pose proof (al_waiting _ _ _ Hi) as Hw. destruct (waiting q) as [| |[p|]]; [done|done| |done]. destruct Hw; auto.
Qed.

Lemma merge_keys b scratch : boundary b scratch = false ->
  is_empty b = true \/ is_empty scratch = true \/ content_schema_key b = content_schema_key scratch.
Proof.
  unfold boundary. intros Hb. apply andb_false_iff in Hb as [Hb|Hb].
  - apply andb_false_iff in Hb as [Hb%negb_false_iff|Hb%negb_false_iff]; auto.
  - apply negb_false_iff, bool_decide_eq_true in Hb. auto.
Qed.

Definition alive (s : State) (a : AbsWal) : Prop := exists q, process s = inl q /\ AliveInv s q a.

Lemma commit_batch_inv now s q a p scratch k :
  AliveInv s q a -> waiting q = Idle -> good p -> decode p = Some (scratch, k) ->
  boundary (builder q) scratch = false -> active_seq a < u64_max ->
  exists a', alive (commit_batch crc32 now s q p scratch) a' /\ active_seq a' <= active_seq a + 1.
Proof.
  intros Hi Hidle Hg Hd Hb Hlt. unfold commit_batch.
  pose proof (append_spec _ _ p (al_rel _ _ _ Hi) (al_max _ _ _ Hi) Hlt) as (Hrel & Hmax & Hres). cbv zeta in *.
  pose proof (abs_op_seq crc32 max_bytes a (OpAppend p)) as Hseq. cbn [abs_op] in Hseq.
  destruct (append crc32 (p_wal q) p) as [w [[]|e]]; cbn [fst snd] in *.
  2:{ exists a. split; [|lia]. eexists. split; [done|]. rewrite Hres in Hrel. destruct Hi. by split. }
  destruct Hres as [Hok Hact]. set (a' := abs_append crc32 max_bytes a p) in *.
  exists a'. split; [|lia]. eexists. split; [done|].
  pose proof (merge_keys _ _ Hb) as Hkeys.
  assert (forall x, logged a x (fun n => covered (block_low_seg q) (builder q) (in_flight q) n x) ->
    logged a' x (fun n => covered (block_low_seg q) (merge (builder q) scratch) (in_flight q) n x)) as Hcov.
  { intros x Hl. apply logged_append. eapply logged_cover; [apply (al_rel _ _ _ Hi)| |exact Hl]. cbv beta.
    intros n _ [Hc Hu]. split; [|done]. intros Hn r Hr. apply records_merge; auto. }
  assert (logged a' p (fun n => covered (block_low_seg q) (merge (builder q) scratch) (in_flight q) n p)) as Hnew.
  { apply logged_appended; [done|]. split.
    - intros _ r Hr. apply records_merge; [done|]. right. unfold recs in Hr. by rewrite Hd in Hr.
    - intros u Hu [_ Hn]. pose proof (al_flight _ _ _ Hi u Hu). pose proof (al_low _ _ _ Hi). lia. }
  split; cbn [p_wal open_frames bucket promised block_low_seg in_flight permits builder waiting]; try done.
  - rewrite Hact, (rel_seq _ _ _ Hrel), (rel_seq _ _ _ (al_rel _ _ _ Hi)), (al_frames _ _ _ Hi). done.
  - intros sp x Hs Hx. destruct (elem_of_append_segments a p sp x Hs Hx) as [(sp0 & ? & ?)| ->]; [|done].
    by eapply (al_good _ _ _ Hi).
  - pose proof (al_low _ _ _ Hi). lia.
  - apply (al_flight _ _ _ Hi).
  - apply (al_stored _ _ _ Hi).
  - apply (al_permits _ _ _ Hi).
  - apply (al_nonneg _ _ _ Hi).
  - intros x Hx. assert (x ∈ promised s \/ x = p) as [Hx'| ->].
    { destruct (should_close _); [by left|]. apply elem_of_app in Hx as [?|Hx%list_elem_of_singleton]; auto. }
    + destruct (al_kept _ _ _ Hi x Hx') as [?|?]; [by left|right; by apply Hcov].
    + by right.
  - destruct (should_close _); auto.
Qed.

Lemma granted_inv now s q s' a :
  AliveInv s q a -> granted crc32 now s q = Some s' -> active_seq a + 1 < u64_max ->
  exists a', alive s' a' /\ active_seq a' <= active_seq a + 2.
Proof.
  intros Hi Hs Hlt. unfold granted in Hs. destruct (Z.leb_spec (permits q) 0); [done|].
  destruct (spawn_upload_inv s q a Hi ltac:(lia) ltac:(lia)) as
    (s1 & q1 & a1 & E & Hi1 & Hempty & Hw & Hprom & Hbk & Hcat & Hseq).
  destruct (waiting q) as [|p scratch|batch] eqn:Ew; [done|..]; rewrite E in Hs; injection Hs as <-;
    pose proof (al_waiting _ _ _ Hi1) as Hwait; rewrite Hw in Hwait.
  - destruct Hwait as [Hg [k Hd]].
    set (q2 := mkProcess _ _ _ _ _ _ _).
    assert (AliveInv s1 q2 a1) as Hi2 by (destruct Hi1; split; done).
    destruct (commit_batch_inv now s1 q2 a1 p scratch k Hi2 eq_refl Hg Hd) as (a' & Ha & Hle).
    { unfold boundary, q2; cbn [builder]. by rewrite Hempty. }
    { lia. }
    exists a'. split; [done|lia].
  - exists a1. split; [|lia]. eexists. split; [done|].
    destruct Hi1. split; cbn [p_wal open_frames bucket promised block_low_seg in_flight permits builder waiting]; try done.
    intros x [Hx|Hx]%elem_of_app; [auto|]. destruct batch as [b|]; [|by apply not_elem_of_nil in Hx].
    apply list_elem_of_singleton in Hx as ->. exact Hwait.
Qed.

Lemma ingest_inv now t s q payload s' a :
  process s = inl q -> AliveInv s q a ->
  ingest_at crc32 transform decode now t s q payload = Some s' -> active_seq a < u64_max ->
  exists a', alive s' a' /\ active_seq a' <= active_seq a + 1.
Proof.
  intros Hq Hi Hs Hlt. unfold ingest_at in Hs. destruct (waiting q) eqn:Ew; [|done..].
  assert (exists a', alive s a' /\ active_seq a' <= active_seq a + 1) as Hsame.
  { exists a. split; [by exists q|lia]. }
  destruct (transform t payload) as [p|] eqn:Et; [|by injection Hs as <-].
  destruct (decode p) as [[scratch k]|] eqn:Ed; [|by injection Hs as <-].
  assert (good p) as Hg by (split; [by eapply redact_stable|by rewrite Ed]).
  destruct (boundary (builder q) scratch) eqn:Eb; injection Hs as <-.
  - exists a. split; [|lia]. eexists. split; [done|]. destruct Hi. split; try done. cbn [waiting]. eauto.
  - by eapply commit_batch_inv.
Qed.

Lemma flush_inv now age s q s' a :
  process s = inl q -> AliveInv s q a -> flush_if_aged now age s q = Some s' -> alive s' a.
Proof.
  intros Hq Hi Hs. unfold flush_if_aged in Hs. destruct (waiting q) eqn:Ew; [|done..].
  destruct (is_empty (builder q)); [injection Hs as <-; by exists q|].
  destruct (match age with Some _ => _ | None => _ end); injection Hs as <-; [|by exists q].
  eexists. split; [done|]. destruct Hi. by split.
Qed.

Lemma elem_of_delete_list {A} (l : list A) i x : x ∈ delete i l -> x ∈ l.
Proof.
  revert i. induction l as [|y l IH]; intros [|i]; cbn; [done..| |].
  - intros Hx. by right.
  - intros [->|Hx]%elem_of_cons; [by left|]. right. by eapply IH.
Qed.

Lemma zlen_delete {A} (l : list A) i x : l !! i = Some x -> zlen (delete i l) = zlen l - 1.
Proof.
  intros Hi. pose proof (lookup_lt_Some _ _ _ Hi). unfold zlen. rewrite (length_delete l i) by by eexists. lia.
Qed.

(** A task that ends leaves less to cover. *)
Lemma task_ends_inv s q i u a :
  AliveInv s q a -> in_flight q !! i = Some u -> alive (task_ends s q i) a.
Proof.
  intros Hi Hu. eexists. split; [done|]. pose proof (zlen_delete _ _ _ Hu) as Hz.
  assert (forall p n, covered (block_low_seg q) (builder q) (in_flight q) n p ->
    covered (block_low_seg q) (builder q) (delete i (in_flight q)) n p) as Hcov.
  { intros p n [Hb Hc]. split; [done|]. intros v Hv. by apply Hc, (elem_of_delete_list _ i). }
  assert (forall p, logged a p (fun n => covered (block_low_seg q) (builder q) (in_flight q) n p) ->
    logged a p (fun n => covered (block_low_seg q) (builder q) (delete i (in_flight q)) n p)) as Hlog.
  { intros p (sp & ? & ? & ?). exists sp. auto. }
  destruct Hi. split; cbn [p_wal open_frames bucket promised block_low_seg in_flight permits builder waiting]; try done.
  - intros v Hv. by apply al_flight0, (elem_of_delete_list _ i).
  - intros v Hv. by apply al_stored0, (elem_of_delete_list _ i).
  - lia.
  - lia.
  - intros p [?|?]%al_kept0; [by left|right; by apply Hlog].
  - destruct (waiting q) as [| |[p|]]; [done..| |done]. destruct al_waiting0; auto.
Qed.

Lemma outcome_inv s q i o s' a :
  process s = inl q -> AliveInv s q a -> upload_outcome block_meta s q i o = Some s' -> alive s' a.
Proof.
  intros Hq Hi Hs. unfold upload_outcome in Hs. destruct (in_flight q !! i) as [[b low hi [m|]]|] eqn:Eu; [done| |done].
  destruct o as [u|]; [|injection Hs as <-; by eapply task_ends_inv].
  destruct (is_empty b); [injection Hs as <-; by eapply task_ends_inv|].
  destruct (put_block (bucket s) u b) as [bk|] eqn:Ep; [|done]. cbn [mbind option_bind] in Hs. injection Hs as <-.
  set (v := mkUpload b low hi _).
  assert (forall x, x ∈ <[i:=v]> (in_flight q) -> x = v \/ x ∈ in_flight q) as Hin.
  { intros x (j & Hj)%list_elem_of_lookup. apply list_lookup_insert_Some in Hj as [(_ & <- & _)|[_ Hj]]; [by left|].
    right. by apply list_elem_of_lookup_2 in Hj. }
  assert (mkUpload b low hi None ∈ in_flight q) as Hold by by apply list_elem_of_lookup_2 in Eu.
  assert (forall p, logged a p (fun n => covered (block_low_seg q) (builder q) (in_flight q) n p) ->
    logged a p (fun n => covered (block_low_seg q) (builder q) (<[i:=v]> (in_flight q)) n p)) as Hlog.
  { intros p (sp & ? & ? & [? Hc]). exists sp. split_and!; [done..|]. split; [done|].
    intros x [->|Hx]%Hin; [|by apply Hc]. by apply (Hc _ Hold). }
  eexists. split; [done|].
  destruct Hi. split; cbn [p_wal open_frames bucket promised block_low_seg in_flight permits builder waiting]; try done.
  - intros x [->|Hx]%Hin; [exact (al_flight0 _ Hold)|by apply al_flight0].
  - intros x [->|Hx]%Hin Hm r Hr; [by eapply put_stored|]. eapply stored_put; [done|]. by eapply al_stored0.
  - unfold zlen in *. by rewrite length_insert.
  - intros p [Hd|Hl]%al_kept0; [|right; by apply Hlog]. left. intros r Hr. eapply stored_put; [done|]. by apply Hd.
  - destruct (waiting q) as [| |[p|]]; [done..| |done]. destruct al_waiting0 as [Hd|]; [left|by right; apply Hlog].
    intros r Hr. eapply stored_put; [done|]. by apply Hd.
Qed.

Lemma release_logged a lo hi p K :
  hi < active_seq a -> logged a p K -> logged (abs_release a lo hi) p K \/ exists n, lo <= n <= hi /\ K n.
Proof.
  intros Hh (sp & Hs & Hp & HK). unfold abs_release. destruct (Z.leb_spec (active_seq a) hi); [lia|].
  apply elem_of_app in Hs as [Hs|Hs].
  - destruct ((lo <=? sp.1) && (sp.1 <=? hi)) eqn:E.
    + right. exists sp.1. apply andb_true_iff in E as [?%Z.leb_le ?%Z.leb_le]. auto.
    + left. exists sp. split_and!; [|done..]. apply elem_of_app. left. cbn [sealed].
      apply list_elem_of_In, List.filter_In. split; [by apply list_elem_of_In|]. by rewrite E.
  - left. exists sp. split_and!; [|done..]. apply elem_of_app. by right.
Qed.

Lemma release_segments_sub a lo hi sp : sp ∈ segments (abs_release a lo hi) -> sp ∈ segments a.
Proof.
  unfold abs_release. case_match; [done|]. unfold segments. cbn [sealed active_seq active].
  rewrite !elem_of_app. intros [Hs|?]; [left|by right]. apply list_elem_of_In, List.filter_In in Hs as [Hs _].
  by apply list_elem_of_In.
Qed.

Lemma upload_release_inv s q i ok now s' a :
  process s = inl q -> AliveInv s q a -> upload_release civil today s q i ok now = Some s' ->
  exists a', alive s' a' /\ active_seq a' = active_seq a.
Proof.
  intros Hq Hi Hs. unfold upload_release in Hs. destruct (in_flight q !! i) as [[b low hi [m|]]|] eqn:Eu; [|done..].
  injection Hs as <-. set (u := mkUpload b low hi (Some m)) in *.
  assert (u ∈ in_flight q) as Hu by by apply list_elem_of_lookup_2 in Eu.
  assert (hi < active_seq a) as Hh.
  { pose proof (al_flight _ _ _ Hi u Hu) as Hf. pose proof (al_low _ _ _ Hi). cbn in Hf. lia. }
  set (a' := abs_release a low hi).
  assert (active_seq a' = active_seq a /\ active a' = active a) as [Hseq Hact].
  { unfold a', abs_release. by case_match. }
  exists a'. split; [|done].
  assert (forall p, logged a p (fun n => covered (block_low_seg q) (builder q) (in_flight q) n p) ->
    durable (bucket s) p \/ logged a' p (fun n => covered (block_low_seg q) (builder q) (in_flight q) n p)) as Hlog.
  { intros p Hl. destruct (release_logged _ low hi _ _ Hh Hl) as [?|(n & Hn & [_ Hc])]; [by right|left].
    intros r Hr. apply (al_stored _ _ _ Hi u Hu); [by eexists|]. by apply (Hc u Hu Hn). }
  eapply (task_ends_inv _ _ i u); [|exact Eu].
  pose proof (release_rel crc32 _ _ (al_rel _ _ _ Hi) low hi) as Hrel.
  assert (max_segment_bytes (wal (mark_uploaded (p_wal q) low hi).1) = max_bytes) as Hmax.
  { rewrite <- (al_max _ _ _ Hi). unfold mark_uploaded. by case_match. }
  pose proof (al_waiting _ _ _ Hi) as Hw.
  destruct Hi. split; cbn [p_wal open_frames bucket promised block_low_seg in_flight permits builder waiting]; try done.
  - congruence.
  - intros sp p Hsp. apply al_good0. by eapply release_segments_sub.
  - lia.
  - intros p [?|Hl]%al_kept0; [by left|by apply Hlog].
  - destruct (waiting q) as [| |[p|]]; [done..| |done]. destruct Hw; auto.
Qed.

(** ** Crash and recovery *)

Lemma elem_of_restart_segments a k sp :
  sp ∈ segments (abs_restart crc32 a k) <->
  sp ∈ sealed a \/ sp = (active_seq a, whole_frames crc32 k (active a)) \/ sp = (active_seq a + 1, []).
Proof.
  unfold abs_restart. rewrite elem_of_segments_rotate. unfold segments. cbn [sealed active_seq active].
  rewrite elem_of_app, list_elem_of_singleton. tauto.
Qed.

Lemma restart_segments_sub a k sp p :
  sp ∈ segments (abs_restart crc32 a k) -> p ∈ sp.2 -> exists sp', sp' ∈ segments a /\ p ∈ sp'.2.
Proof.
  intros [Hs|[->| ->]]%elem_of_restart_segments Hp; [..|by apply not_elem_of_nil in Hp].
  - exists sp. split; [apply elem_of_app; by left|done].
  - exists (active_seq a, active a). split; [apply elem_of_app; right; by left|]. cbn in *.
    destruct (whole_frames_prefix crc32 k (active a)) as [tl ->]. apply elem_of_app. by left.
Qed.

Lemma crash_inv s q k a :
  AliveInv s q a -> DeadInv (crash crc32 s (p_wal q) k) (p_wal q) k a.
Proof.
  intros Hi. destruct Hi. split; cbn [open_frames promised bucket crash]; try done.
  intros p Hp. apply list_elem_of_In, List.filter_In in Hp as [Hp Hcut]. apply list_elem_of_In in Hp.
  apply negb_true_iff, bool_decide_eq_false in Hcut. destruct (al_kept0 p Hp) as [?|(sp & Hs & Hps & _)]; [by left|].
  right. apply elem_of_app in Hs as [Hs| ->%list_elem_of_singleton].
  - exists sp. split_and!; [apply elem_of_restart_segments; by left|done..].
  - exists (active_seq a, whole_frames crc32 k (active a)).
    split_and!; [apply elem_of_restart_segments; right; by left| |done]. cbn [snd] in *.
    unfold cut_off in Hcut. rewrite al_frames0 in Hcut.
    destruct (whole_frames_prefix crc32 k (active a)) as [tl Htl].
    rewrite Htl in Hps. apply elem_of_app in Hps as [?|Ht]; [done|]. exfalso. apply Hcut.
    rewrite Htl at 2. by rewrite drop_app_length.
Qed.

Lemma reads_inv d it p ps : reads crc32 d it (p :: ps) ->
  exists it', next crc32 d it = Some (Ok p, it') /\ reads crc32 d it' ps.
Proof.
  intros Hr. pose proof (Hr (S (S (length ps))) ltac:(simpl; lia)) as H1.
  remember (S (length ps)) as f1. cbn [replay_collect] in H1.
  destruct (next crc32 d it) as [[[p'|e] it']|] eqn:E; [|done..].
  destruct (replay_collect crc32 f1 d it') as [[ps'|e]|] eqn:E'; [|done..]. injection H1 as -> ->.
  exists it'. split; [done|]. intros f Hf. specialize (Hr (S f) ltac:(simpl; lia)). cbn [replay_collect] in Hr.
  rewrite E in Hr. destruct (replay_collect crc32 f d it') as [[|]|]; [by injection Hr as ->|done..].
Qed.

Lemma reads_nil_inv d it : reads crc32 d it [] -> next crc32 d it = None.
Proof.
  intros Hr. pose proof (Hr 1%nat ltac:(simpl; lia)) as H1. cbn [replay_collect] in H1.
  by destruct (next crc32 d it) as [[[|] ?]|].
Qed.

Abbreviation Replay := (@Replay B Rec).
Abbreviation upload_replay_block := (upload_replay_block sha256 writer_uuid signal shard_index civil today block_meta).
Abbreviation recover_frame := (recover_frame redact_replayed_payload decode sha256 writer_uuid signal shard_index
  civil today block_meta).
Abbreviation recover_loop := (recover_loop crc32 redact_replayed_payload decode sha256 writer_uuid signal shard_index
  civil today block_meta).

(** A record is in the open recovery block or in the bucket. *)
Definition held (r : Replay) (x : Rec) : Prop := x ∈ records (r_builder r) \/ stored (r_bucket r) x.

(** [r'] follows [r]: nothing stored disappears, and when the step succeeds nothing
    held does. *)
Definition follows (r r' : Replay) (ok : bool) : Prop :=
  (forall x, stored (r_bucket r) x -> stored (r_bucket r') x) /\ (ok = true -> forall x, held r x -> held r' x).

Lemma upload_replay_spec r ans high r' ans' ok :
  upload_replay_block r ans high = Some (r', ans', ok) ->
  follows r r' ok /\ (ok = true -> is_empty (r_builder r') = true).
Proof.
  assert (is_empty (b_new : B) = true) as Hnew by apply is_empty_records, records_new.
  unfold Pipeline.upload_replay_block. destruct ans as [|[[] cok now] ans]; [by intros [= <- <- <-]..| |by intros [= <- <- <-]].
  destruct (is_empty (r_builder r)) eqn:Ee.
  - intros [= <- <- <-]. done.
  - destruct (put_block _ _ _) as [bk|] eqn:Ep; [|done]. cbn [mbind option_bind]. intros [= <- <- <-].
    split; [|done]. split; cbn [r_bucket].
    + intros x. by eapply stored_put.
    + intros _ x [Hx|Hx]; right; cbn [r_bucket]; [by eapply put_stored|by eapply stored_put].
Qed.

Lemma recover_frame_spec r ans p r' ans' ok :
  good p -> recover_frame r ans p = Some (r', ans', ok) ->
  follows r r' ok /\ (ok = true -> forall x, x ∈ recs p -> held r' x).
Proof.
  intros [Hg [[scratch k] Hd]]. unfold Pipeline.recover_frame. rewrite Hg, Hd.
  destruct (if boundary (r_builder r) scratch then _ else _) as [[[r1 ans1] ok1]|] eqn:E1; [|done].
  assert (follows r r1 ok1 /\ (ok1 = true -> boundary (r_builder r1) scratch = false)) as [[Hm1 Hh1] Hb1].
  { destruct (boundary (r_builder r) scratch) eqn:Eb; [|by injection E1 as <- <- <-].
    apply upload_replay_spec in E1 as [Hf He]. split; [done|]. intros Hok. unfold boundary. by rewrite He. }
  cbn [mbind option_bind]. destruct ok1; cbn [negb]; [|by intros [= <- <- <-]].
  specialize (Hb1 eq_refl). specialize (Hh1 eq_refl). apply merge_keys in Hb1.
  set (r2 := mkReplay (merge (r_builder r1) scratch) _ _ _).
  assert (forall x, held r x \/ x ∈ recs p -> held r2 x) as Hr2.
  { intros x [[Hx|Hx]%Hh1|Hx].
    - left. cbn [r_builder r2]. apply records_merge; auto.
    - by right.
    - left. cbn [r_builder r2]. apply records_merge; [done|]. right. unfold recs in Hx. by rewrite Hd in Hx. }
  destruct (should_close (r_builder r2)).
  - intros E2. apply upload_replay_spec in E2 as [[Hm2 Hh2] _]. split; [split|].
    + intros x Hx. apply Hm2. by apply Hm1.
    + intros Hok x Hx. apply Hh2; auto.
    + intros Hok x Hx. apply Hh2; auto.
  - intros [= <- <- <-]. split; [split|]; auto.
Qed.

Lemma recover_loop_spec d ps : forall it fuel r ans r' ans' ok,
  reads crc32 d it ps -> Forall good ps -> recover_loop fuel d it r ans = Some (r', ans', ok) ->
  follows r r' ok /\ (ok = true -> forall p x, p ∈ ps -> x ∈ recs p -> held r' x).
Proof.
  induction ps as [|p ps IH]; intros it fuel r ans r' ans' ok Hr Hg E.
  - destruct fuel as [|fuel]; cbn [Pipeline.recover_loop] in E; [by injection E as <- <- <-|].
    rewrite (reads_nil_inv _ _ Hr) in E. injection E as <- <- <-. split; [done|].
    intros _ p x []%not_elem_of_nil.
  - destruct (reads_inv _ _ _ _ Hr) as (it' & En & Hr').
    destruct fuel as [|fuel]; cbn [Pipeline.recover_loop] in E; [by injection E as <- <- <-|].
    rewrite En in E. apply Forall_cons in Hg as [Hgp Hg].
    destruct (recover_frame r ans p) as [[[r1 ans1] ok1]|] eqn:E1; [|done]. cbn [mbind option_bind] in E.
    apply (recover_frame_spec _ _ _ _ _ _ Hgp) in E1 as [[Hm1 Hh1] Hp1].
    destruct ok1; cbn [negb] in E; [|by injection E as <- <- <-].
    destruct (IH _ _ _ _ _ _ _ Hr' Hg E) as [[Hm Hh] Hps]. split; [split|].
    + intros x Hx. apply Hm. by apply Hm1.
    + intros Hok x Hx. apply Hh; [done|]. by apply Hh1.
    + intros Hok y x [->|Hy]%elem_of_cons Hx; [|by eapply Hps]. apply Hh; [done|]. by apply Hp1.
Qed.

Abbreviation open_pipeline := (open_pipeline crc32 redact_replayed_payload decode sha256 writer_uuid signal shard_index
  civil today block_meta).

Lemma elem_of_replayed a p : p ∈ concat (sealed a).*2 <-> exists sp, sp ∈ sealed a /\ p ∈ sp.2.
Proof.
  rewrite list_elem_of_In, in_concat. split.
  - intros (l & Hl & Hp). apply list_elem_of_In, list_elem_of_fmap in Hl as (sp & -> & Hs).
    exists sp. split; [done|by apply list_elem_of_In].
  - intros (sp & Hs & Hp). exists sp.2. split; [|by apply list_elem_of_In].
    apply list_elem_of_In, list_elem_of_fmap. eauto.
Qed.

(** A start either leaves everything to the next one, or has everything in the
    bucket and an empty log. *)
Lemma open_inv s w k ans released cok s' a :
  DeadInv s w k a -> open_pipeline s w k ans released cok = Some s' -> active_seq a < u64_max ->
  exists a', Inv s' a' /\ active_seq a' <= active_seq a + 1 /\ promised s' = promised s /\
    (forall q, process s' = inl q -> sealed a' = [] /\ active a' = [] /\ forall p, p ∈ promised s' -> durable (bucket s') p).
Proof.
  intros Hi E Hlt. unfold Pipeline.open_pipeline in E.
  destruct (restart_rel crc32 _ _ (de_rel _ _ _ _ Hi) k Hlt) as [Hok Hrel].
  assert (max_segment_bytes (wal (restart w k).1) = max_bytes) as Hmax.
  { rewrite <- (de_max _ _ _ _ Hi). apply (run_op_rel crc32 w a (OpRestart k) (de_rel _ _ _ _ Hi) Hlt). }
  destruct (restart w k) as [w1 r0]; cbn [fst snd] in *. subst r0. set (a1 := abs_restart crc32 a k) in *.
  assert (active_seq a1 = active_seq a + 1 /\ active a1 = []) as [Hseq Hact] by done.
  assert (forall sp p, sp ∈ segments a1 -> p ∈ sp.2 -> good p) as Hgood.
  { intros sp p Hs Hp. destruct (restart_segments_sub _ _ _ _ Hs Hp) as (sp' & ? & ?). by eapply (de_good _ _ _ _ Hi). }
  pose proof (replay_reads crc32 crc32_range _ _ Hrel) as Hreads.
  assert (Forall good (concat (sealed a1).*2)) as Hgs.
  { apply Forall_forall. intros p (sp & Hs & Hp)%elem_of_replayed. apply (Hgood sp p); [|done].
    apply elem_of_app. by left. }
  destruct (recover_loop _ _ _ _ _) as [[[r1 ans1] ok1]|] eqn:E1; [|done]. cbn [mbind option_bind] in E.
  apply (recover_loop_spec _ _ _ _ _ _ _ _ _ Hreads Hgs) in E1 as [[Hm1 Hh1] Hp1].
  assert (forall r : Replay, (forall x, stored (bucket s) x -> stored (r_bucket r) x) ->
    DeadInv (mkState (inr (w1, 0%nat)) (r_bucket r) (r_catalog r) (promised s) []) w1 0 a1) as Hdead.
  { intros r Hm. split; cbn [open_frames promised bucket]; try done.
    intros p [Hd|(sp & Hs & Hp & _)]%(de_kept _ _ _ _ Hi); [left; intros x Hx; by apply Hm, Hd|right].
    exists sp. split_and!; [|done..]. apply elem_of_restart_segments.
    apply elem_of_app in Hs as [?| ->%list_elem_of_singleton]; [by left|]. change (p ∈ active a1) in Hp. rewrite Hact in Hp. by apply not_elem_of_nil in Hp. }
  destruct ok1; cbn [negb] in E.
  2:{ injection E as <-. exists a1. split; [by apply Hdead|]. split_and!; [lia|done|]. intros q [=]. }
  specialize (Hh1 eq_refl). specialize (Hp1 eq_refl).
  destruct (if is_empty (r_builder r1) then _ else _) as [[[r2 ans2] ok2]|] eqn:E2; [|done]. cbn [mbind option_bind] in E.
  assert (follows r1 r2 ok2 /\ (ok2 = true -> is_empty (r_builder r2) = true)) as [[Hm2 Hh2] He2].
  { destruct (is_empty (r_builder r1)) eqn:Ee; [by injection E2 as <- <- <-|by eapply upload_replay_spec]. }
  destruct (negb ok2 || negb released) eqn:Eneg.
  { injection E as <-. exists a1. split; [apply Hdead; auto|]. split_and!; [lia|done|]. intros q [=]. }
  apply orb_false_iff in Eneg as [->%negb_false_iff _]. specialize (Hh2 eq_refl). specialize (He2 eq_refl).
  apply is_empty_records in He2.
  assert (0 <= active_seq a) as Hpos by apply (rel_range _ _ _ (de_rel _ _ _ _ Hi)).
  rewrite (rel_seq _ _ _ Hrel), Hseq in E. destruct (Z.eqb_spec (active_seq a + 1) 0); [lia|].
  replace (active_seq a + 1 - 1) with (active_seq a) in E by lia. injection E as <-.
  set (a2 := abs_release a1 0 (active_seq a)).
  assert (sealed a2 = [] /\ active_seq a2 = active_seq a + 1 /\ active a2 = []) as (Hs2 & Hseq2 & Hact2).
  { unfold a2, abs_release. rewrite Hseq. destruct (Z.leb_spec (active_seq a + 1) (active_seq a)); [lia|].
    cbn [sealed active_seq active]. split_and!; [|done..].
    pose proof (rel_below _ _ _ Hrel) as Hb. rewrite Hseq in Hb. clear -Hb.
    induction (sealed a1) as [|sp l IH]; [done|]. apply Forall_cons in Hb as [Hx Hb]. cbn [List.filter].
    destruct (Z.leb_spec 0 sp.1); [|lia]. destruct (Z.leb_spec sp.1 (active_seq a)); [|lia]. by apply IH. }
  assert (forall p, p ∈ promised s -> durable (r_bucket r2) p) as Hdur.
  { intros p [Hd|(sp & Hs & Hp & _)]%(de_kept _ _ _ _ Hi) x Hx.
    - apply Hm2, Hm1. by apply Hd.
    - assert (held r2 x) as [Hb|]; [|rewrite He2 in Hb; by apply not_elem_of_nil in Hb|done].
      apply Hh2, (Hp1 p); [|done]. apply elem_of_replayed. exists sp. split; [|done].
      apply elem_of_app in Hs as [?| ->%list_elem_of_singleton]; [done|]. change (p ∈ active a1) in Hp. rewrite Hact in Hp. by apply not_elem_of_nil in Hp. }
  pose proof (release_rel crc32 _ _ Hrel 0 (active_seq a)) as Hrel2. fold a2 in Hrel2.
  assert (max_segment_bytes (wal (mark_uploaded w1 0 (active_seq a)).1) = max_bytes) as Hmax2.
  { rewrite <- Hmax. unfold mark_uploaded. by destruct (prepare_release _ _). }
  exists a2. split_and!; [|lia|done|done].
  unfold Inv; cbn [process]. split; cbn [p_wal open_frames bucket promised block_low_seg in_flight permits builder waiting];
    try done.
  - intros sp p Hs Hp. apply (Hgood sp); [|done]. by eapply release_segments_sub.
  - rewrite (rel_seq _ _ _ Hrel2). lia.
  - intros u []%not_elem_of_nil.
  - intros u []%not_elem_of_nil.
  - intros p Hp. left. by apply Hdur.
Qed.

Lemma step_inv_pipeline s e s' a :
  Inv s a -> step s e = Some s' -> active_seq a + 2 <= u64_max ->
  exists a', Inv s' a' /\ active_seq a' <= active_seq a + 2.
Proof.
  assert (forall n a, (exists a', alive s' a' /\ active_seq a' <= n) -> n <= active_seq a + 2 ->
    exists a', Inv s' a' /\ active_seq a' <= active_seq a + 2) as Hal.
  { intros n b (a' & (q & Hq & Hi) & Hle) Hn. exists a'. split; [|lia]. unfold Inv. by rewrite Hq. }
  intros Hi Hs Hlt. unfold Inv, Pipeline.step in *. destruct (process s) as [q|[w k]] eqn:Eq; destruct e; try done.
  - eapply Hal; [eapply ingest_inv; eauto; lia|lia].
  - eapply Hal; [eapply granted_inv; eauto; lia|lia].
  - eapply (Hal (active_seq a)); [exists a; split; [by eapply flush_inv|lia]|lia].
  - eapply (Hal (active_seq a)); [exists a; split; [by eapply outcome_inv|lia]|lia].
  - eapply (Hal (active_seq a)); [|lia]. edestruct upload_release_inv as (a' & ? & ?); [done..|]. exists a'. split; [done|lia].
  - injection Hs as <-. exists a. split; [by apply crash_inv|lia].
  - edestruct open_inv as (a' & ? & ? & _); [done..|lia|]. exists a'. split; [done|lia].
Qed.

Lemma run_inv_pipeline es : forall s s' a,
  Inv s a -> run s es = Some s' -> active_seq a + 2 * zlen es <= u64_max ->
  exists a', Inv s' a' /\ active_seq a' <= active_seq a + 2 * zlen es.
Proof.
  induction es as [|e es IH]; intros s s' a Hi Hr Hlen; cbn [Pipeline.run] in Hr.
  - injection Hr as <-. exists a. split; [done|]. unfold zlen; cbn; lia.
  - destruct (step s e) as [s1|] eqn:Es; [|done]. cbn [mbind option_bind] in Hr.
    rewrite zlen_cons in *. pose proof (zlen_nonneg es).
    destruct (step_inv_pipeline _ _ _ _ Hi Es ltac:(lia)) as (a1 & Hi1 & Hle).
    destruct (IH _ _ _ Hi1 Hr ltac:(lia)) as (a' & ? & ?). exists a'. split; [done|lia].
Qed.

Lemma pipeline_init_inv name : Inv (pipeline_init max_bytes name) abs_init.
Proof.
  unfold Inv, pipeline_init; cbn [process]. split; cbn [p_wal open_frames bucket promised block_low_seg in_flight
    permits builder waiting abs_init active_seq active]; try done; try (intros ? []%not_elem_of_nil).
  - apply wal_init_rel.
  - intros sp p Hs Hp. apply list_elem_of_singleton in Hs as ->. by apply not_elem_of_nil in Hp.
Qed.

(** What a start would read from the directory, all of the active segment having
    reached the disk, or what is left of it after a crash. *)
Definition on_disk (s : State) (p : bytes) : Prop :=
  let w := match process s with
           | inl q => (restart (p_wal q) (length (current (wal (p_wal q))))).1
           | inr (w, k) => (restart w k).1
           end in
  exists ps, p ∈ ps /\ forall fuel, (length ps < fuel)%nat -> replay_collect crc32 fuel (dir w) (replay w) = Some (Ok ps).

Lemma logged_on_disk w k a p :
  wal_rel crc32 w a -> active_seq a < u64_max -> logged (abs_restart crc32 a k) p (fun _ => True) ->
  exists ps, p ∈ ps /\ forall fuel, (length ps < fuel)%nat ->
    replay_collect crc32 fuel (dir (restart w k).1) (replay (restart w k).1) = Some (Ok ps).
Proof.
  intros Hr Hlt (sp & Hs & Hp & _). destruct (restart_rel crc32 _ _ Hr k Hlt) as [_ Hrel].
  eexists. split; [|exact (replay_reads crc32 crc32_range _ _ Hrel)]. apply elem_of_replayed. exists sp. split; [|done].
  apply elem_of_app in Hs as [?| ->%list_elem_of_singleton]; [done|]. by apply not_elem_of_nil in Hp.
Qed.

(** C1. An acknowledged batch is never lost.  In every state that any interleaving of
    batches, flushes, uploads that succeed or fail in any order, releases, crashes and
    starts can reach, every batch that was acknowledged, and whose frame no crash cut
    off the active segment, has all its records in blocks of the bucket, or is read
    back from the log by the next start.  At most [MAX_INFLIGHT_UPLOADS] blocks wait
    for their upload. *)
Theorem acked_batches_survive name es s p :
  2 * zlen es < u64_max -> run (pipeline_init max_bytes name) es = Some s ->
  (p ∈ promised s -> durable (bucket s) p \/ on_disk s p) /\
  forall q, process s = inl q -> zlen (in_flight q) <= MAX_INFLIGHT_UPLOADS.
Proof.
  intros Hlen Hrun. pose proof (run_inv_pipeline es _ _ _ (pipeline_init_inv name) Hrun) as (a & Hi & Hle).
  { cbn [abs_init active_seq]. lia. }
  cbn [abs_init active_seq] in Hle. unfold Inv, on_disk in *. destruct (process s) as [q|[w k]].
  - split.
    + intros [?|Hl]%(al_kept _ _ _ Hi); [by left|right]. apply (logged_on_disk _ _ a); [apply (al_rel _ _ _ Hi)|lia|].
      destruct Hl as (sp & Hs & Hp & _).
      assert (whole_frames crc32 (length (current (wal (p_wal q)))) (active a) = active a) as Hw.
      { rewrite (rel_cur _ _ _ (al_rel _ _ _ Hi)). by apply whole_frames_all. }
      exists sp. split_and!; [|done..]. apply elem_of_restart_segments. rewrite Hw.
      apply elem_of_app in Hs as [?| ->%list_elem_of_singleton]; auto.
    + intros q' [= <-]. pose proof (al_permits _ _ _ Hi). pose proof (al_nonneg _ _ _ Hi). lia.
  - split; [|done]. intros [?|Hl]%(de_kept _ _ _ _ Hi); [by left|right].
    apply (logged_on_disk _ _ a); [apply (de_rel _ _ _ _ Hi)|lia|done].
Qed.

(** ** A start completes *)

Section Completes.
  (** An empty builder is never full. *)
  Hypothesis close_nonempty : forall b : B, should_close b = true -> is_empty b = false.

Definition all_ok (n : nat) (ans : list UploadAnswer) : Prop :=
  Forall (fun x => up_ok x = true) ans /\ (n <= length ans)%nat.

Lemma upload_replay_ok n r ans high r' ans' ok :
  all_ok (S n) ans -> is_empty (r_builder r) = false ->
  upload_replay_block r ans high = Some (r', ans', ok) -> ok = true /\ all_ok n ans'.
Proof.
  intros [Hf Hl] He. unfold Pipeline.upload_replay_block. destruct ans as [|[u c t] ans]; [simpl in Hl; lia|].
  apply Forall_cons in Hf as [Hu Hf]. cbn in Hu. subst u. rewrite He.
  destruct (put_block _ _ _); [|done]. cbn [mbind option_bind]. intros [= <- <- <-]. split; [done|].
  split; [done|]. simpl in Hl. lia.
Qed.

Lemma all_ok_le n m ans : (n <= m)%nat -> all_ok m ans -> all_ok n ans.
Proof. intros Hn [? ?]. split; [done|lia]. Qed.

Lemma recover_frame_ok n r ans p r' ans' ok :
  good p -> all_ok (S (S n)) ans -> recover_frame r ans p = Some (r', ans', ok) -> ok = true /\ all_ok n ans'.
Proof.
  intros [Hg [[scratch k] Hd]] Hans. unfold Pipeline.recover_frame. rewrite Hg, Hd.
  destruct (if boundary (r_builder r) scratch then _ else _) as [[[r1 ans1] ok1]|] eqn:E1; [|done].
  assert (ok1 = true /\ all_ok (S n) ans1) as [-> Hans1].
  { destruct (boundary (r_builder r) scratch) eqn:Eb.
    - eapply upload_replay_ok; [exact Hans| |exact E1]. unfold boundary in Eb.
      by destruct (is_empty (r_builder r)).
    - injection E1 as <- <- <-. split; [done|]. eapply all_ok_le; [|exact Hans]. lia. }
  cbn [mbind option_bind negb]. set (r2 := mkReplay (merge (r_builder r1) scratch) _ _ _).
  destruct (should_close (r_builder r2)) eqn:Ec.
  - apply upload_replay_ok; [done|]. by apply close_nonempty.
  - intros [= <- <- <-]. split; [done|]. eapply all_ok_le; [|exact Hans1]. lia.
Qed.

Lemma reads_length d ps : forall it, reads crc32 d it ps -> (length ps <= iter_bytes d it)%nat.
Proof.
  induction ps as [|p ps IH]; intros it Hr; [simpl; lia|]. destruct (reads_inv _ _ _ _ Hr) as (it' & En & Hr').
  apply next_decreases in En. specialize (IH _ Hr'). simpl. lia.
Qed.

Lemma recover_loop_ok d ps : forall it fuel n r ans r' ans' ok,
  reads crc32 d it ps -> Forall good ps -> (length ps < fuel)%nat -> all_ok (2 * length ps + n) ans ->
  recover_loop fuel d it r ans = Some (r', ans', ok) -> ok = true /\ all_ok n ans'.
Proof.
  induction ps as [|p ps IH]; intros it fuel n r ans r' ans' ok Hr Hg Hfuel Hans E;
    (destruct fuel as [|fuel]; [lia|]); cbn [Pipeline.recover_loop] in E.
  - rewrite (reads_nil_inv _ _ Hr) in E. by injection E as <- <- <-.
  - destruct (reads_inv _ _ _ _ Hr) as (it' & En & Hr'). rewrite En in E. apply Forall_cons in Hg as [Hgp Hg].
    destruct (recover_frame r ans p) as [[[r1 ans1] ok1]|] eqn:E1; [|done]. cbn [mbind option_bind] in E.
    destruct (recover_frame_ok (2 * length ps + n) r ans p r1 ans1 ok1 Hgp) as [Hok Hans1]; [|exact E1|].
    { eapply all_ok_le; [|exact Hans]. simpl. lia. }
    rewrite Hok in E. cbn [negb] in E. eapply IH; [exact Hr'|exact Hg| |exact Hans1|exact E]. simpl in Hfuel. lia.
Qed.

(** C4. A start completes and recovers everything: after any run that ended in a
    crash, if the uploads of the recovery succeed (no more than two for each replayed
    batch and one at the end) and the process lives to release the log, the pipeline
    is up, every promised batch has all its records in the bucket, and the log is
    empty.  No replayed frame can make the start fail. *)
Theorem restart_recovers_all name es s w k :
  2 * zlen es < u64_max -> run (pipeline_init max_bytes name) es = Some s -> process s = inr (w, k) ->
  exists n, forall answers catalog_ok s', all_ok n answers ->
    open_pipeline s w k answers true catalog_ok = Some s' ->
    exists q, process s' = inl q /\ (forall p, p ∈ promised s -> durable (bucket s') p) /\
      replay_collect crc32 1 (dir (p_wal q)) (replay (p_wal q)) = Some (Ok []).
Proof.
  intros Hlen Hrun Hdead. pose proof (run_inv_pipeline es _ _ _ (pipeline_init_inv name) Hrun) as (a & Hi & Hle).
  { cbn [abs_init active_seq]. lia. }
  cbn [abs_init active_seq] in Hle. unfold Inv in Hi. rewrite Hdead in Hi.
  destruct (restart_rel crc32 _ _ (de_rel _ _ _ _ Hi) k ltac:(lia)) as [Hok Hrel].
  set (ps := concat (sealed (abs_restart crc32 a k)).*2).
  exists (2 * length ps + 1)%nat. intros answers cok s' Hans E.
  destruct (open_inv _ _ _ _ _ _ _ _ Hi E ltac:(lia)) as (a' & Hi' & _ & Hprom & Hall).
  assert (exists q, process s' = inl q) as [q Hq].
  { unfold Pipeline.open_pipeline in E.
    pose proof (replay_reads crc32 crc32_range _ _ Hrel) as Hreads.
    destruct (restart w k) as [w1 r0]; cbn [fst snd] in *. subst r0.
    assert (Forall good ps) as Hgs.
    { apply Forall_forall. intros p (sp & Hs & Hp)%elem_of_replayed.
      destruct (restart_segments_sub a k sp p) as (sp' & ? & ?); [apply elem_of_app; by left|done|].
      by eapply (de_good _ _ _ _ Hi). }
    destruct (recover_loop _ _ _ _ _) as [[[r1 ans1] ok1]|] eqn:E1; [|done]. cbn [mbind option_bind] in E.
    apply (recover_loop_ok _ _ _ _ 1 _ _ _ _ _ Hreads Hgs) in E1 as [-> Hans1]; [| |exact Hans].
    2:{ pose proof (reads_length _ _ _ Hreads) as Hl. fold ps in Hl |- *. lia. }
    cbn [negb] in E. destruct (if is_empty (r_builder r1) then _ else _) as [[[r2 ans2] ok2]|] eqn:E2; [|done].
    cbn [mbind option_bind] in E.
    assert (ok2 = true) as ->.
    { destruct (is_empty (r_builder r1)) eqn:Ee; [by injection E2|].
      by destruct (upload_replay_ok 0 _ _ _ _ _ _ Hans1 Ee E2). }
    cbn [negb orb] in E. destruct (match (if _ =? 0 then None else Some _) with Some _ => _ | None => _ end) as [w2 c2].
    injection E as <-. by eexists. }
  exists q. destruct (Hall q Hq) as (Hs & Ha & Hd). split_and!; [done|by rewrite <- Hprom|].
  unfold Inv in Hi'. rewrite Hq in Hi'. pose proof (replay_reads crc32 crc32_range _ _ (al_rel _ _ _ Hi')) as Hr.
  rewrite Hs in Hr. apply Hr. simpl. lia.
Qed.
End Completes.
End PipelineFacts.

(** ** An instance *)

(** Batches of one record each; a block is full at [rows] records; the first byte of a
    record is its schema. *)
Definition demo_key (b : list bytes) : option Z := match b with (x :: _) :: _ => Some (b2z x) | _ => None end.
Definition demo_full (rows : nat) (b : list bytes) : bool :=
  bool_decide (rows <= length b)%nat && negb (bool_decide (b = [])).

#[local] Instance demo_builder (rows : nat) : BlockBuilder (list bytes) bytes := {|
  b_new := []; is_empty := fun b => bool_decide (b = []); should_close := demo_full rows;
  content_schema_key := demo_key; merge := app; records := fun b => b; records_new := eq_refl;
  is_empty_records := fun b => bool_decide_eq_true (b = []);
  records_merge := fun b s r _ => elem_of_app b s r |}.

Definition demo_decode (p : bytes) : option (list bytes * Z) := match p with [] => None | _ => Some ([p], 1) end.
Definition demo_sha (b : bytes) : bytes :=
  be_bytes 16 (fold_left (fun a x => (a * 257 + b2z x + 1) mod 2 ^ 128) b 0) ++ be_bytes 16 0.
Definition demo_block (b : list bytes) (u : Uuid) (seg : option Z) : BlockMeta :=
  mkMeta u "logs" 9 1000 2000 (zlen b) 100 1 0 [] "0.24" None false None None None false None None seg (Some 0).

Abbreviation demo_run rows := (@run (list bytes) bytes (demo_builder rows) _ sum32 (fun _ p => Some p) (fun p => Some p)
  demo_decode demo_sha 9 "logs" 0 (fun _ => Some ("y", "m", "d")) ("y", "m", "d") demo_block
  (@pipeline_init (list bytes) bytes (demo_builder rows) 1000 "b")).

(** The second block is uploaded and released; the upload of the first failed. *)
Definition demo_late_events : list Event :=
  [EIngest 0 0 (str "a"); EGranted 0; EIngest 1 1 (str "b"); EGranted 1; EOutcome 1 (Some 77); EOutcome 0 None;
   ERelease 0 true 5].

Lemma demo_late_runs :
  match demo_run 1 demo_late_events with
  | Some s =>
      match process s with
      | inl q =>
          live_record_is_durable 0 (watermarks (catalog s) !! (9, "logs", 0)) && bool_decide (str "a" ∈ promised s)
          && bool_decide (dir (p_wal q) !! segment_path 0 = Some (frame sum32 (str "a")))
          && bool_decide (bucket s = {[77 := [str "b"]]})
      | inr _ => false
      end
  | None => false
  end = true.
Proof. vm_compute. reflexivity. Qed.

(** C40. The watermark of a shard passes batches that are not in the bucket: a block
    carries the last segment it seals, as if it held every batch up to it, but uploads
    end in any order and fail on their own.  Here the second block is uploaded and
    released while the first has failed: by the catalog's watermark a live record of
    segment 0 counts as durable and is left out of a query, while the acknowledged
    batch of segment 0 is in the log only, and no block has it. *)
Theorem watermark_passes_undurable_batch :
  exists es s q, demo_run 1 es = Some s /\ process s = inl q /\
    live_record_is_durable 0 (watermarks (catalog s) !! (9, "logs", 0)) = true /\
    str "a" ∈ promised s /\ dir (p_wal q) !! segment_path 0 = Some (frame sum32 (str "a")) /\
    forall u rs, bucket s !! u = Some rs -> str "a" ∉ rs.
Proof.
  pose proof demo_late_runs as Hf. destruct (demo_run 1 demo_late_events) as [s|] eqn:Hs; [|done].
  destruct (process s) as [q|] eqn:Hq; [|done]. apply andb_true_iff in Hf as [Hf Hb%bool_decide_eq_true].
  apply andb_true_iff in Hf as [[Hw Hp%bool_decide_eq_true]%andb_true_iff Hd%bool_decide_eq_true].
  eexists _, s, q. split; [exact Hs|]. split_and!; [done..|]. rewrite Hb.
  intros u rs [_ <-]%lookup_singleton_Some. intros [[=]|[]%not_elem_of_nil]%elem_of_cons.
Qed.

(** ** Witnesses *)

#[local] Instance demo_pairs : BlockBuilder (list bytes) bytes := demo_builder 2.

Definition demo_events : list Event :=
  [EIngest 0 0 (str "a1"); EIngest 1 1 (str "a2"); EGranted 1; EIngest 2 2 (str "b1"); EIngest 3 3 (str "c1");
   EGranted 3; EOutcome 0 None; EOutcome 0 (Some 77); ERelease 0 true 4; EIngest 5 5 (str "c2"); ECrash 12].

Definition demo_state : option State := demo_run 2 demo_events.

Lemma demo_state_runs :
  match demo_run 2 demo_events with
  | Some s => bool_decide (str "a1" ∈ promised s) && match process s with inr _ => true | inl _ => false end
  | None => false
  end = true.
Proof. vm_compute. reflexivity. Qed.

Lemma acked_batches_survive_witness :
  match demo_state with
  | Some s => str "a1" ∈ promised s /\
      (durable demo_decode (bucket s) (str "a1") \/ on_disk sum32 s (str "a1"))
  | None => False
  end.
Proof.
  unfold demo_state. pose proof demo_state_runs as Hp. destruct (demo_run 2 demo_events) as [s|] eqn:E; [|done].
  apply andb_true_iff in Hp as [Hp%bool_decide_eq_true _]. split; [done|]. revert Hp.
  apply (acked_batches_survive sum32 sum32_range 1000 (fun _ p => Some p) (fun p => Some p) demo_decode demo_sha 9 "logs" 0
    (fun _ => Some ("y", "m", "d")) ("y", "m", "d") demo_block (fun _ _ _ _ => eq_refl) "b" demo_events s); [|exact E].
  vm_compute. reflexivity.
Defined.

Definition demo_answers : list UploadAnswer := replicate 20 (mkUploadAnswer true true 9).

Lemma demo_full_nonempty (b : list bytes) : should_close b = true -> is_empty b = false.
Proof.
  change (demo_full 2 b = true -> bool_decide (b = []) = false). unfold demo_full.
  intros [_ Hn%negb_true_iff]%andb_true_iff. by rewrite bool_decide_eq_false in *.
Qed.

Lemma restart_recovers_all_witness :
  exists s w k, demo_state = Some s /\ process s = inr (w, k) /\
    exists n, forall answers catalog_ok s', all_ok n answers ->
      open_pipeline sum32 (fun p => Some p) demo_decode demo_sha 9 "logs" 0 (fun _ => Some ("y", "m", "d")) ("y", "m", "d")
        demo_block s w k answers true catalog_ok = Some s' ->
      exists q, process s' = inl q /\ (forall p, p ∈ promised s -> durable demo_decode (bucket s') p) /\
        replay_collect sum32 1 (dir (p_wal q)) (replay (p_wal q)) = Some (Ok []).
Proof.
  unfold demo_state. pose proof demo_state_runs as Hr. destruct (demo_run 2 demo_events) as [s|] eqn:E; [|done].
  apply andb_true_iff in Hr as [_ Hr]. destruct (process s) as [|[w k]] eqn:Hp; [done|]. exists s, w, k. split; [done|]. split; [done|].
  apply (restart_recovers_all sum32 sum32_range 1000 (fun _ p => Some p) (fun p => Some p) demo_decode demo_sha 9 "logs" 0
    (fun _ => Some ("y", "m", "d")) ("y", "m", "d") demo_block (fun _ _ _ _ => eq_refl) demo_full_nonempty "b"
    demo_events s w k); [vm_compute; reflexivity|exact E|exact Hp].
Defined.

(** The recovery of that state: the batches of the failed block and what the crash left. *)
Example demo_recovery :
  match demo_state with
  | Some s =>
      match process s with
      | inr (w, k) =>
          match open_pipeline sum32 (fun p => Some p) demo_decode demo_sha 9 "logs" 0 (fun _ => Some ("y", "m", "d"))
                  ("y", "m", "d") demo_block s w k demo_answers true true with
          | Some s' => map snd (map_to_list (bucket s'))
          | None => []
          end
      | inl _ => []
      end
  | None => []
  end = [[str "c1"]; [str "b1"]; [str "a1"; str "a2"]].
Proof. vm_compute. reflexivity. Qed.
